(* ===== verification/_CoqProject ===== *)
-Q . S2P
Prelude.v
Text.v
Core.v
Isolation.v
Policy.v
Admission.v
Descriptor.v
Matching.v
Pool.v
Placement.v
Requests.v
JobRecord.v
JobStore.v
JobFacts.v
JobSystem.v
JobSafety.v
JobProperties.v
Receipt.v
ReceiptBuild.v
ReceiptProperties.v
ReceiptRuns.v
Session.v
SessionManager.v
SessionSystem.v
SessionSafety.v
SessionPrograms.v
SessionProperties.v
SessionProgress.v
SessionRuns.v
State.v
StateBackend.v
Snapshot.v
Controller.v
Utf8.v
Heads.v
Hello.v
Addresses.v
Egress.v
Routes.v
Auth.v
Api.v
Release.v
ReleaseSteps.v
ReleaseSystem.v
ReleaseFacts.v
ReleaseSafety.v
ReleaseRoutes.v
ReleaseRounds.v
ReleaseReached.v
ReleaseLifecycle.v
ReleasePorts.v
ReleaseRuns.v
ReleaseProperties.v
