(* ===== verification/Prelude.v ===== *)
(** * compute: policy, placement, durable execution, receipts, sessions, control state, releases, egress and the operator API

    [compute] (src/crates/) decides where a workload may run, and runs it.  A
    workload states what it needs; policies state what is allowed; providers
    state what they can do.  The development verifies the decisions between
    them, the durable job manager that carries them out, the receipts that prove
    what was executed, the session manager
    that keeps environments to run commands in, the control state in which the
    environment daemon keeps what it wants to be running, the releases that
    daemon takes from a deployment to serving traffic, the gateway through
    which a session reaches the network, and the API through which operators
    reach the daemon.

    ** The program's parts and how they interact

    A provider answers a capability request; the answer is checked and becomes a
    descriptor (descriptor.rs).  A pool asks its members and caches the answers
    (pool.rs).  Placement matches every descriptor against the requirements
    (matching.rs, which calls the resolver execution uses, lib.rs and host.rs of
    compute-core), asks admission for each provider under the caller's policy
    and the provider's own (policy.rs, admission.rs), orders the candidates and
    selects one (placement.rs).  The selected provider's job manager accepts the
    request, seals it to disk, reserves capacity, admits it again, runs it and
    keeps the evidence; it survives crashes (compute-provider/src/jobs.rs).

    An execution leaves a receipt (compute-core/src/receipt.rs): the runtime makes
    it of what it observed, the provider binds what the request says and attests what
    its project, stack and application bundle required, the job binds its
    reservation, seals and signs it; any reader can verify it.

    A session is an environment that outlives one job: the session manager
    records it, has a provider make its environment, proves it ready with a job
    of its own, runs commands in it as further jobs, and stops, resumes, forks,
    claims, expires and destroys it (compute-provider/src/sessions.rs); callers,
    its own tasks and a sweep do so at the same time, over records fenced by a
    generation.

    Control state is documents in collections, committed in atomic batches
    fenced on versions (compute-state/src/store.rs), in memory or in a file
    (compute-state-memory, compute-state-file).  Readers take coherent snapshots
    of it (snapshot.rs); the daemon keeps a working copy current by chaining its
    own commits onto the revision the copy represents (compute-environment,
    daemon/mod.rs).

    Operators deploy a project's revision to an environment, roll it back, promote
    it, stop and remove it (daemon/deploy.rs, daemon/lifecycle.rs).  A deployment is
    a release: each round of the daemon takes every release in flight one status
    further, from admission over readiness and the network to the switch of traffic,
    its verification through the data plane and the draining of what it replaced, or
    fails it or rolls it back; it adopts services older than releases and stops
    instances that have drained (daemon/release.rs).  All of it works from the working
    copy of desired state and commits batches fenced on the versions read; the routes
    of the data plane follow the traffic assignments (daemon/reconcile.rs).

    A session that may reach the network does so through a gateway that admits
    destinations, checks what a tunnel is for, and adds credentials the session
    never sees (compute-egress).

    Operators reach the daemon over an API: a request is authenticated by a
    credential of control state, which each node caches (auth.rs,
    daemon/operators.rs of compute-environment), authorized by the scope its
    route declares (routes.rs), run and audited (api.rs).

    ** Files

    - [Prelude]: Rust's [Result] and [?], fixed-width arithmetic, [Ord] as a
      class with its laws, sorting, the hint database and tactics.
    - [Text]: [str] and [char] as UTF-8 bytes and code points, [Display] and
      [Debug], JSON values.
    - [Core]: compute-core's vocabulary: runtimes and their versions, network
      and isolation profiles, platforms, errors, resource vectors.
    - [Isolation]: host.rs ([plan], [profile_matrix]) and
      [RuntimeCapabilities::validate], [host_plan], [resolve_isolation].
    - [Policy]: policy.rs: validation, canonical form, intersection,
      composition.
    - [Admission]: admission.rs and the data of contract.rs: [policy_admit] is
      [admit], one definition per dimension it evaluates.
    - [Descriptor]: descriptor.rs: [from_capabilities] and its checks.
    - [Matching]: matching.rs and the data of requirements.rs: [match_provider],
      one definition per dimension.
    - [Pool]: pool.rs and targets.rs: configuration, members, discovery, cache.
    - [Placement]: placement.rs: evaluation, order, selection, failure,
      identity, explanation, and the binding a receipt records.
    - [Requests]: provider requests, their identity, and how they are sealed on
      disk (compute-provider/src/lib.rs, jobs.rs).
    - [JobRecord]: job and reservation records, their state machines, capacity
      arithmetic (compute-core/src/jobs.rs and the helpers of jobs.rs).
    - [JobStore]: the operations of [JobManager] on its directory, as sequences
      of atomic durable writes.
    - [JobFacts]: what each operation does to the job records, at every point
      at which it could be interrupted.
    - [JobSystem]: [JobManager::run] phase by phase, interleaved with the other
      operations, with crashes and recovery, as a step relation.
    - [JobSafety]: the invariant of every reachable state, by induction on the
      steps.
    - [JobProperties]: what the invariant means for capacity, authorization,
      terminal jobs, recovery, fairness, cancellation, ownership and evidence.
    - [Receipt]: receipt.rs: receipts, [seal], [sign], [verify]; the evidence of
      project.rs, stack.rs and app_bundle.rs.
    - [ReceiptBuild]: [create_execution_receipt], [run_identified] of
      compute-runtime, the end of [run_admitted], the binding of a job; receipts as
      an instance of the interface [Evidence] the jobs are proved against.
    - [ReceiptProperties], [ReceiptRuns]: what a verified receipt says; the receipts
      of running jobs, and concrete ones.
    - [Session]: compute-core/src/sessions.rs: identities, the lifecycle, the
      record, requests and commands.
    - [SessionManager]: compute-provider/src/sessions.rs: one program per
      operation and task of [SessionManager], made of atomic actions on the store
      and the manager's sets and of questions to provider, job manager, authority
      and directory; the loop of [advance_owned] is unfolded once per step.
    - [SessionSystem]: what the actions do ([mutate], [settle_execution], the end
      of [create_record]), what may be answered, and the steps of tasks, callers,
      time and crashes.
    - [SessionSafety], [SessionPrograms]: the invariant, programs that keep it
      whatever runs between their actions ([safe]) and finish what they owe
      ([owes]); that every program of the manager does.
    - [SessionProperties], [SessionProgress]: what holds in every reachable state;
      that the loop ends and a destruction completes.
    - [SessionRuns]: a scheduler, concrete runs, and the interleavings behind the
      findings.
    - [State]: store.rs: collections, filters and queries, [apply_in_memory]
      with its undo list, transitions; the reference semantics [spec_batch] on
      one map, and histories of commits.
    - [StateBackend]: the interface [StateStore] and its laws
      [StateStoreLaws], the memory and file backends as instances, the disk and
      its crashes; what any client may rely on, proved from the laws alone.
    - [Snapshot]: snapshot.rs: definitions, [materialize], [build],
      [refresh_at], the registry; reads answer from states of a timeline in
      which other writers commit at any time.
    - [Controller]: [apply] and [catch_up] of the daemon.
    - [Utf8]: [from_utf8], and that decoding and encoding are inverse.
    - [Heads], [Hello], [Addresses], [Egress]: compute-egress/src/lib.rs:
      reading, parsing and forwarding request heads; the server name of a TLS
      ClientHello ([tls_server_name]); IP addresses and [is_public]; the
      configuration, [admit] (here [state_admit]) and [connection], as a function
      from what a connection meets ([World]) to its effects in order.
    - [Routes]: routes.rs: the registry, matching, the most specific route; the
      scopes of auth.rs.
    - [Auth]: auth.rs and daemon/operators.rs: credentials, [mint],
      [authenticate], the handlers that create, revoke and rotate as plans of
      writes and cache updates, and a node beside control state as a step
      relation.
    - [Api]: [dispatch] of api.rs as a function to effects in order; [refused],
      [audit] and [flush_pending_audit] of daemon/operators.rs.
    - [Release]: the records of a release (compute-state/src/model.rs), the typed
      batch and its fenced commit (compute-state/src/control.rs, [Daemon::apply]), the
      working copy [Desired] and its queries, events (daemon/mod.rs).
    - [ReleaseSteps]: daemon/release.rs: [step] and every status it dispatches to,
      [route_to], failing and rolling back, receipts, ports, [drain_instances],
      [adopt_services]; what they ask of the node is a record [Node].
    - [ReleaseSystem]: the operations of daemon/deploy.rs and daemon/lifecycle.rs,
      [sync_endpoints], and the daemon as a step relation: operations, rounds release by
      release with commits that may fail, refreshes, writers of domains and restarts.
    - [ReleaseFacts], [ReleaseSafety], [ReleaseRoutes], [ReleaseRounds],
      [ReleaseReached]: what a commit does to each collection; the invariant [good]
      with the copies a round works from ([covers], [copied]); that [route_to], the
      steps of a release, rounds and operations keep it; hence every reachable state.
    - [ReleaseLifecycle], [ReleasePorts]: the order of statuses and that every write
      moves along it; how ports are planned.
    - [ReleaseRuns], [ReleaseProperties]: a scheduler and concrete runs; the theorems.

    ** What the theorems show

    - Isolation: a host plan enforces what it accepts; resolution accepts
      exactly what a declarative contract of boundaries allows, and its evidence
      claims no more than is enforced.
    - Policy and admission: validation is exact; intersection is a semilattice;
      admission decides exactly the declarative [Satisfies]; the intersection of
      policies admits what both admit and never more (never less either, unless
      both restrict the versions of one runtime differently: version prefixes
      intersect as text, [intersect_versions_not_exact]).
    - Descriptors: a response is accepted exactly when it breaks no check, and
      then the descriptor is well formed ([WellFormedDescriptor]), which is all
      matching and placement assume of one.
    - Matching: compatible means [Serves], stated by the requirements and
      execution's own resolver, so a request placed is a request execution
      accepts, standard input apart ([stdin_not_matched]).
    - Pool and placement: configurations are valid, cached answers are fresh,
      placement always answers, never panics, selects the best eligible provider
      in the documented order independently of the order of discovery, and never
      substitutes a named provider; its receipt binding names what it selected.
    - Jobs: in every state reachable by any interleaving, with crashes at any
      write, reserved capacity fits the provider, only admitted jobs run, ended
      jobs stay as they are, recovery settles every job, capacity goes to the
      oldest job that fits, results read back as written, keys are idempotent
      and jobs are their owner's.  One state is not left
      ([preparing_job_stranded]): a job that recovery finds in preparation.
    - Receipts: the receipt of a running job, from the runtime through the provider
      to the job, verifies exactly when the execution met what the request's project,
      stack and application bundle require; their evidence is what the rest of the
      receipt implies; a signature is over the body it is found on, and does not
      survive a change of it.  Verifying a signature that is not ASCII panics
      ([hostile_signature_panics]).
    - Sessions: in every state reachable by any interleaving, with crashes at any
      write, records keep their terms and follow the lifecycle, the generation
      fences changes, a usable session is proven ready, a teardown is complete
      before it is reported, only what is due expires, a reference names one live
      session of its owner, environments are not orphaned and sessions not
      forgotten, another's session is as unknown; a driven session comes to rest
      in at most five rounds, and a destruction completes when the surroundings
      help.  A command that was recorded and not yet accepted escapes a teardown
      ([destroyed_before_accepted]).
    - Control state: a batch applies as a whole or not at all, though it is
      applied in place and undone; queries answer what they say; on any backend
      a fenced write loses no update and a revision identifies a state; the file
      survives a crash at any point of a write; a snapshot with a revision is
      one state of the store; the daemon misses no other writer and rolls
      forward over its own commits; what stores record of commits is bounded.
    - Egress: a connection reaches only an admitted address of the host it asked
      for; credentials reach only verified hosts they are bound to, and nothing
      else depends on their values; what is forwarded reads back as meant,
      however the bytes arrived; a tunnel is for the host it names; the public
      addresses are the complement of CIDR blocks; what moves was recorded as
      allowed ([egress_audited]); a gateway starts exactly on a sound
      configuration ([start_exact]).
    - Operator API: the registry is sound (every request has at most one most
      specific route, [find_route_exact]); handlers run only for a principal with
      the scope of that route; in production a principal is a credential control
      state holds; a token works as minted; a revocation holds on its node, unless
      a load of credentials was under way ([stale_load_readmits]) or a rotation
      had given the credential a grace period ([grace_outlasts_revocation]); every
      change is audited once, no audit record is lost to an outage, and refusals
      that are recorded are bounded ([refusals_bounded]).

    - Releases: in every state the daemon reaches, traffic goes to instances that serve
      and belong to the current deployment, one release of a project is in flight, one
      that is not switched yet disturbs nothing, the switch and a rollback are atomic and
      leave exactly one deployment serving, statuses only move forward, a release that
      is over has its receipt and never changes, and planned ports do not clash with
      what the working copy holds.  Two releases planned in one round can get the same
      ports ([endpoint_ports_collide]), since the copy is not updated in between; a pass
      in which one instance turns ready and another fails cannot be committed
      ([readiness_failure_refused]).

    ** Conventions

    Unsigned machine integers are [N] with the source's checked or saturating
    operation written out ([checked_add], [saturating_sub] of [Prelude]); a
    string is its UTF-8 bytes.  Instants are nanoseconds since the epoch in [Z].
    An error is a value of [Result]; a possible panic is an [option]
    ([place_with_policy] and its [expect]s) and is proved not to occur, except where
    it does ([verify]).  No
    definition needs fuel except [trim_digest], [chunks], [server_names] and
    [extensions], whose fuel is the length of the string or list they shorten at
    each step.  The loop that advances a session is unfolded step by step, and is
    proved to return.  State versions are [u64] counters that wrap; theorems about
    them ask for room below the maximum; the generation of a session is an
    unbounded [N], as are versions of control state where releases are concerned.  There
    the records of each collection are kept under the key the working copy keeps them
    under, the data of events and the constant fields of receipts are left out, and a
    step reads the clock once; a refresh during a step is the copy it may find later
    (the argument [later]); what a round asks of the node (probes, routes, connections,
    ports that bind, what placement answers) is free in every round.  The clock, generated identifiers, nonces and the
    answers of providers are arguments, so theorems hold for any of them.

    Code outside the sources is a parameter behind a class: SHA-256 of canonical
    JSON ([CanonicalIdentity], [Sha256]), AES-256-GCM ([Aead], with its
    round-trip and authenticity laws [AeadLaws], realised by an instance),
    bundles ([Bundles], [SessionBundles]), Ed25519 ([Ed25519], with the laws
    [Ed25519Laws], realised by an instance), the order [read_dir] lists a directory in ([ReadDir]), the Cloudflare table ([CloudflareTable]), the
    serialization of the state file ([DocumentCodec], with its round trip,
    realised by an instance) and of JSON strings ([JsonQuote]), SHA-256 of
    text ([Sha256Hex]), and the range of [chrono]'s instants ([Chrono], with its
    laws [ChronoLaws], realised by an instance).
    Nothing assumes hashes to be injective: what would need it is stated with
    the identities themselves.  File-system calls succeed, apart from those
    whose failure the source handles as a case of its own; a crash is a separate
    step that keeps any prefix of an operation's writes.  The state file's
    operations may each fail, and a crash may also lose whatever had not been
    synced.

    ** Not modelled

    Process and WebAssembly runtimes, the HTTP server and clients, the command
    line, the daemon's user interface, probes of the operating system, archive
    formats and third-party services are I/O or glue.  Left out, as readers and writers
    of formats around what is modelled: [Policy::from_json], requirements from bundles,
    sessions and computers, dispatch, job logs and output, the serialization of typed
    documents, artifacts in chunks and the FeltDB client, input and logs of sessions.
    Parts of their own that are not modelled: the workspace provider of environments,
    the DNS and ingress tables, the stack lifecycle, the daemon's computers, pools and
    distributed coordination, and how it starts and stops processes of instances
    ([stop_keys], holds and restarts of daemon/reconcile.rs: they do not write what
    releases are made of).
    Of the egress gateway, keys, certificates and TLS itself are outside: whether
    an upstream answers and proves who it is, and what a session sends inside the
    TLS the gateway terminates, are arguments. *)

From stdpp Require Export base strings gmap list fin_maps sorting pretty.
From Stdlib Require Export Ascii Lia.

Declare Scope rust_scope.
Delimit Scope rust_scope with rust.
Global Open Scope rust_scope.

Create HintDb rust discriminated.

(** ** Results and the [?] operator *)

Inductive Result (T E : Type) : Type :=
| Ok (value : T)
| Err (error : E).
Arguments Ok {T E} value.
Arguments Err {T E} error.

#[export] Instance Result_eq_dec `{EqDecision T, EqDecision E} : EqDecision (Result T E).
Proof. solve_decision. Defined.

Definition and_then {T U E} (r : Result T E) (k : T → Result U E) : Result U E :=
  match r with
  | Ok v => k v
  | Err e => Err e
  end.

Definition map_err {T E F} (f : E → F) (r : Result T E) : Result T F :=
  match r with
  | Ok v => Ok v
  | Err e => Err (f e)
  end.

Definition is_ok {T E} (r : Result T E) : bool :=
  match r with Ok _ => true | Err _ => false end.

Notation "'let?' x ':=' c 'in' k" := (and_then c (λ x, k))
  (at level 10, x binder, c at level 200, k at level 200) : rust_scope.
Notation "c ';?;' k" := (and_then c (λ _ : unit, k))
  (at level 199, k at level 200, right associativity) : rust_scope.

(** [if guard { return Err(e); }] *)
Definition reject_if {E} (guard : bool) (e : E) : Result unit E :=
  if guard then Err e else Ok tt.

(** A loop body with [?]: every element in order, stopping at the first error. *)
Fixpoint try_for_each {A E} (f : A → Result unit E) (l : list A) : Result unit E :=
  match l with
  | [] => Ok tt
  | x :: l => f x ;?; try_for_each f l
  end.

Lemma and_then_ok {T U E} (r : Result T E) (k : T → Result U E) v :
  and_then r k = Ok v ↔ ∃ x, r = Ok x ∧ k x = Ok v.
Proof. destruct r; naive_solver. Qed.

Lemma seq_ok {T E} (r : Result unit E) (k : Result T E) v :
  (r ;?; k) = Ok v ↔ r = Ok tt ∧ k = Ok v.
Proof. destruct r as [[]|]; naive_solver. Qed.

Lemma reject_if_ok {E} (b : bool) (e : E) u : reject_if b e = Ok u ↔ b = false.
Proof. destruct b, u; naive_solver. Qed.

Lemma map_err_ok {T E F} (f : E → F) (r : Result T E) v : map_err f r = Ok v ↔ r = Ok v.
Proof. destruct r; naive_solver. Qed.

#[export] Hint Rewrite @seq_ok @reject_if_ok @map_err_ok : result.

Lemma is_ok_spec {T E} (r : Result T E) : is_ok r = true ↔ ∃ v, r = Ok v.
Proof. destruct r; naive_solver. Qed.

(** Walk the guards of a computation that returned [Ok]. *)
Ltac ok_inv :=
  repeat match goal with
  | H : (_ ;?; _) = Ok _ |- _ => apply seq_ok in H as [? ?]
  | H : and_then _ _ = Ok _ |- _ => apply and_then_ok in H as (? & ? & ?)
  | H : reject_if _ _ = Ok _ |- _ => apply reject_if_ok in H
  | H : map_err _ _ = Ok _ |- _ => apply map_err_ok in H
  | H : Ok _ = Ok _ |- _ => injection H as H; subst
  | H : Err _ = Ok _ |- _ => discriminate H
  end.

Lemma try_for_each_ok {A E} (f : A → Result unit E) l :
  try_for_each f l = Ok tt ↔ ∀ x, x ∈ l → f x = Ok tt.
Proof.
  induction l as [|x l IH]; simpl.
  - split; [intros _ ? []%not_elem_of_nil|done].
  - rewrite seq_ok, IH. setoid_rewrite elem_of_cons. naive_solver.
Qed.

(** Guards under [if let]: they pass unless the values are there and fail them. *)
Lemma guard_option {A} (o : option A) (g : A → bool) :
  match o with Some x => g x | None => false end = false ↔ ∀ x, o = Some x → g x = false.
Proof. destruct o; naive_solver. Qed.

Lemma guard_option_2 {A B} (o : option A) (q : option B) (g : A → B → bool) :
  match o, q with Some x, Some y => g x y | _, _ => false end = false ↔
  ∀ x y, o = Some x → q = Some y → g x y = false.
Proof. destruct o, q; naive_solver. Qed.

(** ** Machine integers

    [u32] and [u64] values are [N] below the width's bound, [i64] values are
    [Z]; the operations whose overflow behaviour the code chooses are written
    out at their width. *)

Definition u32_max : N := 4294967295.
Definition u64_max : N := 18446744073709551615.

Definition saturating_add (a b : N) : N := N.min (a + b) u64_max.
Definition saturating_mul (a b : N) : N := N.min (a * b) u64_max.
Definition saturating_sub (a b : N) : N := a - b.
Definition checked_add (max a b : N) : option N :=
  if bool_decide (a + b ≤ max)%N then Some (a + b)%N else None.

Lemma checked_add_Some max a b c : checked_add max a b = Some c ↔ c = (a + b)%N ∧ (a + b ≤ max)%N.
Proof. unfold checked_add. case_bool_decide; naive_solver. Qed.

(** ** Comparisons ([std::cmp::Ordering]) *)

Definition then_with (first second : comparison) : comparison :=
  match first with Eq => second | _ => first end.

Definition is_eq (o : comparison) : bool := match o with Eq => true | _ => false end.
Definition is_lt (o : comparison) : bool := match o with Lt => true | _ => false end.
Definition is_gt (o : comparison) : bool := match o with Gt => true | _ => false end.
Definition is_le (o : comparison) : bool := negb (is_gt o).
Definition is_ge (o : comparison) : bool := negb (is_lt o).

(** A comparator [sort_by] accepts: a total preorder. *)
Class TotalCmp {A} (c : A → A → comparison) : Prop := {
  cmp_flip x y : c y x = CompOpp (c x y);
  cmp_le_trans x y z : c x y ≠ Gt → c y z ≠ Gt → c x z ≠ Gt;
}.

(** The [Ord] trait: a comparator whose [Equal] is equality. *)
Class Ord (A : Type) := cmp : A → A → comparison.
Class OrdLaws (A : Type) `{!Ord A} : Prop := {
  ord_total :: TotalCmp (@cmp A _);
  cmp_eq (x y : A) : cmp x y = Eq ↔ x = y;
}.

Section total_cmp.
Context {A : Type} (c : A → A → comparison) `{!TotalCmp c}.

Lemma cmp_refl x : c x x = Eq.
Proof. pose proof (cmp_flip (c := c) x x) as H. destruct (c x x); done. Qed.

Lemma cmp_gt_lt x y : c x y = Gt ↔ c y x = Lt.
Proof. rewrite (cmp_flip (c := c) x y). destruct (c x y); naive_solver. Qed.

Lemma cmp_eq_sym x y : c x y = Eq ↔ c y x = Eq.
Proof. rewrite (cmp_flip (c := c) x y). destruct (c x y); naive_solver. Qed.

Lemma cmp_le_total x y : c x y ≠ Gt ∨ c y x ≠ Gt.
Proof. rewrite (cmp_flip (c := c) x y). destruct (c x y); naive_solver. Qed.

Lemma cmp_le_antisym x y : c x y ≠ Gt → c y x ≠ Gt → c x y = Eq.
Proof. rewrite (cmp_flip (c := c) x y). destruct (c x y); naive_solver. Qed.

Lemma cmp_lt_le_trans x y z : c x y = Lt → c y z ≠ Gt → c x z = Lt.
Proof.
  intros Hxy Hyz. destruct (c x z) eqn:E; [|done|].
  - exfalso. apply (cmp_eq_sym x z) in E.
    assert (c y x ≠ Gt) as H; [|by rewrite (cmp_flip (c := c) x y), Hxy in H].
    apply (cmp_le_trans y z x); congruence.
  - exfalso. apply (cmp_le_trans x y z); congruence.
Qed.

Lemma cmp_flipped : TotalCmp (λ x y, c y x).
Proof.
  split; [intros x y; apply (cmp_flip (c := c))|].
  intros x y z H1 H2. by apply (cmp_le_trans z y x).
Qed.

Lemma cmp_on {B} (f : B → A) : TotalCmp (λ x y, c (f x) (f y)).
Proof.
  split; [intros x y; apply (cmp_flip (c := c))|].
  intros x y z. apply (cmp_le_trans (c := c)).
Qed.
End total_cmp.

Lemma cmp_eq_le_trans {A} (c : A → A → comparison) `{!TotalCmp c} x y z :
  c x y = Eq → c x z = c y z.
Proof.
  intros Hxy. pose proof Hxy as Hyx%cmp_eq_sym; [|done].
  assert (∀ a b, c a b = Eq → c b a = Eq → c b z = Lt → c a z = Lt) as Hlt.
  { intros a b Hab Hba Hlt. destruct (c a z) eqn:E; [|done|]; exfalso.
    - apply cmp_eq_sym in E; [|done].
      assert (c z b ≠ Gt) as H; [apply (cmp_le_trans (c := c) z a b); congruence|].
      by rewrite (cmp_flip (c := c) b z), Hlt in H.
    - apply (cmp_le_trans (c := c) a b z); congruence. }
  destruct (c x z) eqn:Exz, (c y z) eqn:Eyz; try done;
    first [ by rewrite (Hlt x y) in Exz | by rewrite (Hlt y x) in Eyz
          | exfalso; by apply (cmp_le_trans (c := c) x y z); congruence
          | exfalso; by apply (cmp_le_trans (c := c) y x z); congruence ].
Qed.

Lemma then_with_total {A} (c d : A → A → comparison) `{!TotalCmp c, !TotalCmp d} :
  TotalCmp (λ x y, then_with (c x y) (d x y)).
Proof.
  split.
  - intros x y. rewrite (cmp_flip (c := c)), (cmp_flip (c := d)). by destruct (c x y), (d x y).
  - intros x y z. destruct (c x y) eqn:Exy; simpl; [|intros _|done].
    + rewrite (cmp_eq_le_trans c x y z Exy).
      destruct (c y z); simpl; try done. apply (cmp_le_trans (c := d)).
    + intros Hyz. rewrite (cmp_lt_le_trans c x y z Exy); [done|]. by destruct (c y z).
Qed.

(** ** Stable sorting ([slice::sort_by]) and [dedup]

    For a total preorder the stably sorted permutation of a list is unique, so
    insertion sort computes what the library's merge sort computes. *)

Section sort_by.
Context {A : Type} (c : A → A → comparison).

Fixpoint insert_by (x : A) (l : list A) : list A :=
  match l with
  | [] => [x]
  | y :: l' => match c x y with Gt => y :: insert_by x l' | _ => x :: l end
  end.

Fixpoint sort_by (l : list A) : list A :=
  match l with
  | [] => []
  | x :: l => insert_by x (sort_by l)
  end.

Definition le_by : relation A := λ x y, c x y ≠ Gt.

Lemma insert_by_perm x l : insert_by x l ≡ₚ x :: l.
Proof.
  induction l as [|y l IH]; simpl; [done|].
  destruct (c x y); [done..|]. by rewrite IH, Permutation_swap.
Qed.

Lemma sort_by_perm l : sort_by l ≡ₚ l.
Proof. induction l as [|x l IH]; simpl; [done|]. by rewrite insert_by_perm, IH. Qed.

Lemma elem_of_sort_by x l : x ∈ sort_by l ↔ x ∈ l.
Proof. by rewrite sort_by_perm. Qed.

Lemma length_sort_by l : length (sort_by l) = length l.
Proof. by rewrite sort_by_perm. Qed.

Lemma sort_by_nil l : sort_by l = [] ↔ l = [].
Proof. rewrite <-!length_zero_iff_nil. by rewrite length_sort_by. Qed.

Lemma insert_by_cons x l : Forall (le_by x) l → insert_by x l = x :: l.
Proof. destruct 1 as [|y l Hy]; simpl; [done|]. red in Hy. by destruct (c x y). Qed.

(** A sorted list is left as it is. *)
Lemma sort_by_sorted l : StronglySorted le_by l → sort_by l = l.
Proof. induction 1 as [|x l _ IH HF]; simpl; [done|]. by rewrite IH, insert_by_cons. Qed.

Context `{!TotalCmp c}.

Lemma insert_by_StronglySorted x l :
  StronglySorted le_by l → StronglySorted le_by (insert_by x l).
Proof.
  induction 1 as [|y l Hl IH HF]; simpl; [repeat constructor|].
  destruct (c x y) eqn:E.
  3: { constructor; [done|]. rewrite insert_by_perm. constructor; [|done].
       red. rewrite (cmp_flip (c := c) x y), E. done. }
  all: constructor; [by constructor|]; constructor; [red; congruence|];
    eapply Forall_impl; [exact HF|]; intros z Hz; apply (cmp_le_trans (c := c) x y z); congruence.
Qed.

Lemma sort_by_StronglySorted l : StronglySorted le_by (sort_by l).
Proof. induction l; simpl; [constructor|]. by apply insert_by_StronglySorted. Qed.

(** The result depends on the elements only, not on their order, when no two
    distinct elements compare equal. *)
Lemma sort_by_perm_eq l1 l2 :
  (∀ x y, x ∈ l1 → y ∈ l1 → c x y = Eq → x = y) →
  l1 ≡ₚ l2 → sort_by l1 = sort_by l2.
Proof.
  intros Hinj Hperm.
  apply (StronglySorted_unique_strong le_by); [|apply sort_by_StronglySorted..|].
  - intros x y Hx Hy Hxy Hyx. apply Hinj.
    + by apply elem_of_sort_by.
    + by rewrite elem_of_sort_by, <-Hperm in Hy.
    + by apply cmp_le_antisym.
  - by rewrite !sort_by_perm.
Qed.
End sort_by.

(** [Vec::dedup]: drop an element equal to the one before it. *)
Section dedup.
Context {A : Type} `{!EqDecision A}.

Fixpoint dedup (l : list A) : list A :=
  match l with
  | [] => []
  | x :: l' =>
      match l' with
      | [] => [x]
      | y :: _ => if decide (x = y) then dedup l' else x :: dedup l'
      end
  end.

Lemma elem_of_dedup x l : x ∈ dedup l ↔ x ∈ l.
Proof.
  induction l as [|y l IH]; simpl; [done|]. destruct l as [|z l]; [done|].
  case_decide as E; [|set_solver]. subst. rewrite IH. set_solver.
Qed.

Lemma dedup_cons_ne x y l : x ≠ y → dedup (x :: y :: l) = x :: dedup (y :: l).
Proof. intros Hne. simpl. by rewrite decide_False. Qed.

Lemma dedup_nil l : dedup l = [] ↔ l = [].
Proof.
  destruct l as [|x l]; [done|]. split; [|done]. intros H.
  assert (x ∈ dedup (x :: l)) as Hx by (rewrite elem_of_dedup; set_solver).
  rewrite H in Hx. set_solver.
Qed.

Lemma dedup_NoDup l : NoDup l → dedup l = l.
Proof.
  induction 1 as [|x l Hx Hl IH]; [done|]. simpl. destruct l as [|y l]; [done|].
  rewrite decide_False by set_solver. by rewrite IH.
Qed.

Lemma dedup_Forall (P : A → Prop) l : Forall P l → Forall P (dedup l).
Proof. rewrite !Forall_forall. by setoid_rewrite elem_of_dedup. Qed.

Lemma dedup_StronglySorted R l : StronglySorted R l → StronglySorted R (dedup l).
Proof.
  induction 1 as [|x l Hl IH HF]; [constructor|]. simpl. destruct l as [|y l]; [repeat constructor|].
  case_decide; [done|]. constructor; [done|]. by apply dedup_Forall.
Qed.
End dedup.

(** [iter().collect::<BTreeSet<_>>()] as the list of its elements in order;
    [values.sort(); values.dedup()] computes the same list. *)
Section btree_set.
Context {A : Type} `{!EqDecision A, !Ord A, !OrdLaws A}.

Definition sort (l : list A) : list A := sort_by cmp l.
Definition btree_set (l : list A) : list A := dedup (sort l).

Lemma elem_of_btree_set x (l : list A) : x ∈ btree_set l ↔ x ∈ l.
Proof. unfold btree_set, sort. by rewrite elem_of_dedup, elem_of_sort_by. Qed.

Lemma sorted_dedup_NoDup (l : list A) : StronglySorted (le_by cmp) l → NoDup (dedup l).
Proof.
  induction 1 as [|x l Hl IH HF]; [constructor|]. simpl. destruct l as [|y l]; [repeat constructor; set_solver|].
  case_decide as E; [done|]. constructor; [|done]. rewrite elem_of_dedup.
  intros [->|Hin]%elem_of_cons; [done|]. apply E.
  apply Forall_cons in HF as [Hxy _].
  inversion Hl as [|? ? _ HFy]; subst. rewrite Forall_forall in HFy.
  apply cmp_eq. apply cmp_le_antisym; [apply _|exact Hxy|]. by apply HFy.
Qed.

Lemma btree_set_NoDup (l : list A) : NoDup (btree_set l).
Proof. apply sorted_dedup_NoDup, sort_by_StronglySorted, _. Qed.

Lemma btree_set_StronglySorted (l : list A) : StronglySorted (le_by cmp) (btree_set l).
Proof. apply dedup_StronglySorted, sort_by_StronglySorted, _. Qed.

Lemma btree_set_id (l : list A) : StronglySorted (le_by cmp) l → NoDup l → btree_set l = l.
Proof. intros. unfold btree_set, sort. by rewrite sort_by_sorted, dedup_NoDup. Qed.

Lemma btree_set_idem (l : list A) : btree_set (btree_set l) = btree_set l.
Proof. apply btree_set_id; [apply btree_set_StronglySorted|apply btree_set_NoDup]. Qed.

(** Two lists with the same elements have the same canonical list. *)
Lemma btree_set_ext (l1 l2 : list A) : (∀ x, x ∈ l1 ↔ x ∈ l2) → btree_set l1 = btree_set l2.
Proof.
  intros Heq. rewrite <-(btree_set_idem l1), <-(btree_set_idem l2).
  unfold btree_set at 1 3, sort. f_equal. apply (sort_by_perm_eq _).
  - intros x y _ _. apply cmp_eq.
  - apply NoDup_Permutation; [apply btree_set_NoDup..|].
    intros x. by rewrite !elem_of_btree_set.
Qed.

Lemma btree_set_nil (l : list A) : btree_set l = [] ↔ l = [].
Proof. unfold btree_set, sort. by rewrite dedup_nil, sort_by_nil. Qed.

Lemma length_btree_set_NoDup (l : list A) : length (btree_set l) = length l ↔ NoDup l.
Proof.
  split.
  - intros Hlen. unfold btree_set, sort in Hlen.
    rewrite <-(sort_by_perm cmp l). rewrite <-(length_sort_by cmp l) in Hlen.
    pose proof (sort_by_StronglySorted cmp l) as Hs.
    induction Hs as [|x l' Hl IH HF]; [constructor|].
    assert (length (dedup l') ≤ length l') as Hle.
    { clear. induction l' as [|a l' IH]; [done|]. simpl. destruct l'; [done|].
      case_decide; simpl in *; lia. }
    simpl in Hlen. destruct l' as [|y l']; [repeat constructor; set_solver|].
    case_decide as E; [simpl in *; lia|].
    constructor; [|apply IH; simpl in *; lia].
    assert (NoDup (dedup (x :: y :: l'))) as Hnd by (apply sorted_dedup_NoDup; by constructor).
    rewrite dedup_cons_ne in Hnd by done.
    apply NoDup_cons in Hnd as [Hx _]. by rewrite elem_of_dedup in Hx.
  - intros Hnd. unfold btree_set, sort. rewrite dedup_NoDup; [by rewrite length_sort_by|].
    by rewrite (sort_by_perm cmp l).
Qed.
End btree_set.

(** A filter keeps nothing exactly when the predicate holds of no element. *)
Lemma filter_nil {A} (P : A → Prop) `{!∀ x, Decision (P x)} (l : list A) :
  filter P l = [] ↔ ∀ x, x ∈ l → ¬ P x.
Proof.
  split.
  - intros Hnil x Hin HP. apply (not_elem_of_nil x). rewrite <-Hnil. by apply list_elem_of_filter.
  - intros Hnone. destruct (filter P l) as [|x k] eqn:E; [done|].
    assert (x ∈ filter P l) as [HP Hin]%list_elem_of_filter by (rewrite E; apply list_elem_of_here).
    by destruct (Hnone x Hin).
Qed.

Lemma fmap_eq_Forall2 {A B C} (R : A → B → Prop) (f : A → C) (g : B → C) l k :
  Forall2 R l k → (∀ x y, R x y → f x = g y) → f <$> l = g <$> k.
Proof. intros Hall Heq. induction Hall as [|x y l k Hxy _ IH]; [done|]. simpl. f_equal; auto. Qed.

Lemma filter_ext_in {A} (P Q : A → Prop) `{!∀ x, Decision (P x), !∀ x, Decision (Q x)} (l : list A) :
  (∀ x, x ∈ l → P x ↔ Q x) → filter P l = filter Q l.
Proof.
  induction l as [|x l IH]; intros Heq; [done|]. rewrite !filter_cons, IH by set_solver.
  destruct (decide (P x)), (decide (Q x)); set_solver.
Qed.

(** Three exclusive predicates that cover a list split it. *)
Lemma filter_three {A} (f g h : A → bool) (l : list A) :
  (∀ x, (f x, g x, h x) ∈ [(true, false, false); (false, true, false); (false, false, true)]) →
  filter f l ++ filter g l ++ filter h l ≡ₚ l.
Proof.
  intros Hcover. induction l as [|x l IH]; [done|]. rewrite !filter_cons.
  specialize (Hcover x). rewrite !elem_of_cons, elem_of_nil in Hcover.
  destruct Hcover as [[= -> -> ->]|[[= -> -> ->]|[[= -> -> ->]|[]]]]; simpl.
  - by rewrite IH.
  - by rewrite <-Permutation_middle, IH.
  - by rewrite <-!Permutation_middle, IH.
Qed.

Lemma StronglySorted_lookup {A} (R : A → A → Prop) l i j x y :
  StronglySorted R l → l !! i = Some x → l !! j = Some y → i < j → R x y.
Proof.
  intros Hs. revert i j. induction Hs as [|z l Hs IH HF]; intros i j Hi Hj Hlt; [done|].
  destruct j as [|j]; [lia|]. simpl in Hj. destruct i as [|i]; simpl in Hi.
  - injection Hi as ->. rewrite Forall_forall in HF. apply HF. by eapply list_elem_of_lookup_2.
  - apply (IH i j); [done|done|lia].
Qed.

(** ** [slice::chunks] *)

Fixpoint chunks_up_to {A} (fuel size : nat) (l : list A) : list (list A) :=
  match fuel, l with
  | S fuel, _ :: _ => take size l :: chunks_up_to fuel size (drop size l)
  | _, _ => []
  end.

(** Each chunk takes an element at least, so the length of the list is enough. *)
Definition chunks {A} (size : nat) (l : list A) : list (list A) := chunks_up_to (length l) size l.

Lemma chunks_up_to_spec {A} fuel size (l : list A) :
  size ≠ 0 → length l ≤ fuel →
  concat (chunks_up_to fuel size l) = l ∧
  Forall (λ chunk, 0 < length chunk ≤ size) (chunks_up_to fuel size l).
Proof.
  intros Hs. revert l. induction fuel as [|fuel IH]; intros [|x l] Hl; simpl; [done|simpl in Hl; lia|done|].
  destruct size as [|size]; [done|].
  destruct (IH (drop (S size) (x :: l))) as [Hc Hf]; [rewrite length_drop; simpl in *; lia|].
  split; [by rewrite Hc, take_drop|]. constructor; [|done]. simpl. rewrite length_take. lia.
Qed.

Lemma concat_chunks {A} size (l : list A) : size ≠ 0 → concat (chunks size l) = l.
Proof. intros. by apply chunks_up_to_spec. Qed.

Lemma chunks_length {A} size (l : list A) :
  size ≠ 0 → Forall (λ chunk, 0 < length chunk ≤ size) (chunks size l).
Proof. intros. by apply chunks_up_to_spec. Qed.
