(* ===== verification/Text.v ===== *)
(** Text: what the sources use of Rust's [str], [char] and [String], and the
    JSON values ([serde_json::Value]) that decisions carry as evidence.

    A string is its UTF-8 bytes.  [chars] and [of_chars] decode and encode them,
    so the predicates on characters ([char::is_control],
    [char::is_whitespace]) see code points and the predicates on bytes see
    bytes, as in Rust. *)

From S2P Require Import Prelude.

(** ** Bytes *)

Definition byte_of (c : ascii) : N := N_of_ascii c.

Fixpoint bytes (s : string) : list N :=
  match s with
  | EmptyString => []
  | String c s => byte_of c :: bytes s
  end.

Definition len (s : string) : N := N.of_nat (String.length s).
Definition is_empty (s : string) : bool := match s with EmptyString => true | _ => false end.

Definition in_range (low high x : N) : bool := (N.leb low x && N.leb x high)%bool.
Definition is_ascii_digit (b : N) : bool := in_range 48 57 b.
Definition is_ascii_lowercase (b : N) : bool := in_range 97 122 b.
Definition is_ascii_uppercase (b : N) : bool := in_range 65 90 b.
Definition is_ascii_alphanumeric (b : N) : bool :=
  is_ascii_digit b || is_ascii_lowercase b || is_ascii_uppercase b.
Definition is_ascii_hexdigit (b : N) : bool :=
  is_ascii_digit b || in_range 97 102 b || in_range 65 70 b.
Definition is_ascii_control (b : N) : bool := N.ltb b 32 || N.eqb b 127.

(** [b"...".contains(&byte)] *)
Definition one_of (set : string) (b : N) : bool := bool_decide (b ∈ bytes set).

Definition all_bytes (p : N → bool) (s : string) : bool := forallb p (bytes s).
Definition any_byte (p : N → bool) (s : string) : bool := existsb p (bytes s).

(** ** Characters *)

Fixpoint chars (s : string) : list N :=
  match s with
  | EmptyString => []
  | String a s1 =>
      let n := byte_of a in
      if N.ltb n 128 then n :: chars s1
      else match s1 with
      | EmptyString => []
      | String b s2 =>
          let m := N.land (byte_of b) 63 in
          if N.ltb n 224 then N.lor (N.shiftl (N.land n 31) 6) m :: chars s2
          else match s2 with
          | EmptyString => []
          | String c s3 =>
              let k := N.land (byte_of c) 63 in
              if N.ltb n 240
              then N.lor (N.shiftl (N.land n 15) 12) (N.lor (N.shiftl m 6) k) :: chars s3
              else match s3 with
              | EmptyString => []
              | String d s4 =>
                  N.lor (N.shiftl (N.land n 7) 18)
                    (N.lor (N.shiftl m 12) (N.lor (N.shiftl k 6) (N.land (byte_of d) 63)))
                  :: chars s4
              end
          end
      end
  end.

Definition encode_char (c : N) : string :=
  let tail shift := ascii_of_N (N.lor 128 (N.land (N.shiftr c shift) 63)) in
  if N.ltb c 128 then String (ascii_of_N c) ""
  else if N.ltb c 2048 then String (ascii_of_N (N.lor 192 (N.shiftr c 6))) (String (tail 0%N) "")
  else if N.ltb c 65536 then
    String (ascii_of_N (N.lor 224 (N.shiftr c 12))) (String (tail 6%N) (String (tail 0%N) ""))
  else String (ascii_of_N (N.lor 240 (N.shiftr c 18)))
         (String (tail 12%N) (String (tail 6%N) (String (tail 0%N) ""))).

Definition of_chars (l : list N) : string := foldr (λ c s, encode_char c +:+ s) "" l.

Definition is_control (c : N) : bool := N.ltb c 32 || in_range 127 159 c.
Definition is_whitespace (c : N) : bool :=
  in_range 9 13 c || N.eqb c 32 || N.eqb c 133 || N.eqb c 160 || N.eqb c 5760
  || in_range 8192 8202 c || N.eqb c 8232 || N.eqb c 8233 || N.eqb c 8239
  || N.eqb c 8287 || N.eqb c 12288.

Fixpoint trim_left (l : list N) : list N :=
  match l with
  | [] => []
  | c :: l' => if is_whitespace c then trim_left l' else l
  end.

(** [str::trim] *)
Definition trim (s : string) : string :=
  of_chars (reverse (trim_left (reverse (trim_left (chars s))))).

Definition any_char (p : N → bool) (s : string) : bool := existsb p (chars s).

(** ** Searching and splitting *)

Fixpoint strip_prefix (prefix s : string) : option string :=
  match prefix, s with
  | EmptyString, _ => Some s
  | String a prefix, String b s => if Ascii.eqb a b then strip_prefix prefix s else None
  | String _ _, EmptyString => None
  end.

Definition starts_with (prefix s : string) : bool :=
  match strip_prefix prefix s with Some _ => true | None => false end.

(** [s.contains(pattern)] *)
Fixpoint contains (s pattern : string) : bool :=
  starts_with pattern s ||
  match s with
  | EmptyString => false
  | String _ s => contains s pattern
  end.

Fixpoint split (separator : ascii) (s : string) : list string :=
  match s with
  | EmptyString => [""]
  | String c s' =>
      if Ascii.eqb c separator then "" :: split separator s'
      else match split separator s' with
           | [] => [String c ""]
           | part :: parts => String c part :: parts
           end
  end.

Fixpoint split_once (separator : ascii) (s : string) : option (string * string) :=
  match s with
  | EmptyString => None
  | String c s' =>
      if Ascii.eqb c separator then Some ("", s')
      else match split_once separator s' with
           | Some (head, rest) => Some (String c head, rest)
           | None => None
           end
  end.

Fixpoint join (separator : string) (parts : list string) : string :=
  match parts with
  | [] => ""
  | [part] => part
  | part :: parts => part +:+ separator +:+ join separator parts
  end.

Definition to_lower (c : ascii) : ascii :=
  if is_ascii_uppercase (byte_of c) then ascii_of_N (byte_of c + 32) else c.

Fixpoint to_ascii_lowercase (s : string) : string :=
  match s with
  | EmptyString => EmptyString
  | String c s => String (to_lower c) (to_ascii_lowercase s)
  end.

Definition eq_ignore_ascii_case (s t : string) : bool :=
  String.eqb (to_ascii_lowercase s) (to_ascii_lowercase t).

(** [s.parse::<u64>()] of a string of digits. *)
Fixpoint parse_digits (acc : N) (s : string) : option N :=
  match s with
  | EmptyString => Some acc
  | String c s =>
      if is_ascii_digit (byte_of c) then
        let acc := (10 * acc + (byte_of c - 48))%N in
        if N.leb acc u64_max then parse_digits acc s else None
      else None
  end.

Definition parse_u64 (s : string) : option N :=
  match strip_prefix "+" s with
  | Some digits => if is_empty digits then None else parse_digits 0 digits
  | None => if is_empty s then None else parse_digits 0 s
  end.

Fixpoint escape_debug (s : string) : string :=
  match s with
  | EmptyString => ""
  | String c s =>
      let n := byte_of c in
      (if N.eqb n 34 then String "\" (String c "")
       else if N.eqb n 92 then "\\"
       else if N.eqb n 9 then "\t" else if N.eqb n 10 then "\n" else if N.eqb n 13 then "\r"
       else if N.eqb n 0 then "\0"
       else if is_ascii_control n then
         let hex d := if N.ltb d 10 then ascii_of_N (48 + d) else ascii_of_N (87 + d) in
         "\u{" +:+ (if N.ltb n 16 then String (hex n) ""
                    else String (hex (N.shiftr n 4)) (String (hex (N.land n 15)) "")) +:+ "}"
       else String c "") +:+ escape_debug s
  end.

Definition quote : string := String (ascii_of_N 34) "".

(** [{:?}] of a string; characters outside ASCII are shown as they are. *)
Definition debug_str (s : string) : string := quote +:+ escape_debug s +:+ quote.
Definition debug_strs (l : list string) : string := "[" +:+ join ", " (debug_str <$> l) +:+ "]".

(** ** Orders of the base types *)

#[export] Instance string_ord : Ord string := String.compare.
#[export] Instance N_ord : Ord N := N.compare.
#[export] Instance Z_ord : Ord Z := Z.compare.

Lemma string_leb_spec (x y : string) : String.compare x y ≠ Gt ↔ String.le x y.
Proof. unfold String.le, String.leb. destruct (String.compare x y); naive_solver. Qed.

#[export] Instance string_ord_laws : OrdLaws string.
Proof.
  assert (TotalCmp String.compare) as Htotal.
  { split.
    - intros x y. apply String.compare_antisym.
    - intros x y z. rewrite !string_leb_spec. apply transitivity. }
  split; [done|]. intros x y. split; [apply String.compare_eq_iff|intros ->].
  by apply (cmp_refl String.compare).
Qed.

#[export] Instance N_ord_laws : OrdLaws N.
Proof.
  split; [split|]; unfold cmp, N_ord.
  - intros x y. apply N.compare_antisym.
  - intros x y z. rewrite !N.compare_le_iff. lia.
  - intros x y. apply N.compare_eq_iff.
Qed.

#[export] Instance Z_ord_laws : OrdLaws Z.
Proof.
  split; [split|]; unfold cmp, Z_ord.
  - intros x y. apply Z.compare_antisym.
  - intros x y z. rewrite !Z.compare_le_iff. lia.
  - intros x y. apply Z.compare_eq_iff.
Qed.

(** A derived [Ord] through an injective key. *)
Definition ord_by {A B} `{!Ord B} (f : A → B) : Ord A := λ x y, cmp (f x) (f y).

Lemma ord_by_laws {A B} `{!Ord B, !OrdLaws B} (f : A → B) `{!Inj (=) (=) f} :
  @OrdLaws A (ord_by f).
Proof.
  split; [apply (cmp_on (@cmp B _))|]. intros x y. unfold cmp at 1, ord_by.
  rewrite cmp_eq. split; [apply (inj f)|congruence].
Qed.

(** ** JSON *)

Inductive Value : Type :=
| Null
| Bool (b : bool)
| Number (n : Z)
| Str (s : string)
| Array (l : list Value)
| Object (fields : list (string * Value)).

Fixpoint value_eqb (v w : Value) {struct v} : bool :=
  let fix values (l m : list Value) : bool :=
    match l, m with
    | [], [] => true
    | x :: l, y :: m => value_eqb x y && values l m
    | _, _ => false
    end in
  let fix fields (l m : list (string * Value)) : bool :=
    match l, m with
    | [], [] => true
    | (a, x) :: l, (b, y) :: m => String.eqb a b && value_eqb x y && fields l m
    | _, _ => false
    end in
  match v, w with
  | Null, Null => true
  | Bool a, Bool b => Bool.eqb a b
  | Number a, Number b => Z.eqb a b
  | Str a, Str b => String.eqb a b
  | Array l, Array m => values l m
  | Object l, Object m => fields l m
  | _, _ => false
  end.

Section value_ind.
Variable P : Value → Prop.
Hypothesis HNull : P Null.
Hypothesis HBool : ∀ b, P (Bool b).
Hypothesis HNumber : ∀ n, P (Number n).
Hypothesis HStr : ∀ s, P (Str s).
Hypothesis HArray : ∀ l, Forall P l → P (Array l).
Hypothesis HObject : ∀ l, Forall (λ kv, P kv.2) l → P (Object l).

Fixpoint value_nested_ind (v : Value) : P v :=
  match v with
  | Null => HNull
  | Bool b => HBool b
  | Number n => HNumber n
  | Str s => HStr s
  | Array l => HArray l
      ((fix go l : Forall P l := match l with
        | [] => @Forall_nil_2 _ _
        | x :: l => @Forall_cons_2 _ _ _ _ (value_nested_ind x) (go l) end) l)
  | Object l => HObject l
      ((fix go l : Forall (λ kv, P kv.2) l := match l with
        | [] => @Forall_nil_2 _ _
        | (a, x) :: l => @Forall_cons_2 _ (λ kv, P kv.2) (a, x) _ (value_nested_ind x) (go l) end) l)
  end.
End value_ind.

Lemma value_eqb_eq v w : value_eqb v w = true ↔ v = w.
Proof.
  revert w. induction v as [|b|n|s|l IH|l IH] using value_nested_ind; intros [];
    cbn [value_eqb]; try (by split); try (split; congruence).
  - rewrite Bool.eqb_true_iff. split; congruence.
  - rewrite Z.eqb_eq. split; congruence.
  - rewrite String.eqb_eq. split; congruence.
  - transitivity (l = l0); [|split; congruence].
    revert l0. induction IH as [|x l Hx _ IHl]; intros [|y m]; try (by split).
    rewrite andb_true_iff, Hx, IHl. split; [intros [-> ->]; done|intros [= -> ->]; done].
  - transitivity (l = fields); [|split; congruence].
    revert fields. induction IH as [|[a x] l Hx _ IHl]; intros [|[b y] m]; try (by split).
    rewrite !andb_true_iff, String.eqb_eq, Hx, IHl. simpl.
    split; [intros [[-> ->] ->]; done|intros [= -> -> ->]; done].
Qed.

#[export] Instance value_eq_dec : EqDecision Value.
Proof.
  intros v w. destruct (value_eqb v w) eqn:E; [left|right]; by rewrite <-value_eqb_eq, ?E.
Defined.

(** [json!(value)] of the types decisions mention. *)
Class ToJson (A : Type) := json : A → Value.
#[export] Instance json_value : ToJson Value := λ v, v.
#[export] Instance json_string : ToJson string := Str.
#[export] Instance json_N : ToJson N := λ n, Number (Z.of_N n).
#[export] Instance json_option `{ToJson A} : ToJson (option A) := λ o,
  match o with Some x => json x | None => Null end.
#[export] Instance json_list `{ToJson A} : ToJson (list A) := λ l, Array (json <$> l).

(** Display of the integers inside messages. *)
Definition show (n : N) : string := pretty n.
Definition show_z (n : Z) : string := pretty n.

(** ** Facts about the splitters *)

Lemma strip_prefix_app p s : strip_prefix p (p +:+ s) = Some s.
Proof. induction p as [|a p IH]; [done|]. simpl. by rewrite Ascii.eqb_refl. Qed.

Lemma strip_prefix_Some p s r : strip_prefix p s = Some r → s = p +:+ r.
Proof.
  revert s. induction p as [|a p IH]; intros [|b s]; simpl; intros H; simplify_eq/=; [done|done|].
  destruct (Ascii.eqb_spec a b) as [->|]; [|done]. by rewrite (IH s H).
Qed.

(** A part that does not hold the separator comes back whole. *)
Lemma split_once_app c l r :
  any_byte (N.eqb (byte_of c)) l = false →
  split_once c (l +:+ String c r) = Some (l, r).
Proof.
  induction l as [|a l IH]; simpl; intros H.
  - by rewrite Ascii.eqb_refl.
  - apply orb_false_iff in H as [Ha H]. destruct (Ascii.eqb_spec a c) as [->|].
    + by rewrite N.eqb_refl in Ha.
    + change (String a l +:+ String c r) with (String a (l +:+ String c r)).
      by rewrite (IH H).
Qed.

(** ** Hashes *)

(** SHA-256 of text, in hexadecimal. *)
Class Sha256Hex := sha256_hex : string → string.

(** ** Time *)

(** [t + TimeDelta::seconds(n)]; [None] when it panics. *)
Class Chrono := add_seconds : Z → Z → option Z.

Class ChronoLaws `{!Chrono} : Prop := {
  add_seconds_value t n t' : add_seconds t n = Some t' → t' = (t + n * 10 ^ 9)%Z;
  (** a [TimeDelta] is at most [i64::MAX] milliseconds *)
  add_seconds_bound t n : (2 ^ 63 - 1 < 1000 * Z.abs n)%Z → add_seconds t n = None;
}.

Definition I64_MAX : N := 2 ^ 63 - 1.
