(* ===== verification/Core.v ===== *)
(** Core: the vocabulary of [compute-core] that policy, placement and jobs
    share (src/crates/compute-core/src/lib.rs, dependencies.rs, receipt.rs):
    runtimes and their versions, network and isolation profiles, platforms,
    provider identities, errors and resource vectors. *)

From S2P Require Import Prelude Text.

(** ** Runtimes *)

Inductive RuntimeKind : Type :=
| Wasm | Node | Bun | Deno | Python | Ruby | Php | Jvm | Dotnet | Native | Shell.

#[export] Instance RuntimeKind_eq_dec : EqDecision RuntimeKind.
Proof. solve_decision. Defined.

Module RuntimeKind.
Definition ALL : list RuntimeKind :=
  [Wasm; Node; Bun; Deno; Python; Ruby; Php; Jvm; Dotnet; Native; Shell].

Definition as_str (kind : RuntimeKind) : string :=
  match kind with
  | Wasm => "wasm" | Node => "node" | Bun => "bun" | Deno => "deno"
  | Python => "python" | Ruby => "ruby" | Php => "php" | Jvm => "jvm"
  | Dotnet => "dotnet" | Native => "native" | Shell => "shell"
  end.

(** The derived [Ord] compares declaration positions. *)
Definition position (kind : RuntimeKind) : N :=
  match kind with
  | Wasm => 0 | Node => 1 | Bun => 2 | Deno => 3 | Python => 4 | Ruby => 5
  | Php => 6 | Jvm => 7 | Dotnet => 8 | Native => 9 | Shell => 10
  end.
End RuntimeKind.

#[export] Instance runtime_position_inj : Inj (=) (=) RuntimeKind.position.
Proof. by intros [] []. Qed.
#[export] Instance RuntimeKind_ord : Ord RuntimeKind := ord_by RuntimeKind.position.
#[export] Instance RuntimeKind_ord_laws : OrdLaws RuntimeKind := ord_by_laws RuntimeKind.position.
#[export] Instance RuntimeKind_json : ToJson RuntimeKind := λ kind, Str (RuntimeKind.as_str kind).

#[export] Instance RuntimeKind_countable : Countable RuntimeKind.
Proof.
  refine (inj_countable' RuntimeKind.position
    (λ n, default Wasm (find (λ k, N.eqb (RuntimeKind.position k) n) RuntimeKind.ALL)) _).
  by intros [].
Defined.

Lemma elem_of_all_runtimes kind : kind ∈ RuntimeKind.ALL.
Proof. unfold RuntimeKind.ALL. destruct kind; set_solver. Qed.

(** ** Errors *)

Inductive ComputeError : Type :=
| AmbiguousRuntime (candidates : string)
| UnsupportedCapability (runtime : RuntimeKind) (capability : string)
| UnsupportedWorkloadVersion (version : string)
| UnknownRuntime (name : string)
| RuntimeUnavailableError (kind : RuntimeKind)
| RuntimeVersionMismatchError (kind : RuntimeKind) (requested found : string)
| InvalidWorkload (message : string)
| InvalidIsolationProfile (name : string)
| IsolationUnavailable (runtime : RuntimeKind) (profile code : string)
| InvalidBundle (message : string)
| InvalidDependencyCapsule (message : string)
| InvalidReceipt (message : string)
| InvalidMountPath (message : string)
| IoError (message : string)
| JsonError (message : string)
| RuntimeFailure (message : string)
| Coded (code message : string).

(** [Display], from the [#[error(...)]] attributes. *)
Definition error_to_string (error : ComputeError) : string :=
  match error with
  | AmbiguousRuntime c => "runtime selection is ambiguous. candidates: " +:+ c
  | UnsupportedCapability r c =>
      "unsupported capability for runtime " +:+ RuntimeKind.as_str r +:+ ": " +:+ c
  | UnsupportedWorkloadVersion v => "unsupported workload specification version: " +:+ v
  | UnknownRuntime n => "unknown runtime: " +:+ n
  | RuntimeUnavailableError k => "runtime " +:+ RuntimeKind.as_str k +:+ " is unavailable"
  | RuntimeVersionMismatchError k requested found =>
      "runtime " +:+ RuntimeKind.as_str k +:+ " version mismatch: requested " +:+ requested
      +:+ ", found " +:+ found
  | InvalidWorkload m => "invalid workload: " +:+ m
  | InvalidIsolationProfile n => "invalid isolation profile: " +:+ n
  | IsolationUnavailable r p c =>
      "unsupported capability: isolation profile " +:+ p +:+ " is unavailable for runtime "
      +:+ RuntimeKind.as_str r +:+ ": " +:+ c
  | InvalidBundle m => "invalid workload bundle: " +:+ m
  | InvalidDependencyCapsule m => "invalid dependency capsule: " +:+ m
  | InvalidReceipt m => "invalid execution receipt: " +:+ m
  | InvalidMountPath m => "invalid mount path: " +:+ m
  | IoError m => "I/O error: " +:+ m
  | JsonError m => "JSON error: " +:+ m
  | RuntimeFailure m => "runtime error: " +:+ m
  | Coded _ m => m
  end.

(** [ComputeError::code] *)
Definition error_code (error : ComputeError) : string :=
  match error with
  | AmbiguousRuntime _ => "ambiguous_runtime"
  | UnsupportedCapability _ _ => "unsupported_capability"
  | UnsupportedWorkloadVersion _ => "unsupported_workload_version"
  | UnknownRuntime _ => "unknown_runtime"
  | RuntimeUnavailableError _ => "runtime_unavailable"
  | RuntimeVersionMismatchError _ _ _ => "runtime_version_mismatch"
  | InvalidWorkload _ => "invalid_workload"
  | InvalidIsolationProfile _ => "invalid_isolation_profile"
  | IsolationUnavailable _ _ _ => "isolation_unavailable"
  | InvalidBundle _ => "invalid_bundle"
  | InvalidDependencyCapsule _ => "invalid_dependency_capsule"
  | InvalidReceipt _ => "invalid_receipt"
  | InvalidMountPath _ => "invalid_mount_path"
  | IoError _ => "io_error"
  | JsonError _ => "invalid_json"
  | RuntimeFailure _ => "runtime_error"
  | Coded code _ => code
  end.

(** [impl FromStr for RuntimeKind] *)
Definition parse_runtime (value : string) : Result RuntimeKind ComputeError :=
  let name := to_ascii_lowercase (trim value) in
  match find (λ entry, String.eqb (fst entry) name)
    [("wasm", Wasm); ("node", Node); ("bun", Bun); ("deno", Deno); ("python", Python);
     ("ruby", Ruby); ("php", Php); ("jvm", Jvm); ("java", Jvm); ("dotnet", Dotnet);
     (".net", Dotnet); ("native", Native); ("linux", Native); ("shell", Shell); ("sh", Shell)] with
  | Some (_, kind) => Ok kind
  | None => Err (UnknownRuntime name)
  end.

(** ** Runtime versions *)

(** The digits and dots from the first digit on, split at the dots. *)
Fixpoint from_first_digit (value : string) : option string :=
  match value with
  | EmptyString => None
  | String c rest => if is_ascii_digit (byte_of c) then Some value else from_first_digit rest
  end.

Fixpoint numeric_prefix (value : string) : string :=
  match value with
  | EmptyString => EmptyString
  | String c rest =>
      if is_ascii_digit (byte_of c) || Ascii.eqb c "." then String c (numeric_prefix rest)
      else EmptyString
  end.

Definition numeric_version (value : string) : option (list N) :=
  tail ← from_first_digit value;
  components ← mapM parse_u64 (split "." (numeric_prefix tail));
  match components with [] => None | _ => Some components end.

(** Component-wise, a missing component read as zero. *)
Fixpoint compare_numeric_versions (l r : list N) : comparison :=
  match l, r with
  | [], [] => Eq
  | x :: l, [] => then_with (N.compare x 0) (compare_numeric_versions l [])
  | [], y :: r => then_with (N.compare 0 y)
      ((fix zeros r := match r with [] => Eq | y :: r => then_with (N.compare 0 y) (zeros r) end) r)
  | x :: l, y :: r => then_with (N.compare x y) (compare_numeric_versions l r)
  end.

Definition clause_operator (clause : string) : string * string :=
  match omap (λ op, version ← strip_prefix op clause; Some (op, version))
          [">="; "<="; ">"; "<"; "="] with
  | first :: _ => first
  | [] => ("=", clause)
  end.

Definition clause_holds (offered : list N) (clause : string) : bool :=
  let (operator, version) := clause_operator (trim clause) in
  match numeric_version version with
  | None => false
  | Some required =>
      let ordering := compare_numeric_versions offered required in
      if String.eqb operator ">=" then is_ge ordering
      else if String.eqb operator "<=" then is_le ordering
      else if String.eqb operator ">" then is_gt ordering
      else if String.eqb operator "<" then is_lt ordering
      else if String.eqb operator "=" then is_eq ordering
      else false
  end.

Definition runtime_version_matches (kind : RuntimeKind) (requested offered : string) : bool :=
  if decide (kind = Wasm) then
    eq_ignore_ascii_case requested "wasi" || contains offered requested
  else
    let requested := trim requested in
    if is_empty requested then true
    else if negb (contains requested ",") &&
            negb (existsb (λ op, starts_with op requested) ["<"; ">"; "="]) then
      contains offered requested
    else match numeric_version offered with
    | None => false
    | Some offered => forallb (clause_holds offered) (split "," requested)
    end.

Definition same_runtime_version (l r : string) : bool :=
  String.eqb l r ||
  match numeric_version l, numeric_version r with
  | Some l, Some r => is_eq (compare_numeric_versions l r) && bool_decide (length l = length r)
  | _, _ => false
  end.

(** ** Network policies and isolation profiles *)

Inductive NetworkPolicy : Type := NetNone | NetLocalhost | NetNetwork.

#[export] Instance NetworkPolicy_eq_dec : EqDecision NetworkPolicy.
Proof. solve_decision. Defined.

Definition network_str (policy : NetworkPolicy) : string :=
  match policy with NetNone => "none" | NetLocalhost => "localhost" | NetNetwork => "network" end.

#[export] Instance network_str_inj : Inj (=) (=) network_str.
Proof. by intros [] []. Qed.

(** [impl Ord for NetworkPolicy]: by display name. *)
#[export] Instance NetworkPolicy_ord : Ord NetworkPolicy := ord_by network_str.
#[export] Instance NetworkPolicy_ord_laws : OrdLaws NetworkPolicy := ord_by_laws network_str.
#[export] Instance NetworkPolicy_json : ToJson NetworkPolicy := λ p, Str (network_str p).
#[export] Instance NetworkPolicy_countable : Countable NetworkPolicy.
Proof.
  refine (inj_countable' network_str
    (λ s, default NetNone (find (λ p, String.eqb (network_str p) s) [NetNone; NetLocalhost; NetNetwork])) _).
  by intros [].
Defined.

Inductive IsolationProfile : Type := Process | Sandboxed | Strict.

#[export] Instance IsolationProfile_eq_dec : EqDecision IsolationProfile.
Proof. solve_decision. Defined.

Module IsolationProfile.
Definition ALL : list IsolationProfile := [Process; Sandboxed; Strict].

Definition as_str (profile : IsolationProfile) : string :=
  match profile with Process => "process" | Sandboxed => "sandboxed" | Strict => "strict" end.

Definition position (profile : IsolationProfile) : N :=
  match profile with Process => 0 | Sandboxed => 1 | Strict => 2 end.

(** [impl FromStr] *)
Definition from_str (value : string) : Result IsolationProfile ComputeError :=
  let name := to_ascii_lowercase (trim value) in
  match find (λ profile, String.eqb (as_str profile) name) ALL with
  | Some profile => Ok profile
  | None => Err (InvalidIsolationProfile name)
  end.

(** The derived [Ord], from the weakest to the strongest boundary. *)
Definition leb (l r : IsolationProfile) : bool := N.leb (position l) (position r).
Definition ltb (l r : IsolationProfile) : bool := N.ltb (position l) (position r).
Definition max (l r : IsolationProfile) : IsolationProfile := if ltb r l then l else r.
End IsolationProfile.

#[export] Instance isolation_position_inj : Inj (=) (=) IsolationProfile.position.
Proof. by intros [] []. Qed.
#[export] Instance IsolationProfile_ord : Ord IsolationProfile := ord_by IsolationProfile.position.
#[export] Instance IsolationProfile_ord_laws : OrdLaws IsolationProfile :=
  ord_by_laws IsolationProfile.position.
#[export] Instance IsolationProfile_json : ToJson IsolationProfile :=
  λ p, Str (IsolationProfile.as_str p).

(** ** Platforms, providers, digests *)

Record PlatformIdentity : Type := {
  os : string;
  architecture : string;
  runtime_abi : option string;
}.

#[export] Instance PlatformIdentity_eq_dec : EqDecision PlatformIdentity.
Proof. solve_decision. Defined.

Definition platform_label (platform : PlatformIdentity) : string :=
  os platform +:+ "-" +:+ architecture platform.

(** [strip_abi]: the platform without its runtime ABI. *)
Definition strip_abi (platform : PlatformIdentity) : PlatformIdentity :=
  {| os := os platform; architecture := architecture platform; runtime_abi := None |}.

Inductive ProviderIdentity : Type :=
| LocalIdentity (id : string)
| RemoteIdentity (id endpoint : string)
| CloudflareIdentity (id account_id : string).

#[export] Instance ProviderIdentity_eq_dec : EqDecision ProviderIdentity.
Proof. solve_decision. Defined.

Definition identity_id (identity : ProviderIdentity) : string :=
  match identity with
  | LocalIdentity id | RemoteIdentity id _ | CloudflareIdentity id _ => id
  end.

Definition CLOUDFLARE_PROTOCOL : string := "compute.cloudflare@1".

Definition identity_protocol (identity : ProviderIdentity) : string :=
  match identity with
  | LocalIdentity _ => "compute.local@1"
  | RemoteIdentity _ _ => "compute.remote@1"
  | CloudflareIdentity _ _ => CLOUDFLARE_PROTOCOL
  end.

Definition validate_sha256_identity (value : string) : Result unit ComputeError :=
  match strip_prefix "sha256:" value with
  | None => Err (InvalidReceipt "digest algorithm must be sha256")
  | Some digest =>
      reject_if (negb (N.eqb (len digest) 64) ||
                 negb (all_bytes (λ b, is_ascii_hexdigit b && negb (is_ascii_uppercase b)) digest))
        (InvalidReceipt "malformed sha256 digest")
  end.

Definition is_execution_id (value : string) : bool :=
  match strip_prefix "exec_" value with
  | None => false
  | Some rest =>
      negb (is_empty rest) && N.leb (len rest) 128 &&
      all_bytes (λ b, is_ascii_alphanumeric b || N.eqb b 95) rest
  end.

(** ** Resources *)

(** [std::time::Duration], in nanoseconds. *)
Definition Duration : Type := N.
Definition from_millis (ms : N) : Duration := (ms * 1000000)%N.
Definition as_millis (d : Duration) : N := (d / 1000000)%N.
(** [u64::try_from(value.as_millis()).unwrap_or(u64::MAX)] *)
Definition duration_ms (d : Duration) : N := N.min (as_millis d) u64_max.

Record ResourceLimits : Type := {
  rl_cpu_count : option N;
  rl_memory_required_bytes : option N;
  rl_memory_bytes : option N;
  rl_disk_bytes : option N;
  rl_cpu_time : option Duration;
  rl_wall_time : option Duration;
  rl_process_count : option N;
  rl_stdout_bytes : option N;
  rl_stderr_bytes : option N;
}.

#[export] Instance ResourceLimits_eq_dec : EqDecision ResourceLimits.
Proof. solve_decision. Defined.

Definition default_limits : ResourceLimits :=
  {| rl_cpu_count := None; rl_memory_required_bytes := None; rl_memory_bytes := None;
     rl_disk_bytes := None; rl_cpu_time := None; rl_wall_time := None;
     rl_process_count := None; rl_stdout_bytes := None; rl_stderr_bytes := None |}.

Record ResourceVector : Type := {
  rv_cpu_count : N;
  rv_memory_bytes : N;
  rv_disk_bytes : N;
}.

#[export] Instance ResourceVector_eq_dec : EqDecision ResourceVector.
Proof. solve_decision. Defined.

Record ProviderResourceInventory : Type := {
  capacity : ResourceVector;
  available : ResourceVector;
}.

#[export] Instance ProviderResourceInventory_eq_dec : EqDecision ProviderResourceInventory.
Proof. solve_decision. Defined.

Record ProviderCapacity : Type := {
  pc_cpu_millis : N;
  pc_memory_bytes : N;
  pc_disk_bytes : N;
  pc_max_concurrency : N;
}.

#[export] Instance ProviderCapacity_eq_dec : EqDecision ProviderCapacity.
Proof. solve_decision. Defined.

Record ResourceRequirements : Type := {
  cpu_millis : N;
  memory_bytes : N;
  disk_bytes : N;
  concurrency : N;
}.

#[export] Instance ResourceRequirements_eq_dec : EqDecision ResourceRequirements.
Proof. solve_decision. Defined.

Module ResourceRequirements.
Definition default_ : ResourceRequirements :=
  {| cpu_millis := 0; memory_bytes := 0; disk_bytes := 0; concurrency := 0 |}.

Definition from_limits (resources : ResourceLimits) : ResourceRequirements :=
  {| cpu_millis := saturating_mul (default 0%N (rl_cpu_count resources)) 1000;
     memory_bytes :=
       default 0%N (match rl_memory_required_bytes resources with
                    | Some m => Some m
                    | None => rl_memory_bytes resources
                    end);
     disk_bytes := default 0%N (rl_disk_bytes resources);
     concurrency := 1 |}.

Definition checked_add (l r : ResourceRequirements) : option ResourceRequirements :=
  cpu ← Prelude.checked_add u64_max (cpu_millis l) (cpu_millis r);
  memory ← Prelude.checked_add u64_max (memory_bytes l) (memory_bytes r);
  disk ← Prelude.checked_add u64_max (disk_bytes l) (disk_bytes r);
  slots ← Prelude.checked_add u32_max (concurrency l) (concurrency r);
  Some {| cpu_millis := cpu; memory_bytes := memory; disk_bytes := disk; concurrency := slots |}.
End ResourceRequirements.

Record CapacitySnapshot : Type := {
  snap_capacity : ProviderCapacity;
  snap_reserved : ResourceRequirements;
  snap_available : ResourceRequirements;
}.

#[export] Instance CapacitySnapshot_eq_dec : EqDecision CapacitySnapshot.
Proof. solve_decision. Defined.

(** What a receipt says of the capacity an execution held (receipt.rs). *)
Record ReceiptReservation : Type := {
  rr_reservation_id : string;
  rr_requested_resources : ResourceRequirements;
  rr_reserved_resources : ResourceRequirements;
  rr_provider_capacity_snapshot : CapacitySnapshot;
}.

#[export] Instance ReceiptReservation_eq_dec : EqDecision ReceiptReservation.
Proof. solve_decision. Defined.

(** ** Runtime lifecycle *)

Inductive RuntimeLifecycleStatus : Type :=
| Installed | Available | Preparing | Ready | Unsupported | Unavailable | LifecycleFailed.

#[export] Instance RuntimeLifecycleStatus_eq_dec : EqDecision RuntimeLifecycleStatus.
Proof. solve_decision. Defined.

Definition can_satisfy (status : RuntimeLifecycleStatus) : bool :=
  match status with Installed | Available | Ready => true | _ => false end.

Definition is_ready (status : RuntimeLifecycleStatus) : bool :=
  match status with Installed | Ready => true | _ => false end.
