(* ===== verification/Isolation.v ===== *)
(** Isolation: what a runtime and its host can enforce, and whether a request
    can be satisfied without weakening it
    (src/crates/compute-core/src/host.rs and the [RuntimeCapabilities] part of
    lib.rs).

    [host::host_capabilities()] probes the operating system once; here it is
    the argument [host] of the operations that read it. *)

From S2P Require Import Prelude Text Core.

(** ** Host profiles *)

Inductive HostProfile : Type := Trusted | Restricted | Isolated.

#[export] Instance HostProfile_eq_dec : EqDecision HostProfile.
Proof. solve_decision. Defined.

Module HostProfile.
Definition ALL : list HostProfile := [Trusted; Restricted; Isolated].

Definition as_str (profile : HostProfile) : string :=
  match profile with
  | Trusted => "trusted" | Restricted => "restricted" | Isolated => "isolated"
  end.

Definition is_trusted (profile : HostProfile) : bool :=
  match profile with Trusted => true | _ => false end.

Definition from_str (value : string) : Result HostProfile ComputeError :=
  match find (λ profile, String.eqb (as_str profile) value) ALL with
  | Some profile => Ok profile
  | None => Err (InvalidWorkload ("unknown host isolation profile " +:+ value
              +:+ "; profiles are trusted, restricted, isolated"))
  end.
End HostProfile.

#[export] Instance HostProfile_json : ToJson HostProfile := λ p, Str (HostProfile.as_str p).

Inductive Enforcement : Type :=
| Enforced | EnfRestricted | Unrestricted | NotRequested | EnfUnsupported.

#[export] Instance Enforcement_eq_dec : EqDecision Enforcement.
Proof. solve_decision. Defined.

Record HostEnforcement : Type := {
  he_profile : HostProfile;
  he_filesystem : Enforcement;
  he_network : Enforcement;
  he_memory : Enforcement;
  he_cpu : Enforcement;
  he_process : Enforcement;
  he_mechanisms : list string;
  he_memory_bytes : option N;
  he_cpu_quota_percent : option N;
  he_process_count : option N;
}.

#[export] Instance HostEnforcement_eq_dec : EqDecision HostEnforcement.
Proof. solve_decision. Defined.

Definition ISOLATED_MEMORY_BYTES : N := 1024 * 1024 * 1024.
Definition ISOLATED_CPU_PERCENT : N := 100.
Definition ISOLATED_PROCESS_COUNT : N := 256.

Record CgroupSupport : Type := {
  cg_version : string;
  cg_memory : bool;
  cg_cpu : bool;
  cg_pids : bool;
  cg_root : string;
}.

Record HostCapabilities : Type := {
  hc_os : string;
  landlock_abi : N;
  network_namespaces : bool;
  cgroups : option CgroupSupport;
  resource_limits : bool;
  no_new_privs : bool;
  hc_root : bool;
}.

Definition landlock_filesystem (host : HostCapabilities) : bool := N.leb 1 (landlock_abi host).

Definition cgroup (host : HostCapabilities) (controller : CgroupSupport → bool) : bool :=
  match cgroups host with Some support => controller support | None => false end.

Record HostRefusal : Type := {
  refusal_code : string;
  refusal_message : string;
}.

(** ** [host::plan], one step per dimension

    Each step returns what the host enforces on its dimension and the
    mechanisms it adds, or refuses. *)

Definition refuse (profile : HostProfile) (code message : string) : HostRefusal :=
  {| refusal_code := code;
     refusal_message := HostProfile.as_str profile +:+ " host isolation: " +:+ message |}.

Definition Step : Type := Result (Enforcement * list string) HostRefusal.

Definition plan_filesystem (profile : HostProfile) (host : HostCapabilities) : Step :=
  match profile with
  | Trusted => Ok (Unrestricted, [])
  | _ =>
      if negb (landlock_filesystem host) then
        Err (refuse profile "filesystem_isolation_unavailable" "Landlock is unavailable on this host")
      else
        let mechanism := "landlock_fs_abi_" +:+ show (landlock_abi host) in
        Ok (match profile with Restricted => EnfRestricted | _ => Enforced end, [mechanism])
  end.

Definition plan_network (profile : HostProfile) (network : NetworkPolicy)
    (host : HostCapabilities) : Step :=
  match profile, network with
  | _, NetNetwork => Ok (Unrestricted, [])
  | Trusted, _ =>
      Err (refuse profile "network_isolation_unavailable"
        ("network " +:+ network_str network +:+ " needs a restricted or isolated profile"))
  | _, _ =>
      if network_namespaces host then
        Ok (Enforced, [match network with
                       | NetLocalhost => "network_namespace_loopback"
                       | _ => "network_namespace"
                       end])
      else
        Err (refuse profile "network_isolation_unavailable"
          ("network " +:+ network_str network
           +:+ " needs network namespaces, which this host does not allow"))
  end.

(** A limit, or the default the [isolated] profile supplies. *)
Definition limit_or_isolated (profile : HostProfile) (limit : option N) (isolated : N) : option N :=
  match limit with
  | Some value => Some value
  | None => match profile with Isolated => Some isolated | _ => None end
  end.

Definition plan_memory (profile : HostProfile) (memory_bytes : option N)
    (host : HostCapabilities) : Step :=
  match memory_bytes with
  | None => Ok (NotRequested, [])
  | Some _ =>
      if cgroup host cg_memory then Ok (Enforced, ["cgroup_memory"])
      else if resource_limits host && negb (bool_decide (profile = Isolated)) then
        Ok (Enforced, ["rlimit_address_space"])
      else Err (refuse profile "memory_enforcement_unavailable" "a memory cgroup is unavailable")
  end.

Definition plan_cpu (profile : HostProfile) (cpu_quota_percent : option N)
    (cpu_time : option Duration) (host : HostCapabilities) : Step :=
  match cpu_quota_percent, cpu_time with
  | Some _, _ =>
      if cgroup host cg_cpu then
        Ok (Enforced, "cgroup_cpu_quota" ::
                      match cpu_time with Some _ => ["rlimit_cpu_time"] | None => [] end)
      else Err (refuse profile "cpu_enforcement_unavailable" "a CPU cgroup is unavailable")
  | None, Some _ =>
      if resource_limits host then Ok (Enforced, ["rlimit_cpu_time"])
      else Err (refuse profile "cpu_enforcement_unavailable" "CPU-time limits are unavailable")
  | None, None => Ok (NotRequested, [])
  end.

Definition plan_process (profile : HostProfile) (process_count : option N)
    (host : HostCapabilities) : Step :=
  match process_count with
  | Some _ =>
      if cgroup host cg_pids then Ok (Enforced, ["cgroup_pids"])
      else if resource_limits host && negb (hc_root host) then Ok (Enforced, ["rlimit_nproc"])
      else Err (refuse profile "process_enforcement_unavailable" "a pids cgroup is unavailable")
  | None => Ok (match profile with Trusted => Unrestricted | _ => EnfRestricted end, [])
  end.

Definition when_enforced (enforcement : Enforcement) (limit : option N) : option N :=
  match enforcement with Enforced => limit | _ => None end.

(** [host::plan] *)
Definition plan (profile : HostProfile) (network : NetworkPolicy) (resources : ResourceLimits)
    (host : HostCapabilities) : Result HostEnforcement HostRefusal :=
  let privileges :=
    if negb (HostProfile.is_trusted profile) && no_new_privs host then ["no_new_privs"] else [] in
  let? fs := plan_filesystem profile host in
  let? net := plan_network profile network host in
  let memory_limit := limit_or_isolated profile (rl_memory_bytes resources) ISOLATED_MEMORY_BYTES in
  let? memory := plan_memory profile memory_limit host in
  let quota := limit_or_isolated profile None ISOLATED_CPU_PERCENT in
  let? cpu := plan_cpu profile quota (rl_cpu_time resources) host in
  let count := limit_or_isolated profile (rl_process_count resources) ISOLATED_PROCESS_COUNT in
  let? process := plan_process profile count host in
  Ok {| he_profile := profile;
        he_filesystem := fst fs; he_network := fst net; he_memory := fst memory;
        he_cpu := fst cpu; he_process := fst process;
        he_mechanisms := privileges ++ snd fs ++ snd net ++ snd memory ++ snd cpu ++ snd process;
        he_memory_bytes := when_enforced (fst memory) memory_limit;
        he_cpu_quota_percent := when_enforced (fst cpu) quota;
        he_process_count := when_enforced (fst process) count |}.

(** [host::profile_matrix] *)
Definition profile_matrix (host : HostCapabilities)
    : list (HostProfile * Result HostEnforcement HostRefusal) :=
  (λ profile,
     (profile, plan profile (if HostProfile.is_trusted profile then NetNetwork else NetNone)
                 default_limits host)) <$> HostProfile.ALL.

(** ** Runtime capabilities *)

Record IsolationCapabilities : Type := {
  process_boundary : bool;
  filesystem_boundary : bool;
  network_boundary : bool;
  environment_boundary : bool;
  timeout_enforcement : bool;
  memory_enforcement : bool;
  cpu_enforcement : bool;
  process_enforcement : bool;
}.

#[export] Instance IsolationCapabilities_eq_dec : EqDecision IsolationCapabilities.
Proof. solve_decision. Defined.

(** A [Capability] is its [supported] flag. *)
Record RuntimeCapabilities : Type := {
  cap_stdin : bool;
  cap_stdout : bool;
  cap_stderr : bool;
  cap_environment : bool;
  cap_filesystem_isolation : bool;
  cap_artifacts : bool;
  cap_timeout : bool;
  cap_cancellation : bool;
  cap_stdout_limit : bool;
  cap_stderr_limit : bool;
  cap_memory_limit : bool;
  cap_cpu_limit : bool;
  cap_process_limit : bool;
  cap_network : gmap NetworkPolicy bool;
  cap_isolation : IsolationCapabilities;
  cap_host_profiles : list HostProfile;
}.

#[export] Instance RuntimeCapabilities_eq_dec : EqDecision RuntimeCapabilities.
Proof. solve_decision. Defined.

Module RuntimeCapabilities.
Definition process (host : HostCapabilities) : RuntimeCapabilities :=
  {| cap_stdin := true; cap_stdout := true; cap_stderr := true; cap_environment := true;
     cap_filesystem_isolation := false; cap_artifacts := true; cap_timeout := true;
     cap_cancellation := false; cap_stdout_limit := true; cap_stderr_limit := true;
     cap_memory_limit := false; cap_cpu_limit := false; cap_process_limit := false;
     cap_network := {[NetNone := false; NetLocalhost := false; NetNetwork := true]};
     cap_isolation :=
       {| process_boundary := true; filesystem_boundary := false; network_boundary := false;
          environment_boundary := true; timeout_enforcement := true;
          memory_enforcement := false; cpu_enforcement := false; process_enforcement := false |};
     cap_host_profiles :=
       fst <$> filter (λ entry, negb (HostProfile.is_trusted (fst entry)) && is_ok (snd entry))
                 (profile_matrix host) |}.

Definition wasm : RuntimeCapabilities :=
  {| cap_stdin := true; cap_stdout := true; cap_stderr := true; cap_environment := true;
     cap_filesystem_isolation := true; cap_artifacts := true; cap_timeout := true;
     cap_cancellation := false; cap_stdout_limit := true; cap_stderr_limit := true;
     cap_memory_limit := true; cap_cpu_limit := false; cap_process_limit := false;
     cap_network := {[NetNone := true; NetLocalhost := false; NetNetwork := false]};
     cap_isolation :=
       {| process_boundary := true; filesystem_boundary := true; network_boundary := true;
          environment_boundary := true; timeout_enforcement := true;
          memory_enforcement := true; cpu_enforcement := false; process_enforcement := false |};
     cap_host_profiles := [] |}.

Definition deno (host : HostCapabilities) : RuntimeCapabilities :=
  let base := process host in
  {| cap_stdin := cap_stdin base; cap_stdout := cap_stdout base; cap_stderr := cap_stderr base;
     cap_environment := cap_environment base;
     cap_filesystem_isolation := true;
     cap_artifacts := cap_artifacts base; cap_timeout := cap_timeout base;
     cap_cancellation := cap_cancellation base; cap_stdout_limit := cap_stdout_limit base;
     cap_stderr_limit := cap_stderr_limit base; cap_memory_limit := cap_memory_limit base;
     cap_cpu_limit := cap_cpu_limit base; cap_process_limit := cap_process_limit base;
     cap_network := {[NetNone := true; NetLocalhost := true; NetNetwork := true]};
     cap_isolation :=
       {| process_boundary := true; filesystem_boundary := true; network_boundary := true;
          environment_boundary := true; timeout_enforcement := true;
          memory_enforcement := false; cpu_enforcement := false; process_enforcement := false |};
     cap_host_profiles := cap_host_profiles base |}.
End RuntimeCapabilities.

(** ** Requests and evidence *)

(** The part of [ExecutionRequest] that capability resolution reads. *)
Record ExecutionRequest : Type := {
  req_kind : RuntimeKind;
  req_version : option string;
  req_stdin : list N;
  req_network : NetworkPolicy;
  req_resources : ResourceLimits;
  req_isolation : IsolationProfile;
  req_host_isolation : HostProfile;
}.

Inductive BoundaryStatus : Type :=
| BoundaryEnforced | BoundaryDisabled | BoundaryUnavailable | BoundaryNotRequested.

#[export] Instance BoundaryStatus_eq_dec : EqDecision BoundaryStatus.
Proof. solve_decision. Defined.

Record IsolationEvidence : Type := {
  ev_profile : IsolationProfile;
  ev_requested : IsolationProfile;
  ev_effective : IsolationProfile;
  ev_filesystem : BoundaryStatus;
  ev_network : BoundaryStatus;
  ev_environment : BoundaryStatus;
  ev_resources : BoundaryStatus;
  ev_host : option HostEnforcement;
}.

Record IsolationRejection : Type := {
  rejection_code : string;
  rejection_message : string;
}.

Record IsolationPlan : Type := {
  plan_requested : IsolationProfile;
  plan_effective : option IsolationProfile;
  plan_compatible : bool;
  plan_evidence : option IsolationEvidence;
  plan_reason : option IsolationRejection;
}.

Definition is_some {A} (o : option A) : bool := match o with Some _ => true | None => false end.
Definition is_none {A} (o : option A) : bool := negb (is_some o).

(** [RuntimeCapabilities::host_plan] *)
Definition host_plan (host : HostCapabilities) (caps : RuntimeCapabilities) (runtime : RuntimeKind)
    (workload : ExecutionRequest) : Result (option HostEnforcement) ComputeError :=
  if HostProfile.is_trusted (req_host_isolation workload) then Ok None
  else if filesystem_boundary (cap_isolation caps) then
    Err (UnsupportedCapability runtime
      ("host isolation " +:+ HostProfile.as_str (req_host_isolation workload)
       +:+ " (only process runtimes take a host profile; " +:+ RuntimeKind.as_str runtime
       +:+ " is sandboxed by its runtime, use the sandboxed or strict isolation profile)"))
  else
    match plan (req_host_isolation workload) (req_network workload) (req_resources workload) host with
    | Ok enforcement => Ok (Some enforcement)
    | Err refusal =>
        Err (UnsupportedCapability runtime
          (refusal_message refusal +:+ " (" +:+ refusal_code refusal +:+ ")"))
    end.

Definition require (runtime : RuntimeKind) (supported : bool) (capability : string)
    : Result unit ComputeError :=
  if supported then Ok tt else Err (UnsupportedCapability runtime capability).

Definition require_if (runtime : RuntimeKind) (asked supported : bool) (capability : string)
    : Result unit ComputeError :=
  if asked then require runtime supported capability else Ok tt.

(** Whether the host plan enforces a dimension. *)
Definition enforced (host : option HostEnforcement) (dimension : HostEnforcement → Enforcement)
    : bool :=
  match host with Some p => bool_decide (dimension p = Enforced) | None => false end.

(** [RuntimeCapabilities::validate] *)
Definition validate_capabilities (host : HostCapabilities) (caps : RuntimeCapabilities)
    (runtime : RuntimeKind) (workload : ExecutionRequest) : Result unit ComputeError :=
  let limits := req_resources workload in
  require_if runtime (negb (bool_decide (req_stdin workload = []))) (cap_stdin caps) "stdin" ;?;
  let? hosted := host_plan host caps runtime workload in
  require runtime
    (default false (cap_network caps !! req_network workload) || enforced hosted he_network)
    ("network policy " +:+ network_str (req_network workload)) ;?;
  require_if runtime (is_some (rl_wall_time limits)) (cap_timeout caps) "wall-time limit" ;?;
  require_if runtime (is_some (rl_stdout_bytes limits)) (cap_stdout_limit caps) "stdout limit" ;?;
  require_if runtime (is_some (rl_stderr_bytes limits)) (cap_stderr_limit caps) "stderr limit" ;?;
  require_if runtime (is_some (rl_memory_bytes limits))
    (cap_memory_limit caps || enforced hosted he_memory) "memory limit" ;?;
  require_if runtime (is_some (rl_cpu_time limits))
    (cap_cpu_limit caps || enforced hosted he_cpu) "CPU-time limit" ;?;
  require_if runtime (is_some (rl_process_count limits))
    (cap_process_limit caps || enforced hosted he_process) "process-count limit".

(** [IsolationEvidence::with_host_enforcement] *)
Definition with_host_enforcement (evidence : IsolationEvidence) (workload : ExecutionRequest)
    : IsolationEvidence :=
  match ev_host evidence with
  | None => evidence
  | Some host =>
      let limits := req_resources workload in
      let requested (value : bool) (dimension : Enforcement) :=
        negb value || bool_decide (dimension = Enforced) in
      let any := is_some (rl_memory_bytes limits) || is_some (rl_cpu_time limits)
                 || is_some (rl_process_count limits) in
      {| ev_profile := ev_profile evidence;
         ev_requested := ev_requested evidence;
         ev_effective := ev_effective evidence;
         ev_filesystem :=
           if bool_decide (he_filesystem host = Enforced) then BoundaryEnforced
           else ev_filesystem evidence;
         ev_network :=
           if bool_decide (he_network host = Enforced) then
             (if bool_decide (req_network workload = NetNone) then BoundaryDisabled
              else BoundaryEnforced)
           else ev_network evidence;
         ev_environment := ev_environment evidence;
         ev_resources :=
           if any && requested (is_some (rl_memory_bytes limits)) (he_memory host)
              && requested (is_some (rl_cpu_time limits)) (he_cpu host)
              && requested (is_some (rl_process_count limits)) (he_process host)
           then BoundaryEnforced else ev_resources evidence;
         ev_host := ev_host evidence |}
  end.

(** The code a capability error is reported under, read from its message. *)
Definition classify_rejection (message : string) : string :=
  if contains message "network policy" then "network_policy_unavailable"
  else if contains message "memory" then "memory_enforcement_unavailable"
  else if contains message "CPU" then "cpu_enforcement_unavailable"
  else if contains message "process-count" then "process_enforcement_unavailable"
  else if contains message "wall-time" then "timeout_enforcement_unavailable"
  else "runtime_capability_unavailable".

Definition reject_boundary (runtime : RuntimeKind) (workload : ExecutionRequest)
    (code boundary : string) : IsolationRejection :=
  {| rejection_code := code;
     rejection_message := RuntimeKind.as_str runtime +:+ " runtime cannot satisfy "
       +:+ IsolationProfile.as_str (req_isolation workload) +:+ " isolation: " +:+ boundary |}.

Definition resource_requested (limits : ResourceLimits) : bool :=
  is_some (rl_wall_time limits) || is_some (rl_memory_bytes limits)
  || is_some (rl_cpu_time limits) || is_some (rl_process_count limits).

Definition resources_enforced (isolation : IsolationCapabilities) (limits : ResourceLimits) : bool :=
  (is_none (rl_wall_time limits) || timeout_enforcement isolation)
  && (is_none (rl_memory_bytes limits) || memory_enforcement isolation)
  && (is_none (rl_cpu_time limits) || cpu_enforcement isolation)
  && (is_none (rl_process_count limits) || process_enforcement isolation).

(** The boundaries the runtime itself provides. *)
Definition runtime_evidence (caps : RuntimeCapabilities) (workload : ExecutionRequest)
    (host : option HostEnforcement) : IsolationEvidence :=
  let isolation := cap_isolation caps in
  let profile := req_isolation workload in
  {| ev_profile := profile; ev_requested := profile; ev_effective := profile;
     ev_filesystem :=
       if filesystem_boundary isolation then BoundaryEnforced else BoundaryUnavailable;
     ev_network :=
       if network_boundary isolation then
         (if bool_decide (req_network workload = NetNone) then BoundaryDisabled else BoundaryEnforced)
       else if bool_decide (req_network workload = NetNetwork) then BoundaryNotRequested
       else BoundaryUnavailable;
     ev_environment :=
       if environment_boundary isolation then BoundaryEnforced else BoundaryUnavailable;
     ev_resources :=
       if resource_requested (req_resources workload) then
         (if resources_enforced isolation (req_resources workload) then BoundaryEnforced
          else BoundaryUnavailable)
       else BoundaryNotRequested;
     ev_host := host |}.

(** [RuntimeCapabilities::resolve_isolation] *)
Definition resolve_isolation (host : HostCapabilities) (caps : RuntimeCapabilities)
    (runtime : RuntimeKind) (workload : ExecutionRequest)
    : Result IsolationEvidence IsolationRejection :=
  let isolation := cap_isolation caps in
  let reject := reject_boundary runtime workload in
  map_err (λ error, let message := error_to_string error in
             {| rejection_code := classify_rejection message; rejection_message := message |})
    (validate_capabilities host caps runtime workload) ;?;
  let stronger := IsolationProfile.leb Sandboxed (req_isolation workload) in
  reject_if (stronger && negb (filesystem_boundary isolation))
    (reject "filesystem_isolation_unavailable" "filesystem boundary is unavailable") ;?;
  reject_if (stronger && negb (network_boundary isolation))
    (reject "network_isolation_unavailable" "network boundary is unavailable") ;?;
  reject_if (stronger && negb (environment_boundary isolation))
    (reject "environment_isolation_unavailable" "environment boundary is unavailable") ;?;
  reject_if (stronger && negb (timeout_enforcement isolation))
    (reject "timeout_enforcement_unavailable" "timeout enforcement is unavailable") ;?;
  reject_if (bool_decide (req_isolation workload = Strict)
             && negb (resources_enforced isolation (req_resources workload)))
    (reject "resource_isolation_unavailable" "a requested resource boundary is unavailable") ;?;
  let hosted := match host_plan host caps runtime workload with Ok p => p | Err _ => None end in
  Ok (with_host_enforcement (runtime_evidence caps workload hosted) workload).

(** [RuntimeCapabilities::isolation_plan] *)
Definition isolation_plan (host : HostCapabilities) (caps : RuntimeCapabilities)
    (runtime : RuntimeKind) (workload : ExecutionRequest) : IsolationPlan :=
  match resolve_isolation host caps runtime workload with
  | Ok evidence =>
      {| plan_requested := req_isolation workload; plan_effective := Some (ev_effective evidence);
         plan_compatible := true; plan_evidence := Some evidence; plan_reason := None |}
  | Err reason =>
      {| plan_requested := req_isolation workload; plan_effective := None;
         plan_compatible := false; plan_evidence := None; plan_reason := Some reason |}
  end.

(** ** What an accepted host plan guarantees *)

Lemma plan_inv profile network resources host e :
  plan profile network resources host = Ok e →
  ∃ fs net memory cpu process,
    plan_filesystem profile host = Ok fs ∧
    plan_network profile network host = Ok net ∧
    plan_memory profile (limit_or_isolated profile (rl_memory_bytes resources) ISOLATED_MEMORY_BYTES)
      host = Ok memory ∧
    plan_cpu profile (limit_or_isolated profile None ISOLATED_CPU_PERCENT)
      (rl_cpu_time resources) host = Ok cpu ∧
    plan_process profile
      (limit_or_isolated profile (rl_process_count resources) ISOLATED_PROCESS_COUNT) host = Ok process ∧
    he_filesystem e = fst fs ∧ he_network e = fst net ∧ he_memory e = fst memory ∧
    he_cpu e = fst cpu ∧ he_process e = fst process ∧
    he_memory_bytes e = when_enforced (fst memory)
      (limit_or_isolated profile (rl_memory_bytes resources) ISOLATED_MEMORY_BYTES) ∧
    he_cpu_quota_percent e = when_enforced (fst cpu)
      (limit_or_isolated profile None ISOLATED_CPU_PERCENT) ∧
    he_process_count e = when_enforced (fst process)
      (limit_or_isolated profile (rl_process_count resources) ISOLATED_PROCESS_COUNT).
Proof. unfold plan. intros H. ok_inv. naive_solver. Qed.

Lemma plan_filesystem_confined profile host r :
  plan_filesystem profile host = Ok r → profile ≠ Trusted →
  fst r = (match profile with Isolated => Enforced | _ => EnfRestricted end).
Proof. unfold plan_filesystem. destruct profile, (landlock_filesystem host); naive_solver. Qed.

Lemma plan_network_closed profile network host r :
  plan_network profile network host = Ok r → network ≠ NetNetwork →
  profile ≠ Trusted ∧ fst r = Enforced.
Proof. unfold plan_network. destruct profile, network, (network_namespaces host); naive_solver. Qed.

Lemma plan_memory_limit profile limit host r :
  plan_memory profile limit host = Ok r → is_Some limit → fst r = Enforced.
Proof.
  unfold plan_memory. intros H [v ->]. revert H.
  repeat case_match; naive_solver.
Qed.

Lemma plan_cpu_limit profile quota time host r :
  plan_cpu profile quota time host = Ok r → is_Some quota ∨ is_Some time → fst r = Enforced.
Proof. unfold plan_cpu. intros H [[v ->]|[v ->]]; revert H; repeat case_match; naive_solver. Qed.

Lemma plan_process_limit profile count host r :
  plan_process profile count host = Ok r → is_Some count → fst r = Enforced.
Proof. unfold plan_process. intros H [v ->]. revert H. repeat case_match; naive_solver. Qed.

(** ** What resolution decides *)

Lemma require_ok runtime supported capability :
  require runtime supported capability = Ok tt ↔ supported = true.
Proof. destruct supported; naive_solver. Qed.

Lemma require_if_ok runtime asked supported capability :
  require_if runtime asked supported capability = Ok tt ↔ (asked = true → supported = true).
Proof. destruct asked; simpl; [rewrite require_ok|]; naive_solver. Qed.

#[export] Hint Rewrite require_ok require_if_ok : result.

(** The contract of [RuntimeCapabilities::validate], read off the request: the
    host takes the profile, and every boundary or limit the request states is
    enforced by the runtime or by the host. *)
Record CapabilitiesSatisfy (host : HostCapabilities) (caps : RuntimeCapabilities)
    (runtime : RuntimeKind) (workload : ExecutionRequest) (hosted : option HostEnforcement) : Prop := {
  sat_stdin : req_stdin workload ≠ [] → cap_stdin caps = true;
  sat_host : host_plan host caps runtime workload = Ok hosted;
  sat_network : cap_network caps !! req_network workload = Some true ∨ enforced hosted he_network = true;
  sat_timeout : is_Some (rl_wall_time (req_resources workload)) → cap_timeout caps = true;
  sat_stdout : is_Some (rl_stdout_bytes (req_resources workload)) → cap_stdout_limit caps = true;
  sat_stderr : is_Some (rl_stderr_bytes (req_resources workload)) → cap_stderr_limit caps = true;
  sat_memory : is_Some (rl_memory_bytes (req_resources workload)) →
    cap_memory_limit caps = true ∨ enforced hosted he_memory = true;
  sat_cpu : is_Some (rl_cpu_time (req_resources workload)) →
    cap_cpu_limit caps = true ∨ enforced hosted he_cpu = true;
  sat_process : is_Some (rl_process_count (req_resources workload)) →
    cap_process_limit caps = true ∨ enforced hosted he_process = true;
}.

Lemma is_some_spec {A} (o : option A) : is_some o = true ↔ is_Some o.
Proof. destruct o; split; naive_solver. Qed.

Lemma validate_capabilities_ok host caps runtime workload :
  validate_capabilities host caps runtime workload = Ok tt ↔
  ∃ hosted, CapabilitiesSatisfy host caps runtime workload hosted.
Proof.
  unfold validate_capabilities. rewrite seq_ok, require_if_ok, negb_true_iff, bool_decide_eq_false.
  rewrite and_then_ok. split.
  - intros (Hstdin & hosted & Hhost & H). exists hosted. revert H. autorewrite with result.
    rewrite !orb_true_iff, !is_some_spec. intros (Hnet & ? & ? & ? & ? & ? & ?).
    split; try done. destruct Hnet as [Hnet|]; [left|by right].
    by destruct (cap_network caps !! req_network workload) as [[]|].
  - intros [hosted [? ? Hnet ? ? ? ? ? ?]]. split; [done|]. exists hosted. split; [done|].
    autorewrite with result. rewrite !orb_true_iff, !is_some_spec. split; [|done].
    destruct Hnet as [->|]; [by left|by right].
Qed.

(** The boundaries an isolation profile names. *)
Definition profile_boundaries (caps : RuntimeCapabilities) (workload : ExecutionRequest) : Prop :=
  let isolation := cap_isolation caps in
  (req_isolation workload ≠ Process →
     filesystem_boundary isolation = true ∧ network_boundary isolation = true ∧
     environment_boundary isolation = true ∧ timeout_enforcement isolation = true) ∧
  (req_isolation workload = Strict → resources_enforced isolation (req_resources workload) = true).

Lemma stronger_spec profile : IsolationProfile.leb Sandboxed profile = true ↔ profile ≠ Process.
Proof. by destruct profile. Qed.

Lemma resolve_isolation_inv host caps runtime workload ev :
  resolve_isolation host caps runtime workload = Ok ev ↔
  (∃ hosted, CapabilitiesSatisfy host caps runtime workload hosted ∧
     ev = with_host_enforcement (runtime_evidence caps workload hosted) workload) ∧
  profile_boundaries caps workload.
Proof.
  unfold resolve_isolation, profile_boundaries. autorewrite with result.
  rewrite validate_capabilities_ok, !andb_false_iff, !negb_false_iff.
  rewrite <-stronger_spec, bool_decide_eq_false. split.
  - intros ([hosted Hsat] & Hfs & Hnet & Henv & Htime & Hstrict & Hev). split.
    + exists hosted. split; [done|]. pose proof (sat_host _ _ _ _ _ Hsat) as Hhost.
      rewrite Hhost in Hev. by injection Hev.
    + destruct (IsolationProfile.leb _ _); naive_solver.
  - intros ([hosted [Hsat ->]] & Hstrong & Hstrict). split; [eauto|].
    rewrite (sat_host _ _ _ _ _ Hsat).
    destruct (IsolationProfile.leb _ _), (decide (req_isolation workload = Strict)); naive_solver.
Qed.

(** The evidence as the runtime and the host plan make it. *)
Lemma evidence_shape caps workload hosted :
  let ev := with_host_enforcement (runtime_evidence caps workload hosted) workload in
  ev_effective ev = req_isolation workload ∧ ev_requested ev = req_isolation workload ∧
  ev_host ev = hosted.
Proof. unfold with_host_enforcement. destruct hosted; done. Qed.

Lemma evidence_resources caps workload hosted :
  ev_resources (with_host_enforcement (runtime_evidence caps workload hosted) workload)
    = BoundaryEnforced →
  resources_enforced (cap_isolation caps) (req_resources workload) = true ∨
  (is_Some (rl_memory_bytes (req_resources workload)) → enforced hosted he_memory = true) ∧
  (is_Some (rl_cpu_time (req_resources workload)) → enforced hosted he_cpu = true) ∧
  (is_Some (rl_process_count (req_resources workload)) → enforced hosted he_process = true).
Proof.
  unfold with_host_enforcement, runtime_evidence; simpl. rewrite <-!is_some_spec.
  destruct hosted as [p|]; simpl.
  - case_match eqn:E.
    + intros _. right. revert E. rewrite !andb_true_iff, !orb_true_iff, !negb_true_iff.
      intros [[[_ [?|?]] [?|?]] [?|?]]; repeat split; congruence.
    + repeat case_match; try done. by left.
  - repeat case_match; try done. by left.
Qed.

Lemma evidence_network_disabled caps workload hosted :
  ev_network (with_host_enforcement (runtime_evidence caps workload hosted) workload)
    = BoundaryDisabled →
  req_network workload = NetNone ∧
  (network_boundary (cap_isolation caps) = true ∨ enforced hosted he_network = true).
Proof.
  unfold with_host_enforcement, runtime_evidence; simpl.
  destruct hosted as [p|]; simpl; repeat (case_match || case_bool_decide); naive_solver.
Qed.

(** ** Properties *)


(** Resolution decides exactly the declarative contract: a request is
    accepted if and only if the host takes its profile, the runtime or the host
    enforces every boundary and limit it states, and the runtime has the
    boundaries the isolation profile names. *)
Theorem resolve_isolation_exact host caps runtime workload :
  is_ok (resolve_isolation host caps runtime workload) = true ↔
  (∃ hosted, CapabilitiesSatisfy host caps runtime workload hosted) ∧
  profile_boundaries caps workload.
Proof.
  rewrite is_ok_spec. setoid_rewrite resolve_isolation_inv. naive_solver.
Qed.

(** An accepted request is never weakened: the evidence reports the
    requested profile as the effective one, reports the network as disabled
    only when [none] was asked and the runtime or the host cuts it off, and
    reports the resources as enforced only when every stated limit is, for a
    runtime whose timeout capability agrees with its declared boundary. *)
Theorem isolation_evidence_truthful host caps runtime workload ev :
  resolve_isolation host caps runtime workload = Ok ev →
  timeout_enforcement (cap_isolation caps) = cap_timeout caps →
  ev_effective ev = req_isolation workload ∧
  (ev_network ev = BoundaryDisabled →
     req_network workload = NetNone ∧
     (network_boundary (cap_isolation caps) = true ∨ enforced (ev_host ev) he_network = true)) ∧
  (ev_resources ev = BoundaryEnforced →
     (is_Some (rl_wall_time (req_resources workload)) → cap_timeout caps = true) ∧
     (is_Some (rl_memory_bytes (req_resources workload)) →
        memory_enforcement (cap_isolation caps) = true ∨ enforced (ev_host ev) he_memory = true) ∧
     (is_Some (rl_cpu_time (req_resources workload)) →
        cpu_enforcement (cap_isolation caps) = true ∨ enforced (ev_host ev) he_cpu = true) ∧
     (is_Some (rl_process_count (req_resources workload)) →
        process_enforcement (cap_isolation caps) = true ∨ enforced (ev_host ev) he_process = true)).
Proof.
  intros [(hosted & Hsat & ->) _]%resolve_isolation_inv Htimeout.
  destruct (evidence_shape caps workload hosted) as (-> & _ & ->). split; [done|].
  split; [apply evidence_network_disabled|].
  intros [Henf|(Hm & Hc & Hp)]%evidence_resources; (split; [apply (sat_timeout _ _ _ _ _ Hsat)|]);
    [|naive_solver].
  revert Henf. unfold resources_enforced, is_none.
  rewrite !andb_true_iff, !orb_true_iff, !negb_true_iff, <-!is_some_spec. naive_solver congruence.
Qed.

(** A request as another one, at an isolation profile of its own. *)
Definition at_profile (profile : IsolationProfile) (workload : ExecutionRequest) : ExecutionRequest :=
  {| req_kind := req_kind workload; req_version := req_version workload;
     req_stdin := req_stdin workload; req_network := req_network workload;
     req_resources := req_resources workload; req_isolation := profile;
     req_host_isolation := req_host_isolation workload |}.

(** The profiles a runtime satisfies are downward closed: a request it can
    run at a profile, it can run at every weaker one. *)
Theorem isolation_profiles_downward_closed host caps runtime workload weaker :
  is_ok (resolve_isolation host caps runtime workload) = true →
  IsolationProfile.leb weaker (req_isolation workload) = true →
  is_ok (resolve_isolation host caps runtime (at_profile weaker workload)) = true.
Proof.
  rewrite !is_ok_spec. setoid_rewrite resolve_isolation_inv.
  intros (ev & (hosted & Hsat & _) & Hstrong & Hstrict) Hle. eexists. split.
  - exists hosted. split; [|done]. by destruct Hsat.
  - unfold profile_boundaries; simpl.
    destruct weaker, (req_isolation workload); simpl in *; naive_solver.
Qed.

(** ** Witnesses *)

Definition linux_host : HostCapabilities :=
  {| hc_os := "linux"; landlock_abi := 4; network_namespaces := true;
     cgroups := Some {| cg_version := "v2"; cg_memory := true; cg_cpu := true; cg_pids := true;
                        cg_root := "/sys/fs/cgroup/compute" |};
     resource_limits := true; no_new_privs := true; hc_root := false |}.

Definition sandboxed_wasm_request : ExecutionRequest :=
  {| req_kind := Wasm; req_version := None; req_stdin := []; req_network := NetNone;
     req_resources :=
       {| rl_cpu_count := None; rl_memory_required_bytes := None; rl_memory_bytes := Some 1024%N;
          rl_disk_bytes := None; rl_cpu_time := None; rl_wall_time := Some (from_millis 50);
          rl_process_count := None; rl_stdout_bytes := None; rl_stderr_bytes := None |};
     req_isolation := Strict; req_host_isolation := Trusted |}.


Lemma isolation_evidence_truthful_witness :
  ∃ ev, resolve_isolation linux_host RuntimeCapabilities.wasm Wasm sandboxed_wasm_request = Ok ev ∧
        ev_effective ev = Strict.
Proof.
  eexists. split; [vm_compute; reflexivity|].
  apply (isolation_evidence_truthful linux_host RuntimeCapabilities.wasm Wasm sandboxed_wasm_request);
    vm_compute; reflexivity.
Defined.

Lemma isolation_profiles_downward_closed_witness :
  is_ok (resolve_isolation linux_host RuntimeCapabilities.wasm Wasm
           (at_profile Sandboxed sandboxed_wasm_request)) = true.
Proof. apply isolation_profiles_downward_closed; vm_compute; reflexivity. Defined.
