(* ===== verification/Policy.v ===== *)
(** Policy: the [compute.policy@1] model (src/crates/compute-policy/src/policy.rs):
    canonical form, validation, composition by intersection.

    The identity of a policy, [sha256] of its canonical JSON, is computed by
    [sha2] and [serde_json]; it is the instance of [CanonicalIdentity] the
    operations that read it take as an argument. *)

From S2P Require Import Prelude Text Core.

(** [canonical_identity] at a type: a function of the value and nothing else. *)
Class CanonicalIdentity (A : Type) := canonical_identity : A → string.

Inductive PolicyError : Type :=
| UnsupportedVersion (version : string)
| Invalid (field message : string)
| Contract (message : string).

(** [Display] for [PolicyError] *)
Definition policy_error_to_string (error : PolicyError) : string :=
  match error with
  | UnsupportedVersion v =>
      "unsupported policy version " +:+ v +:+ "; this evaluator understands compute.policy@1"
  | Invalid field message => "invalid policy: " +:+ field +:+ ": " +:+ message
  | Contract message => "invalid execution contract: " +:+ message
  end.

Definition POLICY_VERSION : N := 1.

Inductive OutputClass : Type := Stdio | Files.

#[export] Instance OutputClass_eq_dec : EqDecision OutputClass.
Proof. solve_decision. Defined.
Definition output_class_position (c : OutputClass) : N := match c with Stdio => 0 | Files => 1 end.
#[export] Instance output_class_position_inj : Inj (=) (=) output_class_position.
Proof. by intros [] []. Qed.
#[export] Instance OutputClass_ord : Ord OutputClass := ord_by output_class_position.
#[export] Instance OutputClass_ord_laws : OrdLaws OutputClass := ord_by_laws output_class_position.
#[export] Instance OutputClass_json : ToJson OutputClass := λ c,
  Str (match c with Stdio => "stdio" | Files => "files" end).

Record PolicyDefaults : Type := {
  default_network : option NetworkPolicy;
  default_isolation : option IsolationProfile;
}.

Record PolicyLimits : Type := {
  max_timeout_ms : option N;
  max_memory_bytes : option N;
  max_input_bytes : option N;
  max_output_bytes : option N;
  max_artifact_bytes : option N;
}.

Record Policy : Type := {
  policy_version : N;
  policy_name : option string;
  defaults : PolicyDefaults;
  limits : PolicyLimits;
  allowed_runtimes : option (list RuntimeKind);
  allowed_runtime_versions : option (gmap RuntimeKind (list string));
  allowed_distributions : option (list string);
  allowed_dependencies : option (list string);
  minimum_isolation : option IsolationProfile;
  allowed_networks : option (list NetworkPolicy);
  allowed_os : option (list string);
  allowed_architectures : option (list string);
  allowed_output_classes : option (list OutputClass);
}.

#[export] Instance PolicyDefaults_eq_dec : EqDecision PolicyDefaults.
Proof. solve_decision. Defined.
#[export] Instance PolicyLimits_eq_dec : EqDecision PolicyLimits.
Proof. solve_decision. Defined.
#[export] Instance Policy_eq_dec : EqDecision Policy.
Proof. solve_decision. Defined.

Definition default_defaults : PolicyDefaults :=
  {| default_network := None; default_isolation := None |}.
Definition unlimited : PolicyLimits :=
  {| max_timeout_ms := None; max_memory_bytes := None; max_input_bytes := None;
     max_output_bytes := None; max_artifact_bytes := None |}.

(** [PolicyLimits::values] *)
Definition limit_values (l : PolicyLimits) : list (string * option N) :=
  [("max_timeout_ms", max_timeout_ms l); ("max_memory_bytes", max_memory_bytes l);
   ("max_input_bytes", max_input_bytes l); ("max_output_bytes", max_output_bytes l);
   ("max_artifact_bytes", max_artifact_bytes l)].

(** [Policy::unrestricted] *)
Definition unrestricted : Policy :=
  {| policy_version := POLICY_VERSION; policy_name := None; defaults := default_defaults;
     limits := unlimited; allowed_runtimes := None; allowed_runtime_versions := None;
     allowed_distributions := None; allowed_dependencies := None; minimum_isolation := None;
     allowed_networks := None; allowed_os := None; allowed_architectures := None;
     allowed_output_classes := None |}.

(** The [sort] of [Policy::canonical]. *)
Definition canonical_list {A} `{!EqDecision A, !Ord A} (values : option (list A)) : option (list A) :=
  match values with Some values => Some (btree_set values) | None => None end.

Definition canonical_versions (versions : option (gmap RuntimeKind (list string)))
    : option (gmap RuntimeKind (list string)) :=
  match versions with Some versions => Some (btree_set <$> versions) | None => None end.

(** [Policy::canonical]: every list sorted and without repetitions. *)
Definition canonical (p : Policy) : Policy :=
  {| policy_version := policy_version p; policy_name := policy_name p; defaults := defaults p;
     limits := limits p;
     allowed_runtimes := canonical_list (allowed_runtimes p);
     allowed_runtime_versions := canonical_versions (allowed_runtime_versions p);
     allowed_distributions := canonical_list (allowed_distributions p);
     allowed_dependencies := canonical_list (allowed_dependencies p);
     minimum_isolation := minimum_isolation p;
     allowed_networks := canonical_list (allowed_networks p);
     allowed_os := canonical_list (allowed_os p);
     allowed_architectures := canonical_list (allowed_architectures p);
     allowed_output_classes := canonical_list (allowed_output_classes p) |}.

(** [Policy::baseline] *)
Definition baseline : Policy :=
  canonical
    {| policy_version := POLICY_VERSION; policy_name := Some "compute-baseline";
       defaults := {| default_network := Some NetNone; default_isolation := Some Process |};
       limits := unlimited;
       allowed_runtimes := Some RuntimeKind.ALL;
       allowed_runtime_versions := None; allowed_distributions := None;
       allowed_dependencies := None;
       minimum_isolation := Some Process;
       allowed_networks := Some [NetNone; NetLocalhost; NetNetwork];
       allowed_os := None; allowed_architectures := None;
       allowed_output_classes := Some [Stdio; Files] |}.

(** ** Validation *)

Definition unique_non_empty {A} `{!EqDecision A, !Ord A} (values : option (list A)) (field : string)
    : Result unit PolicyError :=
  match values with
  | None => Ok tt
  | Some values =>
      reject_if (bool_decide (values = []))
        (Invalid field "an empty allow-list admits nothing; omit the field to leave it unrestricted") ;?;
      reject_if (negb (bool_decide (length (btree_set values) = length values)))
        (Invalid field "contains duplicate entries")
  end.

Definition is_platform_part (value : string) : bool :=
  negb (is_empty value) && N.leb (len value) 32 &&
  all_bytes (λ b, is_ascii_lowercase b || is_ascii_digit b || N.eqb b 95) value.

Definition valid_name (name : string) : bool :=
  negb (is_empty name || N.ltb 128 (len name) ||
        negb (all_bytes (λ b, is_ascii_alphanumeric b || one_of "-_.@" b) name)).

(** The values of an optional list ([values.iter().flatten()]). *)
Definition entries {A} (values : option (list A)) : list A := default [] values.

Definition validate_digests (field : string) (values : option (list string)) : Result unit PolicyError :=
  unique_non_empty values field ;?;
  try_for_each (λ value, map_err (λ e, Invalid field (error_to_string e))
                           (validate_sha256_identity value)) (entries values).

Definition validate_platform_parts (field : string) (values : option (list string))
    : Result unit PolicyError :=
  unique_non_empty values field ;?;
  reject_if (existsb (λ value, negb (is_platform_part value)) (entries values))
    (Invalid field "use lowercase names such as linux or x86_64").

Definition validate_versions_of (p : Policy) (versions : gmap RuntimeKind (list string))
    (runtime : RuntimeKind) : Result unit PolicyError :=
  match versions !! runtime with
  | None => Ok tt
  | Some prefixes =>
      let name := RuntimeKind.as_str runtime in
      let field := "allowed_runtime_versions." +:+ name in
      unique_non_empty (Some prefixes) field ;?;
      reject_if (existsb (λ value, is_empty (trim value) || negb (String.eqb (trim value) value)) prefixes)
        (Invalid field "versions must be non-empty and trimmed") ;?;
      reject_if (match allowed_runtimes p with
                 | Some allowed => negb (bool_decide (runtime ∈ allowed))
                 | None => false
                 end)
        (Invalid field (name +:+ " versions are listed, but " +:+ name +:+ " is not an allowed runtime"))
  end.

(** [Policy::validate] *)
Definition validate (p : Policy) : Result unit PolicyError :=
  reject_if (negb (N.eqb (policy_version p) POLICY_VERSION))
    (UnsupportedVersion (show (policy_version p))) ;?;
  reject_if (match policy_name p with Some name => negb (valid_name name) | None => false end)
    (Invalid "name" "use 1-128 ASCII letters, digits, '-', '_', '.', or '@'") ;?;
  try_for_each (λ entry, reject_if (bool_decide (snd entry = Some 0%N))
      (Invalid ("limits." +:+ fst entry)
        "a zero limit admits nothing; omit the limit or use a positive value"))
    (limit_values (limits p)) ;?;
  reject_if (match max_input_bytes (limits p), max_artifact_bytes (limits p) with
             | Some input, Some artifact => N.ltb artifact input
             | _, _ => false
             end)
    (Invalid "limits"
      "max_input_bytes cannot exceed max_artifact_bytes: inputs travel inside the artifact") ;?;
  unique_non_empty (allowed_runtimes p) "allowed_runtimes" ;?;
  unique_non_empty (allowed_networks p) "allowed_networks" ;?;
  unique_non_empty (allowed_output_classes p) "allowed_output_classes" ;?;
  validate_digests "allowed_distributions" (allowed_distributions p) ;?;
  validate_digests "allowed_dependencies" (allowed_dependencies p) ;?;
  validate_platform_parts "allowed_os" (allowed_os p) ;?;
  validate_platform_parts "allowed_architectures" (allowed_architectures p) ;?;
  match allowed_runtime_versions p with
  | None => Ok tt
  | Some versions => try_for_each (validate_versions_of p versions) RuntimeKind.ALL
  end ;?;
  reject_if (match default_network (defaults p), allowed_networks p with
             | Some network, Some allowed => negb (bool_decide (network ∈ allowed))
             | _, _ => false
             end)
    (Invalid "defaults.network"
      ("default network " +:+ from_option network_str "" (default_network (defaults p))
       +:+ " is not an allowed network")) ;?;
  reject_if (match default_isolation (defaults p), minimum_isolation p with
             | Some isolation, Some minimum => IsolationProfile.ltb isolation minimum
             | _, _ => false
             end)
    (Invalid "defaults.isolation"
      ("default isolation " +:+ from_option IsolationProfile.as_str "" (default_isolation (defaults p))
       +:+ " is weaker than the minimum "
       +:+ from_option IsolationProfile.as_str "" (minimum_isolation p))).

(** ** Intersection *)

Definition keep {A} `{!EqDecision A} (l r : list A) : list A := filter (λ value, value ∈ r) l.

Definition intersect_lists {A} `{!EqDecision A} (l r : option (list A)) : option (list A) :=
  match l, r with
  | Some l, Some r => Some (keep l r)
  | Some values, None | None, Some values => Some values
  | None, None => None
  end.

Definition minimum (l r : option N) : option N :=
  match l, r with
  | Some l, Some r => Some (N.min l r)
  | value, None | None, value => value
  end.

(** [Option<IsolationProfile>::max], where [None] is below every profile. *)
Definition max_isolation (l r : option IsolationProfile) : option IsolationProfile :=
  match l, r with
  | Some l, Some r => Some (IsolationProfile.max l r)
  | value, None | None, value => value
  end.

Definition network_rank (policy : NetworkPolicy) : N :=
  match policy with NetNone => 0 | NetLocalhost => 1 | NetNetwork => 2 end.

Definition intersect_versions (l r : option (gmap RuntimeKind (list string)))
    : option (gmap RuntimeKind (list string)) :=
  match l, r with
  | Some l, Some r => Some (union_with (λ existing prefixes, Some (keep existing prefixes)) l r)
  | Some value, None | None, Some value => Some value
  | None, None => None
  end.

Definition intersect_network (l r : option NetworkPolicy) : option NetworkPolicy :=
  match l, r with
  | Some l, Some r => Some (if N.leb (network_rank l) (network_rank r) then l else r)
  | value, None | None, value => value
  end.

Definition intersect_limits (l r : PolicyLimits) : PolicyLimits :=
  {| max_timeout_ms := minimum (max_timeout_ms l) (max_timeout_ms r);
     max_memory_bytes := minimum (max_memory_bytes l) (max_memory_bytes r);
     max_input_bytes := minimum (max_input_bytes l) (max_input_bytes r);
     max_output_bytes := minimum (max_output_bytes l) (max_output_bytes r);
     max_artifact_bytes := minimum (max_artifact_bytes l) (max_artifact_bytes r) |}.

(** [Policy::intersect] *)
Definition intersect (p q : Policy) : Policy :=
  canonical
    {| policy_version := POLICY_VERSION;
       policy_name := None;
       defaults :=
         {| default_network :=
              intersect_network (default_network (defaults p)) (default_network (defaults q));
            default_isolation :=
              max_isolation (default_isolation (defaults p)) (default_isolation (defaults q)) |};
       limits := intersect_limits (limits p) (limits q);
       allowed_runtimes := intersect_lists (allowed_runtimes p) (allowed_runtimes q);
       allowed_runtime_versions :=
         intersect_versions (allowed_runtime_versions p) (allowed_runtime_versions q);
       allowed_distributions := intersect_lists (allowed_distributions p) (allowed_distributions q);
       allowed_dependencies := intersect_lists (allowed_dependencies p) (allowed_dependencies q);
       minimum_isolation := max_isolation (minimum_isolation p) (minimum_isolation q);
       allowed_networks := intersect_lists (allowed_networks p) (allowed_networks q);
       allowed_os := intersect_lists (allowed_os p) (allowed_os q);
       allowed_architectures := intersect_lists (allowed_architectures p) (allowed_architectures q);
       allowed_output_classes :=
         intersect_lists (allowed_output_classes p) (allowed_output_classes q) |}.

(** [policy.name = None] *)
Definition unnamed (p : Policy) : Policy :=
  {| policy_version := policy_version p; policy_name := None; defaults := defaults p;
     limits := limits p; allowed_runtimes := allowed_runtimes p;
     allowed_runtime_versions := allowed_runtime_versions p;
     allowed_distributions := allowed_distributions p;
     allowed_dependencies := allowed_dependencies p; minimum_isolation := minimum_isolation p;
     allowed_networks := allowed_networks p; allowed_os := allowed_os p;
     allowed_architectures := allowed_architectures p;
     allowed_output_classes := allowed_output_classes p |}.

(** ** Effective policies *)

Inductive PolicySourceKind : Type :=
| Baseline | Local | Server | Provider | Environment | Explicit.

#[export] Instance PolicySourceKind_eq_dec : EqDecision PolicySourceKind.
Proof. solve_decision. Defined.
Definition source_position (kind : PolicySourceKind) : N :=
  match kind with
  | Baseline => 0 | Local => 1 | Server => 2 | Provider => 3 | Environment => 4 | Explicit => 5
  end.
#[export] Instance source_position_inj : Inj (=) (=) source_position.
Proof. by intros [] []. Qed.
#[export] Instance PolicySourceKind_ord : Ord PolicySourceKind := ord_by source_position.
#[export] Instance PolicySourceKind_ord_laws : OrdLaws PolicySourceKind := ord_by_laws source_position.

Record PolicySource : Type := {
  source_kind : PolicySourceKind;
  source_policy_id : string;
  source_label : option string;
}.

Record EffectivePolicy : Type := {
  effective_policy_id : string;
  effective_policy : Policy;
  sources : list PolicySource;
}.

#[export] Instance PolicySource_eq_dec : EqDecision PolicySource.
Proof. solve_decision. Defined.
#[export] Instance EffectivePolicy_eq_dec : EqDecision EffectivePolicy.
Proof. solve_decision. Defined.

Section effective.
Context `{!CanonicalIdentity Policy}.

(** [Policy::policy_id] *)
Definition policy_id (p : Policy) : string := canonical_identity (canonical p).

(** [Policy::label] *)
Definition label (p : Policy) : string :=
  match policy_name p with
  | Some name => name +:+ "@" +:+ show (policy_version p)
  | None => policy_id p
  end.

Definition record_source (kind : PolicySourceKind) (source : Policy) : PolicySource :=
  {| source_kind := kind; source_policy_id := policy_id source;
     source_label := match policy_name source with Some _ => Some (label source) | None => None end |}.

(** [EffectivePolicy::compose] *)
Definition compose (srcs : list (PolicySourceKind * Policy)) : EffectivePolicy :=
  let sorted := sort_by (λ l r, then_with (cmp (fst l) (fst r))
                                  (cmp (policy_id (snd l)) (policy_id (snd r)))) srcs in
  let policy := unnamed (foldl (λ policy entry, intersect policy (snd entry)) baseline sorted) in
  {| effective_policy_id := policy_id policy;
     effective_policy := policy;
     sources := {| source_kind := Baseline; source_policy_id := policy_id baseline;
                   source_label := Some (label baseline) |}
                :: ((λ entry, record_source (fst entry) (snd entry)) <$> sorted) |}.

(** [EffectivePolicy::with] *)
Definition with_source (effective : EffectivePolicy) (kind : PolicySourceKind) (source : Policy)
    : EffectivePolicy :=
  let policy := unnamed (intersect (effective_policy effective) source) in
  {| effective_policy_id := policy_id policy;
     effective_policy := policy;
     sources := sources effective ++ [record_source kind source] |}.
End effective.

(** ** Algebra of the list, limit, version and profile intersections *)

Section lists.
Context {A : Type} `{!EqDecision A, !Ord A, !OrdLaws A}.
Implicit Types l r s : option (list A).

Lemma elem_of_keep (x : A) (l r : list A) : x ∈ keep l r ↔ x ∈ l ∧ x ∈ r.
Proof. unfold keep. rewrite list_elem_of_filter. naive_solver. Qed.

Lemma canonical_list_ext l r :
  match l, r with
  | Some l, Some r => ∀ x, x ∈ l ↔ x ∈ r
  | None, None => True
  | _, _ => False
  end ↔ canonical_list l = canonical_list r.
Proof.
  destruct l as [l|], r as [r|]; simpl; try naive_solver. split.
  - intros H. by rewrite (btree_set_ext l r).
  - intros [= H] x. by rewrite <-(elem_of_btree_set x l), H, elem_of_btree_set.
Qed.

Local Ltac lists_ext :=
  simpl; try done; f_equal; apply btree_set_ext;
  intros ?; repeat (rewrite elem_of_keep || rewrite elem_of_btree_set); naive_solver.

Lemma canonical_list_idem l : canonical_list (canonical_list l) = canonical_list l.
Proof. destruct l; simpl; [|done]. by rewrite btree_set_idem. Qed.

Lemma intersect_lists_comm l r :
  canonical_list (intersect_lists l r) = canonical_list (intersect_lists r l).
Proof. unfold intersect_lists. destruct l, r; lists_ext. Qed.

Lemma intersect_lists_assoc l r s :
  canonical_list (intersect_lists (canonical_list (intersect_lists l r)) s) =
  canonical_list (intersect_lists l (canonical_list (intersect_lists r s))).
Proof. unfold intersect_lists, canonical_list. destruct l, r, s; lists_ext. Qed.

Lemma intersect_lists_idem l :
  canonical_list (intersect_lists l l) = canonical_list l.
Proof. unfold intersect_lists. destruct l; lists_ext. Qed.

(** A value is allowed by the intersection exactly when both allow it. *)
Definition permits (values : option (list A)) (x : A) : Prop :=
  match values with Some values => x ∈ values | None => True end.

Lemma permits_canonical_list l x : permits (canonical_list l) x ↔ permits l x.
Proof. destruct l; simpl; [apply elem_of_btree_set|done]. Qed.

Lemma permits_intersect l r x : permits (intersect_lists l r) x ↔ permits l x ∧ permits r x.
Proof. destruct l, r; simpl; rewrite ?elem_of_keep; naive_solver. Qed.
End lists.

Lemma minimum_comm l r : minimum l r = minimum r l.
Proof. destruct l, r; simpl; try done. by rewrite N.min_comm. Qed.
Lemma minimum_assoc l r s : minimum (minimum l r) s = minimum l (minimum r s).
Proof. destruct l, r, s; simpl; try done. by rewrite N.min_assoc. Qed.
Lemma minimum_idem l : minimum l l = l.
Proof. destruct l; simpl; [|done]. by rewrite N.min_id. Qed.

Lemma max_isolation_comm l r : max_isolation l r = max_isolation r l.
Proof. by destruct l as [[]|], r as [[]|]. Qed.
Lemma max_isolation_assoc l r s :
  max_isolation (max_isolation l r) s = max_isolation l (max_isolation r s).
Proof. by destruct l as [[]|], r as [[]|], s as [[]|]. Qed.
Lemma max_isolation_idem l : max_isolation l l = l.
Proof. by destruct l as [[]|]. Qed.

Lemma intersect_network_comm l r : intersect_network l r = intersect_network r l.
Proof. by destruct l as [[]|], r as [[]|]. Qed.
Lemma intersect_network_assoc l r s :
  intersect_network (intersect_network l r) s = intersect_network l (intersect_network r s).
Proof. by destruct l as [[]|], r as [[]|], s as [[]|]. Qed.
Lemma intersect_network_idem l : intersect_network l l = l.
Proof. by destruct l as [[]|]. Qed.

Section versions.
Implicit Types m n : gmap RuntimeKind (list string).

(** The prefixes of one runtime, as an optional list. *)
Lemma lookup_intersect_versions m n kind :
  union_with (λ existing prefixes, Some (keep existing prefixes)) m n !! kind =
  intersect_lists (m !! kind) (n !! kind).
Proof. rewrite lookup_union_with. by destruct (m !! kind), (n !! kind). Qed.

Lemma lookup_canonical_versions m kind : (btree_set <$> m) !! kind = canonical_list (m !! kind).
Proof. rewrite lookup_fmap. by destruct (m !! kind). Qed.
End versions.

Local Ltac versions_ext lemma :=
  simpl; f_equal; apply map_eq; intros kind;
  repeat (rewrite lookup_intersect_versions || rewrite lookup_canonical_versions);
  apply lemma; apply _.

Lemma canonical_versions_idem v : canonical_versions (canonical_versions v) = canonical_versions v.
Proof. destruct v; [|done]. versions_ext (@canonical_list_idem string). Qed.

Lemma intersect_versions_comm l r :
  canonical_versions (intersect_versions l r) = canonical_versions (intersect_versions r l).
Proof. destruct l, r; try done. versions_ext (@intersect_lists_comm string). Qed.

Lemma intersect_versions_assoc l r s :
  canonical_versions (intersect_versions (canonical_versions (intersect_versions l r)) s) =
  canonical_versions (intersect_versions l (canonical_versions (intersect_versions r s))).
Proof.
  destruct l as [l|], r as [r|], s as [s|]; simpl; f_equal; apply map_eq; intros kind;
    repeat (rewrite lookup_intersect_versions || rewrite lookup_canonical_versions);
    try apply intersect_lists_assoc; try by rewrite !canonical_list_idem.
  all: try (pose proof (intersect_lists_assoc (l !! kind) (r !! kind) None) as H;
            destruct (l !! kind), (r !! kind); exact H).
  all: try (pose proof (intersect_lists_assoc (l !! kind) None (s !! kind)) as H;
            destruct (l !! kind), (s !! kind); exact H).
  all: pose proof (intersect_lists_assoc None (r !! kind) (s !! kind)) as H;
       destruct (r !! kind), (s !! kind); exact H.
Qed.

Lemma intersect_versions_idem v :
  canonical_versions (intersect_versions v v) = canonical_versions v.
Proof. destruct v; [|done]. versions_ext (@intersect_lists_idem string). Qed.

(** ** Policies form a semilattice under intersection *)

Lemma canonical_idem p : canonical (canonical p) = canonical p.
Proof. unfold canonical; simpl. by rewrite !canonical_list_idem, canonical_versions_idem. Qed.

Lemma intersect_commutes p q : intersect p q = intersect q p.
Proof.
  unfold intersect, canonical; simpl. f_equal.
  - f_equal; [apply intersect_network_comm|apply max_isolation_comm].
  - unfold intersect_limits. f_equal; apply minimum_comm.
  - apply intersect_lists_comm.
  - apply intersect_versions_comm.
  - apply intersect_lists_comm.
  - apply intersect_lists_comm.
  - apply max_isolation_comm.
  - apply intersect_lists_comm.
  - apply intersect_lists_comm.
  - apply intersect_lists_comm.
  - apply intersect_lists_comm.
Qed.

Lemma intersect_associates p q r : intersect (intersect p q) r = intersect p (intersect q r).
Proof.
  unfold intersect, canonical; simpl. f_equal.
  - f_equal; [apply intersect_network_assoc|apply max_isolation_assoc].
  - unfold intersect_limits; simpl. f_equal; apply minimum_assoc.
  - apply intersect_lists_assoc.
  - apply intersect_versions_assoc.
  - apply intersect_lists_assoc.
  - apply intersect_lists_assoc.
  - apply max_isolation_assoc.
  - apply intersect_lists_assoc.
  - apply intersect_lists_assoc.
  - apply intersect_lists_assoc.
  - apply intersect_lists_assoc.
Qed.

Lemma intersect_idempotent p :
  policy_version p = POLICY_VERSION → intersect p p = unnamed (canonical p).
Proof.
  intros Hv. unfold intersect, canonical, unnamed; simpl.
  rewrite !intersect_lists_idem, !intersect_versions_idem, intersect_network_idem,
    !max_isolation_idem, Hv.
  f_equal; [by destruct (defaults p)|].
  destruct (limits p). unfold intersect_limits; simpl. by rewrite !minimum_idem.
Qed.

Lemma unnamed_intersect p q : unnamed (intersect p q) = intersect p q.
Proof. done. Qed.

Lemma intersect_unnamed_l p q : intersect (unnamed p) q = intersect p q.
Proof. done. Qed.

(** Folding intersections over the sources, whatever their order. *)
Definition intersect_all (acc : Policy) (ps : list Policy) : Policy := foldl intersect acc ps.

Lemma intersect_all_perm acc ps qs : ps ≡ₚ qs → intersect_all acc ps = intersect_all acc qs.
Proof.
  intros Hperm. revert acc. induction Hperm as [|x l l' _ IH|x y l|l l' l'' _ IH1 _ IH2]; intros acc.
  - done.
  - apply IH.
  - simpl. by rewrite !intersect_associates, (intersect_commutes y x).
  - by rewrite IH1.
Qed.

Lemma foldl_sources acc (srcs : list (PolicySourceKind * Policy)) :
  foldl (λ policy entry, intersect policy (snd entry)) acc srcs = intersect_all acc (snd <$> srcs).
Proof. revert acc. induction srcs as [|x srcs IH]; intros acc; [done|]. simpl. apply IH. Qed.

Lemma compose_policy `{!CanonicalIdentity Policy} srcs :
  effective_policy (compose srcs) = unnamed (intersect_all baseline (snd <$> srcs)).
Proof.
  unfold compose; simpl. rewrite foldl_sources. f_equal.
  apply intersect_all_perm, fmap_Permutation, sort_by_perm.
Qed.

(** ** Validity, stated by its meaning *)

(** An allow-list that admits something and lists nothing twice. *)
Definition Listed {A} (values : option (list A)) : Prop :=
  ∀ l, values = Some l → l ≠ [] ∧ NoDup l.

Record WellFormed (p : Policy) : Prop := {
  wf_version : policy_version p = POLICY_VERSION;
  wf_name name : policy_name p = Some name → valid_name name = true;
  wf_limits field v : (field, Some v) ∈ limit_values (limits p) → (0 < v)%N;
  wf_artifact input artifact :
    max_input_bytes (limits p) = Some input → max_artifact_bytes (limits p) = Some artifact →
    (input ≤ artifact)%N;
  wf_runtimes : Listed (allowed_runtimes p);
  wf_networks : Listed (allowed_networks p);
  wf_classes : Listed (allowed_output_classes p);
  wf_distributions : Listed (allowed_distributions p) ∧
    ∀ d, d ∈ entries (allowed_distributions p) → validate_sha256_identity d = Ok tt;
  wf_dependencies : Listed (allowed_dependencies p) ∧
    ∀ d, d ∈ entries (allowed_dependencies p) → validate_sha256_identity d = Ok tt;
  wf_os : Listed (allowed_os p) ∧
    ∀ part, part ∈ entries (allowed_os p) → is_platform_part part = true;
  wf_architectures : Listed (allowed_architectures p) ∧
    ∀ part, part ∈ entries (allowed_architectures p) → is_platform_part part = true;
  wf_versions versions kind prefixes :
    allowed_runtime_versions p = Some versions → versions !! kind = Some prefixes →
    Listed (Some prefixes) ∧ (∀ v, v ∈ prefixes → is_empty (trim v) = false ∧ trim v = v) ∧
    permits (allowed_runtimes p) kind;
  wf_default_network network :
    default_network (defaults p) = Some network → permits (allowed_networks p) network;
  wf_default_isolation isolation minimum :
    default_isolation (defaults p) = Some isolation → minimum_isolation p = Some minimum →
    IsolationProfile.leb minimum isolation = true;
}.

Lemma unique_non_empty_ok {A} `{!EqDecision A, !Ord A, !OrdLaws A} (values : option (list A)) field :
  unique_non_empty values field = Ok tt ↔ Listed values.
Proof.
  unfold Listed. destruct values as [l|]; simpl; [|naive_solver].
  rewrite seq_ok, !reject_if_ok, negb_false_iff, bool_decide_eq_false, bool_decide_eq_true.
  rewrite length_btree_set_NoDup. naive_solver.
Qed.

Lemma existsb_false_forall {A} (f : A → bool) l :
  existsb f l = false ↔ ∀ x, x ∈ l → f x = false.
Proof.
  induction l as [|x l IH]; simpl; [split; [intros _ ? []%not_elem_of_nil|done]|].
  rewrite orb_false_iff, IH. setoid_rewrite elem_of_cons. naive_solver.
Qed.

Lemma validate_digests_ok field values :
  validate_digests field values = Ok tt ↔
  Listed values ∧ ∀ d, d ∈ entries values → validate_sha256_identity d = Ok tt.
Proof.
  unfold validate_digests. rewrite seq_ok, unique_non_empty_ok, try_for_each_ok.
  by setoid_rewrite map_err_ok.
Qed.

Lemma validate_platform_parts_ok field values :
  validate_platform_parts field values = Ok tt ↔
  Listed values ∧ ∀ part, part ∈ entries values → is_platform_part part = true.
Proof.
  unfold validate_platform_parts.
  rewrite seq_ok, unique_non_empty_ok, reject_if_ok, existsb_false_forall.
  by setoid_rewrite negb_false_iff.
Qed.

Lemma validate_versions_of_ok p versions kind :
  validate_versions_of p versions kind = Ok tt ↔
  ∀ prefixes, versions !! kind = Some prefixes →
    Listed (Some prefixes) ∧ (∀ v, v ∈ prefixes → is_empty (trim v) = false ∧ trim v = v) ∧
    permits (allowed_runtimes p) kind.
Proof.
  unfold validate_versions_of. destruct (versions !! kind) as [prefixes|]; [|naive_solver].
  rewrite !seq_ok, unique_non_empty_ok, !reject_if_ok, existsb_false_forall.
  setoid_rewrite orb_false_iff. setoid_rewrite negb_false_iff. setoid_rewrite String.eqb_eq.
  assert (match allowed_runtimes p with
          | Some allowed => negb (bool_decide (kind ∈ allowed)) | None => false end = false
          ↔ permits (allowed_runtimes p) kind) as ->; [|naive_solver].
  unfold permits. destruct (allowed_runtimes p); [|done].
  by rewrite negb_false_iff, bool_decide_eq_true.
Qed.

Lemma validate_limits_ok l :
  try_for_each (λ entry, reject_if (bool_decide (snd entry = Some 0%N))
      (Invalid ("limits." +:+ fst entry)
        "a zero limit admits nothing; omit the limit or use a positive value"))
    (limit_values l) = Ok tt ↔ ∀ field v, (field, Some v) ∈ limit_values l → (0 < v)%N.
Proof.
  rewrite try_for_each_ok. setoid_rewrite reject_if_ok. setoid_rewrite bool_decide_eq_false.
  split.
  - intros H field v Hin. specialize (H _ Hin). simpl in H. destruct v; [done|lia].
  - intros H [field v] Hin Hv. simpl in Hv. subst. specialize (H _ _ Hin). lia.
Qed.

Lemma validate_all_versions_ok p :
  match allowed_runtime_versions p with
  | None => Ok tt
  | Some versions => try_for_each (validate_versions_of p versions) RuntimeKind.ALL
  end = Ok tt ↔
  ∀ versions kind prefixes, allowed_runtime_versions p = Some versions →
    versions !! kind = Some prefixes →
    Listed (Some prefixes) ∧ (∀ v, v ∈ prefixes → is_empty (trim v) = false ∧ trim v = v) ∧
    permits (allowed_runtimes p) kind.
Proof.
  destruct (allowed_runtime_versions p) as [versions|]; [|naive_solver].
  rewrite try_for_each_ok. setoid_rewrite validate_versions_of_ok. split.
  - intros H ? kind prefixes [= <-]. apply H, elem_of_all_runtimes.
  - intros H kind _ prefixes. by apply H.
Qed.

Lemma isolation_ltb_false isolation minimum :
  IsolationProfile.ltb isolation minimum = false ↔ IsolationProfile.leb minimum isolation = true.
Proof. by destruct isolation, minimum. Qed.

Lemma permits_guard {A} `{!EqDecision A} (o : option A) (allowed : option (list A)) :
  match o, allowed with
  | Some x, Some allowed => negb (bool_decide (x ∈ allowed))
  | _, _ => false
  end = false ↔ ∀ x, o = Some x → permits allowed x.
Proof.
  unfold permits. destruct o, allowed; rewrite ?negb_false_iff, ?bool_decide_eq_true; naive_solver.
Qed.

Lemma validate_well_formed p : validate p = Ok tt ↔ WellFormed p.
Proof.
  unfold validate. rewrite !seq_ok, !reject_if_ok, validate_limits_ok, !unique_non_empty_ok,
    !validate_digests_ok, !validate_platform_parts_ok, negb_false_iff, N.eqb_eq,
    validate_all_versions_ok, permits_guard, guard_option, !guard_option_2.
  setoid_rewrite isolation_ltb_false. setoid_rewrite negb_false_iff. setoid_rewrite N.ltb_ge.
  split; [intros (? & ? & ? & ? & ? & ? & ? & ? & ? & ? & ? & ? & ? & ?); by split
         |intros []; do 13 (split; [assumption|]); assumption].
Qed.

Lemma Listed_canonical {A} `{!EqDecision A, !Ord A, !OrdLaws A} (values : option (list A)) :
  Listed values → Listed (canonical_list values).
Proof.
  unfold Listed. destruct values as [l|]; simpl; [|done]. intros H ? [= <-].
  destruct (H l) as [Hne _]; [done|]. split; [by rewrite btree_set_nil|apply btree_set_NoDup].
Qed.

Lemma entries_canonical {A} `{!EqDecision A, !Ord A, !OrdLaws A} (values : option (list A)) x :
  x ∈ entries (canonical_list values) ↔ x ∈ entries values.
Proof. destruct values; simpl; [apply elem_of_btree_set|done]. Qed.

Lemma canonical_versions_inv v versions kind prefixes :
  canonical_versions v = Some versions → versions !! kind = Some prefixes →
  ∃ versions' prefixes', v = Some versions' ∧ versions' !! kind = Some prefixes' ∧
    prefixes = btree_set prefixes'.
Proof.
  destruct v as [m|]; [|done]. intros [= <-]. rewrite lookup_fmap.
  destruct (m !! kind) as [l|] eqn:E; [|done]. intros [= <-]. eauto.
Qed.

Lemma canonical_well_formed p : WellFormed p → WellFormed (canonical p).
Proof.
  intros []. split; simpl; try done; try by apply Listed_canonical.
  1-4: destruct_and!; split; [by apply Listed_canonical|];
       intros ?; rewrite entries_canonical; auto.
  - intros versions kind prefixes Hv Hk.
    destruct (canonical_versions_inv _ _ _ _ Hv Hk) as (versions' & prefixes' & H1 & H2 & ->).
    destruct (wf_versions0 _ _ _ H1 H2) as (Hl & Htrim & Hperm).
    rewrite permits_canonical_list. split; [by apply (Listed_canonical (Some prefixes'))|].
    split; [|done]. intros v. rewrite elem_of_btree_set. apply Htrim.
  - intros network Hn. rewrite permits_canonical_list. auto.
Qed.

(** Two policies that differ at most in the order and the repetitions of their lists. *)
Definition same_values {A} (l r : option (list A)) : Prop :=
  match l, r with
  | Some l, Some r => ∀ x, x ∈ l ↔ x ∈ r
  | None, None => True
  | _, _ => False
  end.

Definition same_versions (l r : option (gmap RuntimeKind (list string))) : Prop :=
  match l, r with
  | Some l, Some r => ∀ kind, same_values (l !! kind) (r !! kind)
  | None, None => True
  | _, _ => False
  end.

Record SameMeaning (p q : Policy) : Prop := {
  same_version : policy_version p = policy_version q;
  same_name : policy_name p = policy_name q;
  same_defaults : defaults p = defaults q;
  same_limits : limits p = limits q;
  same_runtimes : same_values (allowed_runtimes p) (allowed_runtimes q);
  same_runtime_versions : same_versions (allowed_runtime_versions p) (allowed_runtime_versions q);
  same_distributions : same_values (allowed_distributions p) (allowed_distributions q);
  same_dependencies : same_values (allowed_dependencies p) (allowed_dependencies q);
  same_isolation : minimum_isolation p = minimum_isolation q;
  same_networks : same_values (allowed_networks p) (allowed_networks q);
  same_os : same_values (allowed_os p) (allowed_os q);
  same_architectures : same_values (allowed_architectures p) (allowed_architectures q);
  same_classes : same_values (allowed_output_classes p) (allowed_output_classes q);
}.

Lemma canonical_versions_ext l r : same_versions l r ↔ canonical_versions l = canonical_versions r.
Proof.
  destruct l as [l|], r as [r|]; simpl; try naive_solver. split.
  - intros H. f_equal. apply map_eq. intros kind. rewrite !lookup_canonical_versions.
    apply canonical_list_ext, H.
  - intros [= H] kind. apply canonical_list_ext. by rewrite <-!lookup_canonical_versions, H.
Qed.

(** ** Properties *)

(** Intersection makes policies a semilattice: it is commutative and
    associative, and intersecting a version-1 policy with itself gives its
    canonical form without the name. *)
Theorem intersect_semilattice p q r :
  intersect p q = intersect q p ∧
  intersect (intersect p q) r = intersect p (intersect q r) ∧
  (policy_version p = POLICY_VERSION → intersect p p = unnamed (canonical p)).
Proof.
  split; [apply intersect_commutes|]. split; [apply intersect_associates|].
  apply intersect_idempotent.
Qed.

(** Composition does not depend on the order of its sources: permuted
    sources give the same effective policy under the same identity. *)
Theorem compose_order_independent `{!CanonicalIdentity Policy} srcs srcs' :
  srcs ≡ₚ srcs' →
  effective_policy (compose srcs) = effective_policy (compose srcs') ∧
  effective_policy_id (compose srcs) = effective_policy_id (compose srcs').
Proof.
  intros Hperm.
  assert (effective_policy (compose srcs) = effective_policy (compose srcs')) as Heq.
  { rewrite !compose_policy. f_equal. by apply intersect_all_perm, fmap_Permutation. }
  split; [done|]. by apply (f_equal policy_id) in Heq.
Qed.

(** Validation decides well-formedness: a policy passes [validate] exactly
    when every field has the meaning it needs (a known version, a printable
    name, positive limits, non-empty lists without repetitions, well-formed
    digests and platform names, version prefixes of allowed runtimes only, and
    defaults the policy itself allows). *)
Theorem validate_exact p : validate p = Ok tt ↔ WellFormed p.
Proof. apply validate_well_formed. Qed.

(** The canonical form identifies policies up to meaning: two policies have
    the same canonical form exactly when they differ at most in the order and
    the repetitions of their lists; it is idempotent, and it keeps a valid
    policy valid. *)
Theorem canonical_form p q :
  (canonical p = canonical q ↔ SameMeaning p q) ∧
  canonical (canonical p) = canonical p ∧
  (validate p = Ok tt → validate (canonical p) = Ok tt).
Proof.
  split; [|split; [apply canonical_idem|]].
  - unfold canonical. split.
    + intros [= ?????]. split; auto; by (apply canonical_list_ext || apply canonical_versions_ext).
    + intros []. f_equal; auto; by (apply canonical_list_ext || apply canonical_versions_ext).
  - rewrite !validate_well_formed. apply canonical_well_formed.
Qed.

(** ** Witnesses *)

Definition python_only : Policy :=
  {| policy_version := 1; policy_name := Some "python"; defaults := default_defaults;
     limits := {| max_timeout_ms := Some 1000%N; max_memory_bytes := None; max_input_bytes := None;
                  max_output_bytes := None; max_artifact_bytes := None |};
     allowed_runtimes := Some [Python; Node]; allowed_runtime_versions := None;
     allowed_distributions := None; allowed_dependencies := None; minimum_isolation := None;
     allowed_networks := Some [NetNetwork; NetNone]; allowed_os := Some ["linux"];
     allowed_architectures := None; allowed_output_classes := None |}.

Lemma intersect_semilattice_witness :
  intersect python_only python_only = unnamed (canonical python_only).
Proof. apply (intersect_semilattice python_only python_only python_only). reflexivity. Defined.

Lemma compose_order_independent_witness :
  let _ : CanonicalIdentity Policy := λ p, default "anonymous" (policy_name p) in
  effective_policy (compose [(Local, python_only); (Explicit, baseline)]) =
  effective_policy (compose [(Explicit, baseline); (Local, python_only)]).
Proof. intros ident. apply compose_order_independent. apply Permutation_swap. Defined.

Lemma canonical_form_witness : validate (canonical python_only) = Ok tt.
Proof. apply (canonical_form python_only python_only). vm_compute. reflexivity. Defined.
