(* ===== verification/Admission.v ===== *)
(** Admission: [Policy + ExecutionContract + ProviderFacts -> decision]
    (src/crates/compute-policy/src/admission.rs and the data of contract.rs).

    [admit] evaluates every dimension and collects every reason; here each
    dimension is a definition that returns its reasons, in the source's order,
    and [policy_admit] concatenates and sorts them. *)

From S2P Require Import Prelude Text Core Policy.

(** ** The execution contract *)

Record ContractRuntime : Type := {
  cr_kind : RuntimeKind;
  cr_version : option string;
}.

Record ContractResources : Type := {
  cr_timeout_ms : option N;
  cr_memory_bytes : option N;
  cr_cpu_time_ms : option N;
  cr_process_count : option N;
  cr_stdout_bytes : option N;
  cr_stderr_bytes : option N;
}.

(** [ContractResources::output_bound] *)
Definition output_bound (r : ContractResources) : option N :=
  out ← cr_stdout_bytes r; err ← cr_stderr_bytes r; Some (saturating_add out err).

Record ExecutionContract : Type := {
  contract_version : string;
  workload_id : string;
  bundle_id : string;
  contract_runtime : ContractRuntime;
  dependency_id : option string;
  contract_isolation : IsolationProfile;
  contract_network : NetworkPolicy;
  contract_resources : ContractResources;
  contract_platform : option PlatformIdentity;
  input_bytes : N;
  artifact_bytes : N;
  output_classes : list OutputClass;
}.

(** [elf_platform]: the platform of an ELF executable, from its header. *)
Definition elf_platform (data : list N) : option PlatformIdentity :=
  if bool_decide (length data < 20) || negb (bool_decide (take 4 data = [127; 69; 76; 70]%N)) then None
  else
    let at_ (i : nat) := default 0%N (data !! i) in
    let first := at_ 18 in
    let second := at_ 19 in
    machine ← match at_ 5 with
              | 1%N => Some (first + 256 * second)%N
              | 2%N => Some (256 * first + second)%N
              | _ => None
              end;
    arch ← match machine with
           | 3%N => Some "x86"
           | 62%N => Some "x86_64"
           | 40%N => Some "arm"
           | 183%N => Some "aarch64"
           | 243%N => Some "riscv64"
           | _ => None
           end;
    Some {| os := "linux"; architecture := arch; runtime_abi := None |}.

(** ** Decisions *)

Record ProviderFacts : Type := {
  facts_identity : ProviderIdentity;
  facts_distribution_id : option string;
  facts_platform : option PlatformIdentity;
  facts_runtime_version : option string;
}.

Inductive CapabilityStatus : Type :=
| Compatible
| Incompatible (codes : list string)
| Unknown.

Inductive AdmissionStatus : Type := StatusAdmitted | StatusDenied.

Inductive ReasonKind : Type := KindContract | KindCapability | KindPolicy.

Record AdmissionReason : Type := {
  reason_code : string;
  reason_kind : ReasonKind;
  reason_dimension : string;
  reason_requested : Value;
  reason_allowed : Value;
  reason_message : string;
}.

Record AdmissionDecision : Type := {
  admission_version : string;
  admission_id : string;
  decision_status : AdmissionStatus;
  is_admitted : bool;
  decision_policy_id : string;
  decision_provider : ProviderFacts;
  decision_capability : CapabilityStatus;
  decision_reasons : list AdmissionReason;
  decision_contract : ExecutionContract;
}.

#[export] Instance ContractRuntime_eq_dec : EqDecision ContractRuntime.
Proof. solve_decision. Defined.
#[export] Instance ContractResources_eq_dec : EqDecision ContractResources.
Proof. solve_decision. Defined.
#[export] Instance ExecutionContract_eq_dec : EqDecision ExecutionContract.
Proof. solve_decision. Defined.
#[export] Instance ProviderFacts_eq_dec : EqDecision ProviderFacts.
Proof. solve_decision. Defined.
#[export] Instance CapabilityStatus_eq_dec : EqDecision CapabilityStatus.
Proof. solve_decision. Defined.
#[export] Instance AdmissionStatus_eq_dec : EqDecision AdmissionStatus.
Proof. solve_decision. Defined.
#[export] Instance ReasonKind_eq_dec : EqDecision ReasonKind.
Proof. solve_decision. Defined.
#[export] Instance AdmissionReason_eq_dec : EqDecision AdmissionReason.
Proof. solve_decision. Defined.
#[export] Instance AdmissionDecision_eq_dec : EqDecision AdmissionDecision.
Proof. solve_decision. Defined.

Definition reason_kind_position (k : ReasonKind) : N :=
  match k with KindContract => 0 | KindCapability => 1 | KindPolicy => 2 end.
#[export] Instance reason_kind_position_inj : Inj (=) (=) reason_kind_position.
Proof. by intros [] []. Qed.
#[export] Instance ReasonKind_ord : Ord ReasonKind := ord_by reason_kind_position.
#[export] Instance ReasonKind_ord_laws : OrdLaws ReasonKind := ord_by_laws reason_kind_position.

Definition ADMISSION_VERSION : string := "compute.admission@1".

(** What [admission_identity] hashes. *)
Record AdmissionMaterial : Type := {
  material_version : string;
  material_contract : ExecutionContract;
  material_provider : ProviderFacts;
  material_capability : CapabilityStatus;
  material_policy_id : string;
}.

(** ** The dimensions *)

Definition mk_reason (kind : ReasonKind) (code dimension : string) (requested allowed : Value)
    (message : string) : AdmissionReason :=
  {| reason_code := code; reason_kind := kind; reason_dimension := dimension;
     reason_requested := requested; reason_allowed := allowed; reason_message := message |}.

Definition deny := mk_reason KindPolicy.

Definition resource_values (r : ContractResources) : list (string * option N) :=
  [("timeout_ms", cr_timeout_ms r); ("memory_bytes", cr_memory_bytes r);
   ("cpu_time_ms", cr_cpu_time_ms r); ("process_count", cr_process_count r);
   ("stdout_bytes", cr_stdout_bytes r); ("stderr_bytes", cr_stderr_bytes r)].

Definition zero_resource_reasons (contract : ExecutionContract) : list AdmissionReason :=
  '(name, value) ← resource_values (contract_resources contract);
  if bool_decide (value = Some 0%N) then
    [mk_reason KindContract "resource_request_invalid" "resources"
       (Object [(name, Number 0)]) (Str "a positive value")
       ("a " +:+ name +:+ " of zero cannot be satisfied")]
  else [].

Definition platform_conflict_reasons (contract : ExecutionContract) (provider : ProviderFacts)
    : list AdmissionReason :=
  match contract_platform contract, facts_platform provider with
  | Some required, Some actual =>
      if negb (String.eqb (os required) (os actual)) ||
         negb (String.eqb (architecture required) (architecture actual)) then
        [mk_reason KindContract "platform_conflict" "platform"
           (Str (platform_label required)) (Str (platform_label actual))
           ("the workload requires " +:+ platform_label required
            +:+ ", but the provider executes on " +:+ platform_label actual)]
      else []
  | _, _ => []
  end.

Definition capability_reasons (capability : CapabilityStatus) : list AdmissionReason :=
  match capability with
  | Compatible => []
  | Incompatible codes =>
      [mk_reason KindCapability "capability_mismatch" "capability" (json codes) Null
         ("the provider cannot execute this contract: " +:+ join ", " codes)]
  | Unknown =>
      [mk_reason KindCapability "capability_unknown" "capability" Null Null
         "the provider's capabilities could not be established"]
  end.

Definition runtime_reasons (policy : Policy) (contract : ExecutionContract) : list AdmissionReason :=
  let runtime := cr_kind (contract_runtime contract) in
  match allowed_runtimes policy with
  | Some allowed =>
      if bool_decide (runtime ∈ allowed) then []
      else [deny "runtime_denied" "runtime" (json runtime) (json allowed)
              ("requested runtime " +:+ quote +:+ RuntimeKind.as_str runtime +:+ quote
               +:+ " is not allowed by policy")]
  | None => []
  end.

(** The version admission compares: what the provider's runtime reports, else
    what the contract states. *)
Definition effective_runtime_version (contract : ExecutionContract) (provider : ProviderFacts)
    : option string :=
  match facts_runtime_version provider with
  | Some version => Some version
  | None => cr_version (contract_runtime contract)
  end.

Definition runtime_version_reasons (policy : Policy) (contract : ExecutionContract)
    (provider : ProviderFacts) : list AdmissionReason :=
  let runtime := cr_kind (contract_runtime contract) in
  let name := RuntimeKind.as_str runtime in
  match versions ← allowed_runtime_versions policy; versions !! runtime with
  | None => []
  | Some prefixes =>
      match effective_runtime_version contract provider with
      | Some version =>
          if existsb (contains version) prefixes then []
          else [deny "runtime_version_denied" "runtime" (json version) (json prefixes)
                  (name +:+ " version " +:+ quote +:+ version +:+ quote +:+ " is not allowed by policy")]
      | None =>
          [deny "runtime_version_unknown" "runtime" Null (json prefixes)
             ("policy restricts " +:+ name +:+ " versions, but the version is unknown")]
      end
  end.

Definition distribution_reasons (policy : Policy) (provider : ProviderFacts) : list AdmissionReason :=
  match allowed_distributions policy with
  | None => []
  | Some allowed =>
      match facts_distribution_id provider with
      | Some id =>
          if bool_decide (id ∈ allowed) then []
          else [deny "distribution_denied" "distribution" (json id) (json allowed)
                  ("distribution " +:+ id +:+ " is not allowed by policy")]
      | None =>
          [deny "distribution_unknown" "distribution" Null (json allowed)
             "policy restricts distributions, but the provider's distribution is unknown"]
      end
  end.

Definition dependency_reasons (policy : Policy) (contract : ExecutionContract) : list AdmissionReason :=
  match allowed_dependencies policy, dependency_id contract with
  | Some allowed, Some id =>
      if bool_decide (id ∈ allowed) then []
      else [deny "dependency_denied" "dependencies" (json id) (json allowed)
              ("dependency capsule " +:+ id +:+ " is not allowed by policy")]
  | _, _ => []
  end.

Definition isolation_reasons (policy : Policy) (contract : ExecutionContract) : list AdmissionReason :=
  match minimum_isolation policy with
  | Some minimum =>
      if IsolationProfile.ltb (contract_isolation contract) minimum then
        [deny "isolation_below_minimum" "isolation" (json (contract_isolation contract)) (json minimum)
           ("requested isolation " +:+ IsolationProfile.as_str (contract_isolation contract)
            +:+ " is weaker than the policy minimum " +:+ IsolationProfile.as_str minimum)]
      else []
  | None => []
  end.

Definition network_reasons (policy : Policy) (contract : ExecutionContract) : list AdmissionReason :=
  match allowed_networks policy with
  | Some allowed =>
      if bool_decide (contract_network contract ∈ allowed) then []
      else [deny "network_denied" "network" (json (contract_network contract)) (json allowed)
              ("requested network " +:+ quote +:+ network_str (contract_network contract) +:+ quote
               +:+ " is not allowed by policy")]
  | None => []
  end.

(** A declared bound against a limit: an absent bound is unbounded. *)
Definition bound_reasons (dimension : string) (requested limit : option N)
    (unbounded exceeded what : string) : list AdmissionReason :=
  match requested, limit with
  | _, None => []
  | None, Some limit =>
      [deny unbounded dimension Null (json limit)
         ("policy limits " +:+ what +:+ " to " +:+ show limit +:+ ", but the workload declares no bound")]
  | Some requested, Some limit =>
      if N.ltb limit requested then
        [deny exceeded dimension (json requested) (json limit)
           ("requested " +:+ what +:+ " " +:+ show requested +:+ " exceeds the policy limit " +:+ show limit)]
      else []
  end.

Definition size_reasons (dimension : string) (requested : N) (limit : option N) (code : string)
    : list AdmissionReason :=
  match limit with
  | Some limit =>
      if N.ltb limit requested then
        [deny code dimension (json requested) (json limit)
           (dimension +:+ " size " +:+ show requested +:+ " bytes exceeds the policy limit " +:+ show limit)]
      else []
  | None => []
  end.

Definition limit_reasons (policy : Policy) (contract : ExecutionContract) : list AdmissionReason :=
  let resources := contract_resources contract in
  let l := limits policy in
  bound_reasons "timeout" (cr_timeout_ms resources) (max_timeout_ms l)
    "timeout_unbounded" "timeout_exceeds_policy" "timeout (ms)" ++
  bound_reasons "memory" (cr_memory_bytes resources) (max_memory_bytes l)
    "memory_unbounded" "memory_exceeds_policy" "memory (bytes)" ++
  bound_reasons "output" (output_bound resources) (max_output_bytes l)
    "output_unbounded" "output_exceeds_policy" "stdout plus stderr (bytes)" ++
  size_reasons "input" (input_bytes contract) (max_input_bytes l) "input_exceeds_policy" ++
  size_reasons "artifact" (artifact_bytes contract) (max_artifact_bytes l) "artifact_exceeds_policy".

(** The provider's platform, else the one the contract requires. *)
Definition effective_platform (contract : ExecutionContract) (provider : ProviderFacts)
    : option PlatformIdentity :=
  match facts_platform provider with
  | Some platform => Some platform
  | None => contract_platform contract
  end.

Definition platform_part_reasons (allowed : option (list string)) (part : option string)
    (code name : string) : list AdmissionReason :=
  match allowed, part with
  | None, _ => []
  | Some allowed, value =>
      if match value with Some value => bool_decide (value ∈ allowed) | None => false end then []
      else [deny (match value with Some _ => code | None => "platform_unknown" end) "platform"
              (json value) (json allowed)
              (name +:+ " " +:+ default "unknown" value +:+ " is not allowed by policy")]
  end.

Definition platform_reasons (policy : Policy) (contract : ExecutionContract) (provider : ProviderFacts)
    : list AdmissionReason :=
  let platform := effective_platform contract provider in
  platform_part_reasons (allowed_os policy) (os <$> platform) "platform_denied" "operating system" ++
  platform_part_reasons (allowed_architectures policy) (architecture <$> platform)
    "architecture_denied" "architecture".

Definition output_class_reasons (policy : Policy) (contract : ExecutionContract) : list AdmissionReason :=
  match allowed_output_classes policy with
  | Some allowed =>
      match filter (λ class, class ∉ allowed) (output_classes contract) with
      | [] => []
      | denied =>
          [deny "output_class_denied" "artifact" (json denied) (json allowed)
             "the workload produces an output class the policy does not allow"]
      end
  | None => []
  end.

(** Every reason found, in the order the code pushes them. *)
Definition contract_reasons (contract : ExecutionContract) (provider : ProviderFacts)
    : list AdmissionReason :=
  zero_resource_reasons contract ++ platform_conflict_reasons contract provider.

Definition policy_reasons (policy : Policy) (contract : ExecutionContract) (provider : ProviderFacts)
    : list AdmissionReason :=
  runtime_reasons policy contract ++ runtime_version_reasons policy contract provider ++
  distribution_reasons policy provider ++ dependency_reasons policy contract ++
  isolation_reasons policy contract ++ network_reasons policy contract ++
  limit_reasons policy contract ++ platform_reasons policy contract provider ++
  output_class_reasons policy contract.

Definition compare_reasons (l r : AdmissionReason) : comparison :=
  then_with (cmp (reason_kind l) (reason_kind r)) (cmp (reason_code l) (reason_code r)).

#[export] Instance compare_reasons_total : TotalCmp compare_reasons.
Proof. apply then_with_total; [apply (cmp_on (@cmp ReasonKind _))|apply (cmp_on (@cmp string _))]. Qed.

Definition admission_reasons (policy : Policy) (contract : ExecutionContract) (provider : ProviderFacts)
    (capability : CapabilityStatus) : list AdmissionReason :=
  sort_by compare_reasons
    (contract_reasons contract provider ++ capability_reasons capability
     ++ policy_reasons policy contract provider).

Section decisions.
Context `{!CanonicalIdentity Policy, !CanonicalIdentity AdmissionMaterial}.

Definition admission_identity (contract : ExecutionContract) (provider : ProviderFacts)
    (capability : CapabilityStatus) (policy_id : string) : string :=
  canonical_identity
    {| material_version := ADMISSION_VERSION; material_contract := contract;
       material_provider := provider; material_capability := capability;
       material_policy_id := policy_id |}.

(** [admit] *)
Definition policy_admit (policy : Policy) (contract : ExecutionContract) (provider : ProviderFacts)
    (capability : CapabilityStatus) : AdmissionDecision :=
  let reasons := admission_reasons policy contract provider capability in
  let ok := bool_decide (reasons = []) in
  let id := policy_id policy in
  {| admission_version := ADMISSION_VERSION;
     admission_id := admission_identity contract provider capability id;
     decision_status := if ok then StatusAdmitted else StatusDenied;
     is_admitted := ok;
     decision_policy_id := id;
     decision_provider := provider;
     decision_capability := capability;
     decision_reasons := reasons;
     decision_contract := contract |}.

(** [admit_effective] *)
Definition admit_effective (effective : EffectivePolicy) := policy_admit (effective_policy effective).

(** [AdmissionDecision::codes] and [has] *)
Definition decision_codes (d : AdmissionDecision) : list string := reason_code <$> decision_reasons d.
Definition has_kind (d : AdmissionDecision) (kind : ReasonKind) : bool :=
  existsb (λ reason, bool_decide (reason_kind reason = kind)) (decision_reasons d).

(** [AdmissionDecision::reproduce] *)
Definition reproduce (d : AdmissionDecision) (policy : Policy) : bool :=
  String.eqb (policy_id policy) (decision_policy_id d) &&
  bool_decide (policy_admit policy (decision_contract d) (decision_provider d)
                 (decision_capability d) = d).
End decisions.

(** ** The contract of admission, stated by its meaning *)

(** The request is not impossible: no resource of zero, no platform conflict. *)
Record SaneContract (c : ExecutionContract) (f : ProviderFacts) : Prop := {
  sane_resources name v : (name, Some v) ∈ resource_values (contract_resources c) → (0 < v)%N;
  sane_platform required actual :
    contract_platform c = Some required → facts_platform f = Some actual →
    os required = os actual ∧ architecture required = architecture actual;
}.

(** A declared bound within a limit. *)
Definition within (requested limit : option N) : Prop :=
  ∀ l, limit = Some l → ∃ v, requested = Some v ∧ (v ≤ l)%N.

(** A version some listed prefix occurs in. *)
Definition version_listed (version : option string) (prefixes : list string) : Prop :=
  ∃ v prefix, version = Some v ∧ prefix ∈ prefixes ∧ contains v prefix = true.

Definition versions_permit (versions : option (gmap RuntimeKind (list string)))
    (runtime : RuntimeKind) (version : option string) : Prop :=
  ∀ m prefixes, versions = Some m → m !! runtime = Some prefixes → version_listed version prefixes.

(** An allow-list met by a fact that must be known. *)
Definition known_and_permitted {A} (allowed : option (list A)) (fact : option A) : Prop :=
  ∀ l, allowed = Some l → ∃ x, fact = Some x ∧ x ∈ l.

Record Satisfies (p : Policy) (c : ExecutionContract) (f : ProviderFacts) : Prop := {
  ok_runtime : permits (allowed_runtimes p) (cr_kind (contract_runtime c));
  ok_version : versions_permit (allowed_runtime_versions p) (cr_kind (contract_runtime c))
    (effective_runtime_version c f);
  ok_distribution : known_and_permitted (allowed_distributions p) (facts_distribution_id f);
  ok_dependency id : dependency_id c = Some id → permits (allowed_dependencies p) id;
  ok_isolation m : minimum_isolation p = Some m → IsolationProfile.leb m (contract_isolation c) = true;
  ok_network : permits (allowed_networks p) (contract_network c);
  ok_timeout : within (cr_timeout_ms (contract_resources c)) (max_timeout_ms (limits p));
  ok_memory : within (cr_memory_bytes (contract_resources c)) (max_memory_bytes (limits p));
  ok_output : within (output_bound (contract_resources c)) (max_output_bytes (limits p));
  ok_input : within (Some (input_bytes c)) (max_input_bytes (limits p));
  ok_artifact : within (Some (artifact_bytes c)) (max_artifact_bytes (limits p));
  ok_os : known_and_permitted (allowed_os p) (os <$> effective_platform c f);
  ok_architecture :
    known_and_permitted (allowed_architectures p) (architecture <$> effective_platform c f);
  ok_classes class : class ∈ output_classes c → permits (allowed_output_classes p) class;
}.

(** ** Each dimension reports nothing exactly when its clause holds *)

Lemma zero_resource_reasons_nil c :
  zero_resource_reasons c = [] ↔
  ∀ name v, (name, Some v) ∈ resource_values (contract_resources c) → (0 < v)%N.
Proof.
  unfold zero_resource_reasons.
  induction (resource_values (contract_resources c)) as [|[name value] l IH]; simpl.
  - split; [intros _ ?? []%not_elem_of_nil|done].
  - change (list_bind _ _ _ l) with
      ('(name, value) ← l; if bool_decide (value = Some 0%N) then
        [mk_reason KindContract "resource_request_invalid" "resources"
           (Object [(name, Number 0)]) (Str "a positive value")
           ("a " +:+ name +:+ " of zero cannot be satisfied")] else []).
    rewrite app_nil. setoid_rewrite elem_of_cons. case_bool_decide as Hz.
    + split; [intros [? ?]; done|]. intros H. specialize (H name 0%N). subst value.
      exfalso. cut (0 < 0)%N; [lia|auto].
    + rewrite IH. split; [|naive_solver]. intros [_ H] n v [[= -> <-]|Hin]; [|eauto].
      destruct v; [done|lia].
Qed.

Lemma platform_conflict_reasons_nil c f :
  platform_conflict_reasons c f = [] ↔
  ∀ required actual, contract_platform c = Some required → facts_platform f = Some actual →
    os required = os actual ∧ architecture required = architecture actual.
Proof.
  unfold platform_conflict_reasons.
  destruct (contract_platform c) as [r|], (facts_platform f) as [a|]; try naive_solver.
  destruct (String.eqb_spec (os r) (os a)), (String.eqb_spec (architecture r) (architecture a));
    naive_solver.
Qed.

Lemma capability_reasons_nil capability : capability_reasons capability = [] ↔ capability = Compatible.
Proof. by destruct capability. Qed.

Lemma runtime_reasons_nil p c :
  runtime_reasons p c = [] ↔ permits (allowed_runtimes p) (cr_kind (contract_runtime c)).
Proof.
  unfold runtime_reasons, permits. destruct (allowed_runtimes p); [|done].
  case_bool_decide; naive_solver.
Qed.

Lemma runtime_version_reasons_nil p c f :
  runtime_version_reasons p c f = [] ↔
  versions_permit (allowed_runtime_versions p) (cr_kind (contract_runtime c))
    (effective_runtime_version c f).
Proof.
  unfold runtime_version_reasons, versions_permit, version_listed.
  destruct (allowed_runtime_versions p) as [m|]; simpl; [|naive_solver].
  destruct (m !! cr_kind (contract_runtime c)) as [prefixes|] eqn:E; [|naive_solver].
  destruct (effective_runtime_version c f) as [v|]; [|naive_solver].
  destruct (existsb (contains v) prefixes) eqn:Ex.
  - apply existsb_exists in Ex as (prefix & Hin%list_elem_of_In & Hc). naive_solver.
  - split; [done|]. intros H. destruct (H m prefixes) as (v' & prefix & [= <-] & Hin & Hc); [done..|].
    apply existsb_false_forall with (x := prefix) in Ex; [congruence|done].
Qed.

Lemma distribution_reasons_nil p f :
  distribution_reasons p f = [] ↔
  known_and_permitted (allowed_distributions p) (facts_distribution_id f).
Proof.
  unfold distribution_reasons, known_and_permitted.
  destruct (allowed_distributions p); [|naive_solver].
  destruct (facts_distribution_id f); [case_bool_decide|]; naive_solver.
Qed.

Lemma dependency_reasons_nil p c :
  dependency_reasons p c = [] ↔
  ∀ id, dependency_id c = Some id → permits (allowed_dependencies p) id.
Proof.
  unfold dependency_reasons, permits.
  destruct (allowed_dependencies p), (dependency_id c); try case_bool_decide; naive_solver.
Qed.

Lemma isolation_reasons_nil p c :
  isolation_reasons p c = [] ↔
  ∀ m, minimum_isolation p = Some m → IsolationProfile.leb m (contract_isolation c) = true.
Proof.
  unfold isolation_reasons. setoid_rewrite <-isolation_ltb_false.
  destruct (minimum_isolation p) as [m|]; [|naive_solver].
  destruct (IsolationProfile.ltb _ _) eqn:E; naive_solver congruence.
Qed.

Lemma network_reasons_nil p c :
  network_reasons p c = [] ↔ permits (allowed_networks p) (contract_network c).
Proof.
  unfold network_reasons, permits. destruct (allowed_networks p); [|done].
  case_bool_decide; naive_solver.
Qed.

Lemma bound_reasons_nil dimension requested limit unbounded exceeded what :
  bound_reasons dimension requested limit unbounded exceeded what = [] ↔ within requested limit.
Proof.
  unfold bound_reasons, within. destruct requested as [v|], limit as [l|]; try naive_solver.
  destruct (N.ltb_spec l v); naive_solver lia.
Qed.

Lemma size_reasons_nil dimension requested limit code :
  size_reasons dimension requested limit code = [] ↔ within (Some requested) limit.
Proof.
  unfold size_reasons, within. destruct limit as [l|]; [|naive_solver].
  destruct (N.ltb_spec l requested); naive_solver lia.
Qed.

Lemma platform_part_reasons_nil allowed part code name :
  platform_part_reasons allowed part code name = [] ↔ known_and_permitted allowed part.
Proof.
  unfold platform_part_reasons, known_and_permitted. destruct allowed; [|naive_solver].
  destruct part; [case_bool_decide|]; naive_solver.
Qed.

Lemma output_class_reasons_nil p c :
  output_class_reasons p c = [] ↔
  ∀ class, class ∈ output_classes c → permits (allowed_output_classes p) class.
Proof.
  unfold output_class_reasons, permits. destruct (allowed_output_classes p) as [allowed|]; [|done].
  destruct (filter _ _) as [|x l] eqn:E.
  - split; [|done]. intros _ class Hin. destruct (decide (class ∈ allowed)) as [|Hn]; [done|].
    assert (class ∈ filter (λ class, class ∉ allowed) (output_classes c)) as H
      by (by apply list_elem_of_filter).
    rewrite E in H. by apply not_elem_of_nil in H.
  - split; [done|]. intros H.
    assert (x ∈ filter (λ class, class ∉ allowed) (output_classes c)) as [Hn Hin]%list_elem_of_filter
      by (rewrite E; set_solver).
    by destruct Hn; apply H.
Qed.

Lemma contract_reasons_nil c f : contract_reasons c f = [] ↔ SaneContract c f.
Proof.
  unfold contract_reasons. rewrite app_nil, zero_resource_reasons_nil, platform_conflict_reasons_nil.
  split; [intros []; by split|by intros []].
Qed.

Lemma policy_reasons_nil p c f : policy_reasons p c f = [] ↔ Satisfies p c f.
Proof.
  unfold policy_reasons, limit_reasons, platform_reasons.
  rewrite !app_nil, runtime_reasons_nil, runtime_version_reasons_nil, distribution_reasons_nil,
    dependency_reasons_nil, isolation_reasons_nil, network_reasons_nil, !bound_reasons_nil,
    !size_reasons_nil, !platform_part_reasons_nil, output_class_reasons_nil.
  split; [intros; destruct_and!; by split|by intros []; split_and!].
Qed.

(** ** Kinds of reasons *)

Lemma contract_reasons_kind c f r : r ∈ contract_reasons c f → reason_kind r = KindContract.
Proof.
  unfold contract_reasons, zero_resource_reasons, platform_conflict_reasons.
  rewrite elem_of_app, list_elem_of_bind. intros [([name v] & Hr & _)|Hr]; revert Hr;
    repeat case_match; set_solver.
Qed.

Lemma capability_reasons_kind s r : r ∈ capability_reasons s → reason_kind r = KindCapability.
Proof. destruct s; simpl; set_solver. Qed.

Lemma policy_reasons_kind p c f r : r ∈ policy_reasons p c f → reason_kind r = KindPolicy.
Proof.
  unfold policy_reasons, limit_reasons, platform_reasons. rewrite !elem_of_app.
  unfold runtime_reasons, runtime_version_reasons, distribution_reasons, dependency_reasons,
    isolation_reasons, network_reasons, bound_reasons, size_reasons, platform_part_reasons,
    output_class_reasons.
  intros Hr. destruct_or! Hr; revert Hr; repeat case_match;
    first [by intros ?%not_elem_of_nil|by intros ->%list_elem_of_singleton].
Qed.

(** ** Satisfaction under intersection *)

Lemma within_minimum requested l r :
  within requested (minimum l r) ↔ within requested l ∧ within requested r.
Proof.
  unfold within. destruct l as [l|], r as [r|]; simpl; try naive_solver. split.
  - intros H. destruct (H (N.min l r)) as (v & -> & ?); [done|].
    split; intros ? [= <-]; exists v; split; [done|lia|done|lia].
  - intros [H1 H2] ? [= <-]. destruct (H1 l) as (v & -> & ?); [done|].
    destruct (H2 r) as (? & [= <-] & ?); [done|]. exists v. split; [done|lia].
Qed.

Lemma max_isolation_permits l r profile :
  (∀ m, max_isolation l r = Some m → IsolationProfile.leb m profile = true) ↔
  (∀ m, l = Some m → IsolationProfile.leb m profile = true) ∧
  (∀ m, r = Some m → IsolationProfile.leb m profile = true).
Proof.
  destruct l as [l|], r as [r|]; simpl; try naive_solver. split.
  - intros H. specialize (H _ eq_refl).
    split; intros ? [= <-]; by destruct l, r, profile.
  - intros [H1 H2] ? [= <-]. specialize (H1 _ eq_refl). specialize (H2 _ eq_refl).
    by destruct l, r, profile.
Qed.

Section known.
Context {A : Type} `{!EqDecision A, !Ord A, !OrdLaws A}.

Lemma known_canonical (l : option (list A)) fact :
  known_and_permitted (canonical_list l) fact ↔ known_and_permitted l fact.
Proof.
  unfold known_and_permitted. destruct l as [l|]; simpl; [|naive_solver]. split.
  - intros H ? [= <-]. destruct (H _ eq_refl) as (x & -> & Hx). rewrite elem_of_btree_set in Hx. eauto.
  - intros H ? [= <-]. destruct (H _ eq_refl) as (x & -> & Hx). exists x. by rewrite elem_of_btree_set.
Qed.

Lemma known_intersect (l r : option (list A)) fact :
  known_and_permitted (intersect_lists l r) fact ↔
  known_and_permitted l fact ∧ known_and_permitted r fact.
Proof.
  unfold known_and_permitted. destruct l as [l|], r as [r|]; simpl; try naive_solver. split.
  - intros H. destruct (H _ eq_refl) as (x & -> & [? ?]%elem_of_keep). naive_solver.
  - intros [H1 H2] ? [= <-]. destruct (H1 _ eq_refl) as (x & -> & ?).
    destruct (H2 _ eq_refl) as (? & [= <-] & ?). exists x. by rewrite elem_of_keep.
Qed.
End known.

(** The prefixes a policy lists for a runtime. *)
Definition prefixes_of (p : Policy) (runtime : RuntimeKind) : option (list string) :=
  versions ← allowed_runtime_versions p; versions !! runtime.

Lemma versions_permit_prefixes p runtime version :
  versions_permit (allowed_runtime_versions p) runtime version ↔
  ∀ prefixes, prefixes_of p runtime = Some prefixes → version_listed version prefixes.
Proof.
  unfold versions_permit, prefixes_of.
  destruct (allowed_runtime_versions p) as [m|]; simpl; naive_solver.
Qed.

Lemma prefixes_of_intersect p q runtime :
  prefixes_of (intersect p q) runtime =
  canonical_list (intersect_lists (prefixes_of p runtime) (prefixes_of q runtime)).
Proof.
  unfold prefixes_of; simpl.
  destruct (allowed_runtime_versions p) as [m|], (allowed_runtime_versions q) as [n|]; simpl;
    rewrite ?lookup_canonical_versions, ?lookup_intersect_versions; try done;
    first [by destruct (m !! runtime)|by destruct (n !! runtime)].
Qed.

Lemma version_listed_btree version prefixes :
  version_listed version (btree_set prefixes) ↔ version_listed version prefixes.
Proof. unfold version_listed. by setoid_rewrite elem_of_btree_set. Qed.

Lemma version_listed_keep version l r :
  version_listed version (keep l r) → version_listed version l ∧ version_listed version r.
Proof. intros (v & prefix & -> & [? ?]%elem_of_keep & ?). split; by exists v, prefix. Qed.

(** Both policies list prefixes for a runtime, and not the same ones. *)
Definition versions_differ (p q : Policy) (runtime : RuntimeKind) : Prop :=
  ∃ l r, prefixes_of p runtime = Some l ∧ prefixes_of q runtime = Some r ∧ ¬ (∀ x, x ∈ l ↔ x ∈ r).

Lemma intersect_versions_sound p q runtime version :
  versions_permit (allowed_runtime_versions (intersect p q)) runtime version →
  versions_permit (allowed_runtime_versions p) runtime version ∧
  versions_permit (allowed_runtime_versions q) runtime version.
Proof.
  rewrite !versions_permit_prefixes, prefixes_of_intersect.
  destruct (prefixes_of p runtime) as [l|], (prefixes_of q runtime) as [r|]; simpl; intros H.
  1: specialize (H _ eq_refl); rewrite version_listed_btree in H;
     apply version_listed_keep in H as [? ?]; naive_solver.
  1-2: specialize (H _ eq_refl); rewrite version_listed_btree in H; naive_solver.
  naive_solver.
Qed.

Lemma intersect_versions_complete p q runtime version :
  ¬ versions_differ p q runtime →
  versions_permit (allowed_runtime_versions p) runtime version →
  versions_permit (allowed_runtime_versions q) runtime version →
  versions_permit (allowed_runtime_versions (intersect p q)) runtime version.
Proof.
  rewrite !versions_permit_prefixes, prefixes_of_intersect. unfold versions_differ.
  destruct (prefixes_of p runtime) as [l|], (prefixes_of q runtime) as [r|]; simpl;
    intros Hd H1 H2 ? [= <-]; rewrite version_listed_btree; [|naive_solver..].
  destruct (H1 _ eq_refl) as (v & prefix & -> & Hin & Hc). exists v, prefix. split; [done|].
  split; [|done]. rewrite elem_of_keep. split; [done|].
  destruct (decide (prefix ∈ r)) as [|Hn]; [done|]. exfalso. apply Hd.
  exists l, r. split; [done|]. split; [done|]. intros Hx. by apply Hn, Hx.
Qed.

Section intersection.
Context (p q : Policy) (c : ExecutionContract) (f : ProviderFacts).

(** Everything but the runtime versions splits exactly. *)
Lemma satisfies_intersect_iff :
  Satisfies (intersect p q) c f ↔
  Satisfies p c f ∧ Satisfies q c f ∧
  versions_permit (allowed_runtime_versions (intersect p q)) (cr_kind (contract_runtime c))
    (effective_runtime_version c f).
Proof.
  split.
  - intros [Hrun Hver Hdist Hdep Hiso Hnet Ht Hm Ho Hi Ha Hos Harch Hcls]; simpl in *.
    pose proof (intersect_versions_sound p q _ _ Hver) as [Hv1 Hv2].
    rewrite permits_canonical_list, permits_intersect in Hrun.
    rewrite permits_canonical_list, permits_intersect in Hnet.
    setoid_rewrite permits_canonical_list in Hdep. setoid_rewrite permits_intersect in Hdep.
    setoid_rewrite permits_canonical_list in Hcls. setoid_rewrite permits_intersect in Hcls.
    rewrite known_canonical, known_intersect in Hdist, Hos, Harch.
    rewrite within_minimum in Ht, Hm, Ho, Hi, Ha. rewrite max_isolation_permits in Hiso.
    destruct_and!. split_and!; [split|split|]; try done; naive_solver.
  - intros ([] & [] & Hver). split; simpl; try done;
      rewrite ?permits_canonical_list, ?permits_intersect, ?known_canonical, ?known_intersect,
        ?within_minimum, ?max_isolation_permits; try done.
    + intros id Hid. rewrite permits_canonical_list, permits_intersect. eauto.
    + intros class Hc. rewrite permits_canonical_list, permits_intersect. eauto.
Qed.
End intersection.

Lemma satisfies_intersect_all acc ps c f :
  Satisfies (intersect_all acc ps) c f →
  Satisfies acc c f ∧ ∀ p, p ∈ ps → Satisfies p c f.
Proof.
  revert acc. induction ps as [|p ps IH]; intros acc; simpl; [set_solver|].
  intros (Hacc & Hps)%IH. apply satisfies_intersect_iff in Hacc as (? & ? & _).
  split; [done|]. intros ? [->|?]%elem_of_cons; eauto.
Qed.

Lemma satisfies_unnamed p c f : Satisfies (unnamed p) c f ↔ Satisfies p c f.
Proof. split; intros []; by split. Qed.

Lemma satisfies_baseline c f : Satisfies baseline c f.
Proof.
  split; simpl; try done; try (intros ? ?; done).
  - apply elem_of_btree_set, elem_of_all_runtimes.
  - intros m [= <-]. by destruct (contract_isolation c).
  - apply elem_of_btree_set. destruct (contract_network c); set_solver.
  - intros [] _; apply elem_of_btree_set; set_solver.
Qed.

Lemma nonempty_exists {A} (l : list A) : (∃ x, x ∈ l) ↔ l ≠ [].
Proof.
  split; [by intros [x Hx] ->; apply not_elem_of_nil in Hx|].
  destruct l as [|x l]; [done|]. exists x. set_solver.
Qed.

Section admitted.
Context `{!CanonicalIdentity Policy, !CanonicalIdentity AdmissionMaterial}.

Lemma policy_admit_admitted p c f s :
  is_admitted (policy_admit p c f s) = true ↔
  SaneContract c f ∧ s = Compatible ∧ Satisfies p c f.
Proof.
  unfold policy_admit, admission_reasons; simpl. rewrite bool_decide_eq_true, sort_by_nil, !app_nil.
  by rewrite contract_reasons_nil, capability_reasons_nil, policy_reasons_nil.
Qed.

Lemma has_kind_spec p c f s kind :
  has_kind (policy_admit p c f s) kind = true ↔
  ∃ r, r ∈ contract_reasons c f ++ capability_reasons s ++ policy_reasons p c f ∧
       reason_kind r = kind.
Proof.
  unfold has_kind, policy_admit, admission_reasons; simpl. rewrite existsb_exists.
  setoid_rewrite <-list_elem_of_In. setoid_rewrite bool_decide_eq_true.
  by setoid_rewrite elem_of_sort_by.
Qed.
End admitted.

(** Without version prefixes, an intersection of many policies is exact. *)
Lemma satisfies_intersect_all_exact acc ps c f :
  allowed_runtime_versions acc = None → (∀ p, p ∈ ps → allowed_runtime_versions p = None) →
  Satisfies acc c f → (∀ p, p ∈ ps → Satisfies p c f) →
  Satisfies (intersect_all acc ps) c f.
Proof.
  revert acc. induction ps as [|p ps IH]; intros acc Hacc Hps Hsat Hall; simpl; [done|].
  assert (allowed_runtime_versions (intersect acc p) = None) as Hnone.
  { simpl. by rewrite Hacc, (Hps p) by set_solver. }
  apply IH; [done|set_solver| |set_solver]. apply satisfies_intersect_iff.
  split_and!; [done|apply Hall; set_solver|]. by rewrite Hnone.
Qed.

(** ** Properties *)

Section properties.
Context `{!CanonicalIdentity Policy, !CanonicalIdentity AdmissionMaterial}.
Implicit Types (p q : Policy) (c : ExecutionContract) (f : ProviderFacts).

(** C37: Admission decides exactly: a contract is admitted when it is not
    impossible in itself, the provider is known to be capable, and every
    dimension of the policy is satisfied (unbounded requests against a bound
    and unknown facts against an allow-list are denied), and only then; the
    status and the list of reasons say the same. *)
Theorem admit_exact p c f s :
  (is_admitted (policy_admit p c f s) = true ↔
   SaneContract c f ∧ s = Compatible ∧ Satisfies p c f) ∧
  (is_admitted (policy_admit p c f s) = true ↔ decision_reasons (policy_admit p c f s) = []) ∧
  (is_admitted (policy_admit p c f s) = true ↔
   decision_status (policy_admit p c f s) = StatusAdmitted).
Proof.
  split; [apply policy_admit_admitted|]. unfold policy_admit; simpl.
  by case_bool_decide.
Qed.

(** The three verdicts are independent: a decision carries a policy
    reason exactly when the policy is not satisfied, a contract reason
    exactly when the contract is impossible, and a capability reason exactly
    when the provider is not known to be capable, whatever the others say. *)
Theorem verdicts_independent p c f s :
  let d := policy_admit p c f s in
  (has_kind d KindPolicy = true ↔ ¬ Satisfies p c f) ∧
  (has_kind d KindContract = true ↔ ¬ SaneContract c f) ∧
  (has_kind d KindCapability = true ↔ s ≠ Compatible).
Proof.
  intros d. unfold d. rewrite !has_kind_spec.
  rewrite <-policy_reasons_nil, <-contract_reasons_nil, <-(capability_reasons_nil s), <-!nonempty_exists.
  split_and!; (split; [intros (r & Hr & Hk)|intros [r Hr]; exists r]); rewrite !elem_of_app in *;
    eauto 6 using contract_reasons_kind, capability_reasons_kind, policy_reasons_kind;
    exists r; destruct_or! Hr; try done;
    first [apply contract_reasons_kind in Hr|apply capability_reasons_kind in Hr
          |apply policy_reasons_kind in Hr]; congruence.
Qed.

(** Intersection never widens, and without diverging version prefixes it
    is exact: what the intersection admits both policies admit, and what both
    admit the intersection admits, unless both list version prefixes of the
    contract's runtime and not the same ones. *)
Theorem intersect_admits p q c f s :
  (is_admitted (policy_admit (intersect p q) c f s) = true →
   is_admitted (policy_admit p c f s) = true ∧ is_admitted (policy_admit q c f s) = true) ∧
  (¬ versions_differ p q (cr_kind (contract_runtime c)) →
   is_admitted (policy_admit p c f s) = true → is_admitted (policy_admit q c f s) = true →
   is_admitted (policy_admit (intersect p q) c f s) = true).
Proof.
  rewrite !policy_admit_admitted, satisfies_intersect_iff. split; [naive_solver|].
  intros Hd (? & ? & Hp) (_ & _ & Hq). split_and!; try done.
  apply intersect_versions_complete; [done|apply Hp|apply Hq].
Qed.

(** Composition never widens: what an effective policy admits, the
    baseline and every source it was composed of admit; and when no source
    restricts runtime versions, it admits everything they all admit. *)
Theorem compose_never_widens srcs c f s :
  (is_admitted (admit_effective (compose srcs) c f s) = true →
   is_admitted (policy_admit baseline c f s) = true ∧
   ∀ kind p, (kind, p) ∈ srcs → is_admitted (policy_admit p c f s) = true) ∧
  ((∀ kind p, (kind, p) ∈ srcs → allowed_runtime_versions p = None) →
   is_admitted (policy_admit baseline c f s) = true →
   (∀ kind p, (kind, p) ∈ srcs → is_admitted (policy_admit p c f s) = true) →
   is_admitted (admit_effective (compose srcs) c f s) = true).
Proof.
  unfold admit_effective. rewrite compose_policy, !policy_admit_admitted, satisfies_unnamed. split.
  - intros (? & ? & [Hb Hs]%satisfies_intersect_all). split; [done|].
    intros kind p Hin. rewrite policy_admit_admitted. split_and!; try done.
    apply Hs, list_elem_of_fmap. by exists (kind, p).
  - intros Hnone (? & ? & Hb) Hs. split_and!; try done.
    apply satisfies_intersect_all_exact; try done.
    all: intros ? ([kind p] & -> & Hin)%list_elem_of_fmap; simpl.
    { by eapply Hnone. }
    by apply Hs, policy_admit_admitted in Hin as (_ & _ & ?).
Qed.

(** A further source only narrows an effective policy: what
    [EffectivePolicy::with] admits, the effective policy before it and the
    added source admit. *)
Theorem with_source_narrows effective kind p c f s :
  is_admitted (admit_effective (with_source effective kind p) c f s) = true →
  is_admitted (admit_effective effective c f s) = true ∧
  is_admitted (policy_admit p c f s) = true.
Proof.
  unfold admit_effective, with_source; cbn [effective_policy].
  rewrite !policy_admit_admitted, satisfies_unnamed,
    satisfies_intersect_iff. naive_solver.
Qed.

(** A decision carries everything it was made from: evaluating it again
    under its policy reproduces it, a decision that reproduces under a policy
    is the decision of that policy, and its reasons are sorted by kind and
    code. *)
Theorem decision_reproducible p c f s d :
  reproduce (policy_admit p c f s) p = true ∧
  (reproduce d p = true →
   d = policy_admit p (decision_contract d) (decision_provider d) (decision_capability d)) ∧
  StronglySorted (le_by compare_reasons) (decision_reasons (policy_admit p c f s)).
Proof.
  split_and!.
  - unfold reproduce. rewrite andb_true_iff, String.eqb_eq, bool_decide_eq_true. done.
  - unfold reproduce. rewrite andb_true_iff, bool_decide_eq_true. by intros [_ ->].
  - apply sort_by_StronglySorted. apply _.
Qed.
End properties.

(** ** Witnesses *)

#[local] Instance witness_policy_identity : CanonicalIdentity Policy :=
  λ p, default "anonymous" (policy_name p).
#[local] Instance witness_admission_identity : CanonicalIdentity AdmissionMaterial :=
  λ m, material_policy_id m +:+ workload_id (material_contract m).

Definition python_contract : ExecutionContract :=
  {| contract_version := "compute.contract@1"; workload_id := "w"; bundle_id := "b";
     contract_runtime := {| cr_kind := Python; cr_version := Some "3.12" |};
     dependency_id := None; contract_isolation := Process; contract_network := NetNone;
     contract_resources := {| cr_timeout_ms := Some 500%N; cr_memory_bytes := None;
       cr_cpu_time_ms := None; cr_process_count := None; cr_stdout_bytes := None;
       cr_stderr_bytes := None |};
     contract_platform := None; input_bytes := 10; artifact_bytes := 0;
     output_classes := [Stdio] |}.

Definition linux_facts : ProviderFacts :=
  {| facts_identity := LocalIdentity "local";
     facts_distribution_id := None;
     facts_platform := Some {| os := "linux"; architecture := "x86_64"; runtime_abi := None |};
     facts_runtime_version := None |}.

(** A policy that only lists version prefixes of Python. *)
Definition python_versions (prefixes : list string) : Policy :=
  {| policy_version := 1; policy_name := Some "versions"; defaults := default_defaults;
     limits := unlimited; allowed_runtimes := None;
     allowed_runtime_versions := Some {[ Python := prefixes ]};
     allowed_distributions := None; allowed_dependencies := None; minimum_isolation := None;
     allowed_networks := None; allowed_os := None; allowed_architectures := None;
     allowed_output_classes := None |}.

(** The version prefixes do not intersect by meaning: Python 3.12 is
    admitted by a policy that lists [3.1] and by one that lists [3.12], both
    valid, and not by their intersection, whose list is empty. *)
Theorem intersect_versions_not_exact :
  validate (python_versions ["3.1"]) = Ok tt ∧ validate (python_versions ["3.12"]) = Ok tt ∧
  is_admitted (policy_admit (python_versions ["3.1"]) python_contract linux_facts Compatible) = true ∧
  is_admitted (policy_admit (python_versions ["3.12"]) python_contract linux_facts Compatible) = true ∧
  is_admitted (policy_admit (intersect (python_versions ["3.1"]) (python_versions ["3.12"]))
                 python_contract linux_facts Compatible) = false.
Proof. vm_compute. done. Qed.

Lemma intersect_admits_witness :
  is_admitted (policy_admit (intersect python_only baseline) python_contract linux_facts Compatible)
  = true ∧
  is_admitted (policy_admit python_only python_contract linux_facts Compatible) = true.
Proof.
  split.
  - destruct (intersect_admits python_only baseline python_contract linux_facts Compatible) as [_ H].
    apply H; [|vm_compute; reflexivity..]. intros (l & r & Hl & _). discriminate Hl.
  - destruct (intersect_admits python_only baseline python_contract linux_facts Compatible) as [H _].
    apply H. vm_compute. reflexivity.
Defined.

Lemma compose_never_widens_witness :
  is_admitted (policy_admit python_only python_contract linux_facts Compatible) = true ∧
  is_admitted (admit_effective (compose [(Server, python_only)]) python_contract linux_facts
                 Compatible) = true.
Proof.
  split.
  - destruct (compose_never_widens [(Server, python_only)] python_contract linux_facts Compatible)
      as [H _].
    apply (proj2 (H ltac:(vm_compute; reflexivity)) Server). apply list_elem_of_here.
  - destruct (compose_never_widens [(Server, python_only)] python_contract linux_facts Compatible)
      as [_ H].
    apply H; [|vm_compute; reflexivity|];
      intros kind p Hin; apply list_elem_of_singleton in Hin; injection Hin as -> ->;
      vm_compute; reflexivity.
Defined.

Lemma with_source_narrows_witness :
  is_admitted (policy_admit python_only python_contract linux_facts Compatible) = true.
Proof.
  apply (with_source_narrows (compose []) Explicit). vm_compute. reflexivity.
Defined.

Lemma decision_reproducible_witness :
  let d := policy_admit python_only python_contract linux_facts Unknown in
  d = policy_admit python_only (decision_contract d) (decision_provider d) (decision_capability d).
Proof.
  intros d. apply (decision_reproducible python_only python_contract linux_facts Unknown d).
  vm_compute. reflexivity.
Defined.
