(* ===== verification/Descriptor.v ===== *)
(** Descriptor: the canonical, validated description of a provider
    (src/crates/compute-placement/src/descriptor.rs), derived from the
    capability response a provider sends (compute-provider/src/lib.rs,
    [ProviderCapabilities]; compute-core/src/lib.rs, [RuntimeInventory];
    compute-core/src/sessions.rs and computers.rs for the names it may use).

    [Checks] collects violations in the order they are found; here every check
    returns its violations and [violations] concatenates them. *)

From S2P Require Import Prelude Text Core Isolation Policy.

(** ** Session capabilities and machine features *)

Record SessionCapabilities : Type := {
  sc_exec : bool;
  sc_terminal : bool;
  sc_filesystem : bool;
  sc_network : bool;
  sc_public_endpoint : bool;
  sc_persistent_storage : bool;
  sc_suspend : bool;
  sc_resume : bool;
  sc_claim : bool;
  sc_process_tree_termination : bool;
  sc_memory_suspend : bool;
  sc_fork : bool;
}.

#[export] Instance SessionCapabilities_eq_dec : EqDecision SessionCapabilities.
Proof. solve_decision. Defined.

Module SessionCapabilities.
Definition default_ : SessionCapabilities :=
  {| sc_exec := false; sc_terminal := false; sc_filesystem := false; sc_network := false;
     sc_public_endpoint := false; sc_persistent_storage := false; sc_suspend := false;
     sc_resume := false; sc_claim := false; sc_process_tree_termination := false;
     sc_memory_suspend := false; sc_fork := false |}.

Definition NAMES : list string :=
  ["exec"; "terminal"; "filesystem"; "network"; "public_endpoint"; "persistent_storage";
   "suspend"; "resume"; "claim"; "process_tree_termination"; "memory_suspend"; "fork"].

Definition get (c : SessionCapabilities) (name : string) : option bool :=
  snd <$> find (λ entry, String.eqb (fst entry) name)
    [("exec", sc_exec c); ("terminal", sc_terminal c); ("filesystem", sc_filesystem c);
     ("network", sc_network c); ("public_endpoint", sc_public_endpoint c);
     ("persistent_storage", sc_persistent_storage c); ("suspend", sc_suspend c);
     ("resume", sc_resume c); ("claim", sc_claim c);
     ("process_tree_termination", sc_process_tree_termination c);
     ("memory_suspend", sc_memory_suspend c); ("fork", sc_fork c)].

(** The [expect] never fires: every name of [NAMES] is known. *)
Definition entries (c : SessionCapabilities) : list (string * bool) :=
  (λ name, (name, default false (get c name))) <$> NAMES.

Definition validate_names (names : list string) : Result unit ComputeError :=
  try_for_each (λ name,
    reject_if (negb (bool_decide (name ∈ NAMES)))
      (InvalidWorkload ("unknown session capability `" +:+ name +:+ "`: expected one of "
         +:+ join ", " NAMES))) names.

Definition missing (c : SessionCapabilities) (required : list string) : list string :=
  filter (λ name, get c name ≠ Some true) required.
End SessionCapabilities.

Definition TARGET_FEATURES : list string :=
  ["containers"; "kvm"; "firecracker"; "gpu"; "virtualization"; "runtime_store_visible"].

Definition validate_target_features (features : list string) : Result unit ComputeError :=
  try_for_each (λ feature,
    reject_if (negb (bool_decide (feature ∈ TARGET_FEATURES)))
      (InvalidWorkload ("unknown target feature `" +:+ feature +:+ "`: expected one of "
         +:+ join ", " TARGET_FEATURES))) features.

(** ** What a provider sends *)

Record RuntimeDistribution : Type := {
  dist_id : string;
  dist_runtime : RuntimeKind;
  dist_version : string;
  dist_platform : PlatformIdentity;
  dist_artifact : string;
  dist_digest : string;
  dist_source : string;
  dist_executable : string;
  dist_capabilities : RuntimeCapabilities;
}.

#[export] Instance RuntimeDistribution_eq_dec : EqDecision RuntimeDistribution.
Proof. solve_decision. Defined.

(** What [RuntimeDistribution::canonical_id] hashes. *)
Record DistributionMaterial : Type := {
  dm_runtime : RuntimeKind;
  dm_version : string;
  dm_platform : PlatformIdentity;
  dm_artifact : string;
  dm_digest : string;
  dm_executable : string;
  dm_capabilities : RuntimeCapabilities;
}.

(** The fields of an inventory entry that a descriptor is derived from. *)
Record RuntimeInventoryEntry : Type := {
  entry_id : RuntimeKind;
  entry_version : string;
  entry_platform : string;
  entry_distribution_id : string;
  entry_distribution_runtime_id : string;
  entry_executable_identity : option string;
  entry_lifecycle : option RuntimeLifecycleStatus;
  entry_distribution : option RuntimeDistribution;
  entry_available : bool;
  entry_compatible : bool;
  entry_detected_version : option string;
  entry_capabilities : RuntimeCapabilities;
}.

Record RuntimeInventory : Type := {
  compute_version : string;
  inventory_platform : string;
  inventory_runtimes : list RuntimeInventoryEntry;
}.

Record ExecutionModes : Type := {
  mode_run : bool;
  mode_jobs : bool;
  mode_deployments : bool;
  mode_sessions : bool;
}.

Record ProviderCapabilities : Type := {
  caps_protocol : string;
  caps_provider : ProviderIdentity;
  caps_artifact_modes : list string;
  caps_isolation_profiles : list IsolationProfile;
  caps_network_policies : list NetworkPolicy;
  caps_dependency_capsule_formats : list string;
  caps_max_request_bytes : N;
  caps_max_output_bytes : N;
  caps_distribution_id : option string;
  caps_max_concurrent_jobs : option N;
  caps_dependency_capsules : list string;
  caps_runtime_artifacts : gmap RuntimeKind string;
  caps_max_timeout_ms : option N;
  caps_max_memory_bytes : option N;
  caps_resources : ProviderResourceInventory;
  caps_policy : option Policy;
  caps_execution : option ExecutionModes;
  caps_sessions : option SessionCapabilities;
  caps_target_features : list string;
  caps_authentication : option string;
  caps_inventory : RuntimeInventory;
}.

(** [ProviderCapabilities::execution_modes] *)
Definition execution_modes (c : ProviderCapabilities) : ExecutionModes :=
  default {| mode_run := true; mode_jobs := is_some (caps_max_concurrent_jobs c);
             mode_deployments := false; mode_sessions := false |} (caps_execution c).

(** ** Descriptors *)

Inductive ProviderKind : Type := KindLocal | KindRemote | KindCloudflare.

#[export] Instance ProviderKind_eq_dec : EqDecision ProviderKind.
Proof. solve_decision. Defined.

Definition LOCAL_PROTOCOL : string := "compute.local@1".
Definition REMOTE_PROTOCOL : string := "compute.remote@1".

Module ProviderKind.
Definition protocol (kind : ProviderKind) : string :=
  match kind with
  | KindLocal => LOCAL_PROTOCOL | KindRemote => REMOTE_PROTOCOL
  | KindCloudflare => CLOUDFLARE_PROTOCOL
  end.

Definition to_string (kind : ProviderKind) : string :=
  match kind with KindLocal => "local" | KindRemote => "remote" | KindCloudflare => "cloudflare" end.

Definition position (kind : ProviderKind) : N :=
  match kind with KindLocal => 0 | KindRemote => 1 | KindCloudflare => 2 end.
End ProviderKind.

#[export] Instance provider_position_inj : Inj (=) (=) ProviderKind.position.
Proof. by intros [] []. Qed.
#[export] Instance ProviderKind_ord : Ord ProviderKind := ord_by ProviderKind.position.
#[export] Instance ProviderKind_ord_laws : OrdLaws ProviderKind := ord_by_laws ProviderKind.position.

Inductive Health : Type := Healthy | Unhealthy | HealthUnknown.

#[export] Instance Health_eq_dec : EqDecision Health.
Proof. solve_decision. Defined.

Record RuntimeOffer : Type := {
  offer_kind : RuntimeKind;
  offer_version : string;
  offer_detected_version : option string;
  offer_artifact_id : option string;
  offer_lifecycle : RuntimeLifecycleStatus;
  offer_distribution : option RuntimeDistribution;
  offer_isolation_profiles : list IsolationProfile;
  offer_network_policies : list NetworkPolicy;
  offer_capabilities : RuntimeCapabilities;
}.

#[export] Instance RuntimeOffer_eq_dec : EqDecision RuntimeOffer.
Proof. solve_decision. Defined.

(** [RuntimeOffer::effective_version] *)
Definition effective_version (offer : RuntimeOffer) : string :=
  default (offer_version offer) (offer_detected_version offer).

Record DistributionOffer : Type := {
  offered_id : option string;
  offered_platform : PlatformIdentity;
}.

#[export] Instance DistributionOffer_eq_dec : EqDecision DistributionOffer.
Proof. solve_decision. Defined.

Record ResourceCapabilities : Type := {
  offered_max_timeout_ms : option N;
  offered_max_memory_bytes : option N;
}.

#[export] Instance ResourceCapabilities_eq_dec : EqDecision ResourceCapabilities.
Proof. solve_decision. Defined.

Record DependencyCapsuleSupport : Type := {
  formats : list string;
  transfer : bool;
  resident : list string;
}.

#[export] Instance DependencyCapsuleSupport_eq_dec : EqDecision DependencyCapsuleSupport.
Proof. solve_decision. Defined.

Record ArtifactLimits : Type := {
  modes : list string;
  max_request_bytes : N;
  limit_output_bytes : N;
  accepts_run : bool;
  accepts_jobs : bool;
  accepts_deployments : bool;
  accepts_sessions : bool;
}.

#[export] Instance ArtifactLimits_eq_dec : EqDecision ArtifactLimits.
Proof. solve_decision. Defined.

(** Times ([DateTime<Utc>]) are nanoseconds since the epoch. *)
Record Availability : Type := {
  health : Health;
  fetched_at : Z;
  expires_at : Z;
}.

#[export] Instance Availability_eq_dec : EqDecision Availability.
Proof. solve_decision. Defined.

Record ProviderDescriptor : Type := {
  descriptor_version : string;
  provider_id : string;
  provider_kind : ProviderKind;
  provider_identity : ProviderIdentity;
  protocol_version : string;
  capability_version : string;
  runtimes : list RuntimeOffer;
  unavailable_runtimes : list RuntimeKind;
  distribution : DistributionOffer;
  isolation_profiles : list IsolationProfile;
  network_capabilities : list NetworkPolicy;
  resource_capabilities : ResourceCapabilities;
  resources : ProviderResourceInventory;
  dependency_capsules : DependencyCapsuleSupport;
  artifact_limits : ArtifactLimits;
  descriptor_policy : option Policy;
  sessions_offered : option SessionCapabilities;
  target_features : list string;
  authentication : option string;
  availability : Availability;
}.

#[export] Instance ProviderDescriptor_eq_dec : EqDecision ProviderDescriptor.
Proof. solve_decision. Defined.

(** [ProviderDescriptor::runtime] *)
Definition runtime (d : ProviderDescriptor) (kind : RuntimeKind) : option RuntimeOffer :=
  find (λ offer, bool_decide (offer_kind offer = kind)) (runtimes d).

(** What [compute_capability_version] hashes: everything but the observation
    (availability, the resources currently available, how callers
    authenticate) and the digest itself. *)
Record CapabilityBody : Type := {
  body_descriptor_version : string;
  body_provider_id : string;
  body_provider_kind : ProviderKind;
  body_provider_identity : ProviderIdentity;
  body_protocol_version : string;
  body_runtimes : list RuntimeOffer;
  body_unavailable_runtimes : list RuntimeKind;
  body_distribution : DistributionOffer;
  body_isolation_profiles : list IsolationProfile;
  body_network_capabilities : list NetworkPolicy;
  body_resource_capabilities : ResourceCapabilities;
  body_resource_capacity : ResourceVector;
  body_dependency_capsules : DependencyCapsuleSupport;
  body_artifact_limits : ArtifactLimits;
  body_policy : option Policy;
  body_sessions : option SessionCapabilities;
  body_target_features : list string;
}.

Definition capability_body (d : ProviderDescriptor) : CapabilityBody :=
  {| body_descriptor_version := descriptor_version d;
     body_provider_id := provider_id d;
     body_provider_kind := provider_kind d;
     body_provider_identity := provider_identity d;
     body_protocol_version := protocol_version d;
     body_runtimes := runtimes d;
     body_unavailable_runtimes := unavailable_runtimes d;
     body_distribution := distribution d;
     body_isolation_profiles := isolation_profiles d;
     body_network_capabilities := network_capabilities d;
     body_resource_capabilities := resource_capabilities d;
     body_resource_capacity := capacity (resources d);
     body_dependency_capsules := dependency_capsules d;
     body_artifact_limits := artifact_limits d;
     body_policy := descriptor_policy d;
     body_sessions := sessions_offered d;
     body_target_features := target_features d |}.

(** ** Violations *)

Record CapabilityViolation : Type := {
  violation_field : string;
  violation_reason : string;
  violation_expected : option string;
  violation_actual : option string;
}.

Record DescriptorError : Type := {
  error_code_ : string;
  error_field : string;
  error_message : string;
  error_violations : list CapabilityViolation;
}.

Definition fail (field reason : string) : CapabilityViolation :=
  {| violation_field := field; violation_reason := reason;
     violation_expected := None; violation_actual := None |}.

Definition fail_with (field reason expected actual : string) : CapabilityViolation :=
  {| violation_field := field; violation_reason := reason;
     violation_expected := Some expected; violation_actual := Some actual |}.

(** [DescriptorError::from_violations] *)
Definition from_violations (found : list CapabilityViolation) : DescriptorError :=
  let first := default (fail "response" "invalid") (head found) in
  {| error_code_ := "provider_capabilities_invalid";
     error_field := violation_field first;
     error_message := violation_reason first;
     error_violations := found |}.

(** [DescriptorError::violations] *)
Definition violations_of (error : DescriptorError) : list CapabilityViolation :=
  match error_violations error with
  | [] => [fail (error_field error) (error_message error)]
  | found => found
  end.

Definition invalid (field message : string) : DescriptorError :=
  from_violations [fail field message].

(** [str::lines().count()] *)
Fixpoint line_count (s : string) : N :=
  match s with
  | EmptyString => 0
  | String c EmptyString => 1
  | String c rest => if N.eqb (byte_of c) 10 then 1 + line_count rest else line_count rest
  end.

(** [summarize] *)
Definition summarize (value : string) : string :=
  if N.leb (len value) 80 && negb (any_byte (λ b, bool_decide (b ∈ [10; 13; 47; 92]%N)) value)
  then debug_str value
  else show (len value) +:+ " bytes over " +:+ show (N.max (line_count value) 1) +:+ " line(s)".

Definition when (b : bool) (violation : CapabilityViolation) : list CapabilityViolation :=
  if b then [violation] else [].

(** The violations of a check that failed. *)
Definition absorb {A} (check : Result A DescriptorError) : list CapabilityViolation :=
  match check with Ok _ => [] | Err error => violations_of error end.

(** ** The checks *)

Definition is_token (value : string) : bool :=
  negb (is_empty value) && N.leb (len value) 64 &&
  all_bytes (λ byte, is_ascii_alphanumeric byte || one_of ".@-_" byte) value.

Definition VERSION_CONSTRAINT : string :=
  "non-empty text of at most 1024 bytes, no control characters but line breaks and tabs".

Definition is_version (value : string) : bool :=
  negb (is_empty (trim value)) && N.leb (len value) 1024 &&
  negb (any_char (λ c, is_control c && negb (bool_decide (c ∈ [10; 13; 9]%N))) value).

Definition platform_part (part : string) : bool :=
  negb (is_empty part) && N.leb (len part) 32 &&
  all_bytes (λ byte, is_ascii_lowercase byte || is_ascii_digit byte || N.eqb byte 95) part.

Definition parse_platform (value : string) : option PlatformIdentity :=
  '(name, arch) ← split_once "-" value;
  if platform_part name && platform_part arch then
    Some {| os := name; architecture := arch; runtime_abi := None |}
  else None.

Definition text_ok (value : string) : bool :=
  negb (is_empty value) && N.leb (len value) 512 && negb (any_char is_control value).

Definition validate_identity (kind : ProviderKind) (identity : ProviderIdentity)
    : Result unit DescriptorError :=
  match kind, identity with
  | KindLocal, LocalIdentity id =>
      if text_ok id then Ok tt else Err (invalid "provider" "provider identity is malformed")
  | KindRemote, RemoteIdentity id endpoint =>
      if text_ok id && text_ok endpoint &&
         (starts_with "http://" endpoint || starts_with "https://" endpoint)
      then Ok tt else Err (invalid "provider" "provider identity is malformed")
  | KindCloudflare, CloudflareIdentity id account_id =>
      if text_ok id && text_ok account_id then Ok tt
      else Err (invalid "provider" "provider identity is malformed")
  | _, _ => Err (invalid "provider" ("configured " +:+ ProviderKind.to_string kind
                   +:+ " provider reported a different provider kind"))
  end.

(** Networks in the order of their [BTreeMap]. *)
Definition network_order : list NetworkPolicy := [NetLocalhost; NetNetwork; NetNone].

Definition supported_networks (caps : RuntimeCapabilities) : list NetworkPolicy :=
  filter (λ network, cap_network caps !! network = Some true) network_order.

(** The boundaries that rest on a declared capability. *)
Definition boundary_pairs (caps : RuntimeCapabilities) : list (string * bool * bool) :=
  let isolation := cap_isolation caps in
  [("filesystem boundary", filesystem_boundary isolation, cap_filesystem_isolation caps);
   ("timeout enforcement", timeout_enforcement isolation, cap_timeout caps);
   ("memory enforcement", memory_enforcement isolation, cap_memory_limit caps);
   ("CPU enforcement", cpu_enforcement isolation, cap_cpu_limit caps);
   ("process enforcement", process_enforcement isolation, cap_process_limit caps)].

Definition validate_runtime_capabilities (caps : RuntimeCapabilities) : Result unit string :=
  try_for_each (λ pair : string * bool * bool, let '(name, boundary, capability) := pair in
    reject_if (negb (Bool.eqb boundary capability))
      (name +:+ " contradicts the declared capability")) (boundary_pairs caps) ;?;
  reject_if (network_boundary (cap_isolation caps) &&
             negb (default false (cap_network caps !! NetNone)))
    "network boundary is claimed but network none is unsupported" ;?;
  reject_if (bool_decide (supported_networks caps = [])) "no network policy is supported" ;?;
  reject_if (negb (process_boundary (cap_isolation caps)))
    "process boundary is required for every runtime".

(** [unique_sorted] *)
Definition unique_sorted {A} `{!EqDecision A, !Ord A} (values : list A) (field : string)
    : Result (list A) DescriptorError :=
  let set := btree_set values in
  reject_if (negb (bool_decide (length set = length values)))
    (invalid field "contains duplicate values") ;?;
  reject_if (bool_decide (set = [])) (invalid field "must not be empty") ;?;
  Ok set.

(** [probe_on_host] and [probe]: requests with only the fields resolution reads. *)
Definition probe_on_host (kind : RuntimeKind) (isolation : IsolationProfile)
    (host_isolation : HostProfile) (network : NetworkPolicy) (limits : ResourceLimits)
    : ExecutionRequest :=
  {| req_kind := kind; req_version := None; req_stdin := []; req_network := network;
     req_resources := limits; req_isolation := isolation; req_host_isolation := host_isolation |}.

Definition probe (kind : RuntimeKind) (isolation : IsolationProfile) (network : NetworkPolicy)
    (limits : ResourceLimits) : ExecutionRequest :=
  probe_on_host kind isolation Trusted network limits.

(** [supported_isolation] *)
Definition supported_isolation (host : HostCapabilities) (kind : RuntimeKind)
    (caps : RuntimeCapabilities) : list IsolationProfile :=
  filter (λ profile,
    existsb (λ network, is_ok (resolve_isolation host caps kind (probe kind profile network default_limits)))
      (supported_networks caps) = true) IsolationProfile.ALL.

Definition digest_violations (field identity : string) : list CapabilityViolation :=
  match validate_sha256_identity identity with
  | Ok _ => []
  | Err error => [fail_with field (error_to_string error) "sha256:<64 hex>" (summarize identity)]
  end.

Definition list_violations (field : string) (values : list string) : list CapabilityViolation :=
  when (existsb (λ value, negb (is_token value)) values) (fail field "contains a malformed value") ++
  when (negb (bool_decide (length (btree_set values) = length values)))
    (fail field "contains duplicate values").

Definition resource_violations (name : string) (available capacity : N) : list CapabilityViolation :=
  when (N.ltb capacity available)
    (fail_with ("resources.available." +:+ name) "available exceeds capacity"
       ("<= " +:+ show capacity) (show available)).

(** The checks of the response as a whole, before its runtimes. *)
Definition identity_violations (kind : ProviderKind) (c : ProviderCapabilities)
    : list CapabilityViolation :=
  let protocol := ProviderKind.protocol kind in
  when (negb (String.eqb (caps_protocol c) protocol))
    (fail_with "protocol" ("a " +:+ ProviderKind.to_string kind +:+ " provider speaks " +:+ protocol)
       protocol (summarize (caps_protocol c))) ++
  absorb (validate_identity kind (caps_provider c)) ++
  when (is_empty (trim (compute_version (caps_inventory c))))
    (fail_with "inventory.compute_version" "Compute version is empty" "a Compute version" "empty") ++
  when (is_none (parse_platform (inventory_platform (caps_inventory c))))
    (fail_with "inventory.platform" "platform must be <os>-<architecture>" "<os>-<architecture>"
       (summarize (inventory_platform (caps_inventory c)))) ++
  match caps_distribution_id c with
  | Some id => digest_violations "distribution_id" id
  | None => []
  end.

Definition offer_violations (c : ProviderCapabilities) : list CapabilityViolation :=
  absorb (unique_sorted (caps_isolation_profiles c) "isolation_profiles") ++
  absorb (unique_sorted (caps_network_policies c) "network_policies") ++
  list_violations "artifact_modes" (caps_artifact_modes c) ++
  list_violations "dependency_capsule_formats" (caps_dependency_capsule_formats c) ++
  when (negb (bool_decide ("bundle" ∈ caps_artifact_modes c)))
    (fail_with "artifact_modes" "provider must accept portable bundles"
       ("includes " +:+ debug_str "bundle") (debug_strs (caps_artifact_modes c))).

Definition limit_violations (c : ProviderCapabilities) : list CapabilityViolation :=
  let free := available (caps_resources c) in
  let total := capacity (caps_resources c) in
  when (N.eqb (caps_max_request_bytes c) 0 || N.eqb (caps_max_output_bytes c) 0)
    (fail_with "artifact_limits" "artifact limits must be positive" "> 0"
       ("max_request_bytes " +:+ show (caps_max_request_bytes c) +:+ ", max_output_bytes "
        +:+ show (caps_max_output_bytes c))) ++
  when (bool_decide (caps_max_timeout_ms c = Some 0%N) || bool_decide (caps_max_memory_bytes c = Some 0%N))
    (fail_with "resource_capabilities" "resource limits must be positive when present"
       "> 0 or absent" "0") ++
  resource_violations "cpu_count" (rv_cpu_count free) (rv_cpu_count total) ++
  resource_violations "memory_bytes" (rv_memory_bytes free) (rv_memory_bytes total) ++
  resource_violations "disk_bytes" (rv_disk_bytes free) (rv_disk_bytes total) ++
  when (bool_decide (caps_max_concurrent_jobs c = Some 0%N))
    (fail_with "max_concurrent_jobs" "job concurrency must be positive when present"
       "> 0 or absent" "0") ++
  (caps_dependency_capsules c ≫= digest_violations "dependency_capsules") ++
  when (negb (bool_decide (length (btree_set (caps_dependency_capsules c)) =
                           length (caps_dependency_capsules c))))
    (fail "dependency_capsules" "contains duplicate values").

(** A runtime artifact map in the order of its keys. *)
Definition artifact_entries (artifacts : gmap RuntimeKind string) : list (RuntimeKind * string) :=
  omap (λ kind, (kind,.) <$> artifacts !! kind) RuntimeKind.ALL.

Definition artifact_violations (c : ProviderCapabilities) (seen : list RuntimeKind)
    : list CapabilityViolation :=
  '(kind, artifact) ← artifact_entries (caps_runtime_artifacts c);
  let field := "runtime_artifacts." +:+ RuntimeKind.as_str kind in
  when (negb (bool_decide (kind ∈ seen)))
    (fail field "artifact identity for a runtime the inventory does not list") ++
  digest_violations field artifact.

Definition policy_violations (c : ProviderCapabilities) : list CapabilityViolation :=
  match caps_policy c with
  | Some policy =>
      match validate policy with
      | Ok _ => []
      | Err error => [fail "policy" (policy_error_to_string error)]
      end
  | None => []
  end ++
  match validate_target_features (caps_target_features c) with
  | Ok _ => []
  | Err error =>
      [fail_with "target_features" (error_to_string error) (join ", " TARGET_FEATURES)
         (debug_strs (caps_target_features c))]
  end.

Section descriptor.
Context `{!CanonicalIdentity DistributionMaterial, !CanonicalIdentity CapabilityBody}.
(** The operating system's enforcement and the platform this process runs
    on, both probed by code that is not part of the derivation. *)
Context (host : HostCapabilities) (current : PlatformIdentity).

(** [RuntimeDistribution::canonical_id] and [validate] *)
Definition distribution_canonical_id (d : RuntimeDistribution) : string :=
  canonical_identity
    {| dm_runtime := dist_runtime d; dm_version := dist_version d;
       dm_platform := dist_platform d; dm_artifact := dist_artifact d;
       dm_digest := dist_digest d; dm_executable := dist_executable d;
       dm_capabilities := dist_capabilities d |}.

Definition validate_distribution (d : RuntimeDistribution) : Result unit ComputeError :=
  validate_sha256_identity (dist_id d) ;?;
  validate_sha256_identity (dist_digest d) ;?;
  reject_if (negb (String.eqb (dist_id d) (distribution_canonical_id d)))
    (RuntimeFailure "runtime distribution identity is not canonical") ;?;
  reject_if (is_empty (trim (dist_version d)) || is_empty (trim (dist_artifact d)) ||
             is_empty (trim (dist_source d)) || is_empty (trim (dist_executable d)))
    (RuntimeFailure "runtime distribution contains an empty field").

Definition version_violations (field : string) (entry : RuntimeInventoryEntry)
    : list CapabilityViolation :=
  when (negb (is_version (entry_version entry)))
    (fail_with (field +:+ ".version") "pinned version is malformed" VERSION_CONSTRAINT
       (summarize (entry_version entry))) ++
  match entry_detected_version entry with
  | Some version =>
      when (negb (is_version version))
        (fail_with (field +:+ ".detected_version") "detected version is malformed"
           VERSION_CONSTRAINT (summarize version))
  | None => []
  end.

(** The identities an entry carries, and whether they agree with the
    provider's. *)
Definition entry_identity_violations (c : ProviderCapabilities) (field : string)
    (entry : RuntimeInventoryEntry) : list CapabilityViolation :=
  let present id := if is_empty id then [] else [id] in
  (present (entry_distribution_id entry) ≫= digest_violations (field +:+ ".distribution_id")) ++
  (present (entry_distribution_runtime_id entry)
     ≫= digest_violations (field +:+ ".distribution_runtime_id")) ++
  (default [] (present <$> entry_executable_identity entry)
     ≫= digest_violations (field +:+ ".executable_identity")) ++
  match caps_distribution_id c with
  | Some id =>
      when (negb (is_empty (entry_distribution_id entry)) &&
            negb (String.eqb id (entry_distribution_id entry)))
        (fail_with (field +:+ ".distribution_id")
           "runtime distribution differs from the provider distribution"
           (summarize id) (summarize (entry_distribution_id entry)))
  | None => []
  end ++
  match caps_runtime_artifacts c !! entry_id entry with
  | Some artifact =>
      when (negb (is_empty (entry_distribution_runtime_id entry)) &&
            negb (String.eqb artifact (entry_distribution_runtime_id entry)))
        (fail_with (field +:+ ".distribution_runtime_id")
           "runtime distribution identity contradicts runtime_artifacts"
           (summarize artifact) (summarize (entry_distribution_runtime_id entry)))
  | None => []
  end.

Definition entry_distribution_violations (c : ProviderCapabilities) (field : string)
    (entry : RuntimeInventoryEntry) : list CapabilityViolation :=
  match entry_distribution entry with
  | None => []
  | Some d =>
      match validate_distribution d with
      | Ok _ => []
      | Err error => [fail (field +:+ ".distribution") (error_to_string error)]
      end ++
      when (negb (bool_decide (dist_runtime d = entry_id entry)) ||
            negb (String.eqb (dist_version d) (entry_version entry)) ||
            negb (String.eqb (platform_label (dist_platform d))
                    (inventory_platform (caps_inventory c))) ||
            negb (bool_decide (dist_capabilities d = entry_capabilities entry)))
        (fail (field +:+ ".distribution") "runtime distribution contradicts the inventory entry")
  end.

(** The violations of one inventory entry, after the entries [seen]. *)
Definition entry_violations (c : ProviderCapabilities) (seen : list RuntimeKind)
    (entry : RuntimeInventoryEntry) : list CapabilityViolation :=
  let field := "inventory.runtimes." +:+ RuntimeKind.as_str (entry_id entry) in
  when (bool_decide (entry_id entry ∈ seen)) (fail field "runtime is listed more than once") ++
  version_violations field entry ++
  when (negb (is_empty (entry_platform entry)) &&
        negb (String.eqb (entry_platform entry) (inventory_platform (caps_inventory c))))
    (fail_with (field +:+ ".platform") "runtime platform differs from the inventory platform"
       (summarize (inventory_platform (caps_inventory c))) (summarize (entry_platform entry))) ++
  entry_identity_violations c field entry ++
  match validate_runtime_capabilities (entry_capabilities entry) with
  | Ok _ => []
  | Err message => [fail (field +:+ ".capabilities") message]
  end ++
  entry_distribution_violations c field entry.

Definition lifecycle_of (entry : RuntimeInventoryEntry) : RuntimeLifecycleStatus :=
  default (if entry_available entry && entry_compatible entry then Installed else Unavailable)
    (entry_lifecycle entry).

Definition offer_of (c : ProviderCapabilities) (entry : RuntimeInventoryEntry) : RuntimeOffer :=
  {| offer_kind := entry_id entry;
     offer_version := entry_version entry;
     offer_detected_version := entry_detected_version entry;
     offer_artifact_id :=
       if is_empty (entry_distribution_runtime_id entry) then caps_runtime_artifacts c !! entry_id entry
       else Some (entry_distribution_runtime_id entry);
     offer_lifecycle := lifecycle_of entry;
     offer_distribution := entry_distribution entry;
     offer_isolation_profiles := supported_isolation host (entry_id entry) (entry_capabilities entry);
     offer_network_policies := supported_networks (entry_capabilities entry);
     offer_capabilities := entry_capabilities entry |}.

Definition offered (entry : RuntimeInventoryEntry) : bool :=
  can_satisfy (lifecycle_of entry) && entry_compatible entry.

(** The loop over the inventory: kinds seen, violations, offers, unavailable. *)
Record Scan : Type := {
  scan_seen : list RuntimeKind;
  scan_violations : list CapabilityViolation;
  scan_runtimes : list RuntimeOffer;
  scan_unavailable : list RuntimeKind;
}.

Definition scan_entry (c : ProviderCapabilities) (s : Scan) (entry : RuntimeInventoryEntry) : Scan :=
  let found := entry_violations c (scan_seen s) entry in
  let accepted := bool_decide (found = []) in
  {| scan_seen := scan_seen s ++ [entry_id entry];
     scan_violations := scan_violations s ++ found;
     scan_runtimes :=
       scan_runtimes s ++ (if accepted && offered entry then [offer_of c entry] else []);
     scan_unavailable :=
       scan_unavailable s ++ (if accepted && negb (offered entry) then [entry_id entry] else []) |}.

Definition scan (c : ProviderCapabilities) : Scan :=
  foldl (scan_entry c)
    {| scan_seen := []; scan_violations := []; scan_runtimes := []; scan_unavailable := [] |}
    (inventory_runtimes (caps_inventory c)).

Definition violations (kind : ProviderKind) (c : ProviderCapabilities) : list CapabilityViolation :=
  identity_violations kind c ++ offer_violations c ++ limit_violations c ++
  scan_violations (scan c) ++ artifact_violations c (scan_seen (scan c)) ++ policy_violations c.

Definition compute_capability_version (d : ProviderDescriptor) : string :=
  canonical_identity (capability_body d).

Definition DESCRIPTOR_VERSION : string := "compute.provider.descriptor@1".
Definition DEPENDENCY_CAPSULE_FORMAT : string := "compute.deps".

Definition with_capability_version (d : ProviderDescriptor) (version : string) : ProviderDescriptor :=
  {| descriptor_version := descriptor_version d; provider_id := provider_id d;
     provider_kind := provider_kind d; provider_identity := provider_identity d;
     protocol_version := protocol_version d; capability_version := version;
     runtimes := runtimes d; unavailable_runtimes := unavailable_runtimes d;
     distribution := distribution d; isolation_profiles := isolation_profiles d;
     network_capabilities := network_capabilities d;
     resource_capabilities := resource_capabilities d; resources := resources d;
     dependency_capsules := dependency_capsules d; artifact_limits := artifact_limits d;
     descriptor_policy := descriptor_policy d; sessions_offered := sessions_offered d;
     target_features := target_features d; authentication := authentication d;
     availability := availability d |}.

Definition sorted_or_empty {A} (checked : Result (list A) DescriptorError) : list A :=
  match checked with Ok values => values | Err _ => [] end.

Definition artifact_limits_of (c : ProviderCapabilities) : ArtifactLimits :=
  {| modes := sort (caps_artifact_modes c);
     max_request_bytes := caps_max_request_bytes c;
     limit_output_bytes := caps_max_output_bytes c;
     accepts_run := mode_run (execution_modes c);
     accepts_jobs := mode_jobs (execution_modes c);
     accepts_deployments := mode_deployments (execution_modes c);
     accepts_sessions := mode_sessions (execution_modes c) |}.

(** The descriptor a response without violations describes. *)
Definition describe (id : string) (kind : ProviderKind) (c : ProviderCapabilities)
    (observed : Availability) : ProviderDescriptor :=
  {| descriptor_version := DESCRIPTOR_VERSION;
     provider_id := id;
     provider_kind := kind;
     provider_identity := caps_provider c;
     protocol_version := caps_protocol c;
     capability_version := "";
     runtimes := sort_by (λ l r, cmp (offer_kind l) (offer_kind r)) (scan_runtimes (scan c));
     unavailable_runtimes := sort (scan_unavailable (scan c));
     distribution :=
       {| offered_id := caps_distribution_id c;
          offered_platform := default current (parse_platform (inventory_platform (caps_inventory c))) |};
     isolation_profiles :=
       sorted_or_empty (unique_sorted (caps_isolation_profiles c) "isolation_profiles");
     network_capabilities :=
       sorted_or_empty (unique_sorted (caps_network_policies c) "network_policies");
     resource_capabilities :=
       {| offered_max_timeout_ms := caps_max_timeout_ms c;
          offered_max_memory_bytes := caps_max_memory_bytes c |};
     resources := caps_resources c;
     dependency_capsules :=
       {| formats := caps_dependency_capsule_formats c;
          transfer := bool_decide (DEPENDENCY_CAPSULE_FORMAT ∈ caps_dependency_capsule_formats c);
          resident := btree_set (caps_dependency_capsules c) |};
     artifact_limits := artifact_limits_of c;
     descriptor_policy := canonical <$> caps_policy c;
     sessions_offered := if mode_sessions (execution_modes c) then caps_sessions c else None;
     target_features := btree_set (caps_target_features c);
     authentication := caps_authentication c;
     availability := observed |}.

(** [ProviderDescriptor::from_capabilities] *)
Definition from_capabilities (id : string) (kind : ProviderKind) (c : ProviderCapabilities)
    (observed : Availability) : Result ProviderDescriptor DescriptorError :=
  let found := violations kind c in
  if bool_decide (found = []) then
    let d := describe id kind c observed in
    Ok (with_capability_version d (compute_capability_version d))
  else Err (from_violations found).
End descriptor.

(** ** What a descriptor promises *)

(** The offers placement may rely on: each profile an offer lists can be
    resolved, by the function execution uses, on a network the runtime
    supports; the runtime keeps a process boundary and supports a network. *)
Record SoundOffer (host : HostCapabilities) (offer : RuntimeOffer) : Prop := {
  sound_lifecycle : can_satisfy (offer_lifecycle offer) = true;
  sound_version : is_version (offer_version offer) = true;
  sound_isolation profile : profile ∈ offer_isolation_profiles offer ↔
    ∃ network evidence, network ∈ offer_network_policies offer ∧
      resolve_isolation host (offer_capabilities offer) (offer_kind offer)
        (probe (offer_kind offer) profile network default_limits) = Ok evidence;
  sound_network : offer_network_policies offer ≠ [] ∧
    ∀ network, network ∈ offer_network_policies offer ↔
               cap_network (offer_capabilities offer) !! network = Some true;
  sound_boundaries name boundary capability :
    (name, boundary, capability) ∈ boundary_pairs (offer_capabilities offer) → boundary = capability;
  sound_process : process_boundary (cap_isolation (offer_capabilities offer)) = true;
}.

Record WellFormedDescriptor (host : HostCapabilities) (d : ProviderDescriptor) : Prop := {
  wfd_protocol : protocol_version d = ProviderKind.protocol (provider_kind d);
  wfd_identity : validate_identity (provider_kind d) (provider_identity d) = Ok tt;
  wfd_runtimes_sorted : StronglySorted (le_by (λ l r, cmp (offer_kind l) (offer_kind r))) (runtimes d);
  wfd_runtimes_once : NoDup ((offer_kind <$> runtimes d) ++ unavailable_runtimes d);
  wfd_offers offer : offer ∈ runtimes d → SoundOffer host offer;
  wfd_isolation : isolation_profiles d ≠ [] ∧ NoDup (isolation_profiles d);
  wfd_network : network_capabilities d ≠ [] ∧ NoDup (network_capabilities d);
  wfd_available :
    (rv_cpu_count (available (resources d)) ≤ rv_cpu_count (capacity (resources d)))%N ∧
    (rv_memory_bytes (available (resources d)) ≤ rv_memory_bytes (capacity (resources d)))%N ∧
    (rv_disk_bytes (available (resources d)) ≤ rv_disk_bytes (capacity (resources d)))%N;
  wfd_limits : (0 < max_request_bytes (artifact_limits d))%N ∧
               (0 < limit_output_bytes (artifact_limits d))%N;
  wfd_bundle : "bundle" ∈ modes (artifact_limits d);
  wfd_policy p : descriptor_policy d = Some p → validate p = Ok tt ∧ canonical p = p;
  wfd_features feature : feature ∈ target_features d → feature ∈ TARGET_FEATURES;
  wfd_resident id : id ∈ resident (dependency_capsules d) → validate_sha256_identity id = Ok tt;
}.

(** ** Lemmas on the checks *)

Lemma when_nil b violation : when b violation = [] ↔ b = false.
Proof. by destruct b. Qed.

Lemma violations_of_nonempty error : violations_of error ≠ [].
Proof. unfold violations_of. by destruct (error_violations error). Qed.

Lemma absorb_nil {A} (check : Result A DescriptorError) : absorb check = [] ↔ ∃ x, check = Ok x.
Proof.
  destruct check as [x|error]; simpl; [naive_solver|].
  split; [by intros ?%violations_of_nonempty|naive_solver].
Qed.

Lemma digest_violations_nil field id :
  digest_violations field id = [] ↔ validate_sha256_identity id = Ok tt.
Proof. unfold digest_violations. by destruct (validate_sha256_identity id) as [[]|]. Qed.

Lemma unique_sorted_ok {A} `{!EqDecision A, !Ord A, !OrdLaws A} (l : list A) field set :
  unique_sorted l field = Ok set ↔ set = btree_set l ∧ l ≠ [] ∧ NoDup l.
Proof.
  unfold unique_sorted.
  rewrite seq_ok, seq_ok, !reject_if_ok, negb_false_iff, bool_decide_eq_true, bool_decide_eq_false,
    length_btree_set_NoDup, btree_set_nil. naive_solver.
Qed.

Lemma bind_nil {A B} (f : A → list B) l : l ≫= f = [] ↔ ∀ x, x ∈ l → f x = [].
Proof.
  induction l as [|x l IH]; simpl.
  - split; [intros _ ? []%not_elem_of_nil|done].
  - rewrite app_nil. setoid_rewrite elem_of_cons. rewrite IH. naive_solver.
Qed.

Lemma elem_of_network_order network : network ∈ network_order.
Proof. unfold network_order. destruct network; set_solver. Qed.

Lemma elem_of_supported_networks caps network :
  network ∈ supported_networks caps ↔ cap_network caps !! network = Some true.
Proof.
  unfold supported_networks. rewrite list_elem_of_filter. naive_solver eauto using elem_of_network_order.
Qed.

Lemma validate_runtime_capabilities_ok caps :
  validate_runtime_capabilities caps = Ok tt →
  (∀ name boundary capability, (name, boundary, capability) ∈ boundary_pairs caps →
     boundary = capability) ∧
  supported_networks caps ≠ [] ∧ process_boundary (cap_isolation caps) = true.
Proof.
  unfold validate_runtime_capabilities.
  rewrite !seq_ok, !reject_if_ok, try_for_each_ok, bool_decide_eq_false, negb_false_iff.
  intros (Hpairs & _ & ? & ?). split_and!; try done. intros name boundary capability Hin.
  apply Hpairs in Hin. rewrite reject_if_ok, negb_false_iff in Hin. by apply Bool.eqb_prop.
Qed.

Lemma elem_of_supported_isolation host kind caps profile :
  profile ∈ supported_isolation host kind caps ↔
  ∃ network evidence, network ∈ supported_networks caps ∧
    resolve_isolation host caps kind (probe kind profile network default_limits) = Ok evidence.
Proof.
  unfold supported_isolation. rewrite list_elem_of_filter, existsb_exists.
  setoid_rewrite <-list_elem_of_In. setoid_rewrite is_ok_spec. split; [naive_solver|].
  intros (network & evidence & ? & ?). split; [eauto|]. destruct profile; set_solver.
Qed.

(** ** The scan of the inventory *)

Section scan_lemmas.
Context `{!CanonicalIdentity DistributionMaterial, !CanonicalIdentity CapabilityBody}.
Context (host : HostCapabilities).
Implicit Types (c : ProviderCapabilities) (entries : list RuntimeInventoryEntry).

(** A scan that reports nothing: every entry is clean and listed once, and it
    is either offered or unavailable. *)
Lemma scan_clean c entries s :
  scan_violations (foldl (scan_entry host c) s entries) = [] →
  scan_violations s = [] ∧
  (∀ entry, entry ∈ entries → ∃ seen, entry_violations c seen entry = []) ∧
  NoDup (entry_id <$> entries) ∧ (∀ entry, entry ∈ entries → entry_id entry ∉ scan_seen s) ∧
  scan_runtimes (foldl (scan_entry host c) s entries) =
    scan_runtimes s ++ (offer_of host c <$> filter offered entries) ∧
  scan_unavailable (foldl (scan_entry host c) s entries) =
    scan_unavailable s ++ (entry_id <$> filter (λ entry, negb (offered entry)) entries).
Proof.
  revert s. induction entries as [|entry entries IH]; intros s; simpl.
  - intros ->. split_and!; rewrite ?app_nil_r; try done; [|constructor|]; intros ? []%not_elem_of_nil.
  - intros Hnil. destruct (IH _ Hnil) as (Hs & Hclean & Hnd & Hseen & -> & ->). clear IH Hnil.
    simpl in *. apply app_nil in Hs as [Hs Hentry].
    rewrite (bool_decide_eq_true_2 _ Hentry). simpl.
    split_and!; [done|set_solver| | | |].
    + simpl. constructor; [|done]. intros (e & He & Hin)%list_elem_of_fmap.
      apply (Hseen e Hin). rewrite <-He. set_solver.
    + intros e [->|Hin]%elem_of_cons; [|set_solver]. intros Hin.
      unfold entry_violations in Hentry. rewrite app_nil, when_nil in Hentry.
      destruct Hentry as [Hb _]. by rewrite bool_decide_eq_false in Hb.
    + rewrite <-(assoc_L (++)). by destruct (offered entry) eqn:E; rewrite filter_cons, E.
    + rewrite <-(assoc_L (++)). by destruct (offered entry) eqn:E; rewrite filter_cons, E.
Qed.

Lemma entry_violations_nil c seen entry :
  entry_violations c seen entry = [] →
  is_version (entry_version entry) = true ∧
  validate_runtime_capabilities (entry_capabilities entry) = Ok tt.
Proof.
  unfold entry_violations, version_violations. rewrite !app_nil, !when_nil, negb_false_iff.
  intros (_ & [? _] & _ & _ & Hcaps & _). split; [done|].
  by destruct (validate_runtime_capabilities _) as [[]|].
Qed.

Lemma offer_of_sound c seen entry :
  entry_violations c seen entry = [] → offered entry = true → SoundOffer host (offer_of host c entry).
Proof.
  intros [Hversion Hcaps]%entry_violations_nil [Hlife _]%andb_true_iff.
  destruct (validate_runtime_capabilities_ok _ Hcaps) as (Hpairs & Hnet & Hproc).
  split; simpl; try done.
  - intros profile. apply elem_of_supported_isolation.
  - split; [done|]. intros network. apply elem_of_supported_networks.
Qed.
End scan_lemmas.

Lemma offered_partition entries :
  (entry_id <$> filter offered entries) ++ (entry_id <$> filter (λ e, negb (offered e)) entries)
  ≡ₚ entry_id <$> entries.
Proof.
  rewrite <-fmap_app. apply fmap_Permutation.
  induction entries as [|e entries IH]; [done|]. rewrite !filter_cons.
  destruct (offered e); simpl; [by rewrite IH|]. by rewrite <-Permutation_middle, IH.
Qed.

Section correctness.
Context `{!CanonicalIdentity DistributionMaterial, !CanonicalIdentity CapabilityBody}.
Context (host : HostCapabilities) (current : PlatformIdentity).
Implicit Types (c : ProviderCapabilities).

Lemma from_capabilities_ok id kind c observed d :
  from_capabilities host current id kind c observed = Ok d ↔
  violations host kind c = [] ∧
  d = with_capability_version (describe host current id kind c observed)
        (compute_capability_version (describe host current id kind c observed)).
Proof. unfold from_capabilities. case_bool_decide; naive_solver. Qed.

Lemma described_runtimes id kind c observed :
  scan_violations (scan host c) = [] →
  let d := describe host current id kind c observed in
  NoDup ((offer_kind <$> runtimes d) ++ unavailable_runtimes d) ∧
  (∀ offer, offer ∈ runtimes d → SoundOffer host offer).
Proof.
  intros Hnil. destruct (scan_clean host c _ _ Hnil) as (_ & Hclean & Hnd & _ & Hrun & Hun).
  simpl. unfold scan. rewrite Hrun, Hun. simpl. split.
  - unfold sort. rewrite !sort_by_perm. rewrite <-list_fmap_compose.
    change (offer_kind ∘ offer_of host c) with entry_id. by rewrite offered_partition.
  - intros offer. rewrite elem_of_sort_by.
    intros (entry & -> & [Hoff Hin]%list_elem_of_filter)%list_elem_of_fmap.
    destruct (Hclean entry Hin) as [seen Hseen].
    apply (offer_of_sound host c seen); [done|]. by apply Is_true_true.
Qed.

Lemma resource_violations_nil name free total :
  resource_violations name free total = [] ↔ (free ≤ total)%N.
Proof. unfold resource_violations. by rewrite when_nil, N.ltb_ge. Qed.

Lemma identity_violations_nil kind c :
  identity_violations kind c = [] →
  caps_protocol c = ProviderKind.protocol kind ∧
  validate_identity kind (caps_provider c) = Ok tt.
Proof.
  unfold identity_violations. rewrite !app_nil, !when_nil, negb_false_iff, String.eqb_eq, absorb_nil.
  by intros (? & [[] ?] & _).
Qed.

Lemma offer_violations_nil c :
  offer_violations c = [] →
  (caps_isolation_profiles c ≠ [] ∧ NoDup (caps_isolation_profiles c)) ∧
  (caps_network_policies c ≠ [] ∧ NoDup (caps_network_policies c)) ∧
  "bundle" ∈ caps_artifact_modes c.
Proof.
  unfold offer_violations. rewrite !app_nil, !when_nil, negb_false_iff, !absorb_nil, bool_decide_eq_true.
  intros ([? [_ ?]%unique_sorted_ok] & [? [_ ?]%unique_sorted_ok] & _ & _ & ?). done.
Qed.

Lemma limit_violations_nil c :
  limit_violations c = [] →
  ((rv_cpu_count (available (caps_resources c)) ≤ rv_cpu_count (capacity (caps_resources c)))%N ∧
   (rv_memory_bytes (available (caps_resources c)) ≤ rv_memory_bytes (capacity (caps_resources c)))%N ∧
   (rv_disk_bytes (available (caps_resources c)) ≤ rv_disk_bytes (capacity (caps_resources c)))%N) ∧
  ((0 < caps_max_request_bytes c)%N ∧ (0 < caps_max_output_bytes c)%N) ∧
  (∀ id, id ∈ caps_dependency_capsules c → validate_sha256_identity id = Ok tt).
Proof.
  unfold limit_violations. rewrite !app_nil, !resource_violations_nil, !when_nil, orb_false_iff,
    !N.eqb_neq, bind_nil.
  intros ([] & _ & ? & ? & ? & _ & Hids & _). split_and!; try done; try lia.
  intros id Hid. by eapply digest_violations_nil, Hids.
Qed.

Lemma policy_violations_nil c :
  policy_violations c = [] →
  (∀ p, caps_policy c = Some p → validate p = Ok tt) ∧
  (∀ feature, feature ∈ caps_target_features c → feature ∈ TARGET_FEATURES).
Proof.
  unfold policy_violations. rewrite app_nil. intros [Hp Hf]. split.
  - intros p Hc. rewrite Hc in Hp. by destruct (validate p) as [[]|].
  - destruct (validate_target_features _) as [[]|] eqn:E; [|done].
    unfold validate_target_features in E. rewrite try_for_each_ok in E.
    intros feature Hin. apply E in Hin. by rewrite reject_if_ok, negb_false_iff, bool_decide_eq_true in Hin.
Qed.

Lemma described_well_formed id kind c observed :
  violations host kind c = [] → WellFormedDescriptor host (describe host current id kind c observed).
Proof.
  unfold violations. rewrite !app_nil. intros (Hid & Hoff & Hlim & Hscan & _ & Hpol).
  apply identity_violations_nil in Hid as [? ?].
  apply offer_violations_nil in Hoff as (Hiso & Hnet & ?).
  apply limit_violations_nil in Hlim as (? & ? & Hres).
  apply policy_violations_nil in Hpol as [Hpol Hfeat].
  destruct (described_runtimes id kind c observed Hscan) as [? ?].
  destruct (unique_sorted_ok (caps_isolation_profiles c) "isolation_profiles" (btree_set (caps_isolation_profiles c)))
    as [_ Hi].
  destruct (unique_sorted_ok (caps_network_policies c) "network_policies" (btree_set (caps_network_policies c)))
    as [_ Hn].
  split; simpl; rewrite ?Hi, ?Hn by done; try done.
  - apply sort_by_StronglySorted, (cmp_on (@cmp RuntimeKind _)).
  - simpl. rewrite btree_set_nil. split; [apply Hiso|apply btree_set_NoDup].
  - simpl. rewrite btree_set_nil. split; [apply Hnet|apply btree_set_NoDup].
  - unfold sort. by rewrite elem_of_sort_by.
  - intros p (q & Hq & ->)%fmap_Some. split; [|apply canonical_idem].
    apply validate_well_formed, canonical_well_formed, validate_well_formed. auto.
  - intros feature. rewrite elem_of_btree_set. auto.
  - intros i. rewrite elem_of_btree_set. auto.
Qed.

Lemma derived_well_formed id kind c observed d :
  from_capabilities host current id kind c observed = Ok d → WellFormedDescriptor host d.
Proof.
  intros [Hnil ->]%from_capabilities_ok.
  pose proof (described_well_formed id kind c observed Hnil) as []. by split.
Qed.
End correctness.

(** ** Properties *)

Section properties.
Context `{!CanonicalIdentity DistributionMaterial, !CanonicalIdentity CapabilityBody}.
Context (host : HostCapabilities) (current : PlatformIdentity).
Implicit Types (c : ProviderCapabilities).

(** A capability response becomes a descriptor exactly when it breaks no
    check, and a refused response reports every violation found, the first of
    them as its field and message. *)
Theorem from_capabilities_exact id kind c observed :
  ((∃ d, from_capabilities host current id kind c observed = Ok d) ↔ violations host kind c = []) ∧
  (∀ error, from_capabilities host current id kind c observed = Err error →
     violations_of error = violations host kind c ∧
     (∃ first rest, violations host kind c = first :: rest ∧
        error_field error = violation_field first ∧ error_message error = violation_reason first)).
Proof.
  split; [setoid_rewrite from_capabilities_ok; naive_solver|].
  unfold from_capabilities. case_bool_decide as Hnil; [done|]. intros ? [= <-].
  unfold violations_of; simpl. destruct (violations host kind c) as [|first rest]; [done|].
  split; [done|]. by exists first, rest.
Qed.

(** C40: Every descriptor derived from a capability response is well formed:
    protocol and identity fit the configured kind, no runtime is listed twice
    or both offered and unavailable, every offer is sound (its profiles are
    those execution can resolve, its networks those it supports), available
    resources never exceed the capacity, bundles are accepted, the policy is
    valid and canonical, and every feature and resident capsule is named
    correctly. *)
Theorem descriptor_well_formed id kind c observed d :
  from_capabilities host current id kind c observed = Ok d →
  provider_id d = id ∧ provider_kind d = kind ∧ availability d = observed ∧
  WellFormedDescriptor host d.
Proof.
  intros Hok. pose proof Hok as Hwf%derived_well_formed.
  by apply from_capabilities_ok in Hok as [_ ->].
Qed.

(** A later response of the same provider: other resources are available, and
    callers authenticate otherwise. *)
Definition observe_again (c : ProviderCapabilities) (free : ResourceVector)
    (auth : option string) : ProviderCapabilities :=
  {| caps_protocol := caps_protocol c; caps_provider := caps_provider c;
     caps_artifact_modes := caps_artifact_modes c;
     caps_isolation_profiles := caps_isolation_profiles c;
     caps_network_policies := caps_network_policies c;
     caps_dependency_capsule_formats := caps_dependency_capsule_formats c;
     caps_max_request_bytes := caps_max_request_bytes c;
     caps_max_output_bytes := caps_max_output_bytes c;
     caps_distribution_id := caps_distribution_id c;
     caps_max_concurrent_jobs := caps_max_concurrent_jobs c;
     caps_dependency_capsules := caps_dependency_capsules c;
     caps_runtime_artifacts := caps_runtime_artifacts c;
     caps_max_timeout_ms := caps_max_timeout_ms c;
     caps_max_memory_bytes := caps_max_memory_bytes c;
     caps_resources := {| capacity := capacity (caps_resources c); available := free |};
     caps_policy := caps_policy c; caps_execution := caps_execution c;
     caps_sessions := caps_sessions c; caps_target_features := caps_target_features c;
     caps_authentication := auth; caps_inventory := caps_inventory c |}.

Lemma foldl_ext_on {A B} (f g : A → B → A) l a :
  (∀ a b, f a b = g a b) → foldl f a l = foldl g a l.
Proof. intros H. revert a. induction l as [|x l IH]; intros a; simpl; [done|]. by rewrite H, IH. Qed.

Lemma scan_observe_again c free auth : scan host (observe_again c free auth) = scan host c.
Proof. apply foldl_ext_on. done. Qed.

(** The capability version identifies capabilities, not observations: two
    responses that differ only in the resources currently available, in how
    callers authenticate and in when they were fetched have the same
    version. *)
Theorem capability_version_stable id kind c free auth observed observed' d d' :
  from_capabilities host current id kind c observed = Ok d →
  from_capabilities host current id kind (observe_again c free auth) observed' = Ok d' →
  capability_version d = capability_version d'.
Proof.
  intros [_ ->]%from_capabilities_ok [_ ->]%from_capabilities_ok. simpl.
  unfold compute_capability_version, capability_body; simpl. by rewrite scan_observe_again.
Qed.
End properties.

Lemma platform_part_no_dash part :
  platform_part part = true → any_byte (N.eqb (byte_of "-")) part = false.
Proof.
  unfold platform_part, all_bytes, any_byte. rewrite !andb_true_iff. intros [_ Hall].
  change (byte_of "-") with 45%N.
  induction (bytes part) as [|b l IH]; [done|]. cbn [forallb existsb] in *.
  apply andb_true_iff in Hall as [Hb Hall]. rewrite (IH Hall), orb_false_r.
  apply N.eqb_neq. intros <-. by vm_compute in Hb.
Qed.

Lemma split_once_Some sep s head rest :
  split_once sep s = Some (head, rest) → s = head +:+ String sep rest.
Proof.
  revert head. induction s as [|a s IH]; intros head; simpl; [done|].
  destruct (Ascii.eqb_spec a sep) as [->|].
  - by intros [= <- <-].
  - destruct (split_once sep s) as [[h r]|]; [|done]. intros [= <- <-]. by rewrite (IH h).
Qed.

(** Platform labels round-trip: parsing a label gives the platform without
    an ABI whose label it is, and the label of any platform with well-formed
    parts parses back to it. *)
Theorem platform_round_trip value p :
  (parse_platform value = Some p → platform_label p = value ∧ runtime_abi p = None) ∧
  (platform_part (os p) = true → platform_part (architecture p) = true →
   parse_platform (platform_label p) = Some (strip_abi p)).
Proof.
  split.
  - unfold parse_platform. destruct (split_once _ _) as [[h r]|] eqn:E; simpl; [|done].
    destruct (platform_part h && platform_part r); [|done]. intros [= <-]. unfold platform_label; simpl.
    by apply split_once_Some in E as ->.
  - intros Hos Harch. unfold parse_platform, platform_label.
    change ("-" +:+ architecture p) with (String "-" (architecture p)).
    rewrite split_once_app by by apply platform_part_no_dash. simpl. by rewrite Hos, Harch.
Qed.

(** ** Witnesses *)

#[local] Instance witness_distribution_identity : CanonicalIdentity DistributionMaterial :=
  λ m, dm_digest m.
#[local] Instance witness_capability_identity : CanonicalIdentity CapabilityBody :=
  λ b, body_provider_id b.

Definition wasm_entry : RuntimeInventoryEntry :=
  {| entry_id := Wasm; entry_version := "28.0"; entry_platform := "linux-x86_64";
     entry_distribution_id := ""; entry_distribution_runtime_id := "";
     entry_executable_identity := None; entry_lifecycle := Some Ready; entry_distribution := None;
     entry_available := true; entry_compatible := true; entry_detected_version := None;
     entry_capabilities := RuntimeCapabilities.wasm |}.

Definition wasm_response : ProviderCapabilities :=
  {| caps_protocol := "compute.local@1"; caps_provider := LocalIdentity "local";
     caps_artifact_modes := ["bundle"]; caps_isolation_profiles := [Strict; Sandboxed; Process];
     caps_network_policies := [NetNone]; caps_dependency_capsule_formats := ["compute.deps"];
     caps_max_request_bytes := 1000000; caps_max_output_bytes := 1000000;
     caps_distribution_id := None; caps_max_concurrent_jobs := Some 4%N;
     caps_dependency_capsules := []; caps_runtime_artifacts := ∅; caps_max_timeout_ms := None;
     caps_max_memory_bytes := None;
     caps_resources :=
       {| capacity := {| rv_cpu_count := 4; rv_memory_bytes := 1000000; rv_disk_bytes := 1000000 |};
          available := {| rv_cpu_count := 2; rv_memory_bytes := 500000; rv_disk_bytes := 900000 |} |};
     caps_policy := None; caps_execution := None; caps_sessions := None;
     caps_target_features := ["kvm"]; caps_authentication := None;
     caps_inventory := {| compute_version := "1.0.0"; inventory_platform := "linux-x86_64";
                          inventory_runtimes := [wasm_entry] |} |}.

Definition linux_platform : PlatformIdentity :=
  {| os := "linux"; architecture := "x86_64"; runtime_abi := None |}.
Definition observed_at (now : Z) : Availability :=
  {| health := Healthy; fetched_at := now; expires_at := now + 60 |}.

Definition wasm_descriptor (id : string) : ProviderDescriptor :=
  let d := describe linux_host linux_platform id KindLocal wasm_response (observed_at 0) in
  with_capability_version d (compute_capability_version d).

Lemma from_capabilities_exact_witness :
  violations_of (from_violations (violations linux_host KindRemote wasm_response)) =
  violations linux_host KindRemote wasm_response.
Proof.
  apply (from_capabilities_exact linux_host linux_platform "a" KindRemote wasm_response (observed_at 0)).
  vm_compute. reflexivity.
Defined.

Lemma descriptor_well_formed_witness : WellFormedDescriptor linux_host (wasm_descriptor "a").
Proof.
  apply (descriptor_well_formed linux_host linux_platform "a" KindLocal wasm_response (observed_at 0)).
  vm_compute. reflexivity.
Defined.

Lemma capability_version_stable_witness :
  let free := {| rv_cpu_count := 1; rv_memory_bytes := 0; rv_disk_bytes := 0 |} in
  match from_capabilities linux_host linux_platform "a" KindLocal
          (observe_again wasm_response free (Some "credential")) (observed_at 7) with
  | Ok d => capability_version (wasm_descriptor "a") = capability_version d
  | Err _ => False
  end.
Proof.
  intros free. destruct (from_capabilities _ _ _ _ _ _) as [d|] eqn:E; [|vm_compute in E; discriminate E].
  apply (capability_version_stable linux_host linux_platform "a" KindLocal wasm_response free
           (Some "credential") (observed_at 0) (observed_at 7)); [vm_compute; reflexivity|exact E].
Defined.

Lemma platform_round_trip_witness : parse_platform (platform_label linux_platform) = Some linux_platform.
Proof. apply (platform_round_trip "" linux_platform); vm_compute; reflexivity. Defined.
