(* ===== verification/Matching.v ===== *)
(** Matching: a provider is compatible with a set of requirements, or it is
    incompatible for specific reasons
    (src/crates/compute-placement/src/matching.rs and the data of
    requirements.rs).

    [match_provider] pushes reasons dimension by dimension; here every dimension
    is a definition that returns its reasons, in the source's order. *)

From S2P Require Import Prelude Text Core Isolation Policy Descriptor.

(** ** Requirements *)

Record RuntimeRequirement : Type := {
  rr_kind : RuntimeKind;
  rr_version : option string;
  rr_artifact_id : option string;
}.

Record DistributionRequirement : Type := {
  dr_id : string;
}.

Record DependencyRequirement : Type := {
  dep_id : string;
  dep_format : string;
  dep_embedded : bool;
  dep_runtime_version : option string;
  dep_platform : option PlatformIdentity;
}.

Record ResourceRequirement : Type := {
  need_cpu_count : option N;
  need_memory_bytes : option N;
  need_memory_limit_bytes : option N;
  need_disk_bytes : option N;
  need_timeout_ms : option N;
  need_cpu_time_ms : option N;
  need_process_count : option N;
  need_stdout_bytes : option N;
  need_stderr_bytes : option N;
}.

(** [ResourceRequirement::to_limits] *)
Definition to_limits (r : ResourceRequirement) : ResourceLimits :=
  {| rl_cpu_count := need_cpu_count r;
     rl_memory_required_bytes := None;
     rl_memory_bytes := need_memory_limit_bytes r;
     rl_disk_bytes := need_disk_bytes r;
     rl_cpu_time := from_millis <$> need_cpu_time_ms r;
     rl_wall_time := from_millis <$> need_timeout_ms r;
     rl_process_count := need_process_count r;
     rl_stdout_bytes := need_stdout_bytes r;
     rl_stderr_bytes := need_stderr_bytes r |}.

Inductive SubmissionMode : Type := Synchronous | Job | Deployment | Session.

Record ArtifactRequirement : Type := {
  art_mode : string;
  art_request_bytes : N;
  art_output_bytes : option N;
  art_submission : SubmissionMode;
}.

Record PlacementRequirements : Type := {
  requirements_version : string;
  pr_runtime : RuntimeRequirement;
  pr_additional_runtimes : list RuntimeRequirement;
  pr_distribution : option DistributionRequirement;
  pr_dependencies : option DependencyRequirement;
  pr_isolation : IsolationProfile;
  pr_host : HostProfile;
  pr_network : NetworkPolicy;
  pr_resources : ResourceRequirement;
  pr_platform : option PlatformIdentity;
  pr_architecture : option string;
  pr_artifact : ArtifactRequirement;
  pr_session_capabilities : list string;
  pr_target_features : list string;
}.

#[export] Instance RuntimeRequirement_eq_dec : EqDecision RuntimeRequirement.
Proof. solve_decision. Defined.
#[export] Instance DistributionRequirement_eq_dec : EqDecision DistributionRequirement.
Proof. solve_decision. Defined.
#[export] Instance DependencyRequirement_eq_dec : EqDecision DependencyRequirement.
Proof. solve_decision. Defined.
#[export] Instance ResourceRequirement_eq_dec : EqDecision ResourceRequirement.
Proof. solve_decision. Defined.
#[export] Instance SubmissionMode_eq_dec : EqDecision SubmissionMode.
Proof. solve_decision. Defined.
#[export] Instance ArtifactRequirement_eq_dec : EqDecision ArtifactRequirement.
Proof. solve_decision. Defined.
#[export] Instance PlacementRequirements_eq_dec : EqDecision PlacementRequirements.
Proof. solve_decision. Defined.

(** ** Reasons *)

Inductive ReasonCode : Type :=
| RuntimeUnsupported | RuntimeUnavailable | RuntimeVersionMismatch | RuntimeArtifactMismatch
| DistributionMismatch | PlatformMismatch | ArchitectureMismatch
| DependencyFormatUnsupported | DependencyCapsuleMissing | DependencyCapsuleMismatch
| DependencyRuntimeMismatch | DependencyPlatformMismatch
| IsolationUnsupported | NetworkUnsupported
| TimeoutUnenforceable | TimeoutExceedsLimit | MemoryUnenforceable | MemoryExceedsLimit
| CpuUnavailable | MemoryUnavailable | DiskUnavailable
| CpuLimitUnenforceable | ProcessLimitUnenforceable | OutputLimitUnenforceable
| ArtifactModeUnsupported | ArtifactTooLarge | OutputExceedsLimit
| JobsUnsupported | DeploymentUnsupported | RunUnsupported
| SessionsUnsupported | SessionCapabilityUnsupported | TargetFeatureUnsupported.

Module ReasonCode.
Definition dimension (code : ReasonCode) : string :=
  match code with
  | RuntimeUnsupported | RuntimeUnavailable | RuntimeVersionMismatch
  | RuntimeArtifactMismatch => "runtime"
  | DistributionMismatch => "distribution"
  | PlatformMismatch | ArchitectureMismatch => "platform"
  | DependencyFormatUnsupported | DependencyCapsuleMissing | DependencyCapsuleMismatch
  | DependencyRuntimeMismatch | DependencyPlatformMismatch => "dependencies"
  | IsolationUnsupported => "isolation"
  | NetworkUnsupported => "network"
  | TimeoutUnenforceable | TimeoutExceedsLimit | MemoryUnenforceable | MemoryExceedsLimit
  | CpuUnavailable | MemoryUnavailable | DiskUnavailable | CpuLimitUnenforceable
  | ProcessLimitUnenforceable | OutputLimitUnenforceable => "resources"
  | ArtifactModeUnsupported | ArtifactTooLarge | OutputExceedsLimit => "artifact"
  | DeploymentUnsupported | RunUnsupported | JobsUnsupported | SessionsUnsupported => "execution"
  | SessionCapabilityUnsupported => "session"
  | TargetFeatureUnsupported => "target"
  end.

(** The declaration order, which the derived [Ord] compares. *)
Definition ALL : list ReasonCode :=
  [RuntimeUnsupported; RuntimeUnavailable; RuntimeVersionMismatch; RuntimeArtifactMismatch;
   DistributionMismatch; PlatformMismatch; ArchitectureMismatch;
   DependencyFormatUnsupported; DependencyCapsuleMissing; DependencyCapsuleMismatch;
   DependencyRuntimeMismatch; DependencyPlatformMismatch;
   IsolationUnsupported; NetworkUnsupported;
   TimeoutUnenforceable; TimeoutExceedsLimit; MemoryUnenforceable; MemoryExceedsLimit;
   CpuUnavailable; MemoryUnavailable; DiskUnavailable;
   CpuLimitUnenforceable; ProcessLimitUnenforceable; OutputLimitUnenforceable;
   ArtifactModeUnsupported; ArtifactTooLarge; OutputExceedsLimit;
   JobsUnsupported; DeploymentUnsupported; RunUnsupported;
   SessionsUnsupported; SessionCapabilityUnsupported; TargetFeatureUnsupported].

Definition position (code : ReasonCode) : N :=
  match code with
  | RuntimeUnsupported => 0 | RuntimeUnavailable => 1 | RuntimeVersionMismatch => 2
  | RuntimeArtifactMismatch => 3 | DistributionMismatch => 4 | PlatformMismatch => 5
  | ArchitectureMismatch => 6 | DependencyFormatUnsupported => 7 | DependencyCapsuleMissing => 8
  | DependencyCapsuleMismatch => 9 | DependencyRuntimeMismatch => 10 | DependencyPlatformMismatch => 11
  | IsolationUnsupported => 12 | NetworkUnsupported => 13 | TimeoutUnenforceable => 14
  | TimeoutExceedsLimit => 15 | MemoryUnenforceable => 16 | MemoryExceedsLimit => 17
  | CpuUnavailable => 18 | MemoryUnavailable => 19 | DiskUnavailable => 20
  | CpuLimitUnenforceable => 21 | ProcessLimitUnenforceable => 22 | OutputLimitUnenforceable => 23
  | ArtifactModeUnsupported => 24 | ArtifactTooLarge => 25 | OutputExceedsLimit => 26
  | JobsUnsupported => 27 | DeploymentUnsupported => 28 | RunUnsupported => 29
  | SessionsUnsupported => 30 | SessionCapabilityUnsupported => 31 | TargetFeatureUnsupported => 32
  end.

(** The serialized name: [rename_all = "snake_case"]. *)
Definition as_str (code : ReasonCode) : string :=
  match code with
  | RuntimeUnsupported => "runtime_unsupported"
  | RuntimeUnavailable => "runtime_unavailable"
  | RuntimeVersionMismatch => "runtime_version_mismatch"
  | RuntimeArtifactMismatch => "runtime_artifact_mismatch"
  | DistributionMismatch => "distribution_mismatch"
  | PlatformMismatch => "platform_mismatch"
  | ArchitectureMismatch => "architecture_mismatch"
  | DependencyFormatUnsupported => "dependency_format_unsupported"
  | DependencyCapsuleMissing => "dependency_capsule_missing"
  | DependencyCapsuleMismatch => "dependency_capsule_mismatch"
  | DependencyRuntimeMismatch => "dependency_runtime_mismatch"
  | DependencyPlatformMismatch => "dependency_platform_mismatch"
  | IsolationUnsupported => "isolation_unsupported"
  | NetworkUnsupported => "network_unsupported"
  | TimeoutUnenforceable => "timeout_unenforceable"
  | TimeoutExceedsLimit => "timeout_exceeds_limit"
  | MemoryUnenforceable => "memory_unenforceable"
  | MemoryExceedsLimit => "memory_exceeds_limit"
  | CpuUnavailable => "cpu_unavailable"
  | MemoryUnavailable => "memory_unavailable"
  | DiskUnavailable => "disk_unavailable"
  | CpuLimitUnenforceable => "cpu_limit_unenforceable"
  | ProcessLimitUnenforceable => "process_limit_unenforceable"
  | OutputLimitUnenforceable => "output_limit_unenforceable"
  | ArtifactModeUnsupported => "artifact_mode_unsupported"
  | ArtifactTooLarge => "artifact_too_large"
  | OutputExceedsLimit => "output_exceeds_limit"
  | JobsUnsupported => "jobs_unsupported"
  | DeploymentUnsupported => "deployment_unsupported"
  | RunUnsupported => "run_unsupported"
  | SessionsUnsupported => "sessions_unsupported"
  | SessionCapabilityUnsupported => "session_capability_unsupported"
  | TargetFeatureUnsupported => "target_feature_unsupported"
  end.
End ReasonCode.

Lemma reason_position_lookup code : ReasonCode.ALL !! N.to_nat (ReasonCode.position code) = Some code.
Proof. by destruct code. Qed.
#[export] Instance reason_position_inj : Inj (=) (=) ReasonCode.position.
Proof.
  intros x y Heq. pose proof (reason_position_lookup x) as Hx.
  rewrite Heq, reason_position_lookup in Hx. by injection Hx.
Qed.
#[export] Instance ReasonCode_eq_dec : EqDecision ReasonCode := λ x y,
  match decide (ReasonCode.position x = ReasonCode.position y) with
  | left e => left (inj ReasonCode.position x y e)
  | right n => right (λ e, n (f_equal ReasonCode.position e))
  end.
#[export] Instance ReasonCode_ord : Ord ReasonCode := ord_by ReasonCode.position.
#[export] Instance ReasonCode_ord_laws : OrdLaws ReasonCode := ord_by_laws ReasonCode.position.

Record IncompatibilityReason : Type := {
  ir_code : ReasonCode;
  ir_dimension : string;
  ir_required : Value;
  ir_available : Value;
  ir_detail : option string;
}.

#[export] Instance IncompatibilityReason_eq_dec : EqDecision IncompatibilityReason.
Proof. solve_decision. Defined.

Record CapabilityMatch : Type := {
  compatible : bool;
  match_reasons : list IncompatibilityReason;
}.

#[export] Instance CapabilityMatch_eq_dec : EqDecision CapabilityMatch.
Proof. solve_decision. Defined.

(** [CapabilityMatch::codes] *)
Definition codes (m : CapabilityMatch) : list ReasonCode := ir_code <$> match_reasons m.

(** [Reasons::push] *)
Definition reason (code : ReasonCode) (required available : Value) (detail : option string)
    : IncompatibilityReason :=
  {| ir_code := code; ir_dimension := ReasonCode.dimension code; ir_required := required;
     ir_available := available; ir_detail := detail |}.

Definition push_if (b : bool) (code : ReasonCode) (required available : Value)
    (detail : option string) : list IncompatibilityReason :=
  if b then [reason code required available detail] else [].

(** ** The dimensions *)

Definition offered_runtimes (d : ProviderDescriptor) : list RuntimeKind := offer_kind <$> runtimes d.

(** [match_runtime] *)
Definition match_runtime (requirement : RuntimeRequirement) (d : ProviderDescriptor)
    : list IncompatibilityReason :=
  let kind := rr_kind requirement in
  match runtime d kind with
  | None =>
      if bool_decide (kind ∈ unavailable_runtimes d) then
        [reason RuntimeUnavailable (json kind) (json (offered_runtimes d))
           (Some (RuntimeKind.as_str kind +:+ " is installed but not currently executable"))]
      else [reason RuntimeUnsupported (json kind) (json (offered_runtimes d)) None]
  | Some offer =>
      match rr_version requirement with
      | Some version =>
          push_if (negb (runtime_version_matches kind version (effective_version offer)))
            RuntimeVersionMismatch (json version) (json (effective_version offer)) None
      | None => []
      end ++
      match rr_artifact_id requirement with
      | Some artifact =>
          push_if (negb (bool_decide (offer_artifact_id offer = Some artifact)))
            RuntimeArtifactMismatch (json artifact) (json (offer_artifact_id offer)) None
      | None => []
      end
  end.

Definition match_distribution (r : PlacementRequirements) (d : ProviderDescriptor)
    : list IncompatibilityReason :=
  match pr_distribution r with
  | Some required =>
      push_if (negb (bool_decide (offered_id (distribution d) = Some (dr_id required))))
        DistributionMismatch (json (dr_id required)) (json (offered_id (distribution d))) None
  | None => []
  end.

(** [architecture_matches] *)
Definition canonical_architecture (value : string) : string :=
  let value := to_ascii_lowercase value in
  if String.eqb value "arm64" || String.eqb value "aarch64" then "arm64"
  else if String.eqb value "x86_64" || String.eqb value "amd64" then "x86_64"
  else value.

Definition architecture_matches (required available : string) : bool :=
  String.eqb (canonical_architecture required) (canonical_architecture available).

Definition match_platform (r : PlacementRequirements) (d : ProviderDescriptor)
    : list IncompatibilityReason :=
  let provider := offered_platform (distribution d) in
  match pr_platform r with
  | Some platform =>
      push_if (negb (String.eqb (os platform) (os provider)))
        PlatformMismatch (json (os platform)) (json (os provider)) None ++
      push_if (negb (String.eqb (architecture platform) (architecture provider)))
        ArchitectureMismatch (json (architecture platform)) (json (architecture provider)) None
  | None => []
  end ++
  match pr_architecture r with
  | Some required =>
      push_if (negb (architecture_matches required (architecture provider)))
        ArchitectureMismatch (json required) (json (architecture provider)) None
  | None => []
  end.

(** The capsule itself: its format, and how the provider gets it. *)
Definition match_capsule (support : DependencyCapsuleSupport) (dep : DependencyRequirement)
    : list IncompatibilityReason :=
  let held := bool_decide (dep_id dep ∈ resident support) in
  if negb (bool_decide (dep_format dep ∈ formats support)) then
    [reason DependencyFormatUnsupported (json (dep_format dep)) (json (formats support)) None]
  else if negb (held || (dep_embedded dep && transfer support)) then
    [reason (match resident support with
             | [] => DependencyCapsuleMissing
             | _ => DependencyCapsuleMismatch
             end)
       (json (dep_id dep)) (json (resident support))
       (Some "the capsule is neither embedded for transfer nor resident at the provider")]
  else [].

Definition match_dependencies (r : PlacementRequirements) (d : ProviderDescriptor)
    (offer : option RuntimeOffer) : list IncompatibilityReason :=
  let provider := offered_platform (distribution d) in
  let kind := RuntimeKind.as_str (rr_kind (pr_runtime r)) in
  match pr_dependencies r with
  | None => []
  | Some dep =>
      match_capsule (dependency_capsules d) dep ++
      match dep_platform dep with
      | Some platform =>
          push_if (negb (String.eqb (os platform) (os provider)) ||
                   negb (String.eqb (architecture platform) (architecture provider)))
            DependencyPlatformMismatch (json (platform_label platform)) (json (platform_label provider))
            None
      | None => []
      end ++
      match dep_runtime_version dep, offer with
      | Some version, Some offer =>
          push_if (negb (same_runtime_version version (effective_version offer)))
            DependencyRuntimeMismatch (json (kind +:+ "@" +:+ version))
            (json (kind +:+ "@" +:+ effective_version offer)) None
      | _, _ => []
      end
  end.

(** [host_offered] *)
Definition host_offered (offer : RuntimeOffer) (r : PlacementRequirements) : bool :=
  negb (HostProfile.is_trusted (pr_host r)) &&
  bool_decide (pr_host r ∈ cap_host_profiles (offer_capabilities offer)).

Definition match_isolation (r : PlacementRequirements) (d : ProviderDescriptor)
    (offer : option RuntimeOffer) : list IncompatibilityReason :=
  push_if (negb (bool_decide (pr_isolation r ∈ isolation_profiles d)))
    IsolationUnsupported (json (pr_isolation r)) (json (isolation_profiles d))
    (Some "the provider does not offer this isolation profile") ++
  match offer with
  | Some offer =>
      push_if (negb (HostProfile.is_trusted (pr_host r)) &&
               negb (bool_decide (pr_host r ∈ cap_host_profiles (offer_capabilities offer))))
        IsolationUnsupported (json (pr_host r)) (json (cap_host_profiles (offer_capabilities offer)))
        (Some (RuntimeKind.as_str (rr_kind (pr_runtime r))
               +:+ " on this provider cannot run under host isolation "
               +:+ HostProfile.as_str (pr_host r)))
  | None => []
  end.

Definition match_network (r : PlacementRequirements) (d : ProviderDescriptor)
    (offer : option RuntimeOffer) : list IncompatibilityReason :=
  if negb (bool_decide (pr_network r ∈ network_capabilities d)) then
    [reason NetworkUnsupported (json (pr_network r)) (json (network_capabilities d))
       (Some "the provider does not offer this network policy")]
  else match offer with
  | Some offer =>
      push_if (negb (bool_decide (pr_network r ∈ offer_network_policies offer)) &&
               negb (host_offered offer r))
        NetworkUnsupported (json (pr_network r)) (json (offer_network_policies offer))
        (Some (RuntimeKind.as_str (rr_kind (pr_runtime r)) +:+ " cannot enforce this network policy"))
  | None => []
  end.

(** A requirement against the provider's capacity. *)
Definition match_capacity (code : ReasonCode) (required : option N) (total : N)
    (what unit_ : string) : list IncompatibilityReason :=
  match required with
  | Some value =>
      push_if (N.ltb total value) code (json value) (Object [("capacity", json total)])
        (Some (what +:+ " requires " +:+ show value +:+ unit_ +:+ ", provider capacity is "
               +:+ show total +:+ unit_))
  | None => []
  end.

Definition match_bound (code : ReasonCode) (required maximum : option N) : list IncompatibilityReason :=
  match required, maximum with
  | Some value, Some maximum => push_if (N.ltb maximum value) code (json value) (json maximum) None
  | _, _ => []
  end.

(** A limit the runtime of the offer cannot enforce. *)
Definition match_enforced (code : ReasonCode) (required : option N) (offer : option RuntimeOffer)
    (enforceable : RuntimeOffer → bool) (detail : option string) : list IncompatibilityReason :=
  match required, offer with
  | Some value, Some offer => push_if (negb (enforceable offer)) code (json value) Null detail
  | _, _ => []
  end.

Definition match_resources (r : PlacementRequirements) (d : ProviderDescriptor)
    (offer : option RuntimeOffer) : list IncompatibilityReason :=
  let need := pr_resources r in
  let limits := resource_capabilities d in
  let total := capacity (resources d) in
  let hosted (supported : RuntimeCapabilities → bool) offer :=
    supported (offer_capabilities offer) || host_offered offer r in
  match_capacity CpuUnavailable (need_cpu_count need) (rv_cpu_count total) "cpu" "" ++
  match_capacity MemoryUnavailable (need_memory_bytes need) (rv_memory_bytes total) "memory" " bytes" ++
  match_capacity DiskUnavailable (need_disk_bytes need) (rv_disk_bytes total) "disk" " bytes" ++
  match_bound TimeoutExceedsLimit (need_timeout_ms need) (offered_max_timeout_ms limits) ++
  match_enforced TimeoutUnenforceable (need_timeout_ms need) offer
    (λ offer, cap_timeout (offer_capabilities offer)) None ++
  match_bound MemoryExceedsLimit (need_memory_limit_bytes need) (offered_max_memory_bytes limits) ++
  match_enforced MemoryUnenforceable (need_memory_limit_bytes need) offer (hosted cap_memory_limit)
    (Some (RuntimeKind.as_str (rr_kind (pr_runtime r)) +:+ " cannot enforce a memory limit")) ++
  match_enforced CpuLimitUnenforceable (need_cpu_time_ms need) offer (hosted cap_cpu_limit) None ++
  match_enforced ProcessLimitUnenforceable (need_process_count need) offer (hosted cap_process_limit)
    None ++
  match offer with
  | Some offer =>
      push_if ((is_some (need_stdout_bytes need) && negb (cap_stdout_limit (offer_capabilities offer)))
               || (is_some (need_stderr_bytes need) && negb (cap_stderr_limit (offer_capabilities offer))))
        OutputLimitUnenforceable
        (Object [("stderr_bytes", json (need_stderr_bytes need));
                 ("stdout_bytes", json (need_stdout_bytes need))]) Null None
  | None => []
  end.

Definition rejection_detail (rejection : IsolationRejection) : string :=
  rejection_code rejection +:+ ": " +:+ rejection_message rejection.

Section matching.
Context (host : HostCapabilities).

(** The request the requirements stand for, without its inputs. *)
Definition request_of (r : PlacementRequirements) : ExecutionRequest :=
  probe_on_host (rr_kind (pr_runtime r)) (pr_isolation r) (pr_host r) (pr_network r)
    (to_limits (pr_resources r)).

(** Runtime-level isolation, on its own. *)
Definition match_runtime_isolation (r : PlacementRequirements) (d : ProviderDescriptor)
    (offer : RuntimeOffer) : list IncompatibilityReason :=
  let kind := rr_kind (pr_runtime r) in
  push_if (bool_decide (pr_isolation r ∈ isolation_profiles d) &&
           negb (bool_decide (pr_isolation r ∈ offer_isolation_profiles offer)))
    IsolationUnsupported (json (pr_isolation r)) (json (offer_isolation_profiles offer))
    (rejection_detail <$>
       (network ← head (offer_network_policies offer);
        match resolve_isolation host (offer_capabilities offer) kind
                (probe kind (pr_isolation r) network default_limits) with
        | Err rejection => Some rejection
        | Ok _ => None
        end)).

(** The safety net: the complete request, resolved as execution resolves it. *)
Definition match_request (r : PlacementRequirements) (offer : RuntimeOffer)
    : list IncompatibilityReason :=
  match resolve_isolation host (offer_capabilities offer) (rr_kind (pr_runtime r)) (request_of r) with
  | Ok _ => []
  | Err rejection =>
      [reason IsolationUnsupported (json (pr_isolation r)) (json (offer_isolation_profiles offer))
         (Some (rejection_detail rejection))]
  end.

Definition match_artifact (r : PlacementRequirements) (d : ProviderDescriptor)
    : list IncompatibilityReason :=
  let artifact := pr_artifact r in
  let transport := artifact_limits d in
  push_if (negb (bool_decide (art_mode artifact ∈ modes transport)))
    ArtifactModeUnsupported (json (art_mode artifact)) (json (modes transport)) None ++
  push_if (N.ltb (max_request_bytes transport) (art_request_bytes artifact))
    ArtifactTooLarge (json (art_request_bytes artifact)) (json (max_request_bytes transport)) None ++
  match art_output_bytes artifact with
  | Some output =>
      push_if (N.ltb (limit_output_bytes transport) output)
        OutputExceedsLimit (json output) (json (limit_output_bytes transport)) None
  | None => []
  end.

Definition offered_modes (transport : ArtifactLimits) : list string :=
  (if accepts_run transport then ["run"] else []) ++
  (if accepts_jobs transport then ["jobs"] else []) ++
  (if accepts_deployments transport then ["deployments"] else []) ++
  (if accepts_sessions transport then ["sessions"] else []).

Definition match_mode (r : PlacementRequirements) (d : ProviderDescriptor)
    : list IncompatibilityReason :=
  let transport := artifact_limits d in
  let '(accepted, code, required, detail) :=
    match art_submission (pr_artifact r) with
    | Synchronous => (accepts_run transport, RunUnsupported, "run",
                      "the provider does not run workloads on request")
    | Job => (accepts_jobs transport, JobsUnsupported, "jobs",
              "the provider does not accept durable asynchronous jobs")
    | Deployment => (accepts_deployments transport, DeploymentUnsupported, "deployments",
                     "the provider does not host application deployments")
    | Session => (accepts_sessions transport, SessionsUnsupported, "sessions",
                  "the provider does not host sessions")
    end in
  push_if (negb accepted) code (json required) (json (offered_modes transport)) (Some detail).

Definition match_session (r : PlacementRequirements) (d : ProviderDescriptor)
    : list IncompatibilityReason :=
  if bool_decide (art_submission (pr_artifact r) = Session) && accepts_sessions (artifact_limits d)
  then
    let offered := default SessionCapabilities.default_ (sessions_offered d) in
    let missing := SessionCapabilities.missing offered (pr_session_capabilities r) in
    push_if (negb (bool_decide (missing = []))) SessionCapabilityUnsupported (json missing)
      (json (fst <$> filter (λ entry, snd entry = true) (SessionCapabilities.entries offered)))
      (Some "the provider's session environments do not offer these")
  else [].

Definition match_features (r : PlacementRequirements) (d : ProviderDescriptor)
    : list IncompatibilityReason :=
  let missing := filter (λ feature, feature ∉ target_features d) (pr_target_features r) in
  push_if (negb (bool_decide (missing = []))) TargetFeatureUnsupported (json missing)
    (json (target_features d)) (Some "the target does not report these machine features").

(** The reasons found before the safety net. *)
Definition reasons_before (r : PlacementRequirements) (d : ProviderDescriptor)
    : list IncompatibilityReason :=
  let offer := runtime d (rr_kind (pr_runtime r)) in
  match_runtime (pr_runtime r) d ++
  (pr_additional_runtimes r ≫= λ requirement, match_runtime requirement d) ++
  match_distribution r d ++ match_platform r d ++ match_dependencies r d offer ++
  match_isolation r d offer ++ match_network r d offer ++ match_resources r d offer ++
  from_option (match_runtime_isolation r d) [] offer.

Definition all_reasons (r : PlacementRequirements) (d : ProviderDescriptor)
    : list IncompatibilityReason :=
  let before := reasons_before r d in
  before ++
  match runtime d (rr_kind (pr_runtime r)), before with
  | Some offer, [] => match_request r offer
  | _, _ => []
  end ++
  match_artifact r d ++ match_mode r d ++ match_session r d ++ match_features r d.

(** [match_provider] *)
Definition match_provider (r : PlacementRequirements) (d : ProviderDescriptor) : CapabilityMatch :=
  let found := dedup (sort_by (λ l r, cmp (ir_code l) (ir_code r)) (all_reasons r d)) in
  {| compatible := bool_decide (found = []); match_reasons := found |}.
End matching.

(** ** What compatibility means *)

(** A runtime requirement an offer of the descriptor meets. *)
Definition offers_runtime (d : ProviderDescriptor) (requirement : RuntimeRequirement)
    (offer : RuntimeOffer) : Prop :=
  runtime d (rr_kind requirement) = Some offer ∧
  (∀ version, rr_version requirement = Some version →
     runtime_version_matches (rr_kind requirement) version (effective_version offer) = true) ∧
  (∀ artifact, rr_artifact_id requirement = Some artifact → offer_artifact_id offer = Some artifact).

(** The submission is one the provider accepts. *)
Definition accepts (transport : ArtifactLimits) (mode : SubmissionMode) : bool :=
  match mode with
  | Synchronous => accepts_run transport
  | Job => accepts_jobs transport
  | Deployment => accepts_deployments transport
  | Session => accepts_sessions transport
  end.

(** A dependency capsule the provider can use: its format is supported, the
    capsule is held already or travels with the workload, and it was built for
    the provider's platform and runtime version. *)
Definition serves_dependency (d : ProviderDescriptor) (offer : RuntimeOffer)
    (dep : DependencyRequirement) : Prop :=
  dep_format dep ∈ formats (dependency_capsules d) ∧
  (dep_id dep ∈ resident (dependency_capsules d) ∨
   dep_embedded dep = true ∧ transfer (dependency_capsules d) = true) ∧
  (∀ platform, dep_platform dep = Some platform →
     os platform = os (offered_platform (distribution d)) ∧
     architecture platform = architecture (offered_platform (distribution d))) ∧
  (∀ version, dep_runtime_version dep = Some version →
     same_runtime_version version (effective_version offer) = true).

Definition fits (required : option N) (total : N) : Prop := ∀ v, required = Some v → (v ≤ total)%N.
Definition under (required maximum : option N) : Prop :=
  ∀ v m, required = Some v → maximum = Some m → (v ≤ m)%N.

(** What a compatible provider serves. The limits and boundaries a runtime must
    enforce are the last clause: the function execution itself uses accepts the
    request. *)
Record Serves (host : HostCapabilities) (r : PlacementRequirements) (d : ProviderDescriptor)
    (offer : RuntimeOffer) : Prop := {
  serves_runtime : offers_runtime d (pr_runtime r) offer;
  serves_additional requirement :
    requirement ∈ pr_additional_runtimes r → ∃ other, offers_runtime d requirement other;
  serves_distribution required :
    pr_distribution r = Some required → offered_id (distribution d) = Some (dr_id required);
  serves_platform platform : pr_platform r = Some platform →
    os platform = os (offered_platform (distribution d)) ∧
    architecture platform = architecture (offered_platform (distribution d));
  serves_architecture required : pr_architecture r = Some required →
    canonical_architecture required = canonical_architecture (architecture (offered_platform (distribution d)));
  serves_dependencies dep : pr_dependencies r = Some dep → serves_dependency d offer dep;
  serves_isolation : pr_isolation r ∈ isolation_profiles d;
  serves_host : pr_host r ≠ Trusted → pr_host r ∈ cap_host_profiles (offer_capabilities offer);
  serves_network : pr_network r ∈ network_capabilities d;
  serves_cpu : fits (need_cpu_count (pr_resources r)) (rv_cpu_count (capacity (resources d)));
  serves_memory : fits (need_memory_bytes (pr_resources r)) (rv_memory_bytes (capacity (resources d)));
  serves_disk : fits (need_disk_bytes (pr_resources r)) (rv_disk_bytes (capacity (resources d)));
  serves_timeout : under (need_timeout_ms (pr_resources r))
    (offered_max_timeout_ms (resource_capabilities d));
  serves_memory_limit : under (need_memory_limit_bytes (pr_resources r))
    (offered_max_memory_bytes (resource_capabilities d));
  serves_mode : art_mode (pr_artifact r) ∈ modes (artifact_limits d);
  serves_request : (art_request_bytes (pr_artifact r) ≤ max_request_bytes (artifact_limits d))%N;
  serves_output : fits (art_output_bytes (pr_artifact r)) (limit_output_bytes (artifact_limits d));
  serves_submission : accepts (artifact_limits d) (art_submission (pr_artifact r)) = true;
  serves_session name :
    art_submission (pr_artifact r) = Session → name ∈ pr_session_capabilities r →
    SessionCapabilities.get (default SessionCapabilities.default_ (sessions_offered d)) name = Some true;
  serves_features feature : feature ∈ pr_target_features r → feature ∈ target_features d;
  serves_execution :
    is_ok (resolve_isolation host (offer_capabilities offer) (rr_kind (pr_runtime r)) (request_of r))
    = true;
}.

(** ** Each dimension reports nothing exactly when its clause holds *)

Lemma push_if_nil b code required available detail :
  push_if b code required available detail = [] ↔ b = false.
Proof. by destruct b. Qed.

#[export] Hint Rewrite push_if_nil @app_nil negb_false_iff bool_decide_eq_true String.eqb_eq
  orb_true_iff andb_true_iff orb_false_iff N.ltb_ge : reasons.

Lemma match_runtime_nil requirement d :
  match_runtime requirement d = [] ↔ ∃ offer, offers_runtime d requirement offer.
Proof.
  unfold match_runtime, offers_runtime.
  destruct (runtime d (rr_kind requirement)) as [offer|]; [|case_bool_decide; naive_solver].
  destruct (rr_version requirement), (rr_artifact_id requirement); autorewrite with reasons; naive_solver.
Qed.

Lemma match_distribution_nil r d :
  match_distribution r d = [] ↔
  ∀ required, pr_distribution r = Some required → offered_id (distribution d) = Some (dr_id required).
Proof.
  unfold match_distribution. destruct (pr_distribution r); autorewrite with reasons; naive_solver.
Qed.

Lemma match_platform_nil r d :
  match_platform r d = [] ↔
  (∀ platform, pr_platform r = Some platform →
     os platform = os (offered_platform (distribution d)) ∧
     architecture platform = architecture (offered_platform (distribution d))) ∧
  (∀ required, pr_architecture r = Some required →
     canonical_architecture required =
     canonical_architecture (architecture (offered_platform (distribution d)))).
Proof.
  unfold match_platform, architecture_matches.
  destruct (pr_platform r), (pr_architecture r); autorewrite with reasons; naive_solver.
Qed.

Lemma match_capsule_nil support dep :
  match_capsule support dep = [] ↔
  dep_format dep ∈ formats support ∧
  (dep_id dep ∈ resident support ∨ dep_embedded dep = true ∧ transfer support = true).
Proof.
  unfold match_capsule. repeat case_bool_decide; destruct (dep_embedded dep), (transfer support);
    simpl; naive_solver.
Qed.

Lemma match_dependencies_nil r d offer :
  match_dependencies r d (Some offer) = [] ↔
  ∀ dep, pr_dependencies r = Some dep → serves_dependency d offer dep.
Proof.
  unfold match_dependencies, serves_dependency.
  destruct (pr_dependencies r) as [dep|]; [|naive_solver]. rewrite !app_nil, match_capsule_nil.
  transitivity (serves_dependency d offer dep); [unfold serves_dependency|naive_solver].
  destruct (dep_platform dep), (dep_runtime_version dep); autorewrite with reasons; naive_solver.
Qed.

Lemma match_isolation_nil r d offer :
  match_isolation r d (Some offer) = [] ↔
  pr_isolation r ∈ isolation_profiles d ∧
  (pr_host r ≠ Trusted → pr_host r ∈ cap_host_profiles (offer_capabilities offer)).
Proof.
  unfold match_isolation. autorewrite with reasons.
  destruct (pr_host r); simpl; autorewrite with reasons; naive_solver.
Qed.

Lemma host_offered_spec offer r :
  host_offered offer r = true ↔
  pr_host r ≠ Trusted ∧ pr_host r ∈ cap_host_profiles (offer_capabilities offer).
Proof. unfold host_offered. destruct (pr_host r); simpl; autorewrite with reasons; naive_solver. Qed.

Lemma match_network_nil r d offer :
  match_network r d (Some offer) = [] ↔
  pr_network r ∈ network_capabilities d ∧
  (pr_network r ∈ offer_network_policies offer ∨ host_offered offer r = true).
Proof.
  unfold match_network. case_bool_decide; simpl; [|naive_solver]. rewrite push_if_nil.
  case_bool_decide; destruct (host_offered offer r); naive_solver.
Qed.

Lemma match_capacity_nil code required total what unit_ :
  match_capacity code required total what unit_ = [] ↔ fits required total.
Proof.
  unfold match_capacity, fits. destruct required; autorewrite with reasons; naive_solver.
Qed.

Lemma match_bound_nil code required maximum :
  match_bound code required maximum = [] ↔ under required maximum.
Proof.
  unfold match_bound, under. destruct required, maximum; autorewrite with reasons; naive_solver.
Qed.

Lemma match_enforced_nil code required offer enforceable detail :
  match_enforced code required (Some offer) enforceable detail = [] ↔
  (is_Some required → enforceable offer = true).
Proof.
  unfold match_enforced. destruct required; autorewrite with reasons; [|naive_solver].
  split; [done|]. intros H. apply H. eauto.
Qed.

Lemma match_artifact_nil r d :
  match_artifact r d = [] ↔
  art_mode (pr_artifact r) ∈ modes (artifact_limits d) ∧
  (art_request_bytes (pr_artifact r) ≤ max_request_bytes (artifact_limits d))%N ∧
  fits (art_output_bytes (pr_artifact r)) (limit_output_bytes (artifact_limits d)).
Proof.
  unfold match_artifact, fits. autorewrite with reasons.
  destruct (art_output_bytes (pr_artifact r)); autorewrite with reasons; naive_solver.
Qed.

Lemma match_mode_nil r d :
  match_mode r d = [] ↔ accepts (artifact_limits d) (art_submission (pr_artifact r)) = true.
Proof.
  unfold match_mode. destruct (art_submission (pr_artifact r)); autorewrite with reasons; done.
Qed.

Lemma match_session_nil r d :
  accepts (artifact_limits d) (art_submission (pr_artifact r)) = true →
  match_session r d = [] ↔
  ∀ name, art_submission (pr_artifact r) = Session → name ∈ pr_session_capabilities r →
    SessionCapabilities.get (default SessionCapabilities.default_ (sessions_offered d)) name = Some true.
Proof.
  intros Hacc. unfold match_session. case_bool_decide as Hs; simpl; [|naive_solver].
  rewrite Hs in Hacc. simpl in Hacc. rewrite Hacc. autorewrite with reasons.
  unfold SessionCapabilities.missing. rewrite filter_nil. setoid_rewrite Hs.
  split; [|naive_solver]. intros H name _ Hin.
  destruct (decide (SessionCapabilities.get
    (default SessionCapabilities.default_ (sessions_offered d)) name = Some true)); [done|].
  by destruct (H name Hin).
Qed.

Lemma match_features_nil r d :
  match_features r d = [] ↔
  ∀ feature, feature ∈ pr_target_features r → feature ∈ target_features d.
Proof.
  unfold match_features. autorewrite with reasons. rewrite filter_nil.
  split; [|naive_solver]. intros H feature Hin.
  destruct (decide (feature ∈ target_features d)); [done|]. by destruct (H feature Hin).
Qed.

Lemma runtime_Some d kind offer :
  runtime d kind = Some offer → offer ∈ runtimes d ∧ offer_kind offer = kind.
Proof.
  unfold runtime. intros [Hin Heq]%find_some. rewrite bool_decide_eq_true in Heq.
  by rewrite list_elem_of_In.
Qed.

(** ** The per-limit checks against the resolver *)

Section against_execution.
Context (host : HostCapabilities) (r : PlacementRequirements) (d : ProviderDescriptor)
  (offer : RuntimeOffer).
Let caps := offer_capabilities offer.
Let kind := rr_kind (pr_runtime r).

Lemma hosted_trusted hosted dimension :
  host_plan host caps kind (request_of r) = Ok hosted →
  (pr_host r ≠ Trusted → pr_host r ∈ cap_host_profiles caps) →
  enforced hosted dimension = true → host_offered offer r = true.
Proof.
  intros Hplan Hhost Henf. apply host_offered_spec.
  assert (pr_host r ≠ Trusted) as Hne; [|auto].
  intros Htrust. unfold host_plan, request_of, probe_on_host in Hplan. simpl in Hplan.
  rewrite Htrust in Hplan. simpl in Hplan. injection Hplan as <-. done.
Qed.

(** What execution accepts, no check of a single limit rejects. *)
Lemma accepted_resources :
  is_ok (resolve_isolation host caps kind (request_of r)) = true →
  (pr_host r ≠ Trusted → pr_host r ∈ cap_host_profiles caps) →
  match_resources r d (Some offer) = [] ↔
  fits (need_cpu_count (pr_resources r)) (rv_cpu_count (capacity (resources d))) ∧
  fits (need_memory_bytes (pr_resources r)) (rv_memory_bytes (capacity (resources d))) ∧
  fits (need_disk_bytes (pr_resources r)) (rv_disk_bytes (capacity (resources d))) ∧
  under (need_timeout_ms (pr_resources r)) (offered_max_timeout_ms (resource_capabilities d)) ∧
  under (need_memory_limit_bytes (pr_resources r)) (offered_max_memory_bytes (resource_capabilities d)).
Proof.
  rewrite is_ok_spec. setoid_rewrite resolve_isolation_inv. intros (_ & (hosted & Hsat & _) & _) Hhost.
  destruct Hsat as [_ Hplan _ Htime Hout Herr Hmem Hcpu Hproc]. simpl in *.
  unfold match_resources. rewrite !app_nil, !match_capacity_nil, !match_bound_nil,
    !match_enforced_nil, push_if_nil, !orb_true_iff.
  assert (∀ supported (required : option N),
    (is_Some required → supported = true ∨ ∃ dimension, enforced hosted dimension = true) →
    is_Some required → supported = true ∨ host_offered offer r = true) as Hor.
  { intros supported required H [?|[dimension ?]]%H; [by left|right]. by eapply hosted_trusted. }
  rewrite orb_false_iff, !andb_false_iff, !negb_false_iff. rewrite !fmap_is_Some in *.
  split; [naive_solver|]. intros. destruct_and!. split_and!; try done.
  - apply Hor. naive_solver.
  - apply Hor. naive_solver.
  - apply Hor. naive_solver.
  - rewrite <-not_true_iff_false, is_some_spec. fold caps. destruct (need_stdout_bytes (pr_resources r));
      [right; apply Hout; eauto|left; by intros []].
  - rewrite <-not_true_iff_false, is_some_spec. fold caps. destruct (need_stderr_bytes (pr_resources r));
      [right; apply Herr; eauto|left; by intros []].
Qed.

Context (Hsound : SoundOffer host offer).

Lemma accepted_network :
  is_ok (resolve_isolation host caps kind (request_of r)) = true →
  (pr_host r ≠ Trusted → pr_host r ∈ cap_host_profiles caps) →
  match_network r d (Some offer) = [] ↔ pr_network r ∈ network_capabilities d.
Proof using Hsound.
  rewrite is_ok_spec. setoid_rewrite resolve_isolation_inv. intros (_ & (hosted & Hsat & _) & _) Hhost.
  rewrite match_network_nil. split; [by intros [? _]|]. split; [done|].
  destruct (sat_network _ _ _ _ _ Hsat) as [Hnet|Henf].
  - left. by apply (sound_network _ _ Hsound).
  - right. eapply hosted_trusted; [apply (sat_host _ _ _ _ _ Hsat)|done|done].
Qed.

(** A profile the full request resolves at is one the offer lists. *)
Lemma accepted_isolation :
  is_ok (resolve_isolation host caps kind (request_of r)) = true →
  match_runtime_isolation host r d offer = [].
Proof using Hsound.
  rewrite is_ok_spec. setoid_rewrite resolve_isolation_inv.
  intros (_ & (hosted & Hsat & _) & Hstrong & Hstrict).
  unfold match_runtime_isolation. apply push_if_nil, andb_false_iff. right.
  apply negb_false_iff, bool_decide_eq_true, (sound_isolation _ _ Hsound).
  destruct (sound_network _ _ Hsound) as [Hne Hin].
  destruct (offer_network_policies offer) as [|network networks] eqn:E; [done|].
  assert (network ∈ network :: networks) as Hnetwork by set_solver.
  eexists network, _. split; [done|]. apply resolve_isolation_inv. split; [|split].
  - exists None. split; [|reflexivity]. split; simpl; try done; try (by intros []).
    left. by apply Hin.
  - intros. by apply Hstrong.
  - done.
Qed.
End against_execution.

(** ** Compatibility is service *)

Section compatibility.
Context (host : HostCapabilities).

Lemma match_request_nil r offer :
  match_request host r offer = [] ↔
  is_ok (resolve_isolation host (offer_capabilities offer) (rr_kind (pr_runtime r)) (request_of r)) = true.
Proof. unfold match_request. by destruct (resolve_isolation _ _ _ _). Qed.

Lemma compatible_reasons r d : compatible (match_provider host r d) = true ↔ all_reasons host r d = [].
Proof. unfold match_provider; simpl. by rewrite bool_decide_eq_true, dedup_nil, sort_by_nil. Qed.

(** Nothing was reported: the safety net has run. *)
Lemma all_reasons_nil r d :
  all_reasons host r d = [] ↔
  reasons_before host r d = [] ∧
  (∀ offer, runtime d (rr_kind (pr_runtime r)) = Some offer → match_request host r offer = []) ∧
  match_artifact r d = [] ∧ match_mode r d = [] ∧ match_session r d = [] ∧ match_features r d = [].
Proof.
  unfold all_reasons. rewrite !app_nil. split.
  - intros (Hb & Hnet & ?). rewrite Hb in Hnet. split; [done|]. split; [|done].
    intros offer Ho. by rewrite Ho in Hnet.
  - intros (Hb & Hnet & ?). rewrite Hb. split; [done|]. split; [|done].
    destruct (runtime d (rr_kind (pr_runtime r))) as [offer|]; [by apply Hnet|done].
Qed.

Lemma reasons_before_nil r d :
  reasons_before host r d = [] ↔
  ∃ offer, runtime d (rr_kind (pr_runtime r)) = Some offer ∧
    offers_runtime d (pr_runtime r) offer ∧
    (∀ requirement, requirement ∈ pr_additional_runtimes r → ∃ other, offers_runtime d requirement other) ∧
    match_distribution r d = [] ∧ match_platform r d = [] ∧
    match_dependencies r d (Some offer) = [] ∧ match_isolation r d (Some offer) = [] ∧
    match_network r d (Some offer) = [] ∧ match_resources r d (Some offer) = [] ∧
    match_runtime_isolation host r d offer = [].
Proof.
  unfold reasons_before. rewrite !app_nil, match_runtime_nil, bind_nil.
  setoid_rewrite match_runtime_nil. split.
  - intros ([offer Ho] & H). exists offer. pose proof Ho as [Hrun _]. rewrite Hrun in H. naive_solver.
  - intros (offer & Hrun & Ho & H). rewrite Hrun. split; [eauto|]. exact H.
Qed.

(** A compatible provider serves the requirements, whatever its descriptor. *)
Lemma compatible_serves r d :
  compatible (match_provider host r d) = true → ∃ offer, Serves host r d offer.
Proof.
  rewrite compatible_reasons, all_reasons_nil, reasons_before_nil.
  intros ((offer & Hrun & Ho & Hadd & Hdist & Hplat & Hdep & Hiso & Hnet & Hres & _)
    & Hreq & Hart & Hmode & Hsess & Hfeat).
  apply match_mode_nil in Hmode. rewrite (match_session_nil r d Hmode) in Hsess.
  rewrite match_distribution_nil in Hdist. rewrite match_platform_nil in Hplat.
  rewrite match_dependencies_nil in Hdep. rewrite match_isolation_nil in Hiso.
  rewrite match_network_nil in Hnet. rewrite match_artifact_nil in Hart.
  rewrite match_features_nil in Hfeat. specialize (Hreq offer Hrun). rewrite match_request_nil in Hreq.
  destruct Hplat, Hiso as [Hiso Hhost], Hnet, Hart as (? & ? & ?).
  apply (accepted_resources host) in Hres as (? & ? & ? & ? & ?); [|done|done].
  exists offer. by split.
Qed.

(** And a provider with a well-formed descriptor that serves them is
    compatible. *)
Lemma serves_compatible r d offer :
  WellFormedDescriptor host d → Serves host r d offer →
  compatible (match_provider host r d) = true.
Proof.
  intros Hwf []. pose proof serves_runtime0 as [Hrun _].
  destruct (runtime_Some _ _ _ Hrun) as [Hin Hkind].
  pose proof (wfd_offers _ _ Hwf _ Hin) as Hsound.
  rewrite compatible_reasons, all_reasons_nil, reasons_before_nil. split.
  - exists offer. rewrite match_distribution_nil, match_platform_nil, match_dependencies_nil,
      match_isolation_nil, (accepted_network host r d offer) by done.
    rewrite (accepted_resources host), (accepted_isolation host) by done. by split_and!.
  - rewrite match_artifact_nil, match_mode_nil, match_session_nil, match_features_nil by done.
    split_and!; try done. intros other Hother. rewrite Hrun in Hother. injection Hother as <-.
    by rewrite match_request_nil.
Qed.
End compatibility.

(** ** Properties *)

(** C38: Compatibility means service: a provider with a well-formed descriptor
    is compatible exactly when it offers every runtime required, its platform,
    distribution, dependency support, capacity, transport and submission modes
    meet the requirements, and execution's own resolver accepts the request on
    the offered runtime. No check of a single limit, network or profile rejects
    a request the resolver would accept. *)
Theorem match_exact host r d :
  WellFormedDescriptor host d →
  compatible (match_provider host r d) = true ↔ ∃ offer, Serves host r d offer.
Proof.
  intros Hwf. split; [apply compatible_serves|]. intros [offer Hs]. by eapply serves_compatible.
Qed.

(** Placement never admits what execution rejects: on a compatible
    provider, any request of the required runtime with the required isolation,
    network and limits is accepted by the provider's resolver, provided the
    runtime takes standard input when the request carries some. *)
Theorem placement_execution_agree host r d :
  compatible (match_provider host r d) = true →
  ∃ offer, runtime d (rr_kind (pr_runtime r)) = Some offer ∧
    ∀ version stdin, (stdin = [] ∨ cap_stdin (offer_capabilities offer) = true) →
      is_ok (resolve_isolation host (offer_capabilities offer) (rr_kind (pr_runtime r))
        {| req_kind := rr_kind (pr_runtime r); req_version := version; req_stdin := stdin;
           req_network := pr_network r; req_resources := to_limits (pr_resources r);
           req_isolation := pr_isolation r; req_host_isolation := pr_host r |}) = true.
Proof.
  intros [offer Hs]%compatible_serves. exists offer. destruct Hs as [[Hrun _] ? ? ? ? ? ? ? ? ? ? ? ? ? ? ? ? ? ? ? Hex].
  split; [done|]. intros version stdin Hstdin. revert Hex. rewrite !is_ok_spec.
  setoid_rewrite resolve_isolation_inv. intros (_ & (hosted & [] & _) & Hb).
  eexists. split; [|exact Hb]. exists hosted. split; [|reflexivity].
  split; try done. simpl. naive_solver.
Qed.

(** The report is canonical: the reasons are sorted by code, they are the
    reasons found up to order and repetition, and the provider is compatible
    exactly when there are none. *)
Theorem match_report_canonical host r d :
  let m := match_provider host r d in
  StronglySorted (le_by (λ l r, cmp (ir_code l) (ir_code r))) (match_reasons m) ∧
  (∀ found, found ∈ match_reasons m ↔ found ∈ all_reasons host r d) ∧
  (compatible m = true ↔ match_reasons m = []) ∧
  (compatible m = true ↔ all_reasons host r d = []).
Proof.
  intros m. split_and!.
  - apply dedup_StronglySorted, sort_by_StronglySorted, (cmp_on (@cmp ReasonCode _)).
  - intros found. unfold m, match_provider; simpl. by rewrite elem_of_dedup, elem_of_sort_by.
  - unfold m, match_provider; simpl. apply bool_decide_eq_true.
  - apply compatible_reasons.
Qed.

(** ** Witnesses *)

#[local] Instance witness_distribution_identity : CanonicalIdentity DistributionMaterial :=
  λ m, dm_digest m.
#[local] Instance witness_capability_identity : CanonicalIdentity CapabilityBody :=
  λ b, body_provider_id b.

Definition no_resources : ResourceRequirement :=
  {| need_cpu_count := None; need_memory_bytes := None; need_memory_limit_bytes := None;
     need_disk_bytes := None; need_timeout_ms := Some 1000%N; need_cpu_time_ms := None;
     need_process_count := None; need_stdout_bytes := None; need_stderr_bytes := None |}.

Definition wasm_requirements (version : option string) : PlacementRequirements :=
  {| requirements_version := "compute.placement.requirements@1";
     pr_runtime := {| rr_kind := Wasm; rr_version := version; rr_artifact_id := None |};
     pr_additional_runtimes := []; pr_distribution := None; pr_dependencies := None;
     pr_isolation := Sandboxed; pr_host := Trusted; pr_network := NetNone;
     pr_resources := no_resources; pr_platform := None; pr_architecture := Some "AMD64";
     pr_artifact := {| art_mode := "bundle"; art_request_bytes := 2000; art_output_bytes := None;
                       art_submission := Job |};
     pr_session_capabilities := []; pr_target_features := ["kvm"] |}.

Lemma wasm_descriptor_well_formed : WellFormedDescriptor linux_host (wasm_descriptor "a").
Proof.
  apply (derived_well_formed linux_host linux_platform "a" KindLocal wasm_response (observed_at 0)).
  vm_compute. reflexivity.
Qed.

Lemma match_exact_witness :
  ∃ offer, Serves linux_host (wasm_requirements (Some "WASI")) (wasm_descriptor "a") offer.
Proof.
  apply (match_exact linux_host (wasm_requirements (Some "WASI")) (wasm_descriptor "a")
           wasm_descriptor_well_formed).
  vm_compute. reflexivity.
Defined.

Lemma placement_execution_agree_witness :
  ∃ offer, runtime (wasm_descriptor "a") Wasm = Some offer ∧
    is_ok (resolve_isolation linux_host (offer_capabilities offer) Wasm
      {| req_kind := Wasm; req_version := None; req_stdin := [104; 105]%N; req_network := NetNone;
         req_resources := to_limits no_resources; req_isolation := Sandboxed;
         req_host_isolation := Trusted |}) = true.
Proof.
  destruct (placement_execution_agree linux_host (wasm_requirements None) (wasm_descriptor "a"))
    as (offer & Hrun & Hok); [vm_compute; reflexivity|].
  exists offer. split; [exact Hrun|]. apply (Hok None [104; 105]%N). right.
  vm_compute in Hrun. injection Hrun as <-. reflexivity.
Defined.

(** A WebAssembly runtime that takes no standard input. *)
Definition no_stdin (caps : RuntimeCapabilities) : RuntimeCapabilities :=
  {| cap_stdin := false; cap_stdout := cap_stdout caps; cap_stderr := cap_stderr caps;
     cap_environment := cap_environment caps;
     cap_filesystem_isolation := cap_filesystem_isolation caps; cap_artifacts := cap_artifacts caps;
     cap_timeout := cap_timeout caps; cap_cancellation := cap_cancellation caps;
     cap_stdout_limit := cap_stdout_limit caps; cap_stderr_limit := cap_stderr_limit caps;
     cap_memory_limit := cap_memory_limit caps; cap_cpu_limit := cap_cpu_limit caps;
     cap_process_limit := cap_process_limit caps; cap_network := cap_network caps;
     cap_isolation := cap_isolation caps; cap_host_profiles := cap_host_profiles caps |}.

Definition with_runtimes (d : ProviderDescriptor) (offers : list RuntimeOffer) : ProviderDescriptor :=
  {| descriptor_version := descriptor_version d; provider_id := provider_id d;
     provider_kind := provider_kind d; provider_identity := provider_identity d;
     protocol_version := protocol_version d; capability_version := capability_version d;
     runtimes := offers; unavailable_runtimes := unavailable_runtimes d;
     distribution := distribution d; isolation_profiles := isolation_profiles d;
     network_capabilities := network_capabilities d;
     resource_capabilities := resource_capabilities d; resources := resources d;
     dependency_capsules := dependency_capsules d; artifact_limits := artifact_limits d;
     descriptor_policy := descriptor_policy d; sessions_offered := sessions_offered d;
     target_features := target_features d; authentication := authentication d;
     availability := availability d |}.

Definition no_stdin_offer : RuntimeOffer :=
  {| offer_kind := Wasm; offer_version := "28.0"; offer_detected_version := None;
     offer_artifact_id := None; offer_lifecycle := Ready; offer_distribution := None;
     offer_isolation_profiles :=
       supported_isolation linux_host Wasm (no_stdin RuntimeCapabilities.wasm);
     offer_network_policies := supported_networks (no_stdin RuntimeCapabilities.wasm);
     offer_capabilities := no_stdin RuntimeCapabilities.wasm |}.

(** Standard input is not matched: a provider whose runtime takes no
    standard input is compatible with requirements whose workload carries
    some, and its resolver rejects that workload. *)
Theorem stdin_not_matched :
  let d := with_runtimes (wasm_descriptor "a") [no_stdin_offer] in
  let r := wasm_requirements None in
  compatible (match_provider linux_host r d) = true ∧
  resolve_isolation linux_host (offer_capabilities no_stdin_offer) Wasm
    {| req_kind := Wasm; req_version := None; req_stdin := [104; 105]%N; req_network := pr_network r;
       req_resources := to_limits (pr_resources r); req_isolation := pr_isolation r;
       req_host_isolation := pr_host r |} =
  Err {| rejection_code := "runtime_capability_unavailable";
         rejection_message := "unsupported capability for runtime wasm: stdin" |}.
Proof. vm_compute. done. Qed.

(** A WebAssembly request is matched like any bare version: besides [wasi]
    it accepts every version the offered one contains, so 28 selects 28.0. *)
Theorem wasm_version_substring :
  runtime_version_matches Wasm "28" "28.0" = true ∧
  compatible (match_provider linux_host (wasm_requirements (Some "28")) (wasm_descriptor "a")) = true ∧
  codes (match_provider linux_host (wasm_requirements (Some "29")) (wasm_descriptor "a"))
  = [RuntimeVersionMismatch].
Proof. vm_compute. done. Qed.
