(* ===== verification/Pool.v ===== *)
(** Pool: caller-owned provider pools, capability discovery and the capability
    cache (src/crates/compute-placement/src/pool.rs, targets.rs).

    A member's transport is not modelled: what a provider answers when it is
    asked ([ComputeProvider::capabilities] and [health]) is the argument
    [answers] of discovery.  The table of a Cloudflare member belongs to the
    Cloudflare adapter, whose promise is the class [CloudflareTable]. *)

From S2P Require Import Prelude Text Core Isolation Policy Descriptor.

(** What the pool uses of [CloudflareSettings]. *)
Class CloudflareTable := {
  CloudflareSettings : Type;
  settings_eq_dec :: EqDecision CloudflareSettings;
  validate_settings : CloudflareSettings → Result unit string;
}.

Inductive PlacementError : Type :=
| InvalidConfig (message : string)
| InvalidCache (message : string)
| InvalidRequirements (message : string).

(** ** Configuration *)

Record PoolPolicy : Type := {
  require_healthy : bool;
  capability_ttl_seconds : N;
  allow_stale_capabilities : bool;
}.

Definition DEFAULT_CAPABILITY_TTL_SECONDS : N := 300.

Definition default_pool_policy : PoolPolicy :=
  {| require_healthy := false; capability_ttl_seconds := DEFAULT_CAPABILITY_TTL_SECONDS;
     allow_stale_capabilities := false |}.

Section configuration.
Context `{!CloudflareTable}.

Record ProviderConfig : Type := {
  config_kind : ProviderKind;
  config_endpoint : option string;
  config_application_endpoint : option string;
  config_priority : Z;
  config_token_env : option string;
  config_token_file : option string;
  config_cloudflare : option CloudflareSettings;
}.

(** [ProviderConfig::authenticated] *)
Definition authenticated (c : ProviderConfig) : bool :=
  is_some (config_token_env c) || is_some (config_token_file c).

Definition is_http (endpoint : string) : bool :=
  starts_with "http://" endpoint || starts_with "https://" endpoint.

Definition blank (c : N) : bool := is_control c || is_whitespace c.

(** [endpoint.split("://").nth(1)] is what follows the first [://], up to the
    next one. *)
Fixpoint after_scheme (s : string) : option string :=
  match strip_prefix "://" s with
  | Some rest => Some rest
  | None => match s with EmptyString => None | String _ s => after_scheme s end
  end.

Fixpoint before_scheme (s : string) : string :=
  match strip_prefix "://" s with
  | Some _ => ""
  | None => match s with EmptyString => "" | String c s => String c (before_scheme s) end
  end.

Definition embeds_credentials (endpoint : string) : bool :=
  match after_scheme endpoint with
  | Some rest =>
      match split "/" (before_scheme rest) with
      | authority :: _ => contains authority "@"
      | [] => false
      end
  | None => false
  end.

Definition config_invalid (id message : string) : PlacementError :=
  InvalidConfig ("provider " +:+ id +:+ ": " +:+ message).

(** The part of [ProviderConfig::validate] each kind has. *)
Definition validate_kind (id : string) (c : ProviderConfig) : Result unit PlacementError :=
  let invalid := config_invalid id in
  match config_kind c with
  | KindLocal =>
      reject_if (is_some (config_endpoint c)) (invalid "a local provider has no endpoint") ;?;
      reject_if (authenticated c) (invalid "a local provider has no credentials")
  | KindCloudflare =>
      reject_if (is_some (config_endpoint c) || is_some (config_application_endpoint c))
        (invalid "a cloudflare provider has no endpoint; its Workers are reached through the account") ;?;
      match config_cloudflare c with
      | None =>
          Err (invalid "a cloudflare provider needs a [providers.<id>.cloudflare] table with account_id")
      | Some settings =>
          reject_if (negb (authenticated c))
            (invalid "a cloudflare provider needs token_env (or token_file) naming its API token; the token itself is never written in configuration") ;?;
          map_err invalid (validate_settings settings)
      end
  | KindRemote =>
      match config_endpoint c with
      | Some endpoint =>
          if is_http endpoint && negb (any_char blank endpoint) then
            reject_if (embeds_credentials endpoint)
              (invalid "credentials must not be embedded in the endpoint")
          else Err (invalid "a remote provider requires an http:// or https:// endpoint")
      | None => Err (invalid "a remote provider requires an http:// or https:// endpoint")
      end
  end.

(** [ProviderConfig::validate] *)
Definition validate_config (id : string) (c : ProviderConfig) : Result unit PlacementError :=
  let invalid := config_invalid id in
  validate_kind id c ;?;
  reject_if (match config_token_env c with
             | Some name =>
                 is_empty name || negb (all_bytes (λ b, is_ascii_alphanumeric b || N.eqb b 95) name)
             | None => false
             end) (invalid "token_env must name an environment variable") ;?;
  reject_if (is_some (config_token_env c) && is_some (config_token_file c))
    (invalid "set token_env or token_file, not both") ;?;
  reject_if (match config_application_endpoint c with
             | Some endpoint => negb (is_http endpoint) || any_char blank endpoint
             | None => false
             end) (invalid "application_endpoint must be an http:// or https:// URL") ;?;
  reject_if (is_some (config_cloudflare c) && negb (bool_decide (config_kind c = KindCloudflare)))
    (invalid "a cloudflare table belongs only to a cloudflare provider").

Definition validate_provider_id (id : string) : Result unit PlacementError :=
  reject_if (is_empty id || N.ltb 64 (len id) ||
             negb (all_bytes (λ b, is_ascii_alphanumeric b || one_of "-_" b) id))
    (InvalidConfig ("invalid provider identifier " +:+ debug_str id
       +:+ ": use 1-64 ASCII letters, digits, '-' or '_'")).

(** [PoolConfig]: a [BTreeMap] of providers, listed by identifier. *)
Record PoolConfig : Type := {
  pool_policy : PoolPolicy;
  pool_providers : gmap string ProviderConfig;
}.

(** A [BTreeMap<String, V>] in the order of its keys. *)
Definition by_id {V} (m : gmap string V) : list (string * V) :=
  sort_by (λ l r, cmp (fst l) (fst r)) (map_to_list m).

(** [PoolConfig::validate] *)
Definition validate_pool (c : PoolConfig) : Result unit PlacementError :=
  reject_if (N.eqb (capability_ttl_seconds (pool_policy c)) 0)
    (InvalidConfig "capability_ttl_seconds must be positive") ;?;
  try_for_each (λ entry, validate_provider_id (fst entry) ;?; validate_config (fst entry) (snd entry))
    (by_id (pool_providers c)).

(** [PoolConfig::local_only] *)
Definition local_config : ProviderConfig :=
  {| config_kind := KindLocal; config_endpoint := None; config_application_endpoint := None;
     config_priority := 0; config_token_env := None; config_token_file := None;
     config_cloudflare := None |}.
Definition local_only : PoolConfig :=
  {| pool_policy := default_pool_policy; pool_providers := {[ "local" := local_config ]} |}.

(** What [fingerprint] hashes. *)
Record FingerprintMaterial : Type := {
  fp_kind : ProviderKind;
  fp_endpoint : option string;
  fp_application_endpoint : option string;
  fp_cloudflare : option CloudflareSettings;
}.

(** ** The pool *)

Record PoolMember : Type := {
  member_id : string;
  member_config : ProviderConfig;
  member_jobs : bool;
}.

Record ProviderPool : Type := {
  policy_of : PoolPolicy;
  members : gmap string PoolMember;
}.

Definition new_pool (policy : PoolPolicy) : ProviderPool :=
  {| policy_of := policy; members := ∅ |}.

(** [ProviderPool::insert]; [add] and [add_remote] differ in [jobs]. *)
Definition insert_member (pool : ProviderPool) (id : string) (config : ProviderConfig) (jobs : bool)
    : Result ProviderPool PlacementError :=
  validate_provider_id id ;?;
  validate_config id config ;?;
  reject_if (is_some (members pool !! id))
    (InvalidConfig ("provider " +:+ id +:+ " is already in the pool")) ;?;
  Ok {| policy_of := policy_of pool;
        members := <[id := {| member_id := id; member_config := config; member_jobs := jobs |}]>
                     (members pool) |}.

(** [ProviderPool::remove] *)
Definition remove_member (pool : ProviderPool) (id : string) : option PoolMember * ProviderPool :=
  (members pool !! id, {| policy_of := policy_of pool; members := delete id (members pool) |}).

(** [ProviderPool::configs] *)
Definition configs (pool : ProviderPool) : gmap string ProviderConfig :=
  member_config <$> members pool.

Record PoolMemberInspection : Type := {
  insp_provider_id : string;
  insp_kind : ProviderKind;
  insp_endpoint : option string;
  insp_application_endpoint : option string;
  insp_priority : Z;
  insp_authenticated : bool;
}.

Definition inspect_member (member : PoolMember) : PoolMemberInspection :=
  let c := member_config member in
  {| insp_provider_id := member_id member; insp_kind := config_kind c;
     insp_endpoint := config_endpoint c; insp_application_endpoint := config_application_endpoint c;
     insp_priority := config_priority c; insp_authenticated := authenticated c |}.

Definition compare_inspections (l r : PoolMemberInspection) : comparison :=
  then_with (cmp (insp_priority r) (insp_priority l)) (cmp (insp_provider_id l) (insp_provider_id r)).

(** [ProviderPool::inspect] *)
Definition inspect (pool : ProviderPool) : PoolPolicy * list PoolMemberInspection :=
  (policy_of pool,
   sort_by compare_inspections ((λ entry, inspect_member (snd entry)) <$> by_id (members pool))).
End configuration.

(** ** Discovery *)

Inductive ProviderErrorKind : Type :=
| ProviderUnavailable | ProtocolUnsupported | Unauthorized | ArtifactInvalid
| PRuntimeUnavailable | DistributionUnavailable | CapabilityMismatch | PolicyRejected
| TransportFailure | RemoteExecutionFailure | UnknownJob | JobExpired | IdempotencyConflict
| EvidenceInvalid | ProviderInterrupted | AdmissionDenied | UnknownSession | SessionConflict
| OperationUnsupported | TerminationFailed | QuotaExhausted.

#[export] Instance ProviderErrorKind_eq_dec : EqDecision ProviderErrorKind.
Proof. solve_decision. Defined.

(** [{:?}] of a kind. *)
Definition debug_kind (kind : ProviderErrorKind) : string :=
  match kind with
  | ProviderUnavailable => "ProviderUnavailable" | ProtocolUnsupported => "ProtocolUnsupported"
  | Unauthorized => "Unauthorized" | ArtifactInvalid => "ArtifactInvalid"
  | PRuntimeUnavailable => "RuntimeUnavailable"
  | DistributionUnavailable => "DistributionUnavailable"
  | CapabilityMismatch => "CapabilityMismatch" | PolicyRejected => "PolicyRejected"
  | TransportFailure => "TransportFailure" | RemoteExecutionFailure => "RemoteExecutionFailure"
  | UnknownJob => "UnknownJob" | JobExpired => "JobExpired"
  | IdempotencyConflict => "IdempotencyConflict" | EvidenceInvalid => "EvidenceInvalid"
  | ProviderInterrupted => "ProviderInterrupted" | AdmissionDenied => "AdmissionDenied"
  | UnknownSession => "UnknownSession" | SessionConflict => "SessionConflict"
  | OperationUnsupported => "OperationUnsupported" | TerminationFailed => "TerminationFailed"
  | QuotaExhausted => "QuotaExhausted"
  end.

Record ProviderError : Type := {
  perror_kind : ProviderErrorKind;
  perror_message : string;
}.

(** [Display] for [ProviderError] *)
Definition provider_error_to_string (e : ProviderError) : string :=
  debug_kind (perror_kind e) +:+ ": " +:+ perror_message e.

(** What a provider answers when it is asked. *)
Record Answer : Type := {
  answer_capabilities : Result ProviderCapabilities ProviderError;
  answer_health : Result bool ProviderError;
}.

Inductive DiscoveryMode : Type := PreferCache | Refresh.

#[export] Instance DiscoveryMode_eq_dec : EqDecision DiscoveryMode.
Proof. solve_decision. Defined.

Inductive DiscoveryStatus : Type := Discovered | Cached | Stale | DiscoveryInvalid | DiscoveryUnavailable.

#[export] Instance DiscoveryStatus_eq_dec : EqDecision DiscoveryStatus.
Proof. solve_decision. Defined.

Record DiscoveryError : Type := {
  derror_code : string;
  derror_message : string;
  derror_violations : list CapabilityViolation;
}.

Record DiscoveryRecord : Type := {
  record_provider_id : string;
  record_status : DiscoveryStatus;
  record_descriptor : option ProviderDescriptor;
  record_error : option DiscoveryError;
}.

(** [DiscoveryRecord::health] *)
Definition record_health (record : DiscoveryRecord) : Health :=
  from_option (λ d, health (availability d)) HealthUnknown (record_descriptor record).

(** [Display] for [CapabilityViolation] *)
Definition violation_to_string (v : CapabilityViolation) : string :=
  violation_field v +:+ ": " +:+ violation_reason v +:+
  match violation_expected v, violation_actual v with
  | Some expected, Some actual => " (expected " +:+ expected +:+ "; actual " +:+ actual +:+ ")"
  | Some expected, None => " (expected " +:+ expected +:+ ")"
  | None, Some actual => " (actual " +:+ actual +:+ ")"
  | None, None => ""
  end.

(** [DiscoveryRecord::invalid] *)
Definition invalid_record (id : string) (error : DescriptorError) : DiscoveryRecord :=
  {| record_provider_id := id; record_status := DiscoveryInvalid; record_descriptor := None;
     record_error := Some
       {| derror_code := error_code_ error;
          derror_message := join "; " (violation_to_string <$> violations_of error);
          derror_violations := violations_of error |} |}.

Record CacheEntry : Type := {
  cached_fingerprint : string;
  cached_fetched_at : Z;
  cached_expires_at : Z;
  cached_health : Health;
  cached_capabilities : ProviderCapabilities;
}.

(** [CapabilityCache::entries] *)
Notation CapabilityCache := (gmap string CacheEntry).

(** [ttl_seconds] *)
Definition i64_max : Z := 9223372036854775807.
Definition ttl_seconds (value : N) : Z :=
  Z.min (if Z.leb (Z.of_N value) i64_max then Z.of_N value else i64_max / 1000000)
    (10 * 365 * 24 * 60 * 60).

Definition seconds (n : Z) : Z := n * 1000000000.

Section discovery.
Context `{!CloudflareTable}.
Context `{!CanonicalIdentity DistributionMaterial, !CanonicalIdentity CapabilityBody,
          !CanonicalIdentity FingerprintMaterial}.
Context (host : HostCapabilities) (current : PlatformIdentity).

(** [ProviderConfig::fingerprint] *)
Definition fingerprint (c : ProviderConfig) : string :=
  canonical_identity
    {| fp_kind := config_kind c; fp_endpoint := config_endpoint c;
       fp_application_endpoint := config_application_endpoint c;
       fp_cloudflare := config_cloudflare c |}.

(** The cache entry discovery may use: same configuration as when stored. *)
Definition usable_entry (member : PoolMember) (cache : CapabilityCache) (mode : DiscoveryMode)
    : option CacheEntry :=
  if bool_decide (mode = PreferCache) then
    entry ← cache !! member_id member;
    if String.eqb (cached_fingerprint entry) (fingerprint (member_config member))
    then Some entry else None
  else None.

(** The record of a cached response, validated again. *)
Definition cached_record (member : PoolMember) (entry : CacheEntry) (now : Z) : DiscoveryRecord :=
  let fresh := Z.ltb now (cached_expires_at entry) in
  let observed :=
    {| health := if fresh then cached_health entry else HealthUnknown;
       fetched_at := cached_fetched_at entry; expires_at := cached_expires_at entry |} in
  match from_capabilities host current (member_id member) (config_kind (member_config member))
          (cached_capabilities entry) observed with
  | Ok d =>
      {| record_provider_id := member_id member;
         record_status := if fresh then Cached else Stale;
         record_descriptor := Some d; record_error := None |}
  | Err error => invalid_record (member_id member) error
  end.

(** The record of a provider that did not answer. *)
Definition unanswered_record (id : string) (error : ProviderError) : DiscoveryRecord :=
  if bool_decide (perror_kind error = TransportFailure) &&
     starts_with "malformed remote response" (perror_message error)
  then invalid_record id (invalid "response" (perror_message error))
  else {| record_provider_id := id; record_status := DiscoveryUnavailable;
          record_descriptor := None;
          record_error := Some {| derror_code := "provider_unavailable";
            derror_message := provider_error_to_string error; derror_violations := [] |} |}.

Definition health_of (answer : Answer) : Health :=
  match answer_health answer with
  | Ok true => Healthy
  | Ok false => Unhealthy
  | Err _ => HealthUnknown
  end.

(** [ProviderPool::discover] *)
Definition discover (policy : PoolPolicy) (member : PoolMember) (cache : CapabilityCache)
    (mode : DiscoveryMode) (now : Z) (answer : Answer) : DiscoveryRecord * CapabilityCache :=
  match usable_entry member cache mode with
  | Some entry => (cached_record member entry now, cache)
  | None =>
      match answer_capabilities answer with
      | Err error => (unanswered_record (member_id member) error, cache)
      | Ok caps =>
          let expires := (now + seconds (ttl_seconds (capability_ttl_seconds policy)))%Z in
          let observed := {| health := health_of answer; fetched_at := now; expires_at := expires |} in
          match from_capabilities host current (member_id member) (config_kind (member_config member))
                  caps observed with
          | Ok d =>
              ({| record_provider_id := member_id member; record_status := Discovered;
                  record_descriptor := Some d; record_error := None |},
               <[member_id member :=
                   {| cached_fingerprint := fingerprint (member_config member);
                      cached_fetched_at := now; cached_expires_at := expires;
                      cached_health := health_of answer; cached_capabilities := caps |}]> cache)
          | Err error => (invalid_record (member_id member) error, delete (member_id member) cache)
          end
      end
  end.

(** One step of [ProviderPool::capabilities] over its members, in order. *)
Fixpoint discover_all (policy : PoolPolicy) (ms : list PoolMember) (cache : CapabilityCache)
    (mode : DiscoveryMode) (only : option string) (now : Z) (answers : string → Answer)
    : list DiscoveryRecord * CapabilityCache :=
  match ms with
  | [] => ([], cache)
  | member :: ms =>
      if match only with Some id => negb (String.eqb id (member_id member)) | None => false end
      then discover_all policy ms cache mode only now answers
      else
        let (record, cache) := discover policy member cache mode now (answers (member_id member)) in
        let (records, cache) := discover_all policy ms cache mode only now answers in
        (record :: records, cache)
  end.

(** [ProviderPool::capabilities] *)
Definition capabilities (pool : ProviderPool) (cache : CapabilityCache) (mode : DiscoveryMode)
    (only : option string) (now : Z) (answers : string → Answer)
    : list DiscoveryRecord * CapabilityCache :=
  discover_all (policy_of pool) (snd <$> by_id (members pool)) cache mode only now answers.
End discovery.

(** ** Targets *)

Record ComputeTarget : Type := {
  target_id : string;
  target_kind : ProviderKind;
  target_health : Health;
  hosts_computers : bool;
  target_platform : option PlatformIdentity;
  target_resources : option ProviderResourceInventory;
  target_capabilities : option SessionCapabilities;
  target_features_ : list string;
  target_authentication : option string;
  target_credential : bool;
  target_error : option string;
}.

(** [ComputeTarget::from_record] *)
Definition target_from_record (record : DiscoveryRecord) (kind : ProviderKind) : ComputeTarget :=
  let d := record_descriptor record in
  {| target_id := record_provider_id record;
     target_kind := kind;
     target_health := record_health record;
     hosts_computers :=
       from_option (λ d, accepts_sessions (artifact_limits d) && is_some (sessions_offered d)) false d;
     target_platform := (λ d, offered_platform (distribution d)) <$> d;
     target_resources := resources <$> d;
     target_capabilities := d ≫= sessions_offered;
     target_features_ := from_option target_features [] d;
     target_authentication := d ≫= authentication;
     target_credential := false;
     target_error :=
       match record_status record with
       | Discovered | Cached => None
       | _ => derror_message <$> record_error record
       end |}.

(** ** Valid configurations, stated by their meaning *)

Section valid_config.
Context `{!CloudflareTable}.
Implicit Types (c : ProviderConfig) (pool : ProviderPool).

(** A URL Compute connects to. *)
Definition Url (endpoint : string) : Prop :=
  is_http endpoint = true ∧ any_char blank endpoint = false.

Record ConfigOk (c : ProviderConfig) : Prop := {
  ok_local : config_kind c = KindLocal → config_endpoint c = None ∧ authenticated c = false;
  ok_remote : config_kind c = KindRemote →
    ∃ endpoint, config_endpoint c = Some endpoint ∧ Url endpoint ∧ embeds_credentials endpoint = false;
  ok_cloudflare : config_kind c = KindCloudflare →
    config_endpoint c = None ∧ config_application_endpoint c = None ∧ authenticated c = true ∧
    ∃ settings, config_cloudflare c = Some settings ∧ validate_settings settings = Ok tt;
  ok_table : is_Some (config_cloudflare c) → config_kind c = KindCloudflare;
  ok_token_env name : config_token_env c = Some name →
    name ≠ "" ∧ all_bytes (λ b, is_ascii_alphanumeric b || N.eqb b 95) name = true;
  ok_one_token : config_token_env c = None ∨ config_token_file c = None;
  ok_application endpoint : config_application_endpoint c = Some endpoint → Url endpoint;
}.

Lemma is_some_false {A} (o : option A) : is_some o = false ↔ o = None.
Proof. by destruct o. Qed.

Lemma is_empty_false s : is_empty s = false ↔ s ≠ "".
Proof. by destruct s. Qed.

Lemma map_err_unit {E F} (f : E → F) (r : Result unit E) : map_err f r = Ok tt ↔ r = Ok tt.
Proof. destruct r as [[]|]; naive_solver. Qed.

Lemma validate_kind_ok id c :
  validate_kind id c = Ok tt ↔
  match config_kind c with
  | KindLocal => config_endpoint c = None ∧ authenticated c = false
  | KindRemote => ∃ endpoint, config_endpoint c = Some endpoint ∧ Url endpoint ∧
                    embeds_credentials endpoint = false
  | KindCloudflare => config_endpoint c = None ∧ config_application_endpoint c = None ∧
      authenticated c = true ∧
      ∃ settings, config_cloudflare c = Some settings ∧ validate_settings settings = Ok tt
  end.
Proof.
  unfold validate_kind, Url. destruct (config_kind c).
  - by rewrite seq_ok, !reject_if_ok, is_some_false.
  - destruct (config_endpoint c) as [endpoint|]; [|naive_solver].
    destruct (is_http endpoint) eqn:Eh, (any_char blank endpoint) eqn:Eb; simpl;
      rewrite ?reject_if_ok; naive_solver congruence.
  - rewrite seq_ok, reject_if_ok, orb_false_iff, !is_some_false.
    destruct (config_cloudflare c) as [settings|]; [|naive_solver].
    rewrite seq_ok, reject_if_ok, negb_false_iff, map_err_unit. naive_solver.
Qed.

Lemma validate_config_ok id c : validate_config id c = Ok tt ↔ ConfigOk c.
Proof.
  unfold validate_config. rewrite !seq_ok, !reject_if_ok, validate_kind_ok, !andb_false_iff,
    !is_some_false, negb_false_iff, bool_decide_eq_true. split.
  - intros (Hkind & Htoken & Hone & Happ & Htable). split; try (intros E; by rewrite E in Hkind).
    + intros [settings Hs]. naive_solver.
    + intros name E. rewrite E, orb_false_iff, negb_false_iff, is_empty_false in Htoken. done.
    + done.
    + intros endpoint E. by rewrite E, orb_false_iff, negb_false_iff in Happ.
  - intros [Hl Hr Hc Htab Htok Hone Happ]. split_and!.
    + destruct (config_kind c); auto.
    + destruct (config_token_env c) as [name|]; [|done].
      by rewrite orb_false_iff, negb_false_iff, is_empty_false; apply Htok.
    + done.
    + destruct (config_application_endpoint c) as [endpoint|]; [|done].
      by rewrite orb_false_iff, negb_false_iff; apply Happ.
    + destruct (config_cloudflare c); [right; apply Htab; eauto|by left].
Qed.

(** Every member is stored under its own identifier with a valid
    configuration. *)
Definition PoolOk (pool : ProviderPool) : Prop :=
  ∀ id member, members pool !! id = Some member →
    member_id member = id ∧ validate_provider_id id = Ok tt ∧ ConfigOk (member_config member).

(** The operations on a pool. *)
Inductive pool_step : ProviderPool → ProviderPool → Prop :=
| step_insert pool pool' id config jobs :
    insert_member pool id config jobs = Ok pool' → pool_step pool pool'
| step_remove pool id : pool_step pool (snd (remove_member pool id)).

Lemma insert_member_ok pool id config jobs pool' :
  insert_member pool id config jobs = Ok pool' ↔
  validate_provider_id id = Ok tt ∧ ConfigOk config ∧ members pool !! id = None ∧
  pool' = {| policy_of := policy_of pool;
             members := <[id := {| member_id := id; member_config := config; member_jobs := jobs |}]>
                          (members pool) |}.
Proof.
  unfold insert_member. rewrite !seq_ok, reject_if_ok, is_some_false, <-(validate_config_ok id).
  naive_solver.
Qed.

Lemma pool_step_ok pool pool' : pool_step pool pool' → PoolOk pool → PoolOk pool'.
Proof.
  intros [pool1 pool2 id config jobs Hins|pool1 id] Hok.
  - apply insert_member_ok in Hins as (Hid & Hconf & _ & ->).
    intros other member; simpl. rewrite lookup_insert_Some.
    intros [[<- <-]|[_ Hm]]; [done|by apply Hok].
  - intros other member; simpl. rewrite lookup_delete_Some. intros [_ Hm]. by apply Hok.
Qed.

Lemma pool_steps_ok pool pool' : rtc pool_step pool pool' → PoolOk pool → PoolOk pool'.
Proof. induction 1; eauto using pool_step_ok. Qed.

Lemma new_pool_ok policy : PoolOk (new_pool policy).
Proof. intros id member. simpl. by rewrite lookup_empty. Qed.
End valid_config.

(** ** The members in the order of their identifiers *)

Section ordered.
Context {V : Type}.
Implicit Types m : gmap string V.

Lemma elem_of_by_id m id v : (id, v) ∈ by_id m ↔ m !! id = Some v.
Proof. unfold by_id. by rewrite elem_of_sort_by, elem_of_map_to_list. Qed.

Lemma by_id_NoDup m : NoDup (fst <$> by_id m).
Proof. unfold by_id. rewrite sort_by_perm. apply NoDup_fst_map_to_list. Qed.
End ordered.

Section discovery_lemmas.
Context `{!CloudflareTable}.
Context `{!CanonicalIdentity DistributionMaterial, !CanonicalIdentity CapabilityBody,
          !CanonicalIdentity FingerprintMaterial}.
Context (host : HostCapabilities) (current : PlatformIdentity).
Implicit Types (cache : CapabilityCache) (member : PoolMember).

(** A record as placement may rely on it: a descriptor exactly when the
    status says so, and then a well-formed one of this member. *)
Record RecordOk (id : string) (kind : ProviderKind) (record : DiscoveryRecord) : Prop := {
  rec_id : record_provider_id record = id;
  rec_status : is_Some (record_descriptor record) ↔
    record_status record = Discovered ∨ record_status record = Cached ∨ record_status record = Stale;
  rec_error : is_Some (record_descriptor record) ↔ record_error record = None;
  rec_descriptor d : record_descriptor record = Some d →
    provider_id d = id ∧ provider_kind d = kind ∧ WellFormedDescriptor host d;
}.

Lemma invalid_record_ok id kind error : RecordOk id kind (invalid_record id error).
Proof. split; simpl; try done; split; try (by intros []); naive_solver. Qed.

Lemma derived_named id kind caps observed d :
  from_capabilities host current id kind caps observed = Ok d →
  provider_id d = id ∧ provider_kind d = kind ∧ WellFormedDescriptor host d.
Proof.
  intros Hok. pose proof Hok as Hwf%derived_well_formed. by apply from_capabilities_ok in Hok as [_ ->].
Qed.

Lemma cached_record_ok member entry now :
  RecordOk (member_id member) (config_kind (member_config member))
    (cached_record host current member entry now).
Proof.
  unfold cached_record. destruct (from_capabilities _ _ _ _ _ _) as [d|error] eqn:E;
    [|apply invalid_record_ok].
  split; simpl; try done.
  - split; [|eauto]. destruct (Z.ltb _ _); naive_solver.
  - intros ? [= <-]. by eapply derived_named.
Qed.

Lemma unanswered_record_ok id kind error : RecordOk id kind (unanswered_record id error).
Proof.
  unfold unanswered_record. case_match; [apply invalid_record_ok|].
  split; simpl; try done; split; try (by intros []); naive_solver.
Qed.

Lemma discover_record_ok policy member cache mode now answer :
  RecordOk (member_id member) (config_kind (member_config member))
    (fst (discover host current policy member cache mode now answer)).
Proof.
  unfold discover. destruct (usable_entry member cache mode); [apply cached_record_ok|].
  destruct (answer_capabilities answer) as [caps|error]; [|apply unanswered_record_ok].
  destruct (from_capabilities _ _ _ _ _ _) as [d|error] eqn:E; [|apply invalid_record_ok].
  split; simpl; try done; try (split; by eauto).
  intros ? [= <-]. by eapply derived_named.
Qed.

(** Discovery of one member leaves every other entry of the cache alone. *)
Lemma discover_frame policy member cache mode now answer id :
  id ≠ member_id member →
  snd (discover host current policy member cache mode now answer) !! id = cache !! id.
Proof.
  intros Hne. unfold discover. destruct (usable_entry member cache mode); [done|].
  destruct (answer_capabilities answer) as [caps|error]; [|done].
  destruct (from_capabilities _ _ _ _ _ _); simpl.
  - by rewrite lookup_insert_ne.
  - by rewrite lookup_delete_ne.
Qed.

Definition wanted (only : option string) (member : PoolMember) : bool :=
  match only with Some id => String.eqb id (member_id member) | None => true end.

Lemma wanted_all (ms : list PoolMember) : filter (wanted None) ms = ms.
Proof. induction ms as [|m ms IH]; [done|]. by rewrite filter_cons_True, IH. Qed.

Lemma discover_all_records policy ms cache mode only now answers :
  Forall2 (λ member record,
    RecordOk (member_id member) (config_kind (member_config member)) record)
    (filter (wanted only) ms)
    (fst (discover_all host current policy ms cache mode only now answers)).
Proof.
  revert cache. induction ms as [|member ms IH]; intros cache; simpl; [constructor|].
  rewrite filter_cons.
  assert (match only with Some id => negb (String.eqb id (member_id member)) | None => false end
          = negb (wanted only member)) as -> by by destruct only.
  destruct (wanted only member); simpl; [|apply IH].
  pose proof (discover_record_ok policy member cache mode now (answers (member_id member))) as Hrec.
  destruct (discover _ _ _ _ _ _ _ _) as [record cache']. simpl in Hrec.
  specialize (IH cache'). destruct (discover_all _ _ _ _ _ _ _ _ _) as [records cache''].
  by constructor.
Qed.

Lemma capabilities_ids pool cache mode now answers :
  PoolOk pool →
  (record_provider_id <$> fst (capabilities host current pool cache mode None now answers))
  = fst <$> by_id (members pool).
Proof.
  intros Hok. trans (member_id <$> (snd <$> by_id (members pool))).
  - pose proof (discover_all_records (policy_of pool) (snd <$> by_id (members pool))
      cache mode None now answers) as Hall. rewrite wanted_all in Hall.
    symmetry. eapply fmap_eq_Forall2; [exact Hall|]. by intros m record [].
  - rewrite <-list_fmap_compose. apply list_fmap_ext. intros i [id m] Hin. simpl.
    apply list_elem_of_lookup_2, elem_of_by_id, Hok in Hin as [? _]. done.
Qed.

Lemma capabilities_records_ok pool cache mode now answers record :
  PoolOk pool → record ∈ fst (capabilities host current pool cache mode None now answers) →
  ∃ member, members pool !! record_provider_id record = Some member ∧
    RecordOk (record_provider_id record) (config_kind (member_config member)) record.
Proof.
  intros Hok [i Hi]%list_elem_of_lookup_1.
  pose proof (discover_all_records (policy_of pool) (snd <$> by_id (members pool))
    cache mode None now answers) as Hall. rewrite wanted_all in Hall.
  eapply Forall2_lookup_r in Hall as (member & Hm%list_elem_of_lookup_2 & Hrec); [|exact Hi].
  apply list_elem_of_fmap in Hm as ([id m] & -> & Hm). apply elem_of_by_id in Hm as Hm'.
  simpl in *. destruct (Hok _ _ Hm') as [Hid _]. exists m.
  rewrite (rec_id _ _ _ Hrec), Hid. rewrite Hid in Hrec. done.
Qed.
End discovery_lemmas.

(** ** Properties *)

(** Configuration validation is exact: a provider table is accepted exactly
    when it has the fields of its kind and no others (a local member has
    neither endpoint nor credentials, a remote one an HTTP endpoint without
    embedded credentials, a Cloudflare one a valid account table and a token),
    names at most one token source, and writes no malformed URL. *)
Theorem config_validation_exact `{!CloudflareTable} id c :
  validate_config id c = Ok tt ↔ ConfigOk c.
Proof. apply validate_config_ok. Qed.

(** Every pool built by inserting and removing members holds each member
    under its own valid identifier with a valid configuration, and an insertion
    is refused exactly when the identifier or the configuration is invalid or
    the identifier is taken. *)
Theorem pool_members_valid `{!CloudflareTable} policy pool :
  rtc pool_step (new_pool policy) pool →
  (∀ id member, members pool !! id = Some member →
     member_id member = id ∧ validate_provider_id id = Ok tt ∧ ConfigOk (member_config member)) ∧
  (∀ id config jobs, is_ok (insert_member pool id config jobs) = true ↔
     validate_provider_id id = Ok tt ∧ ConfigOk config ∧ members pool !! id = None).
Proof.
  intros Hsteps. split; [exact (pool_steps_ok _ _ Hsteps (new_pool_ok policy))|].
  intros id config jobs. rewrite is_ok_spec. setoid_rewrite insert_member_ok. naive_solver.
Qed.

Section discovery_properties.
Context `{!CloudflareTable}.
Context `{!CanonicalIdentity DistributionMaterial, !CanonicalIdentity CapabilityBody,
          !CanonicalIdentity FingerprintMaterial}.
Context (host : HostCapabilities) (current : PlatformIdentity).
Implicit Types (cache : CapabilityCache) (member : PoolMember).

(** A cached answer is used only while it may be: discovery reports
    [cached] exactly when the caller prefers the cache, the entry was stored
    for the same configuration, it has not expired and it still validates;
    an expired entry is reported as [stale] with unknown health, and neither
    contacts the provider nor changes the cache. *)
Theorem cached_only_while_fresh policy member cache mode now answer :
  let record := fst (discover host current policy member cache mode now answer) in
  (record_status record = Cached ↔
   ∃ entry d, usable_entry member cache mode = Some entry ∧ (now < cached_expires_at entry)%Z ∧
     from_capabilities host current (member_id member) (config_kind (member_config member))
       (cached_capabilities entry)
       {| health := cached_health entry; fetched_at := cached_fetched_at entry;
          expires_at := cached_expires_at entry |} = Ok d ∧
     record_descriptor record = Some d) ∧
  (record_status record = Stale →
   ∃ entry, usable_entry member cache mode = Some entry ∧ (cached_expires_at entry ≤ now)%Z ∧
     record_health record = HealthUnknown) ∧
  (∀ entry answer', usable_entry member cache mode = Some entry →
     discover host current policy member cache mode now answer' = (record, cache)).
Proof.
  unfold discover. destruct (usable_entry member cache mode) as [entry|]; cbn [fst].
  - unfold cached_record. split_and!; [| |naive_solver].
    + destruct (Z.ltb_spec now (cached_expires_at entry));
        destruct (from_capabilities _ _ _ _ _ _) as [d|] eqn:E; simpl; split; try done.
      1: intros _; by exists entry, d.
      all: intros (? & ? & [= <-] & ? & ? & ?); first [lia|congruence].
    + destruct (Z.ltb_spec now (cached_expires_at entry));
        destruct (from_capabilities _ _ _ _ _ _) as [d|] eqn:E; simpl; try done.
      intros _. exists entry. split_and!; try done. unfold record_health; simpl.
      by apply from_capabilities_ok in E as [_ ->].
  - destruct (answer_capabilities answer) as [caps|error]; [|
      unfold unanswered_record; case_match; simpl; naive_solver].
    destruct (from_capabilities _ _ _ _ _ _); simpl; naive_solver.
Qed.

(** What discovery stores, discovery reads back: a provider discovered
    now is answered from the cache until the entry expires, with the same
    descriptor, and by the configured time to live (at most ten years) it is
    stale. *)
Theorem discovery_round_trip policy member cache now answer d now' answer' :
  let (record, cache') := discover host current policy member cache Refresh now answer in
  record_status record = Discovered → record_descriptor record = Some d →
  (now' < now + seconds (ttl_seconds (capability_ttl_seconds policy)))%Z →
  discover host current policy member cache' PreferCache now' answer' =
  ({| record_provider_id := member_id member; record_status := Cached;
      record_descriptor := Some d; record_error := None |}, cache').
Proof.
  unfold discover at 1; simpl.
  destruct (answer_capabilities answer) as [caps|error]; [|
    unfold unanswered_record; case_match; simpl; naive_solver].
  destruct (from_capabilities _ _ _ _ _ _) as [d'|] eqn:E; simpl; [|naive_solver].
  intros _ [= ->] Hfresh. unfold discover, usable_entry.
  rewrite bool_decide_eq_true_2, lookup_insert_eq by done. simpl. rewrite String.eqb_refl.
  unfold cached_record; simpl. apply Z.ltb_lt in Hfresh. by rewrite Hfresh, E.
Qed.

(** Discovery reports what placement may rely on: one record per wanted
    member, in the order of the identifiers and without repetition, each
    naming its member, carrying a descriptor exactly when it was discovered,
    cached or stale (and an error exactly otherwise), and every descriptor is
    well formed and of the member's identifier and kind. *)
Theorem discovery_records_sound policy pool cache mode now answers :
  rtc pool_step (new_pool policy) pool →
  let records := fst (capabilities host current pool cache mode None now answers) in
  (record_provider_id <$> records) = (fst <$> by_id (members pool)) ∧
  NoDup (record_provider_id <$> records) ∧
  (∀ record, record ∈ records → ∃ member, members pool !! record_provider_id record = Some member ∧
     RecordOk host (record_provider_id record) (config_kind (member_config member)) record).
Proof.
  intros Hsteps. pose proof (pool_steps_ok _ _ Hsteps (new_pool_ok policy)) as Hok.
  pose proof (capabilities_ids host current pool cache mode now answers Hok) as Hids.
  split_and!; [done|rewrite Hids; apply by_id_NoDup|].
  intros record. by apply capabilities_records_ok.
Qed.
End discovery_properties.

(** ** Witnesses *)

(** No Cloudflare member. *)
#[local] Instance witness_no_cloudflare : CloudflareTable :=
  {| CloudflareSettings := Empty_set; validate_settings := λ _, Ok tt |}.
#[local] Instance witness_pool_distribution : CanonicalIdentity DistributionMaterial :=
  λ m, dm_digest m.
#[local] Instance witness_pool_capability : CanonicalIdentity CapabilityBody :=
  λ b, body_provider_id b.
#[local] Instance witness_pool_fingerprint : CanonicalIdentity FingerprintMaterial :=
  λ f, ProviderKind.to_string (fp_kind f) +:+ default "" (fp_endpoint f).

Definition local_member : PoolMember :=
  {| member_id := "local"; member_config := local_config; member_jobs := false |}.

Definition local_pool : ProviderPool :=
  {| policy_of := default_pool_policy; members := {[ "local" := local_member ]} |}.

Lemma local_pool_reachable : rtc pool_step (new_pool default_pool_policy) local_pool.
Proof.
  eapply rtc_l; [|apply rtc_refl]. apply (step_insert _ _ "local" local_config false).
  vm_compute. reflexivity.
Qed.

Definition healthy_answer : Answer :=
  {| answer_capabilities := Ok wasm_response; answer_health := Ok true |}.

Lemma pool_members_valid_witness :
  is_ok (insert_member local_pool "other" local_config false) = true ∧
  is_ok (insert_member local_pool "local" local_config false) ≠ true.
Proof.
  destruct (pool_members_valid default_pool_policy local_pool local_pool_reachable) as [Hm Hi].
  split.
  - apply Hi. split; [vm_compute; reflexivity|]. split; [|vm_compute; reflexivity].
    apply (Hm "local" local_member). vm_compute. reflexivity.
  - intros (_ & _ & Hnone)%Hi. vm_compute in Hnone. discriminate Hnone.
Defined.

Lemma discovery_round_trip_witness :
  let (record, cache) := discover linux_host linux_platform default_pool_policy local_member ∅
                           Refresh 0 healthy_answer in
  record_status (fst (discover linux_host linux_platform default_pool_policy local_member cache
                        PreferCache 1000 healthy_answer)) = Cached.
Proof.
  pose proof (discovery_round_trip linux_host linux_platform default_pool_policy local_member ∅ 0
    healthy_answer) as H.
  destruct (discover _ _ _ _ _ Refresh _ _) as [record cache] eqn:E.
  destruct (record_descriptor record) as [d|] eqn:Ed; [|vm_compute in E; injection E as <- <-; discriminate Ed].
  rewrite (H d 1000%Z healthy_answer); [reflexivity| |reflexivity|vm_compute; reflexivity].
  vm_compute in E. injection E as <- <-. reflexivity.
Defined.

Lemma discovery_records_sound_witness :
  (record_provider_id <$> fst (capabilities linux_host linux_platform local_pool ∅ Refresh None 0
     (λ _, healthy_answer))) = ["local"].
Proof.
  rewrite (proj1 (discovery_records_sound linux_host linux_platform default_pool_policy local_pool ∅
    Refresh 0 (λ _, healthy_answer) local_pool_reachable)).
  vm_compute. reflexivity.
Defined.

(** [cached_only_while_fresh] has no hypothesis of its own: what it says of an
    entry stored at time zero for five minutes. *)
Lemma cached_only_while_fresh_witness :
  let cache := snd (discover linux_host linux_platform default_pool_policy local_member ∅ Refresh 0
                      healthy_answer) in
  record_status (fst (discover linux_host linux_platform default_pool_policy local_member cache
    PreferCache (seconds 301) healthy_answer)) ≠ Cached.
Proof.
  intros cache Hc.
  apply (cached_only_while_fresh linux_host linux_platform default_pool_policy local_member cache
           PreferCache (seconds 301) healthy_answer) in Hc as (entry & d & Hentry & Hlt & _).
  vm_compute in Hentry. injection Hentry as <-. vm_compute in Hlt. discriminate Hlt.
Defined.
