(* ===== verification/Placement.v ===== *)
(** Placement: deterministic provider selection and inspectable decisions
    (src/crates/compute-placement/src/placement.rs).

    [place_with_policy] reads the evaluation of a chosen provider with
    [expect]: here each [expect] is an [option], and the whole function returns
    [None] where the source would panic.  [chrono]'s RFC 3339 rendering and the
    SHA-256 identities are parameters. *)

From S2P Require Import Prelude Text Core Isolation Policy Admission Descriptor Matching Pool.

(** ** Policies *)

Inductive PlacementPolicy : Type :=
| Auto
| PreferLocal
| PreferRemote
| PreferProvider (id : string)
| OnlyProvider (id : string).

#[export] Instance PlacementPolicy_eq_dec : EqDecision PlacementPolicy.
Proof. solve_decision. Defined.

Module PlacementPolicy.
Definition accepts (policy : PlacementPolicy) (id : string) : bool :=
  match policy with OnlyProvider wanted => String.eqb id wanted | _ => true end.

Definition label (policy : PlacementPolicy) : string :=
  match policy with
  | Auto => "auto" | PreferLocal => "local" | PreferRemote => "remote"
  | PreferProvider _ => "prefer_provider" | OnlyProvider _ => "provider"
  end.

Definition policy_provider (policy : PlacementPolicy) : option string :=
  match policy with OnlyProvider id | PreferProvider id => Some id | _ => None end.

Definition explicit (policy : PlacementPolicy) : option string :=
  match policy with OnlyProvider id => Some id | _ => None end.

(** [{:?}] *)
Definition debug (policy : PlacementPolicy) : string :=
  match policy with
  | Auto => "Auto" | PreferLocal => "PreferLocal" | PreferRemote => "PreferRemote"
  | PreferProvider id => "PreferProvider(" +:+ debug_str id +:+ ")"
  | OnlyProvider id => "Provider(" +:+ debug_str id +:+ ")"
  end.
End PlacementPolicy.

Definition EXPLICIT_ORDERING : string := "explicit_provider".

Definition policy_ordering (policy : PlacementPolicy) : string :=
  match policy with
  | Auto => "capacity,runtime_readiness,locality,priority_descending,provider_id_ascending"
  | PreferLocal | PreferRemote =>
      "capacity,locality,runtime_readiness,priority_descending,provider_id_ascending"
  | PreferProvider _ =>
      "capacity,provider_affinity,runtime_readiness,locality,priority_descending,provider_id_ascending"
  | OnlyProvider _ => EXPLICIT_ORDERING
  end.

Record SelectionPolicy : Type := {
  ordering : list string;
  sel_require_healthy : bool;
  sel_allow_stale_capabilities : bool;
}.

(** [SelectionPolicy::from_pool], with the ordering of the placement policy. *)
Definition selection_policy_of (policy : PoolPolicy) (placement_policy : PlacementPolicy)
    : SelectionPolicy :=
  {| ordering := split "," (policy_ordering placement_policy);
     sel_require_healthy := require_healthy policy;
     sel_allow_stale_capabilities := allow_stale_capabilities policy |}.

Inductive SelectionMode : Type := SelectExplicit | SelectPool.

(** ** Evaluations *)

Inductive EvaluationStatus : Type :=
| EvalCompatible | EvalIncompatible | CapabilitiesUnknown | CapabilitiesInvalid
| EvalProviderUnavailable | ExcludedUnhealthy | PolicyDenied.

#[export] Instance EvaluationStatus_eq_dec : EqDecision EvaluationStatus.
Proof. solve_decision. Defined.

Definition status_str (status : EvaluationStatus) : string :=
  match status with
  | EvalCompatible => "compatible"
  | EvalIncompatible => "incompatible"
  | CapabilitiesUnknown => "capabilities_unknown"
  | CapabilitiesInvalid => "provider_capabilities_invalid"
  | EvalProviderUnavailable => "provider_unavailable"
  | ExcludedUnhealthy => "excluded_unhealthy"
  | PolicyDenied => "policy_denied"
  end.

Inductive CapacityStatus : Type := CapacityAvailable | CapacityUnavailable | CapacityUnknown.

#[export] Instance CapacityStatus_eq_dec : EqDecision CapacityStatus.
Proof. solve_decision. Defined.

Record CandidateDecision : Type := {
  eligible : bool;
  is_selected : bool;
  rank : option N;
  candidate_reasons_ : list string;
}.

Definition default_candidate : CandidateDecision :=
  {| eligible := false; is_selected := false; rank := None; candidate_reasons_ := [] |}.

Record ProviderEvaluation : Type := {
  pe_provider_id : string;
  pe_provider_kind : ProviderKind;
  pe_priority : Z;
  pe_endpoint : option string;
  pe_discovery : DiscoveryStatus;
  pe_health : Health;
  pe_capability_version : option string;
  pe_provider_identity : option ProviderIdentity;
  pe_runtime_lifecycle : option RuntimeLifecycleStatus;
  pe_runtime_distribution : option RuntimeDistribution;
  pe_platform : option PlatformIdentity;
  pe_resources : option ProviderResourceInventory;
  pe_status : EvaluationStatus;
  pe_capacity_status : CapacityStatus;
  pe_capacity_reasons : list IncompatibilityReason;
  pe_candidate : CandidateDecision;
  pe_reasons : list IncompatibilityReason;
  pe_admission : option AdmissionDecision;
  pe_error : option DiscoveryError;
}.

Record SelectionReason : Type := {
  compatibility_result : string;
  selection_priority : Z;
  reason_ordering : string;
  compatible_candidates : N;
}.

Record SelectedProvider : Type := {
  selected_provider_id : string;
  selected_provider_kind : ProviderKind;
  selected_provider_identity : ProviderIdentity;
  selected_provider_protocol : string;
  selected_capability_version : string;
  selected_policy_id : string;
  selected_admission_id : string;
  selection_reason : SelectionReason;
  selected_runtime_lifecycle : RuntimeLifecycleStatus;
  selected_runtime_distribution : option RuntimeDistribution;
  selected_platform : PlatformIdentity;
  selected_resources : ProviderResourceInventory;
}.

Record AdmissionContext : Type := {
  context_policy : EffectivePolicy;
  request_policy : option Policy;
  context_contract : ExecutionContract;
}.

Inductive PlacementOutcome : Type := Placed | PlacementFailed.

Record PlacementFailure : Type := {
  failure_code : string;
  failure_message : string;
}.

Record PlacementExplanation : Type := {
  requires : list string;
  considered : list string;
  selection : string;
}.

(** ** Capacity *)

Definition PLACEMENT_VERSION : string := "compute.placement@1".

(** A shortage of what is available now. *)
Definition shortage (code : ReasonCode) (required : option N) (free : N) (what unit_ : string)
    : list IncompatibilityReason :=
  match required with
  | Some value =>
      if N.ltb free value then
        [{| ir_code := code; ir_dimension := "capacity"; ir_required := json value;
            ir_available := json free;
            ir_detail := Some (what +:+ " requires " +:+ show value +:+ unit_
              +:+ ", currently available " +:+ show free +:+ unit_) |}]
      else []
  | None => []
  end.

(** [capacity_reasons] *)
Definition capacity_reasons (r : PlacementRequirements) (inventory : ProviderResourceInventory)
    : list IncompatibilityReason :=
  let need := pr_resources r in
  let free := available inventory in
  shortage CpuUnavailable (need_cpu_count need) (rv_cpu_count free) "cpu" "" ++
  shortage MemoryUnavailable (need_memory_bytes need) (rv_memory_bytes free) "memory" " bytes" ++
  shortage DiskUnavailable (need_disk_bytes need) (rv_disk_bytes free) "disk" " bytes".

(** ** Ordering *)

Definition runtime_ready (p : ProviderEvaluation) : bool :=
  match pe_runtime_lifecycle p with Some Ready | Some Installed => true | _ => false end.

Definition capacity_rank (p : ProviderEvaluation) : N :=
  match pe_capacity_status p with
  | CapacityAvailable => 0 | CapacityUnknown => 1 | CapacityUnavailable => 2
  end.

Definition affinity (policy : PlacementPolicy) (p : ProviderEvaluation) : N :=
  match policy with
  | PreferProvider id => if String.eqb (pe_provider_id p) id then 0 else 1
  | _ => 0
  end.

Definition locality (policy : PlacementPolicy) (p : ProviderEvaluation) : N :=
  let preferred := match policy with PreferRemote => KindRemote | _ => KindLocal end in
  if bool_decide (pe_provider_kind p = preferred) then 0 else 1.

Definition ready_rank (p : ProviderEvaluation) : N := if runtime_ready p then 0 else 1.

(** [compare_candidates] *)
Definition compare_candidates (policy : PlacementPolicy) (l r : ProviderEvaluation) : comparison :=
  let common :=
    then_with (cmp (capacity_rank l) (capacity_rank r)) (cmp (affinity policy l) (affinity policy r)) in
  let by_locality := cmp (locality policy l) (locality policy r) in
  let by_ready := cmp (ready_rank l) (ready_rank r) in
  let preferred :=
    match policy with
    | PreferLocal | PreferRemote => then_with (then_with common by_locality) by_ready
    | _ => then_with (then_with common by_ready) by_locality
    end in
  then_with (then_with preferred (cmp (pe_priority r) (pe_priority l)))
    (cmp (pe_provider_id l) (pe_provider_id r)).

(** The order the report lists providers in. *)
Definition compare_providers (l r : ProviderEvaluation) : comparison :=
  then_with (cmp (pe_priority r) (pe_priority l)) (cmp (pe_provider_id l) (pe_provider_id r)).

(** [candidate_reasons] *)
Definition candidate_reasons (policy : PlacementPolicy) (p : ProviderEvaluation) : list string :=
  if negb (bool_decide (pe_status p = EvalCompatible)) then
    ((λ found, ReasonCode.as_str (ir_code found)) <$> pe_reasons p) ++ [status_str (pe_status p)]
  else
    [match pe_capacity_status p with
     | CapacityAvailable => "sufficient_capacity"
     | CapacityUnavailable => "capacity_unavailable"
     | CapacityUnknown => "capacity_unknown"
     end] ++
    match policy with
    | PreferProvider id =>
        [if String.eqb (pe_provider_id p) id then "preferred_provider"
         else "provider_affinity_not_matched"]
    | _ => []
    end ++
    [if runtime_ready p then "runtime_ready" else "runtime_requires_preparation";
     ProviderKind.to_string (pe_provider_kind p);
     "pool_priority:" +:+ show_z (pe_priority p)].

(** ** Explanations *)

(** Compact JSON, as [serde_json::Value] displays itself. *)
Fixpoint escape_json (s : string) : string :=
  match s with
  | EmptyString => ""
  | String c s =>
      let n := byte_of c in
      (if N.eqb n 34 then String "\" (String c "")
       else if N.eqb n 92 then "\\"
       else if N.eqb n 8 then "\b" else if N.eqb n 9 then "\t" else if N.eqb n 10 then "\n"
       else if N.eqb n 12 then "\f" else if N.eqb n 13 then "\r"
       else if N.ltb n 32 then
         let hex d := if N.ltb d 10 then ascii_of_N (48 + d) else ascii_of_N (87 + d) in
         "\u00" +:+ String (hex (N.shiftr n 4)) (String (hex (N.land n 15)) "")
       else String c "") +:+ escape_json s
  end.

Definition json_str (s : string) : string := quote +:+ escape_json s +:+ quote.

Fixpoint show_value (v : Value) : string :=
  match v with
  | Null => "null"
  | Bool b => if b then "true" else "false"
  | Number n => show_z n
  | Str s => json_str s
  | Array l => "[" +:+ join "," (map show_value l) +:+ "]"
  | Object fields =>
      "{" +:+ join "," (map (λ field, json_str (fst field) +:+ ":" +:+ show_value (snd field)) fields)
      +:+ "}"
  end.

Definition lifecycle_str (status : RuntimeLifecycleStatus) : string :=
  match status with
  | Installed => "installed" | Available => "available" | Preparing => "preparing"
  | Ready => "ready" | Unsupported => "unsupported" | Unavailable => "unavailable"
  | LifecycleFailed => "failed"
  end.

Definition health_str (h : Health) : string :=
  match h with Healthy => "healthy" | Unhealthy => "unhealthy" | HealthUnknown => "unknown" end.

(** [policy_reasons]: the messages that are not about capability. *)
Definition policy_messages (p : ProviderEvaluation) : string :=
  join "; "
    (from_option (λ decision,
       reason_message <$> filter (λ r, reason_kind r ≠ KindCapability) (decision_reasons decision))
       [] (pe_admission p)).

Definition explain_limits (need : ResourceRequirement) : list string :=
  let entry (name : string) (value : option N) (unit_ : string) :=
    from_option (λ v, [name +:+ " " +:+ show v +:+ unit_]) [] value in
  entry "cpu count" (need_cpu_count need) "" ++ entry "timeout" (need_timeout_ms need) "ms" ++
  entry "memory" (need_memory_bytes need) " bytes" ++ entry "disk" (need_disk_bytes need) " bytes" ++
  entry "cpu time" (need_cpu_time_ms need) "ms" ++ entry "process count" (need_process_count need) "" ++
  entry "stdout" (need_stdout_bytes need) " bytes" ++ entry "stderr" (need_stderr_bytes need) " bytes".

Definition submission_str (mode : SubmissionMode) : string :=
  match mode with
  | Synchronous => "synchronous" | Job => "job" | Deployment => "deployment" | Session => "session"
  end.

(** What does this workload require? *)
Definition explain_requires (r : PlacementRequirements) : list string :=
  let kind := RuntimeKind.as_str (rr_kind (pr_runtime r)) in
  let artifact := pr_artifact r in
  [match rr_version (pr_runtime r) with
   | Some version => "runtime " +:+ kind +:+ " version " +:+ version
   | None => "runtime " +:+ kind +:+ " (any version)"
   end] ++
  from_option (λ id, ["runtime artifact " +:+ id]) [] (rr_artifact_id (pr_runtime r)) ++
  [from_option (λ d, "distribution " +:+ dr_id d) "distribution: not pinned by the caller"
     (pr_distribution r);
   from_option (λ dep, "dependency capsule " +:+ dep_id dep +:+ " (" +:+
       (if dep_embedded dep then "embedded; the provider must accept and verify it"
        else "not embedded; the provider must already hold it") +:+ ")")
     "dependency capsule: none" (pr_dependencies r);
   "isolation " +:+ IsolationProfile.as_str (pr_isolation r);
   "network " +:+ network_str (pr_network r);
   match explain_limits (pr_resources r) with
   | [] => "resources: no enforced limits requested"
   | limits => "resources: " +:+ join ", " limits
   end;
   from_option (λ platform, "platform " +:+ platform_label platform) "platform: any" (pr_platform r)] ++
  from_option (λ arch, ["architecture " +:+ arch]) [] (pr_architecture r) ++
  ["artifact " +:+ art_mode artifact +:+ " transport of " +:+ show (art_request_bytes artifact)
   +:+ " bytes, " +:+ submission_str (art_submission artifact) +:+ " submission"] ++
  match pr_session_capabilities r with
  | [] => [] | names => ["session capabilities: " +:+ join ", " names]
  end ++
  match pr_target_features r with
  | [] => [] | names => ["target features: " +:+ join ", " names]
  end.

Definition explain_status (head : string) (p : ProviderEvaluation) : string :=
  match pe_status p with
  | EvalCompatible =>
      match pe_capacity_status p with
      | CapacityAvailable => head +:+ ": compatible; capacity available"
      | CapacityUnavailable =>
          head +:+ ": compatible; capacity temporarily unavailable (will queue): "
          +:+ join "; " (omap ir_detail (pe_capacity_reasons p))
      | CapacityUnknown => head +:+ ": compatible; capacity unknown"
      end
  | PolicyDenied => head +:+ ": capable, but policy denied: " +:+ policy_messages p
  | EvalIncompatible =>
      head +:+ ": incompatible" +:+
      (if from_option (λ decision, has_kind decision KindPolicy) false (pe_admission p)
       then " (policy would also deny: " +:+ policy_messages p +:+ ")"
       else " (policy would admit)") +:+ ": " +:+
      join "; " ((λ found, ReasonCode.as_str (ir_code found) +:+ " (required "
        +:+ show_value (ir_required found) +:+ ", available " +:+ show_value (ir_available found) +:+ ")")
        <$> pe_reasons p)
  | ExcludedUnhealthy =>
      head +:+ ": compatible, but excluded because the pool requires healthy providers"
  | status =>
      head +:+ ": " +:+ status_str status
      +:+ from_option (λ error, ": " +:+ derror_message error) "" (pe_error p)
  end.

(** Why is each provider compatible or not? *)
Definition explain_provider (r : PlacementRequirements) (p : ProviderEvaluation) : string :=
  let head :=
    pe_provider_id p +:+ " (" +:+ ProviderKind.to_string (pe_provider_kind p) +:+ ", priority "
    +:+ show_z (pe_priority p) +:+ ", health " +:+ health_str (pe_health p) +:+ ")" +:+
    match pe_runtime_lifecycle p with
    | Some lifecycle =>
        ", runtime " +:+ RuntimeKind.as_str (rr_kind (pr_runtime r)) +:+ " " +:+ lifecycle_str lifecycle
        +:+ from_option (λ d, ", distribution " +:+ dist_id d) "" (pe_runtime_distribution p)
    | None => ""
    end in
  let candidate := pe_candidate p in
  explain_status head p +:+ "; candidate: " +:+
  from_option (λ n, "rank " +:+ show n) "not ranked" (rank candidate) +:+
  (if is_selected candidate then ", selected" else ", not selected") +:+
  "; reasons: " +:+ join ", " (candidate_reasons_ candidate).

Definition explain_selection (selected : option SelectedProvider) (failure : option PlacementFailure)
    : string :=
  match selected, failure with
  | Some s, _ =>
      let why := selection_reason s in
      if String.eqb (reason_ordering why) EXPLICIT_ORDERING then
        "selected provider " +:+ selected_provider_id s
        +:+ ": explicitly requested, compatible, and admitted by policy"
      else
        "selected provider " +:+ selected_provider_id s
        +:+ ": compatible and admitted by policy, with selection priority "
        +:+ show_z (selection_priority why) +:+ ", first among " +:+ show (compatible_candidates why)
        +:+ " candidate(s) ordered by " +:+ reason_ordering why
  | None, Some f => "placement_failed: " +:+ failure_code f +:+ ": " +:+ failure_message f
  | None, None => "placement_failed"
  end.

(** [explain] *)
Definition explain (r : PlacementRequirements) (providers : list ProviderEvaluation)
    (selected : option SelectedProvider) (failure : option PlacementFailure) : PlacementExplanation :=
  {| requires := explain_requires r;
     considered := explain_provider r <$> providers;
     selection := explain_selection selected failure |}.

(** ** Identity *)

Record PlacementMemberMaterial : Type := {
  pm_provider_id : string;
  pm_kind : ProviderKind;
  pm_endpoint : option string;
  pm_priority : Z;
  pm_capability_version : option string;
  pm_status : EvaluationStatus;
  pm_admission_id : option string;
  pm_health : option Health;
  pm_cpu_available : option N;
  pm_memory_available : option N;
  pm_disk_available : option N;
}.

Record PlacementMaterial : Type := {
  mat_placement_version : string;
  mat_requirements : PlacementRequirements;
  mat_policy_id : string;
  mat_contract : ExecutionContract;
  mat_selection_policy : SelectionPolicy;
  mat_selection_mode : SelectionMode;
  mat_placement_policy : PlacementPolicy;
  mat_requested_provider : option string;
  mat_providers : list PlacementMemberMaterial;
}.

Definition member_material (r : PlacementRequirements) (policy : SelectionPolicy)
    (p : ProviderEvaluation) : PlacementMemberMaterial :=
  let free (needed : option N) (get : ResourceVector → N) :=
    _ ← needed; (λ inventory, get (available inventory)) <$> pe_resources p in
  let need := pr_resources r in
  {| pm_provider_id := pe_provider_id p;
     pm_kind := pe_provider_kind p;
     pm_endpoint := pe_endpoint p;
     pm_priority := pe_priority p;
     pm_capability_version := pe_capability_version p;
     pm_status := pe_status p;
     pm_admission_id := admission_id <$> pe_admission p;
     pm_health := if sel_require_healthy policy then Some (pe_health p) else None;
     pm_cpu_available := free (need_cpu_count need) rv_cpu_count;
     pm_memory_available := free (need_memory_bytes need) rv_memory_bytes;
     pm_disk_available := free (need_disk_bytes need) rv_disk_bytes |}.

(** [AdmissionContext::new] *)
Definition reduce_policies (policies : list Policy) : option Policy :=
  match policies with
  | [] => None
  | [single] => Some single
  | first :: rest => Some (unnamed (foldl intersect first rest))
  end.

Definition admission_context `{!CanonicalIdentity Policy} (srcs : list (PolicySourceKind * Policy))
    (contract : ExecutionContract) : AdmissionContext :=
  {| context_policy := compose srcs;
     request_policy := reduce_policies (snd <$> srcs);
     context_contract := contract |}.

(** ** Evaluation and placement *)

Record PlacementReport : Type := {
  placement_version : string;
  placement_id : string;
  outcome : PlacementOutcome;
  selection_mode : SelectionMode;
  placement_policy : PlacementPolicy;
  requested_provider : option string;
  report_requirements : PlacementRequirements;
  selection_policy : SelectionPolicy;
  report_policy_id : string;
  report_admission : AdmissionContext;
  providers : list ProviderEvaluation;
  compatible_providers : list string;
  capacity_available_providers : list string;
  capacity_unavailable_providers : list string;
  incompatible_providers : list string;
  excluded_providers : list string;
  selected : option SelectedProvider;
  failure : option PlacementFailure;
  explanation : PlacementExplanation;
}.

(** The identifiers of the providers a predicate holds of, in report order. *)
Definition ids_where (wanted : ProviderEvaluation → bool) (providers : list ProviderEvaluation)
    : list string :=
  pe_provider_id <$> filter wanted providers.

Definition has_status (status : EvaluationStatus) (p : ProviderEvaluation) : bool :=
  bool_decide (pe_status p = status).

Definition is_excluded (p : ProviderEvaluation) : bool :=
  match pe_status p with EvalCompatible | EvalIncompatible => false | _ => true end.

Definition find_provider (providers : list ProviderEvaluation) (id : string)
    : option ProviderEvaluation :=
  find (λ p, String.eqb (pe_provider_id p) id) providers.

(** [Iterator::position] *)
Fixpoint position (id : string) (ids : list string) : option N :=
  match ids with
  | [] => None
  | other :: rest => if String.eqb other id then Some 0%N else N.succ <$> position id rest
  end.

Section placement.
Context `{!CloudflareTable}.
Context `{!CanonicalIdentity Policy, !CanonicalIdentity AdmissionMaterial,
          !CanonicalIdentity PlacementMaterial}.
Context (host : HostCapabilities) (rfc3339 : Z → string).

(** [admit_on] *)
Definition admit_on (d : ProviderDescriptor) (matched : CapabilityMatch) (context : AdmissionContext)
    : AdmissionDecision :=
  let effective :=
    match descriptor_policy d with
    | Some provider_policy => with_source (context_policy context) Provider provider_policy
    | None => context_policy context
    end in
  let facts :=
    {| facts_identity := provider_identity d;
       facts_distribution_id := offered_id (distribution d);
       facts_platform := Some (offered_platform (distribution d));
       facts_runtime_version :=
         effective_version <$> runtime d (cr_kind (contract_runtime (context_contract context))) |} in
  let capability :=
    if compatible matched then Compatible
    else Incompatible (ReasonCode.as_str <$> codes matched) in
  policy_admit (effective_policy effective) (context_contract context) facts capability.

(** The descriptor an evaluation may rely on. *)
Definition usable_descriptor (record : DiscoveryRecord) (policy : PoolPolicy)
    : option ProviderDescriptor :=
  match record_status record with
  | Discovered | Cached => record_descriptor record
  | Stale => if allow_stale_capabilities policy then record_descriptor record else None
  | _ => None
  end.

Definition evaluate_descriptor (record : DiscoveryRecord) (d : ProviderDescriptor)
    (policy : PoolPolicy) (r : PlacementRequirements) (context : AdmissionContext)
    : EvaluationStatus * list IncompatibilityReason * AdmissionDecision :=
  let matched := match_provider host r d in
  let decision := admit_on d matched context in
  if negb (compatible matched) then (EvalIncompatible, match_reasons matched, decision)
  else if negb (is_admitted decision) then (PolicyDenied, [], decision)
  else if require_healthy policy && negb (bool_decide (record_health record = Healthy)) then
    (ExcludedUnhealthy, [], decision)
  else (EvalCompatible, [], decision).

(** The status of a provider without a usable descriptor. *)
Definition unusable_status (record : DiscoveryRecord) : EvaluationStatus :=
  match record_status record with
  | Stale => CapabilitiesUnknown
  | DiscoveryInvalid => CapabilitiesInvalid
  | _ => EvalProviderUnavailable
  end.

(** [evaluate] *)
Definition evaluate (record : DiscoveryRecord) (config : ProviderConfig) (policy : PoolPolicy)
    (r : PlacementRequirements) (context : AdmissionContext) : ProviderEvaluation :=
  let d := record_descriptor record in
  let usable := usable_descriptor record policy in
  let '(status, reasons, decision) :=
    match usable with
    | Some d =>
        let '(status, reasons, decision) := evaluate_descriptor record d policy r context in
        (status, reasons, Some decision)
    | None => (unusable_status record, [], None)
    end in
  let shortages := from_option (λ d, capacity_reasons r (resources d)) [] usable in
  let offer := d ≫= λ d, runtime d (rr_kind (pr_runtime r)) in
  {| pe_provider_id := record_provider_id record;
     pe_provider_kind := config_kind config;
     pe_priority := config_priority config;
     pe_endpoint := config_endpoint config;
     pe_discovery := record_status record;
     pe_health := record_health record;
     pe_capability_version := capability_version <$> d;
     pe_provider_identity := provider_identity <$> d;
     pe_runtime_lifecycle := offer_lifecycle <$> offer;
     pe_runtime_distribution := offer ≫= offer_distribution;
     pe_platform := (λ d, offered_platform (distribution d)) <$> d;
     pe_resources := resources <$> d;
     pe_status := status;
     pe_capacity_status :=
       match usable with
       | None => CapacityUnknown
       | Some _ => match shortages with [] => CapacityAvailable | _ => CapacityUnavailable end
       end;
     pe_capacity_reasons := shortages;
     pe_candidate := default_candidate;
     pe_reasons := reasons;
     pe_admission := decision;
     pe_error :=
       match status with
       | CapabilitiesUnknown => Some
           {| derror_code := "provider_capabilities_stale";
              derror_message := "capabilities expired at "
                +:+ from_option (λ d, rfc3339 (expires_at (availability d))) "" d
                +:+ "; refresh them with `compute provider refresh`";
              derror_violations := [] |}
       | _ => record_error record
       end |}.

(** One step of the loop over the records: a record is skipped when another
    provider is named, or when it is not configured. *)
Definition evaluate_record (configs : gmap string ProviderConfig) (policy : PoolPolicy)
    (r : PlacementRequirements) (context : AdmissionContext) (explicit : option string)
    (record : DiscoveryRecord) : option ProviderEvaluation :=
  if match explicit with Some id => negb (String.eqb id (record_provider_id record)) | None => false end
  then None
  else config ← configs !! record_provider_id record;
       Some (evaluate record config policy r context).

Definition evaluations (configs : gmap string ProviderConfig) (policy : PoolPolicy)
    (records : list DiscoveryRecord) (r : PlacementRequirements) (context : AdmissionContext)
    (explicit : option string) : list ProviderEvaluation :=
  omap (evaluate_record configs policy r context explicit) records.

Definition is_candidate (policy : PlacementPolicy) (p : ProviderEvaluation) : bool :=
  has_status EvalCompatible p && PlacementPolicy.accepts policy (pe_provider_id p).

(** The identifiers of the candidates, best first. *)
Definition candidate_ids (policy : PlacementPolicy) (providers : list ProviderEvaluation)
    : list string :=
  sort_by (λ l r,
    match find_provider providers l, find_provider providers r with
    | Some l, Some r => compare_candidates policy l r
    | _, _ => Eq
    end) (ids_where (is_candidate policy) providers).

Definition decide_candidate (policy : PlacementPolicy) (ids : list string) (p : ProviderEvaluation)
    : ProviderEvaluation :=
  {| pe_provider_id := pe_provider_id p; pe_provider_kind := pe_provider_kind p;
     pe_priority := pe_priority p; pe_endpoint := pe_endpoint p; pe_discovery := pe_discovery p;
     pe_health := pe_health p; pe_capability_version := pe_capability_version p;
     pe_provider_identity := pe_provider_identity p;
     pe_runtime_lifecycle := pe_runtime_lifecycle p;
     pe_runtime_distribution := pe_runtime_distribution p; pe_platform := pe_platform p;
     pe_resources := pe_resources p; pe_status := pe_status p;
     pe_capacity_status := pe_capacity_status p; pe_capacity_reasons := pe_capacity_reasons p;
     pe_candidate :=
       {| eligible := has_status EvalCompatible p;
          is_selected := bool_decide (head ids = Some (pe_provider_id p));
          rank := N.succ <$> position (pe_provider_id p) ids;
          candidate_reasons_ := candidate_reasons policy p |};
     pe_reasons := pe_reasons p; pe_admission := pe_admission p; pe_error := pe_error p |}.

(** The selected provider, or [None] where an [expect] would panic. *)
Definition select (policy : PlacementPolicy) (providers : list ProviderEvaluation)
    (p : ProviderEvaluation) : option SelectedProvider :=
  identity ← pe_provider_identity p;
  version ← pe_capability_version p;
  decision ← pe_admission p;
  lifecycle ← pe_runtime_lifecycle p;
  platform ← pe_platform p;
  inventory ← pe_resources p;
  Some {| selected_provider_id := pe_provider_id p;
          selected_provider_kind := pe_provider_kind p;
          selected_provider_identity := identity;
          selected_provider_protocol := ProviderKind.protocol (pe_provider_kind p);
          selected_capability_version := version;
          selected_policy_id := decision_policy_id decision;
          selected_admission_id := admission_id decision;
          selection_reason :=
            {| compatibility_result := "compatible";
               selection_priority := pe_priority p;
               reason_ordering :=
                 if is_some (PlacementPolicy.explicit policy) then EXPLICIT_ORDERING
                 else policy_ordering policy;
               compatible_candidates :=
                 N.of_nat (length (filter (is_candidate policy) providers)) |};
          selected_runtime_lifecycle := lifecycle;
          selected_runtime_distribution := pe_runtime_distribution p;
          selected_platform := platform;
          selected_resources := inventory |}.

Definition fail_placement (configs : gmap string ProviderConfig) (policy : PlacementPolicy)
    (providers : list ProviderEvaluation) : PlacementFailure :=
  let denied := ids_where (has_status PolicyDenied) providers in
  let compatible := ids_where (has_status EvalCompatible) providers in
  match PlacementPolicy.explicit policy with
  | Some id =>
      if bool_decide (configs !! id = None) then
        {| failure_code := "provider_not_configured";
           failure_message := "provider " +:+ id +:+ " is not configured in this pool" |}
      else if bool_decide (id ∈ denied) then
        {| failure_code := "explicit_provider_denied";
           failure_message := "explicitly selected provider " +:+ id +:+ " is capable, but policy does not admit this execution; explicit selection never bypasses policy" |}
      else
        {| failure_code := "explicit_provider_incompatible";
           failure_message := "explicitly selected provider " +:+ id +:+ " cannot satisfy this workload; no other provider is substituted" |}
  | None =>
      let count (ids : list string) := N.of_nat (length ids) in
      {| failure_code := "no_compatible_provider";
         failure_message :=
           match compatible with
           | [] =>
               "no provider proved it satisfies this workload contract and is admitted by policy ("
               +:+ show (N.of_nat (length providers)) +:+ " evaluated: "
               +:+ show (count (ids_where (has_status EvalIncompatible) providers)) +:+ " incompatible, "
               +:+ show (count denied) +:+ " policy-denied, "
               +:+ show (count (ids_where is_excluded providers) - count denied) +:+ " excluded)"
           | _ => show (count compatible)
               +:+ " provider(s) are eligible, but none matches placement policy "
               +:+ PlacementPolicy.debug policy
           end |}
  end.

Definition placement_identity (r : PlacementRequirements) (context : AdmissionContext)
    (policy : SelectionPolicy) (mode : SelectionMode) (wanted : PlacementPolicy)
    (explicit : option string) (providers : list ProviderEvaluation) : string :=
  canonical_identity
    {| mat_placement_version := PLACEMENT_VERSION; mat_requirements := r;
       mat_policy_id := effective_policy_id (context_policy context);
       mat_contract := context_contract context; mat_selection_policy := policy;
       mat_selection_mode := mode; mat_placement_policy := wanted;
       mat_requested_provider := explicit;
       mat_providers := member_material r policy <$> providers |}.

(** The report of a decision: the providers as decided, the selection. *)
Definition report (policy : PoolPolicy) (r : PlacementRequirements) (context : AdmissionContext)
    (wanted : PlacementPolicy) (providers : list ProviderEvaluation)
    (selected : option SelectedProvider) (failure : option PlacementFailure) : PlacementReport :=
  let explicit := PlacementPolicy.explicit wanted in
  let mode := if is_some explicit then SelectExplicit else SelectPool in
  let selection := selection_policy_of policy wanted in
  let compatible := ids_where (has_status EvalCompatible) providers in
  let available := filter (λ id, Exists (λ p, pe_provider_id p = id ∧
                             pe_capacity_status p = CapacityAvailable) providers) compatible in
  {| placement_version := PLACEMENT_VERSION;
     placement_id := placement_identity r context selection mode wanted explicit providers;
     outcome := if is_some selected then Placed else PlacementFailed;
     selection_mode := mode;
     placement_policy := wanted;
     requested_provider := explicit;
     report_requirements := r;
     selection_policy := selection;
     report_policy_id := effective_policy_id (context_policy context);
     report_admission := context;
     providers := providers;
     compatible_providers := compatible;
     capacity_available_providers := available;
     capacity_unavailable_providers := filter (λ id, id ∉ available) compatible;
     incompatible_providers := ids_where (has_status EvalIncompatible) providers;
     excluded_providers := ids_where is_excluded providers;
     selected := selected;
     failure := failure;
     explanation := explain r providers selected failure |}.

(** [place_with_policy] *)
Definition place_with_policy (configs : gmap string ProviderConfig) (policy : PoolPolicy)
    (records : list DiscoveryRecord) (r : PlacementRequirements) (context : AdmissionContext)
    (wanted : PlacementPolicy) : option PlacementReport :=
  let evaluated := sort_by compare_providers
    (evaluations configs policy records r context (PlacementPolicy.explicit wanted)) in
  let ids := candidate_ids wanted evaluated in
  let providers := decide_candidate wanted ids <$> evaluated in
  let report := report policy r context wanted providers in
  match head ids with
  | Some id =>
      p ← find_provider providers id;
      s ← select wanted providers p;
      Some (report (Some s) None)
  | None => Some (report None (Some (fail_placement configs wanted providers)))
  end.

(** [place] *)
Definition place (configs : gmap string ProviderConfig) (policy : PoolPolicy)
    (records : list DiscoveryRecord) (r : PlacementRequirements) (context : AdmissionContext)
    (explicit : option string) : option PlacementReport :=
  place_with_policy configs policy records r context (from_option OnlyProvider Auto explicit).
End placement.

(** ** Order of candidates *)

#[export] Instance priority_total :
  TotalCmp (λ l r : ProviderEvaluation, cmp (pe_priority l) (pe_priority r)).
Proof. apply (cmp_on (@cmp Z _)). Qed.

#[export] Instance compare_candidates_total policy : TotalCmp (compare_candidates policy).
Proof.
  unfold compare_candidates. apply then_with_total; [apply then_with_total|apply (cmp_on (@cmp string _))].
  - destruct policy; repeat apply then_with_total; apply (cmp_on (@cmp N _)).
  - apply (cmp_flipped (λ l r, cmp (pe_priority l) (pe_priority r))).
Qed.

#[export] Instance compare_providers_total : TotalCmp compare_providers.
Proof.
  unfold compare_providers. apply then_with_total; [|apply (cmp_on (@cmp string _))].
  apply (cmp_flipped (λ l r, cmp (pe_priority l) (pe_priority r))).
Qed.

Lemma then_with_eq c d : then_with c d = Eq ↔ c = Eq ∧ d = Eq.
Proof. destruct c; naive_solver. Qed.

Lemma compare_candidates_eq policy l r :
  compare_candidates policy l r = Eq → pe_provider_id l = pe_provider_id r.
Proof. unfold compare_candidates. intros [_ Hid]%then_with_eq. by apply cmp_eq in Hid. Qed.

Lemma compare_providers_eq l r : compare_providers l r = Eq → pe_provider_id l = pe_provider_id r.
Proof. unfold compare_providers. intros [_ Hid]%then_with_eq. by apply cmp_eq in Hid. Qed.

(** *** The published ordering

    A report publishes the names of the criteria candidates are ordered by;
    this is what each of them means, and what the list of them means. *)

Definition more_capacity (l r : CapacityStatus) : Prop :=
  match l, r with
  | CapacityAvailable, (CapacityUnknown | CapacityUnavailable)
  | CapacityUnknown, CapacityUnavailable => True
  | _, _ => False
  end.

Definition is_near (policy : PlacementPolicy) (p : ProviderEvaluation) : Prop :=
  pe_provider_kind p = match policy with PreferRemote => KindRemote | _ => KindLocal end.

Definition is_preferred (policy : PlacementPolicy) (p : ProviderEvaluation) : Prop :=
  policy = PreferProvider (pe_provider_id p).

(** The first provider is better than the second by one criterion. *)
Definition Better (policy : PlacementPolicy) (criterion : string) (l r : ProviderEvaluation) : Prop :=
  match criterion with
  | "capacity" => more_capacity (pe_capacity_status l) (pe_capacity_status r)
  | "provider_affinity" => is_preferred policy l ∧ ¬ is_preferred policy r
  | "runtime_readiness" => runtime_ready l = true ∧ runtime_ready r = false
  | "locality" => is_near policy l ∧ ¬ is_near policy r
  | "priority_descending" => (pe_priority r < pe_priority l)%Z
  | "provider_id_ascending" => cmp (pe_provider_id l) (pe_provider_id r) = Lt
  | _ => False
  end.

(** One criterion does not tell them apart. *)
Definition Alike (policy : PlacementPolicy) (criterion : string) (l r : ProviderEvaluation) : Prop :=
  match criterion with
  | "capacity" => pe_capacity_status l = pe_capacity_status r
  | "provider_affinity" => is_preferred policy l ↔ is_preferred policy r
  | "runtime_readiness" => runtime_ready l = runtime_ready r
  | "locality" => is_near policy l ↔ is_near policy r
  | "priority_descending" => pe_priority l = pe_priority r
  | "provider_id_ascending" => pe_provider_id l = pe_provider_id r
  | _ => False
  end.

Inductive Precedes (policy : PlacementPolicy) (l r : ProviderEvaluation) : list string → Prop :=
| precedes_here criterion criteria :
    Better policy criterion l r → Precedes policy l r (criterion :: criteria)
| precedes_later criterion criteria :
    Alike policy criterion l r → Precedes policy l r criteria →
    Precedes policy l r (criterion :: criteria).

(** A criterion and the comparison that implements it. *)
Definition decides (policy : PlacementPolicy) (criterion : string) (l r : ProviderEvaluation)
    (c : comparison) : Prop :=
  (c = Lt → Better policy criterion l r) ∧ (c = Eq → Alike policy criterion l r).

Lemma precedes_then policy l r criterion criteria c d :
  decides policy criterion l r c → (d = Lt → Precedes policy l r criteria) →
  then_with c d = Lt → Precedes policy l r (criterion :: criteria).
Proof.
  intros [Hlt Heq] Hrest. destruct c; simpl; [|by intros _; apply precedes_here, Hlt|done].
  intros Hd. apply precedes_later; [by apply Heq|by apply Hrest].
Qed.

Lemma decides_capacity policy l r : decides policy "capacity" l r (cmp (capacity_rank l) (capacity_rank r)).
Proof.
  unfold decides, Better, Alike, capacity_rank.
  by destruct (pe_capacity_status l), (pe_capacity_status r).
Qed.

Lemma decides_affinity policy l r :
  decides policy "provider_affinity" l r (cmp (affinity policy l) (affinity policy r)).
Proof.
  unfold decides, Better, Alike, is_preferred, affinity. destruct policy as [| | |id|id]; try by split.
  destruct (String.eqb_spec (pe_provider_id l) id), (String.eqb_spec (pe_provider_id r) id);
    split; intros [=]; split; congruence.
Qed.

Lemma decides_readiness policy l r :
  decides policy "runtime_readiness" l r (cmp (ready_rank l) (ready_rank r)).
Proof. unfold decides, Better, Alike, ready_rank. by destruct (runtime_ready l), (runtime_ready r). Qed.

Lemma decides_locality policy l r :
  decides policy "locality" l r (cmp (locality policy l) (locality policy r)).
Proof.
  unfold decides, Better, Alike, is_near, locality.
  destruct policy; repeat case_bool_decide; split; intros [=]; by split.
Qed.

Lemma decides_priority policy l r :
  decides policy "priority_descending" l r (cmp (pe_priority r) (pe_priority l)).
Proof. split; simpl; [by rewrite Z.compare_lt_iff|by intros ?%Z.compare_eq]. Qed.

(** The comparison of candidates implements the ordering a report publishes. *)
Lemma compare_published policy l r :
  PlacementPolicy.explicit policy = None → compare_candidates policy l r = Lt →
  Precedes policy l r (split "," (policy_ordering policy)).
Proof.
  intros Hex. unfold compare_candidates.
  assert (∀ c d e, then_with (then_with c d) e = then_with c (then_with d e)) as Hassoc by by intros [].
  destruct policy as [| | |id|id]; [..|done]; rewrite !Hassoc;
    match goal with |- _ → Precedes _ _ _ ?names =>
      let v := eval vm_compute in names in change names with v end;
    (apply precedes_then; [apply decides_capacity|]);
    try change (cmp (affinity _ l) (affinity _ r)) with Eq; cbn [then_with];
    repeat (apply precedes_then; [auto using decides_affinity, decides_readiness, decides_locality,
      decides_priority|]);
    intros Hid; by apply precedes_here.
Qed.

(** Sorting through a key that preserves the comparison. *)
Section sort_fmap.
Context {A B : Type} (f : A → B) (c : A → A → comparison) (d : B → B → comparison).

Lemma insert_by_fmap x l :
  (∀ y, y ∈ l → d (f x) (f y) = c x y) → insert_by d (f x) (f <$> l) = f <$> insert_by c x l.
Proof.
  induction l as [|y l IH]; intros H; [done|]. rewrite fmap_cons. cbn [insert_by].
  rewrite H by set_solver. destruct (c x y); [done|done|]. rewrite fmap_cons, IH; [done|set_solver].
Qed.

Lemma sort_by_fmap l :
  (∀ x y, x ∈ l → y ∈ l → d (f x) (f y) = c x y) → sort_by d (f <$> l) = f <$> sort_by c l.
Proof.
  induction l as [|x l IH]; intros H; [done|]. rewrite fmap_cons. cbn [sort_by].
  rewrite IH by set_solver. apply insert_by_fmap. intros y Hy. apply H; [set_solver|].
  rewrite elem_of_sort_by in Hy. set_solver.
Qed.
End sort_fmap.

(** ** Providers by identifier *)

Lemma find_provider_Some ps id p :
  find_provider ps id = Some p → p ∈ ps ∧ pe_provider_id p = id.
Proof. unfold find_provider. intros [? ?%String.eqb_eq]%find_some. by rewrite list_elem_of_In. Qed.

Lemma find_provider_NoDup ps p :
  NoDup (pe_provider_id <$> ps) → p ∈ ps → find_provider ps (pe_provider_id p) = Some p.
Proof.
  unfold find_provider. induction ps as [|q ps IH]; intros Hnd Hin; [by apply not_elem_of_nil in Hin|].
  simpl in *. apply NoDup_cons in Hnd as [Hq Hnd]. apply elem_of_cons in Hin as [->|Hin].
  - by rewrite String.eqb_refl.
  - destruct (String.eqb_spec (pe_provider_id q) (pe_provider_id p)) as [Heq|]; [|auto].
    destruct Hq. rewrite Heq. by apply list_elem_of_fmap_2.
Qed.

Lemma NoDup_id_inj ps p q :
  NoDup (pe_provider_id <$> ps) → p ∈ ps → q ∈ ps → pe_provider_id p = pe_provider_id q → p = q.
Proof.
  intros Hnd Hp Hq Heq. pose proof (find_provider_NoDup ps p Hnd Hp) as H.
  rewrite Heq, (find_provider_NoDup ps q Hnd Hq) in H. by injection H.
Qed.

Lemma NoDup_fmap_filter {A B} (f : A → B) (P : A → Prop) `{!∀ x, Decision (P x)} (l : list A) :
  NoDup (f <$> l) → NoDup (f <$> filter P l).
Proof. intros Hnd. eapply sublist_NoDup; [exact Hnd|]. apply fmap_sublist, sublist_filter. Qed.

Section candidates.
Implicit Types (ps : list ProviderEvaluation) (policy : PlacementPolicy).

(** The candidates, best first. *)
Definition candidates policy ps : list ProviderEvaluation :=
  sort_by (compare_candidates policy) (filter (is_candidate policy) ps).

Lemma candidate_ids_fmap policy ps :
  NoDup (pe_provider_id <$> ps) →
  candidate_ids policy ps = pe_provider_id <$> candidates policy ps.
Proof.
  intros Hnd. unfold candidate_ids, candidates, ids_where. apply sort_by_fmap.
  intros x y [_ Hx]%list_elem_of_filter [_ Hy]%list_elem_of_filter.
  by rewrite !find_provider_NoDup.
Qed.

Lemma elem_of_candidates policy ps p :
  p ∈ candidates policy ps ↔
  p ∈ ps ∧ pe_status p = EvalCompatible ∧ PlacementPolicy.accepts policy (pe_provider_id p) = true.
Proof.
  unfold candidates. rewrite elem_of_sort_by, list_elem_of_filter. unfold is_candidate, has_status.
  rewrite andb_True, bool_decide_spec, Is_true_true. naive_solver.
Qed.

(** The first candidate precedes every other. *)
Lemma candidates_head policy ps best rest other :
  NoDup (pe_provider_id <$> ps) → candidates policy ps = best :: rest →
  other ∈ candidates policy ps → other = best ∨ compare_candidates policy best other = Lt.
Proof.
  intros Hnd Hc Hin.
  assert (StronglySorted (le_by (compare_candidates policy)) (best :: rest)) as Hs
    by (rewrite <-Hc; apply sort_by_StronglySorted, _).
  assert (best ∈ candidates policy ps) as [Hb _]%elem_of_candidates by (rewrite Hc; set_solver).
  apply elem_of_candidates in Hin as Ho. destruct Ho as [Ho _].
  rewrite Hc in Hin. apply elem_of_cons in Hin as [|Hin]; [by left|].
  apply StronglySorted_inv in Hs as [_ Hall]. rewrite Forall_forall in Hall.
  specialize (Hall other Hin). unfold le_by in Hall.
  destruct (compare_candidates policy best other) eqn:E; [left|by right|done].
  apply compare_candidates_eq in E. by apply (NoDup_id_inj ps).
Qed.
End candidates.

(** ** Evaluations *)

Section evaluation.
Context `{!CloudflareTable}.
Context `{!CanonicalIdentity Policy, !CanonicalIdentity AdmissionMaterial,
          !CanonicalIdentity PlacementMaterial}.
Context (host : HostCapabilities) (rfc3339 : Z → string).
Implicit Types (record : DiscoveryRecord) (config : ProviderConfig).

(** What an eligible provider has proved. *)
Record Eligible (record : DiscoveryRecord) (policy : PoolPolicy) (r : PlacementRequirements)
    (context : AdmissionContext) (d : ProviderDescriptor) : Prop := {
  el_descriptor : usable_descriptor record policy = Some d;
  el_compatible : compatible (match_provider host r d) = true;
  el_admitted : is_admitted (admit_on d (match_provider host r d) context) = true;
  el_healthy : require_healthy policy = true → record_health record = Healthy;
}.

Lemma usable_descriptor_some record policy d :
  usable_descriptor record policy = Some d → record_descriptor record = Some d.
Proof. unfold usable_descriptor. repeat case_match; naive_solver. Qed.

Lemma evaluate_status record config policy r context :
  pe_status (evaluate host rfc3339 record config policy r context) =
  match usable_descriptor record policy with
  | Some d => fst (fst (evaluate_descriptor host record d policy r context))
  | None => unusable_status record
  end.
Proof.
  unfold evaluate. destruct (usable_descriptor record policy) as [d|]; [|done].
  by destruct (evaluate_descriptor host record d policy r context) as [[]].
Qed.

Lemma evaluate_eligible record config policy r context :
  pe_status (evaluate host rfc3339 record config policy r context) = EvalCompatible ↔
  ∃ d, Eligible record policy r context d.
Proof.
  rewrite evaluate_status. destruct (usable_descriptor record policy) as [d|] eqn:E.
  - transitivity (Eligible record policy r context d).
    2: { split; [by exists d|]. intros [d' Hel]. pose proof (el_descriptor _ _ _ _ _ Hel). congruence. }
    unfold evaluate_descriptor.
    destruct (compatible (match_provider host r d)) eqn:Ec; cbn [negb];
      [|split; [done|intros []; congruence]].
    destruct (is_admitted (admit_on d (match_provider host r d) context)) eqn:Ea; cbn [negb];
      [|split; [done|intros []; congruence]].
    destruct (require_healthy policy) eqn:Eh; [case_bool_decide as Hh|]; cbn [negb andb fst].
    + by split.
    + split; [done|]. intros [? ? ? Hhealthy]. by destruct Hh; apply Hhealthy.
    + split; [|done]. intros _. split; try done. congruence.
  - split; [|intros [d []]; congruence].
    unfold unusable_status. by destruct (record_status record).
Qed.

(** The reads of an eligible provider never fail. *)
Lemma evaluate_select record config policy r context d wanted ps :
  Eligible record policy r context d →
  ∃ s, select wanted ps (evaluate host rfc3339 record config policy r context) = Some s ∧
    selected_provider_id s = record_provider_id record ∧
    selected_provider_kind s = config_kind config ∧
    selected_provider_identity s = provider_identity d ∧
    selected_capability_version s = capability_version d ∧
    selected_admission_id s = admission_id (admit_on d (match_provider host r d) context) ∧
    selected_policy_id s = decision_policy_id (admit_on d (match_provider host r d) context) ∧
    selected_platform s = offered_platform (distribution d) ∧ selected_resources s = resources d.
Proof.
  intros []. pose proof (usable_descriptor_some _ _ _ el_descriptor0) as Hd.
  destruct (compatible_serves host r d el_compatible0) as [offer [[Hrun _] _]].
  unfold select, evaluate. rewrite el_descriptor0, Hd. simpl. rewrite Hrun. simpl.
  assert (∃ status reasons, evaluate_descriptor host record d policy r context =
    (status, reasons, admit_on d (match_provider host r d) context)) as (status & reasons & ->).
  { unfold evaluate_descriptor. rewrite el_compatible0, el_admitted0. simpl. case_match; eauto. }
  simpl. eexists. split; [reflexivity|]. done.
Qed.

Lemma evaluate_id record config policy r context :
  pe_provider_id (evaluate host rfc3339 record config policy r context) = record_provider_id record.
Proof. unfold evaluate. by repeat case_match. Qed.

Lemma evaluate_record_Some configs policy r context explicit record p :
  evaluate_record host rfc3339 configs policy r context explicit record = Some p ↔
  ∃ config, configs !! record_provider_id record = Some config ∧
    (∀ id, explicit = Some id → record_provider_id record = id) ∧
    p = evaluate host rfc3339 record config policy r context.
Proof.
  unfold evaluate_record. destruct explicit as [id|].
  - destruct (String.eqb_spec id (record_provider_id record)) as [->|]; simpl; [|naive_solver].
    destruct (configs !! record_provider_id record); naive_solver.
  - destruct (configs !! record_provider_id record); naive_solver.
Qed.

Lemma elem_of_evaluations configs policy records r context explicit p :
  p ∈ evaluations host rfc3339 configs policy records r context explicit ↔
  ∃ record config, record ∈ records ∧ configs !! record_provider_id record = Some config ∧
    (∀ id, explicit = Some id → record_provider_id record = id) ∧
    p = evaluate host rfc3339 record config policy r context.
Proof.
  unfold evaluations. rewrite list_elem_of_omap. setoid_rewrite evaluate_record_Some. naive_solver.
Qed.

Lemma evaluations_NoDup configs policy records r context explicit :
  NoDup (record_provider_id <$> records) →
  NoDup (pe_provider_id <$> evaluations host rfc3339 configs policy records r context explicit).
Proof.
  induction records as [|record records IH]; intros Hnd; [constructor|].
  apply NoDup_cons in Hnd as [Hnin Hnd]. specialize (IH Hnd). unfold evaluations. simpl.
  destruct (evaluate_record host rfc3339 configs policy r context explicit record) as [p|] eqn:E;
    [|exact IH].
  apply evaluate_record_Some in E as (config & _ & _ & ->). rewrite fmap_cons, evaluate_id.
  constructor; [|exact IH]. intros (p & Heq & Hp)%list_elem_of_fmap.
  apply elem_of_evaluations in Hp as (other & c & Hin & _ & _ & ->).
  apply Hnin. rewrite Heq, evaluate_id. by apply list_elem_of_fmap_2.
Qed.

Lemma evaluations_perm configs policy records records' r context explicit :
  records ≡ₚ records' →
  evaluations host rfc3339 configs policy records r context explicit ≡ₚ
  evaluations host rfc3339 configs policy records' r context explicit.
Proof. intros Hperm. unfold evaluations. by rewrite Hperm. Qed.
End evaluation.

Lemma select_id wanted ps p s : select wanted ps p = Some s → selected_provider_id s = pe_provider_id p.
Proof. unfold select. intros H. by repeat (case_match || simplify_option_eq). Qed.

(** ** The decision *)

Section decision.
Context `{!CloudflareTable}.
Context `{!CanonicalIdentity Policy, !CanonicalIdentity AdmissionMaterial,
          !CanonicalIdentity PlacementMaterial}.
Context (host : HostCapabilities) (rfc3339 : Z → string).
Context (configs : gmap string ProviderConfig) (policy : PoolPolicy)
  (r : PlacementRequirements) (context : AdmissionContext) (wanted : PlacementPolicy).

(** The evaluated providers in report order. *)
Definition evaluated (records : list DiscoveryRecord) : list ProviderEvaluation :=
  sort_by compare_providers
    (evaluations host rfc3339 configs policy records r context (PlacementPolicy.explicit wanted)).

Definition decided (records : list DiscoveryRecord) : list ProviderEvaluation :=
  decide_candidate wanted (candidate_ids wanted (evaluated records)) <$> evaluated records.

Lemma evaluated_NoDup records :
  NoDup (record_provider_id <$> records) → NoDup (pe_provider_id <$> evaluated records).
Proof. intros Hnd. unfold evaluated. rewrite sort_by_perm. by apply evaluations_NoDup. Qed.

Lemma elem_of_evaluated records p :
  p ∈ evaluated records ↔
  ∃ record config, record ∈ records ∧ configs !! record_provider_id record = Some config ∧
    (∀ id, PlacementPolicy.explicit wanted = Some id → record_provider_id record = id) ∧
    p = evaluate host rfc3339 record config policy r context.
Proof. unfold evaluated. rewrite elem_of_sort_by. apply elem_of_evaluations. Qed.

Lemma evaluated_perm records records' :
  NoDup (record_provider_id <$> records) → records ≡ₚ records' → evaluated records = evaluated records'.
Proof.
  intros Hnd Hperm. unfold evaluated. apply (sort_by_perm_eq compare_providers).
  - intros x y Hx Hy Heq%compare_providers_eq. eapply NoDup_id_inj; [|done..].
    by apply evaluations_NoDup.
  - by apply evaluations_perm.
Qed.

Lemma find_decided ids ps id :
  find_provider (decide_candidate wanted ids <$> ps) id =
  decide_candidate wanted ids <$> find_provider ps id.
Proof.
  unfold find_provider. induction ps as [|p ps IH]; [done|]. simpl.
  destruct (String.eqb (pe_provider_id p) id); done.
Qed.

Lemma select_decided ids ps p :
  select wanted ps (decide_candidate wanted ids p) = select wanted ps p.
Proof. done. Qed.

Lemma place_unfold records :
  place_with_policy host rfc3339 configs policy records r context wanted =
  match head (candidate_ids wanted (evaluated records)) with
  | Some id =>
      p ← find_provider (decided records) id;
      s ← select wanted (decided records) p;
      Some (report policy r context wanted (decided records) (Some s) None)
  | None =>
      Some (report policy r context wanted (decided records) None
              (Some (fail_placement configs wanted (decided records))))
  end.
Proof. done. Qed.

(** The two outcomes of placement. *)
Lemma place_cases records :
  NoDup (record_provider_id <$> records) →
  match candidates wanted (evaluated records) with
  | [] =>
      place_with_policy host rfc3339 configs policy records r context wanted =
      Some (report policy r context wanted (decided records) None
              (Some (fail_placement configs wanted (decided records))))
  | best :: _ =>
      ∃ s, select wanted (decided records) best = Some s ∧
        place_with_policy host rfc3339 configs policy records r context wanted =
        Some (report policy r context wanted (decided records) (Some s) None)
  end.
Proof.
  intros Hnd%evaluated_NoDup. rewrite place_unfold, (candidate_ids_fmap wanted (evaluated records) Hnd).
  destruct (candidates wanted (evaluated records)) as [|best rest] eqn:E; [done|].
  rewrite fmap_cons. cbn [head].
  assert (best ∈ candidates wanted (evaluated records)) as (Hin & Hst & _)%elem_of_candidates
    by (rewrite E; set_solver).
  assert (find_provider (decided records) (pe_provider_id best) =
          Some (decide_candidate wanted (candidate_ids wanted (evaluated records)) best)) as ->.
  { unfold decided. by rewrite find_decided, find_provider_NoDup. }
  cbn [mbind option_bind]. rewrite select_decided. apply elem_of_evaluated in Hin as (record & config & _ & _ & _ & ->).
  apply evaluate_eligible in Hst as [d Hel].
  destruct (evaluate_select host rfc3339 record config policy r context d wanted (decided records) Hel)
    as (s & -> & _). by exists s.
Qed.

(** A report: the providers as decided, and the best candidate selected. *)
Lemma report_shape records rep :
  NoDup (record_provider_id <$> records) →
  place_with_policy host rfc3339 configs policy records r context wanted = Some rep →
  ∃ sel fail, rep = report policy r context wanted (decided records) sel fail ∧
    selected_provider_id <$> sel = pe_provider_id <$> head (candidates wanted (evaluated records)).
Proof.
  intros Hnd Hp. pose proof (place_cases records Hnd) as Hcases.
  destruct (candidates wanted _) as [|best rest].
  - rewrite Hcases in Hp. injection Hp as <-. by eexists None, _.
  - destruct Hcases as (s & Hs & Hp'). rewrite Hp' in Hp. injection Hp as <-.
    eexists (Some s), None. split; [done|]. simpl. by rewrite (select_id _ _ _ _ Hs).
Qed.

Lemma decided_ids records : pe_provider_id <$> decided records = pe_provider_id <$> evaluated records.
Proof. unfold decided. rewrite <-list_fmap_compose. by apply list_fmap_ext. Qed.

Lemma elem_of_decided records q :
  q ∈ decided records → ∃ p, p ∈ evaluated records ∧ pe_provider_id q = pe_provider_id p ∧
    pe_status q = pe_status p ∧ pe_capacity_status q = pe_capacity_status p.
Proof. unfold decided. intros (p & -> & Hp)%list_elem_of_fmap. by exists p. Qed.

(** Only the named provider is evaluated, when one is named. *)
Lemma decided_named records p id :
  p ∈ decided records → PlacementPolicy.explicit wanted = Some id → pe_provider_id p = id.
Proof.
  intros (q & Hq & -> & _)%elem_of_decided Hex.
  apply elem_of_evaluated in Hq as (record & config & _ & _ & Hname & ->).
  rewrite evaluate_id. by apply Hname.
Qed.

(** Without a named provider every compatible provider is a candidate. *)
Lemma no_candidate_compatible records :
  PlacementPolicy.explicit wanted = None → candidates wanted (evaluated records) = [] →
  ids_where (has_status EvalCompatible) (decided records) = [].
Proof.
  intros Hex Hnone. unfold ids_where.
  cut (filter (has_status EvalCompatible) (decided records) = []); [by intros ->|]. apply filter_nil.
  intros q (p & -> & Hp)%list_elem_of_fmap Hst. unfold has_status in Hst. apply bool_decide_spec in Hst.
  apply (not_elem_of_nil p). rewrite <-Hnone. apply elem_of_candidates. split_and!; [done|exact Hst|].
  by destruct wanted.
Qed.

Lemma ids_where_decided (wanted_status : EvaluationStatus → bool) records :
  ids_where (λ p, wanted_status (pe_status p)) (decided records) =
  ids_where (λ p, wanted_status (pe_status p)) (evaluated records).
Proof.
  unfold ids_where, decided. generalize (candidate_ids wanted (evaluated records)). intros ids.
  induction (evaluated records) as [|p ps IH]; [done|].
  rewrite fmap_cons, !filter_cons.
  change (pe_status (decide_candidate wanted ids p)) with (pe_status p).
  destruct (decide _); rewrite ?fmap_cons, IH; done.
Qed.
End decision.

Lemma denied_named ds id :
  (∀ p, p ∈ ds → pe_provider_id p = id) →
  bool_decide (id ∈ ids_where (has_status PolicyDenied) ds) = existsb (has_status PolicyDenied) ds.
Proof.
  intros Hids. apply eq_true_iff_eq. rewrite bool_decide_eq_true, existsb_exists. unfold ids_where.
  rewrite list_elem_of_fmap. setoid_rewrite list_elem_of_filter. setoid_rewrite <-list_elem_of_In.
  setoid_rewrite Is_true_true. split; [naive_solver|].
  intros (p & Hin & Hst). exists p. by rewrite (Hids p Hin).
Qed.

(** ** Ranks and partitions *)

Lemma filter_partition (P : string → Prop) `{!∀ x, Decision (P x)} (l : list string) :
  let kept := filter P l in kept ++ filter (λ x, x ∉ kept) l ≡ₚ l.
Proof.
  intros kept.
  assert (filter (λ x, x ∉ kept) l = filter (λ x, ¬ P x) l) as ->.
  { apply filter_ext_in. intros x Hin. unfold kept. rewrite list_elem_of_filter. naive_solver. }
  unfold kept. clear kept. induction l as [|x l IH]; [done|]. rewrite !filter_cons.
  destruct (decide (P x)) as [HP|HP].
  - rewrite decide_False by auto. simpl. by rewrite IH.
  - rewrite decide_True by done. by rewrite <-Permutation_middle, IH.
Qed.

Lemma status_partition ps :
  ids_where (has_status EvalCompatible) ps ++ ids_where (has_status EvalIncompatible) ps ++
  ids_where is_excluded ps ≡ₚ pe_provider_id <$> ps.
Proof.
  unfold ids_where. rewrite <-!fmap_app. apply fmap_Permutation, filter_three.
  intros p. unfold has_status, is_excluded. destruct (pe_status p); simpl; set_solver.
Qed.

Lemma position_Some id ids n : position id ids = Some n → ids !! N.to_nat n = Some id.
Proof.
  revert n. induction ids as [|other ids IH]; intros n; simpl; [done|].
  destruct (String.eqb_spec other id) as [->|]; [by intros [= <-]|].
  intros (m & Hm & ->)%fmap_Some. rewrite N2Nat.inj_succ. simpl. auto.
Qed.

Lemma position_is_Some id ids : is_Some (position id ids) ↔ id ∈ ids.
Proof.
  induction ids as [|other ids IH]; simpl.
  - split; [by intros []|by intros ?%not_elem_of_nil].
  - rewrite elem_of_cons. destruct (String.eqb_spec other id) as [->|Hne].
    + split; [by left|eauto].
    + rewrite fmap_is_Some, IH. naive_solver.
Qed.

Lemma selected_head wanted ids p :
  is_selected (pe_candidate (decide_candidate wanted ids p)) = true ↔ head ids = Some (pe_provider_id p).
Proof. simpl. apply bool_decide_eq_true. Qed.

Lemma selected_first wanted ids p :
  is_selected (pe_candidate (decide_candidate wanted ids p)) = true ↔
  rank (pe_candidate (decide_candidate wanted ids p)) = Some 1%N.
Proof.
  rewrite selected_head. simpl. destruct ids as [|id ids]; simpl; [done|].
  destruct (String.eqb_spec id (pe_provider_id p)) as [->|Hne]; simpl; [done|].
  split; [naive_solver|]. intros (? & (n & _ & ->)%fmap_Some & ?)%fmap_Some. lia.
Qed.

Lemma head_fmap {A B} (f : A → B) (l : list A) : head (f <$> l) = f <$> head l.
Proof. by destruct l. Qed.

Section ranks.
Context (wanted : PlacementPolicy) (ps : list ProviderEvaluation).
Context (Hnd : NoDup (pe_provider_id <$> ps)).
Let decide_one := decide_candidate wanted (candidate_ids wanted ps).

Lemma rank_candidate p :
  p ∈ ps → is_Some (rank (pe_candidate (decide_one p))) ↔
  pe_status p = EvalCompatible ∧ PlacementPolicy.accepts wanted (pe_provider_id p) = true.
Proof using Hnd.
  intros Hin. simpl. rewrite fmap_is_Some, position_is_Some, (candidate_ids_fmap wanted ps Hnd).
  rewrite list_elem_of_fmap. setoid_rewrite elem_of_candidates. split; [|eauto].
  intros (q & Heq & Hq & ?). by rewrite (NoDup_id_inj ps p q Hnd Hin Hq Heq).
Qed.

Lemma rank_lookup p m :
  p ∈ ps → rank (pe_candidate (decide_one p)) = Some m →
  candidates wanted ps !! pred (N.to_nat m) = Some p.
Proof using Hnd.
  intros Hin (n & Hpos%position_Some & ->)%fmap_Some. rewrite N2Nat.inj_succ. simpl.
  rewrite (candidate_ids_fmap wanted ps Hnd) in Hpos.
  apply list_lookup_fmap_Some in Hpos as (q & Heq & Hq). rewrite Hq. f_equal.
  apply list_elem_of_lookup_2 in Hq. apply elem_of_candidates in Hq as [Hq _].
  by apply (NoDup_id_inj ps).
Qed.

Lemma rank_order p q m n :
  p ∈ ps → q ∈ ps → rank (pe_candidate (decide_one p)) = Some m →
  rank (pe_candidate (decide_one q)) = Some n → (m < n)%N →
  compare_candidates wanted (decide_one p) (decide_one q) = Lt.
Proof using Hnd.
  intros Hp Hq Hm Hn Hlt.
  assert (0 < m)%N as Hpos by (apply fmap_Some in Hm as (? & _ & ->); lia).
  apply rank_lookup in Hm; [|done]. apply rank_lookup in Hn; [|done].
  change (compare_candidates wanted p q = Lt).
  assert (StronglySorted (le_by (compare_candidates wanted)) (candidates wanted ps)) as Hs
    by apply sort_by_StronglySorted, _.
  pose proof (StronglySorted_lookup _ _ _ _ _ _ Hs Hm Hn ltac:(lia)) as Hle. unfold le_by in Hle.
  destruct (compare_candidates wanted p q) eqn:E; [|done|done].
  apply compare_candidates_eq in E. apply (NoDup_id_inj ps) in E as ->; [|done..].
  assert (NoDup (candidates wanted ps)) as Hc.
  { unfold candidates. rewrite sort_by_perm. apply NoDup_filter. by eapply NoDup_fmap_1. }
  pose proof (NoDup_lookup _ _ _ _ Hc Hm Hn). lia.
Qed.
End ranks.

Lemma accepts_explicit wanted id :
  PlacementPolicy.accepts wanted id = true ↔
  ∀ named, PlacementPolicy.explicit wanted = Some named → id = named.
Proof. destruct wanted; simpl; rewrite ?String.eqb_eq; naive_solver. Qed.

(** ** Properties *)

Section properties.
Context `{!CloudflareTable}.
Context `{!CanonicalIdentity Policy, !CanonicalIdentity AdmissionMaterial,
          !CanonicalIdentity PlacementMaterial}.
Context (host : HostCapabilities) (rfc3339 : Z → string).
Context (configs : gmap string ProviderConfig) (policy : PoolPolicy)
  (records : list DiscoveryRecord) (r : PlacementRequirements) (context : AdmissionContext)
  (wanted : PlacementPolicy).
Let placed := place_with_policy host rfc3339 configs policy records r context wanted.

(** The records that are considered: configured, and the named one if one is
    named. *)
Definition considered_record (record : DiscoveryRecord) (config : ProviderConfig) : Prop :=
  record ∈ records ∧ configs !! record_provider_id record = Some config ∧
  ∀ id, PlacementPolicy.explicit wanted = Some id → record_provider_id record = id.

(** Placement always returns a report: with one record per provider none
    of its [expect]s can fail, and the report either selects a provider or
    states a failure, never both. *)
Theorem placement_total :
  NoDup (record_provider_id <$> records) →
  ∃ rep, placed = Some rep ∧
    ((outcome rep = Placed ∧ is_Some (selected rep) ∧ failure rep = None) ∨
     (outcome rep = PlacementFailed ∧ selected rep = None ∧ is_Some (failure rep))).
Proof.
  intros Hnd.
  pose proof (place_cases host rfc3339 configs policy r context wanted records Hnd) as Hcases.
  destruct (candidates wanted _) as [|best rest].
  - eexists. split; [exact Hcases|]. right. simpl. eauto.
  - destruct Hcases as (s & _ & Hp). eexists. split; [exact Hp|]. left. simpl. eauto.
Qed.

(** C35: A selected provider has proved everything: its capabilities were
    usable, it serves the requirements, it was admitted under the caller's
    policy and under its own, it is healthy when the pool requires that, and
    it is the named provider when one is named. *)
Theorem placement_sound rep s :
  NoDup (record_provider_id <$> records) → placed = Some rep → selected rep = Some s →
  ∃ record config d, considered_record record config ∧
    selected_provider_id s = record_provider_id record ∧
    selected_provider_identity s = provider_identity d ∧
    selected_capability_version s = capability_version d ∧
    usable_descriptor record policy = Some d ∧
    (∃ offer, Serves host r d offer) ∧
    (∀ p, p = effective_policy (context_policy context) ∨ descriptor_policy d = Some p →
       Satisfies p (context_contract context)
         (decision_provider (admit_on d (match_provider host r d) context))) ∧
    selected_admission_id s = admission_id (admit_on d (match_provider host r d) context) ∧
    (require_healthy policy = true → record_health record = Healthy).
Proof.
  intros Hnd Hp Hs.
  pose proof (place_cases host rfc3339 configs policy r context wanted records Hnd) as Hcases.
  destruct (candidates wanted _) as [|best rest] eqn:E.
  { unfold placed in Hp. rewrite Hcases in Hp. injection Hp as <-. done. }
  destruct Hcases as (s' & Hsel & Hp'). unfold placed in Hp. rewrite Hp' in Hp. injection Hp as <-.
  simpl in Hs. injection Hs as ->.
  assert (best ∈ candidates wanted (evaluated host rfc3339 configs policy r context wanted records))
    as (Hin & Hst & _)%elem_of_candidates by (rewrite E; set_solver).
  apply elem_of_evaluated in Hin as (record & config & Hrec & Hconf & Hex & ->).
  apply evaluate_eligible in Hst as [d Hel].
  destruct (evaluate_select host rfc3339 record config policy r context d wanted
    (decided host rfc3339 configs policy r context wanted records) Hel)
    as (s' & Hs' & ? & ? & ? & ? & ? & ? & _).
  rewrite Hsel in Hs'. injection Hs' as <-. exists record, config, d. destruct Hel as [Hd Hc Ha Hh].
  split_and!; try done; [by apply compatible_serves|].
  unfold admit_on in Ha. apply policy_admit_admitted in Ha as (_ & _ & Hsat).
  intros p Hor. unfold admit_on; cbn [decision_provider policy_admit].
  destruct (descriptor_policy d) as [q|]; [|naive_solver].
  cbn [effective_policy with_source] in Hsat. rewrite satisfies_unnamed, satisfies_intersect_iff in Hsat.
  naive_solver.
Qed.

(** C36: Selection is optimal and complete: the selected provider precedes
    every other eligible considered provider in the ordering the report
    publishes, criterion by criterion (capacity, affinity, readiness and
    locality by policy, priority, identifier), and no provider is selected only
    when none is eligible. *)
Theorem placement_optimal rep :
  NoDup (record_provider_id <$> records) → placed = Some rep →
  match selected rep with
  | Some s => ∃ best config, considered_record best config ∧
      selected_provider_id s = record_provider_id best ∧
      ∀ other config' d, considered_record other config' → Eligible host other policy r context d →
        record_provider_id other = record_provider_id best ∨
        Precedes wanted (evaluate host rfc3339 best config policy r context)
          (evaluate host rfc3339 other config' policy r context) (ordering (selection_policy rep))
  | None => ∀ other config' d, considered_record other config' →
      ¬ Eligible host other policy r context d
  end.
Proof.
  intros Hnd Hp.
  pose proof (place_cases host rfc3339 configs policy r context wanted records Hnd) as Hcases.
  assert (∀ other config' d, considered_record other config' → Eligible host other policy r context d →
    evaluate host rfc3339 other config' policy r context
      ∈ candidates wanted (evaluated host rfc3339 configs policy r context wanted records)) as Hcand.
  { intros other config' d (Hin & Hconf & Hex) Hel. apply elem_of_candidates. split_and!.
    - apply elem_of_evaluated. by exists other, config'.
    - apply evaluate_eligible. eauto.
    - apply accepts_explicit. by rewrite evaluate_id. }
  destruct (candidates wanted _) as [|best rest] eqn:E.
  - unfold placed in Hp. rewrite Hcases in Hp. injection Hp as <-. simpl.
    intros other config' d Hcons Hel. specialize (Hcand _ _ _ Hcons Hel).
    by apply not_elem_of_nil in Hcand.
  - destruct Hcases as (s & Hsel & Hp'). unfold placed in Hp. rewrite Hp' in Hp. injection Hp as <-.
    simpl. assert (best ∈ best :: rest) as Hb by set_solver. rewrite <-E in Hb.
    apply elem_of_candidates in Hb as (Hb & Hst & _).
    apply elem_of_evaluated in Hb as (record & config & Hrec & Hconf & Hex & ->).
    apply evaluate_eligible in Hst as [d Hel]. exists record, config. split_and!; [done| |].
    + destruct (evaluate_select host rfc3339 record config policy r context d wanted
        (decided host rfc3339 configs policy r context wanted records) Hel) as (s' & Hs' & ? & _).
      congruence.
    + intros other config' d' Hcons Hel'. specialize (Hcand _ _ _ Hcons Hel'). rewrite <-E in Hcand.
      apply (candidates_head _ _ _ _ _ (evaluated_NoDup _ _ _ _ _ _ _ _ Hnd) E) in Hcand
        as [Heq|Hlt].
      { left. apply (f_equal pe_provider_id) in Heq. by rewrite !evaluate_id in Heq. }
      destruct (PlacementPolicy.explicit wanted) as [id|] eqn:Hw; [left|right].
      * destruct Hcons as (_ & _ & Hother). by rewrite (Hother id), (Hex id).
      * by apply compare_published.
Qed.

(** Placement is deterministic in the set of records: records discovered in
    another order give the same report, under the same placement identity. *)
Theorem placement_order_independent records' :
  NoDup (record_provider_id <$> records) → records ≡ₚ records' →
  place_with_policy host rfc3339 configs policy records' r context wanted = placed.
Proof.
  intros Hnd Hperm. unfold placed. rewrite !place_unfold. unfold decided.
  by rewrite (evaluated_perm host rfc3339 configs policy r context wanted records records').
Qed.

(** A named provider is never substituted: when one is named, only its
    record is evaluated and only it can be selected; when it is not selected
    the failure says whether it is not configured, denied by policy, or
    incompatible, and otherwise no provider was compatible. *)
Theorem explicit_never_substituted rep :
  NoDup (record_provider_id <$> records) → placed = Some rep →
  match PlacementPolicy.explicit wanted with
  | Some id =>
      (∀ p, p ∈ providers rep → pe_provider_id p = id) ∧
      (∀ s, selected rep = Some s → selected_provider_id s = id) ∧
      (∀ f, failure rep = Some f →
         failure_code f =
           if bool_decide (configs !! id = None) then "provider_not_configured"
           else if existsb (has_status PolicyDenied) (providers rep)
           then "explicit_provider_denied" else "explicit_provider_incompatible")
  | None => ∀ f, failure rep = Some f →
      failure_code f = "no_compatible_provider" ∧ compatible_providers rep = []
  end.
Proof.
  intros Hnd Hp.
  pose proof (place_cases host rfc3339 configs policy r context wanted records Hnd) as Hcases.
  pose proof (decided_named host rfc3339 configs policy r context wanted records) as Hids.
  set (ds := decided host rfc3339 configs policy r context wanted records) in *.
  destruct (candidates wanted _) as [|best rest] eqn:E.
  - unfold placed in Hp. rewrite Hcases in Hp. injection Hp as <-.
    cbn [selected failure providers report].
    destruct (PlacementPolicy.explicit wanted) as [id|] eqn:Hex.
    + split; [eauto|]. split; [done|]. intros f [= <-]. unfold fail_placement. rewrite Hex.
      rewrite (denied_named ds id) by eauto. by repeat case_match.
    + intros f [= <-]. unfold fail_placement. rewrite Hex. split; [done|].
      by apply no_candidate_compatible.
  - destruct Hcases as (s & Hsel & Hp'). unfold placed in Hp. rewrite Hp' in Hp. injection Hp as <-.
    cbn [selected failure providers report].
    destruct (PlacementPolicy.explicit wanted) as [id|] eqn:Hex; [|done].
    split; [eauto|]. split; [|done]. intros ? [= <-].
    assert (best ∈ candidates wanted (evaluated host rfc3339 configs policy r context wanted records))
      as (_ & _ & Hacc)%elem_of_candidates by (rewrite E; set_solver).
    rewrite accepts_explicit in Hacc. rewrite (select_id _ _ _ _ Hsel). by apply Hacc.
Qed.

(** The report is consistent: every evaluated provider is listed as
    exactly one of compatible, incompatible or excluded; the compatible ones
    split into those with and those without capacity now; a provider is
    ranked exactly when it is a candidate, the selected one is the one ranked
    first, and ranks follow the ordering the report publishes. *)
Theorem report_consistent rep :
  NoDup (record_provider_id <$> records) → placed = Some rep →
  compatible_providers rep ++ incompatible_providers rep ++ excluded_providers rep
    ≡ₚ pe_provider_id <$> providers rep ∧
  capacity_available_providers rep ++ capacity_unavailable_providers rep ≡ₚ compatible_providers rep ∧
  (∀ p, p ∈ providers rep →
     (is_Some (rank (pe_candidate p)) ↔
      pe_status p = EvalCompatible ∧ PlacementPolicy.accepts wanted (pe_provider_id p) = true) ∧
     (is_selected (pe_candidate p) = true ↔
      ∃ s, selected rep = Some s ∧ selected_provider_id s = pe_provider_id p) ∧
     (is_selected (pe_candidate p) = true ↔ rank (pe_candidate p) = Some 1%N)) ∧
  (∀ p q m n, PlacementPolicy.explicit wanted = None → p ∈ providers rep → q ∈ providers rep →
     rank (pe_candidate p) = Some m → rank (pe_candidate q) = Some n → (m < n)%N →
     Precedes wanted p q (ordering (selection_policy rep))).
Proof.
  intros Hnd Hp. pose proof (evaluated_NoDup host rfc3339 configs policy r context wanted _ Hnd) as Hev.
  destruct (report_shape host rfc3339 configs policy r context wanted records rep Hnd Hp)
    as (sel & fail & -> & Hsel).
  cbn [compatible_providers incompatible_providers excluded_providers providers report
       capacity_available_providers capacity_unavailable_providers selected].
  split_and!; [apply status_partition|apply filter_partition| |].
  - intros p (q & -> & Hin)%list_elem_of_fmap. split_and!.
    + exact (rank_candidate wanted _ Hev q Hin).
    + rewrite selected_head, (candidate_ids_fmap wanted _ Hev), head_fmap, <-Hsel.
      rewrite fmap_Some. split; intros (s & ? & ?); by exists s.
    + apply selected_first.
  - intros p q m n Hex (p' & -> & Hp')%list_elem_of_fmap (q' & -> & Hq')%list_elem_of_fmap Hm Hn Hlt.
    apply compare_published; [done|]. exact (rank_order wanted _ Hev p' q' m n Hp' Hq' Hm Hn Hlt).
Qed.
End properties.

(** ** Receipts *)

Record ReceiptPlacementCandidate : Type := {
  rpc_provider_id : string;
  rpc_eligible : bool;
  rpc_capacity_available : bool;
  rpc_selected : bool;
  rpc_rank : option N;
  rpc_reasons : list string;
}.

Record ReceiptPlacement : Type := {
  rp_placement_id : string;
  rp_provider_id : string;
  rp_provider_protocol : string;
  rp_selection_mode : SelectionMode;
  rp_selection_reason : SelectionReason;
  rp_policy_mode : string;
  rp_policy_provider : option string;
  rp_candidates : list ReceiptPlacementCandidate;
  rp_requested_resources : ResourceVector;
  rp_provider_resources : ProviderResourceInventory;
  rp_allocated_resources : ResourceVector;
  rp_execution_platform : option PlatformIdentity;
  rp_reservation : option ReceiptReservation;
}.

Definition requested_vector (r : PlacementRequirements) : ResourceVector :=
  {| rv_cpu_count := default 0%N (need_cpu_count (pr_resources r));
     rv_memory_bytes := default 0%N (need_memory_bytes (pr_resources r));
     rv_disk_bytes := default 0%N (need_disk_bytes (pr_resources r)) |}.

Definition receipt_candidate (p : ProviderEvaluation) : ReceiptPlacementCandidate :=
  {| rpc_provider_id := pe_provider_id p;
     rpc_eligible := eligible (pe_candidate p);
     rpc_capacity_available := bool_decide (pe_capacity_status p = CapacityAvailable);
     rpc_selected := is_selected (pe_candidate p);
     rpc_rank := rank (pe_candidate p);
     rpc_reasons := candidate_reasons_ (pe_candidate p) |}.

(** [PlacementReport::receipt_binding] *)
Definition receipt_binding (rep : PlacementReport) : option ReceiptPlacement :=
  s ← selected rep;
  Some {| rp_placement_id := placement_id rep;
          rp_provider_id := selected_provider_id s;
          rp_provider_protocol := selected_provider_protocol s;
          rp_selection_mode := selection_mode rep;
          rp_selection_reason := selection_reason s;
          rp_policy_mode := PlacementPolicy.label (placement_policy rep);
          rp_policy_provider := PlacementPolicy.policy_provider (placement_policy rep);
          rp_candidates := receipt_candidate <$> providers rep;
          rp_requested_resources := requested_vector (report_requirements rep);
          rp_provider_resources := selected_resources s;
          rp_allocated_resources := requested_vector (report_requirements rep);
          rp_execution_platform := Some (selected_platform s);
          rp_reservation := None |}.

(** ** Placement over a pool *)

Section pool_placement.
Context `{!CloudflareTable}.
Context `{!CanonicalIdentity Policy, !CanonicalIdentity AdmissionMaterial,
          !CanonicalIdentity PlacementMaterial, !CanonicalIdentity DistributionMaterial,
          !CanonicalIdentity CapabilityBody, !CanonicalIdentity FingerprintMaterial}.
Context (host : HostCapabilities) (current : PlatformIdentity) (rfc3339 : Z → string).

(** Placing over what a pool discovered always gives a report, and its
    receipt binding names exactly one selected candidate: the member the
    placement selected, whose descriptor is well formed and of that member's
    identifier and kind. *)
Theorem pool_placement_binds pool_policy pool cache mode now answers policy r context wanted :
  rtc pool_step (new_pool pool_policy) pool →
  let records := fst (capabilities host current pool cache mode None now answers) in
  ∃ rep, place_with_policy host rfc3339 (configs pool) policy records r context wanted = Some rep ∧
    (is_Some (receipt_binding rep) ↔ outcome rep = Placed) ∧
    ∀ binding, receipt_binding rep = Some binding →
      (∃ member record d, members pool !! rp_provider_id binding = Some member ∧
         record ∈ records ∧ record_descriptor record = Some d ∧
         provider_id d = rp_provider_id binding ∧
         provider_kind d = config_kind (member_config member) ∧ WellFormedDescriptor host d) ∧
      (∀ c, c ∈ rp_candidates binding →
         rpc_selected c = true ↔ rpc_provider_id c = rp_provider_id binding).
Proof.
  intros Hsteps records. pose proof (pool_steps_ok _ _ Hsteps (new_pool_ok _)) as Hok.
  assert (NoDup (record_provider_id <$> records)) as Hnd.
  { unfold records. rewrite capabilities_ids by done. apply by_id_NoDup. }
  pose proof (place_cases host rfc3339 (configs pool) policy r context wanted records Hnd) as Hcases.
  pose proof (evaluated_NoDup host rfc3339 (configs pool) policy r context wanted _ Hnd) as Hev.
  destruct (candidates wanted _) as [|best rest] eqn:E.
  - eexists. split; [exact Hcases|]. split; [split; [by intros []|done]|done].
  - destruct Hcases as (s & Hsel & Hp). eexists. split; [exact Hp|]. split; [split; eauto|].
    intros binding [= <-]. cbn [rp_provider_id rp_candidates providers report].
    pose proof (select_id _ _ _ _ Hsel) as Hid. split.
    + assert (best ∈ candidates wanted _) as (Hin & Hst & _)%elem_of_candidates
        by (rewrite E; set_solver).
      apply elem_of_evaluated in Hin as (record & config & Hrec & Hconf & _ & ->).
      apply evaluate_eligible in Hst as [d [Hd _ _ _]]. apply usable_descriptor_some in Hd.
      rewrite evaluate_id in Hid. rewrite Hid.
      destruct (capabilities_records_ok host current pool cache mode now answers record Hok Hrec)
        as (member & Hm & Hr). exists member, record, d.
      destruct (rec_descriptor _ _ _ _ Hr d Hd) as (-> & -> & ?). done.
    + intros c (q & -> & (p & -> & Hin)%list_elem_of_fmap)%list_elem_of_fmap.
      cbn [rpc_selected rpc_provider_id receipt_candidate]. rewrite selected_head.
      rewrite (candidate_ids_fmap wanted _ Hev), head_fmap, E. simpl. rewrite Hid.
      split; [by intros [= ->]|by intros ->].
Qed.
End pool_placement.

(** ** Witnesses *)

#[local] Instance witness_placement_cloudflare : CloudflareTable :=
  {| CloudflareSettings := Empty_set; validate_settings := λ _, Ok tt |}.
#[local] Instance witness_placement_distribution : CanonicalIdentity DistributionMaterial :=
  λ m, dm_digest m.
#[local] Instance witness_placement_capability : CanonicalIdentity CapabilityBody :=
  λ b, body_provider_id b.
#[local] Instance witness_placement_fingerprint : CanonicalIdentity FingerprintMaterial :=
  λ f, ProviderKind.to_string (fp_kind f) +:+ default "" (fp_endpoint f).
#[local] Instance witness_placement_policy : CanonicalIdentity Policy :=
  λ p, default "anonymous" (policy_name p).
#[local] Instance witness_placement_admission : CanonicalIdentity AdmissionMaterial :=
  λ m, material_policy_id m +:+ workload_id (material_contract m).
#[local] Instance witness_placement_material : CanonicalIdentity PlacementMaterial :=
  λ m, "placement".

Definition wasm_contract : ExecutionContract :=
  {| contract_version := "compute.contract@1"; workload_id := "w"; bundle_id := "b";
     contract_runtime := {| cr_kind := Wasm; cr_version := None |};
     dependency_id := None; contract_isolation := Sandboxed; contract_network := NetNone;
     contract_resources := {| cr_timeout_ms := Some 500%N; cr_memory_bytes := None;
       cr_cpu_time_ms := None; cr_process_count := None; cr_stdout_bytes := None;
       cr_stderr_bytes := None |};
     contract_platform := None; input_bytes := 10; artifact_bytes := 0;
     output_classes := [Stdio] |}.

Definition wasm_context : AdmissionContext :=
  {| context_policy := compose []; request_policy := None; context_contract := wasm_contract |}.

(** Two members of the local kind; the second is the less important one. *)
Definition two_members : gmap string ProviderConfig :=
  {[ "a" := local_config; "b" := local_config ]}.

Definition discovered_record (id : string) : DiscoveryRecord :=
  {| record_provider_id := id; record_status := Discovered;
     record_descriptor := Some (wasm_descriptor id); record_error := None |}.

Definition two_records : list DiscoveryRecord := [discovered_record "b"; discovered_record "a"].

Definition place_two (wanted : PlacementPolicy) : option PlacementReport :=
  place_with_policy linux_host (λ _, "") two_members default_pool_policy two_records
    (wasm_requirements None) wasm_context wanted.

Example place_two_auto :
  (selected_provider_id <$> (place_two Auto ≫= selected)) = Some "a" ∧
  (selected_provider_id <$> (place_two (PreferProvider "b") ≫= selected)) = Some "b".
Proof. vm_compute. done. Qed.

Lemma two_records_NoDup : NoDup (record_provider_id <$> two_records).
Proof. apply (bool_decide_unpack _). vm_compute. exact I. Qed.

(** What a computation gives is decided by evaluating it. *)
Ltac evaluated E := vm_compute in E; first [discriminate E | injection E as <-].

Lemma placement_total_witness : ∃ rep, place_two Auto = Some rep ∧ outcome rep = Placed.
Proof.
  destruct (placement_total linux_host (λ _, "") two_members default_pool_policy two_records
    (wasm_requirements None) wasm_context Auto two_records_NoDup) as (rep & Hp & [[? _]|[Ho _]]).
  - exists rep. split; [exact Hp|assumption].
  - evaluated Hp. discriminate Ho.
Defined.

Lemma placement_sound_witness :
  ∃ rep s record d, place_two Auto = Some rep ∧ selected rep = Some s ∧
    selected_provider_id s = record_provider_id record ∧
    ∃ offer, Serves linux_host (wasm_requirements None) d offer.
Proof.
  unfold place_two. destruct (place_with_policy _ _ _ _ _ _ _ _) as [rep|] eqn:Hp; [|evaluated Hp].
  destruct (selected rep) as [s|] eqn:Hs; [|evaluated Hp; discriminate Hs].
  destruct (placement_sound linux_host (λ _, "") two_members default_pool_policy two_records
    (wasm_requirements None) wasm_context Auto rep s two_records_NoDup Hp Hs)
    as (record & _ & d & _ & Hid & _ & _ & _ & Hserves & _).
  exists rep, s, record, d. split; [reflexivity|]. split; [exact Hs|]. split; [exact Hid|exact Hserves].
Defined.

Lemma placement_optimal_witness :
  compare_candidates Auto
    (evaluate linux_host (λ _, "") (discovered_record "a") local_config default_pool_policy
       (wasm_requirements None) wasm_context)
    (evaluate linux_host (λ _, "") (discovered_record "b") local_config default_pool_policy
       (wasm_requirements None) wasm_context) = Lt ∧
  ∃ rep s best, place_two Auto = Some rep ∧ selected rep = Some s ∧ best ∈ two_records ∧
    selected_provider_id s = record_provider_id best.
Proof.
  split; [vm_compute; reflexivity|].
  unfold place_two. destruct (place_with_policy _ _ _ _ _ _ _ _) as [rep|] eqn:Hp; [|evaluated Hp].
  pose proof (placement_optimal linux_host (λ _, "") two_members default_pool_policy two_records
    (wasm_requirements None) wasm_context Auto rep two_records_NoDup Hp) as Hbest.
  destruct (selected rep) as [s|] eqn:Hs; [|evaluated Hp; discriminate Hs].
  destruct Hbest as (best & _ & (Hin & _) & Hid & _). exists rep, s, best.
  split; [reflexivity|]. split; [exact Hs|]. split; [exact Hin|exact Hid].
Defined.

Lemma placement_order_independent_witness :
  place_with_policy linux_host (λ _, "") two_members default_pool_policy
    [discovered_record "a"; discovered_record "b"] (wasm_requirements None) wasm_context PreferLocal
  = place_two PreferLocal.
Proof.
  unfold place_two.
  apply (placement_order_independent linux_host (λ _, "") two_members default_pool_policy two_records
    (wasm_requirements None) wasm_context PreferLocal); [apply two_records_NoDup|].
  apply Permutation_swap.
Defined.

Lemma explicit_never_substituted_witness :
  ∃ rep f, place_two (OnlyProvider "c") = Some rep ∧ selected rep = None ∧ failure rep = Some f ∧
    failure_code f = "provider_not_configured".
Proof.
  unfold place_two. destruct (place_with_policy _ _ _ _ _ _ _ _) as [rep|] eqn:Hp; [|evaluated Hp].
  pose proof (explicit_never_substituted linux_host (λ _, "") two_members default_pool_policy
    two_records (wasm_requirements None) wasm_context (OnlyProvider "c") rep two_records_NoDup Hp)
    as (_ & _ & Hf).
  destruct (failure rep) as [f|] eqn:Ef; [|evaluated Hp; discriminate Ef].
  exists rep, f. split; [reflexivity|]. split; [by evaluated Hp|]. split; [exact Ef|].
  rewrite (Hf f eq_refl). vm_compute. reflexivity.
Defined.

Lemma report_consistent_witness :
  ∃ rep, place_two Auto = Some rep ∧
    capacity_available_providers rep ++ capacity_unavailable_providers rep
      ≡ₚ compatible_providers rep ∧ length (compatible_providers rep) = 2.
Proof.
  unfold place_two. destruct (place_with_policy _ _ _ _ _ _ _ _) as [rep|] eqn:Hp; [|evaluated Hp]. exists rep.
  split; [reflexivity|]. split.
  - apply (report_consistent linux_host (λ _, "") two_members default_pool_policy two_records
      (wasm_requirements None) wasm_context Auto rep two_records_NoDup Hp).
  - by evaluated Hp.
Defined.

Lemma pool_placement_binds_witness :
  ∃ rep, place_with_policy linux_host (λ _, "") (configs local_pool) default_pool_policy
    (fst (capabilities linux_host linux_platform local_pool ∅ Refresh None 0 (λ _, healthy_answer)))
    (wasm_requirements None) wasm_context Auto = Some rep ∧ is_Some (receipt_binding rep).
Proof.
  destruct (pool_placement_binds linux_host linux_platform (λ _, "") default_pool_policy local_pool ∅
    Refresh 0 (λ _, healthy_answer) default_pool_policy (wasm_requirements None) wasm_context Auto
    local_pool_reachable) as (rep & Hp & Hb & _).
  exists rep. split; [exact Hp|]. apply Hb. by evaluated Hp.
Defined.
