(* ===== verification/Requests.v ===== *)
(** Provider requests as a job store keeps them
    (src/crates/compute-provider/src/lib.rs, the request types and errors;
    src/crates/compute-provider/src/jobs.rs, [RequestSeal] and [StoredRequest];
    src/crates/compute-core/src/jobs.rs, [ApplicationIdentity] and the
    identifiers).

    What a portable bundle holds is behind the interface [Bundles]; AES-256-GCM
    (ring) is the interface [Aead].  Randomness is an argument: the nonce a
    write draws, or [None] when the system has none. *)

From S2P Require Import Prelude Text Core Isolation Policy Admission Descriptor Matching Pool Placement.

(** ** Errors *)

Definition provider_error (kind : ProviderErrorKind) (message : string) : ProviderError :=
  {| perror_kind := kind; perror_message := message |}.

Definition evidence_error (message : string) : ProviderError := provider_error EvidenceInvalid message.
Definition artifact_error (e : ComputeError) : ProviderError :=
  provider_error ArtifactInvalid (error_to_string e).
Definition transport_error (message : string) : ProviderError :=
  provider_error TransportFailure message.

(** ** Identities *)

Record ApplicationIdentity : Type := {
  app_id : string;
  app_name : string;
  app_port : option N;
}.

#[export] Instance ApplicationIdentity_eq_dec : EqDecision ApplicationIdentity.
Proof. solve_decision. Defined.

(** [("compute.application@1", name)], which the identity digests. *)
Record ApplicationMaterial : Type := { am_version : string; am_name : string }.

Section application.
Context `{!CanonicalIdentity ApplicationMaterial}.

(** [ApplicationIdentity::new] *)
Definition new_application (name : string) (port : option N)
    : Result ApplicationIdentity ComputeError :=
  reject_if (is_empty name || N.ltb 64 (len name) ||
             negb (all_bytes (λ b, is_ascii_alphanumeric b || one_of "-_." b) name))
    (InvalidWorkload "application name must be 1-64 letters, digits, '.', '-', or '_'") ;?;
  reject_if (bool_decide (port = Some 0%N))
    (InvalidWorkload "application port must be greater than zero") ;?;
  Ok {| app_id := canonical_identity {| am_version := "compute.application@1"; am_name := name |};
        app_name := name; app_port := port |}.

(** [ApplicationIdentity::verify] *)
Definition verify_application (a : ApplicationIdentity) : Result unit ComputeError :=
  let? expected := new_application (app_name a) (app_port a) in
  reject_if (negb (String.eqb (app_id a) (app_id expected)))
    (InvalidWorkload "application identity does not match its name").
End application.

Definition is_lower_hex (b : N) : bool := is_ascii_digit b || in_range 97 102 b.

(** The digest of a [job_] or [rsv_] identifier. *)
Definition parse_identity (prefix message value : string) : Result string ComputeError :=
  match strip_prefix prefix value with
  | None => Err (InvalidWorkload message)
  | Some digest =>
      reject_if (negb (N.eqb (len digest) 64) || negb (all_bytes is_lower_hex digest))
        (InvalidWorkload message) ;?;
      Ok value
  end.

(** [JobId::parse] *)
Definition parse_job_id (value : string) : Result string ComputeError :=
  parse_identity "job_" "malformed job identity" value.

(** [ReservationId::parse] *)
Definition parse_reservation_id (value : string) : Result string ComputeError :=
  parse_identity "rsv_" "malformed reservation identity" value.

Lemma parse_identity_ok prefix message value v :
  parse_identity prefix message value = Ok v → v = value.
Proof.
  unfold parse_identity. destruct (strip_prefix _ _); [|done].
  rewrite seq_ok. by intros [_ [= ->]].
Qed.

(** ** Bundles *)

Record BundleVerification : Type := {
  verified_workload_id : string;
  verified_bundle_id : string;
}.

(** What a job reads of the portable bundle of its request. *)
Class Bundles := {
  WorkloadBundle : Type;
  (** [ArtifactTransport::Inline] *)
  InlineWorkload : Type;
  inline_eq_dec :: EqDecision InlineWorkload;
  (** [WorkloadBundle::from_bytes] *)
  from_bytes : list N → Result WorkloadBundle ComputeError;
  (** the bundle of an inline transport, validated *)
  from_inline : InlineWorkload → Result WorkloadBundle ComputeError;
  (** [WorkloadBundle::verification] *)
  bundle_verification : WorkloadBundle → Result BundleVerification ComputeError;
  (** [WorkloadBundle::require_ids] *)
  require_ids : WorkloadBundle → option string → option string → Result unit ComputeError;
  (** [capsule.capsule_id()] of the dependency capsule, when there is one *)
  capsule_id : WorkloadBundle → option (Result string ComputeError);
  workload_runtime : WorkloadBundle → RuntimeKind;
  workload_isolation : WorkloadBundle → IsolationProfile;
  workload_network : WorkloadBundle → NetworkPolicy;
  workload_resources : WorkloadBundle → ResourceLimits;
}.

(** Execution metadata the job store carries without reading it: scope,
    project, stack, application bundle and process runtime of a request, and
    the substrate of a session. *)
Class CarriedMetadata := {
  RequestMetadata : Type;
  SubstrateEvidence : Type;
}.

(** ** Requests *)

Section requests.
Context `{!Bundles, !CarriedMetadata}.

Inductive ArtifactTransport : Type :=
| BundleTransport (data : list N)
| InlineTransport (workload : InlineWorkload).

(** [ArtifactTransport::bundle] *)
Definition transport_bundle (artifact : ArtifactTransport) : Result WorkloadBundle ProviderError :=
  map_err artifact_error
    (match artifact with
     | BundleTransport data => from_bytes data
     | InlineTransport workload => from_inline workload
     end).

Record ExpectedIdentities : Type := {
  expected_workload_id : option string;
  expected_bundle_id : option string;
  expected_dependency_id : option string;
  expected_distribution_id : option string;
  expected_runtime_distribution_id : option string;
  expected_runtime_distribution_digest : option string;
}.

Record ExecutionOptions : Type := {
  opt_isolation : option IsolationProfile;
  opt_execution_request_id : option string;
  opt_placement : option ReceiptPlacement;
  opt_application : option ApplicationIdentity;
  opt_policy : option Policy;
  opt_metadata : RequestMetadata;
}.

Record ProviderRequest : Type := {
  req_protocol : string;
  req_artifact : ArtifactTransport;
  req_expected : ExpectedIdentities;
  req_execution : ExecutionOptions;
}.

Definition REMOTE_PROTOCOL : string := "compute.remote@1".

(** [SemanticRequest]: what the request hash covers. *)
Record SemanticRequest : Type := {
  sem_protocol : string;
  sem_artifact : ArtifactTransport;
  sem_expected : ExpectedIdentities;
  sem_isolation : option IsolationProfile;
  sem_policy : option string;
}.

Context `{!CanonicalIdentity Policy, !CanonicalIdentity SemanticRequest,
          !CanonicalIdentity ApplicationMaterial}.

(** [ProviderRequest::request_hash] *)
Definition request_hash (r : ProviderRequest) : string :=
  canonical_identity
    {| sem_protocol := req_protocol r;
       sem_artifact := req_artifact r;
       sem_expected := req_expected r;
       sem_isolation := opt_isolation (req_execution r);
       sem_policy := policy_id <$> opt_policy (req_execution r) |}.

(** [ProviderRequest::validate] *)
Definition validate_request (r : ProviderRequest) : Result unit ProviderError :=
  reject_if (negb (String.eqb (req_protocol r) REMOTE_PROTOCOL))
    (provider_error ProtocolUnsupported
       ("unsupported provider protocol: " +:+ req_protocol r)) ;?;
  match opt_policy (req_execution r) with
  | Some policy =>
      map_err (λ e, provider_error PolicyRejected (policy_error_to_string e)) (validate policy)
  | None => Ok tt
  end ;?;
  match opt_application (req_execution r) with
  | Some application =>
      map_err (λ e, provider_error PolicyRejected (error_to_string e))
        (verify_application application)
  | None => Ok tt
  end.

(** [Admission] and its summary *)
Record JobAdmission : Type := {
  adm_decision : AdmissionDecision;
  adm_policy : EffectivePolicy;
}.

Record ExecutionAdmission : Type := {
  ea_policy_id : string;
  ea_admission_id : string;
  ea_admission_status : string;
}.

Definition admission_status_str (status : AdmissionStatus) : string :=
  match status with StatusAdmitted => "admitted" | StatusDenied => "denied" end.

Definition summary (a : JobAdmission) : ExecutionAdmission :=
  {| ea_policy_id := decision_policy_id (adm_decision a);
     ea_admission_id := admission_id (adm_decision a);
     ea_admission_status := admission_status_str (decision_status (adm_decision a)) |}.

Record StoredRequest : Type := {
  sr_owner : string;
  sr_idempotency_key_hash : option string;
  sr_request : ProviderRequest;
  sr_admission : option JobAdmission;
  sr_substrate : option SubstrateEvidence;
  sr_sealed_artifact : option string;
}.

Definition with_artifact (artifact : ArtifactTransport) (r : ProviderRequest) : ProviderRequest :=
  {| req_protocol := req_protocol r; req_artifact := artifact;
     req_expected := req_expected r; req_execution := req_execution r |}.

Definition with_sealed (sealed : option string) (r : ProviderRequest) (stored : StoredRequest)
    : StoredRequest :=
  {| sr_owner := sr_owner stored; sr_idempotency_key_hash := sr_idempotency_key_hash stored;
     sr_request := r; sr_admission := sr_admission stored; sr_substrate := sr_substrate stored;
     sr_sealed_artifact := sealed |}.

Definition with_admission (a : JobAdmission) (stored : StoredRequest) : StoredRequest :=
  {| sr_owner := sr_owner stored; sr_idempotency_key_hash := sr_idempotency_key_hash stored;
     sr_request := sr_request stored; sr_admission := Some a;
     sr_substrate := sr_substrate stored; sr_sealed_artifact := sr_sealed_artifact stored |}.
End requests.

(** ** Sealing *)

(** AES-256-GCM as ring offers it: [seal_in_place_append_tag] and
    [open_in_place] under a key, a nonce and associated data. *)
Class Aead := {
  AeadKey : Type;
  aead_seal : AeadKey → list N → string → list N → option (list N);
  aead_open : AeadKey → list N → string → list N → option (list N);
}.

Definition is_byte (b : N) : Prop := (b < 256)%N.

(** What ring documents of it: a ciphertext is bytes, it opens under the key,
    nonce and associated data it was sealed with, and not under other
    associated data. *)
Class AeadLaws `{!Aead} : Prop := {
  aead_bytes key nonce aad plain cipher :
    aead_seal key nonce aad plain = Some cipher → Forall is_byte cipher;
  aead_opens key nonce aad plain cipher :
    aead_seal key nonce aad plain = Some cipher → aead_open key nonce aad cipher = Some plain;
  aead_bound key nonce aad aad' plain cipher :
    aead_seal key nonce aad plain = Some cipher → aad' ≠ aad →
    aead_open key nonce aad' cipher = None;
}.

Definition NONCE_LEN : nat := 12.

Definition hex_digit (d : N) : ascii :=
  if N.ltb d 10 then ascii_of_N (48 + d) else ascii_of_N (87 + d).

(** [{byte:02x}] *)
Definition hex_byte (b : N) : string :=
  String (hex_digit (N.shiftr b 4)) (String (hex_digit (N.land b 15)) "").

Fixpoint to_hex (l : list N) : string :=
  match l with [] => "" | b :: l => hex_byte b +:+ to_hex l end.

Definition from_hex_digit (c : ascii) : option N :=
  let n := byte_of c in
  if is_ascii_digit n then Some (n - 48)%N
  else if in_range 97 102 n then Some (n - 87)%N
  else if in_range 65 70 n then Some (n - 55)%N
  else None.

(** [u8::from_str_radix(_, 16)] of two characters, which allows a sign. *)
Definition from_hex_pair (high low : ascii) : option N :=
  if N.eqb (byte_of high) 43 then from_hex_digit low
  else h ← from_hex_digit high; l ← from_hex_digit low; Some (16 * h + l)%N.

(** [None] when the length is odd or a pair is not a byte.  The source slices
    by bytes, and a string that is not ASCII is outside what it writes. *)
Fixpoint from_hex (s : string) : option (list N) :=
  match s with
  | EmptyString => Some []
  | String _ EmptyString => None
  | String h (String l s) => b ← from_hex_pair h l; (b ::.) <$> from_hex s
  end.

Section sealing.
Context `{!Aead} (key : AeadKey).

(** [RequestSeal::seal] *)
Definition seal (nonce : option (list N)) (job_id : string) (data : list N)
    : Result string ProviderError :=
  match nonce with
  | None => Err (transport_error "no randomness for a request nonce")
  | Some nonce =>
      match aead_seal key nonce job_id data with
      | None => Err (transport_error "could not seal the request")
      | Some sealed => Ok (to_hex (nonce ++ sealed))
      end
  end.

(** [RequestSeal::open] *)
Definition open (job_id sealed : string) : Result (list N) ProviderError :=
  let invalid := evidence_error "the sealed request does not open with this store's key" in
  match from_hex sealed with
  | None => Err invalid
  | Some bytes =>
      if bool_decide (length bytes < NONCE_LEN) then Err invalid
      else match aead_open key (take NONCE_LEN bytes) job_id (drop NONCE_LEN bytes) with
           | None => Err invalid
           | Some plain => Ok plain
           end
  end.

Context `{!Bundles, !CarriedMetadata}.

(** What [write_request] puts on disk. *)
Definition on_disk (nonce : option (list N)) (job_id : string) (stored : StoredRequest)
    : Result StoredRequest ProviderError :=
  match req_artifact (sr_request stored) with
  | BundleTransport (b :: data) =>
      let? sealed := seal nonce job_id (b :: data) in
      Ok (with_sealed (Some sealed) (with_artifact (BundleTransport []) (sr_request stored)) stored)
  | _ => Ok stored
  end.

(** What [read_request] restores of it. *)
Definition restore (job_id : string) (stored : StoredRequest) : Result StoredRequest ProviderError :=
  match sr_sealed_artifact stored with
  | None => Ok stored
  | Some sealed =>
      let? data := open job_id sealed in
      Ok (with_sealed None (with_artifact (BundleTransport data) (sr_request stored)) stored)
  end.
End sealing.

(** ** Hexadecimal *)

Lemma from_hex_digit_of d : (d < 16)%N → from_hex_digit (hex_digit d) = Some d.
Proof.
  intros Hd. unfold hex_digit, from_hex_digit, byte_of.
  destruct (N.ltb_spec d 10); rewrite N_ascii_embedding by lia; unfold is_ascii_digit, in_range.
  - replace (48 + d - 48)%N with d by lia. case_match eqn:E; [done|].
    apply andb_false_iff in E. rewrite !N.leb_gt in E. lia.
  - replace (87 + d - 87)%N with d by lia. case_match eqn:E.
    { apply andb_true_iff in E. rewrite !N.leb_le in E. lia. }
    case_match eqn:E'; [done|]. apply andb_false_iff in E'. rewrite !N.leb_gt in E'. lia.
Qed.

Lemma hex_digit_not_sign d : (d < 16)%N → N.eqb (byte_of (hex_digit d)) 43 = false.
Proof.
  intros Hd. apply N.eqb_neq. unfold hex_digit, byte_of.
  destruct (N.ltb_spec d 10); rewrite N_ascii_embedding by lia; lia.
Qed.

Lemma from_hex_pair_of b :
  is_byte b → from_hex_pair (hex_digit (N.shiftr b 4)) (hex_digit (N.land b 15)) = Some b.
Proof.
  unfold is_byte. intros Hb.
  assert (N.shiftr b 4 < 16)%N as Hh.
  { rewrite N.shiftr_div_pow2. change (2 ^ 4)%N with 16%N. apply N.Div0.div_lt_upper_bound. lia. }
  assert (N.land b 15 < 16)%N as Hl.
  { change 15%N with (N.ones 4). rewrite N.land_ones. apply N.mod_lt. done. }
  unfold from_hex_pair. rewrite hex_digit_not_sign, !from_hex_digit_of by done. simpl. f_equal.
  rewrite N.shiftr_div_pow2. change 15%N with (N.ones 4). rewrite N.land_ones.
  change (2 ^ 4)%N with 16%N. rewrite (N.div_mod b 16) at 3 by done. lia.
Qed.

Lemma from_to_hex l : Forall is_byte l → from_hex (to_hex l) = Some l.
Proof.
  induction 1 as [|b l Hb _ IH]; [done|]. cbn [to_hex hex_byte].
  change (from_hex (hex_byte b +:+ to_hex l) = Some (b :: l)). unfold hex_byte.
  change (from_hex (String ?h (String ?l "") +:+ ?s)) with (from_hex (String h (String l s))).
  cbn -[from_hex_pair hex_digit N.shiftr N.land]. rewrite from_hex_pair_of by done. simpl.
  by rewrite IH.
Qed.

Lemma open_sealed `{!Aead, !AeadLaws} key nonce job_id job_id' data sealed :
  length nonce = NONCE_LEN → Forall is_byte nonce →
  seal key (Some nonce) job_id data = Ok sealed →
  open key job_id' sealed =
    if String.eqb job_id' job_id then Ok data
    else Err (evidence_error "the sealed request does not open with this store's key").
Proof.
  intros Hlen Hbytes. unfold seal. destruct (aead_seal _ _ _ _) as [cipher|] eqn:E; [|done].
  intros [= <-]. unfold open. rewrite from_to_hex.
  2: { apply Forall_app_2; [done|]. by eapply aead_bytes. }
  rewrite bool_decide_eq_false_2 by (rewrite length_app; lia).
  rewrite take_app_length', drop_app_length' by done.
  destruct (String.eqb_spec job_id' job_id) as [->|Hne].
  - by rewrite (aead_opens _ _ _ _ _ E).
  - by rewrite (aead_bound _ _ _ _ _ _ E Hne).
Qed.

(** What was put on disk for a job is restored for it. *)
Lemma restore_on_disk `{!Aead, !AeadLaws, !Bundles, !CarriedMetadata} key nonce job_id stored disk :
  length nonce = NONCE_LEN → Forall is_byte nonce → sr_sealed_artifact stored = None →
  on_disk key (Some nonce) job_id stored = Ok disk → restore key job_id disk = Ok stored.
Proof.
  intros Hlen Hbytes Hnone. unfold on_disk.
  destruct (req_artifact (sr_request stored)) as [[|b data]|w] eqn:Ha.
  - intros [= <-]. unfold restore. by rewrite Hnone.
  - rewrite and_then_ok. intros (sealed & Hseal & [= <-]). unfold restore; simpl.
    rewrite (open_sealed key nonce job_id job_id (b :: data)) by done.
    rewrite String.eqb_refl; simpl. destruct stored as [o k [p a e x] d u s]; simpl in *. by subst.
  - intros [= <-]. unfold restore. by rewrite Hnone.
Qed.

(** A stored request comes back as it was: whatever [write_request] put on
    disk for a job, [read_request] of that job restores exactly; the bundle is
    never on disk in the clear; and what was sealed for one job does not open
    as another's. *)
Theorem stored_request_round_trip `{!Aead, !AeadLaws, !Bundles, !CarriedMetadata}
    key nonce job_id stored disk :
  length nonce = NONCE_LEN → Forall is_byte nonce → sr_sealed_artifact stored = None →
  on_disk key (Some nonce) job_id stored = Ok disk →
  restore key job_id disk = Ok stored ∧
  (∀ data, req_artifact (sr_request disk) = BundleTransport data → data = []) ∧
  (∀ other, other ≠ job_id → is_Some (sr_sealed_artifact disk) →
     is_ok (restore key other disk) = false).
Proof.
  intros Hlen Hbytes Hnone Hdisk. split; [by eapply restore_on_disk|]. revert Hdisk. unfold on_disk.
  destruct (req_artifact (sr_request stored)) as [[|b data]|w] eqn:Ha.
  - intros [= <-]. rewrite Hnone, Ha. split; [congruence|by intros ? _ []].
  - rewrite and_then_ok. intros (sealed & Hseal & [= <-]). unfold restore; simpl.
    split; [by intros ? [= <-]|]. intros other Hne _.
    rewrite (open_sealed key nonce job_id other (b :: data)) by done.
    by apply String.eqb_neq in Hne as ->.
  - intros [= <-]. rewrite Hnone, Ha. split; [congruence|by intros ? _ []].
Qed.

(** ** Witnesses *)

(** A transparent cipher that only binds its associated data: a prefix-free
    encoding of it before the plaintext. *)
Fixpoint encode_aad (s : string) (rest : list N) : list N :=
  match s with
  | EmptyString => 0%N :: rest
  | String c s => 1%N :: byte_of c :: encode_aad s rest
  end.

Fixpoint decode_aad (s : string) (l : list N) : option (list N) :=
  match s, l with
  | EmptyString, 0%N :: rest => Some rest
  | String c s, 1%N :: b :: rest => if N.eqb b (byte_of c) then decode_aad s rest else None
  | _, _ => None
  end.

Lemma decode_encode_aad s s' rest :
  decode_aad s' (encode_aad s rest) = if String.eqb s' s then Some rest else None.
Proof.
  revert s'. induction s as [|c s IH]; intros [|c' s']; try done.
  cbn [encode_aad decode_aad String.eqb].
  destruct (N.eqb_spec (byte_of c) (byte_of c')) as [E|E].
  - apply (f_equal ascii_of_N) in E. unfold byte_of in E. rewrite !ascii_N_embedding in E. subst.
    by rewrite Ascii.eqb_refl, IH.
  - destruct (Ascii.eqb_spec c' c) as [->|]; done.
Qed.

#[local] Instance witness_aead : Aead :=
  {| AeadKey := unit;
     aead_seal _ _ aad plain :=
       let cipher := encode_aad aad plain in
       if forallb (λ b, N.ltb b 256) cipher then Some cipher else None;
     aead_open _ _ aad cipher := decode_aad aad cipher |}.

#[local] Instance witness_aead_laws : AeadLaws.
Proof.
  split; cbn -[encode_aad decode_aad forallb]; intros;
    match goal with
    | Hs : (if forallb ?f ?l then _ else _) = _ |- _ =>
        destruct (forallb f l) eqn:E; [injection Hs as <-|discriminate Hs]
    end.
  - apply Forall_forall. intros b Hb. apply N.ltb_lt.
    rewrite forallb_forall in E. by apply E, list_elem_of_In.
  - by rewrite decode_encode_aad, String.eqb_refl.
  - rewrite decode_encode_aad. by destruct (String.eqb_spec aad' aad).
Qed.

(** A bundle that is its bytes; nothing else is carried. *)
#[local] Instance witness_bundles : Bundles :=
  {| WorkloadBundle := list N; InlineWorkload := Empty_set;
     from_bytes := Ok; from_inline := λ e, match e with end;
     bundle_verification := λ _, Ok {| verified_workload_id := "w"; verified_bundle_id := "b" |};
     require_ids := λ _ _ _, Ok tt; capsule_id := λ _, None;
     workload_runtime := λ _, Wasm; workload_isolation := λ _, Sandboxed;
     workload_network := λ _, NetNone; workload_resources := λ _, default_limits |}.
#[local] Instance witness_metadata : CarriedMetadata :=
  {| RequestMetadata := unit; SubstrateEvidence := unit |}.

Definition plain_request (data : list N) : ProviderRequest :=
  {| req_protocol := REMOTE_PROTOCOL; req_artifact := BundleTransport data;
     req_expected := {| expected_workload_id := None; expected_bundle_id := None;
       expected_dependency_id := None; expected_distribution_id := None;
       expected_runtime_distribution_id := None; expected_runtime_distribution_digest := None |};
     req_execution := {| opt_isolation := None; opt_execution_request_id := None;
       opt_placement := None; opt_application := None; opt_policy := None;
       opt_metadata := tt |} |}.

Definition stored_bundle : StoredRequest :=
  {| sr_owner := "alice"; sr_idempotency_key_hash := None; sr_request := plain_request [1; 2; 3]%N;
     sr_admission := None; sr_substrate := None; sr_sealed_artifact := None |}.

Lemma stored_request_round_trip_witness :
  match on_disk tt (Some (repeat 7%N 12)) "job_a" stored_bundle with
  | Ok disk => restore tt "job_a" disk = Ok stored_bundle ∧ is_ok (restore tt "job_b" disk) = false
  | Err _ => False
  end.
Proof.
  destruct (on_disk _ _ _ _) as [disk|e] eqn:E; [|vm_compute in E; discriminate E].
  destruct (@stored_request_round_trip witness_aead witness_aead_laws witness_bundles
    witness_metadata tt (repeat 7%N 12) "job_a" stored_bundle disk) as (Hr & _ & Ho).
  - reflexivity.
  - repeat constructor.
  - reflexivity.
  - exact E.
  - split; [exact Hr|]. apply Ho; [discriminate|]. vm_compute in E. injection E as <-. eexists.
    reflexivity.
Defined.
