(* ===== verification/JobRecord.v ===== *)
(** Durable job records (src/crates/compute-core/src/jobs.rs; the pure helpers of
    src/crates/compute-provider/src/jobs.rs): the job and reservation state
    machines, capacity arithmetic, and the evidence a result carries.

    Instants are nanoseconds since the epoch.  An execution receipt and the
    parts of a result a job does not read are behind the interface [Evidence]. *)

From S2P Require Import Prelude Text Core Isolation Policy Admission.
From S2P Require Import Descriptor Matching Pool Placement Requests.

(** ** State machines *)

Inductive ReservationState : Type := ResPending | ResReserved | ResReleased | ResExpired.

#[export] Instance ReservationState_eq_dec : EqDecision ReservationState.
Proof. solve_decision. Defined.

Module ReservationState.
Definition is_active (s : ReservationState) : bool :=
  match s with ResReserved => true | _ => false end.

Definition is_terminal (s : ReservationState) : bool :=
  match s with ResReleased | ResExpired => true | _ => false end.
End ReservationState.

Inductive JobStatus : Type :=
| JobCreated | JobAccepted | JobQueued | JobWaitingForCapacity | JobReserved | JobAdmitted
| JobPreparing | JobRunning | JobSucceeded | JobFailed | JobCancelled | JobTimedOut | JobRejected.

#[export] Instance JobStatus_eq_dec : EqDecision JobStatus.
Proof. solve_decision. Defined.

Module JobStatus.
Definition is_terminal (s : JobStatus) : bool :=
  match s with
  | JobSucceeded | JobFailed | JobCancelled | JobTimedOut | JobRejected => true
  | _ => false
  end.

(** [{:?}] *)
Definition debug (s : JobStatus) : string :=
  match s with
  | JobCreated => "Created" | JobAccepted => "Accepted" | JobQueued => "Queued"
  | JobWaitingForCapacity => "WaitingForCapacity" | JobReserved => "Reserved"
  | JobAdmitted => "Admitted" | JobPreparing => "Preparing" | JobRunning => "Running"
  | JobSucceeded => "Succeeded" | JobFailed => "Failed" | JobCancelled => "Cancelled"
  | JobTimedOut => "TimedOut" | JobRejected => "Rejected"
  end.
End JobStatus.

(** [valid_transition] *)
Definition valid_transition (from to : JobStatus) : bool :=
  if JobStatus.is_terminal to then true
  else match from, to with
       | (JobCreated | JobAccepted), JobQueued => true
       | JobQueued, (JobWaitingForCapacity | JobReserved) => true
       | JobWaitingForCapacity, (JobWaitingForCapacity | JobReserved) => true
       | JobReserved, (JobAdmitted | JobPreparing) => true
       | JobAdmitted, JobPreparing => true
       | JobPreparing, JobRunning => true
       | _, _ => false
       end.

(** ** Records *)

Record ComputeReservation : Type := {
  res_reservation_id : string;
  res_job_id : string;
  res_provider_id : string;
  res_resources : ResourceRequirements;
  res_state : ReservationState;
  res_created_at : Z;
  res_expires_at : option Z;
  res_reserved_at : option Z;
  res_released_at : option Z;
  res_capacity_snapshot : option CapacitySnapshot;
}.

Record CapacityWait : Type := {
  wait_required : ResourceRequirements;
  wait_available : ResourceRequirements;
  wait_reasons : list string;
}.

#[export] Instance CapacityWait_eq_dec : EqDecision CapacityWait.
Proof. solve_decision. Defined.

Record JobCancellation : Type := {
  can_requested : bool;
  can_effective : bool;
  can_phase : option string;
}.

Record JobRequestedPolicy : Type := {
  jrp_isolation : IsolationProfile;
  jrp_network : NetworkPolicy;
  jrp_resources : ResourceLimits;
}.

Record JobRequest : Type := {
  jr_request_hash : string;
  jr_request_id : option string;
  jr_workload_id : string;
  jr_bundle_id : string;
  jr_dependency_id : option string;
  jr_runtime : RuntimeKind;
  jr_application : option ApplicationIdentity;
  jr_requested_execution : JobRequestedPolicy;
}.

Record ExecutionJob : Type := {
  job_version : string;
  job_id : string;
  job_request : JobRequest;
  job_status : JobStatus;
  job_provider : ProviderIdentity;
  job_application : option ApplicationIdentity;
  job_placement_id : option string;
  job_placement : option ReceiptPlacement;
  job_provider_id : option string;
  job_admission : option ExecutionAdmission;
  job_reservation : option ComputeReservation;
  job_capacity_wait : option CapacityWait;
  job_execution_id : option string;
  job_result_digest : option string;
  job_cancellation : JobCancellation;
  job_failure : option string;
  job_session_id : option string;
  job_created_at : Z;
  job_updated_at : Z;
}.

(** Assignments to the fields a job's life changes. *)
Definition set_status (value : JobStatus) (job : ExecutionJob) : ExecutionJob :=
  {| job_version := job_version job; job_id := job_id job; job_request := job_request job;
     job_status := value; job_provider := job_provider job;
     job_application := job_application job; job_placement_id := job_placement_id job;
     job_placement := job_placement job; job_provider_id := job_provider_id job;
     job_admission := job_admission job; job_reservation := job_reservation job;
     job_capacity_wait := job_capacity_wait job; job_execution_id := job_execution_id job;
     job_result_digest := job_result_digest job; job_cancellation := job_cancellation job;
     job_failure := job_failure job; job_session_id := job_session_id job;
     job_created_at := job_created_at job; job_updated_at := job_updated_at job |}.

Definition set_admission (value : option ExecutionAdmission) (job : ExecutionJob) : ExecutionJob :=
  {| job_version := job_version job; job_id := job_id job; job_request := job_request job;
     job_status := job_status job; job_provider := job_provider job;
     job_application := job_application job; job_placement_id := job_placement_id job;
     job_placement := job_placement job; job_provider_id := job_provider_id job;
     job_admission := value; job_reservation := job_reservation job;
     job_capacity_wait := job_capacity_wait job; job_execution_id := job_execution_id job;
     job_result_digest := job_result_digest job; job_cancellation := job_cancellation job;
     job_failure := job_failure job; job_session_id := job_session_id job;
     job_created_at := job_created_at job; job_updated_at := job_updated_at job |}.

Definition set_reservation (value : option ComputeReservation) (job : ExecutionJob) : ExecutionJob :=
  {| job_version := job_version job; job_id := job_id job; job_request := job_request job;
     job_status := job_status job; job_provider := job_provider job;
     job_application := job_application job; job_placement_id := job_placement_id job;
     job_placement := job_placement job; job_provider_id := job_provider_id job;
     job_admission := job_admission job; job_reservation := value;
     job_capacity_wait := job_capacity_wait job; job_execution_id := job_execution_id job;
     job_result_digest := job_result_digest job; job_cancellation := job_cancellation job;
     job_failure := job_failure job; job_session_id := job_session_id job;
     job_created_at := job_created_at job; job_updated_at := job_updated_at job |}.

Definition set_capacity_wait (value : option CapacityWait) (job : ExecutionJob) : ExecutionJob :=
  {| job_version := job_version job; job_id := job_id job; job_request := job_request job;
     job_status := job_status job; job_provider := job_provider job;
     job_application := job_application job; job_placement_id := job_placement_id job;
     job_placement := job_placement job; job_provider_id := job_provider_id job;
     job_admission := job_admission job; job_reservation := job_reservation job;
     job_capacity_wait := value; job_execution_id := job_execution_id job;
     job_result_digest := job_result_digest job; job_cancellation := job_cancellation job;
     job_failure := job_failure job; job_session_id := job_session_id job;
     job_created_at := job_created_at job; job_updated_at := job_updated_at job |}.

Definition set_execution_id (value : option string) (job : ExecutionJob) : ExecutionJob :=
  {| job_version := job_version job; job_id := job_id job; job_request := job_request job;
     job_status := job_status job; job_provider := job_provider job;
     job_application := job_application job; job_placement_id := job_placement_id job;
     job_placement := job_placement job; job_provider_id := job_provider_id job;
     job_admission := job_admission job; job_reservation := job_reservation job;
     job_capacity_wait := job_capacity_wait job; job_execution_id := value;
     job_result_digest := job_result_digest job; job_cancellation := job_cancellation job;
     job_failure := job_failure job; job_session_id := job_session_id job;
     job_created_at := job_created_at job; job_updated_at := job_updated_at job |}.

Definition set_result_digest (value : option string) (job : ExecutionJob) : ExecutionJob :=
  {| job_version := job_version job; job_id := job_id job; job_request := job_request job;
     job_status := job_status job; job_provider := job_provider job;
     job_application := job_application job; job_placement_id := job_placement_id job;
     job_placement := job_placement job; job_provider_id := job_provider_id job;
     job_admission := job_admission job; job_reservation := job_reservation job;
     job_capacity_wait := job_capacity_wait job; job_execution_id := job_execution_id job;
     job_result_digest := value; job_cancellation := job_cancellation job;
     job_failure := job_failure job; job_session_id := job_session_id job;
     job_created_at := job_created_at job; job_updated_at := job_updated_at job |}.

Definition set_cancellation (value : JobCancellation) (job : ExecutionJob) : ExecutionJob :=
  {| job_version := job_version job; job_id := job_id job; job_request := job_request job;
     job_status := job_status job; job_provider := job_provider job;
     job_application := job_application job; job_placement_id := job_placement_id job;
     job_placement := job_placement job; job_provider_id := job_provider_id job;
     job_admission := job_admission job; job_reservation := job_reservation job;
     job_capacity_wait := job_capacity_wait job; job_execution_id := job_execution_id job;
     job_result_digest := job_result_digest job; job_cancellation := value;
     job_failure := job_failure job; job_session_id := job_session_id job;
     job_created_at := job_created_at job; job_updated_at := job_updated_at job |}.

Definition set_failure (value : option string) (job : ExecutionJob) : ExecutionJob :=
  {| job_version := job_version job; job_id := job_id job; job_request := job_request job;
     job_status := job_status job; job_provider := job_provider job;
     job_application := job_application job; job_placement_id := job_placement_id job;
     job_placement := job_placement job; job_provider_id := job_provider_id job;
     job_admission := job_admission job; job_reservation := job_reservation job;
     job_capacity_wait := job_capacity_wait job; job_execution_id := job_execution_id job;
     job_result_digest := job_result_digest job; job_cancellation := job_cancellation job;
     job_failure := value; job_session_id := job_session_id job;
     job_created_at := job_created_at job; job_updated_at := job_updated_at job |}.

Definition set_updated_at (value : Z) (job : ExecutionJob) : ExecutionJob :=
  {| job_version := job_version job; job_id := job_id job; job_request := job_request job;
     job_status := job_status job; job_provider := job_provider job;
     job_application := job_application job; job_placement_id := job_placement_id job;
     job_placement := job_placement job; job_provider_id := job_provider_id job;
     job_admission := job_admission job; job_reservation := job_reservation job;
     job_capacity_wait := job_capacity_wait job; job_execution_id := job_execution_id job;
     job_result_digest := job_result_digest job; job_cancellation := job_cancellation job;
     job_failure := job_failure job; job_session_id := job_session_id job;
     job_created_at := job_created_at job; job_updated_at := value |}.

Definition default_cancellation : JobCancellation :=
  {| can_requested := false; can_effective := false; can_phase := None |}.

Definition set_res_state (state : ReservationState) (reserved released : option Z)
    (snapshot : option CapacitySnapshot) (r : ComputeReservation) : ComputeReservation :=
  {| res_reservation_id := res_reservation_id r; res_job_id := res_job_id r;
     res_provider_id := res_provider_id r; res_resources := res_resources r; res_state := state;
     res_created_at := res_created_at r; res_expires_at := res_expires_at r;
     res_reserved_at := reserved; res_released_at := released; res_capacity_snapshot := snapshot |}.

(** The reservation given up at [now], in a terminal state. *)
Definition relinquish (state : ReservationState) (now : Z) (r : ComputeReservation)
    : ComputeReservation :=
  set_res_state state (res_reserved_at r) (Some now) (res_capacity_snapshot r) r.

(** [release_reservation]: the job, and whether this released it. *)
Definition release_reservation (now : Z) (job : ExecutionJob) : ExecutionJob * bool :=
  match job_reservation job with
  | None => (job, false)
  | Some r =>
      if ReservationState.is_terminal (res_state r) then (job, false)
      else (set_reservation (Some (relinquish ResReleased now r)) job, true)
  end.

(** ** Capacity *)

Definition total_capacity (capacity : ProviderCapacity) : ResourceRequirements :=
  {| cpu_millis := pc_cpu_millis capacity; memory_bytes := pc_memory_bytes capacity;
     disk_bytes := pc_disk_bytes capacity; concurrency := pc_max_concurrency capacity |}.

(** [capacity_snapshot] *)
Definition capacity_snapshot (capacity : ProviderCapacity) (reserved : ResourceRequirements)
    : CapacitySnapshot :=
  {| snap_capacity := capacity;
     snap_reserved := reserved;
     snap_available :=
       {| cpu_millis := saturating_sub (pc_cpu_millis capacity) (cpu_millis reserved);
          memory_bytes := saturating_sub (pc_memory_bytes capacity) (memory_bytes reserved);
          disk_bytes := saturating_sub (pc_disk_bytes capacity) (disk_bytes reserved);
          concurrency := saturating_sub (pc_max_concurrency capacity) (concurrency reserved) |} |}.

(** [insufficient_reasons] *)
Definition insufficient_reasons (required free : ResourceRequirements) : list string :=
  (if N.ltb (cpu_millis free) (cpu_millis required) then ["insufficient_cpu"] else []) ++
  (if N.ltb (memory_bytes free) (memory_bytes required) then ["insufficient_memory"] else []) ++
  (if N.ltb (disk_bytes free) (disk_bytes required) then ["insufficient_disk"] else []) ++
  (if N.ltb (concurrency free) (concurrency required) then ["insufficient_concurrency"] else []).

(** ** Evidence *)

Inductive ExecutionStatus : Type :=
| ExecCreated | ExecResolved | ExecPrepared | ExecStarted | ExecRunning | ExecCompleted | ExecFailed
| ExecCancelled | ExecTimedOut | ExecKilled.

#[export] Instance ExecutionStatus_eq_dec : EqDecision ExecutionStatus.
Proof. solve_decision. Defined.

(** [sha256_identity] of bytes *)
Class Sha256 := sha256_identity : list N → string.

(** What a job reads and writes of an execution receipt. *)
Class Evidence `{!CarriedMetadata} := {
  Receipt : Type;
  (** the fields of a result a job only carries *)
  ResultDetail : Type;
  (** [ExecutionReceipt::verify] *)
  receipt_verify : Receipt → Result unit ComputeError;
  receipt_execution_id : Receipt → string;
  receipt_status : Receipt → ExecutionStatus;
  receipt_exit_code : Receipt → option Z;
  (** the digests of [receipt.outputs] *)
  receipt_outputs : Receipt → list (option string);
  (** [reservation], [placement.reservation] and [substrate] set *)
  bind_reservation : ReceiptReservation → option SubstrateEvidence → Receipt → Receipt;
  (** [ExecutionReceipt::seal] *)
  receipt_seal : Receipt → Result Receipt ComputeError;
  (** [ReceiptSigner::sign] *)
  receipt_sign : Receipt → Receipt;
}.

Section evidence.
Context `{!CarriedMetadata, !Evidence}.

Record ExecutionResult : Type := {
  er_execution_id : string;
  er_status : ExecutionStatus;
  er_exit_code : option Z;
  (** the data of each output *)
  er_outputs : list (list N);
  er_receipt : option Receipt;
  er_detail : ResultDetail;
}.

Record JobResult : Type := {
  jres_job_id : string;
  jres_status : JobStatus;
  jres_result : ExecutionResult;
}.

Record JobReceipt : Type := {
  jrec_job_id : string;
  jrec_receipt : Receipt;
}.

(** [terminal_status] *)
Definition terminal_status (r : ExecutionResult) : JobStatus :=
  match er_status r with
  | ExecTimedOut => JobTimedOut
  | ExecCompleted => if bool_decide (er_exit_code r = Some 0%Z) then JobSucceeded else JobFailed
  | ExecFailed => JobFailed
  | ExecCancelled | ExecKilled => JobCancelled
  | _ => JobFailed
  end.

Definition with_receipt (receipt : Receipt) (r : ExecutionResult) : ExecutionResult :=
  {| er_execution_id := er_execution_id r; er_status := er_status r;
     er_exit_code := er_exit_code r; er_outputs := er_outputs r;
     er_receipt := Some receipt; er_detail := er_detail r |}.

Record JobArtifact : Type := {
  ja_digest : string;
  ja_size : N;
  ja_data : list N;
}.

(** [JobArtifact::verify] *)
Definition verify_artifact `{!Sha256} (a : JobArtifact) : bool :=
  N.eqb (ja_size a) (N.of_nat (length (ja_data a))) &&
  String.eqb (ja_digest a) (sha256_identity (ja_data a)).
End evidence.

Record JobEvent : Type := {
  ev_job_id : string;
  ev_sequence : N;
  ev_type : string;
  ev_timestamp : Z;
}.

Record ExpiredMarker : Type := {
  em_owner : string;
  em_expired_at : Z;
}.

Record JobSubmission : Type := {
  sub_job_id : string;
  sub_request_id : option string;
  sub_status : JobStatus;
}.

(** ** Resource arithmetic *)

Module Resources.
Definition plus (l r : ResourceRequirements) : ResourceRequirements :=
  {| cpu_millis := cpu_millis l + cpu_millis r; memory_bytes := memory_bytes l + memory_bytes r;
     disk_bytes := disk_bytes l + disk_bytes r; concurrency := concurrency l + concurrency r |}.

Definition sum (l : list ResourceRequirements) : ResourceRequirements :=
  foldr plus ResourceRequirements.default_ l.

(** Every component of [l] is at most that of [r]. *)
Definition fits (l r : ResourceRequirements) : Prop :=
  (cpu_millis l ≤ cpu_millis r)%N ∧ (memory_bytes l ≤ memory_bytes r)%N ∧
  (disk_bytes l ≤ disk_bytes r)%N ∧ (concurrency l ≤ concurrency r)%N.

(** What the fields of the struct can hold. *)
Definition width : ResourceRequirements :=
  {| cpu_millis := u64_max; memory_bytes := u64_max; disk_bytes := u64_max;
     concurrency := u32_max |}.

#[export] Instance fits_dec l r : Decision (fits l r).
Proof. unfold fits. apply _. Defined.

#[export] Instance fits_preorder : PreOrder fits.
Proof. split; [intros x|intros x y z]; unfold fits; lia. Qed.

Ltac solve_resources :=
  repeat match goal with r : ResourceRequirements |- _ => destruct r end;
  unfold fits, plus, sum, ResourceRequirements.default_, width in *; simpl in *;
  first [lia | f_equal; lia].

#[export] Instance plus_assoc : Assoc (=) plus.
Proof. intros x y z. solve_resources. Qed.
#[export] Instance plus_comm : Comm (=) plus.
Proof. intros x y. solve_resources. Qed.
#[export] Instance plus_left_id : LeftId (=) ResourceRequirements.default_ plus.
Proof. intros x. solve_resources. Qed.
#[export] Instance plus_right_id : RightId (=) ResourceRequirements.default_ plus.
Proof. intros x. solve_resources. Qed.

Lemma sum_app l k : sum (l ++ k) = plus (sum l) (sum k).
Proof.
  induction l as [|x l IH]; simpl; [by rewrite (left_id _ plus)|].
  by rewrite IH, (assoc_L plus).
Qed.

#[export] Instance sum_perm : Proper ((≡ₚ) ==> (=)) sum.
Proof.
  induction 1 as [|x l k _ IH|x y l|l k m _ IH1 _ IH2]; simpl; [done|by rewrite IH| |congruence].
  by rewrite !(assoc_L plus), (comm_L plus y x).
Qed.

Lemma checked_add_vector l r c :
  ResourceRequirements.checked_add l r = Some c ↔ c = plus l r ∧ fits (plus l r) width.
Proof.
  unfold ResourceRequirements.checked_add, fits. rewrite bind_Some. split.
  - intros (cpu & Hcpu & Hm). apply bind_Some in Hm as (mem & Hmem & Hd).
    apply bind_Some in Hd as (disk & Hdisk & Hs). apply bind_Some in Hs as (slots & Hslots & [= <-]).
    apply checked_add_Some in Hcpu as [-> ?], Hmem as [-> ?], Hdisk as [-> ?], Hslots as [-> ?].
    done.
  - intros (-> & ? & ? & ? & ?). eexists; split; [by apply checked_add_Some|].
    do 3 (apply bind_Some; eexists; split; [by apply checked_add_Some|]). done.
Qed.

Lemma insufficient_fits required free : insufficient_reasons required free = [] ↔ fits required free.
Proof.
  unfold insufficient_reasons, fits. rewrite !app_nil.
  repeat match goal with |- context [N.ltb ?x ?y] => destruct (N.ltb_spec x y) end;
    naive_solver lia.
Qed.

Lemma fits_available capacity reserved required :
  fits reserved (total_capacity capacity) →
  fits required (snap_available (capacity_snapshot capacity reserved)) ↔
  fits (plus reserved required) (total_capacity capacity).
Proof. unfold capacity_snapshot, total_capacity, saturating_sub. solve_resources. Qed.
End Resources.
Export (hints) Resources.

(** ** The state machine *)

Lemma release_status now job : job_status (fst (release_reservation now job)) = job_status job.
Proof. unfold release_reservation. by repeat case_match. Qed.

Lemma release_job_id now job : job_id (fst (release_reservation now job)) = job_id job.
Proof. unfold release_reservation. by repeat case_match. Qed.

(** After a release no reservation of the job is active. *)
Lemma release_terminal now job r :
  job_reservation (fst (release_reservation now job)) = Some r →
  ReservationState.is_terminal (res_state r) = true.
Proof.
  unfold release_reservation. destruct (job_reservation job) as [q|] eqn:E; [|simpl; congruence].
  destruct (ReservationState.is_terminal _) eqn:Et; simpl; [congruence|]. by intros [= <-].
Qed.

Lemma terminal_status_terminal `{!CarriedMetadata, !Evidence} r :
  JobStatus.is_terminal (terminal_status r) = true.
Proof. unfold terminal_status. by repeat case_match. Qed.
