(* ===== verification/JobStore.v ===== *)
(** The durable job store (src/crates/compute-provider/src/jobs.rs, [JobManager]).

    The root directory is a map from names to job directories, each of which is
    the files the manager reads and writes.  An operation is a sequence of
    durable writes, each of them atomic ([write_bytes] renames a synced
    temporary file over its target): [Op A] returns the result and the writes
    in order, so an operation that fails keeps what it wrote, and a crash keeps
    any prefix.  Every operation here runs under the [mutation] lock, except
    where it says otherwise.

    The clock is read once per operation and is an argument, as are generated
    identifiers and nonces.  Reads and writes of the file system succeed,
    except that a file may be absent; the order of a directory listing is
    whatever [read_dir] gives. *)

From S2P Require Import Prelude Text Core Isolation Policy Admission Descriptor.
From S2P Require Import Matching Pool Placement Requests JobRecord.

(** ** Directories and writes *)

Section store_data.
Context `{!Bundles, !CarriedMetadata, !Evidence}.

Record JobDir : Type := {
  dir_status : option ExecutionJob;
  dir_request : option StoredRequest;
  dir_events : option (list JobEvent);
  dir_result : option JobResult;
  dir_receipt : option JobReceipt;
  dir_artifacts : gmap string (list N);
  dir_expired : option ExpiredMarker;
}.

End store_data.

(** The root directory. *)
Notation Store := (gmap string JobDir).

Section store.
Context `{!Bundles, !CarriedMetadata, !Evidence}.

Definition empty_dir : JobDir :=
  {| dir_status := None; dir_request := None; dir_events := None; dir_result := None;
     dir_receipt := None; dir_artifacts := ∅; dir_expired := None |}.

(** A file of a job directory and what it is made to hold. *)
Inductive File : Type :=
| StatusFile (value : ExecutionJob)
| RequestFile (value : option StoredRequest)
| EventsFile (value : list JobEvent)
| ResultFile (value : option JobResult)
| ReceiptFile (value : option JobReceipt)
| ArtifactFile (name : string) (data : list N)
| NoArtifacts
| ExpiredFile (value : ExpiredMarker).

Definition put_file (f : File) (d : JobDir) : JobDir :=
  {| dir_status := match f with StatusFile v => Some v | _ => dir_status d end;
     dir_request := match f with RequestFile v => v | _ => dir_request d end;
     dir_events := match f with EventsFile v => Some v | _ => dir_events d end;
     dir_result := match f with ResultFile v => v | _ => dir_result d end;
     dir_receipt := match f with ReceiptFile v => v | _ => dir_receipt d end;
     dir_artifacts := match f with
                      | ArtifactFile name data => <[name := data]> (dir_artifacts d)
                      | NoArtifacts => ∅
                      | _ => dir_artifacts d
                      end;
     dir_expired := match f with ExpiredFile v => Some v | _ => dir_expired d end |}.

Inductive Write : Type :=
| WriteFile (id : string) (f : File)
(** a staged directory renamed into place *)
| WriteDir (id : string) (d : JobDir).

Definition apply_write (s : Store) (w : Write) : Store :=
  match w with
  | WriteFile id f => <[id := put_file f (default empty_dir (s !! id))]> s
  | WriteDir id d => <[id := d]> s
  end.

Definition apply_writes (s : Store) (ws : list Write) : Store := foldl apply_write s ws.

(** ** Operations *)

Definition Op (A : Type) : Type := Store → Result A ProviderError * list Write.

#[global] Instance op_ret : MRet Op := λ A x s, (Ok x, []).
#[global] Instance op_bind : MBind Op := λ A B k m s,
  match m s with
  | (Ok x, ws) => let (r, ws') := k x (apply_writes s ws) in (r, ws ++ ws')
  | (Err e, ws) => (Err e, ws)
  end.

Definition fail {A} (e : ProviderError) : Op A := λ s, (Err e, []).
Definition lift {A} (r : Result A ProviderError) : Op A := λ s, (r, []).
Definition get_store : Op Store := λ s, (Ok s, []).
Definition write (w : Write) : Op unit := λ s, (Ok tt, [w]).
(** [let _ = op] and [op.is_err()]: the outcome as a value *)
Definition attempt {A} (m : Op A) : Op (Result A ProviderError) := λ s,
  let (r, ws) := m s in (Ok r, ws).
Definition when (b : bool) (m : Op unit) : Op unit := if b then m else mret tt.

Definition run_op {A} (m : Op A) (s : Store) : Result A ProviderError * Store :=
  let (r, ws) := m s in (r, apply_writes s ws).

(** ** Files *)

Definition unknown_job : ProviderError := provider_error UnknownJob "unknown job".

Definition job_at (s : Store) (id : string) : option ExecutionJob := s !! id ≫= dir_status.

Definition found {A} (o : option A) : Result A ProviderError :=
  match o with Some x => Ok x | None => Err unknown_job end.

(** [read_job] *)
Definition read_job (id : string) : Op ExecutionJob := s ← get_store; lift (found (job_at s id)).

(** [write_job] *)
Definition write_job (job : ExecutionJob) : Op unit :=
  write (WriteFile (job_id job) (StatusFile job)).

(** [read_events] *)
Definition read_events (id : string) : Op (list JobEvent) :=
  s ← get_store; mret (default [] (s !! id ≫= dir_events)).

(** [append_event] *)
Definition append_event (now : Z) (id type_ : string) : Op unit :=
  events ← read_events id;
  write (WriteFile id (EventsFile (events ++
    [{| ev_job_id := id; ev_sequence := N.of_nat (length events) + 1; ev_type := type_;
        ev_timestamp := now |}]))).

Context `{!Aead}.

Record JobManager : Type := {
  jm_seal : AeadKey;
  jm_retention : Duration;
  jm_identity : ProviderIdentity;
  jm_capacity : ProviderCapacity;
}.

Context (manager : JobManager).

(** [read_request] *)
Definition read_request (id : string) : Op StoredRequest :=
  s ← get_store;
  stored ← lift (found (s !! id ≫= dir_request));
  lift (restore (jm_seal manager) id stored).

(** [write_request] *)
Definition write_request (nonce : option (list N)) (id : string) (stored : StoredRequest)
    : Op unit :=
  disk ← lift (on_disk (jm_seal manager) nonce id stored);
  write (WriteFile id (RequestFile (Some disk))).
End store.

(** The listing of a directory: each name once, in any order. *)
Class ReadDir `{!Bundles, !CarriedMetadata, !Evidence} := {
  read_dir : Store → list string;
  read_dir_names s : read_dir s ≡ₚ (map_to_list s).*1;
}.

(** ** Scans *)

Section scans.
Context `{!Bundles, !CarriedMetadata, !Evidence, !Aead, !ReadDir} (manager : JobManager).

(** The directories whose name is a job identity. *)
Definition job_dirs (s : Store) : list string :=
  filter (λ name, is_ok (parse_job_id name) = true) (read_dir s).

(** The jobs a scan reads; a directory it cannot read is skipped. *)
Definition scan_jobs (s : Store) : list ExecutionJob := omap (job_at s) (job_dirs s).

Definition active_reservation (job : ExecutionJob) : option ComputeReservation :=
  r ← job_reservation job;
  if ReservationState.is_active (res_state r) then Some r else None.

Fixpoint add_reserved (reserved : ResourceRequirements) (l : list ComputeReservation)
    : Result ResourceRequirements ProviderError :=
  match l with
  | [] => Ok reserved
  | r :: l =>
      match ResourceRequirements.checked_add reserved (res_resources r) with
      | Some reserved => add_reserved reserved l
      | None => Err (evidence_error "reserved capacity overflow")
      end
  end.

(** [capacity_snapshot_locked] *)
Definition capacity_snapshot_locked : Op CapacitySnapshot :=
  s ← get_store;
  reserved ← lift (add_reserved ResourceRequirements.default_
                     (omap active_reservation (scan_jobs s)));
  mret (capacity_snapshot (jm_capacity manager) reserved).

(** A job that waits for capacity and would fit in what is free. *)
Definition is_fitting (free : ResourceRequirements) (job : ExecutionJob) : bool :=
  negb (JobStatus.is_terminal (job_status job)) &&
  match job_reservation job with
  | None => false
  | Some r => bool_decide (res_state r = ResPending) &&
              bool_decide (insufficient_reasons (res_resources r) free = [])
  end.

(** Oldest first, then by identity. *)
Definition compare_age (l r : Z * string) : comparison :=
  then_with (cmp (fst l) (fst r)) (cmp (snd l) (snd r)).

(** [next_fitting_job_locked] *)
Definition next_fitting_job_locked (free : ResourceRequirements) : Op (option string) :=
  s ← get_store;
  mret (snd <$> head (sort_by compare_age
    ((λ job, (job_created_at job, job_id job)) <$>
      filter (λ job, is_fitting free job = true) (scan_jobs s)))).
End scans.

(** ** Reservations and transitions *)

Section lifecycle.
Context `{!Bundles, !CarriedMetadata, !Evidence, !Aead, !ReadDir} (manager : JobManager).

Notation resources_of job := (res_resources <$> job_reservation job).

Fixpoint append_events (now : Z) (id : string) (types : list string) : Op unit :=
  match types with
  | [] => mret tt
  | type_ :: types => append_event now id type_ ;; append_events now id types
  end.

(** Write a job that has just changed, with the events this appends. *)
Definition commit (now : Z) (id : string) (job : ExecutionJob) (events : list string) : Op unit :=
  write_job (set_updated_at now job) ;; append_events now id events.

Definition released_event (released : bool) : list string :=
  if released then ["reservation_released"] else [].

(** The reservation of a job whose lease has run out. *)
Definition expire (now : Z) (r : ComputeReservation) (job : ExecutionJob) : ExecutionJob :=
  set_failure (Some "reservation_expired")
    (set_status JobRejected (set_reservation (Some (relinquish ResExpired now r)) job)).

Definition set_wait (required free : ResourceRequirements) (reasons : list string)
    (job : ExecutionJob) : ExecutionJob :=
  set_capacity_wait (Some {| wait_required := required; wait_available := free;
                             wait_reasons := reasons |}) job.

(** No amount of waiting would make the job fit. *)
Definition reject_impossible (now : Z) (required : ResourceRequirements) (reasons : list string)
    (job : ExecutionJob) : ExecutionJob * bool :=
  release_reservation now
    (set_failure (Some ("permanent_capacity_insufficient: " +:+ join "," reasons))
       (set_status JobRejected
          (set_wait required (total_capacity (jm_capacity manager)) reasons job))).

Definition grant (now : Z) (after : CapacitySnapshot) (r : ComputeReservation) (job : ExecutionJob)
    : ExecutionJob :=
  set_failure None (set_capacity_wait None (set_status JobReserved
    (set_reservation (Some (set_res_state ResReserved (Some now) (res_released_at r) (Some after) r))
       job))).

(** Why the job cannot be granted what is free now. *)
Definition wait_reasons_of (id : string) (required free : ResourceRequirements)
    : Op (list string) :=
  let short := insufficient_reasons required free in
  if bool_decide (short = []) then
    next ← next_fitting_job_locked free;
    mret (if bool_decide (next = Some id) then [] else ["queue_predecessor"])
  else mret short.

Definition wait_for_capacity (now : Z) (id : string) (required free : ResourceRequirements)
    (reasons : list string) (job : ExecutionJob) : Op bool :=
  let changed := negb (bool_decide (job_status job = JobWaitingForCapacity)) ||
    negb (bool_decide (job_capacity_wait job = Some {| wait_required := required;
      wait_available := free; wait_reasons := reasons |})) in
  commit now id (set_wait required free reasons (set_status JobWaitingForCapacity job))
    (if changed then ["waiting_for_capacity"] else []) ;;
  mret false.

Definition take_capacity (now : Z) (id : string) (before : CapacitySnapshot)
    (r : ComputeReservation) (job : ExecutionJob) : Op bool :=
  match ResourceRequirements.checked_add (snap_reserved before) (res_resources r) with
  | None => fail (evidence_error "reserved capacity overflow")
  | Some reserved =>
      commit now id (grant now (capacity_snapshot (jm_capacity manager) reserved) r job)
        ["reserved"] ;;
      mret true
  end.

(** The part of [try_reserve] after the job's own checks: reject what can
    never fit, wait, or reserve. *)
Definition reserve_or_wait (now : Z) (id : string) (job : ExecutionJob) (r : ComputeReservation)
    : Op bool :=
  before ← capacity_snapshot_locked manager;
  let required := res_resources r in
  let impossible := insufficient_reasons required (total_capacity (jm_capacity manager)) in
  if negb (bool_decide (impossible = [])) then
    let (job, released) := reject_impossible now required impossible job in
    commit now id job ("terminal" :: released_event released) ;; mret false
  else
    reasons ← wait_reasons_of id required (snap_available before);
    if negb (bool_decide (reasons = []))
    then wait_for_capacity now id required (snap_available before) reasons job
    else take_capacity now id before r job.

(** [try_reserve] *)
Definition try_reserve (now : Z) (id : string) : Op bool :=
  job ← read_job id;
  if JobStatus.is_terminal (job_status job) then mret false
  else match job_reservation job with
  | None => fail (evidence_error "durable job has no capacity reservation")
  | Some r =>
      if negb (String.eqb (res_job_id r) id)
      then fail (evidence_error "reservation belongs to another job")
      else if bool_decide (res_state r = ResReserved) then mret true
      else if ReservationState.is_terminal (res_state r)
      then fail (evidence_error "terminal reservation cannot be reacquired")
      else if from_option (λ expires_at, Z.leb expires_at now) false (res_expires_at r) then
        commit now id (expire now r job) ["terminal"] ;; mret false
      else reserve_or_wait now id job r
  end.

(** [persist_admission]; the caller's copy of the request becomes
    [with_admission admission stored]. *)
Definition persist_admission (now : Z) (nonce : option (list N)) (id : string)
    (stored : StoredRequest) (admission : JobAdmission) : Op unit :=
  job ← read_job id;
  if JobStatus.is_terminal (job_status job) ||
     negb (from_option (λ r, bool_decide (res_state r = ResReserved)) false (job_reservation job))
  then fail (evidence_error "job lost its reservation before admission was persisted")
  else
    let admitted := is_admitted (adm_decision admission) in
    write_request manager nonce id (with_admission admission stored) ;;
    let job := set_admission (Some (summary admission)) job in
    commit now id (if admitted then set_status JobAdmitted job else job)
      [if admitted then "admitted" else "admission_denied"].

(** [release] *)
Definition release (now : Z) (id : string) : Op unit :=
  job ← read_job id;
  match job_reservation job with
  | None => mret tt
  | Some r =>
      if ReservationState.is_terminal (res_state r) then mret tt
      else commit now id (set_reservation (Some (relinquish ResReleased now r)) job)
             ["reservation_released"]
  end.

Definition transition_event (status : JobStatus) : string :=
  match status with
  | JobQueued => "queued" | JobWaitingForCapacity => "waiting_for_capacity"
  | JobReserved => "reserved" | JobAdmitted => "admitted" | JobPreparing => "preparing"
  | JobRunning => "running"
  | _ => if JobStatus.is_terminal status then "terminal" else "accepted"
  end.

(** [transition] *)
Definition transition (now : Z) (id : string) (status : JobStatus) (failure : option string)
    : Op unit :=
  job ← read_job id;
  if JobStatus.is_terminal (job_status job) then
    fail (evidence_error ("cannot transition terminal job from " +:+ JobStatus.debug (job_status job)
      +:+ " to " +:+ JobStatus.debug status))
  else if negb (valid_transition (job_status job) status) then
    fail (evidence_error ("invalid job transition from " +:+ JobStatus.debug (job_status job)
      +:+ " to " +:+ JobStatus.debug status))
  else
    let job := set_failure failure (set_status status job) in
    let (job, released) :=
      if JobStatus.is_terminal status then release_reservation now job else (job, false) in
    commit now id job (transition_event status :: released_event released).

(** ** Results *)

Context `{!Sha256, !CanonicalIdentity JobResult}.

(** [digest.trim_start_matches("sha256:")], which strips it repeatedly. *)
Fixpoint trim_digest_fuel (fuel : nat) (digest : string) : string :=
  match fuel with
  | 0 => digest
  | S fuel =>
      match strip_prefix "sha256:" digest with
      | Some rest => trim_digest_fuel fuel rest
      | None => digest
      end
  end.
Definition trim_digest (digest : string) : string :=
  trim_digest_fuel (String.length digest) digest.

Fixpoint write_artifacts (id : string) (outputs : list (list N)) : Op unit :=
  match outputs with
  | [] => mret tt
  | data :: outputs =>
      write (WriteFile id (ArtifactFile (trim_digest (sha256_identity data)) data)) ;;
      write_artifacts id outputs
  end.

(** [persist_result] *)
Definition persist_result (now : Z) (id : string) (status : JobStatus) (result : ExecutionResult)
    : Op unit :=
  match er_receipt result with
  | None => fail (provider_error EvidenceInvalid "job result omitted its receipt")
  | Some receipt =>
      lift (map_err (λ e, evidence_error (error_to_string e)) (receipt_verify receipt)) ;;
      let stored := {| jres_job_id := id; jres_status := status; jres_result := result |} in
      write (WriteFile id (ResultFile (Some stored))) ;;
      write (WriteFile id (ReceiptFile (Some {| jrec_job_id := id; jrec_receipt := receipt |}))) ;;
      write_artifacts id (er_outputs result) ;;
      job ← read_job id;
      if from_option (λ reserved, negb (String.eqb reserved (er_execution_id result))) false
           (job_execution_id job)
      then fail (evidence_error "the execution did not use the identity reserved for it")
      else
        let job := set_status status (set_result_digest (Some (canonical_identity stored))
          (set_execution_id (Some (er_execution_id result)) job)) in
        let job :=
          if bool_decide (status = JobCancelled) && can_requested (job_cancellation job)
          then set_cancellation {| can_requested := can_requested (job_cancellation job);
                 can_effective := true; can_phase := Some "execution_terminated" |} job
          else job in
        let (job, released) := release_reservation now job in
        commit now id job ("terminal" :: released_event released)
  end.

(** [verify_result] *)
Definition verify_result (r : JobResult) : Op unit :=
  job ← read_job (jres_job_id r);
  if negb (bool_decide (job_result_digest job = Some (canonical_identity r)))
  then fail (evidence_error "job result digest mismatch")
  else match er_receipt (jres_result r) with
  | None => fail (provider_error EvidenceInvalid "job result omitted receipt")
  | Some receipt =>
      lift (map_err (λ e, evidence_error (error_to_string e)) (receipt_verify receipt)) ;;
      if negb (String.eqb (receipt_execution_id receipt) (er_execution_id (jres_result r))) ||
         negb (bool_decide (receipt_status receipt = er_status (jres_result r))) ||
         negb (bool_decide (receipt_exit_code receipt = er_exit_code (jres_result r)))
      then fail (evidence_error "job result and receipt disagree")
      else if negb (bool_decide (jres_status r = terminal_status (jres_result r)))
      then fail (evidence_error "job status and execution result disagree")
      else mret tt
  end.
End lifecycle.

(** ** Ownership and retention (these run without the lock) *)

Section queries.
Context `{!Bundles, !CarriedMetadata, !Evidence, !Aead, !ReadDir} (manager : JobManager).
Context `{!CanonicalIdentity Policy, !CanonicalIdentity SemanticRequest}.
Context `{!Sha256, !CanonicalIdentity JobResult}.

Definition other_principal : ProviderError :=
  provider_error Unauthorized "job belongs to another principal".

(** [authorize_owner] *)
Definition authorize_owner (id owner : string) : Op unit :=
  s ← get_store;
  match s !! id ≫= dir_expired with
  | Some marker => if String.eqb (em_owner marker) owner then mret tt else fail other_principal
  | None =>
      stored ← read_request manager id;
      if negb (String.eqb (sr_owner stored) owner) then fail other_principal
      else
        job ← read_job id;
        if negb (String.eqb (request_hash (sr_request stored)) (jr_request_hash (job_request job)))
        then fail (evidence_error "stored job request was modified")
        else mret tt
  end.

(** [signed_duration_since(..).to_std().unwrap_or_default()] *)
Definition age (now since : Z) : Duration := Z.to_N (Z.max 0 (now - since)).

Definition evidence_expired : ProviderError := provider_error JobExpired "job evidence has expired".

(** [require_not_expired]: the evidence of a terminal job is dropped once it
    is older than the retention. *)
Definition require_not_expired (now : Z) (id : string) : Op unit :=
  s ← get_store;
  match s !! id ≫= dir_expired with
  | Some _ => fail evidence_expired
  | None =>
      job ← read_job id;
      if JobStatus.is_terminal (job_status job) && negb (N.eqb (jm_retention manager) 0) &&
         N.ltb (jm_retention manager) (age now (job_updated_at job))
      then
        stored ← read_request manager id;
        write (WriteFile id (ExpiredFile {| em_owner := sr_owner stored; em_expired_at := now |})) ;;
        write (WriteFile id (RequestFile None)) ;;
        write (WriteFile id (ResultFile None)) ;;
        write (WriteFile id (ReceiptFile None)) ;;
        write (WriteFile id NoArtifacts) ;;
        fail evidence_expired
      else mret tt
  end.

(** [status] *)
Definition status (now : Z) (id owner : string) : Op ExecutionJob :=
  authorize_owner id owner ;; require_not_expired now id ;; read_job id.

(** Newest first, then by identity. *)
Definition compare_newest (l r : ExecutionJob) : comparison :=
  then_with (cmp (job_created_at r) (job_created_at l)) (cmp (job_id l) (job_id r)).

(** The jobs of [owner], of the directories whose request it may read. *)
Definition owned_job (s : Store) (owner id : string) : option ExecutionJob :=
  match fst (read_request manager id s) with
  | Ok stored => if String.eqb (sr_owner stored) owner then job_at s id else None
  | Err _ => None
  end.

(** [list] *)
Definition list_jobs (owner : string) : Op (list ExecutionJob) :=
  s ← get_store; mret (sort_by compare_newest (omap (owned_job s owner) (job_dirs s))).

(** [result] *)
Definition result (now : Z) (id owner : string) : Op JobResult :=
  authorize_owner id owner ;; require_not_expired now id ;;
  s ← get_store;
  match s !! id ≫= dir_result with
  | None =>
      job ← read_job id;
      fail (provider_error RemoteExecutionFailure
        (if JobStatus.is_terminal (job_status job) then "terminal job has no execution result"
         else "job result is not available before terminal state"))
  | Some r => verify_result r ;; mret r
  end.

(** [receipt] *)
Definition receipt (now : Z) (id owner : string) : Op JobReceipt :=
  authorize_owner id owner ;; require_not_expired now id ;;
  s ← get_store;
  match s !! id ≫= dir_receipt with
  | None => fail (provider_error RemoteExecutionFailure "job receipt is not available")
  | Some r =>
      lift (map_err (λ e, evidence_error (error_to_string e)) (receipt_verify (jrec_receipt r))) ;;
      mret r
  end.

(** The artifacts of the digests of a receipt; one that is absent or does not
    match its digest is an error. *)
Fixpoint read_artifacts (files : gmap string (list N)) (digests : list (option string))
    : Result (list JobArtifact) ProviderError :=
  match digests with
  | [] => Ok []
  | None :: digests => read_artifacts files digests
  | Some digest :: digests =>
      match files !! trim_digest digest with
      | None => Err (evidence_error "No such file or directory (os error 2)")
      | Some data =>
          let artifact := {| ja_digest := digest; ja_size := N.of_nat (length data);
                             ja_data := data |} in
          reject_if (negb (verify_artifact artifact)) (evidence_error "artifact digest mismatch") ;?;
          let? rest := read_artifacts files digests in
          Ok (artifact :: rest)
      end
  end.

(** [dedup_by] on the digest: the first of a run of equal ones stays. *)
Fixpoint dedup_artifacts (l : list JobArtifact) : list JobArtifact :=
  match l with
  | a :: rest =>
      match dedup_artifacts rest with
      | b :: rest' => if String.eqb (ja_digest a) (ja_digest b) then a :: rest' else a :: b :: rest'
      | [] => [a]
      end
  | [] => []
  end.

(** [artifacts] *)
Definition artifacts (now : Z) (id owner : string) : Op (list JobArtifact) :=
  r ← result now id owner;
  match er_receipt (jres_result r) with
  | None => fail (provider_error EvidenceInvalid "job result omitted receipt")
  | Some receipt =>
      s ← get_store;
      found ← lift (read_artifacts (default ∅ (dir_artifacts <$> s !! id)) (receipt_outputs receipt));
      mret (dedup_artifacts (sort_by (λ l r, cmp (ja_digest l) (ja_digest r)) found))
  end.

(** [events] *)
Definition events (id owner : string) : Op (list JobEvent) :=
  authorize_owner id owner ;; read_events id.

(** ** Cancellation *)

Definition before_execution (status : JobStatus) : bool :=
  match status with
  | JobCreated | JobAccepted | JobQueued | JobWaitingForCapacity | JobReserved | JobAdmitted => true
  | _ => false
  end.

Definition request_cancel (control : bool) (job : ExecutionJob) : ExecutionJob :=
  if before_execution (job_status job) then
    set_cancellation {| can_requested := true; can_effective := true;
                        can_phase := Some "before_execution" |} (set_status JobCancelled job)
  else
    set_cancellation
      {| can_requested := true;
         can_effective := can_effective (job_cancellation job);
         can_phase := Some (if control then "execution_interrupt_requested"
                            else "execution_control_unavailable") |} job.

(** The locked part of [cancel]; [control] says whether the execution was
    controlled when the caller looked. *)
Definition cancel_locked (now : Z) (id : string) (control : bool) : Op ExecutionJob :=
  job ← read_job id;
  if JobStatus.is_terminal (job_status job) then mret job
  else
    let first_request := negb (can_requested (job_cancellation job)) in
    let job := set_updated_at now (request_cancel control job) in
    let (job, released) :=
      if bool_decide (job_status job = JobCancelled) then release_reservation now job
      else (job, false) in
    commit now id job
      ((if control && first_request then ["cancellation_requested"] else []) ++
       (if bool_decide (job_status job = JobCancelled) then ["terminal"] else []) ++
       released_event released) ;;
    mret job.

(** [cancel] *)
Definition cancel (now : Z) (id owner : string) (control : bool) : Op ExecutionJob :=
  authorize_owner id owner ;; require_not_expired now id ;; cancel_locked now id control.
End queries.

(** ** Acceptance *)

Record ReservedJob `{!CarriedMetadata} : Type := {
  rsv_job_id : string;
  rsv_execution_id : string;
  rsv_session_id : option string;
  rsv_substrate : option SubstrateEvidence;
}.

Record Acceptance `{!Bundles, !CarriedMetadata} : Type := {
  acc_request : ProviderRequest;
  acc_owner : string;
  acc_idempotency_key : option string;
  acc_reserved : option ReservedJob;
}.

(** What a new job draws: its identifiers and the nonce of its request. *)
Record Fresh : Type := {
  fresh_job_id : string;
  fresh_reservation_id : string;
  fresh_nonce : option (list N);
}.

Section acceptance.
Context `{!Bundles, !CarriedMetadata, !Evidence, !Aead, !ReadDir} (manager : JobManager).
Context `{!CanonicalIdentity Policy, !CanonicalIdentity SemanticRequest,
          !CanonicalIdentity ApplicationMaterial, !Sha256}.

Definition valid_key (key : string) : bool :=
  negb (is_empty key || N.ltb 256 (len key) || any_byte is_ascii_control key).

(** The checks [accept] makes before it takes the lock: the bundle, its
    verification and the request hash. *)
Definition check_acceptance (a : Acceptance)
    : Result (WorkloadBundle * BundleVerification) ProviderError :=
  reject_if (from_option (λ r, negb (is_execution_id (rsv_execution_id r))) false (acc_reserved a))
    (provider_error EvidenceInvalid "reserved execution identity is malformed") ;?;
  reject_if (from_option (λ key, negb (valid_key key)) false (acc_idempotency_key a))
    (provider_error IdempotencyConflict "invalid idempotency key") ;?;
  validate_request (acc_request a) ;?;
  let? bundle := transport_bundle (req_artifact (acc_request a)) in
  let? verification := map_err artifact_error (bundle_verification bundle) in
  map_err artifact_error
    (require_ids bundle (expected_workload_id (req_expected (acc_request a)))
       (expected_bundle_id (req_expected (acc_request a)))) ;?;
  Ok (bundle, verification).

Definition key_hash (a : Acceptance) : option string :=
  (λ key, sha256_identity (bytes key)) <$> acc_idempotency_key a.

Definition submission_of (job : ExecutionJob) (id : string) : JobSubmission :=
  {| sub_job_id := id; sub_request_id := jr_request_id (job_request job);
     sub_status := job_status job |}.

(** The first directory, as listed, whose request has the owner and key. *)
Definition find_idempotent (owner key_hash : string) : Op (option string) :=
  s ← get_store;
  mret (head (filter (λ id,
    match fst (read_request manager id s) with
    | Ok stored => String.eqb (sr_owner stored) owner &&
                   bool_decide (sr_idempotency_key_hash stored = Some key_hash)
    | Err _ => false
    end = true) (job_dirs s))).

(** A reserved job that already exists. *)
Definition accept_again (a : Acceptance) (reserved : ReservedJob) : Op JobSubmission :=
  stored ← read_request manager (rsv_job_id reserved);
  job ← read_job (rsv_job_id reserved);
  if negb (String.eqb (sr_owner stored) (acc_owner a)) ||
     negb (String.eqb (request_hash (sr_request stored)) (request_hash (acc_request a))) ||
     negb (bool_decide (job_execution_id job = Some (rsv_execution_id reserved)))
  then fail (provider_error IdempotencyConflict
               "reserved job identity was already used for a different request")
  else mret (submission_of job (job_id job)).

(** A request whose key was already used. *)
Definition accept_idempotent (a : Acceptance) (existing : string) : Op JobSubmission :=
  stored ← read_request manager existing;
  if negb (String.eqb (request_hash (sr_request stored)) (request_hash (acc_request a)))
  then fail (provider_error IdempotencyConflict
               "idempotency key was already used for a different request")
  else
    job ← read_job existing;
    mret (submission_of job existing).

Definition new_reservation (now : Z) (reservation_id id provider_id : string)
    (resources : ResourceLimits) : ComputeReservation :=
  {| res_reservation_id := reservation_id; res_job_id := id; res_provider_id := provider_id;
     res_resources := ResourceRequirements.from_limits resources; res_state := ResPending;
     res_created_at := now; res_expires_at := None; res_reserved_at := None;
     res_released_at := None; res_capacity_snapshot := None |}.

Definition new_job (now : Z) (reservation_id id : string) (a : Acceptance) (bundle : WorkloadBundle)
    (verification : BundleVerification) (dependency_id : option string) : ExecutionJob :=
  let options := req_execution (acc_request a) in
  let provider_id := default (identity_id (jm_identity manager))
                       (rp_provider_id <$> opt_placement options) in
  {| job_version := "compute.job@1";
     job_id := id;
     job_request :=
       {| jr_request_hash := request_hash (acc_request a);
          jr_request_id := opt_execution_request_id options;
          jr_workload_id := verified_workload_id verification;
          jr_bundle_id := verified_bundle_id verification;
          jr_dependency_id := dependency_id;
          jr_runtime := workload_runtime bundle;
          jr_application := opt_application options;
          jr_requested_execution :=
            {| jrp_isolation := default (workload_isolation bundle) (opt_isolation options);
               jrp_network := workload_network bundle;
               jrp_resources := workload_resources bundle |} |};
     job_status := JobQueued;
     job_provider := jm_identity manager;
     job_application := opt_application options;
     job_placement_id := rp_placement_id <$> opt_placement options;
     job_placement := opt_placement options;
     job_provider_id := Some provider_id;
     job_admission := None;
     job_reservation :=
       Some (new_reservation now reservation_id id provider_id (workload_resources bundle));
     job_capacity_wait := None;
     job_execution_id := rsv_execution_id <$> acc_reserved a;
     job_result_digest := None;
     job_cancellation := default_cancellation;
     job_failure := None;
     job_session_id := acc_reserved a ≫= rsv_session_id;
     job_created_at := now;
     job_updated_at := now |}.

Definition dependency_of (bundle : WorkloadBundle) : Result (option string) ProviderError :=
  match capsule_id bundle with
  | None => Ok None
  | Some r => let? id := map_err artifact_error r in Ok (Some id)
  end.

Definition new_request (a : Acceptance) : StoredRequest :=
  {| sr_owner := acc_owner a; sr_idempotency_key_hash := key_hash a;
     sr_request := acc_request a; sr_admission := None;
     sr_substrate := acc_reserved a ≫= rsv_substrate; sr_sealed_artifact := None |}.

(** A new job directory, staged and renamed into place. *)
Definition create_job (now : Z) (fresh : Fresh) (a : Acceptance)
    (bundle : WorkloadBundle) (verification : BundleVerification) : Op JobSubmission :=
  let id := default (fresh_job_id fresh) (rsv_job_id <$> acc_reserved a) in
  dependency_id ← lift (dependency_of bundle);
  let job := new_job now (fresh_reservation_id fresh) id a bundle verification dependency_id in
  disk ← lift (on_disk (jm_seal manager) (fresh_nonce fresh) id (new_request a));
  let event (sequence : N) (type_ : string) :=
    {| ev_job_id := id; ev_sequence := sequence; ev_type := type_; ev_timestamp := now |} in
  s ← get_store;
  if bool_decide (is_Some (s !! id))
  then fail (transport_error "Directory not empty (os error 39)")
  else
    write (WriteDir id
      {| dir_status := Some job; dir_request := Some disk;
         dir_events := Some [event 1%N "created"; event 2%N "queued"];
         dir_result := None; dir_receipt := None; dir_artifacts := ∅; dir_expired := None |}) ;;
    mret {| sub_job_id := id; sub_request_id := opt_execution_request_id (req_execution (acc_request a));
            sub_status := JobQueued |}.

(** The locked part of [accept]. *)
Definition accept_locked (now : Z) (fresh : Fresh) (a : Acceptance)
    (bundle : WorkloadBundle) (verification : BundleVerification) : Op JobSubmission :=
  s ← get_store;
  let create :=
    match key_hash a with
    | None => create_job now fresh a bundle verification
    | Some hash =>
        existing ← find_idempotent (acc_owner a) hash;
        match existing with
        | Some existing => accept_idempotent a existing
        | None => create_job now fresh a bundle verification
        end
    end in
  match acc_reserved a with
  | Some reserved =>
      if bool_decide (is_Some (s !! rsv_job_id reserved)) then accept_again a reserved else create
  | None => create
  end.

(** [accept] *)
Definition accept (now : Z) (fresh : Fresh) (a : Acceptance) : Op JobSubmission :=
  checked ← lift (check_acceptance a);
  accept_locked now fresh a (fst checked) (snd checked).
End acceptance.

(** ** Recovery *)

Section recovery.
Context `{!Bundles, !CarriedMetadata, !Evidence, !Aead, !ReadDir} (manager : JobManager).
Context `{!CanonicalIdentity JobResult}.

(** A record from before reservations gets one. *)
Definition add_reservation (reservation_id id : string) (job : ExecutionJob) : ExecutionJob :=
  let provider_id := default (identity_id (job_provider job)) (job_provider_id job) in
  let job := set_capacity_wait None
    (set_reservation (Some (new_reservation (job_created_at job) reservation_id id provider_id
       (jrp_resources (jr_requested_execution (job_request job))))) job) in
  match job_status job with
  | JobReserved | JobAdmitted | JobPreparing => set_status JobQueued job
  | _ => job
  end.

Definition reservation_invalid (id : string) (job : ExecutionJob) : bool :=
  match job_reservation job with
  | None => false
  | Some r =>
      negb (is_ok (parse_reservation_id (res_reservation_id r))) ||
      negb (String.eqb (res_job_id r) id) ||
      from_option (λ provider_id, negb (String.eqb (res_provider_id r) provider_id)) false
        (job_provider_id job)
  end.

(** An execution that was interrupted: its result stands when its evidence
    does, and it failed otherwise. *)
Definition interrupted (result : option JobResult) (job : ExecutionJob) : ExecutionJob :=
  match result with
  | Some r =>
      if bool_decide (jres_status r = terminal_status (jres_result r)) &&
         from_option (λ receipt, is_ok (receipt_verify receipt)) false (er_receipt (jres_result r))
      then set_failure None (set_result_digest (Some (canonical_identity r))
             (set_execution_id (Some (er_execution_id (jres_result r)))
                (set_status (jres_status r) job)))
      else set_failure (Some "provider_interrupted: terminal evidence was incomplete or invalid")
             (set_status JobFailed job)
  | None => set_failure (Some "provider_interrupted: server restarted during execution")
              (set_status JobFailed job)
  end.

(** What recovery does with a job that has a reservation: whether it is run
    again. *)
Definition settle_job (now : Z) (id : string) (result : option JobResult) (job : ExecutionJob)
    : Op bool :=
  if reservation_invalid id job then
    let job := set_failure (Some "reservation_invalid: job/provider binding mismatch")
                 (set_status JobFailed job) in
    commit now id (fst (release_reservation now job)) ["terminal"] ;; mret false
  else match job_status job with
  | JobAccepted | JobQueued | JobWaitingForCapacity | JobCreated | JobReserved | JobAdmitted
  | JobPreparing => mret true
  | JobRunning =>
      let (job, released) := release_reservation now (interrupted result job) in
      commit now (job_id job) job ("terminal" :: released_event released) ;; mret false
  | _ =>
      let (job, released) := release_reservation now job in
      when released (commit now (job_id job) job ["reservation_released"]) ;; mret false
  end.

(** One iteration of [recover]. *)
Definition recover_job (now : Z) (reservation_id id : string) : Op bool :=
  s ← get_store;
  match job_at s id with
  | None => mret false
  | Some job =>
      let result := s !! id ≫= dir_result in
      if bool_decide (job_reservation job = None) then
        let job := add_reservation reservation_id id job in
        write_job job ;; settle_job now id result job
      else settle_job now id result job
  end.

(** [recover]: the jobs that are run again. *)
Fixpoint recover_all (now : Z) (fresh : string → string) (ids : list string) : Op (list string) :=
  match ids with
  | [] => mret []
  | id :: ids =>
      again ← recover_job now (fresh id) id;
      rest ← recover_all now fresh ids;
      mret (if again : bool then id :: rest else rest)
  end.

Definition recover (now : Z) (fresh : string → string) : Op (list string) :=
  s ← get_store; recover_all now fresh (job_dirs s).
End recovery.
