(* ===== verification/JobFacts.v ===== *)
(** What the operations of the job store do to the job records: each operation
    as its result and the map of records after it, with every crash point in
    between accounted for ([Effect]). *)

From S2P Require Import Prelude Text Core Isolation Policy Admission Descriptor.
From S2P Require Import Matching Pool Placement Requests JobRecord JobStore.

Section effects.
Context `{!Bundles, !CarriedMetadata, !Evidence}.

(** The job records of a store. *)
Definition jobs (s : Store) : gmap string ExecutionJob := omap dir_status s.

Lemma lookup_jobs s id : jobs s !! id = job_at s id.
Proof. unfold jobs, job_at. by rewrite lookup_omap. Qed.

(** What a write does to the records. *)
Definition job_write (m : gmap string ExecutionJob) (w : Write) : gmap string ExecutionJob :=
  match w with
  | WriteFile id (StatusFile v) => <[id := v]> m
  | WriteFile _ _ => m
  | WriteDir id d => match dir_status d with Some v => <[id := v]> m | None => delete id m end
  end.

Lemma jobs_apply_write s w : jobs (apply_write s w) = job_write (jobs s) w.
Proof.
  apply map_eq. intros i. rewrite lookup_jobs. unfold job_at.
  destruct w as [id f|id d]; cbn [apply_write job_write].
  - destruct (decide (i = id)) as [->|Hne].
    + rewrite lookup_insert_eq. destruct f; rewrite ?lookup_insert_eq; try done;
        rewrite lookup_jobs; unfold job_at; by destruct (s !! id).
    + rewrite lookup_insert_ne by done. destruct f; rewrite ?lookup_insert_ne by done;
        by rewrite lookup_jobs.
  - destruct (decide (i = id)) as [->|Hne].
    + rewrite lookup_insert_eq; simpl.
      destruct (dir_status d); [by rewrite lookup_insert_eq|by rewrite lookup_delete_eq].
    + rewrite lookup_insert_ne by done.
      destruct (dir_status d); [rewrite lookup_insert_ne by done|rewrite lookup_delete_ne by done];
        by rewrite lookup_jobs.
Qed.

Lemma jobs_apply_writes s ws : jobs (apply_writes s ws) = foldl job_write (jobs s) ws.
Proof.
  revert s. induction ws as [|w ws IH]; intros s; [done|]. simpl.
  unfold apply_writes in *. simpl. by rewrite IH, jobs_apply_write.
Qed.

(** The records go from [m] to [m'] in one atomic write: at every crash point
    they are one or the other. *)
Definition Writes (m : gmap string ExecutionJob) (ws : list Write)
    (m' : gmap string ExecutionJob) : Prop :=
  foldl job_write m ws = m' ∧ ∀ k, foldl job_write m (take k ws) ∈ [m; m'].

Definition silent (w : Write) : Prop := ∀ m, job_write m w = m.

Lemma silent_fold m ws : Forall silent ws → foldl job_write m ws = m.
Proof. intros Hs. revert m. induction Hs as [|w ws Hw _ IH]; intros m; [done|]. simpl. by rewrite Hw. Qed.

Lemma writes_silent m ws : Forall silent ws → Writes m ws m.
Proof.
  intros Hs. split; [by apply silent_fold|]. intros k. rewrite silent_fold by by apply Forall_take.
  set_solver.
Qed.

Lemma writes_app_silent m ws m' ws' : Writes m ws m' → Forall silent ws' → Writes m (ws ++ ws') m'.
Proof.
  intros [Hf Hk] Hs. split.
  - by rewrite foldl_app, Hf, silent_fold.
  - intros k. rewrite take_app, foldl_app, (silent_fold _ (take _ ws')) by by apply Forall_take. done.
Qed.

Lemma writes_silent_app m ws ws' m' : Forall silent ws → Writes m ws' m' → Writes m (ws ++ ws') m'.
Proof.
  intros Hs [Hf Hk]. split.
  - by rewrite foldl_app, (silent_fold m ws).
  - intros k. rewrite take_app, foldl_app, (silent_fold _ (take _ ws)) by by apply Forall_take. done.
Qed.

Lemma writes_one m w : Writes m [w] (job_write m w).
Proof. split; [done|]. intros [|k]; simpl; rewrite ?take_nil; set_solver. Qed.

(** ** Effects *)

(** [m] answers [r] from [s], and its one record write leaves [after]. *)
Definition Effect {A} (m : Op A) (s : Store) (r : Result A ProviderError)
    (after : gmap string ExecutionJob) : Prop :=
  fst (m s) = r ∧ Writes (jobs s) (snd (m s)) after.

Lemma effect_ret {A} (x : A) s : Effect (mret x) s (Ok x) (jobs s).
Proof. split; [done|]. by apply writes_silent. Qed.

Lemma effect_fail {A} e s : Effect (fail (A:=A) e) s (Err e) (jobs s).
Proof. split; [done|]. by apply writes_silent. Qed.

Lemma effect_write w s : Effect (write w) s (Ok tt) (job_write (jobs s) w).
Proof. split; [done|]. apply writes_one. Qed.

(** An operation that writes no record. *)
Lemma effect_bind_silent {A B} (m : Op A) (k : A → Op B) s x ws r after :
  m s = (Ok x, ws) → Forall silent ws →
  Effect (k x) (apply_writes s ws) r after → Effect (m ≫= k) s r after.
Proof.
  intros Hm Hs [Hr Hw]. unfold Effect, mbind, op_bind. rewrite Hm.
  destruct (k x _) as [r' ws'] eqn:Ek. simpl in *. split; [done|].
  rewrite jobs_apply_writes, silent_fold in Hw by done. by apply writes_silent_app.
Qed.

Lemma effect_bind_pure {A B} (m : Op A) (k : A → Op B) s x r after :
  m s = (Ok x, []) → Effect (k x) s r after → Effect (m ≫= k) s r after.
Proof. intros Hm Hk. by eapply effect_bind_silent. Qed.

Lemma bind_pure_eval {A B} (m : Op A) (k : A → Op B) s x :
  m s = (Ok x, []) → (m ≫= k) s = k x s.
Proof. intros Hm. unfold mbind, op_bind. rewrite Hm. simpl. by destruct (k x s). Qed.

Lemma bind_err_eval {A B} (m : Op A) (k : A → Op B) s e :
  m s = (Err e, []) → (m ≫= k) s = (Err e, []).
Proof. intros Hm. unfold mbind, op_bind. by rewrite Hm. Qed.

(** An operation that answers without writing is one whose parts do. *)
Lemma bind_ok_inv {A B} (m : Op A) (k : A → Op B) s y :
  fst ((m ≫= k) s) = Ok y → ∃ x ws, m s = (Ok x, ws) ∧ fst (k x (apply_writes s ws)) = Ok y.
Proof.
  unfold mbind, op_bind. destruct (m s) as [[x|e] ws]; [|done].
  destruct (k x _) as [r ws'] eqn:Ek. simpl. intros ->. exists x, ws. by rewrite Ek.
Qed.

Lemma effect_bind_err {A B} (m : Op A) (k : A → Op B) s e :
  m s = (Err e, []) → Effect (m ≫= k) s (Err e) (jobs s).
Proof. intros Hm. unfold Effect, mbind, op_bind. rewrite Hm. split; [done|]. by apply writes_silent. Qed.

(** What follows an operation only computes. *)
Lemma effect_bind_then {A B} (m : Op A) (k : A → Op B) s x after y :
  Effect m s (Ok x) after → (∀ s', k x s' = (y, [])) → Effect (m ≫= k) s y after.
Proof.
  intros [Hr Hw] Hk. unfold Effect, mbind, op_bind. destruct (m s) as [r ws]. simpl in *. subst.
  rewrite Hk. simpl. by rewrite app_nil_r.
Qed.

Lemma effect_attempt_then {A B} (m : Op A) (k : Result A ProviderError → Op B) s r after y :
  Effect m s r after → (∀ s', k r s' = (y, [])) → Effect (attempt m ≫= k) s y after.
Proof.
  intros [Hr Hw] Hk. eapply effect_bind_then; [|apply Hk].
  unfold Effect, attempt. destruct (m s) as [r' ws]. simpl in *. by subst.
Qed.

Lemma read_job_eval id s : read_job id s = (found (jobs s !! id), []).
Proof. unfold read_job, mbind, op_bind; simpl. by rewrite lookup_jobs. Qed.

Lemma effect_read_job {A} (k : ExecutionJob → Op A) s id job r after :
  jobs s !! id = Some job → Effect (k job) s r after → Effect (read_job id ≫= k) s r after.
Proof. intros Hj. apply effect_bind_pure. by rewrite read_job_eval, Hj. Qed.

Lemma effect_no_job {A} (k : ExecutionJob → Op A) s id :
  jobs s !! id = None → Effect (read_job id ≫= k) s (Err unknown_job) (jobs s).
Proof. intros Hj. apply effect_bind_err. by rewrite read_job_eval, Hj. Qed.

Lemma append_event_eval now id type_ s :
  ∃ w, append_event now id type_ s = (Ok tt, [w]) ∧ silent w.
Proof. eexists. by split. Qed.

Lemma append_events_eval now id types s :
  ∃ ws, append_events now id types s = (Ok tt, ws) ∧ Forall silent ws.
Proof.
  revert s. induction types as [|type_ types IH]; intros s; [by exists []|]. cbn [append_events].
  destruct (append_event_eval now id type_ s) as (w & E & Hw).
  unfold mbind, op_bind. rewrite E.
  destruct (IH (apply_writes s [w])) as (ws & -> & Hs). exists (w :: ws). by split; [|constructor].
Qed.

(** [commit] is one record write. *)
Lemma effect_commit now id job events s :
  Effect (commit now id job events) s (Ok tt) (<[job_id job := set_updated_at now job]> (jobs s)).
Proof.
  unfold Effect, commit, mbind, op_bind; cbn [write_job write].
  destruct (append_events_eval now id events
    (apply_writes s [WriteFile (job_id job) (StatusFile (set_updated_at now job))]))
    as (ws & E & Hs). unfold write_job, write; cbn -[apply_writes append_events].
  rewrite E. split; [done|].
  apply (writes_app_silent _ [_] _ ws); [apply writes_one|done].
Qed.

Lemma effect_commit_ret {A} now id job events s (x : A) :
  Effect (commit now id job events ;; mret x) s (Ok x)
    (<[job_id job := set_updated_at now job]> (jobs s)).
Proof. eapply effect_bind_then; [apply effect_commit|done]. Qed.
End effects.

(** ** The operations *)

Section operations.
Context `{!Bundles, !CarriedMetadata, !Evidence, !Aead, !ReadDir} (manager : JobManager).
Context `{!CanonicalIdentity JobResult, !Sha256}.
Implicit Types (s : Store) (job : ExecutionJob).

Definition transitioned (now : Z) (status : JobStatus) (failure : option string) job
    : ExecutionJob :=
  let job := set_failure failure (set_status status job) in
  set_updated_at now
    (if JobStatus.is_terminal status then fst (release_reservation now job) else job).

Definition can_transition (from to : JobStatus) : bool :=
  negb (JobStatus.is_terminal from) && valid_transition from to.

Lemma transition_id now status failure job :
  job_id (if JobStatus.is_terminal status
          then fst (release_reservation now (set_failure failure (set_status status job)))
          else set_failure failure (set_status status job)) = job_id job.
Proof. destruct (JobStatus.is_terminal status); [by rewrite release_job_id|done]. Qed.

(** [transition] changes the record exactly when the state machine allows it. *)
Lemma effect_transition now id status failure s job :
  jobs s !! id = Some job →
  if can_transition (job_status job) status
  then Effect (transition now id status failure) s (Ok tt)
         (<[job_id job := transitioned now status failure job]> (jobs s))
  else ∃ e, Effect (transition now id status failure) s (Err e) (jobs s).
Proof.
  intros Hj. unfold can_transition, transition.
  destruct (JobStatus.is_terminal (job_status job)) eqn:Et; simpl.
  { eexists. eapply effect_read_job; [done|]. rewrite Et. apply effect_fail. }
  destruct (valid_transition (job_status job) status) eqn:Ev.
  2: { eexists. eapply effect_read_job; [done|]. rewrite Et, Ev. apply effect_fail. }
  eapply effect_read_job; [done|]. rewrite Et, Ev. simpl. unfold transitioned.
  rewrite <-(transition_id now status failure job).
  destruct (JobStatus.is_terminal status); [|apply effect_commit].
  destruct (release_reservation now _) as [job' released]. apply effect_commit.
Qed.

(** [release] gives up whatever is not given up already. *)
Lemma effect_release now id s job :
  jobs s !! id = Some job →
  Effect (release now id) s (Ok tt)
    (if snd (release_reservation now job)
     then <[job_id job := set_updated_at now (fst (release_reservation now job))]> (jobs s)
     else jobs s).
Proof.
  intros Hj. eapply effect_read_job; [done|]. unfold release_reservation.
  destruct (job_reservation job) as [r|]; [|apply effect_ret].
  destruct (ReservationState.is_terminal _); [apply effect_ret|].
  apply (effect_commit now id (set_reservation (Some (relinquish ResReleased now r)) job)).
Qed.

(** The record a cancellation leaves. *)
Definition cancelled (now : Z) (control : bool) job : ExecutionJob :=
  let job := set_updated_at now (request_cancel control job) in
  if bool_decide (job_status job = JobCancelled) then fst (release_reservation now job) else job.

Lemma set_updated_twice now job : set_updated_at now (set_updated_at now job) = set_updated_at now job.
Proof. done. Qed.

Lemma set_updated_release now job :
  set_updated_at now (fst (release_reservation now (set_updated_at now job))) =
  fst (release_reservation now (set_updated_at now job)).
Proof. unfold release_reservation. by repeat case_match. Qed.

Lemma effect_commit_same now id job types s :
  set_updated_at now job = job →
  Effect (commit now id job types ;; mret job) s (Ok job) (<[job_id job := job]> (jobs s)).
Proof. intros Hu. pose proof (effect_commit_ret now id job types s job) as Hc. by rewrite Hu in Hc. Qed.

Lemma effect_cancel now id control s job :
  jobs s !! id = Some job →
  if JobStatus.is_terminal (job_status job)
  then Effect (cancel_locked now id control) s (Ok job) (jobs s)
  else Effect (cancel_locked now id control) s (Ok (cancelled now control job))
         (<[job_id job := cancelled now control job]> (jobs s)).
Proof.
  intros Hj. destruct (JobStatus.is_terminal (job_status job)) eqn:Et.
  { eapply effect_read_job; [done|]. rewrite Et. apply effect_ret. }
  eapply effect_read_job; [done|]. rewrite Et. unfold cancelled.
  set (job' := request_cancel control job).
  assert (job_id job' = job_id job) as Hid by (unfold job', request_cancel; by case_match).
  case_bool_decide as Hc.
  - pose proof (set_updated_release now job') as Hu.
    pose proof (release_job_id now (set_updated_at now job')) as Hi.
    destruct (release_reservation now _) as [job'' released]. simpl in *.
    rewrite <-Hid, <-Hi. by apply effect_commit_same.
  - rewrite <-Hid. by apply (effect_commit_same now id (set_updated_at now job')).
Qed.

(** The record an admission leaves. *)
Definition admitted_job (now : Z) (admission : JobAdmission) job : ExecutionJob :=
  let job := set_admission (Some (summary admission)) job in
  set_updated_at now
    (if is_admitted (adm_decision admission) then set_status JobAdmitted job else job).

Definition holds_reservation job : bool :=
  negb (JobStatus.is_terminal (job_status job)) &&
  from_option (λ r, bool_decide (res_state r = ResReserved)) false (job_reservation job).

Lemma write_request_eval nonce id stored s :
  (∃ e, write_request manager nonce id stored s = (Err e, [])) ∨
  (∃ w, write_request manager nonce id stored s = (Ok tt, [w]) ∧ silent w).
Proof.
  unfold write_request, mbind, op_bind, lift. destruct (on_disk _ _ _ _) as [disk|e]; simpl.
  - right. eexists. by split.
  - left. by eexists.
Qed.

(** [persist_admission] requires the reservation; it leaves the record
    admitted, or nothing. *)
Lemma effect_persist_admission now nonce id stored admission s job :
  jobs s !! id = Some job →
  (holds_reservation job = true ∧
   Effect (persist_admission manager now nonce id stored admission) s (Ok tt)
     (<[job_id job := admitted_job now admission job]> (jobs s))) ∨
  (∃ e, Effect (persist_admission manager now nonce id stored admission) s (Err e) (jobs s)).
Proof.
  intros Hj. unfold persist_admission, holds_reservation.
  destruct (JobStatus.is_terminal (job_status job)) eqn:Et; simpl.
  { right. eexists. eapply effect_read_job; [done|]. rewrite Et. apply effect_fail. }
  destruct (from_option _ _ _) eqn:Eh.
  2: { right. eexists. eapply effect_read_job; [done|]. rewrite Et, Eh. apply effect_fail. }
  destruct (write_request_eval nonce id (with_admission admission stored) s)
    as [[e Hw]|(w & Hw & Hs)].
  - right. exists e. eapply effect_read_job; [done|]. rewrite Et, Eh. simpl.
    by apply effect_bind_err.
  - left. split; [done|]. eapply effect_read_job; [done|]. rewrite Et, Eh. simpl.
    eapply effect_bind_silent; [done|by constructor|]. simpl. unfold admitted_job.
    replace (jobs s) with (jobs (apply_writes s [w]))
      by (rewrite jobs_apply_writes; simpl; apply Hs).
    destruct (is_admitted _).
    + apply (effect_commit now id (set_status JobAdmitted (set_admission (Some (summary admission)) job))).
    + apply (effect_commit now id (set_admission (Some (summary admission)) job)).
Qed.

(** ** Results *)

Lemma write_artifacts_eval id outputs s :
  ∃ ws, write_artifacts id outputs s = (Ok tt, ws) ∧ Forall silent ws.
Proof.
  revert s. induction outputs as [|data outputs IH]; intros s; [by exists []|].
  cbn [write_artifacts]. unfold mbind, op_bind, write at 1.
  set (w := WriteFile _ _). destruct (IH (apply_writes s [w])) as (ws & -> & Hs).
  exists (w :: ws). by split; [|constructor].
Qed.

(** The record a result leaves. *)
Definition completed (now : Z) (id : string) (status : JobStatus) (result : ExecutionResult) job
    : ExecutionJob :=
  let stored := {| jres_job_id := id; jres_status := status; jres_result := result |} in
  let job := set_status status (set_result_digest (Some (canonical_identity stored))
    (set_execution_id (Some (er_execution_id result)) job)) in
  let job :=
    if bool_decide (status = JobCancelled) && can_requested (job_cancellation job)
    then set_cancellation {| can_requested := can_requested (job_cancellation job);
           can_effective := true; can_phase := Some "execution_terminated" |} job
    else job in
  set_updated_at now (fst (release_reservation now job)).

Lemma completed_id now id status result job : job_id (completed now id status result job) = job_id job.
Proof. unfold completed. cbn [job_id set_updated_at]. rewrite release_job_id. by case_match. Qed.

(** [persist_result] leaves the record of the result, or no change. *)
Lemma effect_persist_result now id status result s job :
  jobs s !! id = Some job →
  (∃ receipt, er_receipt result = Some receipt ∧ receipt_verify receipt = Ok tt ∧
     from_option (λ reserved, String.eqb reserved (er_execution_id result)) true
       (job_execution_id job) = true ∧
     Effect (persist_result now id status result) s (Ok tt)
       (<[job_id job := completed now id status result job]> (jobs s))) ∨
  (∃ e, Effect (persist_result now id status result) s (Err e) (jobs s)).
Proof.
  intros Hj. unfold persist_result.
  destruct (er_receipt result) as [receipt|]; [|right; eexists; apply effect_fail].
  destruct (receipt_verify receipt) as [[]|e] eqn:Hv; simpl.
  2: { right. eexists. by apply effect_bind_err. }
  set (stored := {| jres_job_id := id; jres_status := status; jres_result := result |}).
  set (w1 := WriteFile id (ResultFile (Some stored))).
  set (w2 := WriteFile id (ReceiptFile (Some {| jrec_job_id := id; jrec_receipt := receipt |}))).
  destruct (write_artifacts_eval id (er_outputs result) (apply_writes (apply_writes s [w1]) [w2]))
    as (ws & Hws & Hsilent).
  set (s' := apply_writes (apply_writes (apply_writes s [w1]) [w2]) ws).
  assert (jobs s' = jobs s) as Hjobs.
  { unfold s'. rewrite !jobs_apply_writes. by rewrite silent_fold. }
  assert (∀ {A} (k : unit → Op A) r after, Effect (k tt) s' r after →
    Effect (lift (Ok tt : Result unit ProviderError) ;; write w1 ;; write w2 ;;
            write_artifacts id (er_outputs result) ≫= k) s r after) as Hrun.
  { intros A k r after Hk. eapply effect_bind_pure; [done|].
    eapply (effect_bind_silent (write w1)); [done|by constructor|].
    eapply (effect_bind_silent (write w2)); [done|by constructor|].
    eapply effect_bind_silent; [exact Hws|done|exact Hk]. }
  destruct (from_option (λ reserved, String.eqb reserved (er_execution_id result)) true
       (job_execution_id job)) eqn:He.
  - left. exists receipt. split_and!; [done..|]. apply Hrun.
    eapply effect_read_job; [by rewrite Hjobs|].
    rewrite <-(completed_id now id status result job).
    rewrite <-Hjobs. replace (from_option _ _ (job_execution_id job)) with false.
    2: { destruct (job_execution_id job); simpl in *; [by rewrite He|done]. }
    unfold completed. destruct (release_reservation now _) as [job' released].
    apply (effect_commit now id job').
  - right. eexists. rewrite <-Hjobs. apply Hrun. eapply effect_read_job; [by rewrite Hjobs|].
    replace (from_option _ _ (job_execution_id job)) with true.
    2: { destruct (job_execution_id job); simpl in *; [by rewrite He|done]. }
    apply effect_fail.
Qed.
End operations.

(** ** Reservation *)

Section reservation.
Context `{!Bundles, !CarriedMetadata, !Evidence, !Aead, !ReadDir} (manager : JobManager).
Implicit Types (s : Store) (job : ExecutionJob).

(** What the active reservations hold, as a scan of the store sums it. *)
Definition held s : ResourceRequirements :=
  Resources.sum (res_resources <$> omap active_reservation (scan_jobs s)).

Definition free_capacity s : ResourceRequirements :=
  snap_available (capacity_snapshot (jm_capacity manager) (held s)).

Definition oldest_fitting s (free : ResourceRequirements) : option string :=
  snd <$> head (sort_by compare_age
    ((λ job, (job_created_at job, job_id job)) <$>
      filter (λ job, is_fitting free job = true) (scan_jobs s))).

Lemma add_reserved_eval acc l :
  Resources.fits acc Resources.width →
  add_reserved acc l =
    let total := Resources.plus acc (Resources.sum (res_resources <$> l)) in
    if decide (Resources.fits total Resources.width) then Ok total
    else Err (evidence_error "reserved capacity overflow").
Proof.
  revert acc. induction l as [|r l IH]; intros acc Hacc; cbn [add_reserved fmap list_fmap Resources.sum foldr].
  - rewrite (right_id_L _ Resources.plus). by rewrite decide_True.
  - destruct (ResourceRequirements.checked_add acc (res_resources r)) as [acc'|] eqn:E.
    + apply Resources.checked_add_vector in E as [-> Hfit]. rewrite IH by done.
      by rewrite <-(assoc_L Resources.plus).
    + simpl. rewrite decide_False; [done|]. intros Hfit.
      assert (ResourceRequirements.checked_add acc (res_resources r) =
              Some (Resources.plus acc (res_resources r))) as Hs; [|by rewrite Hs in E].
      apply Resources.checked_add_vector. split; [done|]. etrans; [|exact Hfit].
      unfold Resources.fits, Resources.plus; simpl. lia.
Qed.

Lemma capacity_snapshot_eval s :
  capacity_snapshot_locked manager s =
    (if decide (Resources.fits (held s) Resources.width)
     then Ok (capacity_snapshot (jm_capacity manager) (held s))
     else Err (evidence_error "reserved capacity overflow"), []).
Proof.
  unfold capacity_snapshot_locked, mbind, op_bind, get_store, lift.
  rewrite add_reserved_eval by by (unfold Resources.fits; simpl; lia).
  rewrite (left_id_L _ Resources.plus). fold (held s). simpl. by destruct (decide _).
Qed.

Lemma next_fitting_eval s free :
  next_fitting_job_locked free s = (Ok (oldest_fitting s free), []).
Proof. done. Qed.

(** What [try_reserve] does to a job's record, case by case. *)
Inductive ReserveOutcome (now : Z) (id : string) s job
    : Result bool ProviderError → gmap string ExecutionJob → Prop :=
| reserve_terminal :
    JobStatus.is_terminal (job_status job) = true →
    ReserveOutcome now id s job (Ok false) (jobs s)
| reserve_error e :
    JobStatus.is_terminal (job_status job) = false →
    job_reservation job = None ∨
    (∃ r, job_reservation job = Some r ∧
       (res_job_id r ≠ id ∨ ReservationState.is_terminal (res_state r) = true ∨
        ¬ Resources.fits (held s) Resources.width ∨
        (Resources.fits (res_resources r) (free_capacity s) ∧
         Resources.fits (res_resources r) (total_capacity (jm_capacity manager)) ∧
         ¬ Resources.fits (Resources.plus (held s) (res_resources r)) Resources.width))) →
    ReserveOutcome now id s job (Err e) (jobs s)
| reserve_held r :
    JobStatus.is_terminal (job_status job) = false →
    job_reservation job = Some r → res_job_id r = id → res_state r = ResReserved →
    ReserveOutcome now id s job (Ok true) (jobs s)
| reserve_expired r :
    JobStatus.is_terminal (job_status job) = false →
    job_reservation job = Some r → res_job_id r = id → res_state r = ResPending →
    from_option (λ expires_at, Z.leb expires_at now) false (res_expires_at r) = true →
    ReserveOutcome now id s job (Ok false)
      (<[job_id job := set_updated_at now (expire now r job)]> (jobs s))
| reserve_impossible r :
    JobStatus.is_terminal (job_status job) = false →
    job_reservation job = Some r → res_job_id r = id → res_state r = ResPending →
    ¬ Resources.fits (res_resources r) (total_capacity (jm_capacity manager)) →
    ReserveOutcome now id s job (Ok false)
      (<[job_id job := set_updated_at now (fst (reject_impossible manager now (res_resources r)
         (insufficient_reasons (res_resources r) (total_capacity (jm_capacity manager))) job))]>
         (jobs s))
| reserve_wait r reasons :
    JobStatus.is_terminal (job_status job) = false →
    job_reservation job = Some r → res_job_id r = id → res_state r = ResPending →
    Resources.fits (res_resources r) (total_capacity (jm_capacity manager)) →
    ¬ (Resources.fits (res_resources r) (free_capacity s) ∧
       oldest_fitting s (free_capacity s) = Some id) →
    ReserveOutcome now id s job (Ok false)
      (<[job_id job := set_updated_at now (set_wait (res_resources r) (free_capacity s) reasons
         (set_status JobWaitingForCapacity job))]> (jobs s))
| reserve_granted r :
    JobStatus.is_terminal (job_status job) = false →
    job_reservation job = Some r → res_job_id r = id → res_state r = ResPending →
    Resources.fits (res_resources r) (free_capacity s) →
    oldest_fitting s (free_capacity s) = Some id →
    Resources.fits (Resources.plus (held s) (res_resources r)) Resources.width →
    ReserveOutcome now id s job (Ok true)
      (<[job_id job := set_updated_at now (grant now (capacity_snapshot (jm_capacity manager)
         (Resources.plus (held s) (res_resources r))) r job)]> (jobs s)).

Lemma wait_reasons_eval id required s free :
  ∃ reasons, wait_reasons_of id required free s = (Ok reasons, []) ∧
    (reasons = [] ↔ Resources.fits required free ∧ oldest_fitting s free = Some id).
Proof.
  unfold wait_reasons_of. case_bool_decide as Hs; rewrite Resources.insufficient_fits in Hs.
  - unfold mbind, op_bind. rewrite next_fitting_eval. eexists. split; [done|].
    case_bool_decide; naive_solver.
  - eexists. split; [done|]. rewrite Resources.insufficient_fits. naive_solver.
Qed.

Lemma effect_reject now id s job r :
  let required := res_resources r in
  let reasons := insufficient_reasons required (total_capacity (jm_capacity manager)) in
  let '(job', released) := reject_impossible manager now required reasons job in
  ∀ types, Effect (commit now id job' types ;; mret false) s (Ok false)
    (<[job_id job := set_updated_at now job']> (jobs s)).
Proof.
  intros required reasons. destruct (reject_impossible _ _ _ _ _) as [job' released] eqn:E. intros types.
  assert (job_id job' = job_id job) as <-; [|apply effect_commit_ret].
  change job' with (fst (job', released)). rewrite <-E. unfold reject_impossible.
  by rewrite release_job_id.
Qed.

Lemma effect_reserve_or_wait now id s job r :
  JobStatus.is_terminal (job_status job) = false →
  job_reservation job = Some r → res_job_id r = id → res_state r = ResPending →
  ∃ answer after, Effect (reserve_or_wait manager now id job r) s answer after ∧
    ReserveOutcome now id s job answer after.
Proof.
  intros Ht Hr Hid Hp. unfold reserve_or_wait.
  pose proof (capacity_snapshot_eval s) as Hsnap. destruct (decide _) as [Hw|Hw] in Hsnap.
  2: { do 2 eexists. split; [by apply effect_bind_err|].
       apply reserve_error; [done|]. right. exists r. auto. }
  destruct (decide (Resources.fits (res_resources r) (total_capacity (jm_capacity manager))))
    as [Hpos|Himp].
  2: { do 2 eexists. split; [|exact (reserve_impossible now id s job r Ht Hr Hid Hp Himp)].
       eapply effect_bind_pure; [exact Hsnap|].
       rewrite bool_decide_eq_false_2 by by rewrite Resources.insufficient_fits. simpl.
       pose proof (effect_reject now id s job r) as He. simpl in He.
       destruct (reject_impossible _ _ _ _ _) as [job' released]. apply He. }
  destruct (wait_reasons_eval id (res_resources r) s (free_capacity s)) as (reasons & Hwait & Hnil).
  assert (∀ answer after,
    Effect (if negb (bool_decide (reasons = []))
            then wait_for_capacity now id (res_resources r) (free_capacity s) reasons job
            else take_capacity manager now id
              (capacity_snapshot (jm_capacity manager) (held s)) r job) s answer after →
    Effect (reserve_or_wait manager now id job r) s answer after) as Hrun.
  { intros answer after He. unfold reserve_or_wait. eapply effect_bind_pure; [exact Hsnap|].
    rewrite bool_decide_eq_true_2 by by rewrite Resources.insufficient_fits. simpl.
    eapply effect_bind_pure; [exact Hwait|exact He]. }
  case_bool_decide as Hn.
  2: { do 2 eexists. split; [apply Hrun; apply (effect_commit_ret now id (set_wait _ _ _ _))|].
       apply (reserve_wait now id s job r); try done. by rewrite <-Hnil. }
  apply Hnil in Hn as [Hfit Hold]. simpl in Hrun. unfold take_capacity in Hrun.
  destruct (ResourceRequirements.checked_add _ _) as [total|] eqn:Ec in Hrun.
  - apply Resources.checked_add_vector in Ec as [-> Hwidth]. do 2 eexists.
    split; [apply Hrun; apply (effect_commit_ret now id (grant _ _ _ _))|].
    by apply (reserve_granted now id s job r).
  - do 2 eexists. split; [apply Hrun, effect_fail|]. apply reserve_error; [done|]. right.
    exists r. split; [done|]. do 3 right. split_and!; [done..|]. intros Hf.
    pose proof (proj2 (Resources.checked_add_vector (held s) (res_resources r) _) (conj eq_refl Hf)).
    simpl in *. congruence.
Qed.

(** Every outcome of [try_reserve]. *)
Lemma effect_try_reserve now id s job :
  jobs s !! id = Some job →
  ∃ answer after, Effect (try_reserve manager now id) s answer after ∧
    ReserveOutcome now id s job answer after.
Proof.
  intros Hj. unfold try_reserve.
  assert (∀ (k : ExecutionJob → Op bool),
    (∃ answer after, Effect (k job) s answer after ∧ ReserveOutcome now id s job answer after) →
    ∃ answer after, Effect (read_job id ≫= k) s answer after ∧
      ReserveOutcome now id s job answer after) as Hread.
  { intros k (answer & after & He & Ho). exists answer, after. split; [|done].
    by eapply effect_read_job. }
  apply Hread. destruct (JobStatus.is_terminal (job_status job)) eqn:Ht.
  { do 2 eexists. split; [apply effect_ret|by apply reserve_terminal]. }
  destruct (job_reservation job) as [r|] eqn:Hr.
  2: { do 2 eexists. split; [apply effect_fail|apply reserve_error; auto]. }
  destruct (String.eqb_spec (res_job_id r) id) as [Hid|Hid]; simpl.
  2: { do 2 eexists. split; [apply effect_fail|apply reserve_error; [done|]]. right. eauto. }
  case_bool_decide as Hres.
  { do 2 eexists. split; [apply effect_ret|by apply (reserve_held now id s job r)]. }
  destruct (ReservationState.is_terminal (res_state r)) eqn:Hrt.
  { do 2 eexists. split; [apply effect_fail|apply reserve_error; [done|]]. right. eauto. }
  assert (res_state r = ResPending) as Hp by (by destruct (res_state r)).
  destruct (from_option _ _ _) eqn:Hexp; [|by apply effect_reserve_or_wait].
  do 2 eexists. split; [apply (effect_commit_ret now id (expire now r job))|].
  by apply (reserve_expired now id s job r).
Qed.
End reservation.

(** ** Retention, acceptance *)

Section queries.
Context `{!Bundles, !CarriedMetadata, !Evidence, !Aead, !ReadDir} (manager : JobManager).
Context `{!CanonicalIdentity Policy, !CanonicalIdentity SemanticRequest,
          !CanonicalIdentity ApplicationMaterial, !Sha256}.
Implicit Types (s : Store) (job : ExecutionJob).

(** Operations all of whose writes are of a kind. *)
Definition Only (P : Write → Prop) {A} (m : Op A) : Prop := ∀ s, Forall P (snd (m s)).

Lemma only_bind P {A B} (m : Op A) (k : A → Op B) : Only P m → (∀ x, Only P (k x)) → Only P (m ≫= k).
Proof.
  intros Hm Hk s. unfold mbind, op_bind. specialize (Hm s). destruct (m s) as [[x|e] ws]; [|done].
  specialize (Hk x (apply_writes s ws)). destruct (k x _) as [r ws']. by apply Forall_app_2.
Qed.

Lemma only_none P {A} (m : Op A) : (∀ s, snd (m s) = []) → Only P m.
Proof. intros Hm s. by rewrite Hm. Qed.

Lemma only_write (P : Write → Prop) w : P w → Only P (write w).
Proof. intros Hw s. by constructor. Qed.

(** Operations that write no record. *)
Definition Quiet {A} (m : Op A) : Prop := Only silent m.

Lemma quiet_effect {A} (m : Op A) s : Quiet m → Effect m s (fst (m s)) (jobs s).
Proof. intros Hm. split; [done|]. by apply writes_silent. Qed.

(** Operations that write nothing. *)
Lemma none_bind {A B} (m : Op A) (k : A → Op B) s :
  snd (m s) = [] → (∀ x, snd (k x s) = []) → snd ((m ≫= k) s) = [].
Proof.
  intros Hm Hk. unfold mbind, op_bind. destruct (m s) as [[x|e] ws]; simpl in Hm; subst; [|done].
  specialize (Hk x). simpl. by destruct (k x s).
Qed.

Lemma read_job_none id s : snd (read_job id s) = [].
Proof. by rewrite read_job_eval. Qed.

Lemma read_request_none id s : snd (read_request manager id s) = [].
Proof. unfold read_request, mbind, op_bind; simpl. by destruct (found _). Qed.

Lemma quiet_expire now id : Quiet (require_not_expired manager now id).
Proof.
  apply only_bind; [by apply only_none|]. intros s.
  destruct (s !! id ≫= dir_expired); [by apply only_none|].
  apply only_bind; [apply only_none; intros; apply read_job_none|]. intros job.
  case_match; [|by apply only_none].
  apply only_bind; [apply only_none; intros; apply read_request_none|]. intros stored.
  repeat (apply only_bind; [by apply only_write|intros _]). by apply only_none.
Qed.

(** A request that was accepted before writes nothing. *)
Lemma accept_again_none a reserved s : snd (accept_again manager a reserved s) = [].
Proof.
  apply none_bind; [apply read_request_none|]. intros stored.
  apply none_bind; [apply read_job_none|]. intros job. by case_match.
Qed.

Lemma accept_idempotent_none a existing s : snd (accept_idempotent manager a existing s) = [].
Proof.
  apply none_bind; [apply read_request_none|]. intros stored. case_match; [done|].
  apply none_bind; [apply read_job_none|]. done.
Qed.

(** The job an acceptance makes. *)
Definition accepted_job (now : Z) (fresh : Fresh) (a : Acceptance) (bundle : WorkloadBundle)
    (verification : BundleVerification) (dependency : option string) : ExecutionJob :=
  new_job manager now (fresh_reservation_id fresh)
    (default (fresh_job_id fresh) (rsv_job_id <$> acc_reserved a)) a bundle verification dependency.

Lemma effect_create now fresh a bundle verification s :
  let id := default (fresh_job_id fresh) (rsv_job_id <$> acc_reserved a) in
  (∃ e, create_job manager now fresh a bundle verification s = (Err e, [])) ∨
  (∃ dependency sub, s !! id = None ∧ sub_job_id sub = id ∧ sub_status sub = JobQueued ∧
     Effect (create_job manager now fresh a bundle verification) s (Ok sub)
       (<[id := accepted_job now fresh a bundle verification dependency]> (jobs s))).
Proof.
  intros id. unfold create_job. fold id.
  destruct (dependency_of bundle) as [dependency|e] eqn:Ec; [|left; by eexists].
  destruct (on_disk (jm_seal manager) (fresh_nonce fresh) id (new_request a)) as [disk|e] eqn:Ed.
  2: { left. eexists. erewrite bind_pure_eval by done. done. }
  destruct (decide (is_Some (s !! id))) as [Hs|Hs].
  - left. eexists. erewrite bind_pure_eval by done. erewrite bind_pure_eval by done.
    erewrite bind_pure_eval by done. by rewrite bool_decide_eq_true_2.
  - right. exists dependency. eexists. split; [by apply eq_None_not_Some|].
    split; [|split; [|]]; cycle 2.
    + eapply effect_bind_pure; [done|]. eapply effect_bind_pure; [done|].
      eapply effect_bind_pure; [done|]. rewrite bool_decide_eq_false_2 by done.
      unfold accepted_job. fold id.
      match goal with |- Effect (write ?w ≫= _) _ _ _ =>
        exact (effect_bind_then (write w) _ s tt _ _ (effect_write w s) (λ _, eq_refl)) end.
    + done.
    + done.
Qed.

Definition accepted_before s (sub : JobSubmission) : Prop := is_Some (s !! sub_job_id sub).

Lemma read_request_exists id s stored : fst (read_request manager id s) = Ok stored → is_Some (s !! id).
Proof.
  unfold read_request, mbind, op_bind; simpl. by destruct (s !! id).
Qed.

(** Two ways an acceptance ends: nothing is written, and a job it answers for
    exists; or the job did not exist and is made. *)
Definition AcceptOutcome (now : Z) (fresh : Fresh) (a : Acceptance) s (m : Op JobSubmission) : Prop :=
  let id := default (fresh_job_id fresh) (rsv_job_id <$> acc_reserved a) in
  (snd (m s) = [] ∧ ∀ sub, fst (m s) = Ok sub → accepted_before s sub) ∨
  (∃ bundle verification dependency sub,
     s !! id = None ∧ sub_job_id sub = id ∧ sub_status sub = JobQueued ∧
     Effect m s (Ok sub)
       (<[id := accepted_job now fresh a bundle verification dependency]> (jobs s))).

Lemma accept_outcome_eq now fresh a s (m m' : Op JobSubmission) :
  m s = m' s → AcceptOutcome now fresh a s m' → AcceptOutcome now fresh a s m.
Proof. unfold AcceptOutcome, Effect. by intros ->. Qed.

Lemma accept_outcome_create now fresh a s bundle verification :
  AcceptOutcome now fresh a s (create_job manager now fresh a bundle verification).
Proof.
  destruct (effect_create now fresh a bundle verification s) as [[e He]|(dependency & sub & ?)].
  - left. by rewrite He.
  - right. exists bundle, verification, dependency, sub. done.
Qed.

Lemma accept_outcome_idempotent now fresh a s existing :
  AcceptOutcome now fresh a s (accept_idempotent manager a existing).
Proof.
  left. split; [apply accept_idempotent_none|]. intros sub Hsub. unfold accept_idempotent in Hsub.
  pose proof (read_request_none existing s) as Hn.
  destruct (read_request manager existing s) as [[stored|e] ws] eqn:E; simpl in Hn; subst.
  - erewrite bind_pure_eval in Hsub by done.
    assert (is_Some (s !! existing)) as Hex by (eapply read_request_exists; by rewrite E).
    case_match; [done|]. unfold mbind, op_bind in Hsub. rewrite read_job_eval in Hsub.
    destruct (jobs s !! existing); simpl in Hsub; [|done]. by injection Hsub as <-.
  - unfold mbind, op_bind in Hsub. by rewrite E in Hsub.
Qed.

Lemma accept_outcome_again now fresh a s reserved :
  (∀ id job, jobs s !! id = Some job → job_id job = id) → is_Some (s !! rsv_job_id reserved) →
  AcceptOutcome now fresh a s (accept_again manager a reserved).
Proof.
  intros Hids Hex. left. split; [apply accept_again_none|]. intros sub Hsub. unfold accept_again in Hsub.
  pose proof (read_request_none (rsv_job_id reserved) s) as Hn.
  destruct (read_request manager _ s) as [[stored|e] ws] eqn:E; simpl in Hn; subst.
  2: { unfold mbind, op_bind in Hsub. by rewrite E in Hsub. }
  erewrite bind_pure_eval in Hsub by done. unfold mbind, op_bind in Hsub.
  rewrite read_job_eval in Hsub. destruct (jobs s !! rsv_job_id reserved) as [job|] eqn:Hj; [|done].
  cbn -[orb negb] in Hsub. destruct (_ || _) in Hsub; cbn in Hsub; [done|]. injection Hsub as <-.
  unfold accepted_before; simpl. by rewrite (Hids _ _ Hj).
Qed.

Lemma effect_accept now fresh a s :
  (∀ id job, jobs s !! id = Some job → job_id job = id) →
  AcceptOutcome now fresh a s (accept manager now fresh a).
Proof.
  intros Hids. unfold accept, lift.
  destruct (check_acceptance a) as [[bundle verification]|e]; [|left; split; done].
  eapply accept_outcome_eq; [by apply bind_pure_eval|]. simpl.
  eapply accept_outcome_eq; [by apply bind_pure_eval|].
  assert (AcceptOutcome now fresh a s
    (match key_hash a with
     | None => create_job manager now fresh a bundle verification
     | Some hash =>
         existing ← find_idempotent manager (acc_owner a) hash;
         match existing with
         | Some existing => accept_idempotent manager a existing
         | None => create_job manager now fresh a bundle verification
         end
     end)) as Hcreate.
  { destruct (key_hash a) as [hash|]; [|apply accept_outcome_create].
    eapply accept_outcome_eq; [by apply bind_pure_eval|].
    case_match; [apply accept_outcome_idempotent|apply accept_outcome_create]. }
  destruct (acc_reserved a) as [reserved|] eqn:Er; [|exact Hcreate].
  case_bool_decide; [by apply accept_outcome_again|exact Hcreate].
Qed.
End queries.
