(* ===== verification/JobSystem.v ===== *)
(** The job manager as a concurrent, crashing system
    (src/crates/compute-provider/src/jobs.rs, [JobManager::run] and the
    operations other tasks call meanwhile).

    [run] is a sequence of phases, one per operation it awaits; between two
    phases of one job any operation of another task may happen.  A crash may
    happen within any operation and keeps the writes it had made; recovery
    starts the manager again, and may itself crash. *)

From S2P Require Import Prelude Text Core Isolation Policy Admission Descriptor.
From S2P Require Import Matching Pool Placement Requests JobRecord JobStore.

(** ** The run of one job *)

Section run.
Context `{!Bundles, !CarriedMetadata, !Evidence, !Aead, !ReadDir} (manager : JobManager).
Context `{!CanonicalIdentity Policy, !CanonicalIdentity SemanticRequest,
          !CanonicalIdentity ApplicationMaterial, !Sha256, !CanonicalIdentity JobResult}.

(** Where the run of a job is. *)
Inductive Phase : Type :=
(** the head of the loop: [read_job], then [try_reserve] *)
| Checking
| Reserving
(** [read_request], and what the stored admission says *)
| ReadingRequest
| Reconciling (stored : StoredRequest) (admission : JobAdmission)
| AskingAdmission (stored : StoredRequest)
| PersistingAdmission (stored : StoredRequest) (admission : JobAdmission) (otherwise : string)
| PersistingDenial (stored : StoredRequest) (admission : JobAdmission)
(** log directory, control, and the two transitions *)
| Controlling (stored : StoredRequest) (admission : JobAdmission)
| ToPreparing (stored : StoredRequest) (admission : JobAdmission)
| ToRunning (stored : StoredRequest) (admission : JobAdmission)
| GatheringEvidence (stored : StoredRequest) (admission : JobAdmission)
(** [execute_admitted_controlled] *)
| Executing (stored : StoredRequest) (admission : JobAdmission) (evidence : ReceiptReservation)
| PersistingResult (result : ExecutionResult)
(** the last transition of a run that failed *)
| Failing (status : JobStatus) (failure : string)
| Releasing
| Finished.

(** What the surroundings answer in one phase: the clock, a nonce, whether the
    log directory could be made, and the provider. *)
Record Surroundings : Type := {
  now : Z;
  nonce : option (list N);
  log_directory : bool;
  admit_answer : Result JobAdmission ProviderError;
  execute_answer : Result ExecutionResult ProviderError;
}.

Definition denial_message (admission : JobAdmission) : string :=
  "admission_denied: " +:+ join "; " (reason_message <$> decision_reasons (adm_decision admission)).

Definition receipt_evidence (job : ExecutionJob) : option ReceiptReservation :=
  r ← job_reservation job;
  snapshot ← res_capacity_snapshot r;
  Some {| rr_reservation_id := res_reservation_id r;
          rr_requested_resources := res_resources r;
          rr_reserved_resources := res_resources r;
          rr_provider_capacity_snapshot := snapshot |}.

(** The result with the reservation bound into its receipt, sealed and
    signed. *)
Definition bind_receipt (evidence : ReceiptReservation) (stored : StoredRequest)
    (result : ExecutionResult) : Result ExecutionResult ComputeError :=
  match er_receipt result with
  | None => Ok result
  | Some receipt =>
      let? sealed := receipt_seal (bind_reservation evidence (sr_substrate stored) receipt) in
      Ok (with_receipt (receipt_sign sealed) result)
  end.

(** Whether the job is controlled ([active]) after a phase. *)
Inductive Control : Type := KeepControl | InsertControl | RemoveControl.

Definition next (p : Phase) : Op (Phase * Control) := mret (p, KeepControl).
Definition uncontrolled (p : Phase) : Op (Phase * Control) := mret (p, RemoveControl).
Definition rejected (e : ProviderError) : Phase := Failing JobRejected (provider_error_to_string e).

(** One phase of [run]: what it writes and the phase after it. *)
Definition run_phase (around : Surroundings) (id : string) (p : Phase) : Op (Phase * Control) :=
  match p with
  | Checking =>
      current ← attempt (read_job id);
      match current with
      | Err _ => next Finished
      | Ok job => if JobStatus.is_terminal (job_status job) then next Releasing else next Reserving
      end
  | Reserving =>
      granted ← attempt (try_reserve manager (now around) id);
      match granted with
      | Ok true => next ReadingRequest
      | Ok false => next Checking
      | Err e => next (rejected e)
      end
  | ReadingRequest =>
      read ← attempt (read_request manager id);
      match read with
      | Err e => next (rejected e)
      | Ok stored =>
          match sr_admission stored with
          | Some admission =>
              if is_admitted (adm_decision admission) then next (Reconciling stored admission)
              else next (AskingAdmission stored)
          | None => next (AskingAdmission stored)
          end
      end
  | Reconciling stored admission =>
      read ← attempt (read_job id);
      match read with
      | Ok job =>
          if bool_decide (is_Some (job_admission job)) then next (Controlling stored admission)
          else next (PersistingAdmission stored admission "admission reconciliation failed")
      | Err _ => next (Controlling stored admission)
      end
  | AskingAdmission stored =>
      match admit_answer around with
      | Ok admission =>
          if is_admitted (adm_decision admission)
          then next (PersistingAdmission stored admission "admission persistence failed")
          else next (PersistingDenial stored admission)
      | Err e => next (rejected e)
      end
  | PersistingAdmission stored admission otherwise =>
      done ← attempt (persist_admission manager (now around) (nonce around) id stored admission);
      next (if is_ok done then Controlling (with_admission admission stored) admission
            else Failing JobRejected otherwise)
  | PersistingDenial stored admission =>
      _ ← attempt (persist_admission manager (now around) (nonce around) id stored admission);
      next (Failing JobRejected (denial_message admission))
  | Controlling stored admission =>
      if log_directory around then mret (ToPreparing stored admission, InsertControl)
      else next (Failing JobFailed "could not create job log directory")
  | ToPreparing stored admission =>
      done ← attempt (transition (now around) id JobPreparing None);
      if is_ok done then next (ToRunning stored admission) else uncontrolled Releasing
  | ToRunning stored admission =>
      done ← attempt (transition (now around) id JobRunning None);
      if is_ok done then next (GatheringEvidence stored admission) else uncontrolled Releasing
  | GatheringEvidence stored admission =>
      read ← attempt (read_job id);
      match (match read with Ok job => receipt_evidence job | Err _ => None end) with
      | Some evidence => next (Executing stored admission evidence)
      | None => uncontrolled (Failing JobFailed "reserved job omitted its capacity snapshot")
      end
  | Executing stored admission evidence =>
      match execute_answer around with
      | Ok result =>
          match bind_receipt evidence stored result with
          | Ok result => uncontrolled (PersistingResult result)
          | Err e => uncontrolled (Failing JobFailed (error_to_string e))
          end
      | Err e => uncontrolled (rejected e)
      end
  | PersistingResult result =>
      done ← attempt (persist_result (now around) id (terminal_status result) result);
      match done with
      | Ok _ => next Finished
      | Err e => next (Failing JobFailed (provider_error_to_string e))
      end
  | Failing status failure =>
      _ ← attempt (transition (now around) id status (Some failure)); next Finished
  | Releasing => _ ← attempt (release (now around) id); next Finished
  | Finished => next Finished
  end.

(** ** The system *)

Record System : Type := {
  (** the manager runs *)
  up : bool;
  store : Store;
  (** the run of each job that was started since *)
  tasks : gmap string Phase;
  (** [active]: the jobs whose execution can be interrupted *)
  active : gset string;
}.

Inductive Action : Type :=
| RunPhase (id : string) (around : Surroundings)
| AcceptJob (now : Z) (fresh : Fresh) (acceptance : Acceptance)
| CancelJob (now : Z) (id : string) (control : bool)
| ExpireJob (now : Z) (id : string)
| RecoverJobs (now : Z) (fresh : string → string)
(** the first [kept] writes of an action, and then a crash *)
| CrashDuring (action : Action) (kept : nat).

(** Job identities come from [JobId::generate] or [JobId::parse]. *)
Definition accepted_id (fresh : Fresh) (a : Acceptance) : string :=
  default (fresh_job_id fresh) (rsv_job_id <$> acc_reserved a).

Definition well_formed (fresh : Fresh) (a : Acceptance) : bool :=
  is_ok (parse_job_id (accepted_id fresh a)) &&
  is_ok (parse_reservation_id (fresh_reservation_id fresh)).

(** The writes of an action, when it can happen. *)
Fixpoint action_writes (action : Action) (sys : System) : option (list Write) :=
  match action with
  | RunPhase id around =>
      if up sys then (λ p, snd (run_phase around id p (store sys))) <$> tasks sys !! id else None
  | AcceptJob now fresh a =>
      if up sys && well_formed fresh a then Some (snd (accept manager now fresh a (store sys)))
      else None
  | CancelJob now id control =>
      if up sys then Some (snd (cancel_locked now id control (store sys))) else None
  | ExpireJob now id =>
      if up sys then Some (snd (require_not_expired manager now id (store sys))) else None
  | RecoverJobs now fresh =>
      if up sys then None else Some (snd (recover now fresh (store sys)))
  | CrashDuring action kept => take kept <$> action_writes action sys
  end.

(** A job runs when the acceptance made it. *)
Definition start_accepted (r : Result JobSubmission ProviderError) (sys : System)
    : gmap string Phase :=
  match r with
  | Ok submission =>
      if bool_decide (store sys !! sub_job_id submission = None)
      then <[sub_job_id submission := Checking]> (tasks sys) else tasks sys
  | Err _ => tasks sys
  end.

Definition control_after (change : Control) (id : string) (running : gset string) : gset string :=
  match change with
  | KeepControl => running | InsertControl => {[id]} ∪ running | RemoveControl => running ∖ {[id]}
  end.

Definition perform (action : Action) (sys : System) : option System :=
  ws ← action_writes action sys;
  let s' := apply_writes (store sys) ws in
  match action with
  | RunPhase id around =>
      p ← tasks sys !! id;
      match fst (run_phase around id p (store sys)) with
      | Ok (p', change) =>
          Some {| up := true; store := s'; tasks := <[id := p']> (tasks sys);
                  active := control_after change id (active sys) |}
      | Err _ => None
      end
  | AcceptJob now fresh a =>
      Some {| up := true; store := s';
              tasks := start_accepted (fst (accept manager now fresh a (store sys))) sys;
              active := active sys |}
  | CancelJob _ _ _ | ExpireJob _ _ =>
      Some {| up := true; store := s'; tasks := tasks sys; active := active sys |}
  | RecoverJobs now fresh =>
      match fst (recover now fresh (store sys)) with
      | Ok again =>
          Some {| up := true; store := s'; active := ∅;
                  tasks := list_to_map ((λ id, (id, Checking)) <$> again) |}
      | Err _ => None
      end
  | CrashDuring _ _ => Some {| up := false; store := s'; tasks := ∅; active := ∅ |}
  end.

Definition initial : System := {| up := false; store := ∅; tasks := ∅; active := ∅ |}.

Definition system_step (sys sys' : System) : Prop := ∃ action, perform action sys = Some sys'.
Definition reachable (sys : System) : Prop := rtc system_step initial sys.

Fixpoint perform_all (actions : list Action) (sys : System) : option System :=
  match actions with
  | [] => Some sys
  | action :: actions => sys' ← perform action sys; perform_all actions sys'
  end.

Lemma performed_reachable actions : reachable (default initial (perform_all actions initial)).
Proof.
  destruct (perform_all actions initial) as [sys|] eqn:E; [|apply rtc_refl].
  simpl. revert E. unfold reachable. generalize initial.
  induction actions as [|action actions IH]; intros sys0; simpl.
  - intros [= ->]. apply rtc_refl.
  - rewrite bind_Some. intros (sys1 & Hp & Hrest). eapply rtc_l; [by exists action|]. by apply IH.
Qed.
End run.
