(* ===== verification/JobSafety.v ===== *)
(** Safety of the job manager: the invariant of its records, that every phase
    and every crash keeps it, and what it means for capacity, for terminal
    jobs, and for jobs that are left behind. *)

From S2P Require Import Prelude Text Core Isolation Policy Admission Descriptor Matching.
From S2P Require Import Pool Placement Requests JobRecord JobStore JobFacts JobSystem.

(** ** The invariant of a record *)

(** A snapshot of the capacity that balances and counts these resources. *)
Definition snapshot_covers (resources : ResourceRequirements) (s : CapacitySnapshot) : Prop :=
  Resources.plus (snap_reserved s) (snap_available s) = total_capacity (snap_capacity s) ∧
  Resources.fits resources (snap_reserved s).

Lemma capacity_snapshot_covers capacity held resources :
  Resources.fits (Resources.plus held resources) (total_capacity capacity) →
  snapshot_covers resources (capacity_snapshot capacity (Resources.plus held resources)).
Proof.
  unfold snapshot_covers, capacity_snapshot, total_capacity, Resources.fits, Resources.plus, saturating_sub; simpl.
  intros. split; [f_equal; lia|lia].
Qed.

(** A reservation granted, with the snapshot a receipt needs. *)
Definition granted (r : ComputeReservation) : Prop :=
  res_state r = ResReserved ∧
  ∃ snapshot, res_capacity_snapshot r = Some snapshot ∧ snapshot_covers (res_resources r) snapshot.

(** What the status of a job says of its reservation. *)
Definition status_ok (status : JobStatus) (r : ComputeReservation) : Prop :=
  match status with
  | JobCreated | JobAccepted | JobQueued | JobWaitingForCapacity => res_state r = ResPending
  | JobReserved | JobAdmitted | JobRunning => granted r
  | JobPreparing => granted r ∨ res_state r = ResReleased
  | _ => ReservationState.is_terminal (res_state r) = true
  end.

Record JobOk (id : string) (job : ExecutionJob) : Prop := {
  ok_id : job_id job = id;
  ok_name : is_ok (parse_job_id id) = true;
  ok_binding : reservation_invalid id job = false;
  ok_reservation : ∃ r, job_reservation job = Some r ∧ status_ok (job_status job) r ∧
    concurrency (res_resources r) = 1%N;
}.

(** What a job holds of the capacity. *)
Definition holds (job : ExecutionJob) : ResourceRequirements :=
  from_option res_resources ResourceRequirements.default_ (active_reservation job).

Definition reserved_total (m : gmap string ExecutionJob) : ResourceRequirements :=
  map_fold (λ _ job, Resources.plus (holds job)) ResourceRequirements.default_ m.

Lemma reserved_total_insert m id job :
  reserved_total (<[id := job]> m) = Resources.plus (holds job) (reserved_total (delete id m)).
Proof.
  unfold reserved_total. rewrite <-insert_delete_eq.
  rewrite (map_fold_insert_L (λ _ job, Resources.plus (holds job))); [done| |apply lookup_delete_eq].
  intros j1 j2 z1 z2 y _ _ _.
  by rewrite !(assoc_L Resources.plus), (comm_L Resources.plus (holds z1)).
Qed.

Lemma reserved_total_lookup m id job :
  m !! id = Some job →
  reserved_total m = Resources.plus (holds job) (reserved_total (delete id m)).
Proof. intros Hj. by rewrite <-reserved_total_insert, insert_id. Qed.

Lemma reserved_total_delete m id : Resources.fits (reserved_total (delete id m)) (reserved_total m).
Proof.
  destruct (m !! id) as [job|] eqn:Hj; [|by rewrite delete_id].
  rewrite (reserved_total_lookup m id job) by done. unfold Resources.fits, Resources.plus; simpl. lia.
Qed.

Lemma holds_default job :
  from_option (λ r, ReservationState.is_active (res_state r)) false (job_reservation job) = false →
  holds job = ResourceRequirements.default_.
Proof.
  unfold holds, active_reservation. destruct (job_reservation job) as [r|]; [|done]. simpl. by intros ->.
Qed.

Lemma holds_granted job r : job_reservation job = Some r → res_state r = ResReserved →
  holds job = res_resources r.
Proof. unfold holds, active_reservation. intros -> Hr. simpl. by rewrite Hr. Qed.

Section invariant.
Context (capacity : ProviderCapacity).

(** The invariant of the records: each is well formed, and what they hold fits
    the provider. *)
Record Records (m : gmap string ExecutionJob) : Prop := {
  records_ok id job : m !! id = Some job → JobOk id job;
  records_capacity : Resources.fits (reserved_total m) (total_capacity capacity);
}.

Lemma records_empty : Records ∅.
Proof.
  split; [done|]. unfold reserved_total. rewrite map_fold_empty. unfold Resources.fits; simpl. lia.
Qed.

Lemma records_insert m id job :
  Records m → JobOk id job →
  Resources.fits (Resources.plus (holds job) (reserved_total (delete id m))) (total_capacity capacity) →
  Records (<[id := job]> m).
Proof.
  intros [Hok Hcap] Hjob Hfit. split; [|by rewrite reserved_total_insert].
  intros id' job'. rewrite lookup_insert_Some. intros [[<- <-]|[_ ?]]; eauto.
Qed.

(** A record that holds no more than it did. *)
Lemma records_update m id job job' :
  Records m → m !! id = Some job → JobOk id job' →
  holds job' = holds job ∨ holds job' = ResourceRequirements.default_ →
  Records (<[id := job']> m).
Proof.
  intros Hm Hj Hok Hholds. apply records_insert; [done..|].
  pose proof (records_capacity _ Hm) as Hcap. rewrite (reserved_total_lookup m id job Hj) in Hcap.
  destruct Hholds as [->| ->]; [done|].
  etrans; [|exact Hcap]. unfold Resources.fits, Resources.plus; simpl. lia.
Qed.

(** A record that is granted what was free. *)
Lemma records_grant m id job' :
  Records m → JobOk id job' →
  Resources.fits (Resources.plus (reserved_total m) (holds job')) (total_capacity capacity) →
  Records (<[id := job']> m).
Proof.
  intros Hm Hok Hfit. apply records_insert; [done..|]. etrans; [|exact Hfit].
  pose proof (reserved_total_delete m id) as Hd. revert Hd.
  unfold Resources.fits, Resources.plus; simpl. lia.
Qed.
End invariant.

(** ** What a scan sums is what the records hold *)

Section scan.
Context `{!Bundles, !CarriedMetadata, !Evidence, !Aead, !ReadDir}.
Implicit Types s : Store.

Definition dir_holds (d : JobDir) : ResourceRequirements :=
  from_option holds ResourceRequirements.default_ (dir_status d).

Lemma sum_active l :
  Resources.sum (res_resources <$> omap active_reservation l) = Resources.sum (holds <$> l).
Proof.
  induction l as [|job l IH]; [done|]. rewrite fmap_cons. cbn [omap list_omap Resources.sum foldr].
  unfold holds at 1. destruct (active_reservation job) as [r|]; cbn [from_option].
  - rewrite fmap_cons. cbn [Resources.sum foldr]. f_equal. exact IH.
  - rewrite (left_id_L _ Resources.plus). exact IH.
Qed.

Lemma sum_omap {A} (f : A → option ExecutionJob) l :
  Resources.sum (holds <$> omap f l) =
  Resources.sum ((λ x, from_option holds ResourceRequirements.default_ (f x)) <$> l).
Proof.
  induction l as [|x l IH]; [done|]. rewrite fmap_cons. cbn [omap list_omap Resources.sum foldr].
  destruct (f x) as [job|]; cbn [from_option].
  - rewrite fmap_cons. cbn [Resources.sum foldr]. f_equal. exact IH.
  - rewrite (left_id_L _ Resources.plus). exact IH.
Qed.

Lemma sum_filter {A} (P : A → Prop) `{!∀ x, Decision (P x)} (f : A → ResourceRequirements) l :
  (∀ x, x ∈ l → ¬ P x → f x = ResourceRequirements.default_) →
  Resources.sum (f <$> filter P l) = Resources.sum (f <$> l).
Proof.
  induction l as [|x l IH]; [done|]. intros Hf. rewrite filter_cons, fmap_cons.
  cbn [Resources.sum foldr]. case_decide as Hx.
  - rewrite fmap_cons. cbn [Resources.sum foldr]. f_equal. apply IH. set_solver.
  - rewrite (Hf x), (left_id_L _ Resources.plus) by set_solver. apply IH. set_solver.
Qed.

Lemma sum_dirs s :
  Resources.sum ((λ p, dir_holds (snd p)) <$> map_to_list s) = reserved_total (jobs s).
Proof.
  unfold jobs. induction s as [|id d s Hid IH] using map_ind.
  { by rewrite map_to_list_empty, omap_empty. }
  rewrite map_to_list_insert by done. rewrite fmap_cons. cbn [Resources.sum foldr snd].
  transitivity (Resources.plus (dir_holds d) (reserved_total (omap dir_status s)));
    [by f_equal|]. rewrite omap_insert. unfold dir_holds.
  assert (delete id (omap dir_status s) = omap dir_status s) as Hd
    by (apply delete_id; by rewrite lookup_omap, Hid).
  destruct (dir_status d) as [job|]; simpl.
  - by rewrite reserved_total_insert, Hd.
  - by rewrite Hd, (left_id_L _ Resources.plus).
Qed.

Lemma held_reserved s :
  (∀ id job, jobs s !! id = Some job → is_ok (parse_job_id id) = true) →
  held s = reserved_total (jobs s).
Proof.
  intros Hnames. unfold held, scan_jobs, job_dirs. rewrite sum_active, sum_omap, sum_filter.
  2: { intros id _ Hid. destruct (job_at s id) as [job|] eqn:Hj; [|done].
       rewrite <-lookup_jobs in Hj. by apply Hnames in Hj. }
  rewrite read_dir_names, <-sum_dirs, <-list_fmap_compose. f_equal.
  apply list_fmap_ext. intros i [id d] Hi. simpl.
  apply list_elem_of_lookup_2, elem_of_map_to_list in Hi. unfold job_at, dir_holds. by rewrite Hi.
Qed.
End scan.

(** ** Records that stay well formed *)

(** The same lease, in whatever state. *)
Definition same_lease (r r' : ComputeReservation) : Prop :=
  res_reservation_id r' = res_reservation_id r ∧ res_job_id r' = res_job_id r ∧
  res_provider_id r' = res_provider_id r ∧ res_resources r' = res_resources r.

Lemma job_ok_change id job job' r r' :
  JobOk id job → job_reservation job = Some r → job_reservation job' = Some r' →
  same_lease r r' → job_id job' = job_id job → job_provider_id job' = job_provider_id job →
  status_ok (job_status job') r' → JobOk id job'.
Proof.
  intros [Hid Hname Hb (q & Hq & _ & Hc)] Hr Hr' (H1 & H2 & H3 & H4) Hid' Hp Hs.
  rewrite Hr in Hq. injection Hq as <-. split; [congruence|done| |].
  - unfold reservation_invalid in *. rewrite Hr in Hb. by rewrite Hr', H1, H2, H3, Hp.
  - exists r'. by rewrite H4.
Qed.

Lemma same_lease_refl r : same_lease r r.
Proof. by unfold same_lease. Qed.
#[export] Hint Resolve same_lease_refl : rust.

Lemma release_lease now job r :
  job_reservation job = Some r →
  ∃ r', job_reservation (fst (release_reservation now job)) = Some r' ∧ same_lease r r' ∧
    ReservationState.is_terminal (res_state r') = true.
Proof.
  intros Hr. unfold release_reservation. rewrite Hr.
  destruct (ReservationState.is_terminal (res_state r)) eqn:Et; simpl.
  - exists r. auto with rust.
  - eexists. by split_and!.
Qed.

Lemma release_provider now job :
  job_provider_id (fst (release_reservation now job)) = job_provider_id job.
Proof. unfold release_reservation. by repeat case_match. Qed.

Lemma status_ok_terminal status r :
  JobStatus.is_terminal status = true → ReservationState.is_terminal (res_state r) = true →
  status_ok status r.
Proof. by destruct status. Qed.

Lemma not_active_terminal r :
  ReservationState.is_terminal (res_state r) = true → ReservationState.is_active (res_state r) = false.
Proof. by destruct (res_state r). Qed.

(** A record that ends: a terminal status, and its reservation released. *)
Lemma ended_ok id now job job' :
  JobOk id job → job_reservation job' = job_reservation job → job_id job' = job_id job →
  job_provider_id job' = job_provider_id job → JobStatus.is_terminal (job_status job') = true →
  let ended := fst (release_reservation now job') in
  JobOk id ended ∧ holds ended = ResourceRequirements.default_ ∧
  JobStatus.is_terminal (job_status ended) = true.
Proof.
  intros Hok Hres Hid Hp Ht ended. destruct (ok_reservation _ _ Hok) as (r & Hr & _ & _).
  destruct (release_lease now job' r) as (r' & Hr' & Hl & Hrt); [congruence|]. fold ended in Hr'.
  assert (JobStatus.is_terminal (job_status ended) = true) as Hst by (unfold ended; by rewrite release_status).
  split_and!; [|apply holds_default; rewrite Hr'; simpl; by apply not_active_terminal|done].
  apply (job_ok_change id job ended r r'); try done.
  - unfold ended. by rewrite release_job_id.
  - unfold ended. by rewrite release_provider.
  - by apply status_ok_terminal.
Qed.

(** The time of a record does not matter. *)
Lemma updated_ok id now job : JobOk id job → JobOk id (set_updated_at now job).
Proof. by intros [? ? ? ?]. Qed.

(** Only the reservation matters for what a job holds. *)
Lemma holds_eq job job' : job_reservation job' = job_reservation job → holds job' = holds job.
Proof. unfold holds, active_reservation. by intros ->. Qed.

(** A job that may be admitted, prepared and run: before its execution, with
    its reservation granted. *)
Definition ready_to_run (job : ExecutionJob) : Prop :=
  (job_status job = JobReserved ∨ job_status job = JobAdmitted ∨ job_status job = JobPreparing) ∧
  ∃ r, job_reservation job = Some r ∧ granted r.

Definition job_terminal (job : ExecutionJob) : Prop := JobStatus.is_terminal (job_status job) = true.

#[export] Instance job_terminal_dec job : Decision (job_terminal job).
Proof. unfold job_terminal. apply _. Defined.

(** A granted reservation of a job that is not terminal, before it runs. *)
Lemma held_ready id job r :
  JobOk id job → ¬ job_terminal job → job_status job ≠ JobRunning →
  job_reservation job = Some r → res_state r = ResReserved → ready_to_run job.
Proof.
  intros Hok Ht Hrun Hr Hs. destruct (ok_reservation _ _ Hok) as (q & Hq & Hst & _).
  rewrite Hr in Hq. injection Hq as <-. unfold job_terminal, ready_to_run in *.
  destruct (job_status job); simpl in *; try done; try congruence.
  - eauto 10.
  - eauto 10.
  - destruct Hst as [Hg|?]; [eauto 10|congruence].
Qed.

(** ** The phases of a run *)

Section phases.
Context `{!Bundles, !CarriedMetadata, !Evidence, !Aead, !ReadDir} (manager : JobManager).
Context `{!CanonicalIdentity Policy, !CanonicalIdentity SemanticRequest,
          !CanonicalIdentity ApplicationMaterial, !Sha256, !CanonicalIdentity JobResult}.
Implicit Types (s : Store) (job : ExecutionJob) (p : Phase).
Let Records := Records (jm_capacity manager).

Definition may_run job : Prop := job_terminal job ∨ ready_to_run job.

Definition admitted (a : JobAdmission) : Prop := is_admitted (adm_decision a) = true.

(** A job that was left in preparation with its reservation released. *)
Definition stranded job : Prop :=
  job_status job = JobPreparing ∧ ∃ r, job_reservation job = Some r ∧ res_state r = ResReleased.

(** What the phase of a run says of its job. *)
Definition task_ok job p : Prop :=
  match p with
  | Checking | Reserving => job_status job ≠ JobRunning
  | ReadingRequest | AskingAdmission _ | PersistingDenial _ _ => may_run job
  | Reconciling _ a | PersistingAdmission _ a _ | Controlling _ a | ToPreparing _ a =>
      may_run job ∧ admitted a
  | ToRunning _ a => (job_status job = JobPreparing ∧ ready_to_run job) ∧ admitted a
  | GatheringEvidence _ a | Executing _ a _ => job_status job = JobRunning ∧ admitted a
  | PersistingResult _ => job_status job = JobRunning
  | Failing status _ => JobStatus.is_terminal status = true
  | Releasing => job_terminal job ∨ job_status job = JobPreparing
  | Finished => job_terminal job ∨ stranded job
  end.

(** The operation moves the run of the job to a phase that is right for the
    record it leaves, keeps the invariant, and does not touch a terminal job. *)
Definition Advances (m : Op (Phase * Control)) s (id : string) job : Prop :=
  ∃ p' change job', Effect m s (Ok (p', change)) (<[id := job']> (jobs s)) ∧
    Records (<[id := job']> (jobs s)) ∧ task_ok job' p' ∧ (job_terminal job → job' = job).

Lemma advances_stay m s id job p' change :
  Records (jobs s) → jobs s !! id = Some job → Effect m s (Ok (p', change)) (jobs s) →
  task_ok job p' → Advances m s id job.
Proof. intros Hm Hj He Ht. exists p', change, job. by rewrite insert_id. Qed.

Lemma advances_update m s id job job' p' change :
  Records (jobs s) → jobs s !! id = Some job → ¬ job_terminal job →
  Effect m s (Ok (p', change)) (<[id := job']> (jobs s)) → JobOk id job' →
  holds job' = holds job ∨ holds job' = ResourceRequirements.default_ →
  task_ok job' p' → Advances m s id job.
Proof.
  intros Hm Hj Hnt He Hok Hh Ht. exists p', change, job'. split_and!; try done.
  by apply (records_update _ _ id job job').
Qed.

Lemma effect_read id s : Effect (read_job id) s (found (jobs s !! id)) (jobs s).
Proof. unfold Effect. rewrite read_job_eval. split; [done|]. by apply writes_silent. Qed.

Lemma effect_read_request id s :
  Effect (read_request manager id) s (fst (read_request manager id s)) (jobs s).
Proof.
  split; [done|]. pose proof (read_request_none manager id s) as ->. by apply writes_silent.
Qed.

(** A transition to a terminal status ends the job. *)
Lemma transition_ends now id status failure s job :
  Records (jobs s) → jobs s !! id = Some job → ¬ job_terminal job →
  JobStatus.is_terminal status = true →
  let job' := transitioned now status failure job in
  Effect (transition now id status failure) s (Ok tt) (<[id := job']> (jobs s)) ∧
  JobOk id job' ∧ holds job' = ResourceRequirements.default_ ∧ job_terminal job'.
Proof.
  intros Hm Hj Hnt Hst job'. pose proof (records_ok _ _ Hm id job Hj) as Hok.
  destruct (ended_ok id now job (set_failure failure (set_status status job)))
    as (Hok' & Hh & Ht); [done..|].
  pose proof (effect_transition now id status failure s job Hj) as He.
  unfold can_transition in He. replace (JobStatus.is_terminal (job_status job)) with false in He
    by (symmetry; by apply not_true_iff_false).
  unfold valid_transition in He. rewrite Hst in He. rewrite (ok_id _ _ Hok) in He.
  unfold job', transitioned in *. rewrite Hst in *. split_and!; [done|by apply updated_ok|done|done].
Qed.

Lemma advance_failing around id s job status failure :
  Records (jobs s) → jobs s !! id = Some job → JobStatus.is_terminal status = true →
  Advances (run_phase manager around id (Failing status failure)) s id job.
Proof.
  intros Hm Hj Hst. destruct (decide (job_terminal job)) as [Ht|Ht].
  - pose proof (effect_transition (now around) id status (Some failure) s job Hj) as He.
    unfold can_transition in He. unfold job_terminal in Ht. rewrite Ht in He. simpl in He.
    destruct He as [e He].
    eapply advances_stay; [done..|by eapply effect_attempt_then|by left].
  - destruct (transition_ends (now around) id status (Some failure) s job)
      as (He & Hok & Hh & Ht'); [done..|].
    eapply advances_update; [done..|by eapply effect_attempt_then|exact Hok|by right|by left].
Qed.

Lemma advance_releasing around id s job :
  Records (jobs s) → jobs s !! id = Some job → task_ok job Releasing →
  Advances (run_phase manager around id Releasing) s id job.
Proof.
  intros Hm Hj Htask. pose proof (records_ok _ _ Hm id job Hj) as Hok.
  destruct (ok_reservation _ _ Hok) as (r & Hr & Hs & _).
  pose proof (effect_release (now around) id s job Hj) as He. rewrite (ok_id _ _ Hok) in He.
  destruct (release_lease (now around) job r Hr) as (r' & Hr' & Hl & Hrt).
  unfold release_reservation in *. rewrite Hr in *.
  destruct (ReservationState.is_terminal (res_state r)) eqn:Et; simpl in *.
  - eapply advances_stay; [done..|by eapply effect_attempt_then|].
    destruct Htask as [?|Hp]; [by left|right]. split; [done|]. exists r. split; [done|].
    rewrite Hp in Hs. simpl in Hs. destruct Hs as [[Hs _]|?]; [by rewrite Hs in Et|done].
  - assert (job_status job = JobPreparing) as Hp.
    { destruct Htask as [Ht|?]; [|done]. exfalso. unfold job_terminal in Ht.
      assert (ReservationState.is_terminal (res_state r) = true); [|congruence].
      by destruct (job_status job). }
    eapply advances_update; [done..| |by eapply effect_attempt_then| | |].
    + unfold job_terminal. by rewrite Hp.
    + apply updated_ok, (job_ok_change id job _ r (relinquish ResReleased (now around) r)); try done.
      simpl. rewrite Hp. by right.
    + right. by apply holds_default.
    + right. split; [done|]. by exists (relinquish ResReleased (now around) r).
Qed.

(** [try_reserve] keeps the invariant, and leaves the job ready when it says
    so. *)
Lemma advance_reserving around id s job :
  Records (jobs s) → jobs s !! id = Some job → task_ok job Reserving →
  Advances (run_phase manager around id Reserving) s id job.
Proof.
  intros Hm Hj Htask. simpl in Htask. pose proof (records_ok _ _ Hm id job Hj) as Hok.
  destruct (ok_reservation _ _ Hok) as (r0 & Hr0 & Hs & _).
  destruct (effect_try_reserve manager (now around) id s job Hj) as (answer & after & He & Ho).
  destruct Ho as [Ht|e Ht _|r Ht Hr _ Hst|r Ht Hr _ Hst _|r Ht Hr _ Hst _|r reasons Ht Hr _ Hst _ _
    |r Ht Hr _ Hst Hfit _ _]; try rewrite (ok_id _ _ Hok) in He;
    try (rewrite Hr in Hr0; injection Hr0 as <-).
  - by eapply advances_stay; [..|eapply effect_attempt_then|].
  - by eapply advances_stay; [..|eapply effect_attempt_then|].
  - eapply advances_stay; [done..|by eapply effect_attempt_then|]. right.
    apply (held_ready id job r); try done. unfold job_terminal. congruence.
  - eapply advances_update; [done..| |by eapply effect_attempt_then| | |done].
    + unfold job_terminal. congruence.
    + by apply (job_ok_change id job _ r (relinquish ResExpired (now around) r)).
    + right. by apply holds_default.
  - destruct (ended_ok id (now around) job (set_failure (Some ("permanent_capacity_insufficient: " +:+
      join "," (insufficient_reasons (res_resources r) (total_capacity (jm_capacity manager)))))
      (set_status JobRejected (set_wait (res_resources r) (total_capacity (jm_capacity manager))
        (insufficient_reasons (res_resources r) (total_capacity (jm_capacity manager))) job))))
      as (Hok' & Hh & Ht'); [done..|].
    eapply advances_update; [done..| |by eapply effect_attempt_then|by apply updated_ok|by right|].
    + unfold job_terminal. congruence.
    + intros Hrun. unfold reject_impossible in Hrun. simpl in Hrun. by rewrite Hrun in Ht'.
  - eapply advances_update; [done..| |by eapply effect_attempt_then| |by left|done].
    + unfold job_terminal. congruence.
    + by apply (job_ok_change id job _ r r); auto with rust.
  - set (after := capacity_snapshot _ _) in He.
    eexists ReadingRequest, KeepControl, _. split; [by eapply effect_attempt_then|].
    set (job' := set_updated_at _ _).
    set (r' := set_res_state ResReserved (Some (now around)) (res_released_at r) (Some after) r).
    assert (held s = reserved_total (jobs s)) as Hheld.
    { apply held_reserved. intros id' job0 Hj'. by apply (ok_name _ _ (records_ok _ _ Hm id' job0 Hj')). }
    assert (Resources.fits (Resources.plus (held s) (res_resources r)) (total_capacity (jm_capacity manager))) as Hfits.
    { unfold free_capacity in Hfit. rewrite Hheld in Hfit |- *.
      apply Resources.fits_available; [apply (records_capacity _ _ Hm)|done]. }
    assert (granted r') as Hg by (split; [done|]; exists after; split; [done|by apply capacity_snapshot_covers]).
    assert (JobOk id job') as Hok' by by apply (job_ok_change id job job' r r').
    split_and!.
    + apply records_grant; [done..|]. rewrite (holds_granted job' r') by done. by rewrite <-Hheld.
    + right. split; [by left|]. by exists r'.
    + unfold job_terminal. congruence.
Qed.

(** An admission that was persisted leaves the job ready. *)
Lemma admission_ok now id admission job :
  JobOk id job → ready_to_run job → JobOk id (admitted_job now admission job) ∧
  holds (admitted_job now admission job) = holds job ∧ ready_to_run (admitted_job now admission job).
Proof.
  intros Hok [Hs (r & Hr & Hg)]. unfold admitted_job, ready_to_run.
  destruct (is_admitted _); simpl.
  - split; [|split; [by apply holds_eq|eauto 10]]. by apply (job_ok_change id job _ r r); auto with rust.
  - split; [|split; [by apply holds_eq|eauto 10]]. apply (job_ok_change id job _ r r); auto with rust.
    destruct (ok_reservation _ _ Hok) as (q & Hq & ? & _). by simplify_eq.
Qed.

Lemma holds_ready job : may_run job → holds_reservation job = true → ready_to_run job.
Proof.
  unfold holds_reservation, may_run, job_terminal. intros [->|?]; [done|done].
Qed.

Lemma ready_not_terminal job : ready_to_run job → ¬ job_terminal job.
Proof. unfold job_terminal. by intros [[->|[->| ->]] _]. Qed.

(** What follows an attempt to persist an admission. *)
Lemma advance_persist around id s job stored admission (k : Result unit ProviderError → Phase) :
  Records (jobs s) → jobs s !! id = Some job → may_run job →
  (∀ r job', may_run job' → (is_ok r = true → ready_to_run job') → task_ok job' (k r)) →
  Advances (r ← attempt (persist_admission manager (now around) (nonce around) id stored admission);
            next (k r)) s id job.
Proof.
  intros Hm Hj Hrun Hk. pose proof (records_ok _ _ Hm id job Hj) as Hok.
  destruct (effect_persist_admission manager (now around) (nonce around) id stored admission s job Hj)
    as [[Hh He]|[e He]].
  - apply holds_ready in Hh; [|done]. rewrite (ok_id _ _ Hok) in He.
    destruct (admission_ok (now around) id admission job Hok Hh) as (Hok' & Hheld & Hready).
    eapply advances_update; [done..|by apply ready_not_terminal|by eapply effect_attempt_then|done|
      by left|]. apply Hk; [by right|done].
  - eapply advances_stay; [done..|by eapply effect_attempt_then|]. by apply Hk.
Qed.

(** The transition to preparation, when the job was not there already. *)
Lemma advance_preparing around id s job stored admission :
  Records (jobs s) → jobs s !! id = Some job → task_ok job (ToPreparing stored admission) →
  Advances (run_phase manager around id (ToPreparing stored admission)) s id job.
Proof.
  intros Hm Hj [Hrun Ha]. pose proof (records_ok _ _ Hm id job Hj) as Hok.
  pose proof (effect_transition (now around) id JobPreparing None s job Hj) as He.
  destruct (can_transition (job_status job) JobPreparing) eqn:Hc.
  - rewrite (ok_id _ _ Hok) in He.
    assert (ready_to_run job) as Hready.
    { destruct Hrun as [Ht|?]; [|done]. unfold job_terminal in Ht. unfold can_transition in Hc.
      by rewrite Ht in Hc. }
    destruct Hready as [Hs (r & Hr & Hg)].
    eapply advances_update; [done..| |by eapply effect_attempt_then| |left; by apply holds_eq|].
    + apply ready_not_terminal. split; eauto.
    + apply (job_ok_change id job _ r r); auto with rust. by left.
    + split; [|done]. split; [done|]. split; [by auto|by exists r].
  - destruct He as [e He]. eapply advances_stay; [done..|by eapply effect_attempt_then|].
    destruct Hrun as [?|[[Hs|[Hs|Hs]] _]]; [by left|..|by right]; rewrite Hs in Hc; done.
Qed.

Lemma advance_running around id s job stored admission :
  Records (jobs s) → jobs s !! id = Some job → task_ok job (ToRunning stored admission) →
  Advances (run_phase manager around id (ToRunning stored admission)) s id job.
Proof.
  intros Hm Hj [[Hp Hready] Ha]. pose proof (records_ok _ _ Hm id job Hj) as Hok.
  pose proof (effect_transition (now around) id JobRunning None s job Hj) as He.
  rewrite Hp, (ok_id _ _ Hok) in He. simpl in He. destruct Hready as [Hs (r & Hr & Hg)].
  eapply advances_update; [done..| |by eapply effect_attempt_then| |left; by apply holds_eq|done].
  - apply ready_not_terminal. split; eauto.
  - by apply (job_ok_change id job _ r r); auto with rust.
Qed.

Lemma advance_result around id s job result :
  Records (jobs s) → jobs s !! id = Some job → job_status job = JobRunning →
  Advances (run_phase manager around id (PersistingResult result)) s id job.
Proof.
  intros Hm Hj Hrun. pose proof (records_ok _ _ Hm id job Hj) as Hok.
  destruct (effect_persist_result (now around) id (terminal_status result) result s job Hj)
    as [(receipt & _ & _ & _ & He)|[e He]].
  - rewrite (ok_id _ _ Hok) in He. unfold completed in He.
    match type of He with Effect _ _ _ (<[_ := set_updated_at _ (fst (release_reservation _ ?j))]> _) =>
      destruct (ended_ok id (now around) job j) as (Hok' & Hh & Ht) end.
    + done.
    + by case_match.
    + by case_match.
    + by case_match.
    + case_match; apply terminal_status_terminal.
    + eapply advances_update; [done..| |by eapply effect_attempt_then|by apply updated_ok|by right|by left].
      unfold job_terminal. by rewrite Hrun.
  - eapply advances_stay; [done..|by eapply effect_attempt_then|done].
Qed.

(** A phase that writes nothing. *)
Lemma advances_pure m s id job p' change :
  Records (jobs s) → jobs s !! id = Some job → m s = (Ok (p', change), []) → task_ok job p' →
  Advances m s id job.
Proof.
  intros Hm Hj He Ht. eapply advances_stay; [done..| |done]. unfold Effect. rewrite He.
  split; [done|]. by apply writes_silent.
Qed.

Lemma attempt_read_eval {A} id s job (k : Result ExecutionJob ProviderError → Op A) :
  jobs s !! id = Some job → (attempt (read_job id) ≫= k) s = k (Ok job) s.
Proof.
  intros Hj. apply bind_pure_eval. unfold attempt. by rewrite read_job_eval, Hj.
Qed.

Lemma attempt_request_eval {A} id s (k : Result StoredRequest ProviderError → Op A) :
  (attempt (read_request manager id) ≫= k) s = k (fst (read_request manager id s)) s.
Proof.
  apply bind_pure_eval. unfold attempt. pose proof (read_request_none manager id s).
  destruct (read_request manager id s) as [r ws]. simpl in *. by subst.
Qed.

Lemma advance_reading around id s job :
  Records (jobs s) → jobs s !! id = Some job → may_run job →
  Advances (run_phase manager around id ReadingRequest) s id job.
Proof.
  intros Hm Hj Hrun. destruct (fst (read_request manager id s)) as [stored|e] eqn:Er.
  - destruct (sr_admission stored) as [a|] eqn:Ea; [destruct (is_admitted (adm_decision a)) eqn:Had|].
    + apply (advances_pure _ _ _ _ (Reconciling stored a) KeepControl); [done..| |done].
      simpl. by rewrite attempt_request_eval, Er, Ea, Had.
    + apply (advances_pure _ _ _ _ (AskingAdmission stored) KeepControl); [done..| |done].
      simpl. by rewrite attempt_request_eval, Er, Ea, Had.
    + apply (advances_pure _ _ _ _ (AskingAdmission stored) KeepControl); [done..| |done].
      simpl. by rewrite attempt_request_eval, Er, Ea.
  - apply (advances_pure _ _ _ _ (rejected e) KeepControl); [done..| |done].
    simpl. by rewrite attempt_request_eval, Er.
Qed.

Lemma advance_asking around id s job stored :
  Records (jobs s) → jobs s !! id = Some job → may_run job →
  Advances (run_phase manager around id (AskingAdmission stored)) s id job.
Proof.
  intros Hm Hj Hrun. simpl.
  destruct (admit_answer around) as [a|e]; [destruct (is_admitted (adm_decision a)) eqn:Had|].
  - by eapply advances_pure.
  - by eapply advances_pure.
  - by eapply advances_pure.
Qed.

Lemma advance_reconciling around id s job stored admission :
  Records (jobs s) → jobs s !! id = Some job → may_run job ∧ admitted admission →
  Advances (run_phase manager around id (Reconciling stored admission)) s id job.
Proof.
  intros Hm Hj Htask. destruct (job_admission job) as [a|] eqn:Ea.
  - apply (advances_pure _ _ _ _ (Controlling stored admission) KeepControl); [done..| |done].
    simpl. rewrite (attempt_read_eval id s job) by done. by rewrite Ea.
  - apply (advances_pure _ _ _ _
      (PersistingAdmission stored admission "admission reconciliation failed") KeepControl);
      [done..| |done].
    simpl. rewrite (attempt_read_eval id s job) by done. by rewrite Ea.
Qed.

Lemma advance_checking around id s job :
  Records (jobs s) → jobs s !! id = Some job → job_status job ≠ JobRunning →
  Advances (run_phase manager around id Checking) s id job.
Proof.
  intros Hm Hj Hrun. destruct (JobStatus.is_terminal (job_status job)) eqn:Ht.
  - apply (advances_pure _ _ _ _ Releasing KeepControl); [done..| |by left].
    simpl. rewrite (attempt_read_eval id s job) by done. by rewrite Ht.
  - apply (advances_pure _ _ _ _ Reserving KeepControl); [done..| |done].
    simpl. rewrite (attempt_read_eval id s job) by done. by rewrite Ht.
Qed.

(** A running job has the snapshot its receipt needs. *)
Lemma running_evidence id job :
  JobOk id job → job_status job = JobRunning → is_Some (receipt_evidence job).
Proof.
  intros Hok Hrun. destruct (ok_reservation _ _ Hok) as (r & Hr & Hs & _). rewrite Hrun in Hs.
  destruct Hs as [_ (snapshot & Hsn & _)]. unfold receipt_evidence. rewrite Hr. simpl. by rewrite Hsn.
Qed.

Lemma advance_evidence around id s job stored admission :
  Records (jobs s) → jobs s !! id = Some job → job_status job = JobRunning ∧ admitted admission →
  Advances (run_phase manager around id (GatheringEvidence stored admission)) s id job.
Proof.
  intros Hm Hj [Hrun Ha].
  destruct (running_evidence id job) as [evidence Hev]; [by apply (records_ok _ _ Hm)|done|].
  apply (advances_pure _ _ _ _ (Executing stored admission evidence) KeepControl); [done..| |done].
  simpl. rewrite (attempt_read_eval id s job) by done. by rewrite Hev.
Qed.

(** Every phase advances. *)
Lemma run_phase_advances around id s job p :
  Records (jobs s) → jobs s !! id = Some job → task_ok job p →
  Advances (run_phase manager around id p) s id job.
Proof.
  intros Hm Hj Htask.
  destruct p as [| | |stored admission|stored|stored admission otherwise|stored admission
    |stored admission|stored admission|stored admission|stored admission|stored admission evidence
    |result|status failure| |].
  - by apply advance_checking.
  - by apply advance_reserving.
  - by apply advance_reading.
  - by apply advance_reconciling.
  - by apply advance_asking.
  - destruct Htask as [Hrun Ha]. apply (advance_persist around id s job stored admission
      (λ r, if is_ok r then Controlling (with_admission admission stored) admission
            else Failing JobRejected otherwise)); [done..|].
    intros [[]|e] job' Hrun' Hready; [|done]. split; [by right; apply Hready|done].
  - by apply (advance_persist around id s job stored admission
      (λ _, Failing JobRejected (denial_message admission))).
  - simpl. destruct (log_directory around); by eapply advances_pure.
  - by apply advance_preparing.
  - by apply advance_running.
  - by apply advance_evidence.
  - destruct Htask as [Hrun Ha]. simpl.
    destruct (execute_answer around) as [result|e]; [destruct (bind_receipt _ _ _)|];
      by eapply advances_pure.
  - by apply advance_result.
  - by apply advance_failing.
  - by apply advance_releasing.
  - by eapply advances_pure.
Qed.
End phases.

(** ** The other operations *)

Section others.
Context `{!Bundles, !CarriedMetadata, !Evidence, !Aead, !ReadDir} (manager : JobManager).
Context `{!CanonicalIdentity Policy, !CanonicalIdentity SemanticRequest,
          !CanonicalIdentity ApplicationMaterial, !Sha256, !CanonicalIdentity JobResult}.
Implicit Types (s : Store) (job : ExecutionJob) (p : Phase).
Let Records := Records (jm_capacity manager).

(** What a phase says of its job depends on the status and the reservation. *)
Lemma task_ok_same job job' p :
  job_status job' = job_status job → job_reservation job' = job_reservation job →
  task_ok job p → task_ok job' p.
Proof.
  intros Hs Hr. unfold task_ok, may_run, ready_to_run, stranded, job_terminal. by rewrite Hs, Hr.
Qed.

(** A job that is cancelled before its execution ends under its run. *)
Lemma task_ok_cancelled job job' p :
  before_execution (job_status job) = true → job_status job' = JobCancelled →
  task_ok job p → task_ok job' p.
Proof.
  intros Hb Hc. assert (job_terminal job') as Ht by (unfold job_terminal; by rewrite Hc).
  destruct p; simpl; try done; try (by rewrite Hc); try (by left); try (by intros [_ ?]; split; [left|]).
  - intros [[Hp _] _]. by rewrite Hp in Hb.
  - intros [Hp _]. by rewrite Hp in Hb.
  - intros [Hp _]. by rewrite Hp in Hb.
  - intros Hp. by rewrite Hp in Hb.
Qed.

Lemma cancelled_ok now id control job :
  JobOk id job → ¬ job_terminal job →
  let job' := cancelled now control job in
  JobOk id job' ∧ (holds job' = holds job ∨ holds job' = ResourceRequirements.default_) ∧
  (∀ p, task_ok job p → task_ok job' p).
Proof.
  intros Hok Hnt job'. unfold job', cancelled, request_cancel.
  destruct (before_execution (job_status job)) eqn:Hb.
  - rewrite bool_decide_eq_true_2 by done.
    match goal with |- context [release_reservation now ?j] =>
      destruct (ended_ok id now job j) as (Hok' & Hh & Ht); [done..|] end.
    split_and!; [done|by right|]. intros p. apply task_ok_cancelled; [done|].
    by rewrite release_status.
  - simpl. rewrite bool_decide_eq_false_2.
    2: { intros Hc. apply Hnt. unfold job_terminal. by rewrite Hc. }
    destruct (ok_reservation _ _ Hok) as (r & Hr & Hs & _). split_and!.
    + by apply (job_ok_change id job _ r r); auto with rust.
    + left. by apply holds_eq.
    + intros p. by apply task_ok_same.
Qed.

Lemma accepted_job_ok now fresh a bundle verification dependency :
  well_formed fresh a = true →
  JobOk (accepted_id fresh a) (accepted_job manager now fresh a bundle verification dependency) ∧
  holds (accepted_job manager now fresh a bundle verification dependency) =
    ResourceRequirements.default_.
Proof.
  unfold well_formed. intros [Hid Hres]%andb_true_iff. split; [|by apply holds_default].
  split; [done|done| |].
  - unfold reservation_invalid; simpl. rewrite Hres; simpl. by rewrite !String.eqb_refl.
  - eexists. by split.
Qed.

Lemma interrupted_same result job :
  job_reservation (interrupted result job) = job_reservation job ∧
  job_id (interrupted result job) = job_id job ∧
  job_provider_id (interrupted result job) = job_provider_id job ∧ job_terminal (interrupted result job).
Proof.
  unfold interrupted. destruct result as [r|]; [|done]. case_match eqn:Hc; [|done].
  apply andb_true_iff in Hc as [Hc _]. apply bool_decide_eq_true in Hc. split_and!; try done.
  unfold job_terminal; simpl. rewrite Hc. apply terminal_status_terminal.
Qed.

(** What recovery does with a job: it runs again, exactly when it is not
    terminal afterwards; an interrupted one ends. *)
Lemma settle_job_ok now id result s job :
  Records (jobs s) → jobs s !! id = Some job →
  ∃ again job', Effect (settle_job now id result job) s (Ok again) (<[id := job']> (jobs s)) ∧
    Records (<[id := job']> (jobs s)) ∧ job_status job' ≠ JobRunning ∧
    (again = true ↔ ¬ job_terminal job') ∧ (job_terminal job → job' = job).
Proof.
  intros Hm Hj. pose proof (records_ok _ _ Hm id job Hj) as Hok.
  destruct (ok_reservation _ _ Hok) as (r & Hr & Hs & _).
  unfold settle_job. rewrite (ok_binding _ _ Hok).
  destruct (decide (job_status job = JobRunning)) as [Hrun|Hrun].
  - rewrite Hrun. destruct (interrupted_same result job) as (Hi1 & Hi2 & Hi3 & Hi4).
    destruct (ended_ok id now job (interrupted result job)) as (Hok' & Hh & Ht); [done..|].
    pose proof (ok_id _ _ Hok') as Hid.
    destruct (release_reservation now _) as [job' released]; simpl in *.
    exists false, (set_updated_at now job'). split_and!.
    + rewrite <-Hid. apply effect_commit_ret.
    + apply (records_update _ _ id job); [done..|by apply updated_ok|by right].
    + intros Hx. simpl in Hx. by rewrite Hx in Ht.
    + split; [done|]. by intros [].
    + unfold job_terminal. by rewrite Hrun.
  - destruct (decide (job_terminal job)) as [Ht|Ht].
    + exists false, job. rewrite insert_id by done. unfold release_reservation. rewrite Hr.
      assert (ReservationState.is_terminal (res_state r) = true) as ->.
      { unfold job_terminal in Ht. by destruct (job_status job). }
      split_and!; [|done..]. unfold job_terminal in Ht.
      destruct (job_status job); try done; by eapply effect_bind_pure; [|apply effect_ret].
    + exists true, job. rewrite insert_id by done. split_and!; try done.
      unfold job_terminal in Ht. destruct (job_status job); try done; apply effect_ret.
Qed.

Lemma recover_job_ok now fresh id s :
  Records (jobs s) →
  ∃ again after, Effect (recover_job now fresh id) s (Ok again) after ∧ Records after ∧
    (∀ i, i ≠ id → after !! i = jobs s !! i) ∧
    match jobs s !! id with
    | None => again = false ∧ after !! id = None
    | Some job => ∃ job', after !! id = Some job' ∧ job_status job' ≠ JobRunning ∧
        (again = true ↔ ¬ job_terminal job') ∧ (job_terminal job → job' = job)
    end.
Proof.
  intros Hm. unfold recover_job.
  destruct (jobs s !! id) as [job|] eqn:Hj; pose proof Hj as Hat; rewrite lookup_jobs in Hat.
  - destruct (settle_job_ok now id (s !! id ≫= dir_result) s job Hm Hj)
      as (again & job' & He & Hm' & Hrun & Hag & Hter).
    destruct (ok_reservation _ _ (records_ok _ _ Hm id job Hj)) as (r & Hr & _).
    exists again, (<[id := job']> (jobs s)). split_and!; [|done| |].
    + eapply effect_bind_pure; [done|]. rewrite Hat.
      by rewrite bool_decide_eq_false_2 by (by rewrite Hr).
    + intros i Hne. by rewrite lookup_insert_ne.
    + exists job'. by rewrite lookup_insert_eq.
  - exists false, (jobs s). split_and!; try done.
    eapply effect_bind_pure; [done|]. rewrite Hat. apply effect_ret.
Qed.
End others.

(** ** The system *)

Section system.
Context `{!Bundles, !CarriedMetadata, !Evidence, !Aead, !ReadDir} (manager : JobManager).
Context `{!CanonicalIdentity Policy, !CanonicalIdentity SemanticRequest,
          !CanonicalIdentity ApplicationMaterial, !Sha256, !CanonicalIdentity JobResult}.
Implicit Types (s : Store) (job : ExecutionJob) (p : Phase) (m : gmap string ExecutionJob).
Let Records := Records (jm_capacity manager).

(** Records that keep the invariant and every terminal job of [m]. *)
Definition Keeps m m' : Prop :=
  Records m' ∧ ∀ id job, m !! id = Some job → job_terminal job → m' !! id = Some job.

Lemma keeps_refl m : Records m → Keeps m m.
Proof. by split. Qed.

Lemma keeps_trans m m' m'' : Keeps m m' → Keeps m' m'' → Keeps m m''.
Proof. intros [_ Ht] [? Ht']. split; eauto. Qed.

Lemma keeps_insert m id job job' :
  m !! id = Some job → Records (<[id := job']> m) → (job_terminal job → job' = job) →
  Keeps m (<[id := job']> m).
Proof.
  intros Hj Hm Ht. split; [done|]. intros i job0 Hi Hti. rewrite lookup_insert_Some.
  destruct (decide (id = i)) as [->|]; [|by right]. left. split; [done|].
  rewrite Hj in Hi. injection Hi as ->. by apply Ht.
Qed.

(** Every crash point of the writes keeps them. *)
Definition Safe s (ws : list Write) : Prop :=
  ∀ k, Keeps (jobs s) (jobs (apply_writes s (take k ws))).

Lemma writes_safe s ws m' : Records (jobs s) → Writes (jobs s) ws m' → Keeps (jobs s) m' → Safe s ws.
Proof.
  intros Hm [_ Hk] Hm' k. rewrite jobs_apply_writes.
  specialize (Hk k). rewrite !elem_of_cons in Hk. destruct Hk as [->|[->|Hn]];
    [by apply keeps_refl|done|by apply not_elem_of_nil in Hn].
Qed.

Lemma safe_take s ws n : Safe s ws → Safe s (take n ws).
Proof. intros Hs k. rewrite take_take. apply Hs. Qed.

Lemma safe_app s ws ws' : Safe s ws → Safe (apply_writes s ws) ws' → Safe s (ws ++ ws').
Proof.
  intros Hs Hs' k. rewrite take_app. unfold apply_writes. rewrite foldl_app. fold (apply_writes s).
  destruct (decide (k ≤ length ws)) as [Hk|Hk].
  - replace (k - length ws) with 0 by lia. rewrite take_0. apply Hs.
  - rewrite (take_ge ws) by lia. eapply keeps_trans; [|apply Hs'].
    specialize (Hs (length ws)). by rewrite firstn_all in Hs.
Qed.

(** Recovery: every crash point is safe, nothing is left running, and the jobs
    that run again are those that have not ended. *)
Lemma recover_all_ok now fresh ids s :
  NoDup ids → Records (jobs s) →
  ∃ again, fst (recover_all now fresh ids s) = Ok again ∧
    let ws := snd (recover_all now fresh ids s) in
    let m' := jobs (apply_writes s ws) in
    Safe s ws ∧ (∀ id, id ∉ ids → m' !! id = jobs s !! id) ∧
    (∀ id job', id ∈ ids → m' !! id = Some job' →
       job_status job' ≠ JobRunning ∧ (id ∈ again ↔ ¬ job_terminal job')) ∧
    (∀ id, id ∈ again → id ∈ ids ∧ is_Some (m' !! id)).
Proof.
  intros Hnd. revert s. induction Hnd as [|id ids Hid Hnd IH]; intros s Hm.
  { exists []. split; [done|]. simpl. split_and!; [|done|set_solver|set_solver].
    intros k. rewrite take_nil. by apply keeps_refl. }
  destruct (recover_job_ok manager now (fresh id) id s Hm) as (a & after & [Hr Hw] & Hm' & Hother & Hjob).
  pose proof Hw as [Hafter _]. rewrite <-jobs_apply_writes in Hafter.
  assert (Keeps (jobs s) after) as Hkeep.
  { split; [done|]. intros i job Hi Ht. destruct (decide (i = id)) as [->|]; [|by rewrite Hother].
    rewrite Hi in Hjob. destruct Hjob as (job' & ? & _ & _ & Heq). by rewrite Heq in *. }
  pose proof (writes_safe _ _ _ Hm Hw Hkeep) as Hsafe.
  destruct (recover_job now (fresh id) id s) as [r ws] eqn:Ej. simpl in *. subst r.
  destruct (IH (apply_writes s ws)) as (rest & Hrest & Hsafe' & Hout & Hin & Hdom).
  { by rewrite Hafter. }
  unfold mbind, op_bind. rewrite Ej.
  destruct (recover_all now fresh ids (apply_writes s ws)) as [r ws'] eqn:Ea. simpl in *. subst r.
  simpl. rewrite app_nil_r. unfold apply_writes at 1 2 3. rewrite !foldl_app. fold (apply_writes s ws).
  fold (apply_writes (apply_writes s ws) ws').
  rewrite Hafter in Hout. exists (if a then id :: rest else rest). split_and!.
  - by destruct a.
  - by apply safe_app.
  - intros i [Hi Hi']%not_elem_of_cons. rewrite Hout by done. by apply Hother.
  - intros i job' Hi Hj'. apply elem_of_cons in Hi as [->|Hi].
    + rewrite Hout in Hj' by done. destruct (jobs s !! id) as [job|].
      * destruct Hjob as (job0 & Hj0 & Hrun & Ha & _). rewrite Hj0 in Hj'. injection Hj' as <-.
        split; [done|]. rewrite <-Ha. destruct a; [set_solver|].
        split; [|done]. intros Hr. by apply Hdom in Hr as [? _].
      * destruct Hjob as [_ Hn]. congruence.
    + destruct (Hin i job' Hi Hj') as [Hrun Ha]. split; [done|]. rewrite <-Ha.
      destruct a; set_solver.
  - intros i Hi. assert (i = id ∧ a = true ∨ i ∈ rest) as [[-> ->]|Hr] by (destruct a; set_solver).
    + split; [set_solver|]. rewrite Hout by done. destruct (jobs s !! id) as [job|].
      * destruct Hjob as (job0 & Hj0 & _). by rewrite Hj0.
      * by destruct Hjob.
    + apply Hdom in Hr as [? ?]. set_solver.
Qed.

(** The invariant of the system. *)
Record SystemOk (sys : System) : Prop := {
  so_records : Records (jobs (store sys));
  so_tasks id p : tasks sys !! id = Some p → ∃ job, jobs (store sys) !! id = Some job ∧ task_ok job p;
  so_live id job : up sys = true → jobs (store sys) !! id = Some job → ¬ job_terminal job →
    is_Some (tasks sys !! id);
}.

Lemma records_ids s id job : Records (jobs s) → jobs s !! id = Some job → job_id job = id.
Proof. intros Hm Hj. apply (ok_id _ _ (records_ok _ _ Hm id job Hj)). Qed.

Lemma safe_nil s : Records (jobs s) → Safe s [].
Proof. intros Hm k. rewrite take_nil. by apply keeps_refl. Qed.

Lemma accept_keeps now fresh a s bundle verification dependency :
  Records (jobs s) → well_formed fresh a = true → s !! accepted_id fresh a = None →
  Keeps (jobs s)
    (<[accepted_id fresh a := accepted_job manager now fresh a bundle verification dependency]>
       (jobs s)).
Proof.
  intros Hm Hwf Hnone.
  destruct (accepted_job_ok manager now fresh a bundle verification dependency Hwf) as [Hok Hh].
  split.
  - apply records_grant; [done..|]. rewrite Hh, (right_id_L _ Resources.plus).
    apply (records_capacity _ _ Hm).
  - intros i job Hi _. rewrite lookup_insert_ne; [done|]. intros <-.
    rewrite lookup_jobs in Hi. unfold job_at in Hi. by rewrite Hnone in Hi.
Qed.

Lemma accept_safe now fresh a s :
  Records (jobs s) → well_formed fresh a = true → Safe s (snd (accept manager now fresh a s)).
Proof.
  intros Hm Hwf.
  destruct (effect_accept manager now fresh a s) as [[-> _]|(b & v & d & sub & Hnone & _ & _ & [_ Hw])].
  - intros id job. by apply records_ids.
  - by apply safe_nil.
  - eapply writes_safe; [done|exact Hw|]. by apply accept_keeps.
Qed.

Lemma cancel_safe now id control s :
  Records (jobs s) → Safe s (snd (cancel_locked now id control s)).
Proof.
  intros Hm. destruct (jobs s !! id) as [job|] eqn:Hj.
  - pose proof (effect_cancel now id control s job Hj) as He.
    destruct (JobStatus.is_terminal (job_status job)) eqn:Ht.
    + destruct He as [_ Hw]. eapply writes_safe; [done|exact Hw|by apply keeps_refl].
    + destruct He as [_ Hw]. pose proof (records_ok _ _ Hm id job Hj) as Hok.
      rewrite (ok_id _ _ Hok) in Hw. eapply writes_safe; [done|exact Hw|].
      assert (¬ job_terminal job) as Hnt by (unfold job_terminal; congruence).
      destruct (cancelled_ok now id control job Hok Hnt) as (Hok' & Hh & _).
      eapply keeps_insert; [done| |done]. by apply (records_update _ _ id job).
  - assert (snd (cancel_locked now id control s) = []) as ->; [|by apply safe_nil].
    unfold cancel_locked, mbind, op_bind. by rewrite read_job_eval, Hj.
Qed.

Lemma quiet_safe {A} (m : Op A) s : Quiet m → Records (jobs s) → Safe s (snd (m s)).
Proof.
  intros Hq Hm. eapply writes_safe; [done|apply (quiet_effect m s Hq)|by apply keeps_refl].
Qed.

Lemma job_dirs_NoDup s : NoDup (job_dirs s).
Proof. apply NoDup_filter. rewrite read_dir_names. apply NoDup_fst_map_to_list. Qed.

Lemma job_dirs_jobs s id job : Records (jobs s) → jobs s !! id = Some job → id ∈ job_dirs s.
Proof.
  intros Hm Hj. apply list_elem_of_filter. split; [apply (ok_name _ _ (records_ok _ _ Hm id job Hj))|].
  rewrite read_dir_names. rewrite lookup_jobs in Hj. unfold job_at in Hj.
  destruct (s !! id) as [d|] eqn:Hd; [|done]. apply list_elem_of_fmap. exists (id, d).
  by rewrite elem_of_map_to_list.
Qed.

(** Every action is safe at every crash point. *)
Lemma action_safe action sys ws :
  SystemOk sys → action_writes manager action sys = Some ws → Safe (store sys) ws.
Proof.
  intros Hok. pose proof (so_records _ Hok) as Hm. revert ws.
  induction action as [id around|now fresh a|now id control|now id|now fresh|action IH kept];
    simpl; intros ws.
  - destruct (up sys); [|done]. rewrite fmap_Some. intros (p & Hp & ->).
    destruct (so_tasks _ Hok id p Hp) as (job & Hj & Htask).
    destruct (run_phase_advances manager around id _ job p Hm Hj Htask)
      as (p' & change & job' & [_ Hw] & Hm' & _ & Ht).
    eapply writes_safe; [done|exact Hw|]. by eapply keeps_insert.
  - destruct (up sys && well_formed fresh a) eqn:Hg; [|done]. intros [= <-].
    apply andb_true_iff in Hg as [_ Hwf]. by apply accept_safe.
  - destruct (up sys); [|done]. intros [= <-]. by apply cancel_safe.
  - destruct (up sys); [|done]. intros [= <-]. apply quiet_safe; [apply quiet_expire|done].
  - destruct (up sys); [done|]. intros [= <-]. unfold recover.
    unfold mbind, op_bind, get_store; simpl.
    destruct (recover_all_ok now fresh (job_dirs (store sys)) (store sys) (job_dirs_NoDup _) Hm)
      as (again & _ & Hs & _).
    by destruct (recover_all now fresh _ _) as [r ws].
  - rewrite fmap_Some. intros (ws' & Hws' & ->). by apply safe_take, IH.
Qed.

(** The records after an operation with an effect. *)
Lemma effect_jobs {A} (m : Op A) s r after :
  Effect m s r after → jobs (apply_writes s (snd (m s))) = after.
Proof. intros [_ [Hf _]]. by rewrite jobs_apply_writes. Qed.

(** A change of one job under its run. *)
Lemma system_update sys s' id job job' p' running :
  SystemOk sys → up sys = true → jobs (store sys) !! id = Some job →
  jobs s' = <[id := job']> (jobs (store sys)) → Records (jobs s') → task_ok job' p' →
  SystemOk {| up := true; store := s'; tasks := <[id := p']> (tasks sys); active := running |}.
Proof.
  intros Hok Hup Hj Hs' Hm' Ht. split; simpl; [done| |].
  - intros i p Hp. rewrite Hs'. apply lookup_insert_Some in Hp as [[<- <-]|[Hne Hp]].
    + rewrite lookup_insert_eq. by eexists.
    + rewrite lookup_insert_ne by done. by apply (so_tasks _ Hok).
  - intros i job0 _. rewrite Hs', lookup_insert_Some. intros [[<- <-]|[Hne Hj0]] Hnt.
    + rewrite lookup_insert_eq. eauto.
    + rewrite lookup_insert_ne by done. by apply (so_live _ Hok i job0).
Qed.

(** A change of one job beside its run, which stays right for it. *)
Lemma system_beside sys s' id job job' :
  SystemOk sys → up sys = true → jobs (store sys) !! id = Some job →
  jobs s' = <[id := job']> (jobs (store sys)) → Records (jobs s') →
  (∀ p, task_ok job p → task_ok job' p) → ¬ job_terminal job →
  SystemOk {| up := true; store := s'; tasks := tasks sys; active := active sys |}.
Proof.
  intros Hok Hup Hj Hs' Hm' Ht Hnt. split; simpl; [done| |].
  - intros i p Hp. rewrite Hs'. destruct (so_tasks _ Hok i p Hp) as (job0 & Hj0 & Ht0).
    destruct (decide (id = i)) as [<-|Hne]; [|by rewrite lookup_insert_ne; eauto].
    rewrite lookup_insert_eq. rewrite Hj in Hj0. injection Hj0 as <-. eauto.
  - intros i job0 _. rewrite Hs', lookup_insert_Some.
    intros [[<- <-]|[Hne Hj0]] Hnt0; by eapply (so_live _ Hok).
Qed.

(** No record changes. *)
Lemma system_same sys s' :
  SystemOk sys → up sys = true → jobs s' = jobs (store sys) →
  SystemOk {| up := true; store := s'; tasks := tasks sys; active := active sys |}.
Proof.
  intros Hok Hup Hs'. split; simpl; rewrite Hs'.
  - apply (so_records _ Hok).
  - apply (so_tasks _ Hok).
  - intros i job0 _. by apply (so_live _ Hok).
Qed.

Lemma perform_run id around sys sys' :
  SystemOk sys → perform manager (RunPhase id around) sys = Some sys' → SystemOk sys'.
Proof.
  intros Hok. unfold perform. rewrite bind_Some. intros (ws & Hws & Hp). simpl in Hws.
  destruct (up sys) eqn:Hup; [|done]. apply bind_Some in Hp as (p & Hp & Hr).
  rewrite Hp in Hws. injection Hws as <-.
  destruct (so_tasks _ Hok id p Hp) as (job & Hj & Htask).
  destruct (run_phase_advances manager around id _ job p (so_records _ Hok) Hj Htask)
    as (p' & change & job' & He & Hm' & Ht' & _).
  pose proof (effect_jobs _ _ _ _ He) as Hjobs. destruct He as [Hfst _]. rewrite Hfst in Hr.
  injection Hr as <-. eapply system_update; [done..|by rewrite Hjobs|done].
Qed.

Lemma perform_accept now fresh a sys sys' :
  SystemOk sys → perform manager (AcceptJob now fresh a) sys = Some sys' → SystemOk sys'.
Proof.
  intros Hok. pose proof (so_records _ Hok) as Hm. unfold perform. rewrite bind_Some.
  intros (ws & Hws & [= <-]). simpl in Hws. destruct (up sys) eqn:Hup; [|done]. simpl in Hws.
  destruct (well_formed fresh a) eqn:Hwf; [|done]. injection Hws as <-.
  destruct (effect_accept manager now fresh a (store sys))
    as [[Hws Hold]|(b & v & d & sub & Hnone & Hid & _ & He)].
  - intros id job. by apply records_ids.
  - rewrite Hws. replace (start_accepted _ sys) with (tasks sys); [by apply system_same|].
    unfold start_accepted. destruct (fst _) as [sub|e]; [|done].
    rewrite bool_decide_eq_false_2; [done|]. intros Hn. specialize (Hold sub eq_refl).
    unfold accepted_before in Hold. rewrite Hn in Hold. by destruct Hold.
  - pose proof (effect_jobs _ _ _ _ He) as Hjobs. destruct He as [Hr _]. rewrite Hr.
    unfold start_accepted. rewrite Hid, bool_decide_eq_true_2 by done.
    destruct (accept_keeps now fresh a _ b v d Hm Hwf Hnone) as [Hm' _].
    fold (accepted_id fresh a) in Hjobs |- *. split; simpl.
    + by rewrite Hjobs.
    + intros i p Hp. rewrite Hjobs. apply lookup_insert_Some in Hp as [[<- <-]|[Hne Hp]].
      * rewrite lookup_insert_eq. by eexists.
      * rewrite lookup_insert_ne by done. by apply (so_tasks _ Hok).
    + intros i job0 _. rewrite Hjobs, lookup_insert_Some. intros [[<- <-]|[Hne Hj0]] Hnt.
      * rewrite lookup_insert_eq. eauto.
      * rewrite lookup_insert_ne by done. by apply (so_live _ Hok i job0).
Qed.

Lemma perform_cancel now id control sys sys' :
  SystemOk sys → perform manager (CancelJob now id control) sys = Some sys' → SystemOk sys'.
Proof.
  intros Hok. pose proof (so_records _ Hok) as Hm. unfold perform. rewrite bind_Some.
  intros (ws & Hws & [= <-]). simpl in Hws. destruct (up sys) eqn:Hup; [|done]. injection Hws as <-.
  destruct (jobs (store sys) !! id) as [job|] eqn:Hj.
  - pose proof (effect_cancel now id control (store sys) job Hj) as He.
    pose proof (records_ok _ _ Hm id job Hj) as Hjob.
    destruct (JobStatus.is_terminal (job_status job)) eqn:Ht.
    + apply effect_jobs in He. by apply system_same.
    + pose proof (cancel_safe now id control (store sys) Hm) as Hs.
      specialize (Hs (length (snd (cancel_locked now id control (store sys))))).
      rewrite firstn_all in Hs. apply effect_jobs in He. rewrite (ok_id _ _ Hjob) in He.
      assert (¬ job_terminal job) as Hnt by (unfold job_terminal; congruence).
      destruct (cancelled_ok now id control job Hjob Hnt) as (_ & _ & Htask).
      by eapply system_beside; [..|apply Hs| |].
  - apply system_same; [done..|].
    assert (snd (cancel_locked now id control (store sys)) = []) as ->; [|done].
    unfold cancel_locked, mbind, op_bind. by rewrite read_job_eval, Hj.
Qed.

Lemma lookup_started (again : list string) id :
  (list_to_map ((λ id, (id, Checking)) <$> again) : gmap string Phase) !! id =
  if decide (id ∈ again) then Some Checking else None.
Proof.
  induction again as [|i again IH]; [done|]. rewrite fmap_cons. simpl.
  destruct (decide (i = id)) as [->|Hne].
  - rewrite lookup_insert_eq, decide_True by set_solver. done.
  - rewrite lookup_insert_ne by done. rewrite IH. apply decide_ext. set_solver.
Qed.

Lemma perform_recover now fresh sys sys' :
  SystemOk sys → perform manager (RecoverJobs now fresh) sys = Some sys' →
  SystemOk sys' ∧ up sys' = true ∧
  ∀ id job, jobs (store sys') !! id = Some job → job_status job ≠ JobRunning ∧
    tasks sys' !! id = if JobStatus.is_terminal (job_status job) then None else Some Checking.
Proof.
  intros Hok. pose proof (so_records _ Hok) as Hm. unfold perform. rewrite bind_Some.
  intros (ws & Hws & Hp). simpl in Hws. destruct (up sys) eqn:Hup; [done|]. injection Hws as <-.
  destruct (recover_all_ok now fresh (job_dirs (store sys)) (store sys) (job_dirs_NoDup _) Hm)
    as (again & Hr & Hs & Hout & Hin & Hdom).
  assert (recover now fresh (store sys) = recover_all now fresh (job_dirs (store sys)) (store sys)) as Heq.
  { unfold recover. by rewrite (bind_pure_eval get_store _ (store sys) (store sys)). }
  rewrite Heq, Hr in Hp. injection Hp as <-.
  set (s' := apply_writes (store sys) (snd (recover_all now fresh (job_dirs (store sys)) (store sys)))).
  assert (∀ id job, jobs s' !! id = Some job → id ∈ job_dirs (store sys)) as Hdirs.
  { intros id job Hj. destruct (decide (id ∈ job_dirs (store sys))) as [|Hn]; [done|].
    unfold s' in Hj. rewrite (Hout id Hn) in Hj. by eapply job_dirs_jobs. }
  split; [split; simpl|split; [done|]].
  - specialize (Hs (length (snd (recover_all now fresh (job_dirs (store sys)) (store sys))))).
    rewrite firstn_all in Hs. apply Hs.
  - intros id p. rewrite lookup_started. case_decide as Hi; [|done]. intros [= <-].
    destruct (Hdom id Hi) as [Hi' [job Hj]]. exists job. split; [done|].
    by destruct (Hin id job Hi' Hj).
  - intros id job _ Hj Hnt. destruct (Hin id job) as [_ Ha]; [by eapply Hdirs|done|].
    rewrite lookup_started, decide_True; [done|]. by apply Ha.
  - intros id job Hj. destruct (Hin id job (Hdirs id job Hj) Hj) as [Hrun Ha]. split; [done|].
    simpl. rewrite lookup_started. unfold job_terminal in Ha.
    destruct (JobStatus.is_terminal (job_status job)).
    + rewrite decide_False; [done|]. intros Hi. by apply Ha in Hi.
    + rewrite decide_True; [done|]. by apply Ha.
Qed.

(** Every step keeps the invariant, and every terminal record. *)
Lemma step_ok sys sys' :
  SystemOk sys → system_step manager sys sys' →
  SystemOk sys' ∧ Keeps (jobs (store sys)) (jobs (store sys')).
Proof.
  intros Hok [action Hp].
  assert (Keeps (jobs (store sys)) (jobs (store sys'))) as Hkeep.
  { pose proof Hp as Hq. unfold perform in Hq. apply bind_Some in Hq as (ws & Hws & Hq).
    pose proof (action_safe action sys ws Hok Hws (length ws)) as Hs. rewrite firstn_all in Hs.
    assert (store sys' = apply_writes (store sys) ws) as ->; [|done].
    destruct action; simplify_option_eq; repeat case_match; by simplify_eq. }
  split; [|done].
  destruct action as [id around|now fresh a|now id control|now id|now fresh|action kept].
  - by eapply perform_run.
  - by eapply perform_accept.
  - by eapply perform_cancel.
  - unfold perform in Hp. apply bind_Some in Hp as (ws & Hws & [= <-]). simpl in Hws.
    destruct (up sys) eqn:Hup; [|done]. injection Hws as <-. apply system_same; [done..|].
    apply (effect_jobs _ _ _ _ (quiet_effect _ (store sys) (quiet_expire manager now id))).
  - by eapply perform_recover.
  - unfold perform in Hp. apply bind_Some in Hp as (ws & _ & [= <-]).
    split; simpl in *; [apply Hkeep|by intros ?? ?%lookup_empty_Some|done].
Qed.

Lemma initial_ok : SystemOk initial.
Proof.
  split; simpl; [|by intros ?? ?%lookup_empty_Some|done]. unfold jobs. rewrite omap_empty.
  apply records_empty.
Qed.

Lemma reachable_ok sys : reachable manager sys → SystemOk sys.
Proof.
  unfold reachable. intros Hr. assert (∀ sys0, SystemOk sys0 → rtc (system_step manager) sys0 sys →
    SystemOk sys) as Hstep; [|by apply (Hstep initial); [apply initial_ok|]].
  clear Hr. intros sys0 Hok Hr. induction Hr as [|x y z Hxy _ IH]; [done|].
  by apply IH, (step_ok x y).
Qed.
End system.
