(* ===== verification/JobProperties.v ===== *)
(** The properties of the job manager: capacity, admission, terminal records,
    recovery, fairness, cancellation, idempotency, ownership and evidence. *)

From S2P Require Import Prelude Text Core Isolation Policy Admission Descriptor Matching Pool.
From S2P Require Import Placement Requests JobRecord JobStore JobFacts JobSystem JobSafety.

(** ** Lemmas *)

Definition is_running (job : ExecutionJob) : Prop := job_status job = JobRunning.

(** The jobs that run. *)
Definition running_jobs (m : gmap string ExecutionJob) : gmap string ExecutionJob :=
  filter (λ entry, is_running (snd entry)) m.

Lemma running_concurrency m :
  (∀ id job, m !! id = Some job → JobOk id job) →
  (N.of_nat (size (running_jobs m)) ≤ concurrency (reserved_total m))%N.
Proof.
  unfold running_jobs. induction m as [|id job m Hid IH] using map_ind; intros Hok.
  { rewrite map_filter_empty, map_size_empty. lia. }
  rewrite reserved_total_insert, delete_id by done. simpl.
  assert (∀ i j, m !! i = Some j → JobOk i j) as Hok'.
  { intros i j Hj. apply Hok. rewrite lookup_insert_ne; [done|]. by intros <-; rewrite Hid in Hj. }
  specialize (IH Hok'). destruct (decide (is_running job)) as [Hrun|Hrun].
  - rewrite map_filter_insert_True, map_size_insert_None by (done || by rewrite map_lookup_filter_None; left).
    destruct (ok_reservation id job) as (r & Hr & Hs & Hc); [apply Hok, lookup_insert_eq|].
    unfold is_running in Hrun. rewrite Hrun in Hs. destruct Hs as [Hs _].
    rewrite (holds_granted job r Hr Hs), Hc. lia.
  - rewrite map_filter_insert_False, delete_id by done. lia.
Qed.

#[export] Instance compare_age_total : TotalCmp compare_age.
Proof.
  apply then_with_total; [apply (cmp_on (@cmp Z _))|apply (cmp_on (@cmp string _))].
Qed.

Lemma compare_age_eq x y : compare_age x y = Eq ↔ x = y.
Proof.
  unfold compare_age. rewrite then_with_eq, !cmp_eq. destruct x, y; simpl. naive_solver.
Qed.

Section queue.
Context `{!Bundles, !CarriedMetadata, !Evidence, !Aead, !ReadDir} (manager : JobManager).
Implicit Types (s : Store) (job : ExecutionJob).

Lemma elem_of_scan s job :
  Records (jm_capacity manager) (jobs s) → job ∈ scan_jobs s ↔ jobs s !! job_id job = Some job.
Proof.
  intros Hm. unfold scan_jobs. rewrite list_elem_of_omap. split.
  - intros (id & Hid & Hj). rewrite <-lookup_jobs in Hj. by rewrite (records_ids manager s id job Hm Hj).
  - intros Hj. exists (job_id job). split; [by eapply job_dirs_jobs|by rewrite <-lookup_jobs].
Qed.

(** A job was created before another, or at the same time under a smaller
    identity. *)
Definition older job job' : Prop :=
  (job_created_at job < job_created_at job')%Z ∨
  job_created_at job = job_created_at job' ∧ cmp (job_id job) (job_id job') = Lt.

Lemma compare_age_older job job' :
  compare_age (job_created_at job, job_id job) (job_created_at job', job_id job') = Lt ↔ older job job'.
Proof.
  unfold compare_age, older. simpl. rewrite <-Z.compare_lt_iff, <-Z.compare_eq_iff.
  change cmp with Z.compare at 1. destruct (job_created_at job ?= job_created_at job')%Z; naive_solver.
Qed.

(** A job that has not ended, waits for its reservation and fits. *)
Definition fits_now (free : ResourceRequirements) job : Prop :=
  JobStatus.is_terminal (job_status job) = false ∧
  ∃ r, job_reservation job = Some r ∧ res_state r = ResPending ∧ Resources.fits (res_resources r) free.

Lemma is_fitting_spec free job : is_fitting free job = true ↔ fits_now free job.
Proof.
  unfold is_fitting, fits_now. setoid_rewrite <-Resources.insufficient_fits.
  rewrite andb_true_iff, negb_true_iff. destruct (job_reservation job); [|naive_solver].
  rewrite andb_true_iff, !bool_decide_eq_true. naive_solver.
Qed.

(** The head of the queue of the jobs that fit in what is free. *)
Definition first_fitting s (free : ResourceRequirements) (id : string) : Prop :=
  ∃ job, jobs s !! id = Some job ∧ fits_now free job ∧
    ∀ id' job', jobs s !! id' = Some job' → fits_now free job' →
      job_id job' = job_id job ∨ older job job'.

Lemma oldest_fitting_first s free id :
  Records (jm_capacity manager) (jobs s) → oldest_fitting s free = Some id ↔ first_fitting s free id.
Proof.
  intros Hm. unfold oldest_fitting, first_fitting. setoid_rewrite <-is_fitting_spec.
  setoid_rewrite <-compare_age_older.
  set (key := λ job, (job_created_at job, job_id job)).
  set (keys := key <$> filter (λ job, is_fitting free job = true) (scan_jobs s)).
  assert (∀ k, k ∈ sort_by compare_age keys ↔
    ∃ job, k = key job ∧ jobs s !! job_id job = Some job ∧ is_fitting free job = true) as Hkeys.
  { intros k. rewrite elem_of_sort_by. unfold keys. rewrite list_elem_of_fmap.
    setoid_rewrite list_elem_of_filter. setoid_rewrite (elem_of_scan s _ Hm). naive_solver. }
  pose proof (sort_by_StronglySorted compare_age keys) as Hsorted.
  destruct (sort_by compare_age keys) as [|k ks] eqn:E; simpl.
  - split; [done|]. intros (job & Hj & Hf & _). exfalso.
    assert (key job ∈ []) as Hin; [|by apply not_elem_of_nil in Hin].
    apply Hkeys. exists job. by rewrite (records_ids manager s id job Hm Hj).
  - destruct (proj1 (Hkeys k)) as (job & -> & Hj & Hf); [set_solver|].
    apply StronglySorted_inv in Hsorted as [_ Hall]. rewrite Forall_forall in Hall.
    assert (∀ id' job', jobs s !! id' = Some job' → is_fitting free job' = true →
      key job' = key job ∨ compare_age (key job) (key job') = Lt) as Hmin.
    { intros id' job' Hj' Hf'.
      assert (key job' ∈ key job :: ks) as Hin.
      { apply Hkeys. exists job'. by rewrite (records_ids manager s id' job' Hm Hj'). }
      apply elem_of_cons in Hin as [|Hin]; [by left|]. specialize (Hall _ Hin). unfold le_by in Hall.
      destruct (compare_age (key job) (key job')) eqn:Ec; [left|by right|done].
      symmetry. by apply compare_age_eq. }
    split.
    + intros [= <-]. exists job. split_and!; [done..|]. intros id' job' Hj' Hf'.
      destruct (Hmin id' job' Hj' Hf') as [Heq|?]; [left|by right]. by injection Heq.
    + intros (job0 & Hj0 & Hf0 & Hfirst). f_equal. simpl.
      pose proof (records_ids manager s id job0 Hm Hj0) as Hid.
      destruct (Hfirst (job_id job) job Hj Hf) as [Heq|Hlt]; [congruence|].
      destruct (Hmin id job0 Hj0 Hf0) as [Heq|Hlt']; [injection Heq as _ Heq; congruence|].
      rewrite (cmp_flip (c := compare_age)) in Hlt. unfold key in Hlt'. by rewrite Hlt' in Hlt.
Qed.
End queue.

Section properties.
Context `{!Bundles, !CarriedMetadata, !Evidence, !Aead, !ReadDir} (manager : JobManager).
Context `{!CanonicalIdentity Policy, !CanonicalIdentity SemanticRequest,
          !CanonicalIdentity ApplicationMaterial, !Sha256, !CanonicalIdentity JobResult}.
Implicit Types (s : Store) (job : ExecutionJob) (p : Phase) (sys : System).

Lemma reachable_records sys : reachable manager sys → Records (jm_capacity manager) (jobs (store sys)).
Proof. intros Hr. apply (so_records _ _ (reachable_ok manager sys Hr)). Qed.

Lemma reachable_held sys : reachable manager sys → held (store sys) = reserved_total (jobs (store sys)).
Proof.
  intros Hr. apply held_reserved. intros id job Hj.
  apply (ok_name _ _ (records_ok _ _ (reachable_records sys Hr) id job Hj)).
Qed.

(** C1: Capacity is never exceeded.  Whatever the interleaving of runs,
    submissions, cancellations, expiry, crashes and recoveries, the resources
    the active reservations hold fit the provider in every component, no more
    jobs run than its concurrency, and the capacity snapshot a caller asks for
    is computed without overflow. *)
Theorem capacity_never_exceeded sys :
  reachable manager sys →
  Resources.fits (total_capacity (jm_capacity manager)) Resources.width →
  Resources.fits (held (store sys)) (total_capacity (jm_capacity manager)) ∧
  (N.of_nat (size (running_jobs (jobs (store sys)))) ≤ pc_max_concurrency (jm_capacity manager))%N ∧
  run_op (capacity_snapshot_locked manager) (store sys) =
    (Ok (capacity_snapshot (jm_capacity manager) (held (store sys))), store sys).
Proof.
  intros Hr Hwidth. pose proof (reachable_records sys Hr) as Hm.
  rewrite (reachable_held sys Hr). pose proof (records_capacity _ _ Hm) as Hcap. split_and!; [done| |].
  - pose proof (running_concurrency _ (records_ok _ _ Hm)) as Hrun.
    destruct Hcap as (_ & _ & _ & Hc). simpl in Hc. lia.
  - unfold run_op. rewrite capacity_snapshot_eval, decide_True; rewrite (reachable_held sys Hr); [done|].
    by etrans.
Qed.

(** The phases of a run between the start of an execution and its end. *)
Definition executing p : Prop :=
  match p with
  | GatheringEvidence _ _ | Executing _ _ _ | PersistingResult _ | Failing _ _ => True
  | _ => False
  end.

(** C2: A job runs only with what it needs: while the manager is up, a running
    job holds a granted reservation of its own, with the capacity snapshot its
    receipt records, and belongs to a run that is past its preparation; and a
    provider is asked to execute only under an admitted decision, for a job
    that is running. *)
Theorem execution_authorized sys id job :
  reachable manager sys → jobs (store sys) !! id = Some job →
  (up sys = true → is_running job →
     (∃ r, job_reservation job = Some r ∧ granted r ∧ res_job_id r = id) ∧
     ∃ p, tasks sys !! id = Some p ∧ executing p) ∧
  (∀ stored admission evidence, tasks sys !! id = Some (Executing stored admission evidence) →
     is_running job ∧ is_admitted (adm_decision admission) = true).
Proof.
  intros Hr Hj. pose proof (reachable_ok manager sys Hr) as Hok.
  pose proof (records_ok _ _ (so_records _ _ Hok) id job Hj) as Hjob. split.
  - intros Hup Hrun. split.
    + destruct (ok_reservation _ _ Hjob) as (r & Hres & Hs & _). unfold is_running in Hrun.
      rewrite Hrun in Hs. exists r. split; [done|]. split; [exact Hs|].
      pose proof (ok_binding _ _ Hjob) as Hb. unfold reservation_invalid in Hb. rewrite Hres in Hb.
      apply orb_false_iff in Hb as [Hb _]. apply orb_false_iff in Hb as [_ Hb].
      apply negb_false_iff in Hb. by apply String.eqb_eq.
    + destruct (so_live _ _ Hok id job Hup Hj) as [p Hp].
      { unfold job_terminal. by rewrite Hrun. }
      exists p. split; [done|]. destruct (so_tasks _ _ Hok id p Hp) as (job' & Hj' & Ht).
      rewrite Hj in Hj'. injection Hj' as <-. unfold is_running in Hrun.
      destruct p; simpl in *; unfold may_run, ready_to_run, stranded, job_terminal in *;
        try done; try (rewrite Hrun in Ht; naive_solver).
  - intros stored admission evidence Hp. destruct (so_tasks _ _ Hok id _ Hp) as (job' & Hj' & Ht).
    rewrite Hj in Hj'. injection Hj' as <-. exact Ht.
Qed.

(** The record of a job in a state of the system. *)
Definition recorded (sys : System) (id : string) (job : ExecutionJob) : Prop :=
  jobs (store sys) !! id = Some job.

(** C3: A terminal job is final: no later step of the system, crash and
    recovery included, changes its record, and it holds no capacity. *)
Theorem terminal_jobs_final sys sys' id job :
  reachable manager sys → rtc (system_step manager) sys sys' →
  recorded sys id job → JobStatus.is_terminal (job_status job) = true →
  recorded sys' id job ∧
  from_option (λ r, ReservationState.is_terminal (res_state r)) false (job_reservation job) = true.
Proof.
  unfold recorded. intros Hr Hsteps Hj Ht. pose proof (reachable_ok manager sys Hr) as Hok. split.
  - clear Hr. induction Hsteps as [|x y z Hxy _ IH]; [done|].
    destruct (step_ok manager x y Hok Hxy) as [Hok' [_ Hkeep]]. apply IH; [|done]. by apply Hkeep.
  - destruct (ok_reservation _ _ (records_ok _ _ (so_records _ _ Hok) id job Hj)) as (r & -> & Hs & _).
    simpl. by destruct (job_status job).
Qed.

(** No job is forgotten: while the manager is up, a job is terminal, or a
    run of it is under way, or it was left in preparation with its reservation
    released. *)
Theorem no_job_forgotten sys id job :
  reachable manager sys → up sys = true → recorded sys id job →
  JobStatus.is_terminal (job_status job) = true ∨
  (∃ p, tasks sys !! id = Some p ∧ p ≠ Finished) ∨ stranded job.
Proof.
  unfold recorded. intros Hr Hup Hj. pose proof (reachable_ok manager sys Hr) as Hok.
  destruct (decide (job_terminal job)) as [|Hnt]; [by left|right].
  destruct (so_live _ _ Hok id job Hup Hj Hnt) as [p Hp].
  destruct (so_tasks _ _ Hok id p Hp) as (job' & Hj' & Ht). rewrite Hj in Hj'. injection Hj' as <-.
  destruct p; try (left; eexists; by split). right. by destruct Ht.
Qed.

(** C4: Recovery always succeeds and settles every job: none is left running,
    and a run starts for exactly the jobs that have not ended. *)
Theorem recovery_settles sys now fresh :
  reachable manager sys → up sys = false →
  ∃ sys', perform manager (RecoverJobs now fresh) sys = Some sys' ∧ up sys' = true ∧
    ∀ id job, recorded sys' id job → job_status job ≠ JobRunning ∧
      tasks sys' !! id =
        if JobStatus.is_terminal (job_status job) then None else Some Checking.
Proof.
  intros Hr Hup. pose proof (reachable_ok manager sys Hr) as Hok.
  assert (is_Some (perform manager (RecoverJobs now fresh) sys)) as [sys' Hp].
  { unfold perform. simpl. rewrite Hup. simpl.
    destruct (recover_all_ok manager now fresh (job_dirs (store sys)) (store sys)
      (job_dirs_NoDup _) (so_records _ _ Hok)) as (again & Ha & _).
    assert (fst (recover now fresh (store sys)) = Ok again) as ->; [|by eexists].
    unfold recover. by rewrite (bind_pure_eval get_store _ (store sys) (store sys)). }
  exists sys'. split; [done|]. by apply (perform_recover manager now fresh sys sys' Hok Hp).
Qed.

(** ** The queue *)

(** The job waits for capacity: it has not ended, its reservation is pending,
    and it does not expire. *)
Definition waiting s (id : string) job (r : ComputeReservation) : Prop :=
  jobs s !! id = Some job ∧ JobStatus.is_terminal (job_status job) = false ∧
  job_reservation job = Some r ∧ res_state r = ResPending ∧ res_expires_at r = None.

Lemma waiting_binding id job r :
  JobOk id job → job_reservation job = Some r → res_job_id r = id.
Proof.
  intros Hok Hr. pose proof (ok_binding _ _ Hok) as Hb. unfold reservation_invalid in Hb.
  rewrite Hr in Hb. apply orb_false_iff in Hb as [Hb _]. apply orb_false_iff in Hb as [_ Hb].
  apply negb_false_iff in Hb. by apply String.eqb_eq.
Qed.

Lemma free_fits s required :
  Resources.fits required (free_capacity manager s) →
  Resources.fits required (total_capacity (jm_capacity manager)).
Proof.
  unfold free_capacity, Resources.fits, total_capacity, saturating_sub; simpl.
  unfold Prelude.saturating_sub. lia.
Qed.

(** What [try_reserve] answers a waiting job. *)
Lemma try_reserve_waiting sys now id job r :
  reachable manager sys → Resources.fits (total_capacity (jm_capacity manager)) Resources.width →
  waiting (store sys) id job r →
  let free := free_capacity manager (store sys) in
  let total := total_capacity (jm_capacity manager) in
  let '(answer, s') := run_op (try_reserve manager now id) (store sys) in
  (¬ Resources.fits (res_resources r) total → answer = Ok false ∧
     job_status <$> (jobs s' !! id) = Some JobRejected) ∧
  (Resources.fits (res_resources r) total →
     (answer = Ok true ↔ first_fitting (store sys) free id) ∧ (answer = Ok true ∨ answer = Ok false)).
Proof.
  intros Hreach Hwidth (Hj & Hnt & Hr & Hp & Hexp) free total.
  pose proof (reachable_records sys Hreach) as Hm. pose proof (records_capacity _ _ Hm) as Hcap.
  rewrite <-(reachable_held sys Hreach) in Hcap.
  pose proof (waiting_binding id job r (records_ok _ _ Hm id job Hj) Hr) as Hbind.
  destruct (effect_try_reserve manager now id (store sys) job Hj) as (answer & after & He & Ho).
  pose proof (effect_jobs _ _ _ _ He) as Hafter. destruct He as [Hans _].
  unfold run_op. destruct (try_reserve manager now id (store sys)) as [answer' ws]. simpl in *. subst answer'.
  rewrite Hafter. unfold free. rewrite <-oldest_fitting_first by done.
  assert (oldest_fitting (store sys) (free_capacity manager (store sys)) = Some id →
    Resources.fits (res_resources r) (free_capacity manager (store sys))) as Hfits.
  { intros (job' & Hj' & Hf & _)%(oldest_fitting_first manager); [|done].
    rewrite Hj in Hj'. injection Hj' as <-. destruct Hf as (_ & r' & Hr' & _ & Hf).
    rewrite Hr in Hr'. by injection Hr' as <-. }
  destruct Ho as [Ht|e _ Herr|r' _ Hr' _ Hst|r' _ Hr' _ _ Hx|r' _ Hr' _ _ Himp
    |r' reasons _ Hr' _ _ Hpos Hno|r' _ Hr' _ _ Hfit Hold _]; try congruence;
    try (rewrite Hr in Hr'; injection Hr' as <-).
  - exfalso. destruct Herr as [?|(r' & Hr' & Hcase)]; [congruence|].
    rewrite Hr in Hr'. injection Hr' as <-. destruct Hcase as [?|[Ht|[Hw|(Hfit & _ & Hw)]]].
    + congruence.
    + by rewrite Hp in Ht.
    + apply Hw. by etrans.
    + apply Hw. etrans; [|exact Hwidth]. by apply Resources.fits_available.
  - by rewrite Hexp in Hx.
  - split; [|done]. intros _. split; [done|].
    rewrite (records_ids manager _ id job Hm Hj), lookup_insert_eq. simpl.
    unfold reject_impossible. by rewrite release_status.
  - split; [done|]. intros _. split; [|by right]. split; [done|]. intros Hold. exfalso. auto.
  - split; [|intros _; split; [done|by left]]. intros Hno. exfalso. by apply Hno, (free_fits (store sys)).
Qed.


(** The oldest of some jobs. *)
Lemma oldest_exists s free id job :
  Records (jm_capacity manager) (jobs s) → jobs s !! id = Some job → fits_now free job →
  ∃ id', first_fitting s free id'.
Proof.
  rewrite <-is_fitting_spec. intros Hm Hj Hf. destruct (oldest_fitting s free) as [id'|] eqn:E.
  { exists id'. by apply (oldest_fitting_first manager). }
  exfalso. unfold oldest_fitting in E. apply fmap_None in E.
  destruct (sort_by _ _) as [|k ks] eqn:Es; [|done]. apply sort_by_nil, fmap_nil_inv in Es.
  assert (job ∈ filter (λ job, is_fitting free job = true) (scan_jobs s)) as Hin.
  { apply list_elem_of_filter. split; [done|]. apply (elem_of_scan manager); [done|].
    by rewrite (records_ids manager s id job Hm Hj). }
  rewrite Es in Hin. by apply not_elem_of_nil in Hin.
Qed.

(** Capacity is never withheld: when some waiting job fits in what is free,
    there is a job whose next attempt to reserve is granted, provided that the
    pending reservations do not expire. *)
Theorem capacity_progress sys id job r :
  reachable manager sys → Resources.fits (total_capacity (jm_capacity manager)) Resources.width →
  waiting (store sys) id job r →
  Resources.fits (res_resources r) (free_capacity manager (store sys)) →
  (∀ i j q, jobs (store sys) !! i = Some j → job_reservation j = Some q → res_expires_at q = None) →
  ∃ first, ∀ now, fst (run_op (try_reserve manager now first) (store sys)) = Ok true.
Proof.
  intros Hreach Hwidth (Hj & Hnt & Hr & Hp & Hexp) Hfit Hlease.
  pose proof (reachable_records sys Hreach) as Hm.
  destruct (oldest_exists (store sys) (free_capacity manager (store sys)) id job Hm Hj) as [first Hfirst].
  { split; [done|]. by exists r. }
  exists first. intros now. pose proof Hfirst as (job' & Hj' & (Hnt' & r' & Hr' & Hp' & Hf) & _).
  pose proof (try_reserve_waiting sys now first job' r' Hreach Hwidth) as Htry. simpl in Htry.
  destruct (run_op _ _) as [answer s']. simpl.
  apply Htry; [by split_and!; eauto|by eapply free_fits|done].
Qed.

(** ** Cancellation *)

(** Cancelling does exactly what it says.  A job that ended keeps its
    record; a job whose execution has not begun is cancelled at once, with its
    reservation given up; a job in preparation or running keeps its status and
    its reservation, with the cancellation only requested. *)
Theorem cancellation_exact sys now id control job :
  reachable manager sys → recorded sys id job →
  let '(r, s') := run_op (cancel_locked now id control) (store sys) in
  ∃ job', r = Ok job' ∧ jobs s' = <[id := job']> (jobs (store sys)) ∧
    if JobStatus.is_terminal (job_status job) then job' = job
    else can_requested (job_cancellation job') = true ∧
      if before_execution (job_status job)
      then job_status job' = JobCancelled ∧ can_effective (job_cancellation job') = true ∧
           holds job' = ResourceRequirements.default_
      else job_status job' = job_status job ∧ job_reservation job' = job_reservation job ∧
           can_effective (job_cancellation job') = can_effective (job_cancellation job).
Proof.
  unfold recorded. intros Hreach Hj. pose proof (records_ok _ _ (reachable_records sys Hreach) id job Hj) as Hok.
  pose proof (effect_cancel now id control (store sys) job Hj) as He.
  destruct (JobStatus.is_terminal (job_status job)) eqn:Ht.
  - pose proof (effect_jobs _ _ _ _ He) as Hs. destruct He as [Hr _]. unfold run_op.
    destruct (cancel_locked now id control (store sys)) as [r ws]. simpl in *. subst r.
    exists job. by rewrite insert_id.
  - pose proof (effect_jobs _ _ _ _ He) as Hs. destruct He as [Hr _]. unfold run_op.
    destruct (cancel_locked now id control (store sys)) as [r ws]. simpl in *. subst r.
    rewrite (ok_id _ _ Hok) in Hs. exists (cancelled now control job). split; [done|]. split; [done|].
    unfold cancelled, request_cancel. destruct (before_execution (job_status job)) eqn:Hb.
    + rewrite bool_decide_eq_true_2 by done.
      match goal with |- context [release_reservation now ?j] =>
        destruct (ended_ok id now job j) as (_ & Hh & _); [done..|] end.
      split_and!; [| | |done]; unfold release_reservation; by repeat case_match.
    + rewrite bool_decide_eq_false_2; [done|]. simpl. intros Hc. by rewrite Hc in Ht.
Qed.

(** ** Ownership *)

(** The principal a job belongs to, as the store says. *)
Definition owned_by s (id owner : string) : Prop :=
  match s !! id ≫= dir_expired with
  | Some marker => em_owner marker = owner
  | None => ∃ stored, fst (read_request manager id s) = Ok stored ∧ sr_owner stored = owner
  end.

Lemma authorize_other s id owner other :
  owned_by s id owner → other ≠ owner → authorize_owner manager id other s = (Err other_principal, []).
Proof.
  unfold owned_by, authorize_owner. intros Ho Hne.
  erewrite bind_pure_eval by done. destruct (s !! id ≫= dir_expired) as [marker|].
  - rewrite Ho. destruct (String.eqb_spec owner other); [congruence|done].
  - destruct Ho as (stored & Hr & Ho). pose proof (read_request_none manager id s) as Hn.
    erewrite bind_pure_eval. 2: { destruct (read_request manager id s); simpl in *. by subst. }
    rewrite Ho. destruct (String.eqb_spec owner other); [congruence|done].
Qed.

(** A job is its owner's alone: for any other principal every operation on
    it answers that the job belongs to another principal, and writes nothing;
    and a listing holds only the jobs of the principal who asks. *)
Theorem jobs_owned s id owner other now control :
  owned_by s id owner → other ≠ owner →
  status manager now id other s = (Err other_principal, []) ∧
  result manager now id other s = (Err other_principal, []) ∧
  receipt manager now id other s = (Err other_principal, []) ∧
  artifacts manager now id other s = (Err other_principal, []) ∧
  events manager id other s = (Err other_principal, []) ∧
  cancel manager now id other control s = (Err other_principal, []) ∧
  (∀ jobs_ job, fst (list_jobs manager other s) = Ok jobs_ → job ∈ jobs_ →
     ∃ id' stored, job_at s id' = Some job ∧ fst (read_request manager id' s) = Ok stored ∧
       sr_owner stored = other).
Proof.
  intros Ho Hne. pose proof (authorize_other s id owner other Ho Hne) as Ha.
  split_and!; try by apply bind_err_eval.
  - by apply bind_err_eval, bind_err_eval.
  - intros jobs_ job [= <-]. rewrite elem_of_sort_by, list_elem_of_omap. intros (id' & _ & Hj).
    unfold owned_job in Hj. destruct (fst (read_request manager id' s)) as [stored|e] eqn:Er; [|done].
    destruct (String.eqb_spec (sr_owner stored) other); [|done]. eauto.
Qed.

(** ** Evidence *)

Lemma verify_result_ok s r u ws :
  verify_result r s = (Ok u, ws) →
  ∃ job receipt, jobs s !! jres_job_id r = Some job ∧
    job_result_digest job = Some (canonical_identity r) ∧
    er_receipt (jres_result r) = Some receipt ∧ receipt_verify receipt = Ok tt ∧
    receipt_execution_id receipt = er_execution_id (jres_result r) ∧
    receipt_status receipt = er_status (jres_result r) ∧
    receipt_exit_code receipt = er_exit_code (jres_result r) ∧
    jres_status r = terminal_status (jres_result r).
Proof.
  unfold verify_result, mbind, op_bind. rewrite read_job_eval.
  destruct (jobs s !! jres_job_id r) as [job|]; [|done]. simpl.
  case_bool_decide as Hd; [|done]. simpl.
  destruct (er_receipt (jres_result r)) as [receipt|]; [|done].
  unfold lift. destruct (receipt_verify receipt) as [[]|e] eqn:Hv; [|done]. simpl.
  destruct (String.eqb_spec (receipt_execution_id receipt) (er_execution_id (jres_result r)));
    [|done]. simpl.
  case_bool_decide; [|done]. case_bool_decide; [|done]. simpl. case_bool_decide; [|done].
  intros _. exists job, receipt. by split_and!.
Qed.

Lemma authorize_none s id owner : snd (authorize_owner manager id owner s) = [].
Proof.
  apply none_bind; [done|]. intros s0. destruct (s0 !! id ≫= dir_expired).
  - by case_match.
  - apply none_bind; [apply read_request_none|]. intros stored. case_match; [done|].
    apply none_bind; [apply read_job_none|]. intros job. by case_match.
Qed.

Lemma not_expired_ok s now id u ws : require_not_expired manager now id s = (Ok u, ws) → ws = [].
Proof.
  unfold require_not_expired. erewrite bind_pure_eval by done.
  destruct (s !! id ≫= dir_expired); [done|].
  unfold mbind, op_bind. rewrite read_job_eval. destruct (jobs s !! id) as [job|]; [|done].
  cbn -[andb N.eqb N.ltb negb]. destruct (_ && _); [|by intros [= <- <-]].
  pose proof (read_request_none manager id s) as Hn.
  destruct (read_request manager id s) as [[stored|e] ws']; [|done]. simpl in *. by subst.
Qed.

(** A result that is returned is verified: its digest is the one its job
    recorded, its receipt verifies and agrees with it, and its status is the
    one its execution implies. *)
Theorem results_verified s now id owner r :
  fst (result manager now id owner s) = Ok r →
  ∃ job receipt, jobs s !! jres_job_id r = Some job ∧
    job_result_digest job = Some (canonical_identity r) ∧
    er_receipt (jres_result r) = Some receipt ∧ receipt_verify receipt = Ok tt ∧
    receipt_execution_id receipt = er_execution_id (jres_result r) ∧
    receipt_status receipt = er_status (jres_result r) ∧
    receipt_exit_code receipt = er_exit_code (jres_result r) ∧
    jres_status r = terminal_status (jres_result r).
Proof.
  unfold result. intros (u1 & ws1 & Ha & Hr)%bind_ok_inv.
  apply bind_ok_inv in Hr as (u2 & ws2 & He & Hr).
  pose proof (authorize_none s id owner) as Hn. rewrite Ha in Hn. simpl in Hn. subst ws1.
  apply not_expired_ok in He as ->. simpl in Hr. erewrite bind_pure_eval in Hr by done.
  destruct (s !! id ≫= dir_result) as [r'|].
  - apply bind_ok_inv in Hr as (u3 & ws3 & Hv & [= <-]). by eapply verify_result_ok.
  - apply bind_ok_inv in Hr as (job & ws3 & _ & Hf). done.
Qed.

(** Writes that leave the request, the result and the expiry marker alone. *)
Definition plain (w : Write) : Prop :=
  match w with
  | WriteFile _ (StatusFile _ | EventsFile _ | ReceiptFile _ | ArtifactFile _ _) => True
  | _ => False
  end.

Lemma plain_files s ws i :
  Forall plain ws →
  apply_writes s ws !! i ≫= dir_request = s !! i ≫= dir_request ∧
  apply_writes s ws !! i ≫= dir_result = s !! i ≫= dir_result ∧
  apply_writes s ws !! i ≫= dir_expired = s !! i ≫= dir_expired.
Proof.
  intros Hp. revert s. induction Hp as [|w ws Hw _ IH]; intros s; [done|].
  change (apply_writes s (w :: ws)) with (apply_writes (apply_write s w) ws).
  destruct (IH (apply_write s w)) as (-> & -> & ->).
  destruct w as [id f|id d]; [|done]. cbn [apply_write].
  destruct (decide (id = i)) as [->|Hne]; [rewrite lookup_insert_eq|by rewrite lookup_insert_ne].
  destruct (s !! i) as [d|]; destruct f; done.
Qed.

Lemma only_append_events now id types : Only plain (append_events now id types).
Proof.
  induction types as [|type_ types IH]; [by apply only_none|]. apply only_bind; [|done].
  intros s. by repeat constructor.
Qed.

Lemma only_write_artifacts id outputs : Only plain (write_artifacts id outputs).
Proof.
  induction outputs as [|data outputs IH]; [by apply only_none|].
  apply only_bind; [by apply only_write|done].
Qed.

Lemma only_after_write (P : Write → Prop) w (k : unit → Op unit) s r ws :
  Only P (k tt) → (write w ≫= k) s = (r, ws) → ∃ rest, Forall P rest ∧ ws = w :: rest.
Proof.
  intros Hk. unfold mbind, op_bind, write. specialize (Hk (apply_writes s [w])).
  destruct (k tt (apply_writes s [w])) as [r' rest]. intros [= <- <-]. by exists rest.
Qed.

(** What a successful [persist_result] wrote. *)
Lemma persist_result_writes now id status_ res s ws :
  persist_result now id status_ res s = (Ok tt, ws) →
  ∃ rest, Forall plain rest ∧
    ws = WriteFile id (ResultFile (Some {| jres_job_id := id; jres_status := status_;
                                           jres_result := res |})) :: rest.
Proof.
  unfold persist_result. destruct (er_receipt res) as [rcpt|]; [|done].
  unfold lift. destruct (receipt_verify rcpt) as [[]|e]; [|done].
  rewrite (bind_pure_eval _ _ s tt) by done. apply only_after_write.
  apply only_bind; [by apply only_write|]. intros _.
  apply only_bind; [apply only_write_artifacts|]. intros _.
  apply only_bind; [apply only_none; intros; apply read_job_none|]. intros job.
  case_match; [by apply only_none|]. destruct (release_reservation now _) as [job' released].
  apply only_bind; [by apply only_write|intros _; apply only_append_events].
Qed.

(** The owner may read the job. *)
Lemma authorize_ok s id owner stored job :
  s !! id ≫= dir_expired = None → fst (read_request manager id s) = Ok stored →
  sr_owner stored = owner → jobs s !! id = Some job →
  request_hash (sr_request stored) = jr_request_hash (job_request job) →
  authorize_owner manager id owner s = (Ok tt, []).
Proof.
  intros He Hr Ho Hj Hh. unfold authorize_owner. erewrite bind_pure_eval by done. rewrite He.
  pose proof (read_request_none manager id s) as Hn.
  erewrite bind_pure_eval. 2: { destruct (read_request manager id s); simpl in *. by subst. }
  rewrite Ho, String.eqb_refl. simpl.
  erewrite bind_pure_eval by (by rewrite read_job_eval, Hj). by rewrite Hh, String.eqb_refl.
Qed.

Lemma read_request_same s s' id :
  s' !! id ≫= dir_request = s !! id ≫= dir_request →
  fst (read_request manager id s') = fst (read_request manager id s).
Proof. unfold read_request, mbind, op_bind; simpl. intros Hd. cbn in Hd. by rewrite Hd. Qed.

Lemma not_expired_fresh s now id job :
  s !! id ≫= dir_expired = None → jobs s !! id = Some job →
  jm_retention manager = 0%N ∨ (age now (job_updated_at job) ≤ jm_retention manager)%N →
  require_not_expired manager now id s = (Ok tt, []).
Proof.
  intros He Hj Hage. unfold require_not_expired. erewrite bind_pure_eval by done. rewrite He.
  erewrite bind_pure_eval by (by rewrite read_job_eval, Hj).
  destruct (_ && _) eqn:Hb; [|done]. exfalso.
  apply andb_true_iff in Hb as [Hb Hlt]. apply andb_true_iff in Hb as [_ Hz].
  apply N.ltb_lt in Hlt. apply negb_true_iff, N.eqb_neq in Hz. lia.
Qed.

(** The receipt of a result says what the result says. *)
Definition receipt_agrees (res : ExecutionResult) (rcpt : Receipt) : Prop :=
  er_receipt res = Some rcpt ∧ receipt_execution_id rcpt = er_execution_id res ∧
  receipt_status rcpt = er_status res ∧ receipt_exit_code rcpt = er_exit_code res.

Lemma verify_result_accepts s id res rcpt job :
  let r := {| jres_job_id := id; jres_status := terminal_status res; jres_result := res |} in
  jobs s !! id = Some job → job_result_digest job = Some (canonical_identity r) →
  receipt_agrees res rcpt → receipt_verify rcpt = Ok tt → verify_result r s = (Ok tt, []).
Proof.
  intros r Hj Hd (Hr & Hid & Hst & Hex) Hv. unfold verify_result.
  erewrite bind_pure_eval by (by rewrite read_job_eval; simpl; rewrite Hj).
  rewrite Hd, bool_decide_eq_true_2 by done. simpl. rewrite Hr.
  unfold lift. rewrite Hv. rewrite (bind_pure_eval _ _ s tt) by done.
  rewrite Hid, Hst, Hex, String.eqb_refl, !bool_decide_eq_true_2 by done. done.
Qed.

Lemma completed_fields now id status_ res job :
  let job' := completed now id status_ res job in
  job_request job' = job_request job ∧ job_updated_at job' = now ∧
  job_result_digest job' = Some (canonical_identity
    {| jres_job_id := id; jres_status := status_; jres_result := res |}).
Proof. unfold completed, release_reservation. by repeat case_match. Qed.

(** What an execution produced is what its owner reads: once a result is
    persisted, [result] returns exactly it, to its owner, until the evidence
    expires. *)
Theorem result_round_trip s now now' id owner stored job res rcpt ws :
  jobs s !! id = Some job → job_id job = id → s !! id ≫= dir_expired = None →
  fst (read_request manager id s) = Ok stored → sr_owner stored = owner →
  request_hash (sr_request stored) = jr_request_hash (job_request job) →
  receipt_agrees res rcpt →
  jm_retention manager = 0%N ∨ (age now' now ≤ jm_retention manager)%N →
  persist_result now id (terminal_status res) res s = (Ok tt, ws) →
  fst (result manager now' id owner (apply_writes s ws)) =
    Ok {| jres_job_id := id; jres_status := terminal_status res; jres_result := res |}.
Proof.
  intros Hj Hid Hexp Hread Hown Hhash Hagree Hage Hp.
  destruct (persist_result_writes now id _ res s ws Hp) as (rest & Hplain & ->).
  set (r := {| jres_job_id := id; jres_status := terminal_status res; jres_result := res |}) in *.
  set (s1 := apply_write s (WriteFile id (ResultFile (Some r)))).
  change (apply_writes s (_ :: rest)) with (apply_writes s1 rest).
  destruct (plain_files s1 rest id Hplain) as (Hreq' & Hres' & Hexp').
  assert (s1 !! id ≫= dir_request = s !! id ≫= dir_request ∧ s1 !! id ≫= dir_result = Some r ∧
    s1 !! id ≫= dir_expired = s !! id ≫= dir_expired) as (Hreq1 & Hres1 & Hexp1).
  { unfold s1; cbn [apply_write]. rewrite lookup_insert_eq. by destruct (s !! id). }
  destruct (effect_persist_result now id (terminal_status res) res s job Hj)
    as [(rcpt' & Hr' & Hv & _ & He)|[e [Hbad _]]]; [|by rewrite Hp in Hbad].
  pose proof (effect_jobs _ _ _ _ He) as Hjobs. rewrite Hp, Hid in Hjobs. cbn [snd] in Hjobs.
  destruct (completed_fields now id (terminal_status res) res job) as (Hreq & Hupd & Hdig).
  assert (jobs (apply_writes s1 rest) !! id = Some (completed now id (terminal_status res) res job)) as Hj'.
  { change (apply_writes s1 rest) with (apply_writes s (WriteFile id (ResultFile (Some r)) :: rest)).
    rewrite Hjobs. apply lookup_insert_eq. }
  assert (rcpt' = rcpt) as -> by (destruct Hagree as [Hag _]; congruence).
  unfold result. erewrite bind_pure_eval.
  2: { eapply (authorize_ok _ id owner stored); [congruence| |done|exact Hj'|congruence].
       rewrite <-Hread. apply read_request_same. congruence. }
  erewrite bind_pure_eval.
  2: { eapply not_expired_fresh; [congruence|exact Hj'|]. by rewrite Hupd. }
  erewrite bind_pure_eval by done. rewrite Hres', Hres1.
  erewrite bind_pure_eval by (by eapply verify_result_accepts). done.
Qed.

(** ** Idempotency *)

Definition key_conflict : ProviderError :=
  provider_error IdempotencyConflict "idempotency key was already used for a different request".

(** Whether a directory holds the request of an owner and key. *)
Definition key_matches s (owner hash id : string) : bool :=
  match fst (read_request manager id s) with
  | Ok stored => String.eqb (sr_owner stored) owner &&
                 bool_decide (sr_idempotency_key_hash stored = Some hash)
  | Err _ => false
  end.

Lemma find_idempotent_eval s owner hash :
  find_idempotent manager owner hash s =
    (Ok (head (filter (λ id, key_matches s owner hash id = true) (job_dirs s))), []).
Proof. done. Qed.

(** A key that was used answers for the job it was used for. *)
Lemma accept_used_key s now fresh a hash id stored job :
  acc_reserved a = None → key_hash a = Some hash → is_ok (check_acceptance a) = true →
  head (filter (λ id, key_matches s (acc_owner a) hash id = true) (job_dirs s)) = Some id →
  fst (read_request manager id s) = Ok stored → jobs s !! id = Some job →
  accept manager now fresh a s =
    (if String.eqb (request_hash (sr_request stored)) (request_hash (acc_request a))
     then Ok (submission_of job id) else Err key_conflict, []).
Proof.
  intros Hres Hkey Hcheck Hfind Hread Hj. unfold accept, lift.
  destruct (check_acceptance a) as [[bundle verification]|e]; [|done].
  erewrite bind_pure_eval by done. unfold accept_locked. erewrite bind_pure_eval by done.
  rewrite Hres, Hkey. erewrite bind_pure_eval by (by rewrite find_idempotent_eval, Hfind).
  unfold accept_idempotent. pose proof (read_request_none manager id s) as Hn.
  erewrite bind_pure_eval. 2: { destruct (read_request manager id s); simpl in *. by subst. }
  destruct (String.eqb _ _); [|done]. simpl.
  by erewrite bind_pure_eval by (by rewrite read_job_eval, Hj).
Qed.

(** What a successful acceptance under a key found, or made. *)
Lemma accept_key_found s now fresh a hash sub ws :
  acc_reserved a = None → key_hash a = Some hash → accept manager now fresh a s = (Ok sub, ws) →
  (∃ id stored job, ws = [] ∧ sub_job_id sub = id ∧
     head (filter (λ id, key_matches s (acc_owner a) hash id = true) (job_dirs s)) = Some id ∧
     fst (read_request manager id s) = Ok stored ∧ jobs s !! id = Some job ∧
     request_hash (sr_request stored) = request_hash (acc_request a)) ∨
  (∃ job disk dir, filter (λ id, key_matches s (acc_owner a) hash id = true) (job_dirs s) = [] ∧
     sub_job_id sub = fresh_job_id fresh ∧ s !! fresh_job_id fresh = None ∧
     on_disk (jm_seal manager) (fresh_nonce fresh) (fresh_job_id fresh) (new_request a) = Ok disk ∧
     dir_status dir = Some job ∧ dir_request dir = Some disk ∧
     ws = [WriteDir (fresh_job_id fresh) dir]).
Proof.
  intros Hres Hkey. unfold accept, lift.
  destruct (check_acceptance a) as [[bundle verification]|e]; [|done].
  erewrite bind_pure_eval by done. unfold accept_locked. erewrite bind_pure_eval by done.
  rewrite Hres, Hkey. erewrite bind_pure_eval by (by rewrite find_idempotent_eval).
  destruct (filter _ _) as [|id ids] eqn:Ef; simpl.
  - intros Hc. right. unfold create_job in Hc. rewrite Hres in Hc. simpl in Hc.
    destruct (dependency_of bundle) as [dependency|e]; [|done].
    rewrite (bind_pure_eval _ _ s dependency) in Hc by done.
    destruct (on_disk _ _ _ _) as [disk|e] eqn:Ed; [|done].
    rewrite (bind_pure_eval _ _ s disk) in Hc by done.
    rewrite (bind_pure_eval get_store _ s s) in Hc by done.
    case_bool_decide as Hn; [done|]. injection Hc as <- <-.
    do 3 eexists. do 2 (split; [done|]). split; [by apply eq_None_not_Some|]. split; [reflexivity|].
    split; [|split; [|reflexivity]]; reflexivity.
  - intros Hc. left. unfold accept_idempotent in Hc. pose proof (read_request_none manager id s) as Hn.
    destruct (read_request manager id s) as [[stored|e] ws0] eqn:Er; simpl in Hn; subst ws0.
    2: { by rewrite (bind_err_eval _ _ s e) in Hc. }
    rewrite (bind_pure_eval _ _ s stored) in Hc by done.
    destruct (String.eqb_spec (request_hash (sr_request stored)) (request_hash (acc_request a)));
      [|done]. simpl in Hc.
    destruct (jobs s !! id) as [job|] eqn:Hj.
    + rewrite (bind_pure_eval _ _ s job) in Hc by (by rewrite read_job_eval, Hj).
      injection Hc as <- <-. exists id, stored, job. by rewrite Er.
    + rewrite (bind_err_eval _ _ s unknown_job) in Hc by (by rewrite read_job_eval, Hj). done.
Qed.

(** A job that was just made is the one its key finds. *)
Lemma find_created `{!AeadLaws} s a hash id nonce disk dir :
  is_ok (parse_job_id id) = true → key_hash a = Some hash → s !! id = None →
  length nonce = NONCE_LEN → Forall is_byte nonce →
  on_disk (jm_seal manager) (Some nonce) id (new_request a) = Ok disk → dir_request dir = Some disk →
  filter (λ id, key_matches s (acc_owner a) hash id = true) (job_dirs s) = [] →
  let s' := <[id := dir]> s in
  fst (read_request manager id s') = Ok (new_request a) ∧
  head (filter (λ id, key_matches s' (acc_owner a) hash id = true) (job_dirs s')) = Some id.
Proof.
  intros Hid Hkey Hnone Hlen Hbytes Hdisk Hdir Hnil s'.
  assert (fst (read_request manager id s') = Ok (new_request a)) as Hread.
  { unfold read_request, mbind, op_bind, s'; simpl. rewrite lookup_insert_eq. simpl. rewrite Hdir.
    simpl. by rewrite (restore_on_disk _ nonce id (new_request a)) by done. }
  split; [done|].
  assert (∀ i, i ∈ filter (λ id, key_matches s' (acc_owner a) hash id = true) (job_dirs s') ↔ i = id)
    as Hall.
  { intros i. rewrite list_elem_of_filter. split.
    - intros [Hm Hi]. destruct (decide (i = id)) as [|Hne]; [done|]. exfalso.
      assert (key_matches s (acc_owner a) hash i = true) as Hm'.
      { unfold key_matches in *. rewrite (read_request_same s s' i) in Hm; [done|].
        unfold s'. by rewrite lookup_insert_ne. }
      assert (i ∈ job_dirs s) as Hi'.
      { unfold job_dirs in *. rewrite list_elem_of_filter in *. destruct Hi as [? Hi]. split; [done|].
        rewrite read_dir_names in *. rewrite list_elem_of_fmap in *.
        destruct Hi as ([i' d] & -> & Hi). apply elem_of_map_to_list in Hi. unfold s' in Hi.
        rewrite lookup_insert_ne in Hi by done. exists (i', d). by rewrite elem_of_map_to_list. }
      assert (i ∈ filter (λ id, key_matches s (acc_owner a) hash id = true) (job_dirs s)) as Hin
        by by apply list_elem_of_filter.
      rewrite Hnil in Hin. by apply not_elem_of_nil in Hin.
    - intros ->. split.
      + unfold key_matches. rewrite Hread. simpl. by rewrite String.eqb_refl, bool_decide_eq_true_2.
      + apply list_elem_of_filter. split; [done|]. rewrite read_dir_names, list_elem_of_fmap.
        exists (id, dir). split; [done|]. apply elem_of_map_to_list, lookup_insert_eq. }
  destruct (filter _ (job_dirs s')) as [|i ids].
  - assert (id ∈ []) as Hin by by apply Hall. by apply not_elem_of_nil in Hin.
  - simpl. f_equal. apply Hall. set_solver.
Qed.

(** Submission is idempotent: after a submission under a key succeeded,
    any later submission of the same owner under the same key writes nothing;
    it answers with the same job when it asks for the same execution, and is
    refused as a conflict when it does not. *)
Theorem submission_idempotent `{!AeadLaws} s now fresh nonce a key sub s' now' fresh' a' :
  acc_reserved a = None → acc_idempotency_key a = Some key →
  is_ok (parse_job_id (fresh_job_id fresh)) = true →
  fresh_nonce fresh = Some nonce → length nonce = NONCE_LEN → Forall is_byte nonce →
  run_op (accept manager now fresh a) s = (Ok sub, s') →
  acc_reserved a' = None → acc_idempotency_key a' = Some key → acc_owner a' = acc_owner a →
  is_ok (check_acceptance a') = true →
  let '(r, s'') := run_op (accept manager now' fresh' a') s' in
  s'' = s' ∧
  if String.eqb (request_hash (acc_request a)) (request_hash (acc_request a'))
  then ∃ sub', r = Ok sub' ∧ sub_job_id sub' = sub_job_id sub
  else r = Err key_conflict.
Proof.
  intros Hres Hkey Hid Hnonce Hlen Hbytes Hrun Hres' Hkey' Howner Hcheck.
  assert (key_hash a = Some (sha256_identity (bytes key))) as Hh by (unfold key_hash; by rewrite Hkey).
  assert (key_hash a' = Some (sha256_identity (bytes key))) as Hh' by (unfold key_hash; by rewrite Hkey').
  unfold run_op in Hrun. destruct (accept manager now fresh a s) as [r0 ws] eqn:Ea.
  injection Hrun as -> <-.
  destruct (accept_key_found s now fresh a _ sub ws Hres Hh Ea)
    as [(id & stored & job & -> & <- & Hfind & Hread & Hj & Hhash)
       |(job & disk & dir & Hnil & -> & Hnone & Hdisk & Hst & Hreq & ->)].
  - unfold run_op. rewrite <-Howner in Hfind. simpl.
    rewrite (accept_used_key s now' fresh' a' _ _ stored job) by done. rewrite Hhash. simpl.
    split; [done|]. destruct (String.eqb _ _); [by eexists|done].
  - rewrite Hnonce in Hdisk.
    destruct (find_created s a _ _ nonce disk dir Hid Hh Hnone Hlen Hbytes Hdisk Hreq Hnil) as [Hread Hfind].
    rewrite <-Howner in Hfind. cbn [apply_writes foldl apply_write]. unfold run_op.
    rewrite (accept_used_key _ now' fresh' a' (sha256_identity (bytes key)) (fresh_job_id fresh)
      (new_request a) job); try done.
    2: { rewrite lookup_jobs. unfold job_at. by rewrite lookup_insert_eq. }
    simpl. split; [done|]. destruct (String.eqb _ _); [by eexists|done].
Qed.
End properties.

(** ** Witnesses *)

(** A receipt that is its own evidence: what it says of its execution, and the
    reservation it was bound to. *)
Record PlainReceipt : Type := {
  plain_id : string;
  plain_status : ExecutionStatus;
  plain_exit : option Z;
  plain_reservation : option ReceiptReservation;
}.

#[local] Existing Instance witness_bundles.
#[local] Existing Instance witness_metadata.
#[local] Existing Instance witness_aead.
#[local] Existing Instance witness_aead_laws.
#[local] Instance witness_evidence : Evidence :=
  {| Receipt := PlainReceipt; ResultDetail := unit; receipt_verify := λ _, Ok tt;
     receipt_execution_id := plain_id; receipt_status := plain_status;
     receipt_exit_code := plain_exit; receipt_outputs := λ _, [];
     bind_reservation := λ reservation _ r, {| plain_id := plain_id r; plain_status := plain_status r;
       plain_exit := plain_exit r; plain_reservation := Some reservation |};
     receipt_seal := Ok; receipt_sign := λ r, r |}.
#[local] Instance witness_read_dir : ReadDir :=
  {| read_dir s := (map_to_list s).*1; read_dir_names s := reflexivity _ |}.
#[local] Instance witness_job_policy : CanonicalIdentity Policy := λ p, default "anonymous" (policy_name p).
#[local] Instance witness_job_admission : CanonicalIdentity AdmissionMaterial :=
  λ m, material_policy_id m +:+ workload_id (material_contract m).
#[local] Instance witness_semantic : CanonicalIdentity SemanticRequest := λ r,
  match sem_artifact r with BundleTransport data => to_hex data | InlineTransport e => match e with end end.
#[local] Instance witness_application : CanonicalIdentity ApplicationMaterial := am_name.
#[local] Instance witness_sha : Sha256 := λ data, "sha256:" +:+ to_hex data.
#[local] Instance witness_result : CanonicalIdentity JobResult := λ r, er_execution_id (jres_result r).

(** A provider of one slot. *)
Definition one_slot : JobManager :=
  {| jm_seal := tt : AeadKey; jm_retention := 0%N; jm_identity := LocalIdentity "local";
     jm_capacity := {| pc_cpu_millis := 1000; pc_memory_bytes := 1000; pc_disk_bytes := 1000;
                       pc_max_concurrency := 1 |} |}.

Definition digits (d : ascii) : string := foldr String "" (repeat d 64).

Definition fresh_ids (d : ascii) : Fresh :=
  {| fresh_job_id := "job_" +:+ digits d; fresh_reservation_id := "rsv_" +:+ digits d;
     fresh_nonce := Some (repeat 7%N 12) |}.

Definition submission (owner key : string) (data : list N) : Acceptance :=
  {| acc_request := plain_request data; acc_owner := owner; acc_idempotency_key := Some key;
     acc_reserved := None |}.

Definition admitting : JobAdmission :=
  {| adm_decision := policy_admit python_only python_contract linux_facts Compatible;
     adm_policy := compose [] |}.

Definition plain_result : ExecutionResult :=
  {| er_execution_id := "exec_1"; er_status := ExecCompleted; er_exit_code := Some 0%Z;
     er_outputs := [[1; 2]%N]; er_detail := tt;
     er_receipt := Some {| plain_id := "exec_1"; plain_status := ExecCompleted;
       plain_exit := Some 0%Z; plain_reservation := None |} |}.

Definition around : Surroundings :=
  {| now := 5; nonce := Some (repeat 7%N 12); log_directory := true; admit_answer := Ok admitting;
     execute_answer := Ok plain_result |}.

Definition first_id : string := fresh_job_id (fresh_ids "a").
Definition second_id : string := fresh_job_id (fresh_ids "b").

(** The system after some actions. *)
Definition after (actions : list Action) : System :=
  default initial (perform_all one_slot actions initial).

Lemma after_reachable actions : reachable one_slot (after actions).
Proof. apply performed_reachable. Qed.

Definition runs (id : string) (n : nat) : list Action := repeat (RunPhase id around) n.

(** Two jobs are submitted; the first is brought to its execution. *)
Definition start : list Action :=
  [RecoverJobs 0 (λ id, id); AcceptJob 1 (fresh_ids "a") (submission "alice" "k1" [1; 2; 3]%N);
   AcceptJob 2 (fresh_ids "b") (submission "bob" "k2" [4]%N)].

Example first_executes :
  (job_status <$> jobs (store (after (start ++ runs first_id 9))) !! first_id) = Some JobRunning.
Proof. vm_compute. reflexivity. Qed.

Lemma option_test {A} (o : option A) (f : A → bool) :
  from_option f false o = true → ∃ x, o = Some x ∧ f x = true.
Proof. destruct o; [eauto|done]. Qed.

Lemma slot_width : Resources.fits (total_capacity (jm_capacity one_slot)) Resources.width.
Proof. vm_compute. split_and!; discriminate. Qed.

Definition executing_first : System := after (start ++ runs first_id 9).
Definition finished_first : System := after (start ++ runs first_id 11).

Lemma capacity_never_exceeded_witness :
  (N.of_nat (size (running_jobs (jobs (store executing_first)))) ≤ 1)%N ∧
  size (running_jobs (jobs (store executing_first))) = 1.
Proof.
  split; [|vm_compute; reflexivity].
  apply (capacity_never_exceeded one_slot executing_first (after_reachable _) slot_width).
Defined.

Lemma execution_authorized_witness :
  ∃ job r, jobs (store executing_first) !! first_id = Some job ∧ job_reservation job = Some r ∧
    res_job_id r = first_id.
Proof.
  destruct (option_test (jobs (store executing_first) !! first_id)
    (λ job, bool_decide (job_status job = JobRunning))) as (job & Hj & Hs); [vm_compute; reflexivity|].
  apply bool_decide_eq_true in Hs.
  destruct (execution_authorized one_slot executing_first first_id job (after_reachable _) Hj)
    as [Hrun _].
  destruct (Hrun ltac:(vm_compute; reflexivity) Hs) as [(r & Hr & _ & Hid) _].
  exists job, r. split; [exact Hj|]. split; [exact Hr|exact Hid].
Defined.

Lemma terminal_jobs_final_witness :
  ∃ job, jobs (store finished_first) !! first_id = Some job ∧ job_status job = JobSucceeded ∧
    from_option (λ r, ReservationState.is_terminal (res_state r)) false (job_reservation job) = true.
Proof.
  destruct (option_test (jobs (store finished_first) !! first_id)
    (λ job, bool_decide (job_status job = JobSucceeded))) as (job & Hj & Hs); [vm_compute; reflexivity|].
  apply bool_decide_eq_true in Hs. exists job. split; [exact Hj|]. split; [exact Hs|].
  apply (terminal_jobs_final one_slot finished_first finished_first first_id job (after_reachable _)
    (rtc_refl _ _) Hj). rewrite Hs. reflexivity.
Defined.

Lemma no_job_forgotten_witness :
  ∃ job, jobs (store executing_first) !! second_id = Some job ∧
    (JobStatus.is_terminal (job_status job) = true ∨
     (∃ p, tasks executing_first !! second_id = Some p ∧ p ≠ Finished) ∨ stranded job).
Proof.
  destruct (option_test (jobs (store executing_first) !! second_id) (λ _, true)) as (job & Hj & _);
    [vm_compute; reflexivity|].
  exists job. split; [exact Hj|].
  apply (no_job_forgotten one_slot executing_first second_id job (after_reachable _));
    [vm_compute; reflexivity|exact Hj].
Defined.

(** The manager crashed while the first job was executing. *)
Definition crashed_first : System :=
  after (start ++ runs first_id 9 ++ [CrashDuring (ExpireJob 9 first_id) 0]).

Lemma recovery_settles_witness :
  ∃ sys', perform one_slot (RecoverJobs 10 (λ id, id)) crashed_first = Some sys' ∧ up sys' = true.
Proof.
  destruct (recovery_settles one_slot crashed_first 10 (λ id, id) (after_reachable _))
    as (sys' & Hp & Hup & _); [vm_compute; reflexivity|].
  exists sys'. split; [exact Hp|exact Hup].
Defined.

Definition is_waiting (job : ExecutionJob) : bool :=
  negb (JobStatus.is_terminal (job_status job)) &&
  from_option (λ r, bool_decide (res_state r = ResPending) && bool_decide (res_expires_at r = None)) false
    (job_reservation job).

Lemma waiting_test s id :
  from_option is_waiting false (jobs s !! id) = true → ∃ job r, waiting s id job r.
Proof.
  intros (job & Hj & Hw)%option_test. apply andb_true_iff in Hw as [Ht Hr].
  apply negb_true_iff in Ht. apply option_test in Hr as (r & Hr & Hs). apply andb_true_iff in Hs as [Hs He].
  apply bool_decide_eq_true in Hs, He. by exists job, r.
Qed.


Lemma capacity_progress_witness :
  ∃ first, ∀ now, fst (run_op (try_reserve one_slot now first) (store (after start))) = Ok true.
Proof.
  destruct (waiting_test (store (after start)) second_id) as (job & r & Hw); [vm_compute; reflexivity|].
  apply (capacity_progress one_slot (after start) second_id job r (after_reachable _) slot_width Hw).
  - destruct Hw as (Hj & _ & Hr & _). vm_compute in Hj. injection Hj as <-. simpl in Hr.
    injection Hr as <-. vm_compute. split_and!; discriminate.
  - assert (map_Forall (λ _ j, from_option (λ q, bool_decide (res_expires_at q = None)) true
      (job_reservation j) = true) (jobs (store (after start)))) as Hall.
    { apply (bool_decide_unpack _). vm_compute. exact I. }
    intros i j q Hj Hq. specialize (Hall i j Hj). simpl in Hall. rewrite Hq in Hall.
    by apply bool_decide_eq_true in Hall.
Defined.

Lemma cancellation_exact_witness :
  ∃ job', fst (run_op (cancel_locked 9 second_id false) (store executing_first)) = Ok job' ∧
    job_status job' = JobCancelled.
Proof.
  destruct (option_test (jobs (store executing_first) !! second_id)
    (λ job, bool_decide (job_status job = JobQueued))) as (job & Hj & Hs); [vm_compute; reflexivity|].
  apply bool_decide_eq_true in Hs.
  pose proof (cancellation_exact one_slot executing_first 9 second_id false job (after_reachable _) Hj)
    as Hc. destruct (run_op _ _) as [r s']. destruct Hc as (job' & -> & _ & Hc).
  rewrite Hs in Hc. exists job'. split; [reflexivity|]. apply Hc.
Defined.

Lemma jobs_owned_witness :
  cancel one_slot 9 first_id "bob" true (store executing_first) = (Err other_principal, []).
Proof.
  apply (jobs_owned one_slot (store executing_first) first_id "alice" "bob" 9 true); [|discriminate].
  unfold owned_by. destruct (_ ≫= dir_expired) eqn:E; [vm_compute in E; discriminate E|].
  eexists. split; [vm_compute; reflexivity|reflexivity].
Defined.

Lemma results_verified_witness :
  ∃ r job, fst (result one_slot 20 first_id "alice" (store finished_first)) = Ok r ∧
    jobs (store finished_first) !! jres_job_id r = Some job ∧ jres_status r = JobSucceeded.
Proof.
  destruct (fst (result one_slot 20 first_id "alice" (store finished_first))) as [r|e] eqn:E;
    [|vm_compute in E; discriminate E].
  destruct (results_verified one_slot (store finished_first) 20 first_id "alice" r E)
    as (job & receipt & Hj & _). exists r, job. split; [reflexivity|]. split; [exact Hj|].
  vm_compute in E. injection E as <-. reflexivity.
Defined.

Lemma result_round_trip_witness :
  ∃ ws, persist_result 8 first_id JobSucceeded plain_result (store executing_first) = (Ok tt, ws) ∧
    fst (result one_slot 20 first_id "alice" (apply_writes (store executing_first) ws)) =
      Ok {| jres_job_id := first_id; jres_status := JobSucceeded; jres_result := plain_result |}.
Proof.
  destruct (persist_result 8 first_id JobSucceeded plain_result (store executing_first)) as [r ws] eqn:E.
  assert (r = Ok tt) as -> by (apply (f_equal fst) in E; simpl in E; rewrite <-E; vm_compute; reflexivity).
  exists ws. split; [reflexivity|].
  destruct (option_test (jobs (store executing_first) !! first_id) (λ job,
    String.eqb (job_id job) first_id &&
    String.eqb (request_hash (plain_request [1; 2; 3]%N)) (jr_request_hash (job_request job))))
    as (job & Hj & Ht); [vm_compute; reflexivity|].
  apply andb_true_iff in Ht as [Hid Hh]. apply String.eqb_eq in Hid, Hh.
  destruct (fst (read_request one_slot first_id (store executing_first))) as [stored|e] eqn:Er;
    [|vm_compute in Er; discriminate Er].
  assert (sr_owner stored = "alice" ∧ sr_request stored = plain_request [1; 2; 3]%N) as [Ho Hq]
    by (vm_compute in Er; injection Er as <-; split; reflexivity).
  apply (result_round_trip one_slot (store executing_first) 8 20 first_id "alice" stored job plain_result
    {| plain_id := "exec_1"; plain_status := ExecCompleted; plain_exit := Some 0%Z;
       plain_reservation := None |} ws Hj Hid); [vm_compute; reflexivity|exact Er|exact Ho| | | |exact E].
  - rewrite Hq. exact Hh.
  - split; [reflexivity|]. split; [reflexivity|]. split; reflexivity.
  - left. reflexivity.
Defined.

Lemma submission_idempotent_witness :
  ∃ sub s', run_op (accept one_slot 1 (fresh_ids "a") (submission "alice" "k1" [1; 2; 3]%N)) ∅ = (Ok sub, s') ∧
    run_op (accept one_slot 9 (fresh_ids "b") (submission "alice" "k1" [9]%N)) s' = (Err key_conflict, s').
Proof.
  destruct (run_op (accept one_slot 1 (fresh_ids "a") (submission "alice" "k1" [1; 2; 3]%N)) ∅)
    as [[sub|e] s'] eqn:E; [|apply (f_equal fst) in E; vm_compute in E; discriminate E].
  exists sub, s'. split; [reflexivity|].
  pose proof (submission_idempotent one_slot ∅ 1 (fresh_ids "a") (repeat 7%N 12)
    (submission "alice" "k1" [1; 2; 3]%N) "k1" sub s' 9 (fresh_ids "b") (submission "alice" "k1" [9]%N)
    eq_refl eq_refl) as H.
  destruct (run_op (accept one_slot 9 _ _) s') as [r s''].
  destruct H as [-> Hr]; [vm_compute; reflexivity|reflexivity|reflexivity|repeat constructor|exact E
    |reflexivity|reflexivity|reflexivity|vm_compute; reflexivity|].
  vm_compute in Hr. rewrite Hr. reflexivity.
Defined.

(** ** A job left in preparation *)

(** The manager crashed between the two transitions of a job's start, was
    started again, and ran the job; then the job was cancelled. *)
Definition restart_in_preparation : list Action :=
  start ++ runs first_id 7 ++ [CrashDuring (ExpireJob 9 first_id) 0; RecoverJobs 10 (λ id, id)] ++
  runs first_id 7.

(** A job that recovery finds in preparation is not brought to its
    execution: its run ends with the job still in preparation, its reservation
    released and nothing left to run it, and cancelling it is only requested. *)
Theorem preparing_job_stranded :
  let sys := after restart_in_preparation in
  let cancelled := after (restart_in_preparation ++ [CancelJob 12 first_id false]) in
  (job_status <$> jobs (store (after (start ++ runs first_id 7))) !! first_id) = Some JobPreparing ∧
  up sys = true ∧
  (job_status <$> jobs (store sys) !! first_id) = Some JobPreparing ∧
  (res_state <$> (jobs (store sys) !! first_id ≫= job_reservation)) = Some ResReleased ∧
  tasks sys !! first_id = Some Finished ∧
  (job_status <$> jobs (store cancelled) !! first_id) = Some JobPreparing ∧
  (can_effective ∘ job_cancellation <$> jobs (store cancelled) !! first_id) = Some false.
Proof. vm_compute. done. Qed.
