(* ===== verification/Receipt.v ===== *)
(** Execution receipts (src/crates/compute-core/src/receipt.rs), with the evidence
    they carry of projects (project.rs), stacks (stack.rs) and application bundles
    (app_bundle.rs): their data, how evidence is derived from a receipt, [seal],
    [sign] and [verify].

    A receipt is its hashed body, the hash and a signature.  Ed25519 is a parameter;
    paths compare by their components, as [Path] does. *)

From S2P Require Import Prelude Text Core Isolation Policy Admission Descriptor.
From S2P Require Import Matching Pool Placement Requests JobRecord JobStore.

(** ** Paths *)

Inductive Component : Type :=
| RootDir
| CurDir
| ParentDir
| Normal (name : string).

#[export] Instance Component_eq_dec : EqDecision Component.
Proof. solve_decision. Defined.

Definition component_of (name : string) : Component :=
  if String.eqb name ".." then ParentDir else Normal name.

(** A part of a path that is no component: [a//b], [a/./b]. *)
Definition is_nothing (name : string) : bool := is_empty name || String.eqb name ".".

(** [Path::components] on Unix *)
Definition components (path : string) : list Component :=
  let parts := split "/" path in
  (if starts_with "/" path then [RootDir] else if bool_decide (head parts = Some ".") then [CurDir] else [])
  ++ (component_of <$> List.filter (λ name, negb (is_nothing name)) parts).

(** The order the variants are declared in, then names by their bytes. *)
Definition component_rank (c : Component) : N :=
  match c with RootDir => 0 | CurDir => 1 | ParentDir => 2 | Normal _ => 3 end.

Definition component_name (c : Component) : string := match c with Normal name => name | _ => "" end.

Definition compare_components (l r : Component) : comparison :=
  then_with (cmp (component_rank l) (component_rank r)) (cmp (component_name l) (component_name r)).

Fixpoint compare_lists {A} (c : A → A → comparison) (l r : list A) : comparison :=
  match l, r with
  | [], [] => Eq
  | [], _ :: _ => Lt
  | _ :: _, [] => Gt
  | x :: l, y :: r => then_with (c x y) (compare_lists c l r)
  end.

(** [Ord] and [Eq] for [Path] *)
Definition compare_paths (l r : string) : comparison := compare_lists compare_components (components l) (components r).
Definition same_path (l r : string) : bool := bool_decide (components l = components r).

(** [Path::file_name] *)
Definition file_name (path : string) : option string :=
  match last (components path) with Some (Normal name) => Some name | _ => None end.

(** ** Identities *)

Definition RECEIPT_VERSION : string := "compute.receipt@1".

Definition invalid_receipt (message : string) : ComputeError := InvalidReceipt message.

(** [ExecutionId::parse] *)
Definition parse_execution_id (value : string) : Result string ComputeError :=
  reject_if (negb (starts_with "exec_" value && N.ltb 5 (len value) && negb (any_char is_whitespace value)))
    (invalid_receipt "malformed execution identity") ;?;
  Ok value.

Record DistributionIdentity : Type := {
  di_id : string;
  di_platform : string;
  di_manifest_version : string;
}.

Record RuntimeIdentity : Type := {
  ri_declared : RuntimeKind;
  ri_selected : RuntimeKind;
  ri_observed : RuntimeKind;
  ri_version : string;
  ri_distribution_runtime_id : string;
  ri_executable_identity : string;
  ri_distribution_id : option string;
  ri_distribution_digest : option string;
}.

Record ExecutionRequestSummary : Type := {
  ers_entrypoint : string;
  ers_argument_count : N;
  ers_stdin_size : N;
  ers_stdin_sha256 : string;
}.

Record ExecutionPolicySummary : Type := {
  eps_network : NetworkPolicy;
  eps_filesystem : string;
  eps_timeout_ms : option N;
  eps_memory_bytes : option N;
  eps_environment : string;
  eps_environment_names : list string;
}.

Record InputReceipt : Type := {
  inr_path : string;
  inr_size : N;
  inr_sha256 : string;
  inr_required : bool;
}.

Inductive OutputCollectionStatus : Type := Collected | MissingRequired | MissingOptional.

#[export] Instance OutputCollectionStatus_eq_dec : EqDecision OutputCollectionStatus.
Proof. solve_decision. Defined.

Record OutputReceipt : Type := {
  our_path : string;
  our_size : option N;
  our_sha256 : option string;
  our_collection_status : OutputCollectionStatus;
}.

Inductive ReceiptFailureKind : Type :=
| FailWorkload | FailCompute | FailTimeout | FailPolicy | FailCancelled | FailKilled.

Record ReceiptError : Type := {
  rer_kind : ReceiptFailureKind;
  rer_code : string;
}.

Record ExecutionReceiptStatus : Type := {
  exs_status : ExecutionStatus;
  exs_exit_code : option Z;
  exs_error : option ReceiptError;
}.

Record ExecutionProvenance : Type := {
  prov_distribution_id : string;
  prov_runtime_lock_id : string;
  prov_manifest_id : string;
}.

Record ReceiptDependencies : Type := {
  rdep_capsule_id : string;
  rdep_verified : bool;
}.

Record Substrate : Type := {
  sub_version : string;
  sub_kind : string;
  sub_backend : option string;
  sub_artifacts : gmap string string;
  sub_limits : gmap string string;
}.

Record ProviderRuntimeRequirement : Type := {
  prr_runtime : RuntimeKind;
  prr_version : option string;
  prr_platform : option PlatformIdentity;
}.

Record RuntimeResolution : Type := {
  rres_requirement : ProviderRuntimeRequirement;
  rres_status : RuntimeLifecycleStatus;
  rres_distribution : option RuntimeDistribution;
  rres_detail : option string;
}.

Record ReceiptScope : Type := {
  scope_environment_id : string;
  scope_environment : string;
  scope_project_id : string;
  scope_project : string;
  scope_revision : string;
  scope_workload_id : string;
  scope_workload : string;
  scope_workload_kind : string;
  scope_deployment_id : option string;
}.

(** ** Verifications *)

Inductive VerificationStatus : Type := Satisfied | Unsatisfied | NotRequired | NotEvaluated.

#[export] Instance VerificationStatus_eq_dec : EqDecision VerificationStatus.
Proof. solve_decision. Defined.

Record Verification : Type := {
  ver_status : VerificationStatus;
  ver_evidence : string;
}.

#[export] Instance Verification_eq_dec : EqDecision Verification.
Proof. solve_decision. Defined.

Definition verification (status : VerificationStatus) (evidence : string) : Verification :=
  {| ver_status := status; ver_evidence := evidence |}.

(** *** Projects *)

Record ProjectIdentity : Type := {
  pid_source : string;
  pid_name : string;
  pid_source_schema : string;
}.

Record RuntimeNeed : Type := {
  rn_kind : RuntimeKind;
  rn_version : option string;
  rn_origin : string;
}.

Inductive ToolRole : Type := RoleProvisioning | RoleExecution.

Record ToolNeed : Type := {
  tn_name : string;
  tn_version : option string;
  tn_role : ToolRole;
}.

Record DeclaredRequirements : Type := {
  dr_runtimes : list RuntimeNeed;
  dr_tools : list ToolNeed;
  dr_dependency_count : N;
  dr_dependencies_id : string;
}.

Record ResolvedCommand : Type := {
  rc_name : option string;
  rc_entrypoint : string;
  rc_argument_count : N;
}.

Record ResolvedRequirements : Type := {
  rr_runtime : RuntimeKind;
  rr_runtime_constraint : option string;
  rr_os : option string;
  rr_architecture : option string;
  rr_capsule_id : option string;
  rr_command : ResolvedCommand;
  rr_environment_names : list string;
}.

Record ProjectBinding : Type := {
  pb_identity : ProjectIdentity;
  pb_requirements_id : string;
  pb_declared : DeclaredRequirements;
  pb_resolved : ResolvedRequirements;
}.

Record ToolVerification : Type := {
  tv_name : string;
  tv_verification : Verification;
}.

#[export] Instance ToolVerification_eq_dec : EqDecision ToolVerification.
Proof. solve_decision. Defined.

Record VerifiedRequirements : Type := {
  vr_runtime : Verification;
  vr_platform : Verification;
  vr_dependencies : Verification;
  vr_command : Verification;
  vr_tools : list ToolVerification;
}.

#[export] Instance VerifiedRequirements_eq_dec : EqDecision VerifiedRequirements.
Proof. solve_decision. Defined.

Record ReceiptProject : Type := {
  rp_binding : ProjectBinding;
  rp_verified : VerifiedRequirements;
}.

(** *** Stacks *)

Record StackIdentity : Type := {
  stk_name : string;
  stk_version : string;
  stk_fingerprint : string;
}.

(** [ComponentSource::Package] and [ResolvedComponent::Package], their only
    variants *)
Record ComponentSource : Type := {
  src_ecosystem : string;
  src_package : string;
  src_constraint : string;
}.

Record ComponentDeclaration : Type := {
  cd_name : string;
  cd_source : ComponentSource;
  cd_credentials : list string;
  cd_platforms : list string;
  cd_unsupported : option string;
}.

Record ResolvedComponent : Type := {
  rcm_version : string;
  rcm_artifact : string;
}.

Record ComponentBinding : Type := {
  cb_declared : ComponentDeclaration;
  cb_resolved : option ResolvedComponent;
}.

Inductive ProbeKind : Type := PackageVersions | WasmRuntime.

#[export] Instance ProbeKind_eq_dec : EqDecision ProbeKind.
Proof. solve_decision. Defined.

Record ProbeEvidence : Type := {
  probe_kind : ProbeKind;
  probe_receipt : string;
  probe_program : string;
  probe_runtime : RuntimeKind;
  probe_observed : gmap string (option string);
}.

Record StackBinding : Type := {
  sb_identity : StackIdentity;
  sb_components : list ComponentBinding;
  sb_capsule_id : option string;
  sb_probes : list ProbeEvidence;
}.

Inductive GatePhase : Type := PhaseResolve | PhaseMaterialize | PhaseVerify.

#[export] Instance Phase_eq_dec : EqDecision GatePhase.
Proof. solve_decision. Defined.

Record Gate : Type := {
  gate_check : string;
  gate_phase : GatePhase;
  gate_verification : Verification;
}.

#[export] Instance Gate_eq_dec : EqDecision Gate.
Proof. solve_decision. Defined.

Record ComponentEvidence : Type := {
  ce_name : string;
  ce_gates : list Gate;
}.

#[export] Instance ComponentEvidence_eq_dec : EqDecision ComponentEvidence.
Proof. solve_decision. Defined.

Inductive ComponentState : Type :=
| Declared | Resolved | Materialized | Verified | VerificationUnavailable | ComponentUnsupported | ComponentFailed.

#[export] Instance ComponentState_eq_dec : EqDecision ComponentState.
Proof. solve_decision. Defined.

Record ReceiptStack : Type := {
  rst_binding : StackBinding;
  rst_components : list ComponentEvidence;
}.

(** *** Application bundles *)

Record AppBundleDeclaration : Type := {
  abd_application : string;
  abd_version : option string;
  abd_runtime : RuntimeKind;
  abd_abi : string;
  abd_artifact : option string;
}.

Record ResolvedAppBundle : Type := {
  rab_manifest_path : string;
  rab_manifest_sha256 : string;
  rab_module_path : string;
  rab_module_sha256 : string;
  rab_version : string;
  rab_package_identity : string;
}.

Record AppInspection : Type := {
  ain_receipt : string;
  ain_package_version : string;
  ain_certification : string;
  ain_failed_checks : list string;
  ain_application_id : string;
  ain_artifact_hash : string;
  ain_package_identity : string;
  ain_readiness : string;
  ain_missing_providers : list string;
}.

Record AppBundleBinding : Type := {
  abb_declared : AppBundleDeclaration;
  abb_resolved : option ResolvedAppBundle;
  abb_runtime_probe : option ProbeEvidence;
  abb_inspection : option AppInspection;
}.

Record ReceiptAppBundle : Type := {
  rap_binding : AppBundleBinding;
  rap_gates : list Gate;
}.

(** ** Receipts *)

Record ReceiptBody : Type := {
  rb_receipt_version : string;
  rb_execution_id : string;
  rb_workload : string;
  rb_bundle : option string;
  rb_provider : option ProviderIdentity;
  rb_provider_protocol : option string;
  rb_application : option ApplicationIdentity;
  rb_process_runtime : option RuntimeResolution;
  rb_placement : option ReceiptPlacement;
  rb_reservation : option ReceiptReservation;
  rb_scope : option ReceiptScope;
  rb_project : option ReceiptProject;
  rb_stack : option ReceiptStack;
  rb_app_bundle : option ReceiptAppBundle;
  rb_policy_id : option string;
  rb_admission_id : option string;
  rb_admission_status : option string;
  rb_distribution : DistributionIdentity;
  rb_runtime : RuntimeIdentity;
  rb_request : ExecutionRequestSummary;
  rb_policy : ExecutionPolicySummary;
  rb_isolation : IsolationEvidence;
  rb_dependencies : option ReceiptDependencies;
  rb_inputs : list InputReceipt;
  rb_outputs : list OutputReceipt;
  rb_execution : ExecutionReceiptStatus;
  rb_started_at : option Z;
  rb_finished_at : option Z;
  rb_provenance : ExecutionProvenance;
  rb_substrate : option Substrate;
}.

Record ReceiptSignature : Type := {
  sig_algorithm : string;
  sig_key_id : string;
  sig_public_key : string;
  sig_signature : string;
}.

Record ExecutionReceipt : Type := {
  er_body :> ReceiptBody;
  er_receipt_hash : string;
  er_signature : option ReceiptSignature;
}.

(** ** Evidence of a project *)

Section evidence.
Implicit Types r : ReceiptBody.

(** [canonical] of [platform_verification] *)
Definition canonical_platform (value : string) : string :=
  let value := to_ascii_lowercase value in
  if String.eqb value "arm64" || String.eqb value "aarch64" then "arm64"
  else if String.eqb value "x86_64" || String.eqb value "amd64" then "x86_64" else value.

(** [platform_verification] *)
Definition platform_verification (resolved : ResolvedRequirements) (actual : PlatformIdentity) : Verification :=
  let agrees (wanted : option string) (found : string) :=
    from_option (λ wanted, String.eqb (canonical_platform wanted) (canonical_platform found)) true wanted in
  verification
    (if agrees (rr_os resolved) (os actual) && agrees (rr_architecture resolved) (architecture actual)
     then Satisfied else Unsatisfied)
    ("executed on " +:+ platform_label actual).

Definition verify_runtime (resolved : ResolvedRequirements) (observed : RuntimeIdentity) : Verification :=
  if negb (bool_decide (ri_observed observed = rr_runtime resolved)) then
    verification Unsatisfied ("observed " +:+ RuntimeKind.as_str (ri_observed observed) +:+ " where "
      +:+ RuntimeKind.as_str (rr_runtime resolved) +:+ " is required")
  else
    match rr_runtime_constraint resolved with
    | Some constraint =>
        if negb (runtime_version_matches (rr_runtime resolved) constraint (ri_version observed)) then
          verification Unsatisfied ("observed " +:+ RuntimeKind.as_str (ri_observed observed) +:+ " " +:+ ri_version observed
            +:+ " where " +:+ constraint +:+ " is required")
        else verification Satisfied ("observed " +:+ RuntimeKind.as_str (ri_observed observed) +:+ " " +:+ ri_version observed)
    | None => verification Satisfied ("observed " +:+ RuntimeKind.as_str (ri_observed observed) +:+ " " +:+ ri_version observed)
    end.

Definition execution_platform r : option PlatformIdentity := rb_placement r ≫= rp_execution_platform.

Definition verify_platform (resolved : ResolvedRequirements) r : Verification :=
  match rr_os resolved, rr_architecture resolved with
  | None, None => verification NotRequired "no platform constraint"
  | _, _ =>
      match execution_platform r with
      | Some actual => platform_verification resolved actual
      | None => verification NotEvaluated "the receipt records no execution platform"
      end
  end.

Definition verify_dependencies (binding : ProjectBinding) r : Verification :=
  match rr_capsule_id (pb_resolved binding), rb_dependencies r with
  | None, None =>
      if N.eqb (dr_dependency_count (pb_declared binding)) 0
      then verification NotRequired "the project needs no runtime dependencies"
      else verification Unsatisfied "the project needs runtime dependencies and no capsule was resolved"
  | None, Some _ => verification Unsatisfied "the project needs runtime dependencies and no capsule was resolved"
  | Some expected, Some actual =>
      if rdep_verified actual && String.eqb (rdep_capsule_id actual) expected
      then verification Satisfied ("verified capsule " +:+ expected)
      else verification Unsatisfied ("capsule " +:+ expected +:+ " was not verified at execution")
  | Some expected, None => verification Unsatisfied ("capsule " +:+ expected +:+ " was not verified at execution")
  end.

Definition verify_command (resolved : ResolvedRequirements) r : Verification :=
  let entrypoint := ers_entrypoint (rb_request r) in
  if String.eqb entrypoint (default "" (file_name (rc_entrypoint (rr_command resolved)))) &&
     N.eqb (ers_argument_count (rb_request r)) (rc_argument_count (rr_command resolved))
  then verification Satisfied ("executed " +:+ entrypoint)
  else verification Unsatisfied ("executed " +:+ entrypoint +:+ " instead").

Definition verify_tool (tool : ToolNeed) : ToolVerification :=
  {| tv_name := tn_name tool;
     tv_verification :=
       verification NotEvaluated
         match tn_role tool with
         | RoleProvisioning => "provisioning tool: produced the environment before execution, not observed"
         | RoleExecution => "no execution evidence records tools on the target"
         end |}.

(** [verify_requirements] *)
Definition verify_requirements (binding : ProjectBinding) r : VerifiedRequirements :=
  {| vr_runtime := verify_runtime (pb_resolved binding) (rb_runtime r);
     vr_platform := verify_platform (pb_resolved binding) r;
     vr_dependencies := verify_dependencies binding r;
     vr_command := verify_command (pb_resolved binding) r;
     vr_tools := verify_tool <$> dr_tools (pb_declared binding) |}.

(** [ReceiptProject::attest] *)
Definition attest_project (binding : ProjectBinding) r : ReceiptProject :=
  {| rp_binding := binding; rp_verified := verify_requirements binding r |}.

Definition project_verifications (v : VerifiedRequirements) : list Verification :=
  [vr_runtime v; vr_platform v; vr_dependencies v; vr_command v] ++ (tv_verification <$> vr_tools v).

Definition is_unsatisfied (v : Verification) : bool := bool_decide (ver_status v = Unsatisfied).

Definition verify_identities (identities : list string) : Result unit ComputeError :=
  try_for_each validate_sha256_identity identities.

(** [ReceiptProject::verify] *)
Definition verify_project (p : ReceiptProject) r : Result unit ComputeError :=
  let binding := rp_binding p in
  verify_identities ([pb_requirements_id binding; dr_dependencies_id (pb_declared binding)]
    ++ option_list (rr_capsule_id (pb_resolved binding))) ;?;
  reject_if (is_empty (pid_name (pb_identity binding)) || is_empty (pid_source (pb_identity binding)))
    (invalid_receipt "project identity is incomplete") ;?;
  reject_if (negb (bool_decide (verify_requirements binding r = rp_verified p)))
    (invalid_receipt "project verification does not follow from the receipt's evidence") ;?;
  reject_if (existsb is_unsatisfied (project_verifications (rp_verified p)))
    (invalid_receipt "an execution receipt cannot record an unsatisfied project requirement").

(** ** Evidence of a stack *)

(** [StackBinding::unsupported_on] *)
Definition unsupported_on (binding : StackBinding) (platform : PlatformIdentity) : list (string * string) :=
  omap (λ c : ComponentBinding,
    let declared := cb_declared c in
    reason ← match cd_unsupported declared with
             | Some reason => Some reason
             | None =>
                 if negb (bool_decide (cd_platforms declared = [])) &&
                    negb (bool_decide (platform_label platform ∈ cd_platforms declared))
                 then Some ("available on " +:+ join ", " (cd_platforms declared) +:+ ", not " +:+ platform_label platform)
                 else None
             end;
    Some (cd_name declared, reason)) (sb_components binding).

Definition find_probe (binding : StackBinding) (kind : ProbeKind) : option ProbeEvidence :=
  find (λ probe, bool_decide (probe_kind probe = kind)) (sb_probes binding).

Definition gate (check : string) (phase : GatePhase) (status : VerificationStatus) (evidence : string) : Gate :=
  {| gate_check := check; gate_phase := phase; gate_verification := verification status evidence |}.

(** [short]; identities are ASCII where it is used *)
Definition short (identity : string) : string := String.substring 0 19 identity.

Definition package_resolved (c : ComponentBinding) : Gate :=
  let source := cd_source (cb_declared c) in
  match cb_resolved c with
  | Some found => gate "package resolved" PhaseResolve Satisfied
      (src_package source +:+ " " +:+ rcm_version found +:+ " satisfies " +:+ src_constraint source
       +:+ " (" +:+ rcm_artifact found +:+ ")")
  | None => gate "package resolved" PhaseResolve Unsatisfied ("nothing satisfies " +:+ src_constraint source)
  end.

Definition package_materialized (binding : StackBinding) (c : ComponentBinding) r : Gate :=
  match cb_resolved c with
  | None => gate "package materialized" PhaseMaterialize NotEvaluated "not resolved"
  | Some _ =>
      match sb_capsule_id binding, rb_dependencies r with
      | Some expected, Some actual =>
          if rdep_verified actual && String.eqb (rdep_capsule_id actual) expected
          then gate "package materialized" PhaseMaterialize Satisfied ("present in verified capsule " +:+ expected)
          else gate "package materialized" PhaseMaterialize Unsatisfied
                 "the capsule it resolved from was not verified at execution"
      | _, _ => gate "package materialized" PhaseMaterialize Unsatisfied
                  "the capsule it resolved from was not verified at execution"
      end
  end.

Definition package_verified (binding : StackBinding) (c : ComponentBinding) : Gate :=
  match cb_resolved c, find_probe binding PackageVersions with
  | None, _ => gate "package verified" PhaseVerify NotEvaluated "not resolved"
  | Some _, None => gate "package verified" PhaseVerify NotEvaluated
      "no probe ran on the target: presence is declared, not observed"
  | Some found, Some probe =>
      match probe_observed probe !! cd_name (cb_declared c) with
      | Some (Some seen) =>
          if String.eqb seen (rcm_version found)
          then gate "package verified" PhaseVerify Satisfied
                 ("probe " +:+ short (probe_receipt probe) +:+ " observed " +:+ seen)
          else gate "package verified" PhaseVerify Unsatisfied
                 ("probe observed " +:+ seen +:+ ", resolved " +:+ rcm_version found)
      | Some None => gate "package verified" PhaseVerify Unsatisfied "probe found it absent"
      | None => gate "package verified" PhaseVerify NotEvaluated "the probe did not check this component"
      end
  end.

(** [package_gates] *)
Definition package_gates (binding : StackBinding) (c : ComponentBinding) r : list Gate :=
  [package_resolved c; package_materialized binding c r; package_verified binding c].

(** [ReceiptStack::attest] *)
Definition attest_stack (binding : StackBinding) r : ReceiptStack :=
  {| rst_binding := binding;
     rst_components := (λ c, {| ce_name := cd_name (cb_declared c); ce_gates := package_gates binding c r |})
       <$> sb_components binding |}.

(** The states of evidence, by its gates: [ReceiptAppBundle::state] and the end of
    [ComponentEvidence::state]. *)
Definition phase_done (phase : GatePhase) (gates : list Gate) : bool :=
  forallb (λ g, bool_decide (ver_status (gate_verification g) = Satisfied))
    (List.filter (λ g, bool_decide (gate_phase g = phase)) gates).

Definition gates_state (gates : list Gate) : ComponentState :=
  if existsb (λ g, is_unsatisfied (gate_verification g)) gates then ComponentFailed
  else if negb (phase_done PhaseResolve gates) then Declared
  else if negb (phase_done PhaseMaterialize gates) then Resolved
  else if negb (phase_done PhaseVerify gates) then VerificationUnavailable
  else Verified.

(** [ComponentEvidence::state] *)
Definition component_state (evidence : ComponentEvidence) (declaration : ComponentDeclaration) : ComponentState :=
  if bool_decide (is_Some (cd_unsupported declaration)) then ComponentUnsupported else gates_state (ce_gates evidence).

Definition verify_component (c : ComponentBinding * ComponentEvidence) : Result unit ComputeError :=
  match component_state (snd c) (cb_declared (fst c)) with
  | ComponentUnsupported => Err (invalid_receipt "an execution receipt cannot record an unsupported stack component")
  | ComponentFailed => Err (invalid_receipt "an execution receipt cannot record a failed stack component")
  | _ => Ok tt
  end.

(** [ReceiptStack::verify] *)
Definition verify_stack (stack : ReceiptStack) r : Result unit ComputeError :=
  let binding := rst_binding stack in
  let identity := sb_identity binding in
  validate_sha256_identity (stk_fingerprint identity) ;?;
  reject_if (is_empty (stk_name identity) || is_empty (stk_version identity)) (invalid_receipt "stack identity is incomplete") ;?;
  verify_identities (option_list (sb_capsule_id binding)
    ++ mjoin ((λ probe, [probe_receipt probe; probe_program probe]) <$> sb_probes binding)) ;?;
  reject_if (bool_decide (sb_components binding = [])) (invalid_receipt "a stack has no components") ;?;
  reject_if (negb (bool_decide (rst_components (attest_stack binding r) = rst_components stack)))
    (invalid_receipt "stack evidence does not follow from the receipt's evidence") ;?;
  reject_if (from_option (λ platform, negb (bool_decide (unsupported_on binding platform = []))) false (execution_platform r))
    (invalid_receipt "an execution receipt cannot record a stack component the target excludes") ;?;
  try_for_each verify_component (zip (sb_components binding) (rst_components stack)).

(** ** Evidence of an application bundle *)

Definition manifest_resolved (binding : AppBundleBinding) : Gate :=
  let declared := abb_declared binding in
  match abb_resolved binding with
  | Some found => gate "manifest resolved" PhaseResolve Satisfied
      (rab_manifest_path found +:+ " declares " +:+ abd_application declared +:+ " " +:+ rab_version found
       +:+ ", module format " +:+ abd_abi declared +:+ ", package identity " +:+ short (rab_package_identity found))
  | None => gate "manifest resolved" PhaseResolve Unsatisfied
      ("no supplied manifest declares " +:+ abd_application declared +:+ " (" +:+ abd_abi declared +:+ ")"
       +:+ from_option (λ version, " " +:+ version) "" (abd_version declared))
  end.

Definition module_resolved (binding : AppBundleBinding) : Gate :=
  match abb_resolved binding with
  | Some found => gate "module resolved" PhaseResolve Satisfied
      (rab_module_path found +:+ " (" +:+ rab_module_sha256 found +:+ ") is the module the manifest names")
  | None => gate "module resolved" PhaseResolve Unsatisfied "no supplied file is the module a matching manifest names"
  end.

Definition app_materialized (check : string) (item : option (string * string)) r : Gate :=
  match item with
  | None => gate check PhaseMaterialize NotEvaluated "not resolved"
  | Some (path, sha) =>
      if existsb (λ i, String.eqb (inr_path i) path && String.eqb (inr_sha256 i) sha) (rb_inputs r)
      then gate check PhaseMaterialize Satisfied (path +:+ " was materialized with identity " +:+ sha)
      else gate check PhaseMaterialize Unsatisfied (path +:+ " was not materialized as resolved")
  end.

Definition CERTIFIED_CHECK : string := "certified by the AppBoundry platform package".

Definition app_certified (binding : AppBundleBinding) : Gate :=
  match abb_inspection binding, abb_resolved binding with
  | None, _ => gate CERTIFIED_CHECK PhaseVerify NotEvaluated
      "not inspected: no @appport/appboundry in the materialized environment"
  | Some _, None => gate CERTIFIED_CHECK PhaseVerify NotEvaluated "not resolved"
  | Some inspection, Some found =>
      let same := String.eqb (ain_artifact_hash inspection) (trim_digest (rab_module_sha256 found)) &&
                  String.eqb (ain_package_identity inspection) (rab_package_identity found) &&
                  String.eqb (ain_application_id inspection) (abd_application (abb_declared binding)) in
      if String.eqb (ain_certification inspection) "CERTIFIED" && same then
        gate CERTIFIED_CHECK PhaseVerify Satisfied
          ("@appport/appboundry " +:+ ain_package_version inspection +:+ " certified "
           +:+ ain_application_id inspection +:+ " (probe " +:+ short (ain_receipt inspection) +:+ ")")
      else if String.eqb (ain_certification inspection) "CERTIFIED" then
        gate CERTIFIED_CHECK PhaseVerify Unsatisfied "the certified artifact is not the one Compute resolved"
      else
        gate CERTIFIED_CHECK PhaseVerify Unsatisfied ("certification failed: " +:+ join ", " (ain_failed_checks inspection))
  end.

Definition app_runtime (binding : AppBundleBinding) : Gate :=
  let runtime := abd_runtime (abb_declared binding) in
  match abb_runtime_probe binding with
  | None => gate "runtime capability verified" PhaseVerify NotEvaluated
      ("no probe ran a " +:+ RuntimeKind.as_str runtime +:+ " module on the target")
  | Some probe =>
      match probe_observed probe !! "wasm-runtime" with
      | Some seen =>
          if bool_decide (probe_kind probe = WasmRuntime) && bool_decide (probe_runtime probe = runtime)
          then gate "runtime capability verified" PhaseVerify Satisfied
                 ("probe " +:+ short (probe_receipt probe) +:+ " ran a module on "
                  +:+ RuntimeKind.as_str (probe_runtime probe) +:+ " " +:+ default "unknown" seen)
          else gate "runtime capability verified" PhaseVerify Unsatisfied
                 ("probe ran on " +:+ RuntimeKind.as_str (probe_runtime probe) +:+ ", not " +:+ RuntimeKind.as_str runtime)
      | None => gate "runtime capability verified" PhaseVerify Unsatisfied
          ("probe ran on " +:+ RuntimeKind.as_str (probe_runtime probe) +:+ ", not " +:+ RuntimeKind.as_str runtime)
      end
  end.

Definition app_providers (binding : AppBundleBinding) : Gate :=
  match abb_inspection binding with
  | Some inspection =>
      if String.eqb (ain_readiness inspection) "RUNNABLE"
      then gate "required providers available" PhaseVerify Satisfied "AppBoundry reports the application runnable"
      else gate "required providers available" PhaseVerify NotEvaluated
             ("unavailable: AppBoundry reports " +:+ ain_readiness inspection
              +:+ "; Compute established no providers for: " +:+ join ", " (ain_missing_providers inspection))
  | None => gate "required providers available" PhaseVerify NotEvaluated "not inspected"
  end.

Definition app_launch (declared : AppBundleDeclaration) : Gate :=
  gate "application launch verified" PhaseVerify NotEvaluated
    ("unavailable: Compute's " +:+ RuntimeKind.as_str (abd_runtime declared)
     +:+ " runtime hosts WASI modules; this application declares the " +:+ abd_abi declared
     +:+ " host ABI, which the AppBoundry host provides and Compute does not").

(** [gates] *)
Definition app_gates (binding : AppBundleBinding) r : list Gate :=
  [manifest_resolved binding; module_resolved binding;
   app_materialized "manifest materialized"
     ((λ f, (rab_manifest_path f, rab_manifest_sha256 f)) <$> abb_resolved binding) r;
   app_materialized "module materialized"
     ((λ f, (rab_module_path f, rab_module_sha256 f)) <$> abb_resolved binding) r;
   app_certified binding; app_runtime binding; app_providers binding; app_launch (abb_declared binding)].

(** [ReceiptAppBundle::attest] *)
Definition attest_app (binding : AppBundleBinding) r : ReceiptAppBundle :=
  {| rap_binding := binding; rap_gates := app_gates binding r |}.

(** [ReceiptAppBundle::verify] *)
Definition verify_app (app : ReceiptAppBundle) r : Result unit ComputeError :=
  let binding := rap_binding app in
  reject_if (is_empty (abd_application (abb_declared binding)) || is_empty (abd_abi (abb_declared binding)))
    (invalid_receipt "application bundle identity is incomplete") ;?;
  verify_identities (option_list (abd_artifact (abb_declared binding))
    ++ from_option (λ f, [rab_manifest_sha256 f; rab_module_sha256 f; rab_package_identity f]) [] (abb_resolved binding)
    ++ option_list (probe_receipt <$> abb_runtime_probe binding)
    ++ option_list (ain_receipt <$> abb_inspection binding)) ;?;
  reject_if (negb (bool_decide (rap_gates app = app_gates binding r)))
    (invalid_receipt "application bundle evidence does not follow from the receipt's evidence") ;?;
  reject_if (bool_decide (gates_state (rap_gates app) = ComponentFailed))
    (invalid_receipt "an execution receipt cannot record a failed application bundle").
End evidence.

(** ** Signatures *)

(** [ring]'s Ed25519: what signs, and what verifies. *)
Class Ed25519 := {
  SigningKey : Type;
  public_key : SigningKey → list N;
  ed_sign : SigningKey → list N → list N;
  ed_verify : list N → list N → list N → bool;
}.

Class Ed25519Laws `{!Ed25519} : Prop := {
  public_key_bytes key : length (public_key key) = 32 ∧ Forall is_byte (public_key key);
  signature_bytes key message : length (ed_sign key message) = 64 ∧ Forall is_byte (ed_sign key message);
  signature_verifies key message : ed_verify (public_key key) message (ed_sign key message) = true;
}.

Section receipts.
Context `{!CanonicalIdentity ReceiptBody, !CanonicalIdentity ApplicationMaterial,
          !CanonicalIdentity DistributionMaterial, !Sha256, !Ed25519}.

(** Whether a slice of two bytes, from the start of a character, splits one. *)
Definition splits_char (a b : ascii) : bool :=
  if N.ltb (byte_of a) 128 then N.leb 128 (byte_of b) else N.leb 224 (byte_of a).

(** [decode] of [check]: bytes, or no hexadecimal, or a panic on a slice that splits
    a character *)
Fixpoint decode_hex (text : string) : option (option (list N)) :=
  match text with
  | EmptyString => Some (Some [])
  | String _ EmptyString => Some None
  | String a (String b text) =>
      if splits_char a b then None
      else
        match from_hex_pair a b with
        | None => Some None
        | Some byte =>
            match decode_hex text with None => None | Some rest => Some (option_map (cons byte) rest) end
        end
  end.

Definition decode (text : string) : option (option (list N)) :=
  if N.even (len text) then decode_hex text else Some None.

(** [ReceiptSignature::check]; [None] when it panics *)
Definition check_signature (s : ReceiptSignature) (hash : string) : option (Result unit ComputeError) :=
  key ← decode (sig_public_key s);
  signature ← decode (sig_signature s);
  Some (match key, signature with
  | Some key, Some signature =>
      reject_if (negb (String.eqb (sig_algorithm s) "ed25519") || negb (Nat.eqb (length key) 32)
                 || negb (Nat.eqb (length signature) 64)) (invalid_receipt "unsupported receipt signature") ;?;
      reject_if (negb (String.eqb (sig_key_id s) (sha256_identity key))) (invalid_receipt "receipt signature key id mismatch") ;?;
      reject_if (negb (ed_verify key (bytes hash) signature)) (invalid_receipt "receipt signature does not verify")
  | _, _ => Err (invalid_receipt "malformed receipt signature")
  end).

(** [ReceiptSigner::key_id] and [sign] *)
Definition signer_key_id (key : SigningKey) : string := sha256_identity (public_key key).

Definition sign (key : SigningKey) (r : ExecutionReceipt) : ExecutionReceipt :=
  {| er_body := er_body r; er_receipt_hash := er_receipt_hash r;
     er_signature := Some {| sig_algorithm := "ed25519"; sig_key_id := signer_key_id key;
       sig_public_key := to_hex (public_key key);
       sig_signature := to_hex (ed_sign key (bytes (er_receipt_hash r))) |} |}.

(** ** Sealing *)

Definition compare_inputs (l r : InputReceipt) : comparison := compare_paths (inr_path l) (inr_path r).
Definition compare_outputs (l r : OutputReceipt) : comparison := compare_paths (our_path l) (our_path r).

Definition sort_names (names : list string) : list string := btree_set names.

Definition with_names (names : list string) (p : ExecutionPolicySummary) : ExecutionPolicySummary :=
  {| eps_network := eps_network p; eps_filesystem := eps_filesystem p; eps_timeout_ms := eps_timeout_ms p;
     eps_memory_bytes := eps_memory_bytes p; eps_environment := eps_environment p; eps_environment_names := names |}.

(** [normalize] *)
Definition normalize (r : ReceiptBody) : ReceiptBody :=
  {| rb_receipt_version := rb_receipt_version r; rb_execution_id := rb_execution_id r; rb_workload := rb_workload r;
     rb_bundle := rb_bundle r; rb_provider := rb_provider r; rb_provider_protocol := rb_provider_protocol r;
     rb_application := rb_application r; rb_process_runtime := rb_process_runtime r; rb_placement := rb_placement r;
     rb_reservation := rb_reservation r; rb_scope := rb_scope r; rb_project := rb_project r; rb_stack := rb_stack r;
     rb_app_bundle := rb_app_bundle r; rb_policy_id := rb_policy_id r; rb_admission_id := rb_admission_id r;
     rb_admission_status := rb_admission_status r; rb_distribution := rb_distribution r; rb_runtime := rb_runtime r;
     rb_request := rb_request r;
     rb_policy := with_names (sort_names (eps_environment_names (rb_policy r))) (rb_policy r);
     rb_isolation := rb_isolation r; rb_dependencies := rb_dependencies r;
     rb_inputs := sort_by compare_inputs (rb_inputs r); rb_outputs := sort_by compare_outputs (rb_outputs r);
     rb_execution := rb_execution r; rb_started_at := rb_started_at r; rb_finished_at := rb_finished_at r;
     rb_provenance := rb_provenance r; rb_substrate := rb_substrate r |}.

(** [ExecutionReceipt::hash] *)
Definition receipt_hash (r : ReceiptBody) : string := canonical_identity r.

(** [seal] *)
Definition seal_receipt (r : ExecutionReceipt) : ExecutionReceipt :=
  let body := normalize (er_body r) in
  let hash := receipt_hash body in
  {| er_body := body; er_receipt_hash := hash;
     er_signature := if String.eqb hash (er_receipt_hash r) then er_signature r else None |}.

(** ** Verification *)

(** [match &self.provider] *)
Definition verify_provider (r : ReceiptBody) : Result unit ComputeError :=
  let speaks (protocol : string) := bool_decide (rb_provider_protocol r = Some protocol) in
  match rb_provider r with
  | Some (LocalIdentity id) =>
      reject_if (is_empty id || negb (speaks "compute.local@1")) (invalid_receipt "invalid local provider binding")
  | Some (RemoteIdentity id endpoint) =>
      reject_if (is_empty id || is_empty endpoint || negb (speaks "compute.remote@1"))
        (invalid_receipt "invalid remote provider binding")
  | Some (CloudflareIdentity id account_id) =>
      reject_if (is_empty id || is_empty account_id || negb (speaks CLOUDFLARE_PROTOCOL))
        (invalid_receipt "invalid cloudflare provider binding")
  | None =>
      reject_if (bool_decide (is_Some (rb_provider_protocol r)))
        (invalid_receipt "provider protocol is present without provider identity")
  end.

Definition selection_consistent (p : ReceiptPlacement) : bool :=
  bool_decide (rp_candidates p = []) ||
  match List.filter rpc_selected (rp_candidates p) with
  | [selected] => String.eqb (rpc_provider_id selected) (rp_provider_id p) && rpc_eligible selected
  | _ => false
  end.

Definition verify_placement (r : ReceiptBody) (p : ReceiptPlacement) : Result unit ComputeError :=
  validate_sha256_identity (rp_placement_id p) ;?;
  reject_if (negb (bool_decide (is_Some (rb_provider r)))) (invalid_receipt "placement is present without provider identity") ;?;
  reject_if (negb (bool_decide (rb_provider_protocol r = Some (rp_provider_protocol p))))
    (invalid_receipt "placement provider protocol differs from receipt") ;?;
  reject_if (is_empty (rp_provider_id p) || N.ltb 64 (len (rp_provider_id p)) ||
             negb (all_bytes (λ b, is_ascii_alphanumeric b || one_of "-_" b) (rp_provider_id p)))
    (invalid_receipt "invalid placement provider identifier") ;?;
  reject_if (negb (String.eqb (compatibility_result (rp_selection_reason p)) "compatible") ||
             N.eqb (compatible_candidates (rp_selection_reason p)) 0)
    (invalid_receipt "placement selected an incompatible provider") ;?;
  reject_if (negb (selection_consistent p)) (invalid_receipt "placement candidate selection is inconsistent").

Definition verify_process_runtime (r : RuntimeResolution) : Result unit ComputeError :=
  let wanted := rres_requirement r in
  reject_if (negb (is_ready (rres_status r))) (invalid_receipt "process runtime in a receipt is not executable") ;?;
  reject_if (from_option (λ version, is_empty (trim version)) false (prr_version wanted))
    (invalid_receipt "process runtime has an empty version") ;?;
  match rres_distribution r with
  | Some distribution =>
      validate_distribution distribution ;?;
      reject_if (negb (bool_decide (dist_runtime distribution = prr_runtime wanted)) ||
                 from_option (λ version,
                   negb (runtime_version_matches (prr_runtime wanted) version (dist_version distribution)))
                   false (prr_version wanted))
        (invalid_receipt "process runtime distribution does not satisfy its requirement")
  | None =>
      reject_if (bool_decide (is_Some (prr_version wanted)))
        (invalid_receipt "pinned process runtime has host evidence instead of a distribution") ;?;
      reject_if (negb (bool_decide (rres_status r = Installed)))
        (invalid_receipt "process runtime is ready without distribution or host evidence")
  end.

(** [capacity == reserved.saturating_add(available)] *)
Definition balances (capacity reserved available max : N) : bool := N.eqb capacity (N.min (reserved + available) max).

Definition snapshot_balances (s : CapacitySnapshot) : bool :=
  let capacity := snap_capacity s in
  let reserved := snap_reserved s in
  let available := snap_available s in
  balances (pc_cpu_millis capacity) (cpu_millis reserved) (cpu_millis available) u64_max &&
  balances (pc_memory_bytes capacity) (memory_bytes reserved) (memory_bytes available) u64_max &&
  balances (pc_disk_bytes capacity) (disk_bytes reserved) (disk_bytes available) u64_max &&
  balances (pc_max_concurrency capacity) (concurrency reserved) (concurrency available) u32_max.

Definition verify_reservation (r : ReceiptReservation) : Result unit ComputeError :=
  let reserved := rr_reserved_resources r in
  let held := snap_reserved (rr_provider_capacity_snapshot r) in
  (let? _ := parse_reservation_id (rr_reservation_id r) in Ok tt) ;?;
  reject_if (negb (bool_decide (rr_requested_resources r = reserved)))
    (invalid_receipt "reserved resources differ from requested resources") ;?;
  reject_if (negb (snapshot_balances (rr_provider_capacity_snapshot r))) (invalid_receipt "capacity snapshot does not balance") ;?;
  reject_if (N.ltb (cpu_millis held) (cpu_millis reserved) || N.ltb (memory_bytes held) (memory_bytes reserved) ||
             N.ltb (disk_bytes held) (disk_bytes reserved) || N.ltb (concurrency held) (concurrency reserved))
    (invalid_receipt "reservation exceeds the recorded capacity snapshot").

(** [ReceiptScope::validate] *)
Definition valid_scope_name (value : string) : bool :=
  negb (is_empty value) && N.leb (len value) 128 &&
  all_bytes (λ b, is_ascii_alphanumeric b || one_of "-_.:@" b) value.

Definition valid_deployment (id : string) : bool :=
  starts_with "dep_" id && N.leb (len id) 128 && all_bytes (λ b, is_ascii_alphanumeric b || N.eqb b 95) id.

Definition validate_scope (s : ReceiptScope) : Result unit ComputeError :=
  try_for_each (λ value, reject_if (negb (valid_scope_name value)) (invalid_receipt "invalid execution scope"))
    [scope_environment_id s; scope_environment s; scope_project_id s; scope_project s; scope_revision s;
     scope_workload_id s; scope_workload s] ;?;
  reject_if (negb (String.eqb (scope_workload_kind s) "service" || String.eqb (scope_workload_kind s) "task"))
    (invalid_receipt "invalid workload kind in execution scope") ;?;
  reject_if (from_option (λ id, negb (valid_deployment id)) false (scope_deployment_id s))
    (invalid_receipt "invalid deployment in execution scope").

Definition verify_admission (r : ReceiptBody) : Result unit ComputeError :=
  match rb_policy_id r, rb_admission_id r, rb_admission_status r with
  | None, None, None => Ok tt
  | Some policy, Some admission, Some status =>
      verify_identities [policy; admission] ;?;
      reject_if (negb (String.eqb status "admitted")) (invalid_receipt "an execution receipt requires an admitted decision")
  | _, _, _ => Err (invalid_receipt "incomplete admission evidence")
  end.

Definition verify_option {T} (f : T → Result unit ComputeError) (o : option T) : Result unit ComputeError :=
  match o with Some x => f x | None => Ok tt end.

Definition verify_output (o : OutputReceipt) : Result unit ComputeError :=
  verify_option validate_sha256_identity (our_sha256 o) ;?;
  reject_if (bool_decide (our_collection_status o = Collected) &&
             (negb (bool_decide (is_Some (our_size o))) || negb (bool_decide (is_Some (our_sha256 o)))))
    (invalid_receipt "collected output is missing identity").

(** [==] on inputs and outputs, whose paths compare by their components *)
Definition same_input (l r : InputReceipt) : bool :=
  same_path (inr_path l) (inr_path r) && N.eqb (inr_size l) (inr_size r) &&
  String.eqb (inr_sha256 l) (inr_sha256 r) && Bool.eqb (inr_required l) (inr_required r).

Definition same_output (l r : OutputReceipt) : bool :=
  same_path (our_path l) (our_path r) && bool_decide (our_size l = our_size r) &&
  bool_decide (our_sha256 l = our_sha256 r) && bool_decide (our_collection_status l = our_collection_status r).

Fixpoint same_lists {A} (f : A → A → bool) (l r : list A) : bool :=
  match l, r with
  | [], [] => true
  | x :: l, y :: r => f x y && same_lists f l r
  | _, _ => false
  end.

Definition is_canonical (r : ReceiptBody) : bool :=
  same_lists same_input (rb_inputs (normalize r)) (rb_inputs r) &&
  same_lists same_output (rb_outputs (normalize r)) (rb_outputs r) &&
  bool_decide (eps_environment_names (rb_policy (normalize r)) = eps_environment_names (rb_policy r)).

(** The checks of [verify] on what the body records of where and how an execution
    was placed, up to its admission. *)
Definition verify_binding (r : ReceiptBody) : Result unit ComputeError :=
  reject_if (negb (String.eqb (rb_receipt_version r) RECEIPT_VERSION))
    (invalid_receipt ("unsupported receipt version: " +:+ rb_receipt_version r)) ;?;
  (let? _ := parse_execution_id (rb_execution_id r) in Ok tt) ;?;
  validate_sha256_identity (rb_workload r) ;?;
  verify_option validate_sha256_identity (rb_bundle r) ;?;
  verify_provider r ;?;
  verify_option (verify_placement r) (rb_placement r) ;?;
  verify_option verify_application (rb_application r) ;?;
  verify_option verify_process_runtime (rb_process_runtime r) ;?;
  verify_option verify_reservation (rb_reservation r) ;?;
  reject_if (from_option (λ placed, negb (bool_decide (Some placed = rb_reservation r))) false
               (rb_placement r ≫= rp_reservation))
    (invalid_receipt "placement reservation differs from receipt reservation") ;?;
  verify_option validate_scope (rb_scope r) ;?;
  verify_option (λ project, verify_project project r) (rb_project r) ;?;
  verify_option (λ stack, verify_stack stack r) (rb_stack r) ;?;
  verify_option (λ app, verify_app app r) (rb_app_bundle r) ;?;
  verify_admission r.

(** Its checks on what ran, and on what. *)
Definition verify_execution (r : ReceiptBody) (hash : string) : Result unit ComputeError :=
  verify_identities ([di_id (rb_distribution r); ri_distribution_runtime_id (rb_runtime r);
      ri_executable_identity (rb_runtime r)]
    ++ option_list (ri_distribution_id (rb_runtime r)) ++ option_list (ri_distribution_digest (rb_runtime r))
    ++ [prov_distribution_id (rb_provenance r); prov_runtime_lock_id (rb_provenance r);
        prov_manifest_id (rb_provenance r); hash]) ;?;
  verify_option (λ dependencies,
    validate_sha256_identity (rdep_capsule_id dependencies) ;?;
    reject_if (negb (rdep_verified dependencies)) (invalid_receipt "receipt dependency capsule is not verified"))
    (rb_dependencies r) ;?;
  reject_if (negb (String.eqb (di_id (rb_distribution r)) (prov_distribution_id (rb_provenance r))))
    (invalid_receipt "distribution identity mismatch") ;?;
  reject_if (negb (bool_decide (ri_declared (rb_runtime r) = ri_selected (rb_runtime r))) ||
             negb (bool_decide (ri_selected (rb_runtime r) = ri_observed (rb_runtime r))))
    (invalid_receipt "runtime identity mismatch") ;?;
  reject_if (negb (bool_decide (ev_requested (rb_isolation r) = ev_effective (rb_isolation r))) ||
             negb (bool_decide (ev_profile (rb_isolation r) = ev_effective (rb_isolation r))))
    (invalid_receipt "isolation profile downgrade") ;?;
  try_for_each (λ input, validate_sha256_identity (inr_sha256 input)) (rb_inputs r) ;?;
  try_for_each verify_output (rb_outputs r).

(** [ExecutionReceipt::verify] but for the signature *)
Definition verify_body (r : ExecutionReceipt) : Result unit ComputeError :=
  verify_binding r ;?;
  verify_execution r (er_receipt_hash r) ;?;
  reject_if (negb (is_canonical r)) (invalid_receipt "invalid canonical ordering") ;?;
  reject_if (negb (String.eqb (receipt_hash r) (er_receipt_hash r)))
    (invalid_receipt ("receipt hash mismatch: expected " +:+ er_receipt_hash r +:+ ", actual " +:+ receipt_hash r)).

(** [ExecutionReceipt::verify]; [None] when it panics *)
Definition verify (r : ExecutionReceipt) : option (Result unit ComputeError) :=
  match verify_body r, er_signature r with
  | Ok _, Some signature => check_signature signature (er_receipt_hash r)
  | checked, _ => Some checked
  end.

(** [ExecutionReceipt::verify_signed_by] *)
Definition verify_signed_by (r : ExecutionReceipt) (key_id : string) : option (Result unit ComputeError) :=
  match verify r with
  | Some (Ok _) =>
      Some match er_signature r with
      | Some signature =>
          if String.eqb (sig_key_id signature) key_id then Ok tt
          else Err (invalid_receipt ("receipt is signed by " +:+ sig_key_id signature +:+ ", not " +:+ key_id))
      | None => Err (invalid_receipt "receipt is not signed")
      end
  | checked => checked
  end.
End receipts.
