(* ===== verification/ReceiptBuild.v ===== *)
(** How receipts are made: [create_execution_receipt] (src/crates/compute-core/src/
    receipt.rs), the binding of the local runtime (src/crates/compute-runtime/src/
    lib.rs, the end of [run_identified]), of the provider (src/crates/
    compute-provider/src/lib.rs, the end of [run_admitted]) and of a job
    (jobs.rs, [execute_job]); the receipts as the evidence jobs are proved against.

    What the runtime observed is a parameter of the operations: the result an adapter
    returned, the identities read from the distribution. *)

From S2P Require Import Prelude Text Core Isolation Policy Admission Descriptor.
From S2P Require Import Matching Pool Placement Requests JobRecord JobStore Receipt.

(** ** What ran *)

Inductive InputSource : Type :=
| InlineSource (data : list N)
| FileSource (path : string).

(** A dependency capsule: its runtime, and what its [capsule_id] returns. *)
Record DependencyCapsule : Type := {
  dc_runtime : RuntimeKind;
  dc_runtime_version : option string;
  dc_capsule_id : Result string ComputeError;
}.

(** [ExecutionRequest], as far as receipts record it: the capability request with
    its command and files. *)
Record RunRequest : Type := {
  run_request :> ExecutionRequest;
  run_entrypoint : string;
  run_args : list string;
  run_env : list string;
  run_inputs : list (string * InputSource);
  run_dependencies : option DependencyCapsule;
}.

Record ResolvedRuntime : Type := {
  rt_kind : RuntimeKind;
  rt_requested_version : option string;
  rt_resolved_version : option string;
}.

Record OutputArtifact : Type := {
  oa_path : string;
  oa_data : list N;
  oa_size : N;
}.

Record MissingOutput : Type := {
  mo_path : string;
  mo_required : bool;
}.

Inductive ExecutionErrorKind : Type :=
| ErrResolution | ErrPreparation | ErrStart | ErrRuntime | ErrResourceLimit | ErrTimeout | ErrCancelled | ErrKilled
| ErrUnsupportedCapability | ErrOutputContract.

Record ExecutionError : Type := {
  xe_kind : ExecutionErrorKind;
  xe_started : bool;
}.

(** [ExecutionResult], as far as receipts record it *)
Record RunResult : Type := {
  out_execution_id : string;
  out_runtime : RuntimeKind;
  out_status : ExecutionStatus;
  out_exit_code : option Z;
  out_outputs : list OutputArtifact;
  out_missing : list MissingOutput;
  out_error : option ExecutionError;
  out_isolation : option IsolationEvidence;
  (** the capsule's identity, and whether it was verified *)
  out_dependencies : option (string * bool);
}.

Record ReceiptEnvironment : Type := {
  env_distribution : DistributionIdentity;
  env_distribution_runtime_id : string;
  env_executable_identity : string;
  env_runtime_distribution_id : string;
  env_runtime_distribution_digest : string;
  env_runtime_lock_id : string;
  env_manifest_id : string;
}.

(** What a request binds to the receipt of its execution. *)
Record ReceiptBindings : Type := {
  bind_placement : option ReceiptPlacement;
  bind_scope : option ReceiptScope;
  bind_application : option ApplicationIdentity;
  bind_project : option ProjectBinding;
  bind_stack : option StackBinding;
  bind_app_bundle : option AppBundleBinding;
  bind_process_runtime : option RuntimeResolution;
}.

(** ** Creation *)

(** The lower-cased [Debug] form of an error kind. *)
Definition failure_code (kind : ExecutionErrorKind) : string :=
  match kind with
  | ErrResolution => "resolution" | ErrPreparation => "preparation" | ErrStart => "start"
  | ErrRuntime => "runtime" | ErrResourceLimit => "resourcelimit" | ErrTimeout => "timeout"
  | ErrCancelled => "cancelled" | ErrKilled => "killed" | ErrUnsupportedCapability => "unsupportedcapability"
  | ErrOutputContract => "outputcontract"
  end.

Definition failure_kind (e : ExecutionError) : ReceiptFailureKind :=
  match xe_kind e with
  | ErrTimeout => FailTimeout
  | ErrCancelled => FailCancelled
  | ErrKilled => FailKilled
  | ErrUnsupportedCapability => FailPolicy
  | ErrRuntime => if xe_started e then FailWorkload else FailCompute
  | _ => FailCompute
  end.

Definition receipt_error (e : ExecutionError) : ReceiptError :=
  {| rer_kind := failure_kind e; rer_code := failure_code (xe_kind e) |}.

Section build.
Context `{!CanonicalIdentity ReceiptBody, !Sha256}.

Definition collected (o : OutputArtifact) : OutputReceipt :=
  {| our_path := oa_path o; our_size := Some (oa_size o); our_sha256 := Some (sha256_identity (oa_data o));
     our_collection_status := Collected |}.

Definition missing_output (o : MissingOutput) : OutputReceipt :=
  {| our_path := mo_path o; our_size := None; our_sha256 := None;
     our_collection_status := if mo_required o then MissingRequired else MissingOptional |}.

Definition request_summary (request : RunRequest) : ExecutionRequestSummary :=
  {| ers_entrypoint := default "<entrypoint>" (file_name (run_entrypoint request));
     ers_argument_count := N.of_nat (length (run_args request));
     ers_stdin_size := N.of_nat (length (req_stdin request));
     ers_stdin_sha256 := sha256_identity (req_stdin request) |}.

(** [as_millis() as u64] keeps the low 64 bits. *)
Definition policy_summary (request : RunRequest) : ExecutionPolicySummary :=
  {| eps_network := req_network request; eps_filesystem := "workspace";
     eps_timeout_ms := (λ d, (as_millis d mod (u64_max + 1))%N) <$> rl_wall_time (req_resources request);
     eps_memory_bytes := rl_memory_bytes (req_resources request); eps_environment := "cleared";
     eps_environment_names := run_env request |}.

Definition runtime_identity (request : RunRequest) (resolved : ResolvedRuntime) (result : RunResult)
    (environment : ReceiptEnvironment) : RuntimeIdentity :=
  {| ri_declared := req_kind request; ri_selected := rt_kind resolved; ri_observed := out_runtime result;
     ri_version := default "unknown" (match rt_resolved_version resolved with
       | Some version => Some version | None => rt_requested_version resolved end);
     ri_distribution_runtime_id := env_distribution_runtime_id environment;
     ri_executable_identity := env_executable_identity environment;
     ri_distribution_id := Some (env_runtime_distribution_id environment);
     ri_distribution_digest := Some (env_runtime_distribution_digest environment) |}.

(** The receipt before it is sealed. *)
Definition raw_receipt (request : RunRequest) (resolved : ResolvedRuntime) (result : RunResult) (workload : string)
    (bundle : option string) (inputs : list InputReceipt) (environment : ReceiptEnvironment)
    (started_at finished_at : Z) (execution_id : string) (isolation : IsolationEvidence) : ExecutionReceipt :=
  {| er_body :=
       {| rb_receipt_version := RECEIPT_VERSION; rb_execution_id := execution_id; rb_workload := workload;
          rb_bundle := bundle; rb_provider := None; rb_provider_protocol := None; rb_application := None;
          rb_process_runtime := None; rb_placement := None; rb_reservation := None; rb_scope := None;
          rb_project := None; rb_stack := None; rb_app_bundle := None; rb_policy_id := None;
          rb_admission_id := None; rb_admission_status := None; rb_distribution := env_distribution environment;
          rb_runtime := runtime_identity request resolved result environment;
          rb_request := request_summary request; rb_policy := policy_summary request; rb_isolation := isolation;
          rb_dependencies := (λ d, {| rdep_capsule_id := fst d; rdep_verified := snd d |}) <$> out_dependencies result;
          rb_inputs := inputs;
          rb_outputs := (collected <$> out_outputs result) ++ (missing_output <$> out_missing result);
          rb_execution := {| exs_status := out_status result; exs_exit_code := out_exit_code result;
                             exs_error := receipt_error <$> out_error result |};
          rb_started_at := Some started_at; rb_finished_at := Some finished_at;
          rb_provenance := {| prov_distribution_id := di_id (env_distribution environment);
                              prov_runtime_lock_id := env_runtime_lock_id environment;
                              prov_manifest_id := env_manifest_id environment |};
          rb_substrate := None |};
     er_receipt_hash := ""; er_signature := None |}.

(** [create_execution_receipt] *)
Definition create_execution_receipt (request : RunRequest) (resolved : ResolvedRuntime) (result : RunResult)
    (workload : string) (bundle : option string) (inputs : list InputReceipt) (environment : ReceiptEnvironment)
    (started_at finished_at : Z) : Result ExecutionReceipt ComputeError :=
  reject_if (negb (bool_decide (req_kind request = rt_kind resolved)) ||
             negb (bool_decide (out_runtime result = rt_kind resolved))) (invalid_receipt "runtime identity mismatch") ;?;
  let? execution_id := parse_execution_id (out_execution_id result) in
  match out_isolation result with
  | None => Err (invalid_receipt "execution result is missing isolation evidence")
  | Some isolation =>
      Ok (seal_receipt (raw_receipt request resolved result workload bundle inputs environment
                          started_at finished_at execution_id isolation))
  end.

(** [input_receipts], with what reading a file returns *)
Fixpoint read_inputs (read : string → Result (list N) ComputeError) (inputs : list (string * InputSource)) :
    Result (list InputReceipt) ComputeError :=
  match inputs with
  | [] => Ok []
  | (path, source) :: inputs =>
      let? data := match source with InlineSource data => Ok data | FileSource path => read path end in
      let? receipts := read_inputs read inputs in
      Ok ({| inr_path := path; inr_size := N.of_nat (length data); inr_sha256 := sha256_identity data;
             inr_required := true |} :: receipts)
  end.

Definition input_receipts (read : string → Result (list N) ComputeError) (request : RunRequest) :
    Result (list InputReceipt) ComputeError :=
  let? receipts := read_inputs read (run_inputs request) in
  Ok (sort_by compare_inputs receipts).

(** ** Binding *)

Definition with_body (body : ReceiptBody) (r : ExecutionReceipt) : ExecutionReceipt :=
  {| er_body := body; er_receipt_hash := er_receipt_hash r; er_signature := er_signature r |}.

(** The provider, and what the request says of the execution: the assignments of
    [run_admitted] in their order, each attestation derived from the receipt so
    far. *)
Definition set_provider (provider : ProviderIdentity) (protocol : string) (r : ReceiptBody) : ReceiptBody :=
  {| rb_receipt_version := rb_receipt_version r; rb_execution_id := rb_execution_id r; rb_workload := rb_workload r;
     rb_bundle := rb_bundle r; rb_provider := Some provider; rb_provider_protocol := Some protocol;
     rb_application := rb_application r; rb_process_runtime := rb_process_runtime r; rb_placement := rb_placement r;
     rb_reservation := rb_reservation r; rb_scope := rb_scope r; rb_project := rb_project r; rb_stack := rb_stack r;
     rb_app_bundle := rb_app_bundle r; rb_policy_id := rb_policy_id r; rb_admission_id := rb_admission_id r;
     rb_admission_status := rb_admission_status r; rb_distribution := rb_distribution r; rb_runtime := rb_runtime r;
     rb_request := rb_request r; rb_policy := rb_policy r; rb_isolation := rb_isolation r;
     rb_dependencies := rb_dependencies r; rb_inputs := rb_inputs r; rb_outputs := rb_outputs r;
     rb_execution := rb_execution r; rb_started_at := rb_started_at r; rb_finished_at := rb_finished_at r;
     rb_provenance := rb_provenance r; rb_substrate := rb_substrate r |}.

Definition set_request (b : ReceiptBindings) (r : ReceiptBody) : ReceiptBody :=
  {| rb_receipt_version := rb_receipt_version r; rb_execution_id := rb_execution_id r; rb_workload := rb_workload r;
     rb_bundle := rb_bundle r; rb_provider := rb_provider r; rb_provider_protocol := rb_provider_protocol r;
     rb_application := bind_application b; rb_process_runtime := rb_process_runtime r;
     rb_placement := bind_placement b; rb_reservation := rb_reservation r; rb_scope := bind_scope b;
     rb_project := rb_project r; rb_stack := rb_stack r;
     rb_app_bundle := rb_app_bundle r; rb_policy_id := rb_policy_id r; rb_admission_id := rb_admission_id r;
     rb_admission_status := rb_admission_status r; rb_distribution := rb_distribution r; rb_runtime := rb_runtime r;
     rb_request := rb_request r; rb_policy := rb_policy r; rb_isolation := rb_isolation r;
     rb_dependencies := rb_dependencies r; rb_inputs := rb_inputs r; rb_outputs := rb_outputs r;
     rb_execution := rb_execution r; rb_started_at := rb_started_at r; rb_finished_at := rb_finished_at r;
     rb_provenance := rb_provenance r; rb_substrate := rb_substrate r |}.

Definition set_attested (project : option ReceiptProject) (stack : option ReceiptStack)
    (app : option ReceiptAppBundle) (runtime : option RuntimeResolution) (r : ReceiptBody) : ReceiptBody :=
  {| rb_receipt_version := rb_receipt_version r; rb_execution_id := rb_execution_id r; rb_workload := rb_workload r;
     rb_bundle := rb_bundle r; rb_provider := rb_provider r; rb_provider_protocol := rb_provider_protocol r;
     rb_application := rb_application r; rb_process_runtime := runtime; rb_placement := rb_placement r;
     rb_reservation := rb_reservation r; rb_scope := rb_scope r; rb_project := project; rb_stack := stack;
     rb_app_bundle := app; rb_policy_id := rb_policy_id r; rb_admission_id := rb_admission_id r;
     rb_admission_status := rb_admission_status r; rb_distribution := rb_distribution r; rb_runtime := rb_runtime r;
     rb_request := rb_request r; rb_policy := rb_policy r; rb_isolation := rb_isolation r;
     rb_dependencies := rb_dependencies r; rb_inputs := rb_inputs r; rb_outputs := rb_outputs r;
     rb_execution := rb_execution r; rb_started_at := rb_started_at r; rb_finished_at := rb_finished_at r;
     rb_provenance := rb_provenance r; rb_substrate := rb_substrate r |}.

(** [ExecutionReceipt::bind_admission] *)
Definition bind_admission (a : ExecutionAdmission) (r : ReceiptBody) : ReceiptBody :=
  {| rb_receipt_version := rb_receipt_version r; rb_execution_id := rb_execution_id r; rb_workload := rb_workload r;
     rb_bundle := rb_bundle r; rb_provider := rb_provider r; rb_provider_protocol := rb_provider_protocol r;
     rb_application := rb_application r; rb_process_runtime := rb_process_runtime r; rb_placement := rb_placement r;
     rb_reservation := rb_reservation r; rb_scope := rb_scope r; rb_project := rb_project r; rb_stack := rb_stack r;
     rb_app_bundle := rb_app_bundle r; rb_policy_id := Some (ea_policy_id a);
     rb_admission_id := Some (ea_admission_id a); rb_admission_status := Some (ea_admission_status a);
     rb_distribution := rb_distribution r; rb_runtime := rb_runtime r;
     rb_request := rb_request r; rb_policy := rb_policy r; rb_isolation := rb_isolation r;
     rb_dependencies := rb_dependencies r; rb_inputs := rb_inputs r; rb_outputs := rb_outputs r;
     rb_execution := rb_execution r; rb_started_at := rb_started_at r; rb_finished_at := rb_finished_at r;
     rb_provenance := rb_provenance r; rb_substrate := rb_substrate r |}.

(** [reservation], [placement.reservation] and [substrate], as [execute_job] sets
    them *)
Definition place_reservation (evidence : ReceiptReservation) (p : ReceiptPlacement) : ReceiptPlacement :=
  {| rp_placement_id := rp_placement_id p; rp_provider_id := rp_provider_id p;
     rp_provider_protocol := rp_provider_protocol p; rp_selection_mode := rp_selection_mode p;
     rp_selection_reason := rp_selection_reason p; rp_policy_mode := rp_policy_mode p;
     rp_policy_provider := rp_policy_provider p; rp_candidates := rp_candidates p;
     rp_requested_resources := rp_requested_resources p; rp_provider_resources := rp_provider_resources p;
     rp_allocated_resources := rp_allocated_resources p; rp_execution_platform := rp_execution_platform p;
     rp_reservation := Some evidence |}.

Definition set_receipt_reservation (evidence : ReceiptReservation) (substrate : option Substrate) (r : ReceiptBody) : ReceiptBody :=
  {| rb_receipt_version := rb_receipt_version r; rb_execution_id := rb_execution_id r; rb_workload := rb_workload r;
     rb_bundle := rb_bundle r; rb_provider := rb_provider r; rb_provider_protocol := rb_provider_protocol r;
     rb_application := rb_application r; rb_process_runtime := rb_process_runtime r;
     rb_placement := place_reservation evidence <$> rb_placement r;
     rb_reservation := Some evidence; rb_scope := rb_scope r; rb_project := rb_project r; rb_stack := rb_stack r;
     rb_app_bundle := rb_app_bundle r; rb_policy_id := rb_policy_id r; rb_admission_id := rb_admission_id r;
     rb_admission_status := rb_admission_status r; rb_distribution := rb_distribution r; rb_runtime := rb_runtime r;
     rb_request := rb_request r; rb_policy := rb_policy r; rb_isolation := rb_isolation r;
     rb_dependencies := rb_dependencies r; rb_inputs := rb_inputs r; rb_outputs := rb_outputs r;
     rb_execution := rb_execution r; rb_started_at := rb_started_at r; rb_finished_at := rb_finished_at r;
     rb_provenance := rb_provenance r; rb_substrate := substrate |}.

(** The end of [run_identified]: the runtime's own provider, then [seal]. *)
Definition bind_local (r : ExecutionReceipt) : ExecutionReceipt :=
  seal_receipt (with_body (set_provider (LocalIdentity "local") "compute.local@1" (er_body r)) r).

(** A runtime adapter, as the runtime calls it. *)
Record RuntimeAdapter : Type := {
  ad_kind : RuntimeKind;
  ad_capabilities : RuntimeCapabilities;
  ad_resolve : RunRequest → Result ResolvedRuntime ComputeError;
  ad_execute : RunRequest → ResolvedRuntime → Result RunResult ComputeError;
}.

Definition adapter (adapters : list RuntimeAdapter) (kind : RuntimeKind) : Result RuntimeAdapter ComputeError :=
  match find (λ a, bool_decide (ad_kind a = kind)) adapters with
  | Some a => Ok a
  | None => Err (UnknownRuntime (RuntimeKind.as_str kind))
  end.

Definition check_capsule (runtime : ResolvedRuntime) (capsule : DependencyCapsule) : Result unit ComputeError :=
  match dc_runtime_version capsule with
  | Some required =>
      let found := default "unknown" (rt_resolved_version runtime) in
      reject_if (negb (same_runtime_version found required))
        (InvalidDependencyCapsule ("dependency capsule requires " +:+ RuntimeKind.as_str (dc_runtime capsule)
           +:+ "@" +:+ required +:+ ", resolved " +:+ found))
  | None => Ok tt
  end.

Definition with_run_evidence (isolation : IsolationEvidence) (dependencies : option (string * bool)) (r : RunResult) :
    RunResult :=
  {| out_execution_id := out_execution_id r; out_runtime := out_runtime r; out_status := out_status r;
     out_exit_code := out_exit_code r; out_outputs := out_outputs r; out_missing := out_missing r;
     out_error := out_error r; out_isolation := Some isolation; out_dependencies := dependencies |}.

(** [run_identified]: what runs, and the receipt it leaves; [environment] is
    [receipt_environment], the clock is read before and after. *)
Definition run_identified (host : HostCapabilities) (adapters : list RuntimeAdapter)
    (read : string → Result (list N) ComputeError) (environment : ResolvedRuntime → Result ReceiptEnvironment ComputeError)
    (started_at finished_at : Z) (workload : RunRequest) (workload_id : string) (bundle_id : option string) :
    Result (RunResult * ExecutionReceipt) ComputeError :=
  let? inputs := input_receipts read workload in
  let? a := adapter adapters (req_kind workload) in
  let? isolation := map_err (λ reason, IsolationUnavailable (ad_kind a) (IsolationProfile.as_str (req_isolation workload))
                                         (rejection_code reason))
    (resolve_isolation host (ad_capabilities a) (ad_kind a) workload) in
  let? runtime := ad_resolve a workload in
  verify_option (check_capsule runtime) (run_dependencies workload) ;?;
  let? env := environment runtime in
  let? result := ad_execute a workload runtime in
  let? dependencies := match run_dependencies workload with
    | Some capsule => let? id := dc_capsule_id capsule in Ok (Some (id, true))
    | None => Ok None
    end in
  let result := with_run_evidence isolation dependencies result in
  let? receipt := create_execution_receipt workload runtime result workload_id bundle_id inputs env started_at finished_at in
  Ok (result, bind_local receipt).

(** The end of [run_admitted]: the assignments to the receipt, then [seal]. *)
Definition bound_body (provider : ProviderIdentity) (b : ReceiptBindings) (a : ExecutionAdmission)
    (r : ReceiptBody) : ReceiptBody :=
  let r := set_request b (set_provider provider (identity_protocol provider) r) in
  let project := (λ binding, attest_project binding r) <$> bind_project b in
  let stack := (λ binding, attest_stack binding r) <$> bind_stack b in
  let app := (λ binding, attest_app binding r) <$> bind_app_bundle b in
  bind_admission a (set_attested project stack app (bind_process_runtime b) r).

(** The checks of [run_admitted] on what the request expected. *)
Definition check_expected (expected : ExpectedIdentities) (receipt : option ExecutionReceipt) :
    Result unit ProviderError :=
  match expected_distribution_id expected, receipt with
  | Some _, None => Err (provider_error RemoteExecutionFailure "execution result is missing its receipt")
  | Some wanted, Some r =>
      let found := di_id (rb_distribution r) in
      reject_if (negb (String.eqb found wanted)) (provider_error DistributionUnavailable
        ("distribution identity mismatch: expected " +:+ wanted +:+ ", found " +:+ found))
  | None, _ => Ok tt
  end ;?;
  match receipt with
  | Some r =>
      reject_if (from_option (λ wanted, negb (bool_decide (ri_distribution_id (rb_runtime r) = Some wanted))) false
                   (expected_runtime_distribution_id expected))
        (provider_error DistributionUnavailable "executed runtime distribution differs from the prepared distribution") ;?;
      reject_if (from_option (λ wanted, negb (bool_decide (ri_distribution_digest (rb_runtime r) = Some wanted))) false
                   (expected_runtime_distribution_digest expected))
        (provider_error EvidenceInvalid "executed runtime digest differs from the verified artifact")
  | None => Ok tt
  end.

Definition bind_execution (provider : ProviderIdentity) (b : ReceiptBindings) (a : ExecutionAdmission)
    (r : ExecutionReceipt) : ExecutionReceipt :=
  seal_receipt (with_body (bound_body provider b a (er_body r)) r).

(** What [run_admitted] makes of the receipt of its result. *)
Definition finish_execution (provider : ProviderIdentity) (expected : ExpectedIdentities) (b : ReceiptBindings)
    (a : ExecutionAdmission) (receipt : option ExecutionReceipt) : Result (option ExecutionReceipt) ProviderError :=
  check_expected expected receipt ;?;
  Ok (bind_execution provider b a <$> receipt).
End build.

(** ** Receipts as the evidence of jobs *)

Section evidence.
Context `{!CanonicalIdentity ReceiptBody, !CanonicalIdentity ApplicationMaterial,
          !CanonicalIdentity DistributionMaterial, !Sha256, !Ed25519}.
Context (Metadata Detail : Type) (signer : SigningKey).

Definition execution_metadata : CarriedMetadata :=
  {| RequestMetadata := Metadata; SubstrateEvidence := Substrate |}.

(** A panic of [verify] ends the call that made it, with no value: [verified] says
    that it returned and returned [Ok]. *)
Definition verified (r : ExecutionReceipt) : Result unit ComputeError :=
  default (Err (invalid_receipt "receipt verification panicked")) (verify r).

(** [substrate] is set to what the job was submitted with. *)
Definition job_reservation_bound (evidence : ReceiptReservation) (substrate : option Substrate) (r : ExecutionReceipt) :
    ExecutionReceipt :=
  with_body (set_receipt_reservation evidence substrate (er_body r)) r.

Definition execution_evidence : @Evidence execution_metadata :=
  @Build_Evidence execution_metadata ExecutionReceipt Detail verified (λ r, rb_execution_id r)
    (λ r, exs_status (rb_execution r)) (λ r, exs_exit_code (rb_execution r)) (λ r, our_sha256 <$> rb_outputs r)
    job_reservation_bound (λ r, Ok (seal_receipt r)) (sign signer).
End evidence.
