(* ===== verification/ReceiptProperties.v ===== *)
(** What a receipt that verifies says: its hash is that of its canonical body, so
    resealing it changes nothing and no two bodies share a hash; a signature is by
    the key it names, over that hash; evidence of projects, stacks and application
    bundles is exactly what the rest of the receipt implies; and the receipts the
    runtime, the provider and a job make verify, unless the evidence they attest
    failed. *)

From S2P Require Import Prelude Text Core Isolation Policy Admission Descriptor.
From S2P Require Import Matching Pool Placement Requests JobRecord JobStore Receipt ReceiptBuild.

(** ** The order of paths *)

#[export] Instance compare_components_total : TotalCmp compare_components.
Proof.
  pose proof (cmp_on (@cmp N _) component_rank). pose proof (cmp_on (@cmp string _) component_name).
  apply (then_with_total (λ l r, cmp (component_rank l) (component_rank r))
           (λ l r, cmp (component_name l) (component_name r))).
Qed.

#[export] Instance compare_lists_total {A} (c : A → A → comparison) `{!TotalCmp c} : TotalCmp (compare_lists c).
Proof.
  split.
  - intros l. induction l as [|x l IH]; intros [|y r]; simpl; try done.
    rewrite (cmp_flip (c := c) x y), IH. by destruct (c x y).
  - intros l. induction l as [|x l IH]; intros [|y r] [|z k]; simpl; try done.
    intros H1 H2. destruct (c x y) eqn:Exy; simpl in *; [|clear H1|done].
    + rewrite (cmp_eq_le_trans c x y z Exy). destruct (c y z); simpl in *; try done. by apply (IH r k).
    + rewrite (cmp_lt_le_trans c x y z Exy); [done|]. by destruct (c y z).
Qed.

#[export] Instance compare_paths_total : TotalCmp compare_paths.
Proof. apply (cmp_on (compare_lists compare_components) components). Qed.

#[export] Instance compare_inputs_total : TotalCmp compare_inputs.
Proof. apply (cmp_on compare_paths inr_path). Qed.

#[export] Instance compare_outputs_total : TotalCmp compare_outputs.
Proof. apply (cmp_on compare_paths our_path). Qed.

(** ** Canonical bodies *)

Section same_lists.
Context {A : Type} (f : A → A → bool) (c : A → A → comparison).

Lemma same_lists_Forall2 l r : same_lists f l r = true ↔ Forall2 (λ x y, f x y = true) l r.
Proof.
  revert r. induction l as [|x l IH]; intros [|y r]; simpl; rewrite ?andb_true_iff, ?IH, ?Forall2_cons.
  all: try done; split; inversion 1.
Qed.

Lemma same_lists_refl l : (∀ x, f x x = true) → same_lists f l l = true.
Proof. intros Hf. apply same_lists_Forall2. induction l; by constructor. Qed.

(** Elements that compare the same are sorted in one list when in the other. *)
Lemma same_lists_sorted l r :
  (∀ x x' y y', f x x' = true → f y y' = true → c x y = c x' y') →
  same_lists f l r = true → StronglySorted (le_by c) l → StronglySorted (le_by c) r.
Proof.
  intros Hf Hs%same_lists_Forall2. induction Hs as [|x x' l r Hx Hs IH]; [constructor|].
  inversion 1 as [|? ? Hl HF]; subst. constructor; [by apply IH|].
  clear -Hf Hx Hs HF. induction Hs as [|y y' l r Hy Hs IH]; [constructor|].
  apply Forall_cons in HF as [H1 H2]. constructor; [|by apply IH].
  unfold le_by in *. by rewrite <-(Hf x x' y y').
Qed.
End same_lists.

Lemma same_path_compare a a' b b' :
  same_path a a' = true → same_path b b' = true → compare_paths a b = compare_paths a' b'.
Proof. unfold same_path, compare_paths. rewrite !bool_decide_eq_true. by intros -> ->. Qed.

Lemma same_path_refl path : same_path path path = true.
Proof. by apply bool_decide_eq_true. Qed.

Lemma same_input_refl i : same_input i i = true.
Proof. unfold same_input. by rewrite same_path_refl, N.eqb_refl, String.eqb_refl, Bool.eqb_reflx. Qed.

Lemma same_output_refl o : same_output o o = true.
Proof. unfold same_output. by rewrite same_path_refl, !bool_decide_true. Qed.

Lemma same_input_compare i i' j j' :
  same_input i i' = true → same_input j j' = true → compare_inputs i j = compare_inputs i' j'.
Proof. unfold same_input. rewrite !andb_true_iff. intros [[[? _] _] _] [[[? _] _] _]. by apply same_path_compare. Qed.

Lemma same_output_compare i i' j j' :
  same_output i i' = true → same_output j j' = true → compare_outputs i j = compare_outputs i' j'.
Proof. unfold same_output. rewrite !andb_true_iff. intros [[[? _] _] _] [[[? _] _] _]. by apply same_path_compare. Qed.

Lemma normalize_idempotent r : normalize (normalize r) = normalize r.
Proof.
  unfold normalize; simpl. unfold sort_names. rewrite btree_set_idem.
  rewrite (sort_by_sorted compare_inputs) by apply sort_by_StronglySorted, _.
  by rewrite (sort_by_sorted compare_outputs) by apply sort_by_StronglySorted, _.
Qed.

Lemma normalize_canonical r : is_canonical (normalize r) = true.
Proof.
  unfold is_canonical. rewrite normalize_idempotent, !same_lists_refl, bool_decide_true; auto using same_input_refl, same_output_refl.
Qed.

(** [verify] compares paths by their components, but only a body that is the same
    string for string passes. *)
Lemma canonical_normalize r : is_canonical r = true ↔ normalize r = r.
Proof.
  split; [|intros <-; apply normalize_canonical].
  unfold is_canonical. rewrite !andb_true_iff, bool_decide_eq_true. intros [[Hi Ho] Hn]. destruct r as []; simpl in *.
  unfold normalize; simpl. rewrite (sort_by_sorted compare_inputs), (sort_by_sorted compare_outputs), Hn; [by match goal with p : ExecutionPolicySummary |- _ => destruct p end|..].
  - eapply same_lists_sorted; [apply same_output_compare|exact Ho|]. apply sort_by_StronglySorted, _.
  - eapply same_lists_sorted; [apply same_input_compare|exact Hi|]. apply sort_by_StronglySorted, _.
Qed.

(** ** What verification reads of a body *)

Section facts.
Context `{!CanonicalIdentity ReceiptBody, !CanonicalIdentity ApplicationMaterial,
          !CanonicalIdentity DistributionMaterial, !Sha256, !Ed25519}.
Implicit Types r : ReceiptBody.

Lemma verify_body_ok (r : ExecutionReceipt) :
  verify_body r = Ok tt ↔
  verify_binding r = Ok tt ∧ verify_execution r (er_receipt_hash r) = Ok tt ∧
  normalize r = r ∧ receipt_hash r = er_receipt_hash r.
Proof.
  unfold verify_body. rewrite !seq_ok, !reject_if_ok, !negb_false_iff, canonical_normalize, String.eqb_eq. tauto.
Qed.

Lemma verify_option_ok {T} (f : T → Result unit ComputeError) o :
  verify_option f o = Ok tt ↔ ∀ x, o = Some x → f x = Ok tt.
Proof. destruct o; naive_solver. Qed.

Lemma verify_execution_normalize r hash :
  verify_execution (normalize r) hash = Ok tt ↔ verify_execution r hash = Ok tt.
Proof.
  unfold verify_execution. rewrite !seq_ok, !try_for_each_ok; simpl.
  by setoid_rewrite elem_of_sort_by.
Qed.

(** Binding leaves alone what these checks read. *)
Lemma verify_execution_provider provider protocol r hash :
  verify_execution (set_provider provider protocol r) hash = verify_execution r hash.
Proof. reflexivity. Qed.

Lemma verify_execution_bound provider b a r hash :
  verify_execution (bound_body provider b a r) hash = verify_execution r hash.
Proof. reflexivity. Qed.

Lemma verify_execution_reserved evidence substrate r hash :
  verify_execution (set_receipt_reservation evidence substrate r) hash = verify_execution r hash.
Proof. reflexivity. Qed.

Lemma verify_requirements_ext binding r r' :
  rb_runtime r = rb_runtime r' → execution_platform r = execution_platform r' →
  rb_dependencies r = rb_dependencies r' → rb_request r = rb_request r' →
  verify_requirements binding r = verify_requirements binding r'.
Proof.
  intros Hr Hp Hd Hq. unfold verify_requirements, verify_platform, verify_dependencies, verify_command.
  by rewrite Hr, Hp, Hd, Hq.
Qed.

Lemma attest_stack_ext binding r r' :
  rb_dependencies r = rb_dependencies r' → attest_stack binding r = attest_stack binding r'.
Proof.
  intros Hd. unfold attest_stack, package_gates, package_materialized. by rewrite Hd.
Qed.

Lemma existsb_perm {A} (f : A → bool) l l' : l ≡ₚ l' → existsb f l = existsb f l'.
Proof.
  intros Hp. apply eq_true_iff_eq. rewrite !existsb_exists. setoid_rewrite <-list_elem_of_In. by setoid_rewrite Hp.
Qed.

Lemma app_gates_ext binding r r' :
  rb_inputs r ≡ₚ rb_inputs r' → app_gates binding r = app_gates binding r'.
Proof.
  intros Hi. assert (∀ check item, app_materialized check item r = app_materialized check item r') as Hm.
  { intros check [[path sha]|]; [|done]. simpl. by rewrite (existsb_perm _ _ _ Hi). }
  unfold app_gates. by rewrite !Hm.
Qed.

(** ** Evidence is what the receipt implies

    Each kind of evidence verifies exactly when it is the attestation of its binding
    and the execution met what the binding requires. *)

(** What a project requires of the execution the receipt records. *)
Record ProjectMet (binding : ProjectBinding) r : Prop := {
  met_identities : verify_identities ([pb_requirements_id binding; dr_dependencies_id (pb_declared binding)]
    ++ option_list (rr_capsule_id (pb_resolved binding))) = Ok tt;
  met_identity : pid_name (pb_identity binding) ≠ "" ∧ pid_source (pb_identity binding) ≠ "";
  met_runtime : ri_observed (rb_runtime r) = rr_runtime (pb_resolved binding);
  met_version constraint : rr_runtime_constraint (pb_resolved binding) = Some constraint →
    runtime_version_matches (rr_runtime (pb_resolved binding)) constraint (ri_version (rb_runtime r)) = true;
  met_platform actual : execution_platform r = Some actual →
    (∀ wanted, rr_os (pb_resolved binding) = Some wanted → canonical_platform wanted = canonical_platform (os actual)) ∧
    (∀ wanted, rr_architecture (pb_resolved binding) = Some wanted →
      canonical_platform wanted = canonical_platform (architecture actual));
  met_dependencies : match rr_capsule_id (pb_resolved binding) with
    | Some capsule => rb_dependencies r = Some {| rdep_capsule_id := capsule; rdep_verified := true |}
    | None => rb_dependencies r = None ∧ dr_dependency_count (pb_declared binding) = 0%N
    end;
  met_command : ers_entrypoint (rb_request r) = default "" (file_name (rc_entrypoint (rr_command (pb_resolved binding)))) ∧
    ers_argument_count (rb_request r) = rc_argument_count (rr_command (pb_resolved binding));
}.

Lemma is_unsatisfied_of status evidence :
  is_unsatisfied (verification status evidence) = match status with Unsatisfied => true | _ => false end.
Proof. by destruct status. Qed.

(** Walk the conditions of a verification, then decide it. *)
Ltac case_checks :=
  repeat first
    [ match goal with
      | |- context [String.eqb ?a ?b] => destruct (String.eqb_spec a b)
      | |- context [N.eqb ?a ?b] => destruct (N.eqb_spec a b)
      | |- context [bool_decide ?P] => destruct (bool_decide_reflect P)
      | |- context [negb ?c] => destruct c eqn:?
      | |- context [if ?c then _ else _] => destruct c eqn:?
      | |- context [match ?o with Some _ => _ | None => _ end] => destruct o eqn:?
      end; cbn [negb andb orb] in * ];
  rewrite ?is_unsatisfied_of.

Lemma runtime_unsatisfied resolved observed :
  is_unsatisfied (verify_runtime resolved observed) = false ↔
  ri_observed observed = rr_runtime resolved ∧
  (∀ constraint, rr_runtime_constraint resolved = Some constraint →
    runtime_version_matches (rr_runtime resolved) constraint (ri_version observed) = true).
Proof.
  unfold verify_runtime. case_checks; naive_solver.
Qed.

Lemma platform_unsatisfied resolved r :
  is_unsatisfied (verify_platform resolved r) = false ↔
  ∀ actual, execution_platform r = Some actual →
    (∀ wanted, rr_os resolved = Some wanted → canonical_platform wanted = canonical_platform (os actual)) ∧
    (∀ wanted, rr_architecture resolved = Some wanted → canonical_platform wanted = canonical_platform (architecture actual)).
Proof.
  unfold verify_platform, platform_verification.
  destruct (rr_os resolved), (rr_architecture resolved), (execution_platform r); cbn [from_option];
    case_checks; naive_solver.
Qed.

Lemma dependencies_unsatisfied binding r :
  is_unsatisfied (verify_dependencies binding r) = false ↔
  match rr_capsule_id (pb_resolved binding) with
  | Some capsule => rb_dependencies r = Some {| rdep_capsule_id := capsule; rdep_verified := true |}
  | None => rb_dependencies r = None ∧ dr_dependency_count (pb_declared binding) = 0%N
  end.
Proof.
  unfold verify_dependencies.
  destruct (rr_capsule_id _) as [c|], (rb_dependencies r) as [[id []]|]; cbn [rdep_verified rdep_capsule_id andb];
    case_checks; naive_solver.
Qed.

Lemma command_unsatisfied resolved r :
  is_unsatisfied (verify_command resolved r) = false ↔
  ers_entrypoint (rb_request r) = default "" (file_name (rc_entrypoint (rr_command resolved))) ∧
  ers_argument_count (rb_request r) = rc_argument_count (rr_command resolved).
Proof. unfold verify_command. case_checks; naive_solver. Qed.

Lemma existsb_false {A} (f : A → bool) l : existsb f l = false ↔ ∀ x, x ∈ l → f x = false.
Proof.
  induction l as [|x l IH]; simpl; [split; [by intros _ ? ?%not_elem_of_nil|done]|].
  rewrite orb_false_iff, IH. setoid_rewrite elem_of_cons. naive_solver.
Qed.

Lemma project_unsatisfied binding r :
  existsb is_unsatisfied (project_verifications (verify_requirements binding r)) = false ↔
  is_unsatisfied (verify_runtime (pb_resolved binding) (rb_runtime r)) = false ∧
  is_unsatisfied (verify_platform (pb_resolved binding) r) = false ∧
  is_unsatisfied (verify_dependencies binding r) = false ∧
  is_unsatisfied (verify_command (pb_resolved binding) r) = false.
Proof.
  unfold project_verifications. rewrite existsb_app. cbn [existsb vr_runtime vr_platform vr_dependencies vr_command verify_requirements].
  assert (existsb is_unsatisfied (tv_verification <$> vr_tools (verify_requirements binding r)) = false) as ->.
  { apply existsb_false. intros v (tv & -> & (tool & -> & _)%list_elem_of_fmap)%list_elem_of_fmap. done. }
  rewrite !orb_false_iff. tauto.
Qed.

(** C22: Evidence of a project cannot be made up.  It passes [verify] exactly when it is
    what the receipt's other fields imply for its binding, and the execution they
    record met the project: the runtime and version it resolved, its platform where
    one is recorded, the verified dependency capsule, and the command. *)
Theorem project_evidence_exact p r :
  verify_project p r = Ok tt ↔ p = attest_project (rp_binding p) r ∧ ProjectMet (rp_binding p) r.
Proof.
  unfold verify_project. rewrite !seq_ok, !reject_if_ok, negb_false_iff, bool_decide_eq_true, orb_false_iff, !is_empty_false.
  destruct p as [binding found]; cbn [rp_binding rp_verified]. split.
  - intros (Hi & Hn & <- & (Hr & Hp & Hd & Hc)%project_unsatisfied). split; [done|].
    apply runtime_unsatisfied in Hr as [? ?]. pose proof (proj1 (platform_unsatisfied _ _) Hp). apply dependencies_unsatisfied in Hd.
    apply command_unsatisfied in Hc. by constructor.
  - intros [[= ->] [? ? ? ? ? ? ?]]. do 3 (split; [done|]). apply project_unsatisfied.
    rewrite runtime_unsatisfied, platform_unsatisfied, dependencies_unsatisfied, command_unsatisfied. done.
Qed.

(** What a stack requires: every component resolved from the capsule the execution
    verified, none excluded by the platform or contradicted by a probe. *)
Record ComponentMet (binding : StackBinding) (c : ComponentBinding) r : Prop := {
  met_supported : cd_unsupported (cb_declared c) = None;
  met_resolved : is_Some (cb_resolved c);
  met_capsule : ∃ capsule, sb_capsule_id binding = Some capsule ∧
    rb_dependencies r = Some {| rdep_capsule_id := capsule; rdep_verified := true |};
  met_probe found probe seen : cb_resolved c = Some found → find_probe binding PackageVersions = Some probe →
    probe_observed probe !! cd_name (cb_declared c) = Some seen → seen = Some (rcm_version found);
}.

Record StackMet (binding : StackBinding) r : Prop := {
  met_fingerprint : validate_sha256_identity (stk_fingerprint (sb_identity binding)) = Ok tt;
  met_stack : stk_name (sb_identity binding) ≠ "" ∧ stk_version (sb_identity binding) ≠ "";
  met_probes : verify_identities (option_list (sb_capsule_id binding)
    ++ mjoin ((λ probe, [probe_receipt probe; probe_program probe]) <$> sb_probes binding)) = Ok tt;
  met_components : sb_components binding ≠ [];
  met_excluded platform : execution_platform r = Some platform → unsupported_on binding platform = [];
  met_component c : c ∈ sb_components binding → ComponentMet binding c r;
}.

Lemma gates_failed gates :
  gates_state gates = ComponentFailed ↔ existsb (λ g, is_unsatisfied (gate_verification g)) gates = true.
Proof.
  unfold gates_state. destruct (existsb _ gates); [done|].
  repeat (destruct (negb _); [done|]). done.
Qed.

Lemma gates_supported gates : gates_state gates ≠ ComponentUnsupported.
Proof. unfold gates_state. by repeat destruct (negb _) || destruct (existsb _ _). Qed.

Lemma component_verified binding c r :
  verify_component (c, {| ce_name := cd_name (cb_declared c); ce_gates := package_gates binding c r |}) = Ok tt ↔
  ComponentMet binding c r.
Proof.
  unfold verify_component, component_state; cbn [fst snd ce_gates].
  destruct (cd_unsupported (cb_declared c)) as [reason|] eqn:Eu.
  { rewrite bool_decide_true by eauto. split; [done|]. intros []. congruence. }
  rewrite bool_decide_false by by intros []. transitivity (gates_state (package_gates binding c r) ≠ ComponentFailed).
  { pose proof (gates_supported (package_gates binding c r)). destruct (gates_state _); naive_solver. }
  rewrite gates_failed, not_true_iff_false. unfold package_gates. cbn [existsb]. rewrite !orb_false_iff.
  unfold package_resolved, package_materialized, package_verified. split.
  - intros (H1 & H2 & H3 & _). destruct (cb_resolved c) as [found|] eqn:Er; [|discriminate H1].
    destruct (sb_capsule_id binding) as [capsule|] eqn:Ec; [|discriminate H2].
    destruct (rb_dependencies r) as [[id v]|] eqn:Ed; [|discriminate H2]. cbn [rdep_verified rdep_capsule_id] in H2.
    destruct v; [|discriminate H2]. cbn [andb] in H2. destruct (String.eqb_spec id capsule) as [->|]; [|discriminate H2].
    constructor; [done|by eexists|by eexists|]. intros found' probe seen Hf Hp Hs.
    assert (found' = found) as -> by congruence. rewrite Hp, Hs in H3.
    destruct seen as [seen|]; [|discriminate H3]. destruct (String.eqb_spec seen (rcm_version found)) as [E|]; [by rewrite E|discriminate H3].
  - intros [_ [found Hr] (capsule & Hc & Hd) Hp]. rewrite Hr, Hc, Hd. cbn [rdep_verified rdep_capsule_id andb].
    rewrite String.eqb_refl. split; [done|]. split; [done|]. split; [|done].
    destruct (find_probe binding PackageVersions) as [probe|] eqn:Ep; [|done].
    destruct (probe_observed probe !! _) as [seen|] eqn:Es; [|done].
    rewrite (Hp found probe seen Hr eq_refl Es), String.eqb_refl. done.
Qed.

(** Evidence of a stack verifies exactly when it is the stack's attestation and every
    component is there. *)
Theorem stack_evidence_exact stack r :
  verify_stack stack r = Ok tt ↔ stack = attest_stack (rst_binding stack) r ∧ StackMet (rst_binding stack) r.
Proof.
  unfold verify_stack. rewrite !seq_ok, !reject_if_ok, negb_false_iff, bool_decide_eq_true, bool_decide_eq_false,
    orb_false_iff, !is_empty_false, try_for_each_ok.
  destruct stack as [binding found]; cbn [rst_binding rst_components attest_stack].
  assert (∀ P, (∀ x, x ∈ zip (sb_components binding)
      ((λ c, {| ce_name := cd_name (cb_declared c); ce_gates := package_gates binding c r |}) <$> sb_components binding) → P x) ↔
    ∀ c, c ∈ sb_components binding → P (c, {| ce_name := cd_name (cb_declared c); ce_gates := package_gates binding c r |})) as Hzip.
  { intros P. induction (sb_components binding) as [|c l IH]; simpl; [split; intros _ ? ?%not_elem_of_nil; done|].
    setoid_rewrite elem_of_cons. naive_solver. }
  split.
  - intros (Hf & Hn & Hi & Hc & <- & Hp & Hall). split; [done|]. constructor; [done..| |].
    + intros platform Hpl. rewrite Hpl in Hp. cbn [from_option] in Hp. by apply negb_false_iff, bool_decide_eq_true in Hp.
    + intros c Hin. rewrite <-component_verified. by apply (proj1 (Hzip _) Hall).
  - intros [[= ->] [? ? ? ? Hp Hc]]. do 5 (split; [done|]). split.
    + destruct (execution_platform r) as [p|]; [|done]. cbn [from_option]. by rewrite bool_decide_true by by apply Hp.
    + apply Hzip. intros c Hin. apply component_verified. by apply Hc.
Qed.

(** What an application bundle requires: its manifest and module among the inputs, as
    resolved, and neither its inspection nor its probe against it. *)
Definition materialized (path sha : string) r : Prop :=
  ∃ input, input ∈ rb_inputs r ∧ inr_path input = path ∧ inr_sha256 input = sha.

Record AppMet (binding : AppBundleBinding) r : Prop := {
  met_app : abd_application (abb_declared binding) ≠ "" ∧ abd_abi (abb_declared binding) ≠ "";
  met_app_identities : verify_identities (option_list (abd_artifact (abb_declared binding))
    ++ from_option (λ f, [rab_manifest_sha256 f; rab_module_sha256 f; rab_package_identity f]) [] (abb_resolved binding)
    ++ option_list (probe_receipt <$> abb_runtime_probe binding)
    ++ option_list (ain_receipt <$> abb_inspection binding)) = Ok tt;
  met_bundle : ∃ found, abb_resolved binding = Some found ∧
    materialized (rab_manifest_path found) (rab_manifest_sha256 found) r ∧
    materialized (rab_module_path found) (rab_module_sha256 found) r ∧
    (∀ inspection, abb_inspection binding = Some inspection →
      ain_certification inspection = "CERTIFIED" ∧
      ain_artifact_hash inspection = trim_digest (rab_module_sha256 found) ∧
      ain_package_identity inspection = rab_package_identity found ∧
      ain_application_id inspection = abd_application (abb_declared binding));
  met_runtime_probe probe : abb_runtime_probe binding = Some probe →
    probe_kind probe = WasmRuntime ∧ probe_runtime probe = abd_runtime (abb_declared binding) ∧
    is_Some (probe_observed probe !! "wasm-runtime");
}.

Lemma materialized_unsatisfied check path sha r :
  is_unsatisfied (gate_verification (app_materialized check (Some (path, sha)) r)) = false ↔ materialized path sha r.
Proof.
  unfold app_materialized, materialized. destruct (existsb _ _) eqn:E; cbn [gate gate_verification]; rewrite is_unsatisfied_of.
  - apply existsb_exists in E as (i & Hi%list_elem_of_In & [Hp Hs]%andb_true_iff). apply String.eqb_eq in Hp, Hs. naive_solver.
  - split; [done|]. intros (i & Hi & <- & <-). rewrite existsb_false in E. specialize (E i Hi).
    by rewrite !String.eqb_refl in E.
Qed.

Lemma certified_unsatisfied binding found :
  abb_resolved binding = Some found →
  is_unsatisfied (gate_verification (app_certified binding)) = false ↔
  ∀ inspection, abb_inspection binding = Some inspection →
    ain_certification inspection = "CERTIFIED" ∧
    ain_artifact_hash inspection = trim_digest (rab_module_sha256 found) ∧
    ain_package_identity inspection = rab_package_identity found ∧
    ain_application_id inspection = abd_application (abb_declared binding).
Proof.
  intros Hf. unfold app_certified. rewrite Hf. destruct (abb_inspection binding) as [i|]; [|naive_solver].
  destruct (String.eqb_spec (ain_certification i) "CERTIFIED"), (String.eqb_spec (ain_artifact_hash i) (trim_digest (rab_module_sha256 found))),
    (String.eqb_spec (ain_package_identity i) (rab_package_identity found)),
    (String.eqb_spec (ain_application_id i) (abd_application (abb_declared binding)));
    cbn [andb gate gate_verification]; rewrite is_unsatisfied_of; naive_solver.
Qed.

Lemma probe_unsatisfied binding :
  is_unsatisfied (gate_verification (app_runtime binding)) = false ↔
  ∀ probe, abb_runtime_probe binding = Some probe →
    probe_kind probe = WasmRuntime ∧ probe_runtime probe = abd_runtime (abb_declared binding) ∧
    is_Some (probe_observed probe !! "wasm-runtime").
Proof.
  unfold app_runtime. destruct (abb_runtime_probe binding) as [p|]; [|naive_solver].
  destruct (probe_observed p !! _) as [seen|] eqn:E.
  - destruct (bool_decide_reflect (probe_kind p = WasmRuntime)), (bool_decide_reflect (probe_runtime p = abd_runtime (abb_declared binding)));
      cbn [andb gate gate_verification]; rewrite is_unsatisfied_of; naive_solver.
  - cbn [gate gate_verification]. rewrite is_unsatisfied_of. split; [done|]. intros Hp.
    destruct (Hp p eq_refl) as (_ & _ & [x Hx]). congruence.
Qed.

(** The gates of a resolved bundle, and of one that is not. *)
Lemma app_unsatisfied binding r :
  existsb (λ g, is_unsatisfied (gate_verification g)) (app_gates binding r) = false ↔
  (∃ found, abb_resolved binding = Some found ∧
    materialized (rab_manifest_path found) (rab_manifest_sha256 found) r ∧
    materialized (rab_module_path found) (rab_module_sha256 found) r ∧
    is_unsatisfied (gate_verification (app_certified binding)) = false) ∧
  is_unsatisfied (gate_verification (app_runtime binding)) = false.
Proof.
  assert (is_unsatisfied (gate_verification (app_providers binding)) = false) as Hp.
  { unfold app_providers. destruct (abb_inspection binding) as [i|]; [destruct (String.eqb _ _)|]; done. }
  unfold app_gates. cbn [existsb]. rewrite Hp, !orb_false_iff. unfold manifest_resolved, module_resolved.
  destruct (abb_resolved binding) as [found|] eqn:E; cbn [fmap option_fmap option_map].
  - rewrite !materialized_unsatisfied. cbn [gate gate_verification]. rewrite !is_unsatisfied_of. naive_solver.
  - cbn [gate gate_verification]. rewrite !is_unsatisfied_of. naive_solver.
Qed.

(** Evidence of an application bundle verifies exactly when it is the bundle's
    attestation and the execution met what it requires. *)
Theorem app_evidence_exact app r :
  verify_app app r = Ok tt ↔ app = attest_app (rap_binding app) r ∧ AppMet (rap_binding app) r.
Proof.
  unfold verify_app. rewrite !seq_ok, !reject_if_ok, negb_false_iff, bool_decide_eq_true, bool_decide_eq_false,
    orb_false_iff, !is_empty_false, gates_failed, not_true_iff_false.
  destruct app as [binding gates]; cbn [rap_binding rap_gates attest_app]. split.
  - intros (Hn & Hi & -> & [(found & Hf & H1 & H2 & H3) Hp]%app_unsatisfied). split; [done|].
    rewrite (certified_unsatisfied _ _ Hf) in H3. constructor; [done..|by exists found|].
    by apply probe_unsatisfied.
  - intros [[= ->] [? ? (found & Hf & H1 & H2 & H3) Hp]]. do 3 (split; [done|]). apply app_unsatisfied.
    split; [|by apply probe_unsatisfied]. exists found. by rewrite (certified_unsatisfied _ _ Hf).
Qed.

(** ** Sealing and signing *)

Lemma verify_ok (r : ExecutionReceipt) :
  verify r = Some (Ok tt) ↔ verify_body r = Ok tt ∧
  ∀ signature, er_signature r = Some signature → check_signature signature (er_receipt_hash r) = Some (Ok tt).
Proof.
  unfold verify. destruct (verify_body r) as [[]|e], (er_signature r) as [s|]; naive_solver.
Qed.

(** A receipt that verifies is sealed: sealing it again changes nothing, and the
    signature does not survive a change of the body it was made for. *)
Lemma verified_receipt_sealed (r : ExecutionReceipt) :
  verify r = Some (Ok tt) →
  seal_receipt r = r ∧ er_receipt_hash r = canonical_identity (er_body r) ∧
  ∀ body, canonical_identity (normalize body) ≠ canonical_identity (er_body r) →
    er_signature (seal_receipt (with_body body r)) = None.
Proof.
  intros [(_ & _ & Hn & Hh)%verify_body_ok _]%verify_ok. unfold receipt_hash in Hh. split; [|split; [done|]].
  - unfold seal_receipt, receipt_hash. rewrite Hn, Hh, String.eqb_refl. by destruct r.
  - intros body Hb. unfold seal_receipt, receipt_hash; cbn [er_body er_receipt_hash er_signature with_body].
    rewrite <-Hh. by destruct (String.eqb_spec (canonical_identity (normalize body)) (canonical_identity (er_body r))).
Qed.

Lemma hex_digit_ascii d : (d < 16)%N → (byte_of (hex_digit d) < 128)%N.
Proof. intros Hd. unfold hex_digit, byte_of. destruct (N.ltb_spec d 10); rewrite N_ascii_embedding; lia. Qed.

Lemma hex_digits b : is_byte b → (N.shiftr b 4 < 16)%N ∧ (N.land b 15 < 16)%N.
Proof.
  unfold is_byte. intros Hb. split.
  - rewrite N.shiftr_div_pow2. change (2 ^ 4)%N with 16%N. apply N.Div0.div_lt_upper_bound. lia.
  - change 15%N with (N.ones 4). rewrite N.land_ones. by apply N.mod_lt.
Qed.

Lemma len_to_hex l : len (to_hex l) = (2 * N.of_nat (length l))%N.
Proof.
  induction l as [|b l IH]; [done|].
  change (to_hex (b :: l)) with (String (hex_digit (N.shiftr b 4)) (String (hex_digit (N.land b 15)) (to_hex l))).
  unfold len in *. cbn [String.length length]. lia.
Qed.

Lemma decode_to_hex l : Forall is_byte l → decode (to_hex l) = Some (Some l).
Proof.
  intros Hl. unfold decode. rewrite len_to_hex, N.even_mul. cbn [N.even orb].
  induction Hl as [|b l Hb _ IH]; [done|]. destruct (hex_digits b Hb) as [Hh Hd].
  change (to_hex (b :: l)) with (String (hex_digit (N.shiftr b 4)) (String (hex_digit (N.land b 15)) (to_hex l))).
  cbn [decode_hex]. unfold splits_char.
  rewrite (proj2 (N.ltb_lt _ _) (hex_digit_ascii _ Hh)), (proj2 (N.leb_gt _ _) (hex_digit_ascii _ Hd)).
  by rewrite from_hex_pair_of, IH by done.
Qed.

Lemma check_sign `{!Ed25519Laws} key (r : ExecutionReceipt) signature :
  er_signature (sign key r) = Some signature → check_signature signature (er_receipt_hash r) = Some (Ok tt).
Proof.
  intros [= <-]. unfold check_signature. cbn [sig_public_key sig_signature sig_algorithm sig_key_id].
  destruct (public_key_bytes key) as [Hl Hb], (signature_bytes key (bytes (er_receipt_hash r))) as [Hsl Hsb].
  rewrite !decode_to_hex by done. cbn [mbind option_bind]. rewrite Hl, Hsl, String.eqb_refl. cbn [Nat.eqb negb orb reject_if and_then].
  unfold signer_key_id. rewrite String.eqb_refl. cbn [negb reject_if and_then]. by rewrite signature_verifies.
Qed.

Lemma verify_sign `{!Ed25519Laws} key (r : ExecutionReceipt) :
  verify (sign key r) = Some (Ok tt) ↔ verify_body r = Ok tt.
Proof.
  rewrite verify_ok. split; [by intros [? _]|]. intros Hb. split; [done|]. intros s Hs. by apply (check_sign key).
Qed.

Lemma verify_signed_by_sign `{!Ed25519Laws} key (r : ExecutionReceipt) id :
  verify_signed_by (sign key r) id = Some (Ok tt) ↔ verify_body r = Ok tt ∧ id = signer_key_id key.
Proof.
  rewrite <-(verify_sign key r). unfold verify_signed_by. destruct (verify (sign key r)) as [[[]|]|]; [|naive_solver..].
  cbn [er_signature sign sig_key_id]. destruct (String.eqb_spec (signer_key_id key) id) as [->|]; naive_solver.
Qed.

Lemma check_signature_ok s hash :
  check_signature s hash = Some (Ok tt) →
  ∃ key signature, decode (sig_public_key s) = Some (Some key) ∧ decode (sig_signature s) = Some (Some signature) ∧
    length key = 32 ∧ sig_key_id s = sha256_identity key ∧ ed_verify key (bytes hash) signature = true.
Proof.
  unfold check_signature. destruct (decode (sig_public_key s)) as [[key|]|]; [| |done]; cbn [mbind option_bind];
    (destruct (decode (sig_signature s)) as [[signature|]|]; [| |done]); try done.
  intros [= Hc]. ok_inv.
  repeat match goal with H : _ || _ = false |- _ => apply orb_false_iff in H as [? ?] | H : negb _ = false |- _ => apply negb_false_iff in H end.
  exists key, signature. by rewrite <-Nat.eqb_eq, <-String.eqb_eq.
Qed.

(** C23: What a signed receipt proves.  A receipt accepted as signed by a key carries a
    signature that verifies, under a key with that identity, of the identity of exactly
    the body it has; sealing it again changes nothing, and the signature does not
    survive sealing it with a body of another identity. *)
Theorem signed_by_sound (r : ExecutionReceipt) id :
  verify_signed_by r id = Some (Ok tt) →
  (∃ key signature, sha256_identity key = id ∧ length key = 32 ∧
    ed_verify key (bytes (canonical_identity (er_body r))) signature = true) ∧
  seal_receipt r = r ∧
  ∀ body, canonical_identity (normalize body) ≠ canonical_identity (er_body r) →
    er_signature (seal_receipt (with_body body r)) = None.
Proof.
  unfold verify_signed_by. destruct (verify r) as [[[]|]|] eqn:Hv; [|done..]. intros Hid.
  destruct (verified_receipt_sealed r Hv) as (Hseal & Hh & Hchange). split; [|done].
  apply verify_ok in Hv as [_ Hs].
  destruct (er_signature r) as [s|]; [|done]. destruct (String.eqb_spec (sig_key_id s) id) as [<-|]; [|done].
  destruct (check_signature_ok _ _ (Hs s eq_refl)) as (key & signature & _ & _ & Hl & Hk & Hc).
  exists key, signature. by rewrite <-Hh.
Qed.

(** ** The receipts an execution leaves *)

(** What a provider and a request bind to a receipt, fit to be verified. *)
Definition provider_named (provider : ProviderIdentity) : bool :=
  match provider with
  | LocalIdentity id => negb (is_empty id)
  | RemoteIdentity id endpoint => negb (is_empty id) && negb (is_empty endpoint)
  | CloudflareIdentity id account_id => negb (is_empty id) && negb (is_empty account_id)
  end.

Definition placement_binds (provider : ProviderIdentity) (p : ReceiptPlacement) : Prop :=
  ∀ r, rb_provider r = Some provider → rb_provider_protocol r = Some (identity_protocol provider) →
    verify_placement r p = Ok tt.

Record BindsValid (provider : ProviderIdentity) (b : ReceiptBindings) (a : ExecutionAdmission) : Prop := {
  binds_provider : provider_named provider = true;
  binds_placement p : bind_placement b = Some p → placement_binds provider p;
  binds_application : verify_option verify_application (bind_application b) = Ok tt;
  binds_runtime : verify_option verify_process_runtime (bind_process_runtime b) = Ok tt;
  binds_scope : verify_option validate_scope (bind_scope b) = Ok tt;
  binds_admission : verify_identities [ea_policy_id a; ea_admission_id a] = Ok tt ∧ ea_admission_status a = "admitted";
}.

(** The receipt of a job: what [run_identified] left, bound by the provider and then
    by the job, sealed and signed. *)
Definition job_receipt_of (key : SigningKey) (provider : ProviderIdentity) (b : ReceiptBindings) (a : ExecutionAdmission)
    (evidence : ReceiptReservation) (substrate : option Substrate) (r : ExecutionReceipt) : ExecutionReceipt :=
  sign key (seal_receipt (job_reservation_bound evidence substrate (bind_execution provider b a r))).

Definition evidence_met (b : ReceiptBindings) r : Prop :=
  (∀ binding, bind_project b = Some binding → ProjectMet binding r) ∧
  (∀ binding, bind_stack b = Some binding → StackMet binding r) ∧
  (∀ binding, bind_app_bundle b = Some binding → AppMet binding r).

Lemma job_platform provider b a evidence substrate r :
  execution_platform (normalize (set_receipt_reservation evidence substrate (normalize (bound_body provider b a r)))) =
  execution_platform (set_request b (set_provider provider (identity_protocol provider) r)).
Proof. unfold execution_platform; simpl. by destruct (bind_placement b). Qed.

(** Each kind of attested evidence verifies in the job's receipt when it is met
    there. *)
Lemma job_evidence provider b a evidence substrate r :
  let r' := normalize (set_receipt_reservation evidence substrate (normalize (bound_body provider b a r))) in
  (verify_option (λ project, verify_project project r') (rb_project r') = Ok tt ∧
   verify_option (λ stack, verify_stack stack r') (rb_stack r') = Ok tt ∧
   verify_option (λ app, verify_app app r') (rb_app_bundle r') = Ok tt) ↔ evidence_met b r'.
Proof.
  intros r'. rewrite !verify_option_ok. unfold evidence_met.
  pose proof (job_platform provider b a evidence substrate r) as Hp. fold r' in Hp.
  set (r0 := set_request b (set_provider provider (identity_protocol provider) r)) in *.
  assert (∀ binding, verify_project (attest_project binding r0) r' = Ok tt ↔ ProjectMet binding r') as Hproject.
  { intros binding. rewrite project_evidence_exact. cbn [attest_project rp_binding].
    unfold attest_project. rewrite (verify_requirements_ext binding r0 r') by done. tauto. }
  assert (∀ binding, verify_stack (attest_stack binding r0) r' = Ok tt ↔ StackMet binding r') as Hstack.
  { intros binding. rewrite stack_evidence_exact. rewrite (attest_stack_ext binding r0 r') by done. cbn [attest_stack rst_binding]. tauto. }
  assert (∀ binding, verify_app (attest_app binding r0) r' = Ok tt ↔ AppMet binding r') as Happ.
  { intros binding. rewrite app_evidence_exact. unfold attest_app.
    rewrite (app_gates_ext binding r0 r'); [cbn [rap_binding]; tauto|].
    unfold r'; simpl. by rewrite !sort_by_perm. }
  change (rb_project r') with ((λ binding, attest_project binding r0) <$> bind_project b).
  change (rb_stack r') with ((λ binding, attest_stack binding r0) <$> bind_stack b).
  change (rb_app_bundle r') with ((λ binding, attest_app binding r0) <$> bind_app_bundle b).
  destruct (bind_project b), (bind_stack b), (bind_app_bundle b); naive_solver.
Qed.

(** What a receipt records before it is bound. *)
Record Started r : Prop := {
  started_version : rb_receipt_version r = RECEIPT_VERSION;
  started_execution : is_ok (parse_execution_id (rb_execution_id r)) = true;
  started_workload : validate_sha256_identity (rb_workload r) = Ok tt;
  started_bundle : verify_option validate_sha256_identity (rb_bundle r) = Ok tt;
}.

Lemma provider_verifies provider r :
  rb_provider r = Some provider → rb_provider_protocol r = Some (identity_protocol provider) →
  provider_named provider = true → verify_provider r = Ok tt.
Proof.
  intros Hp Hq Hn. unfold verify_provider. rewrite Hp, Hq.
  destruct provider; simpl in *; repeat (destruct (is_empty _); simpl in *; [done|]);
    by rewrite ?bool_decide_true.
Qed.

Lemma job_placement provider b a evidence substrate r :
  (∀ p, bind_placement b = Some p → placement_binds provider p) →
  let r' := normalize (set_receipt_reservation evidence substrate (normalize (bound_body provider b a r))) in
  verify_option (verify_placement r') (rb_placement r') = Ok tt.
Proof.
  intros Hb r'. apply verify_option_ok. intros p Hp.
  change (rb_placement r') with (place_reservation evidence <$> bind_placement b) in Hp.
  destruct (bind_placement b) as [p0|]; [|done]. injection Hp as <-.
  by apply (Hb p0 eq_refl r').
Qed.

Lemma job_binding provider b a evidence substrate r :
  Started r → BindsValid provider b a → verify_reservation evidence = Ok tt →
  let r' := normalize (set_receipt_reservation evidence substrate (normalize (bound_body provider b a r))) in
  verify_binding r' = Ok tt ↔ evidence_met b r'.
Proof.
  intros [Hv He Hw Hbu] [Hp Hpl Ha Hr Hs [Hi Hst]] Hres r'.
  pose proof (job_evidence provider b a evidence substrate r) as Hev. cbv zeta in Hev. fold r' in Hev. rewrite <-Hev. clear Hev.
  apply is_ok_spec in He as [id He].
  assert (verify_admission r' = Ok tt) as Had.
  { change (verify_admission r') with (verify_identities [ea_policy_id a; ea_admission_id a] ;?;
      reject_if (negb (String.eqb (ea_admission_status a) "admitted")) (invalid_receipt "an execution receipt requires an admitted decision")).
    by rewrite Hi, Hst. }
  assert (from_option (λ placed, negb (bool_decide (Some placed = rb_reservation r'))) false
            (rb_placement r' ≫= rp_reservation) = false) as Hplaced.
  { change (rb_placement r') with (place_reservation evidence <$> bind_placement b).
    change (rb_reservation r') with (Some evidence). destruct (bind_placement b); [|done].
    change (negb (bool_decide (Some evidence = Some evidence)) = false). by rewrite bool_decide_true. }
  pose proof (job_placement provider b a evidence substrate r Hpl) as Hplace. cbv zeta in Hplace. fold r' in Hplace.
  unfold verify_binding. rewrite Hplace.
  rewrite (provider_verifies provider r') by done. rewrite Had, Hplaced.
  change (rb_receipt_version r') with (rb_receipt_version r). change (rb_execution_id r') with (rb_execution_id r).
  change (rb_workload r') with (rb_workload r). change (rb_bundle r') with (rb_bundle r).
  change (rb_application r') with (bind_application b). change (rb_process_runtime r') with (bind_process_runtime b).
  change (rb_scope r') with (bind_scope b). change (rb_reservation r') with (Some evidence).
  rewrite Hv, He, Hw, Hbu, Ha, Hr, Hs, String.eqb_refl. cbn [verify_option]. rewrite Hres.
  cbn [negb reject_if and_then]. rewrite !seq_ok. tauto.
Qed.

Definition environment_valid (e : ReceiptEnvironment) : Prop :=
  verify_identities [di_id (env_distribution e); env_distribution_runtime_id e; env_executable_identity e;
    env_runtime_distribution_id e; env_runtime_distribution_digest e; env_runtime_lock_id e; env_manifest_id e] = Ok tt.

(** SHA-256 identities are what [validate_sha256_identity] accepts. *)
Class IdentityShape : Prop := {
  body_identity r : validate_sha256_identity (canonical_identity r) = Ok tt;
  content_identity data : validate_sha256_identity (sha256_identity data) = Ok tt;
}.

Section runs.
Context `{!IdentityShape}.

Lemma read_inputs_identified read inputs receipts :
  read_inputs read inputs = Ok receipts → ∀ i, i ∈ receipts → validate_sha256_identity (inr_sha256 i) = Ok tt.
Proof.
  revert receipts. induction inputs as [|[path source] inputs IH]; intros receipts Hr; simpl in Hr; ok_inv; [by intros i ?%not_elem_of_nil|].
  intros i [->|Hi]%elem_of_cons; [apply content_identity|by eapply IH].
Qed.

Lemma outputs_verify (o m : list OutputReceipt) outputs missed :
  o = (collected <$> outputs) → m = (missing_output <$> missed) → try_for_each verify_output (o ++ m) = Ok tt.
Proof.
  intros -> ->. apply try_for_each_ok. intros x [(y & -> & _)%list_elem_of_fmap|(y & -> & _)%list_elem_of_fmap]%elem_of_app.
  - unfold verify_output; cbn [our_sha256 collected verify_option our_collection_status our_size]. by rewrite content_identity.
  - unfold verify_output; simpl. by destruct (mo_required y).
Qed.

Lemma resolved_profiles host caps runtime workload ev :
  resolve_isolation host caps runtime workload = Ok ev →
  ev_requested ev = ev_effective ev ∧ ev_profile ev = ev_effective ev.
Proof. intros [(hosted & _ & ->) _]%resolve_isolation_inv. unfold with_host_enforcement. by destruct hosted. Qed.

Lemma verify_identities_ok l : verify_identities l = Ok tt ↔ ∀ id, id ∈ l → validate_sha256_identity id = Ok tt.
Proof. apply try_for_each_ok. Qed.

(** What [create_execution_receipt] made, of what an execution observed. *)
Lemma created_receipt workload runtime result wid bid inputs env started finished (r : ExecutionReceipt) isolation :
  create_execution_receipt workload runtime result wid bid inputs env started finished = Ok r →
  out_isolation result = Some isolation →
  er_body r = normalize (er_body (raw_receipt workload runtime result wid bid inputs env started finished
                                    (out_execution_id result) isolation)) ∧
  req_kind workload = rt_kind runtime ∧ out_runtime result = rt_kind runtime ∧
  is_ok (parse_execution_id (out_execution_id result)) = true.
Proof.
  unfold create_execution_receipt. intros Hc Hi. rewrite Hi in Hc. ok_inv.
  repeat match goal with H : _ || _ = false |- _ => apply orb_false_iff in H as [? ?] | H : negb _ = false |- _ => apply negb_false_iff, bool_decide_eq_true in H end.
  match goal with H : parse_execution_id _ = Ok ?x |- _ =>
    assert (x = out_execution_id result) as -> by (unfold parse_execution_id in H; ok_inv; done); by rewrite H end.
Qed.

Lemma created_executed (workload : RunRequest) runtime result wid bid inputs env started finished hash isolation :
  req_kind workload = rt_kind runtime → out_runtime result = rt_kind runtime →
  ev_requested isolation = ev_effective isolation → ev_profile isolation = ev_effective isolation →
  (∀ i, i ∈ inputs → validate_sha256_identity (inr_sha256 i) = Ok tt) → environment_valid env →
  (∀ id verified, out_dependencies result = Some (id, verified) → verified = true ∧ validate_sha256_identity id = Ok tt) →
  validate_sha256_identity hash = Ok tt →
  verify_execution (er_body (raw_receipt workload runtime result wid bid inputs env started finished
                               (out_execution_id result) isolation)) hash = Ok tt.
Proof.
  intros Hk Ho Hr Hp Hin Henv Hdep Hh. unfold verify_execution. rewrite !seq_ok, !reject_if_ok. cbn -[verify_identities].
  rewrite Hk, Ho, Hr, Hp, String.eqb_refl, !bool_decide_true by done.
  split; [|split; [|split; [done|split; [done|split; [done|split]]]]].
  - unfold environment_valid in Henv. rewrite verify_identities_ok in *. intros id Hid. set_solver.
  - destruct (out_dependencies result) as [[id v]|]; [|done]. simpl. by destruct (Hdep id v eq_refl) as [-> ->].
  - by apply try_for_each_ok.
  - by eapply outputs_verify.
Qed.

(** What [run_identified] leaves: a receipt of what ran, that passes every check but
    those of what is bound to it. *)
Lemma run_started host adapters read environment started finished workload wid bid result (r : ExecutionReceipt) :
  run_identified host adapters read environment started finished workload wid bid = Ok (result, r) →
  (∀ runtime env, environment runtime = Ok env → environment_valid env) →
  validate_sha256_identity wid = Ok tt → verify_option validate_sha256_identity bid = Ok tt →
  (∀ capsule id, run_dependencies workload = Some capsule → dc_capsule_id capsule = Ok id →
    validate_sha256_identity id = Ok tt) →
  Started r ∧ (∀ hash, validate_sha256_identity hash = Ok tt → verify_execution r hash = Ok tt) ∧
  rb_execution_id r = out_execution_id result ∧
  exs_status (rb_execution r) = out_status result ∧ exs_exit_code (rb_execution r) = out_exit_code result.
Proof.
  intros Hrun Henv Hw Hb Hc. unfold run_identified in Hrun.
  apply and_then_ok in Hrun as (inputs & Hin & Hrun). apply and_then_ok in Hrun as (a & _ & Hrun).
  apply and_then_ok in Hrun as (isolation & Hiso%map_err_ok & Hrun). apply and_then_ok in Hrun as (runtime & _ & Hrun).
  apply seq_ok in Hrun as [_ Hrun]. apply and_then_ok in Hrun as (env & He & Hrun).
  apply and_then_ok in Hrun as (ran & _ & Hrun). apply and_then_ok in Hrun as (dependencies & Hd & Hrun).
  apply and_then_ok in Hrun as (created & Hcr & [= <- <-]).
  destruct (created_receipt _ _ _ _ _ _ _ _ _ _ isolation Hcr eq_refl) as (Hbody & Hk & Ho & Hid).
  unfold bind_local, seal_receipt, with_body. cbn [er_body]. rewrite Hbody.
  split; [by constructor|]. split; [|done]. intros hash Hh.
  rewrite verify_execution_normalize, verify_execution_provider, verify_execution_normalize. apply resolved_profiles in Hiso as [Hi1 Hi2].
  apply created_executed; try done.
  - unfold input_receipts in Hin. apply and_then_ok in Hin as (receipts & Hin & [= <-]).
    intros i. rewrite elem_of_sort_by. by eapply read_inputs_identified.
  - by eapply Henv.
  - simpl. intros id v ->. destruct (run_dependencies workload) as [capsule|]; [|discriminate Hd].
    apply and_then_ok in Hd as (id' & Hci & [= <- <-]). split; [done|]. by eapply Hc.
Qed.

(** The receipt of a job agrees with the result it is returned with, and verifies,
    signed by the key of the target, exactly when the execution met what the project,
    the stack and the application bundle of the request require. *)
Lemma job_receipt_verifies `{!Ed25519Laws} host adapters read environment started finished workload wid bid result
    (r : ExecutionReceipt) key provider b a evidence substrate :
  run_identified host adapters read environment started finished workload wid bid = Ok (result, r) →
  (∀ runtime env, environment runtime = Ok env → environment_valid env) →
  validate_sha256_identity wid = Ok tt → verify_option validate_sha256_identity bid = Ok tt →
  (∀ capsule id, run_dependencies workload = Some capsule → dc_capsule_id capsule = Ok id →
    validate_sha256_identity id = Ok tt) →
  BindsValid provider b a → verify_reservation evidence = Ok tt →
  let receipt := job_receipt_of key provider b a evidence substrate r in
  (verify_signed_by receipt (signer_key_id key) = Some (Ok tt) ↔ evidence_met b receipt) ∧
  (verify receipt = Some (Ok tt) ↔ evidence_met b receipt) ∧
  rb_execution_id receipt = out_execution_id result ∧
  exs_status (rb_execution receipt) = out_status result ∧ exs_exit_code (rb_execution receipt) = out_exit_code result.
Proof.
  intros Hrun Henv Hw Hb Hc Hbinds Hres receipt.
  destruct (run_started _ _ _ _ _ _ _ _ _ _ _ Hrun Henv Hw Hb Hc) as (Hs & Hx & Hagree).
  set (sealed := seal_receipt (job_reservation_bound evidence substrate (bind_execution provider b a r))) in *.
  assert (verify_body sealed = Ok tt ↔ evidence_met b receipt) as Hbody.
  { pose proof (job_binding provider b a evidence substrate r Hs Hbinds Hres) as Hbind. cbv zeta in Hbind.
    rewrite verify_body_ok. transitivity (verify_binding sealed = Ok tt); [|exact Hbind].
    split; [by intros [? _]|]. intros Hv. split; [done|]. split; [|split; [apply normalize_idempotent|done]].
    unfold sealed. cbn [er_body er_receipt_hash seal_receipt job_reservation_bound with_body bind_execution].
    rewrite verify_execution_normalize, verify_execution_reserved, verify_execution_normalize, verify_execution_bound.
    apply Hx, body_identity. }
  unfold receipt, job_receipt_of. fold sealed. rewrite verify_signed_by_sign, verify_sign, Hbody.
  split; [naive_solver|]. split; [done|exact Hagree].
Qed.
End runs.
End facts.
