(* ===== verification/ReceiptRuns.v ===== *)
(** Receipts of the jobs that run: the reservation a running job records passes the
    checks of a receipt, so the receipt its execution leaves, bound, sealed and signed
    as [execute_job] does, verifies when the execution met what was asked of it; and a
    run of it, with a signature whose verification panics. *)

From S2P Require Import Prelude Text Core Isolation Policy Admission Descriptor.
From S2P Require Import Matching Pool Placement Requests JobRecord JobStore JobFacts JobSystem JobSafety.
From S2P Require Import JobProperties Receipt ReceiptBuild ReceiptProperties.

(** ** The reservation of a running job *)

Lemma balances_of capacity reserved available max :
  (reserved + available = capacity)%N → (capacity ≤ max)%N → balances capacity reserved available max = true.
Proof. unfold balances. intros. apply N.eqb_eq. lia. Qed.

Lemma covers_balances resources s :
  snapshot_covers resources s → Resources.fits (total_capacity (snap_capacity s)) Resources.width →
  snapshot_balances s = true.
Proof.
  unfold snapshot_covers, Resources.fits, Resources.plus, total_capacity, Resources.width; simpl.
  intros [[= H1 H2 H3 H4] _] Hw. unfold snapshot_balances. by rewrite !balances_of by (done || lia).
Qed.

Lemma granted_verifies r snapshot :
  is_ok (parse_reservation_id (res_reservation_id r)) = true →
  snapshot_covers (res_resources r) snapshot →
  Resources.fits (total_capacity (snap_capacity snapshot)) Resources.width →
  verify_reservation {| rr_reservation_id := res_reservation_id r; rr_requested_resources := res_resources r;
    rr_reserved_resources := res_resources r; rr_provider_capacity_snapshot := snapshot |} = Ok tt.
Proof.
  intros [id Hid]%is_ok_spec Hc Hw. pose proof (covers_balances _ _ Hc Hw) as Hb.
  destruct Hc as [_ (H1 & H2 & H3 & H4)]. unfold verify_reservation; cbn [rr_reservation_id rr_requested_resources rr_reserved_resources rr_provider_capacity_snapshot].
  rewrite Hid, Hb, bool_decide_true by done. cbn [and_then negb reject_if].
  by rewrite !(proj2 (N.ltb_ge _ _)).
Qed.

Section jobs.
Context `{!Bundles, !Aead, !CanonicalIdentity Policy, !CanonicalIdentity ApplicationMaterial, !Sha256,
          !CanonicalIdentity ReceiptBody, !CanonicalIdentity DistributionMaterial, !Ed25519}.
Context (Metadata Detail : Type) (key : SigningKey) (manager : JobManager).

#[local] Instance jobs_metadata : CarriedMetadata := execution_metadata Metadata.
#[local] Instance jobs_evidence : @Evidence jobs_metadata := execution_evidence Metadata Detail key.

Context `{!ReadDir, !CanonicalIdentity SemanticRequest, !CanonicalIdentity JobResult}.

Lemma running_reservation sys id job evidence :
  reachable manager sys → jobs (store sys) !! id = Some job → job_status job = JobRunning →
  receipt_evidence job = Some evidence →
  Resources.fits (total_capacity (snap_capacity (rr_provider_capacity_snapshot evidence))) Resources.width →
  verify_reservation evidence = Ok tt.
Proof.
  intros Hr Hj Hs He Hw. destruct (records_ok _ _ (reachable_records manager sys Hr) id job Hj) as [_ _ Hb (r & Hres & Hok & _)].
  rewrite Hs in Hok. destruct Hok as [_ (snapshot & Hsn & Hc)].
  unfold receipt_evidence in He. rewrite Hres in He. cbn [mbind option_bind] in He. rewrite Hsn in He. injection He as <-.
  apply granted_verifies; [|done..]. unfold reservation_invalid in Hb. rewrite Hres in Hb. simpl in Hb.
  destruct (is_ok (parse_reservation_id _)); [done|discriminate Hb].
Qed.

End jobs.

(** ** Runs *)

#[local] Existing Instance witness_bundles.
#[local] Existing Instance witness_aead.
#[local] Instance run_policy : CanonicalIdentity Policy := λ p, default "anonymous" (policy_name p).
#[local] Instance run_admission : CanonicalIdentity AdmissionMaterial :=
  λ m, material_policy_id m +:+ workload_id (material_contract m).
#[local] Instance run_application : CanonicalIdentity ApplicationMaterial := am_name.
#[local] Instance run_distribution : CanonicalIdentity DistributionMaterial := λ _, "distribution".

(** Identities of the shape SHA-256 gives: the length of the data, in its last digit. *)
Fixpoint zeros (n : nat) (s : string) : string := match n with O => s | S n => String "0" (zeros n s) end.
Definition shaped (b : N) : string := "sha256:" +:+ zeros 63 (String (hex_digit (b mod 16)) "").

#[local] Instance run_sha : Sha256 := λ data, shaped (N.of_nat (length data)).
#[local] Instance run_body : CanonicalIdentity ReceiptBody := λ r, shaped (len (rb_execution_id r)).
Lemma shaped_valid b : validate_sha256_identity (shaped b) = Ok tt.
Proof.
  unfold shaped. assert (N.to_nat (b mod 16) < 16)%nat as Hn by (pose proof (N.mod_lt b 16); lia). revert Hn.
  rewrite <-(N2Nat.id (b mod 16)) at 2. generalize (N.to_nat (b mod 16)) as n. intros n Hn.
  do 16 (destruct n as [|n]; [vm_compute; reflexivity|]). lia.
Qed.

#[local] Instance run_shape : IdentityShape.
Proof. split; intros; apply shaped_valid. Qed.

(** A signature of zeros but for the length of what it signs. *)
#[local] Instance run_ed25519 : Ed25519 :=
  {| SigningKey := unit; public_key _ := repeat 7%N 32;
     ed_sign _ message := (N.of_nat (length message) mod 256)%N :: repeat 0%N 63;
     ed_verify _ message signature :=
       bool_decide (signature = (N.of_nat (length message) mod 256)%N :: repeat 0%N 63) |}.

Lemma bytes_repeat b n : (b < 256)%N → Forall is_byte (repeat b n).
Proof. intros Hb. induction n; simpl; by constructor. Qed.

#[local] Instance run_ed25519_laws : Ed25519Laws.
Proof.
  split.
  - intros. split; [reflexivity|by apply bytes_repeat].
  - intros. split; [reflexivity|]. constructor; [by apply N.mod_lt|by apply bytes_repeat].
  - intros. by apply bool_decide_eq_true.
Qed.

Definition run_key : SigningKey := tt.

#[local] Instance run_metadata : CarriedMetadata := execution_metadata unit.
#[local] Instance run_evidence : @Evidence run_metadata := execution_evidence unit unit run_key.
#[local] Instance run_result : CanonicalIdentity JobResult := λ r, er_execution_id (jres_result r).
#[local] Instance run_semantic : CanonicalIdentity SemanticRequest := λ r, sem_protocol r.
#[local] Instance run_read_dir : ReadDir :=
  {| read_dir s := (map_to_list s).*1; read_dir_names s := reflexivity _ |}.

(** A strict WebAssembly execution and what it leaves. *)
Definition wasm_run : RunRequest :=
  {| run_request := sandboxed_wasm_request; run_entrypoint := "/work/main.wasm"; run_args := ["--fast"]; run_env := ["B"; "A"; "B"];
     run_inputs := [("b.txt", InlineSource [1; 2]%N); ("a.txt", FileSource "/tmp/a")]; run_dependencies := None |}.

Definition wasm_adapter : RuntimeAdapter :=
  {| ad_kind := Wasm; ad_capabilities := RuntimeCapabilities.wasm;
     ad_resolve _ := Ok {| rt_kind := Wasm; rt_requested_version := None; rt_resolved_version := Some "36.0.0" |};
     ad_execute _ _ := Ok {| out_execution_id := "exec_1"; out_runtime := Wasm; out_status := ExecCompleted;
       out_exit_code := Some 0%Z; out_outputs := [{| oa_path := "out"; oa_data := [1]%N; oa_size := 1 |}];
       out_missing := [{| mo_path := "log"; mo_required := false |}]; out_error := None; out_isolation := None;
       out_dependencies := None |} |}.

Definition run_environment : ReceiptEnvironment :=
  {| env_distribution := {| di_id := shaped 1; di_platform := "linux-x86_64"; di_manifest_version := "3" |};
     env_distribution_runtime_id := shaped 2; env_executable_identity := shaped 3;
     env_runtime_distribution_id := shaped 4; env_runtime_distribution_digest := shaped 5;
     env_runtime_lock_id := shaped 6; env_manifest_id := shaped 7 |}.

Definition wasm_ran : Result (RunResult * ExecutionReceipt) ComputeError :=
  run_identified linux_host [wasm_adapter] (λ _, Ok [3]%N) (λ _, Ok run_environment) 10 20 wasm_run (shaped 8) None.

Definition run_admitted_as : ExecutionAdmission :=
  {| ea_policy_id := shaped 9; ea_admission_id := shaped 10; ea_admission_status := "admitted" |}.

(** A project that needs WebAssembly 36 and no dependencies. *)
Definition wasm_project (version : string) : ProjectBinding :=
  {| pb_identity := {| pid_source := "git"; pid_name := "demo"; pid_source_schema := "1" |};
     pb_requirements_id := shaped 11;
     pb_declared := {| dr_runtimes := []; dr_tools := [{| tn_name := "make"; tn_version := None; tn_role := RoleProvisioning |}];
       dr_dependency_count := 0; dr_dependencies_id := shaped 12 |};
     pb_resolved := {| rr_runtime := Wasm; rr_runtime_constraint := Some version; rr_os := None; rr_architecture := None;
       rr_capsule_id := None; rr_command := {| rc_name := None; rc_entrypoint := "main.wasm"; rc_argument_count := 1 |};
       rr_environment_names := [] |} |}.

Definition wasm_bindings (version : string) : ReceiptBindings :=
  {| bind_placement := None; bind_scope := None; bind_application := None; bind_project := Some (wasm_project version);
     bind_stack := None; bind_app_bundle := None; bind_process_runtime := None |}.

Definition wasm_bound (version : string) : option ExecutionReceipt :=
  match wasm_ran with
  | Ok (_, r) => Some (bind_execution (LocalIdentity "local") (wasm_bindings version) run_admitted_as r)
  | Err _ => None
  end.

(** A job of a provider of one slot, brought to its execution. *)
Definition receipt_slot : JobManager :=
  {| jm_seal := tt : AeadKey; jm_retention := 0%N; jm_identity := LocalIdentity "local";
     jm_capacity := {| pc_cpu_millis := 1000; pc_memory_bytes := 1000; pc_disk_bytes := 1000; pc_max_concurrency := 1 |} |}.

Definition receipt_request : ProviderRequest :=
  {| req_protocol := REMOTE_PROTOCOL; req_artifact := BundleTransport [1; 2; 3]%N;
     req_expected := {| expected_workload_id := None; expected_bundle_id := None;
       expected_dependency_id := None; expected_distribution_id := None;
       expected_runtime_distribution_id := None; expected_runtime_distribution_digest := None |};
     req_execution := {| opt_isolation := None; opt_execution_request_id := None; opt_placement := None;
       opt_application := None; opt_policy := None; opt_metadata := tt |} |}.

Definition receipt_result (r : option ExecutionReceipt) : ExecutionResult :=
  {| er_execution_id := "exec_1"; er_status := ExecCompleted; er_exit_code := Some 0%Z; er_outputs := [[1]%N];
     er_detail := tt; er_receipt := r |}.

Definition receipt_around : Surroundings :=
  {| now := 5; nonce := Some (repeat 7%N 12); log_directory := true; admit_answer := Ok admitting;
     execute_answer := Ok (receipt_result (wasm_bound "36.0.0")) |}.

Definition receipt_actions (n : nat) : list Action :=
  [RecoverJobs 0 (λ id, id);
   AcceptJob 1 (fresh_ids "a") {| acc_request := receipt_request; acc_owner := "alice"; acc_idempotency_key := None; acc_reserved := None |}]
  ++ repeat (RunPhase first_id receipt_around) n.

Definition receipt_system (n : nat) : System := default initial (perform_all receipt_slot (receipt_actions n) initial).

Example job_executes :
  (job_status <$> jobs (store (receipt_system 9)) !! first_id) = Some JobRunning ∧
  (job_status <$> jobs (store (receipt_system 11)) !! first_id) = Some JobSucceeded.
Proof. vm_compute. done. Qed.

Lemma wasm_binds version : BindsValid (LocalIdentity "local") (wasm_bindings version) run_admitted_as.
Proof. split; try reflexivity; try discriminate. split; vm_compute; reflexivity. Qed.



Definition wasm_receipt : option ExecutionReceipt := sign run_key <$> wasm_bound "36.0.0".

Lemma signed_by_sound_witness :
  ∃ r key signature, wasm_receipt = Some r ∧ sha256_identity key = signer_key_id run_key ∧ length key = 32 ∧
    ed_verify key (bytes (canonical_identity (er_body r))) signature = true.
Proof.
  destruct wasm_receipt as [r|] eqn:E; [|vm_compute in E; discriminate E]. exists r.
  destruct (signed_by_sound r (signer_key_id run_key)) as [(key & signature & H1 & H2 & H3) _].
  - vm_compute in E. injection E as <-. vm_compute. reflexivity.
  - exists key, signature. split; [reflexivity|]. split; [exact H1|]. split; [exact H2|exact H3].
Defined.

(** Verifying a receipt whose signature is not ASCII panics: [decode] slices the text by
    bytes. *)
Definition with_signature (s : ReceiptSignature) (r : ExecutionReceipt) : ExecutionReceipt :=
  {| er_body := er_body r; er_receipt_hash := er_receipt_hash r; er_signature := Some s |}.

Theorem hostile_signature_panics :
  ∃ r, wasm_bound "36.0.0" = Some r ∧ verify r = Some (Ok tt) ∧
    verify (with_signature {| sig_algorithm := "ed25519"; sig_key_id := ""; sig_public_key := "aéb"; sig_signature := "" |} r) = None.
Proof.
  destruct (wasm_bound "36.0.0") as [r|] eqn:E; [|vm_compute in E; discriminate E]. exists r. split; [done|].
  vm_compute in E. injection E as <-. split; vm_compute; reflexivity.
Qed.
