(* ===== verification/Session.v ===== *)
(** Sessions (src/crates/compute-core/src/sessions.rs): identities, the lifecycle,
    connections, the durable record, requests and commands.

    A record is what never changes after its creation ([SessionTerms]) and what the
    lifecycle changes; [ComputeSession] has both.  The capabilities of a session are
    in [Descriptor]. *)

From S2P Require Import Prelude Text Core Isolation Policy Admission Descriptor.
From S2P Require Import Matching Pool Placement Requests JobRecord.

(** ** Identities and status *)

Definition SESSION_VERSION : string := "compute.session@1".

(** [SessionId::parse] *)
Definition parse_session_id (value : string) : Result string ComputeError :=
  parse_identity "ses_" "malformed session identity" value.

Inductive SessionStatus : Type :=
| Requested | Provisioning | Ready | Running | Stopping | Stopped | Resuming | Expiring | Destroying
| Destroyed | Expired | Failed.

#[export] Instance SessionStatus_eq_dec : EqDecision SessionStatus.
Proof. solve_decision. Defined.

Module SessionStatus.
Definition is_terminal (s : SessionStatus) : bool :=
  match s with Destroyed | Expired | Failed => true | _ => false end.

Definition is_usable (s : SessionStatus) : bool :=
  match s with Ready | Running => true | _ => false end.

Definition as_str (s : SessionStatus) : string :=
  match s with
  | Requested => "requested" | Provisioning => "provisioning" | Ready => "ready" | Running => "running"
  | Stopping => "stopping" | Stopped => "stopped" | Resuming => "resuming" | Expiring => "expiring"
  | Destroying => "destroying" | Destroyed => "destroyed" | Expired => "expired" | Failed => "failed"
  end.
End SessionStatus.

(** ** Connections and endpoints *)

Inductive SessionConnectionMode : Type :=
| ModeExec | ModeSsh | ModeWebsocket | ModeTerminal | ModePortForward | ModeAppport | ModeLocalProcess.

Definition mode_str (m : SessionConnectionMode) : string :=
  match m with
  | ModeExec => "exec" | ModeSsh => "ssh" | ModeWebsocket => "websocket" | ModeTerminal => "terminal"
  | ModePortForward => "port_forward" | ModeAppport => "appport" | ModeLocalProcess => "local_process"
  end.

Record SessionConnection : Type := {
  con_mode : SessionConnectionMode;
  con_address : option string;
  con_port : option N;
  con_details : gmap string string;
}.

Record SessionConnectionGrant : Type := {
  grant_session_id : string;
  grant_connection : SessionConnection;
  grant_command : list string;
  grant_credentials : gmap string string;
  grant_expires_at : option Z;
}.

Record SessionEndpoint : Type := {
  end_id : string;
  end_protocol : string;
  end_address : string;
  end_port : N;
  end_public : bool;
  end_expires_at : option Z;
}.

Record SessionEndpointRequest : Type := {
  epr_port : N;
  epr_protocol : string;
  epr_public : bool;
}.

Record SessionResources : Type := {
  sres_cpu_count : option N;
  sres_memory_bytes : option N;
  sres_disk_bytes : option N;
}.

(** ** Failures and executions *)

Inductive SessionPhase : Type :=
| PhasePlacement | PhaseAuthorization | PhaseAdmission | PhaseProvisioning | PhaseConnection | PhaseExecution
| PhaseStopping | PhaseResuming | PhaseClaim | PhaseTeardown | PhaseExpiration | PhaseReconciliation.

#[export] Instance SessionPhase_eq_dec : EqDecision SessionPhase.
Proof. solve_decision. Defined.

Record SessionFailure : Type := {
  fail_phase : SessionPhase;
  fail_provider : option string;
  fail_code : string;
  fail_message : string;
  fail_retryable : bool;
  fail_at : Z;
}.

Inductive SessionOwnership : Type := Ephemeral | Claimed.

#[export] Instance SessionOwnership_eq_dec : EqDecision SessionOwnership.
Proof. solve_decision. Defined.

Record SessionExecution : Type := {
  exe_job_id : string;
  exe_execution_id : string;
  exe_purpose : string;
  exe_command : list string;
  exe_submitted_at : Z;
  exe_status : JobStatus;
}.

Record SessionLineage : Type := {
  lin_parent_session_id : string;
  lin_checkpoint : string;
  lin_evidence : gmap string string;
  lin_forked_at : Z;
}.

Record MachineCheckpoint : Type := {
  ckpt_id : string;
  ckpt_evidence : gmap string string;
}.

(** ** The record *)

(** The fields of [ComputeSession] that its creation sets for good. *)
Record SessionTerms : Type := {
  cs_version : string;
  cs_session_id : string;
  cs_node_id : string;
  cs_provider : ProviderIdentity;
  cs_provider_kind : string;
  cs_job_id : string;
  cs_execution_id : string;
  cs_owner : string;
  cs_resources : SessionResources;
  cs_network : NetworkPolicy;
  cs_required_capabilities : list string;
  cs_reference : option string;
  cs_requested_endpoints : list SessionEndpointRequest;
  cs_placement_id : option string;
  cs_placement : option ReceiptPlacement;
  cs_admission : option ExecutionAdmission;
  cs_ttl_seconds : option N;
  cs_created_at : Z;
}.

Record ComputeSession : Type := {
  cs_terms :> SessionTerms;
  cs_status : SessionStatus;
  cs_provider_session_id : option string;
  cs_ownership : SessionOwnership;
  cs_capabilities : SessionCapabilities;
  cs_connection : option SessionConnection;
  cs_endpoints : list SessionEndpoint;
  cs_updated_at : Z;
  cs_expires_at : option Z;
  cs_ready_at : option Z;
  cs_ended_at : option Z;
  cs_generation : N;
  cs_failure : option SessionFailure;
  cs_executions : list SessionExecution;
  cs_lineage : option SessionLineage;
}.

(** Assignments to its fields. *)
Definition set_status (v : SessionStatus) (s : ComputeSession) : ComputeSession :=
  {| cs_terms := cs_terms s; cs_status := v; cs_provider_session_id := cs_provider_session_id s;
     cs_ownership := cs_ownership s; cs_capabilities := cs_capabilities s; cs_connection := cs_connection s;
     cs_endpoints := cs_endpoints s; cs_updated_at := cs_updated_at s; cs_expires_at := cs_expires_at s;
     cs_ready_at := cs_ready_at s; cs_ended_at := cs_ended_at s; cs_generation := cs_generation s;
     cs_failure := cs_failure s; cs_executions := cs_executions s; cs_lineage := cs_lineage s |}.

Definition set_environment (id : string) (connection : SessionConnection) (endpoints : list SessionEndpoint)
    (capabilities : SessionCapabilities) (s : ComputeSession) : ComputeSession :=
  {| cs_terms := cs_terms s; cs_status := cs_status s; cs_provider_session_id := Some id;
     cs_ownership := cs_ownership s; cs_capabilities := capabilities; cs_connection := Some connection;
     cs_endpoints := endpoints; cs_updated_at := cs_updated_at s; cs_expires_at := cs_expires_at s;
     cs_ready_at := cs_ready_at s; cs_ended_at := cs_ended_at s; cs_generation := cs_generation s;
     cs_failure := cs_failure s; cs_executions := cs_executions s; cs_lineage := cs_lineage s |}.

Definition set_claimed (s : ComputeSession) : ComputeSession :=
  {| cs_terms := cs_terms s; cs_status := cs_status s; cs_provider_session_id := cs_provider_session_id s;
     cs_ownership := Claimed; cs_capabilities := cs_capabilities s; cs_connection := cs_connection s;
     cs_endpoints := cs_endpoints s; cs_updated_at := cs_updated_at s; cs_expires_at := None;
     cs_ready_at := cs_ready_at s; cs_ended_at := cs_ended_at s; cs_generation := cs_generation s;
     cs_failure := cs_failure s; cs_executions := cs_executions s; cs_lineage := cs_lineage s |}.

Definition set_ready_at (at_ : Z) (s : ComputeSession) : ComputeSession :=
  {| cs_terms := cs_terms s; cs_status := cs_status s; cs_provider_session_id := cs_provider_session_id s;
     cs_ownership := cs_ownership s; cs_capabilities := cs_capabilities s; cs_connection := cs_connection s;
     cs_endpoints := cs_endpoints s; cs_updated_at := cs_updated_at s; cs_expires_at := cs_expires_at s;
     cs_ready_at := Some at_; cs_ended_at := cs_ended_at s; cs_generation := cs_generation s;
     cs_failure := cs_failure s; cs_executions := cs_executions s; cs_lineage := cs_lineage s |}.

Definition set_ended_at (at_ : Z) (s : ComputeSession) : ComputeSession :=
  {| cs_terms := cs_terms s; cs_status := cs_status s; cs_provider_session_id := cs_provider_session_id s;
     cs_ownership := cs_ownership s; cs_capabilities := cs_capabilities s; cs_connection := cs_connection s;
     cs_endpoints := cs_endpoints s; cs_updated_at := cs_updated_at s; cs_expires_at := cs_expires_at s;
     cs_ready_at := cs_ready_at s; cs_ended_at := Some at_; cs_generation := cs_generation s;
     cs_failure := cs_failure s; cs_executions := cs_executions s; cs_lineage := cs_lineage s |}.

Definition set_failure (v : option SessionFailure) (s : ComputeSession) : ComputeSession :=
  {| cs_terms := cs_terms s; cs_status := cs_status s; cs_provider_session_id := cs_provider_session_id s;
     cs_ownership := cs_ownership s; cs_capabilities := cs_capabilities s; cs_connection := cs_connection s;
     cs_endpoints := cs_endpoints s; cs_updated_at := cs_updated_at s; cs_expires_at := cs_expires_at s;
     cs_ready_at := cs_ready_at s; cs_ended_at := cs_ended_at s; cs_generation := cs_generation s;
     cs_failure := v; cs_executions := cs_executions s; cs_lineage := cs_lineage s |}.

Definition set_executions (v : list SessionExecution) (s : ComputeSession) : ComputeSession :=
  {| cs_terms := cs_terms s; cs_status := cs_status s; cs_provider_session_id := cs_provider_session_id s;
     cs_ownership := cs_ownership s; cs_capabilities := cs_capabilities s; cs_connection := cs_connection s;
     cs_endpoints := cs_endpoints s; cs_updated_at := cs_updated_at s; cs_expires_at := cs_expires_at s;
     cs_ready_at := cs_ready_at s; cs_ended_at := cs_ended_at s; cs_generation := cs_generation s;
     cs_failure := cs_failure s; cs_executions := v; cs_lineage := cs_lineage s |}.

Definition set_lineage (v : option SessionLineage) (s : ComputeSession) : ComputeSession :=
  {| cs_terms := cs_terms s; cs_status := cs_status s; cs_provider_session_id := cs_provider_session_id s;
     cs_ownership := cs_ownership s; cs_capabilities := cs_capabilities s; cs_connection := cs_connection s;
     cs_endpoints := cs_endpoints s; cs_updated_at := cs_updated_at s; cs_expires_at := cs_expires_at s;
     cs_ready_at := cs_ready_at s; cs_ended_at := cs_ended_at s; cs_generation := cs_generation s;
     cs_failure := cs_failure s; cs_executions := cs_executions s; cs_lineage := v |}.

Definition set_generation (generation : N) (s : ComputeSession) : ComputeSession :=
  {| cs_terms := cs_terms s; cs_status := cs_status s; cs_provider_session_id := cs_provider_session_id s;
     cs_ownership := cs_ownership s; cs_capabilities := cs_capabilities s; cs_connection := cs_connection s;
     cs_endpoints := cs_endpoints s; cs_updated_at := cs_updated_at s; cs_expires_at := cs_expires_at s;
     cs_ready_at := cs_ready_at s; cs_ended_at := cs_ended_at s; cs_generation := generation;
     cs_failure := cs_failure s; cs_executions := cs_executions s; cs_lineage := cs_lineage s |}.

Definition set_updated_at (at_ : Z) (s : ComputeSession) : ComputeSession :=
  {| cs_terms := cs_terms s; cs_status := cs_status s; cs_provider_session_id := cs_provider_session_id s;
     cs_ownership := cs_ownership s; cs_capabilities := cs_capabilities s; cs_connection := cs_connection s;
     cs_endpoints := cs_endpoints s; cs_updated_at := at_; cs_expires_at := cs_expires_at s;
     cs_ready_at := cs_ready_at s; cs_ended_at := cs_ended_at s; cs_generation := cs_generation s;
     cs_failure := cs_failure s; cs_executions := cs_executions s; cs_lineage := cs_lineage s |}.

(** [active_executions] *)
Definition is_active_execution (e : SessionExecution) : bool := negb (JobStatus.is_terminal (exe_status e)).

Definition active_executions (s : ComputeSession) : list SessionExecution :=
  List.filter is_active_execution (cs_executions s).

(** [is_expired_at] *)
Definition is_expired_at (s : ComputeSession) (now : Z) : bool :=
  bool_decide (cs_ownership s = Ephemeral) &&
  match cs_expires_at s with Some at_ => Z.leb at_ now | None => false end.

(** ** Requests and commands *)

Record SessionSpec : Type := {
  spec_ttl_seconds : option N;
  spec_required_capabilities : list string;
  spec_endpoints : list SessionEndpointRequest;
  spec_persistent : bool;
  spec_reference : option string;
}.

(** [valid_session_reference] *)
Definition valid_session_reference (reference : string) : bool :=
  negb (is_empty reference) && N.leb (len reference) 128 &&
  all_bytes (λ b, is_ascii_alphanumeric b || one_of ".:_-" b) reference.

Definition MAX_FORK_CHILDREN : N := 16.

Record SessionForkRequest : Type := {
  fork_count : N;
  fork_references : list string;
}.

Record SessionFork : Type := {
  fork_source_session_id : string;
  fork_checkpoint : MachineCheckpoint;
  fork_children : list ComputeSession;
  fork_refused : option string;
}.

Record TerminalSize : Type := {
  term_rows : N;
  term_cols : N;
}.

Record SessionCommand : Type := {
  cmd_command : list string;
  cmd_env : gmap string string;
  cmd_timeout : option Duration;
  cmd_stdin : option string;
  cmd_output_bytes : option N;
  cmd_terminal : option TerminalSize;
  cmd_interactive : bool;
}.

Definition SESSION_OUTPUT_BYTES : N := 16 * 1024 * 1024.

(** [SessionCommand::new] *)
Definition new_command (command : list string) : SessionCommand :=
  {| cmd_command := command; cmd_env := ∅; cmd_timeout := None; cmd_stdin := None; cmd_output_bytes := None;
     cmd_terminal := None; cmd_interactive := false |}.

(** [SessionCommand::output_limit] *)
Definition output_limit (c : SessionCommand) : N := default SESSION_OUTPUT_BYTES (cmd_output_bytes c).

Definition has_nul (s : string) : bool := any_byte (N.eqb 0) s.

Definition env_invalid (entry : string * string) : bool :=
  is_empty (fst entry) || any_byte (N.eqb 61) (fst entry) || has_nul (fst entry) || has_nul (snd entry).

(** [SessionCommand::validate] *)
Definition validate_command (c : SessionCommand) : Result unit ComputeError :=
  reject_if (match cmd_command c with [] => true | program :: _ => is_empty program end)
    (InvalidWorkload "a session command needs a program") ;?;
  reject_if (existsb has_nul (cmd_command c)) (InvalidWorkload "a session command cannot contain NUL") ;?;
  try_for_each (λ entry,
      reject_if (env_invalid entry) (InvalidWorkload ("invalid environment variable " +:+ debug_str (fst entry))))
    (by_id (cmd_env c)) ;?;
  reject_if (bool_decide (cmd_output_bytes c = Some 0%N)) (InvalidWorkload "a session command must keep some output").

Record SessionExecSubmission : Type := {
  ses_session_id : string;
  ses_job_id : string;
  ses_execution_id : string;
  ses_status : JobStatus;
}.

Record SessionEvent : Type := {
  sev_session_id : string;
  sev_sequence : N;
  sev_type : string;
  sev_status : SessionStatus;
  sev_generation : N;
  sev_detail : option string;
  sev_timestamp : Z;
}.
