(* ===== verification/SessionManager.v ===== *)
(** The session manager (src/crates/compute-provider/src/sessions.rs,
    [SessionManager]).

    Its operations are programs: trees of actions on the durable store and the sets
    of the manager, each atomic because the code makes it under the mutation lock or
    on one file, and of questions to the provider of environments, the job manager,
    the authority and the directory.  Between any two of them other tasks may run.

    The loop of [advance_owned] is a call the scheduler unfolds ([Advance]); a task
    that panics is gone ([Panic]). *)

From S2P Require Import Prelude Text Core Isolation Policy Admission Descriptor.
From S2P Require Import Matching Pool Placement Requests JobRecord JobStore Session.

(** ** What a provider of environments is asked *)

Record ProvisionRequest : Type := {
  prq_session_id : string;
  prq_resources : SessionResources;
  prq_network : NetworkPolicy;
  prq_isolation : IsolationProfile;
  prq_endpoints : list SessionEndpointRequest;
  prq_expires_at : option Z;
}.

Record ProvisionedSession : Type := {
  psn_provider_session_id : string;
  psn_connection : SessionConnection;
  psn_endpoints : list SessionEndpoint;
  psn_capabilities : SessionCapabilities;
}.

Inductive EnvironmentState : Type := EnvProvisioning | EnvReady | EnvStopped | EnvMissing.

Record SessionEnvironment : Type := {
  env_session_id : string;
  env_provider_session_id : string;
  env_resources : SessionResources;
  env_network : NetworkPolicy;
  env_isolation : IsolationProfile;
  env_host : HostProfile;
  env_attach : option string;
}.

Record ProviderConnection : Type := {
  pco_connection : option SessionConnection;
  pco_command : list string;
  pco_credentials : gmap string string;
  pco_expires_at : option Z;
}.

(** What sessions read and make of bundles besides what jobs do. *)
Class SessionBundles `{!Bundles} := {
  (** [bundle.workload.isolation.host] *)
  workload_host : WorkloadBundle → HostProfile;
  (** the bundle with another network *)
  with_network : NetworkPolicy → WorkloadBundle → WorkloadBundle;
  validate_bundle : WorkloadBundle → Result unit ComputeError;
  to_bytes : WorkloadBundle → Result (list N) ComputeError;
  bundle_workload_id : WorkloadBundle → Result string ComputeError;
  bundle_bundle_id : WorkloadBundle → Result string ComputeError;
}.

Section data.
Context `{!Bundles, !CarriedMetadata}.

Record SessionCreateRequest : Type := {
  scr_request : ProviderRequest;
  scr_spec : SessionSpec;
}.

Record StoredSessionRequest : Type := {
  ssr_owner : string;
  ssr_request : ProviderRequest;
  ssr_spec : SessionSpec;
}.

(** What the manager knows of the provider of environments and of the node. *)
Record SessionManager : Type := {
  sm_kind : string;
  sm_capabilities : SessionCapabilities;
  sm_contains_network : bool;
  sm_substrate : string → option SubstrateEvidence;
  sm_identity : ProviderIdentity;
}.

(** ** Programs *)

(** Actions on the store ([session.json], [request.json], [events.json] of each
    session) and on the sets [live], [driving] and [watching]. *)
Inductive Eff : Type → Type :=
| ReadSession (id : string) : Eff (Result ComputeSession ProviderError)
| ReadRequest (id : string) : Eff (Result StoredSessionRequest ProviderError)
| ReadEvents (id : string) : Eff (Result (list SessionEvent) ProviderError)
| Mutate (id : string) (fence : option N) (event_type : string)
    (change : Z → ComputeSession → Result ComputeSession ProviderError) : Eff (Result ComputeSession ProviderError)
| SettleExecution (id job : string) (status : JobStatus) : Eff (Result ComputeSession ProviderError)
| RecordEvent (id event_type : string) (detail : option string) : Eff (Result unit ProviderError)
| Publish (session : ComputeSession) (stored : StoredSessionRequest) : Eff (Result (ComputeSession * bool) ProviderError)
| Now : Eff Z
| InsertLive (id : string) : Eff unit
| RemoveLive (id : string) : Eff unit
| ListLive : Eff (list string)
| InsertDriving (id : string) : Eff bool
| RemoveDriving (id : string) : Eff unit
| IsDriving (id : string) : Eff bool
| InsertWatching (job : string) : Eff bool
| RemoveWatching (job : string) : Eff unit.

(** Questions to what surrounds the manager. *)
Inductive Query : Type → Type :=
| ListDirectory : Query (list string)
(** [SessionId::generate], [JobId::generate] and [new_execution_id] *)
| GenerateSession : Query string
| GenerateJob : Query string
| GenerateExecution : Query string
| GenerateCheckpoint (source : string) : Query string
| Admit (request : ProviderRequest) : Query (Result JobAdmission ProviderError)
| AuthorizeExpiry (owner : string) : Query (Result unit ProviderError)
| EnvProvision (request : ProvisionRequest) : Query (Result ProvisionedSession ProviderError)
| EnvProvisionFrom (request : ProvisionRequest) (checkpoint : string) : Query (Result ProvisionedSession ProviderError)
| EnvInspect (environment : string) : Query (Result EnvironmentState ProviderError)
| EnvExec (environment : SessionEnvironment) (command : SessionCommand) : Query (Result ProviderRequest ProviderError)
| EnvDestroy (environment : string) : Query (Result unit ProviderError)
| EnvStop (environment : string) : Query (Result unit ProviderError)
| EnvResume (environment : string) : Query (Result unit ProviderError)
| EnvClaim (environment : string) : Query (Result unit ProviderError)
| EnvConnect (environment : SessionEnvironment) : Query (Result ProviderConnection ProviderError)
| EnvCheckpoint (environment checkpoint : string) : Query (Result MachineCheckpoint ProviderError)
| EnvRelease (checkpoint : string) : Query (Result unit ProviderError)
| JobStatusOf (job owner : string) : Query (Result ExecutionJob ProviderError)
| JobCancel (job owner : string) : Query (Result ExecutionJob ProviderError)
| JobAccept (acceptance : Acceptance) : Query (Result JobSubmission ProviderError)
| JobWait (job owner : string) : Query (Result ExecutionJob ProviderError)
(** [JobWait] within [EXECUTION_TERMINATION_DEADLINE] *)
| JobWaitDeadline (job owner : string) : Query (option (Result ExecutionJob ProviderError)).

(** What the manager spawns. *)
Inductive Task : Type :=
| DriveTask (id : string)
| WatchTask (id job : string)
| RecoverTask (id : string)
| SweepTask.

Inductive Prog (A : Type) : Type :=
| Ret (a : A)
| Do {R : Type} (e : Eff R) (k : R → Prog A)
| Ask {R : Type} (q : Query R) (k : R → Prog A)
| Advance (id : string) (k : Result ComputeSession ProviderError → Prog A)
| Spawn (task : Task) (k : nat → Prog A)
| Join (handle : nat) (k : Prog A)
| Panic.
End data.

Arguments Ret {_ _ _} a.
Arguments Do {_ _ _ _} e k.
Arguments Ask {_ _ _ _} q k.
Arguments Advance {_ _ _} id k.
Arguments Spawn {_ _ _} task k.
Arguments Join {_ _ _} handle k.
Arguments Panic {_ _ _}.

Fixpoint prog_bind `{!Bundles, !CarriedMetadata} {A B} (k : A → Prog B) (p : Prog A) : Prog B :=
  match p with
  | Ret a => k a
  | Do e k' => Do e (λ r, prog_bind k (k' r))
  | Ask q k' => Ask q (λ r, prog_bind k (k' r))
  | Advance id k' => Advance id (λ r, prog_bind k (k' r))
  | Spawn task k' => Spawn task (λ h, prog_bind k (k' h))
  | Join h p => Join h (prog_bind k p)
  | Panic => Panic
  end.

#[export] Instance prog_mret `{!Bundles, !CarriedMetadata} : MRet Prog := λ A, Ret.
#[export] Instance prog_mbind `{!Bundles, !CarriedMetadata} : MBind Prog := λ A B, prog_bind.

Definition act `{!Bundles, !CarriedMetadata} {R} (e : Eff R) : Prog R := Do e Ret.
Definition ask `{!Bundles, !CarriedMetadata} {R} (q : Query R) : Prog R := Ask q Ret.

(** [?] in a program *)
Definition try_ `{!Bundles, !CarriedMetadata} {A B E} (p : Prog (Result A E)) (k : A → Prog (Result B E))
    : Prog (Result B E) :=
  r ← p; match r with Ok a => k a | Err e => mret (Err e) end.

Notation "x '←?' p ; k" := (try_ p (λ x, k)) (at level 20, p at level 100, k at level 200).
Notation "' x '←?' p ; k" := (try_ p (λ x, k)) (at level 20, x pattern, p at level 100, k at level 200).

(** A program for each element in order. *)
Fixpoint each `{!Bundles, !CarriedMetadata} {A} (f : A → Prog unit) (l : list A) : Prog unit :=
  match l with [] => mret tt | x :: l => f x ;; each f l end.

(** ** Errors *)

(** The name of an error kind in JSON. *)
Definition error_code (kind : ProviderErrorKind) : string :=
  match kind with
  | ProviderUnavailable => "provider_unavailable" | ProtocolUnsupported => "protocol_unsupported"
  | Unauthorized => "unauthorized" | ArtifactInvalid => "artifact_invalid"
  | PRuntimeUnavailable => "runtime_unavailable" | DistributionUnavailable => "distribution_unavailable"
  | CapabilityMismatch => "capability_mismatch" | PolicyRejected => "policy_rejected"
  | TransportFailure => "transport_failure" | RemoteExecutionFailure => "remote_execution_failure"
  | UnknownJob => "unknown_job" | JobExpired => "job_expired" | IdempotencyConflict => "idempotency_conflict"
  | EvidenceInvalid => "evidence_invalid" | ProviderInterrupted => "provider_interrupted"
  | AdmissionDenied => "admission_denied" | UnknownSession => "unknown_session"
  | SessionConflict => "session_conflict" | OperationUnsupported => "operation_unsupported"
  | TerminationFailed => "termination_failed" | QuotaExhausted => "quota_exhausted"
  end.

Definition conflict (message : string) : ProviderError := provider_error SessionConflict message.
Definition unknown_session : ProviderError := provider_error UnknownSession "unknown session".

Definition unsupported (provider operation : string) : ProviderError :=
  provider_error OperationUnsupported
    ("session provider " +:+ provider +:+ " does not support " +:+ operation).

Definition STALE : string := "session changed while this operation ran".

(** [is_stale] *)
Definition is_stale (e : ProviderError) : bool :=
  bool_decide (perror_kind e = SessionConflict) &&
  (starts_with STALE (perror_message e) || contains (perror_message e) "does not change again").

(** [ProviderError::denied] *)
Definition denied (decision : AdmissionDecision) : ProviderError :=
  provider_error AdmissionDenied
    ("admission denied (" +:+ admission_id decision +:+ "): " +:+
     join "; " (reason_message <$> decision_reasons decision)).

(** [job_failure] *)
Definition job_failure (job : ExecutionJob) : string * string :=
  match job_failure job with
  | Some failure =>
      let code :=
        match split_once ":" failure with
        | Some (code, _) =>
            let code := trim code in
            if negb (is_empty code) && all_bytes (λ b, is_ascii_lowercase b || N.eqb b 95) code then Some code else None
        | None => None
        end in
      (default "readiness_failed" code, failure)
  | None => ("readiness_failed", "the readiness execution ended " +:+ JobStatus.debug (job_status job))
  end.

Definition is_retryable (kind : ProviderErrorKind) : bool :=
  match kind with
  | TerminationFailed | ProviderUnavailable | TransportFailure | ProviderInterrupted | PRuntimeUnavailable => true
  | _ => false
  end.

Definition DEFAULT_SESSION_TTL : N := 60 * 60.

Definition SESSION_READINESS_SCRIPT : string :=
  "printf 'compute-session-ready\n'" +:+ String "010"%char "".

(** ** Guards and helpers *)

Section manager.
Context `{!Bundles, !CarriedMetadata, !SessionBundles, !Chrono, !Sha256} (manager : SessionManager).
Context `{!CanonicalIdentity Policy, !CanonicalIdentity SemanticRequest,
          !CanonicalIdentity ApplicationMaterial}.

(** [owned]: another's session is as unknown. *)
Definition owned (id owner : string) : Prog (Result ComputeSession ProviderError) :=
  session ←? act (ReadSession id);
  mret (if String.eqb (cs_owner session) owner then Ok session else Err unknown_session).

(** [usable] *)
Definition usable (id owner operation : string) : Prog (Result ComputeSession ProviderError) :=
  session ←? owned id owner;
  now ← act Now;
  mret (if is_expired_at session now then Err (conflict ("the session has expired; cannot " +:+ operation))
        else if negb (SessionStatus.is_usable (cs_status session)) then
          let hint := match cs_status session with
                      | Stopped => "; resume it first"
                      | Requested | Provisioning => "; it is not ready yet"
                      | _ => ""
                      end in
          Err (conflict ("session is " +:+ SessionStatus.as_str (cs_status session) +:+ hint +:+
                         "; cannot " +:+ operation))
        else Ok session).

(** [environment] *)
Definition environment (session : ComputeSession) : Prog (Result SessionEnvironment ProviderError) :=
  stored ←? act (ReadRequest (cs_session_id session));
  mret (let? bundle := transport_bundle (req_artifact (ssr_request stored)) in
        match cs_provider_session_id session with
        | None => Err (conflict "the session has no environment yet")
        | Some id =>
            Ok {| env_session_id := cs_session_id session; env_provider_session_id := id;
                  env_resources := cs_resources session; env_network := cs_network session;
                  env_isolation :=
                    default (workload_isolation bundle) (opt_isolation (req_execution (ssr_request stored)));
                  env_host := workload_host bundle; env_attach := None |}
        end).

Definition with_attach (path : string) (e : SessionEnvironment) : SessionEnvironment :=
  {| env_session_id := env_session_id e; env_provider_session_id := env_provider_session_id e;
     env_resources := env_resources e; env_network := env_network e; env_isolation := env_isolation e;
     env_host := env_host e; env_attach := Some path |}.

(** [attach_path], below the root. *)
Definition attach_path (job : string) : string :=
  ".attach/" +:+ String.substring 0 16 (trim_digest (sha256_identity (bytes job))) +:+ ".sock".

(** [failure] *)
Definition failure (phase : SessionPhase) (e : ProviderError) : Prog SessionFailure :=
  now ← act Now;
  mret {| fail_phase := phase; fail_provider := Some (sm_kind manager); fail_code := error_code (perror_kind e);
          fail_message := perror_message e; fail_retryable := is_retryable (perror_kind e); fail_at := now |}.

(** A provider's error, labelled as the provider's. *)
Definition labelled (e : ProviderError) : ProviderError :=
  provider_error (perror_kind e) ("session provider " +:+ sm_kind manager +:+ ": " +:+ perror_message e).

Definition set_recorded (f : SessionFailure) (now : Z) (s : ComputeSession) : Result ComputeSession ProviderError :=
  Ok (set_failure (Some f) s).

(** [record_failure] *)
Definition record_failure (session : ComputeSession) (event_type : string) (f : SessionFailure)
    : Prog (Result unit ProviderError) :=
  if match cs_failure session with
     | Some recorded =>
         bool_decide (fail_phase recorded = fail_phase f) && String.eqb (fail_code recorded) (fail_code f) &&
         String.eqb (fail_message recorded) (fail_message f)
     | None => false
     end
  then mret (Ok tt)
  else
    _ ←? act (Mutate (cs_session_id session) (Some (cs_generation session)) event_type (set_recorded f));
    mret (Ok tt).

(** [cancel_executions] *)
Definition cancel_executions (session : ComputeSession) : Prog unit :=
  each (λ e, _ ← ask (JobCancel (exe_job_id e) (cs_owner session)); mret tt) (active_executions session).

(** The loop of [terminate_executions]. *)
Fixpoint await_ended (owner : string) (l : list SessionExecution) : Prog (Result unit ProviderError) :=
  match l with
  | [] => mret (Ok tt)
  | e :: l =>
      ended ← ask (JobWaitDeadline (exe_job_id e) owner);
      match ended with
      | Some (Ok _) => await_ended owner l
      | Some (Err error) =>
          match perror_kind error with
          | UnknownJob | JobExpired => await_ended owner l
          | _ => mret (Err error)
          end
      | None =>
          mret (Err (provider_error TerminationFailed
            ("execution " +:+ exe_job_id e +:+ " did not end within 20s of being cancelled")))
      end
  end.

(** [terminate_executions] *)
Definition terminate_executions (session : ComputeSession) : Prog (Result unit ProviderError) :=
  cancel_executions session ;; await_ended (cs_owner session) (active_executions session).

Definition with_placement (placement : option ReceiptPlacement) (r : ProviderRequest) : ProviderRequest :=
  {| req_protocol := req_protocol r; req_artifact := req_artifact r; req_expected := req_expected r;
     req_execution := {| opt_isolation := opt_isolation (req_execution r);
                         opt_execution_request_id := opt_execution_request_id (req_execution r);
                         opt_placement := placement; opt_application := opt_application (req_execution r);
                         opt_policy := opt_policy (req_execution r); opt_metadata := opt_metadata (req_execution r) |} |}.

Definition with_policy (policy : option Policy) (r : ProviderRequest) : ProviderRequest :=
  {| req_protocol := req_protocol r; req_artifact := req_artifact r; req_expected := req_expected r;
     req_execution := {| opt_isolation := opt_isolation (req_execution r);
                         opt_execution_request_id := opt_execution_request_id (req_execution r);
                         opt_placement := opt_placement (req_execution r);
                         opt_application := opt_application (req_execution r);
                         opt_policy := policy; opt_metadata := opt_metadata (req_execution r) |} |}.

(** [accept] *)
Definition accept_execution (session : ComputeSession) (request : ProviderRequest) (e : SessionExecution)
    : Prog (Result JobStatus ProviderError) :=
  submission ←? ask (JobAccept
    {| acc_request := with_placement (cs_placement session) request; acc_owner := cs_owner session;
       acc_idempotency_key := None;
       acc_reserved := Some {| rsv_job_id := exe_job_id e; rsv_execution_id := exe_execution_id e;
                               rsv_session_id := Some (cs_session_id session);
                               rsv_substrate := cs_provider_session_id session ≫= sm_substrate manager |} |});
  mret (Ok (sub_status submission)).

(** [watch] *)
Definition watch (id job : string) : Prog unit :=
  inserted ← act (InsertWatching job);
  if inserted : bool then Spawn (WatchTask id job) (λ _, mret tt) else mret tt.

(** [drive] *)
Definition drive (id : string) : Prog unit :=
  inserted ← act (InsertDriving id);
  if inserted : bool then Spawn (DriveTask id) (λ _, mret tt) else mret tt.

(** ** Failing *)

Definition set_failed (f : SessionFailure) (now : Z) (s : ComputeSession) : Result ComputeSession ProviderError :=
  Ok (set_ended_at now (set_failure (Some f) (set_status Failed s))).

(** [fail] *)
Definition fail_session (session : ComputeSession) (f : SessionFailure) : Prog (Result unit ProviderError) :=
  failed ←? act (Mutate (cs_session_id session) (Some (cs_generation session)) "failed" (set_failed f));
  cancel_executions failed ;;
  match cs_provider_session_id failed with
  | Some environment =>
      outcome ← ask (EnvDestroy environment);
      _ ← act (RecordEvent (cs_session_id failed) "teardown"
        (Some (match outcome with
               | Ok _ => "environment destroyed"
               | Err e => "teardown failed: " +:+ provider_error_to_string e
               end)));
      mret (Ok tt)
  | None => mret (Ok tt)
  end.

Definition environment_lost (session : ComputeSession) (now : Z) : SessionFailure :=
  {| fail_phase := PhaseReconciliation; fail_provider := Some (cs_provider_kind session);
     fail_code := "environment_lost"; fail_message := "the provider no longer has this environment";
     fail_retryable := false; fail_at := now |}.

(** Whether a session that should have a machine has lost it: [inspect] and
    [recover]. *)
Definition lost (session : ComputeSession) : Prog bool :=
  match cs_status session, cs_provider_session_id session with
  | (Ready | Running | Stopped), Some environment =>
      state ← ask (EnvInspect environment);
      mret (match state with Ok EnvMissing => true | _ => false end)
  | _, _ => mret false
  end.

(** ** Checkpoints *)

(** The names of the root that are of sessions. *)
Definition session_names (names : list string) : list string :=
  omap (λ name, match parse_session_id name with Ok id => Some id | Err _ => None end) names.

(** Whether a session has yet to be provisioned from a checkpoint. *)
Definition needs_checkpoint (checkpoint : string) (s : ComputeSession) : bool :=
  match cs_lineage s with Some l => String.eqb (lin_checkpoint l) checkpoint | None => false end &&
  (bool_decide (cs_status s = Requested) ||
   bool_decide (cs_status s = Provisioning) && negb (bool_decide (is_Some (cs_provider_session_id s)))).

Fixpoint settle_from (checkpoint : string) (names : list string) : Prog unit :=
  match names with
  | [] => _ ← ask (EnvRelease checkpoint); mret tt
  | id :: names =>
      session ← act (ReadSession id);
      match session with
      | Ok s => if needs_checkpoint checkpoint s then mret tt else settle_from checkpoint names
      | Err _ => settle_from checkpoint names
      end
  end.

(** [settle_checkpoint] *)
Definition settle_checkpoint (checkpoint : string) : Prog unit :=
  names ← ask ListDirectory;
  settle_from checkpoint (session_names names).

(** ** Provisioning *)

Definition provision_request (session : ComputeSession) (stored : StoredSessionRequest) (bundle : WorkloadBundle)
    : ProvisionRequest :=
  {| prq_session_id := cs_session_id session; prq_resources := cs_resources session;
     prq_network := cs_network session;
     prq_isolation := default (workload_isolation bundle) (opt_isolation (req_execution (ssr_request stored)));
     prq_endpoints := cs_requested_endpoints session; prq_expires_at := cs_expires_at session |}.

Definition adopt (p : ProvisionedSession) (now : Z) (s : ComputeSession) : Result ComputeSession ProviderError :=
  Ok (set_environment (psn_provider_session_id p) (psn_connection p) (psn_endpoints p) (psn_capabilities p) s).

Definition settle_lineage (session : ComputeSession) : Prog unit :=
  match cs_lineage session with Some l => settle_checkpoint (lin_checkpoint l) | None => mret tt end.

(** What an environment is made from: a checkpoint when the session was forked. *)
Definition ask_environment (session : ComputeSession) (request : ProvisionRequest)
    : Prog (Result ProvisionedSession ProviderError) :=
  match cs_lineage session with
  | Some l =>
      if bool_decide (lin_evidence l = ∅) then
        mret (Err (provider_error ProviderInterrupted "the fork ended before its checkpoint was taken"))
      else ask (EnvProvisionFrom request (lin_checkpoint l))
  | None => ask (EnvProvision request)
  end.

(** The environment could not be made. *)
Definition provision_failed (session : ComputeSession) (e : ProviderError) : Prog (Result unit ProviderError) :=
  f ← failure PhaseProvisioning e;
  _ ←? fail_session session f;
  settle_lineage session ;;
  mret (Ok tt).

(** The environment was made: it becomes the session's, or is torn down when the
    session has moved on. *)
Definition provision_made (session : ComputeSession) (provisioned : ProvisionedSession)
    : Prog (Result unit ProviderError) :=
  let id := cs_session_id session in
  applied ← act (Mutate id (Some (cs_generation session)) "provisioned" (adopt provisioned));
  settle_lineage session ;;
  if is_ok applied then mret (Ok tt)
  else
    _ ← ask (EnvDestroy (psn_provider_session_id provisioned));
    _ ← act (RecordEvent id "orphan_destroyed" (Some "a late provisioning response was discarded"));
    mret (Ok tt).

(** [provision] of a session that has no environment. *)
Definition provision_environment (session : ComputeSession) : Prog (Result unit ProviderError) :=
  stored ←? act (ReadRequest (cs_session_id session));
  bundle ←? mret (transport_bundle (req_artifact (ssr_request stored)));
  outcome ← ask_environment session (provision_request session stored bundle);
  match outcome with
  | Err e => provision_failed session e
  | Ok provisioned => provision_made session provisioned
  end.

Definition push_execution (e : SessionExecution) (now : Z) (s : ComputeSession) : Result ComputeSession ProviderError :=
  Ok (set_executions (cs_executions s ++ [e]) s).

(** The readiness execution is submitted, unless the job manager has it; [false]
    when the session was failed instead. *)
Definition submit_readiness (session : ComputeSession) (readiness : SessionExecution)
    : Prog (Result bool ProviderError) :=
  let id := cs_session_id session in
  known ← ask (JobStatusOf (cs_job_id session) (cs_owner session));
  if is_ok known then mret (Ok true)
  else
    env ←? environment session;
    request ← ask (EnvExec env (new_command ["sh"; "-c"; SESSION_READINESS_SCRIPT]));
    match request with
    | Err e =>
        f ← failure PhaseProvisioning e;
        _ ←? fail_session session f;
        mret (Ok false)
    | Ok request =>
        _ ←? (if existsb (λ e, String.eqb (exe_job_id e) (cs_job_id session)) (cs_executions session)
              then mret (Ok session)
              else act (Mutate id (Some (cs_generation session)) "readiness_requested" (push_execution readiness)));
        accepted ← accept_execution session request readiness;
        match accepted with
        | Err e =>
            f ← failure PhaseProvisioning e;
            _ ←? fail_session session f;
            mret (Ok false)
        | Ok _ => mret (Ok true)
        end
    end.

Definition set_ready (now : Z) (s : ComputeSession) : Result ComputeSession ProviderError :=
  Ok (set_ready_at now (set_status Ready s)).

Definition readiness_failure (job : ExecutionJob) (now : Z) : SessionFailure :=
  let '(code, message) := job_failure job in
  {| fail_phase := if String.eqb code "admission_denied" then PhaseAdmission else PhaseProvisioning;
     fail_provider := None; fail_code := code; fail_message := message;
     fail_retryable := negb (String.eqb code "admission_denied"); fail_at := now |}.

(** [provision] of a session that has its environment: it is ready once its
    readiness execution has succeeded. *)
Definition provision_readiness (session : ComputeSession) : Prog (Result unit ProviderError) :=
  let id := cs_session_id session in
  submitted_at ← act Now;
  submitted ←? submit_readiness session
    {| exe_job_id := cs_job_id session; exe_execution_id := cs_execution_id session; exe_purpose := "provision";
       exe_command := []; exe_submitted_at := submitted_at; exe_status := JobQueued |};
  if negb submitted then mret (Ok tt)
  else
    job ←? ask (JobWait (cs_job_id session) (cs_owner session));
    current ←? act (ReadSession id);
    _ ←? act (SettleExecution id (job_id job) (job_status job));
    if negb (bool_decide (cs_status current = Provisioning)) then mret (Ok tt)
    else if bool_decide (job_status job = JobSucceeded) then
      _ ←? act (Mutate id (Some (cs_generation current)) "ready" set_ready);
      mret (Ok tt)
    else
      now ← act Now;
      current ←? act (ReadSession id);
      fail_session current (readiness_failure job now).

(** [provision] *)
Definition provision (session : ComputeSession) : Prog (Result unit ProviderError) :=
  match cs_provider_session_id session with
  | None => provision_environment session
  | Some _ => provision_readiness session
  end.

(** ** Teardown *)

Definition set_torn_down (expiring : bool) (now : Z) (s : ComputeSession) : Result ComputeSession ProviderError :=
  Ok (set_ended_at now (set_failure None (set_status (if expiring then Expired else Destroyed) s))).

(** What is recorded of a teardown that failed. *)
Definition teardown_failed (session : ComputeSession) (phase : SessionPhase) (event_type : string)
    (e : ProviderError) : Prog (Result unit ProviderError) :=
  f ← failure phase e;
  _ ←? record_failure session event_type f;
  mret (Err (labelled e)).

(** [teardown] *)
Definition teardown (session : ComputeSession) : Prog (Result unit ProviderError) :=
  let expiring := bool_decide (cs_status session = Expiring) in
  let phase := if expiring then PhaseExpiration else PhaseTeardown in
  allowed ← (if expiring then ask (AuthorizeExpiry (cs_owner session)) else mret (Ok tt));
  match allowed with
  | Err e =>
      now ← act Now;
      _ ←? record_failure session "expiry_denied"
        {| fail_phase := PhaseAuthorization; fail_provider := None; fail_code := error_code (perror_kind e);
           fail_message := perror_message e; fail_retryable := true; fail_at := now |};
      mret (Err e)
  | Ok _ =>
      ended ← terminate_executions session;
      match ended with
      | Err e => teardown_failed session phase "teardown_failed" e
      | Ok _ =>
          destroyed ← match cs_provider_session_id session with
                      | Some environment => ask (EnvDestroy environment)
                      | None => mret (Ok tt)
                      end;
          match destroyed with
          | Err e => teardown_failed session phase "teardown_failed" e
          | Ok _ =>
              _ ←? act (Mutate (cs_session_id session) (Some (cs_generation session))
                          (if expiring then "expired" else "destroyed") (set_torn_down expiring));
              mret (Ok tt)
          end
      end
  end.

(** ** Steps *)

Definition to_status (status : SessionStatus) (now : Z) (s : ComputeSession) : Result ComputeSession ProviderError :=
  Ok (set_status status s).

Definition set_resumed (now : Z) (s : ComputeSession) : Result ComputeSession ProviderError :=
  Ok (set_failure None (set_status Ready s)).

Definition set_resume_failed (f : SessionFailure) (now : Z) (s : ComputeSession)
    : Result ComputeSession ProviderError :=
  Ok (set_failure (Some f) (set_status Stopped s)).

(** [step] of a session that is to stop. *)
Definition stop_step (session : ComputeSession) : Prog (Result unit ProviderError) :=
  ended ← terminate_executions session;
  match ended with
  | Err e => teardown_failed session PhaseStopping "stop_failed" e
  | Ok _ =>
      stopped ← match sc_suspend (cs_capabilities session), cs_provider_session_id session with
                | true, Some environment => ask (EnvStop environment)
                | _, _ => mret (Ok tt)
                end;
      match stopped with
      | Err e => teardown_failed session PhaseStopping "stop_failed" e
      | Ok _ =>
          _ ←? act (Mutate (cs_session_id session) (Some (cs_generation session)) "stopped" (to_status Stopped));
          mret (Ok tt)
      end
  end.

(** [step] of a session that is to resume. *)
Definition resume_step (session : ComputeSession) : Prog (Result (option ComputeSession) ProviderError) :=
  let id := cs_session_id session in
  match cs_provider_session_id session with
  | None => mret (Err (evidence_error "a stopped session has no environment to resume"))
  | Some environment =>
      resumed ← ask (EnvResume environment);
      match resumed with
      | Ok _ =>
          _ ←? act (Mutate id (Some (cs_generation session)) "resumed" set_resumed);
          mret (Ok None)
      | Err e =>
          f ← failure PhaseResuming e;
          session ←? act (Mutate id (Some (cs_generation session)) "resume_failed" (set_resume_failed f));
          mret (Ok (Some session))
      end
  end.

(** [step]: the session when it rests. *)
Definition step_session (id : string) : Prog (Result (option ComputeSession) ProviderError) :=
  session ←? act (ReadSession id);
  match cs_status session with
  | Requested =>
      _ ←? act (Mutate id (Some (cs_generation session)) "provisioning" (to_status Provisioning));
      mret (Ok None)
  | Provisioning => _ ←? provision session; mret (Ok None)
  | Stopping => _ ←? stop_step session; mret (Ok None)
  | Resuming => resume_step session
  | Destroying | Expiring => _ ←? teardown session; mret (Ok None)
  | Running => each (λ e, watch id (exe_job_id e)) (active_executions session) ;; mret (Ok (Some session))
  | Ready | Stopped | Destroyed | Expired | Failed => mret (Ok (Some session))
  end.

(** [advance_owned]: its loop, once around. *)
Definition advance_loop {A} (id : string) (k : Result ComputeSession ProviderError → Prog A) : Prog A :=
  r ← step_session id;
  match r with
  | Ok (Some session) => k (Ok session)
  | Ok None => Advance id k
  | Err e => if is_stale e then Advance id k else k (Err e)
  end.

Definition advance_owned (id : string) : Prog (Result ComputeSession ProviderError) := Advance id mret.

(** ** Creation *)

(** [client_request] *)
Definition client_request (request : ProviderRequest) : Result ProviderRequest ProviderError :=
  let? bundle := transport_bundle (req_artifact request) in
  let bundle := with_network NetNetwork bundle in
  map_err artifact_error (validate_bundle bundle) ;?;
  let? data := map_err artifact_error (to_bytes bundle) in
  let? workload_id := map_err artifact_error (bundle_workload_id bundle) in
  let? bundle_id := map_err artifact_error (bundle_bundle_id bundle) in
  let expected := req_expected request in
  Ok {| req_protocol := req_protocol request; req_artifact := BundleTransport data;
        req_expected :=
          {| expected_workload_id := Some workload_id; expected_bundle_id := Some bundle_id;
             expected_dependency_id := expected_dependency_id expected;
             expected_distribution_id := expected_distribution_id expected;
             expected_runtime_distribution_id := expected_runtime_distribution_id expected;
             expected_runtime_distribution_digest := expected_runtime_distribution_digest expected |};
        req_execution := req_execution request |}.

Definition names_reference (owner reference : string) (s : ComputeSession) : bool :=
  String.eqb (cs_owner s) owner && bool_decide (cs_reference s = Some reference) &&
  negb (SessionStatus.is_terminal (cs_status s)).

Fixpoint find_reference_from (owner reference : string) (names : list string) : Prog (option ComputeSession) :=
  match names with
  | [] => mret None
  | id :: names =>
      session ← act (ReadSession id);
      match session with
      | Ok s => if names_reference owner reference s then mret (Some s) else find_reference_from owner reference names
      | Err _ => find_reference_from owner reference names
      end
  end.

(** [find_reference] outside the lock *)
Definition find_reference (owner reference : string) : Prog (option ComputeSession) :=
  names ← ask ListDirectory;
  find_reference_from owner reference (session_names names).

(** The checks of [create_record] that read nothing: the bundle. *)
Definition check_create (create : SessionCreateRequest) : Result WorkloadBundle ProviderError :=
  let request := scr_request create in
  let spec := scr_spec create in
  validate_request request ;?;
  let? bundle := transport_bundle (req_artifact request) in
  map_err artifact_error
    (require_ids bundle (expected_workload_id (req_expected request)) (expected_bundle_id (req_expected request))) ;?;
  map_err (λ e, provider_error CapabilityMismatch (error_to_string e))
    (SessionCapabilities.validate_names (spec_required_capabilities spec)) ;?;
  let required := spec_required_capabilities spec
    ++ (if bool_decide (workload_network bundle = NetNone) then [] else ["network"])
    ++ (if existsb epr_public (spec_endpoints spec) then ["public_endpoint"] else []) in
  let missing := SessionCapabilities.missing (sm_capabilities manager) (dedup (sort_by cmp required)) in
  reject_if (negb (bool_decide (missing = [])))
    (provider_error OperationUnsupported
      ("session provider " +:+ sm_kind manager +:+ " does not offer " +:+ join ", " missing)) ;?;
  (if spec_persistent spec then
     reject_if (bool_decide (is_Some (spec_ttl_seconds spec)))
       (provider_error PolicyRejected "a persistent session has no TTL") ;?;
     reject_if (negb (sc_claim (sm_capabilities manager))) (unsupported (sm_kind manager) "persistent sessions")
   else Ok tt) ;?;
  match spec_reference spec with
  | Some reference =>
      reject_if (negb (valid_session_reference reference))
        (provider_error PolicyRejected "a session reference is 1-128 letters, digits, and .:_-")
  | None => Ok tt
  end ;?;
  Ok bundle.

(** The record of a new session; its identifiers, its admission, and when it
    expires. *)
Definition new_session (create : SessionCreateRequest) (owner : string) (lineage : option SessionLineage)
    (bundle : WorkloadBundle) (admission : JobAdmission) (id job execution : string) (ttl : N) (now : Z)
    (expires : option Z) : ComputeSession :=
  let request := scr_request create in
  let spec := scr_spec create in
  let placement := opt_placement (req_execution request) in
  let resources := workload_resources bundle in
  {| cs_terms :=
       {| cs_version := SESSION_VERSION; cs_session_id := id;
          cs_node_id := default (identity_id (sm_identity manager)) (rp_provider_id <$> placement);
          cs_provider := sm_identity manager; cs_provider_kind := sm_kind manager; cs_job_id := job;
          cs_execution_id := execution; cs_owner := owner;
          cs_resources :=
            {| sres_cpu_count := rl_cpu_count resources;
               sres_memory_bytes := match rl_memory_required_bytes resources with
                                    | Some n => Some n | None => rl_memory_bytes resources
                                    end;
               sres_disk_bytes := rl_disk_bytes resources |};
          cs_network := workload_network bundle;
          cs_required_capabilities := spec_required_capabilities spec; cs_reference := spec_reference spec;
          cs_requested_endpoints := spec_endpoints spec; cs_placement_id := rp_placement_id <$> placement;
          cs_placement := placement; cs_admission := Some (summary admission);
          cs_ttl_seconds := if spec_persistent spec then None else Some ttl; cs_created_at := now |};
     cs_status := Requested; cs_provider_session_id := None;
     cs_ownership := if spec_persistent spec then Claimed else Ephemeral;
     cs_capabilities := sm_capabilities manager; cs_connection := None; cs_endpoints := []; cs_updated_at := now;
     cs_expires_at := expires; cs_ready_at := None; cs_ended_at := None; cs_generation := 1; cs_failure := None;
     cs_executions := []; cs_lineage := lineage |}.

(** What is admitted: where the environment contains its own network, its client
    on this node. *)
Definition admitted_request (request : ProviderRequest) (bundle : WorkloadBundle)
    : Result ProviderRequest ProviderError :=
  if sm_contains_network manager && negb (bool_decide (workload_network bundle = NetNetwork))
  then client_request request else Ok request.

(** [create_record] once nothing has the reference: admitted, made, published. *)
Definition create_admitted (create : SessionCreateRequest) (owner : string) (lineage : option SessionLineage)
    (bundle : WorkloadBundle) : Prog (Result (ComputeSession * bool) ProviderError) :=
  let spec := scr_spec create in
  if bool_decide (spec_ttl_seconds spec = Some 0%N) then
    mret (Err (provider_error PolicyRejected "a session TTL must be greater than zero"))
  else
    let ttl := default DEFAULT_SESSION_TTL (spec_ttl_seconds spec) in
    request ←? mret (admitted_request (scr_request create) bundle);
    admission ←? ask (Admit request);
    if negb (is_admitted (adm_decision admission)) then mret (Err (denied (adm_decision admission)))
    else
      now ← act Now;
      id ← ask GenerateSession;
      job ← ask GenerateJob;
      execution ← ask GenerateExecution;
      match (if spec_persistent spec then Some None
             else Some <$> add_seconds now (Z.of_N (N.min ttl I64_MAX))) with
      | None => Panic
      | Some expires =>
          let session := new_session create owner lineage bundle admission id job execution ttl now expires in
          published ←? act (Publish session
            {| ssr_owner := owner; ssr_request := scr_request create; ssr_spec := spec |});
          if snd published : bool then act (InsertLive id) ;; mret (Ok published) else mret (Ok published)
      end.

(** [create_record] *)
Definition create_record (create : SessionCreateRequest) (owner : string) (lineage : option SessionLineage)
    : Prog (Result (ComputeSession * bool) ProviderError) :=
  bundle ←? mret (check_create create);
  existing ← match spec_reference (scr_spec create) with
             | Some reference => find_reference owner reference
             | None => mret None
             end;
  match existing with
  | Some session => mret (Ok (session, false))
  | None => create_admitted create owner lineage bundle
  end.

(** [create] *)
Definition create (request : SessionCreateRequest) (owner : string) : Prog (Result ComputeSession ProviderError) :=
  created ←? create_record request owner None;
  if snd created : bool then drive (cs_session_id (fst created)) ;; mret (Ok (fst created))
  else mret (Ok (fst created)).

(** ** Forks *)

Fixpoint find_references (owner : string) (references : list string) : Prog (list ComputeSession) :=
  match references with
  | [] => mret []
  | reference :: references =>
      found ← find_reference owner reference;
      rest ← find_references owner references;
      mret (option_list found ++ rest)
  end.

(** The lineages of sessions, when all are children of one. *)
Definition lineages_of (source : string) (children : list ComputeSession) : option (list SessionLineage) :=
  lineages ← mapM cs_lineage children;
  if forallb (λ l, String.eqb (lin_parent_session_id l) source) lineages then Some lineages else None.

(** [forked_before] *)
Definition forked_before (source owner : string) (fork : SessionForkRequest)
    : Prog (Result (option SessionFork) ProviderError) :=
  let references := fork_references fork in
  if bool_decide (references = []) then mret (Ok None)
  else if negb (N.eqb (N.of_nat (length references)) (fork_count fork)) ||
          negb (bool_decide (NoDup references)) then
    mret (Err (provider_error PolicyRejected "a fork takes one distinct reference per child"))
  else
    match find (λ reference, negb (valid_session_reference reference)) references with
    | Some invalid =>
        mret (Err (provider_error PolicyRejected
          (debug_str invalid +:+ ": a session reference is 1-128 letters, digits, and .:_-")))
    | None =>
        children ← find_references owner references;
        mret (match children with
              | [] => Ok None
              | _ =>
                  match lineages_of source children with
                  | Some (first :: _) =>
                      if Nat.eqb (length children) (length references) then
                        Ok (Some {| fork_source_session_id := source;
                                    fork_checkpoint := {| ckpt_id := lin_checkpoint first;
                                                          ckpt_evidence := lin_evidence first |};
                                    fork_children := children; fork_refused := None |})
                      else Err (conflict "these references already name sessions that are not this fork's children")
                  | _ => Err (conflict "these references already name sessions that are not this fork's children")
                  end
              end)
    end.

Definition with_reference (reference : option string) (spec : SessionSpec) : SessionSpec :=
  {| spec_ttl_seconds := spec_ttl_seconds spec; spec_required_capabilities := spec_required_capabilities spec;
     spec_endpoints := spec_endpoints spec; spec_persistent := spec_persistent spec; spec_reference := reference |}.

(** The children of a fork, recorded one after the other until one is refused:
    their identities, and why no more were made. *)
Fixpoint create_children (stored : StoredSessionRequest) (owner : string) (lineage : SessionLineage)
    (references : list (option string)) : Prog (list string * option ProviderError) :=
  match references with
  | [] => mret ([], None)
  | reference :: references =>
      created ← create_record {| scr_request := ssr_request stored;
                                 scr_spec := with_reference reference (ssr_spec stored) |} owner (Some lineage);
      match (created : Result (ComputeSession * bool) ProviderError) with
      | Err e => mret ([], Some e)
      | Ok (child, _) =>
          rest ← create_children stored owner lineage references;
          mret (cs_session_id child :: fst rest, snd rest)
      end
  end.

(** A child of a fork whose checkpoint could not be taken. *)
Definition fail_child (e : ProviderError) (child : string) : Prog unit :=
  session ← act (ReadSession child);
  match session with
  | Ok session =>
      f ← failure PhaseProvisioning e;
      _ ← fail_session session f;
      act (RemoveDriving child)
  | Err _ => act (RemoveDriving child)
  end.

Definition set_evidence (evidence : gmap string string) (now : Z) (s : ComputeSession)
    : Result ComputeSession ProviderError :=
  Ok (set_lineage ((λ l, {| lin_parent_session_id := lin_parent_session_id l; lin_checkpoint := lin_checkpoint l;
                            lin_evidence := evidence; lin_forked_at := lin_forked_at l |}) <$> cs_lineage s) s).

Fixpoint spawn_children (children : list string) : Prog (list nat) :=
  match children with
  | [] => mret []
  | child :: children =>
      Spawn (DriveTask child) (λ handle, rest ← spawn_children children; mret (handle :: rest))
  end.

Fixpoint read_children (children : list string) : Prog (list ComputeSession) :=
  match children with
  | [] => mret []
  | child :: children =>
      session ← act (ReadSession child);
      rest ← read_children children;
      mret (match session with Ok s => s :: rest | Err _ => rest end)
  end.

(** [fork] once the source may be forked. *)
Definition fork_source (source : ComputeSession) (owner environment : string) (fork : SessionForkRequest)
    : Prog (Result SessionFork ProviderError) :=
  let id := cs_session_id source in
  stored ←? act (ReadRequest id);
  checkpoint ← ask (GenerateCheckpoint id);
  forked_at ← act Now;
  created ← create_children stored owner
    {| lin_parent_session_id := id; lin_checkpoint := checkpoint; lin_evidence := ∅; lin_forked_at := forked_at |}
    ((λ index, fork_references fork !! index) <$> seq 0 (N.to_nat (fork_count fork)));
  let '(children, refused) := created : list string * option ProviderError in
  match children, refused with
  | [], Some e => mret (Err e)
  | [], None => Panic
  | _, _ =>
      taken ← ask (EnvCheckpoint environment checkpoint);
      match taken with
      | Err e =>
          each (fail_child e) children ;;
          _ ← ask (EnvRelease checkpoint);
          mret (Err e)
      | Ok taken =>
          each (λ child, _ ← act (Mutate child None "checkpointed" (set_evidence (ckpt_evidence taken))); mret tt) children ;;
          handles ← spawn_children children;
          each (λ handle, Join handle (mret tt)) handles ;;
          settle_checkpoint (ckpt_id taken) ;;
          children ← read_children children;
          mret (Ok {| fork_source_session_id := id; fork_checkpoint := taken; fork_children := children;
                      fork_refused := perror_message <$> refused |})
      end
  end.

(** [fork] *)
Definition fork_session (id owner : string) (fork : SessionForkRequest) : Prog (Result SessionFork ProviderError) :=
  source ←? owned id owner;
  if negb (sc_fork (cs_capabilities source)) then mret (Err (unsupported (cs_provider_kind source) "fork"))
  else
    repeated ←? forked_before id owner fork;
    match repeated with
    | Some repeated => mret (Ok repeated)
    | None =>
        if negb (SessionStatus.is_usable (cs_status source)) then
          mret (Err (conflict ("a " +:+ SessionStatus.as_str (cs_status source) +:+
                               " session cannot be forked; only a running one can")))
        else if N.eqb (fork_count fork) 0 || N.ltb MAX_FORK_CHILDREN (fork_count fork) then
          mret (Err (provider_error PolicyRejected "a fork creates 1 to 16 children"))
        else
          match cs_provider_session_id source with
          | None => mret (Err (evidence_error "a running session has no environment"))
          | Some environment => fork_source source owner environment fork
          end
    end.

(** ** Operations *)

(** [list]: newest first *)
Definition compare_sessions (l r : ComputeSession) : comparison :=
  then_with (cmp (cs_created_at r) (cs_created_at l)) (cmp (cs_session_id l) (cs_session_id r)).

Definition list_sessions (owner : string) : Prog (list ComputeSession) :=
  names ← ask ListDirectory;
  sessions ← read_children (session_names names);
  mret (sort_by compare_sessions (List.filter (λ s : ComputeSession, String.eqb (cs_owner s) owner) sessions)).

(** [inspect] *)
Definition inspect_session (id owner : string) : Prog (Result ComputeSession ProviderError) :=
  session ←? owned id owner;
  gone ← lost session;
  if gone : bool then
    now ← act Now;
    _ ← fail_session session (environment_lost session now);
    owned id owner
  else mret (Ok session).

(** [events] *)
Definition session_events (id owner : string) : Prog (Result (list SessionEvent) ProviderError) :=
  _ ←? owned id owner;
  act (ReadEvents id).

(** [connect] *)
Definition connect (id owner : string) : Prog (Result SessionConnectionGrant ProviderError) :=
  session ←? usable id owner "connect";
  env ←? environment session;
  issued ← ask (EnvConnect env);
  match issued with
  | Err e => mret (Err (labelled e))
  | Ok issued =>
      match (match pco_connection issued with Some c => Some c | None => cs_connection session end) with
      | None => mret (Err (provider_error ProviderUnavailable "the provider reported no connection for this session"))
      | Some connection =>
          _ ←? act (RecordEvent id "connected" (Some (mode_str (con_mode connection))));
          mret (Ok {| grant_session_id := id; grant_connection := connection; grant_command := pco_command issued;
                      grant_credentials := pco_credentials issued; grant_expires_at := pco_expires_at issued |})
      end
  end.

Definition request_exec (e : SessionExecution) (now : Z) (s : ComputeSession) : Result ComputeSession ProviderError :=
  if negb (SessionStatus.is_usable (cs_status s)) then
    Err (conflict ("session is " +:+ SessionStatus.as_str (cs_status s) +:+ "; it cannot run commands"))
  else Ok (set_status Running (set_executions (cs_executions s ++ [e]) s)).

(** [exec]: the execution is recorded, and then accepted as a job. *)
Definition submit_exec (session : ComputeSession) (request : ProviderRequest) (e : SessionExecution)
    : Prog (Result SessionExecSubmission ProviderError) :=
  let id := cs_session_id session in
  _ ←? act (Mutate id None "exec_requested" (request_exec e));
  submission ← accept_execution session request e;
  match submission with
  | Ok status =>
      watch id (exe_job_id e) ;;
      mret (Ok {| ses_session_id := id; ses_job_id := exe_job_id e; ses_execution_id := exe_execution_id e;
                  ses_status := status |})
  | Err error =>
      _ ← act (SettleExecution id (exe_job_id e) JobRejected);
      mret (Err error)
  end.

Definition valid_size (size : TerminalSize) : bool := in_range 1 1000 (term_rows size) && in_range 1 1000 (term_cols size).

Definition exec_session (id owner : string) (command : SessionCommand)
    : Prog (Result SessionExecSubmission ProviderError) :=
  _ ←? mret (map_err (λ e, provider_error ArtifactInvalid (error_to_string e)) (validate_command command));
  session ←? usable id owner "exec";
  let interactive := bool_decide (is_Some (cmd_terminal command)) || cmd_interactive command in
  if negb (sc_exec (cs_capabilities session)) then mret (Err (unsupported (cs_provider_kind session) "exec"))
  else if interactive && negb (sc_terminal (cs_capabilities session)) then
    mret (Err (unsupported (cs_provider_kind session) "interactive commands (terminal)"))
  else if negb (from_option valid_size true (cmd_terminal command)) then
    mret (Err (provider_error ArtifactInvalid "a terminal is 1 to 1000 rows and columns"))
  else
    job ← ask GenerateJob;
    execution ← ask GenerateExecution;
    now ← act Now;
    env ←? environment session;
    request ← ask (EnvExec (if interactive then with_attach (attach_path job) env else env) command);
    match request with
    | Err e => mret (Err (labelled e))
    | Ok request =>
        request ←? match opt_policy (req_execution request) with
                   | Some _ => mret (Ok request)
                   | None =>
                       stored ←? act (ReadRequest id);
                       mret (Ok (with_policy (opt_policy (req_execution (ssr_request stored))) request))
                   end;
        submit_exec session request
          {| exe_job_id := job; exe_execution_id := execution; exe_purpose := "exec";
             exe_command := cmd_command command; exe_submitted_at := now; exe_status := JobQueued |}
    end.

Definition request_stop (now : Z) (s : ComputeSession) : Result ComputeSession ProviderError :=
  if negb (SessionStatus.is_usable (cs_status s)) then
    Err (conflict ("a " +:+ SessionStatus.as_str (cs_status s) +:+ " session cannot be stopped"))
  else Ok (set_status Stopping s).

(** [stop] *)
Definition stop_session (id owner : string) : Prog (Result ComputeSession ProviderError) :=
  session ←? owned id owner;
  _ ←? match cs_status session with
       | Stopped | Stopping => mret (Ok session)
       | Ready | Running => act (Mutate id None "stopping" request_stop)
       | status => mret (Err (conflict ("a " +:+ SessionStatus.as_str status +:+ " session cannot be stopped")))
       end;
  advance_owned id.

Definition request_resume (now : Z) (s : ComputeSession) : Result ComputeSession ProviderError :=
  if negb (bool_decide (cs_status s = Stopped)) then
    Err (conflict ("a " +:+ SessionStatus.as_str (cs_status s) +:+ " session cannot be resumed"))
  else Ok (set_status Resuming s).

(** [resume] *)
Definition resume_session (id owner : string) : Prog (Result ComputeSession ProviderError) :=
  session ←? owned id owner;
  if negb (sc_resume (cs_capabilities session)) then mret (Err (unsupported (cs_provider_kind session) "resume"))
  else
    _ ←? match cs_status session with
         | Resuming => mret (Ok session)
         | Stopped => act (Mutate id None "resuming" request_resume)
         | status => mret (Err (conflict ("a " +:+ SessionStatus.as_str status +:+ " session cannot be resumed")))
         end;
    resumed ←? advance_owned id;
    if bool_decide (cs_status resumed = Stopped) then
      mret (Err (provider_error ProviderUnavailable
        (default "the provider could not resume the session" (fail_message <$> cs_failure resumed))))
    else mret (Ok resumed).

(** [destroy] *)
Definition destroy_session (id owner : string) : Prog (Result ComputeSession ProviderError) :=
  session ←? owned id owner;
  if SessionStatus.is_terminal (cs_status session) then mret (Ok session)
  else
    _ ←? match cs_status session with
         | Destroying | Expiring => mret (Ok session)
         | _ => act (Mutate id None "destroying" (to_status Destroying))
         end;
    advance_owned id.

Definition request_claim (now : Z) (s : ComputeSession) : Result ComputeSession ProviderError :=
  if is_expired_at s now then Err (conflict "the session has expired") else Ok (set_claimed s).

(** [claim] *)
Definition claim_session (id owner : string) : Prog (Result ComputeSession ProviderError) :=
  session ←? owned id owner;
  if negb (sc_claim (cs_capabilities session)) then mret (Err (unsupported (cs_provider_kind session) "claim"))
  else if bool_decide (cs_ownership session = Claimed) then mret (Ok session)
  else if negb (SessionStatus.is_usable (cs_status session) || bool_decide (cs_status session = Stopped)) then
    mret (Err (conflict ("a " +:+ SessionStatus.as_str (cs_status session) +:+ " session cannot be claimed")))
  else
    now ← act Now;
    if is_expired_at session now then mret (Err (conflict "the session has expired"))
    else
      match cs_provider_session_id session with
      | None => mret (Err (conflict "the session has no environment to claim"))
      | Some environment =>
          claimed ← ask (EnvClaim environment);
          match claimed with
          | Err e =>
              f ← failure PhaseClaim e;
              _ ← act (Mutate id None "claim_failed" (set_recorded f));
              mret (Err (labelled e))
          | Ok _ => act (Mutate id None "claimed" request_claim)
          end
      end.

(** ** Tasks *)

(** The task of [watch]. *)
Definition watch_execution (id job : string) : Prog unit :=
  session ← act (ReadSession id);
  match (session : Result ComputeSession ProviderError) with
  | Ok session =>
      ended ← ask (JobWait job (cs_owner session));
      _ ← act (SettleExecution id job (match ended with Ok job => job_status job | Err _ => JobFailed end));
      act (RemoveWatching job)
  | Err _ => act (RemoveWatching job)
  end.

(** The executions [recover] finds that were recorded and never accepted. *)
Definition settle_unaccepted (session : ComputeSession) (e : SessionExecution) : Prog unit :=
  if String.eqb (exe_job_id e) (cs_job_id session) then mret tt
  else
    known ← ask (JobStatusOf (exe_job_id e) (cs_owner session));
    if is_ok known then mret tt
    else _ ← act (SettleExecution (cs_session_id session) (exe_job_id e) JobRejected); mret tt.

(** [recover] *)
Definition recover_session (id : string) : Prog unit :=
  session ← act (ReadSession id);
  match (session : Result ComputeSession ProviderError) with
  | Err _ => mret tt
  | Ok session =>
      each (settle_unaccepted session) (active_executions session) ;;
      session ← act (ReadSession id);
      match (session : Result ComputeSession ProviderError) with
      | Err _ => mret tt
      | Ok session =>
          gone ← lost session;
          if gone : bool then
            now ← act Now;
            _ ← fail_session session (environment_lost session now);
            mret tt
          else drive id
      end
  end.

(** [reconcile] of one session *)
Definition reconcile_session (now : Z) (id : string) : Prog unit :=
  session ← act (ReadSession id);
  match (session : Result ComputeSession ProviderError) with
  | Err _ => mret tt
  | Ok session =>
      if SessionStatus.is_terminal (cs_status session) then act (RemoveLive id)
      else
        driven ← act (IsDriving id);
        if driven : bool then mret tt
        else if is_expired_at session now &&
                negb (bool_decide (cs_status session = Expiring) || bool_decide (cs_status session = Destroying)) then
          expiring ← act (Mutate id (Some (cs_generation session)) "expiring" (to_status Expiring));
          if is_ok expiring then drive id else mret tt
        else
          match cs_status session with
          | Requested | Provisioning | Stopping | Resuming | Expiring | Destroying => drive id
          | _ => mret tt
          end
  end.

(** [reconcile] *)
Definition reconcile : Prog unit :=
  now ← act Now;
  live ← act ListLive;
  each (reconcile_session now) live.

Definition task_program (task : Task) : Prog unit :=
  match task with
  | DriveTask id => Advance id (λ _, act (RemoveDriving id))
  | WatchTask id job => watch_execution id job
  | RecoverTask id => recover_session id
  | SweepTask => reconcile ;; Spawn SweepTask (λ _, mret tt)
  end.

(** What callers ask of the manager, for the principal [owner]. *)
Inductive Operation : Type :=
| OpCreate (request : SessionCreateRequest)
| OpFork (id : string) (request : SessionForkRequest)
| OpList
| OpInspect (id : string)
| OpEvents (id : string)
| OpConnect (id : string)
| OpExec (id : string) (command : SessionCommand)
| OpStop (id : string)
| OpResume (id : string)
| OpDestroy (id : string)
| OpClaim (id : string).

Definition forget {A} (p : Prog A) : Prog unit := _ ← p; mret tt.

Definition operation_program (owner : string) (op : Operation) : Prog unit :=
  match op with
  | OpCreate request => forget (create request owner)
  | OpFork id request => forget (fork_session id owner request)
  | OpList => forget (list_sessions owner)
  | OpInspect id => forget (inspect_session id owner)
  | OpEvents id => forget (session_events id owner)
  | OpConnect id => forget (connect id owner)
  | OpExec id command => forget (exec_session id owner command)
  | OpStop id => forget (stop_session id owner)
  | OpResume id => forget (resume_session id owner)
  | OpDestroy id => forget (destroy_session id owner)
  | OpClaim id => forget (claim_session id owner)
  end.
End manager.
