(* ===== verification/SessionSystem.v ===== *)
(** The session manager as a concurrent, crashing system
    (src/crates/compute-provider/src/sessions.rs): what its actions do to the store
    ([mutate], [settle_execution], [record_event] and the end of [create_record],
    each under the mutation lock), which answers its surroundings may give, and the
    steps of its tasks, of callers, of time and of crashes.

    A write of [session.json] and the event after it are two writes: a crash may
    come between them.  What the job manager, an authority or a provider of
    environments answers is free, except that the job manager answers what it has
    recorded and that jobs, once ended, stay as they are. *)

From S2P Require Import Prelude Text Core Isolation Policy Admission Descriptor.
From S2P Require Import Matching Pool Placement Requests JobRecord JobStore Session SessionManager.

Section world.
Context `{!Bundles, !CarriedMetadata}.

(** What happened outside, in the order of the last first. *)
Inductive Note : Type :=
| NoteDestroy (environment : string) (ok : bool)
| NoteJobError (job : string) (kind : ProviderErrorKind).

Record World : Type := {
  (** [session.json], [request.json] and [events.json] of each session *)
  sessions : gmap string ComputeSession;
  requests : gmap string StoredSessionRequest;
  logs : gmap string (list SessionEvent);
  (** the sets of the manager *)
  live : gset string;
  driving : gset string;
  watching : gset string;
  (** the statuses the job manager has recorded, and the clock *)
  jobs : gmap string JobStatus;
  clock : Z;
  (** every record that was ever stored, every note, and the environments made for
      sessions since the manager was started *)
  past : list ComputeSession;
  notes : list Note;
  made : list (string * string);
}.

Definition with_sets (l d v : gset string) (w : World) : World :=
  {| sessions := sessions w; requests := requests w; logs := logs w; live := l; driving := d; watching := v;
     jobs := jobs w; clock := clock w; past := past w; notes := notes w; made := made w |}.

Definition with_logs (l : gmap string (list SessionEvent)) (w : World) : World :=
  {| sessions := sessions w; requests := requests w; logs := l; live := live w; driving := driving w;
     watching := watching w; jobs := jobs w; clock := clock w; past := past w; notes := notes w; made := made w |}.

Definition with_jobs (j : gmap string JobStatus) (now : Z) (w : World) : World :=
  {| sessions := sessions w; requests := requests w; logs := logs w; live := live w; driving := driving w;
     watching := watching w; jobs := j; clock := now; past := past w; notes := notes w; made := made w |}.

Definition with_notes (n : list Note) (m : list (string * string)) (w : World) : World :=
  {| sessions := sessions w; requests := requests w; logs := logs w; live := live w; driving := driving w;
     watching := watching w; jobs := jobs w; clock := clock w; past := past w; notes := n; made := m |}.

(** ** The store *)

(** [write_session] *)
Definition store_session (s : ComputeSession) (w : World) : World :=
  {| sessions := <[cs_session_id s := s]> (sessions w); requests := requests w; logs := logs w; live := live w;
     driving := driving w; watching := watching w; jobs := jobs w; clock := clock w; past := s :: past w;
     notes := notes w; made := made w |}.

(** [event] *)
Definition event_of (s : ComputeSession) (sequence : N) (event_type : string) (detail : option string) (now : Z)
    : SessionEvent :=
  {| sev_session_id := cs_session_id s; sev_sequence := sequence; sev_type := event_type;
     sev_status := cs_status s; sev_generation := cs_generation s; sev_detail := detail; sev_timestamp := now |}.

(** [append_event] *)
Definition append_event (s : ComputeSession) (event_type : string) (detail : option string) (w : World) : World :=
  let events := default [] (logs w !! cs_session_id s) in
  with_logs (<[cs_session_id s :=
    events ++ [event_of s (N.of_nat (length events) + 1) event_type detail (clock w)]]> (logs w)) w.

(** [read_session] *)
Definition read_session (id : string) (w : World) : Result ComputeSession ProviderError :=
  match sessions w !! id with Some s => Ok s | None => Err unknown_session end.

(** The record [mutate] writes. *)
Definition mutated (id : string) (fence : option N)
    (change : Z → ComputeSession → Result ComputeSession ProviderError) (w : World)
    : Result ComputeSession ProviderError :=
  let? session := read_session id w in
  reject_if (from_option (λ generation, negb (N.eqb generation (cs_generation session))) false fence)
    (conflict (STALE +:+ " (now " +:+ SessionStatus.as_str (cs_status session) +:+ ")")) ;?;
  reject_if (SessionStatus.is_terminal (cs_status session))
    (conflict ("session is " +:+ SessionStatus.as_str (cs_status session) +:+ "; it does not change again")) ;?;
  let? changed := change (clock w) session in
  Ok (set_updated_at (clock w) (set_generation (cs_generation changed + 1) changed)).

Definition forget_ended (s : ComputeSession) (w : World) : World :=
  if SessionStatus.is_terminal (cs_status s)
  then with_sets (live w ∖ {[cs_session_id s]}) (driving w) (watching w) w else w.

(** [mutate] *)
Definition mutate (id : string) (fence : option N) (event_type : string)
    (change : Z → ComputeSession → Result ComputeSession ProviderError) (w : World)
    : Result ComputeSession ProviderError * World :=
  match mutated id fence change w with
  | Err e => (Err e, w)
  | Ok s => (Ok s, forget_ended s (append_event s event_type None (store_session s w)))
  end.

Definition set_exe_status (status : JobStatus) (e : SessionExecution) : SessionExecution :=
  {| exe_job_id := exe_job_id e; exe_execution_id := exe_execution_id e; exe_purpose := exe_purpose e;
     exe_command := exe_command e; exe_submitted_at := exe_submitted_at e; exe_status := status |}.

(** The executions with the first of a job given its status; [None] when there is
    none, or nothing to change. *)
Fixpoint settle_first (job : string) (status : JobStatus) (l : list SessionExecution)
    : option (list SessionExecution) :=
  match l with
  | [] => None
  | e :: l =>
      if String.eqb (exe_job_id e) job then
        if bool_decide (exe_status e = status) then None else Some (set_exe_status status e :: l)
      else cons e <$> settle_first job status l
  end.

(** The record [settle_execution] writes, and the type of its event. *)
Definition settled (job : string) (status : JobStatus) (now : Z) (s : ComputeSession)
    : option (ComputeSession * string) :=
  executions ← settle_first job status (cs_executions s);
  let s := set_executions executions s in
  let '(s, event_type) :=
    if bool_decide (cs_status s = Running) && bool_decide (active_executions s = [])
    then (set_generation (cs_generation s + 1) (set_status Ready s), "ready") else (s, "execution_settled") in
  Some (set_updated_at now s, event_type).

(** [settle_execution] *)
Definition settle_execution (id job : string) (status : JobStatus) (w : World)
    : Result ComputeSession ProviderError * World :=
  match read_session id w with
  | Err e => (Err e, w)
  | Ok session =>
      match settled job status (clock w) session with
      | None => (Ok session, w)
      | Some (s, event_type) =>
          (Ok s, append_event s event_type (Some (job +:+ ": " +:+ JobStatus.debug status)) (store_session s w))
      end
  end.

(** [record_event] *)
Definition record_event (id event_type : string) (detail : option string) (w : World)
    : Result unit ProviderError * World :=
  match read_session id w with
  | Err e => (Err e, w)
  | Ok s => (Ok tt, append_event s event_type detail w)
  end.

(** [find_reference] under the lock *)
Definition referenced (owner : string) (reference : option string) (w : World) : option ComputeSession :=
  reference ← reference;
  find (names_reference owner reference)
    (omap (λ name, match parse_session_id name with Ok id => sessions w !! id | Err _ => None end)
       (fst <$> by_id (sessions w))).

(** The end of [create_record]: published with its request and first event. *)
Definition publish (s : ComputeSession) (stored : StoredSessionRequest) (w : World)
    : Result (ComputeSession * bool) ProviderError * World :=
  match referenced (cs_owner s) (cs_reference s) w with
  | Some existing => (Ok (existing, false), w)
  | None =>
      let id := cs_session_id s in
      let held := if bool_decide (is_Some (cs_lineage s)) then {[id]} ∪ driving w else driving w in
      if bool_decide (is_Some (sessions w !! id)) then
        (Err (transport_error "Directory not empty"), with_sets (live w) held (watching w) w)
      else
        (Ok (s, true),
         {| sessions := <[id := s]> (sessions w); requests := <[id := stored]> (requests w);
            logs := <[id := [event_of s 1 "requested" None (clock w)]]> (logs w); live := live w;
            driving := held; watching := watching w; jobs := jobs w; clock := clock w; past := s :: past w;
            notes := notes w; made := made w |})
  end.

(** What an action answers and leaves. *)
Definition handle {R} (e : Eff R) (w : World) : R * World :=
  match e in Eff R return R * World with
  | ReadSession id => (read_session id w, w)
  | ReadRequest id => (match requests w !! id with Some r => Ok r | None => Err unknown_session end, w)
  | ReadEvents id => (match logs w !! id with Some l => Ok l | None => Err unknown_session end, w)
  | Mutate id fence event_type change => mutate id fence event_type change w
  | SettleExecution id job status => settle_execution id job status w
  | RecordEvent id event_type detail => record_event id event_type detail w
  | Publish s stored => publish s stored w
  | Now => (clock w, w)
  | InsertLive id => (tt, with_sets ({[id]} ∪ live w) (driving w) (watching w) w)
  | RemoveLive id => (tt, with_sets (live w ∖ {[id]}) (driving w) (watching w) w)
  | ListLive => (elements (live w), w)
  | InsertDriving id =>
      (negb (bool_decide (id ∈ driving w)), with_sets (live w) ({[id]} ∪ driving w) (watching w) w)
  | RemoveDriving id => (tt, with_sets (live w) (driving w ∖ {[id]}) (watching w) w)
  | IsDriving id => (bool_decide (id ∈ driving w), w)
  | InsertWatching job =>
      (negb (bool_decide (job ∈ watching w)), with_sets (live w) (driving w) ({[job]} ∪ watching w) w)
  | RemoveWatching job => (tt, with_sets (live w) (driving w) (watching w ∖ {[job]}) w)
  end.

(** What a crash within an action leaves: a record without its event. *)
Definition torn {R} (e : Eff R) (w : World) : World :=
  match e with
  | Mutate id fence _ change =>
      match mutated id fence change w with Ok s => store_session s w | Err _ => w end
  | SettleExecution id job status =>
      match read_session id w with
      | Ok session => match settled job status (clock w) session with Some (s, _) => store_session s w | None => w end
      | Err _ => w
      end
  | _ => w
  end.

(** ** Answers *)

(** What the job manager may answer of the status of a job. *)
Definition job_answer (job : string) (r : Result ExecutionJob ProviderError) (ended : bool) (w : World) : Prop :=
  match r with
  | Ok j => job_id j = job ∧ jobs w !! job = Some (job_status j) ∧ (ended = true → JobStatus.is_terminal (job_status j) = true)
  | Err e =>
      (perror_kind e = UnknownJob → jobs w !! job = None) ∧
      (perror_kind e = JobExpired → ∃ status, jobs w !! job = Some status ∧ JobStatus.is_terminal status = true)
  end.

Definition answers {R} (q : Query R) (w : World) (r : R) : Prop :=
  match q in Query R return R → Prop with
  | ListDirectory => λ names, ∀ id, is_Some (sessions w !! id) → id ∈ names
  | GenerateSession => λ id, is_ok (parse_session_id id) = true
  | JobStatusOf job _ => λ r, job_answer job r false w
  | JobWait job _ => λ r, job_answer job r true w
  | JobWaitDeadline job _ => λ r, match r with Some r => job_answer job r true w | None => True end
  | _ => λ _, True
  end r.

Definition note_job {T} (job : string) (r : Result T ProviderError) (w : World) : World :=
  match r with
  | Ok _ => w
  | Err e => with_notes (NoteJobError job (perror_kind e) :: notes w) (made w) w
  end.

Definition note_made (session : string) (r : Result ProvisionedSession ProviderError) (w : World) : World :=
  match r with
  | Ok p => with_notes (notes w) ((session, psn_provider_session_id p) :: made w) w
  | Err _ => w
  end.

(** What an answer does: a job that was accepted is recorded. *)
Definition answered {R} (q : Query R) (r : R) (w : World) : World :=
  match q in Query R return R → World with
  | EnvProvision request | EnvProvisionFrom request _ => λ r, note_made (prq_session_id request) r w
  | EnvDestroy environment => λ r, with_notes (NoteDestroy environment (is_ok r) :: notes w) (made w) w
  | JobStatusOf job _ | JobCancel job _ | JobWait job _ => λ r, note_job job r w
  | JobWaitDeadline job _ => λ r, match r with Some r => note_job job r w | None => w end
  | JobAccept a => λ r,
      match acc_reserved a, r with
      | Some reserved, Ok submission =>
          if bool_decide (is_Some (jobs w !! rsv_job_id reserved)) then w
          else with_jobs (<[rsv_job_id reserved := sub_status submission]> (jobs w)) (clock w) w
      | Some reserved, Err e => note_job (rsv_job_id reserved) (Err e : Result JobSubmission ProviderError) w
      | None, _ => w
      end
  | _ => λ _, w
  end r.

(** What happens to jobs and the clock meanwhile. *)
Definition jobs_later (j j' : gmap string JobStatus) : Prop :=
  ∀ job status, j !! job = Some status →
    ∃ status', j' !! job = Some status' ∧ (JobStatus.is_terminal status = true → status' = status).

(** ** The system *)

Record System : Type := {
  world : World;
  tasks : gmap nat (Prog unit);
  next_task : nat;
}.

Definition unended (w : World) : list string :=
  fst <$> filter (λ entry, SessionStatus.is_terminal (cs_status (snd entry)) = false) (map_to_list (sessions w)).

(** [start], on the store a crash left. *)
Definition restarted (w : World) : World :=
  {| sessions := sessions w; requests := requests w; logs := logs w; live := list_to_set (unended w);
     driving := ∅; watching := ∅; jobs := jobs w; clock := clock w; past := past w; notes := notes w; made := [] |}.

Context `{!SessionBundles, !Chrono, !Sha256} (manager : SessionManager).
Context `{!CanonicalIdentity Policy, !CanonicalIdentity SemanticRequest, !CanonicalIdentity ApplicationMaterial}.

Definition start_tasks (w : World) : list (Prog unit) :=
  task_program SweepTask :: ((λ id, task_program (RecoverTask id)) <$> unended w).

Definition start (w : World) : System :=
  {| world := restarted w; tasks := list_to_map (zip (seq 0 (length (start_tasks w))) (start_tasks w));
     next_task := length (start_tasks w) |}.

Definition with_task (t : nat) (p : Prog unit) (w : World) (sys : System) : System :=
  {| world := w; tasks := <[t := p]> (tasks sys); next_task := next_task sys |}.

Inductive session_step : System → System → Prop :=
| step_do sys t {R} (e : Eff R) k :
    tasks sys !! t = Some (Do e k) →
    session_step sys (with_task t (k (fst (handle e (world sys)))) (snd (handle e (world sys))) sys)
| step_ask sys t {R} (q : Query R) k r :
    tasks sys !! t = Some (Ask q k) → answers q (world sys) r →
    session_step sys (with_task t (k r) (answered q r (world sys)) sys)
| step_advance sys t id k :
    tasks sys !! t = Some (Advance id k) →
    session_step sys (with_task t (advance_loop manager id k) (world sys) sys)
| step_spawn sys t task k :
    tasks sys !! t = Some (Spawn task k) →
    session_step sys {| world := world sys; next_task := S (next_task sys);
      tasks := <[next_task sys := task_program task]> (<[t := k (next_task sys)]> (tasks sys)) |}
| step_join sys t handle k :
    tasks sys !! t = Some (Join handle k) → tasks sys !! handle = None →
    session_step sys (with_task t k (world sys) sys)
| step_end sys t p :
    tasks sys !! t = Some p → p = Ret tt ∨ p = Panic →
    session_step sys {| world := world sys; tasks := delete t (tasks sys); next_task := next_task sys |}
| step_request sys owner op :
    session_step sys {| world := world sys; next_task := S (next_task sys);
      tasks := <[next_task sys := operation_program manager owner op]> (tasks sys) |}
| step_elsewhere sys j now :
    jobs_later (jobs (world sys)) j → (clock (world sys) ≤ now)%Z →
    session_step sys {| world := with_jobs j now (world sys); tasks := tasks sys; next_task := next_task sys |}
| step_crash sys : session_step sys (start (world sys))
| step_crash_within sys t {R} (e : Eff R) k :
    tasks sys !! t = Some (Do e k) → session_step sys (start (torn e (world sys))).

(** A manager without sessions. *)
Definition empty_world (now : Z) : World :=
  {| sessions := ∅; requests := ∅; logs := ∅; live := ∅; driving := ∅; watching := ∅; jobs := ∅; clock := now;
     past := []; notes := []; made := [] |}.

Definition reachable_session (sys : System) : Prop := ∃ now, rtc session_step (start (empty_world now)) sys.
End world.
