(* ===== verification/SessionSafety.v ===== *)
(** What holds of the session manager in every state it can reach, and how it is
    proved: an invariant of the world ([good]), what any later world keeps
    ([future]), and programs that keep the invariant whatever runs between their
    actions ([safe]) and finish what they owe ([owes]). *)

From S2P Require Import Prelude Text Core Isolation Policy Admission Descriptor.
From S2P Require Import Matching Pool Placement Requests JobRecord JobStore Session SessionManager SessionSystem.

Implicit Types s c : ComputeSession.

(** ** The lifecycle *)

(** Which status may follow which. *)
Definition edge (from to : SessionStatus) : bool :=
  negb (SessionStatus.is_terminal from) &&
  (bool_decide (from = to) ||
   match from, to with
   | Requested, Provisioning | Provisioning, Ready | Ready, Running | Running, Ready
   | (Ready | Running), Stopping | Stopping, Stopped | Stopped, Resuming | Resuming, (Ready | Stopped)
   | Destroying, Destroyed | Expiring, Expired => true
   | _, (Failed | Destroying) => true
   | Destroying, Expiring => false
   | _, Expiring => true
   | _, _ => false
   end).

(** A record without what [settle_execution] alone changes. *)
Definition shape (s : ComputeSession) : ComputeSession :=
  set_updated_at 0 (set_executions (set_exe_status JobQueued <$> cs_executions s) s).

(** A record and one stored after it. *)
Record evolves (s s' : ComputeSession) : Prop := {
  ev_terms : cs_terms s' = cs_terms s;
  ev_step : shape s' = shape s ∨
    cs_generation s' = (cs_generation s + 1)%N ∧ edge (cs_status s) (cs_status s') = true;
  ev_environment e : cs_provider_session_id s = Some e → cs_provider_session_id s' = Some e;
  ev_executions : set_exe_status JobQueued <$> cs_executions s `prefix_of` set_exe_status JobQueued <$> cs_executions s';
  ev_claimed : cs_ownership s = Claimed → cs_ownership s' = Claimed;
}.

Lemma shape_fields s s' :
  shape s = shape s' →
  cs_terms s = cs_terms s' ∧ cs_status s = cs_status s' ∧ cs_provider_session_id s = cs_provider_session_id s' ∧
  cs_ownership s = cs_ownership s' ∧ cs_capabilities s = cs_capabilities s' ∧ cs_expires_at s = cs_expires_at s' ∧
  cs_ready_at s = cs_ready_at s' ∧ cs_ended_at s = cs_ended_at s' ∧ cs_generation s = cs_generation s' ∧
  cs_failure s = cs_failure s' ∧ cs_lineage s = cs_lineage s' ∧
  (set_exe_status JobQueued <$> cs_executions s) = (set_exe_status JobQueued <$> cs_executions s').
Proof. unfold shape, set_updated_at, set_executions. simpl. intros [= ]. done. Qed.

Lemma edge_live from to : edge from to = true → SessionStatus.is_terminal from = false.
Proof. by destruct from. Qed.

(** What a record that was stored means for every later one. *)
Record leads (s s' : ComputeSession) : Prop := {
  le_terms : cs_terms s' = cs_terms s;
  le_generation : (cs_generation s ≤ cs_generation s')%N;
  le_ended : SessionStatus.is_terminal (cs_status s) = true → shape s' = shape s;
  le_environment e : cs_provider_session_id s = Some e → cs_provider_session_id s' = Some e;
  le_claimed : cs_ownership s = Claimed → cs_ownership s' = Claimed;
}.

Lemma evolves_leads s s' : rtc evolves s s' → leads s s'.
Proof.
  induction 1 as [s|s s1 s2 [Ht Hs He Hx Hc] _ [Ht' Hg' Hd' He' Hc']]; [by split|].
  split; [by rewrite Ht'| | |by eauto|by eauto].
  - destruct Hs as [Hs|[Hs _]]; [|lia]. apply shape_fields in Hs as (_ & _ & _ & _ & _ & _ & _ & _ & Hg & _). lia.
  - intros Hend. destruct Hs as [Hs|[_ Hedge]]; [|apply edge_live in Hedge; congruence].
    rewrite <-Hs. apply Hd'. pose proof (shape_fields _ _ Hs) as (_ & -> & _). done.
Qed.

Section safety.
Context `{!Bundles, !CarriedMetadata}.

(** ** The invariant *)

(** The job of an execution has ended, or the job manager answered an error about
    it. *)
Definition accounted (w : World) (job : string) : Prop :=
  (∃ status, jobs w !! job = Some status ∧ JobStatus.is_terminal status = true) ∨
  (∃ kind, NoteJobError job kind ∈ notes w).

Definition was_ready (s : SessionStatus) : bool :=
  match s with Ready | Running | Stopping | Stopped | Resuming => true | _ => false end.

Definition is_quiet (s : SessionStatus) : bool :=
  match s with Stopped | Resuming | Destroyed | Expired => true | _ => false end.

Record state_ok (w : World) (s : ComputeSession) : Prop := {
  st_ready : was_ready (cs_status s) = true → is_Some (cs_ready_at s);
  st_proved : is_Some (cs_ready_at s) → is_Some (cs_provider_session_id s) ∧ jobs w !! cs_job_id s = Some JobSucceeded;
  st_expiring : cs_status s = Expiring ∨ cs_status s = Expired →
    cs_ownership s = Ephemeral ∧ ∃ t, cs_expires_at s = Some t ∧ (t ≤ clock w)%Z;
  st_quiet e : is_quiet (cs_status s) = true → e ∈ cs_executions s → accounted w (exe_job_id e);
  st_settled e : e ∈ cs_executions s → JobStatus.is_terminal (exe_status e) = true → accounted w (exe_job_id e);
  st_gone environment : cs_status s = Destroyed ∨ cs_status s = Expired →
    cs_provider_session_id s = Some environment → NoteDestroy environment true ∈ notes w;
}.

Record good (w : World) : Prop := {
  g_key id s : sessions w !! id = Some s →
    cs_session_id s = id ∧ is_ok (parse_session_id id) = true ∧ s ∈ past w ∧ is_Some (requests w !! id);
  g_past s : s ∈ past w → ∃ c, sessions w !! cs_session_id s = Some c ∧ rtc evolves s c;
  g_same s s' : s ∈ past w → s' ∈ past w → cs_session_id s = cs_session_id s' →
    cs_generation s = cs_generation s' → shape s = shape s';
  g_state s : s ∈ past w → state_ok w s;
  g_reference owner reference id s id' s' : sessions w !! id = Some s → sessions w !! id' = Some s' →
    names_reference owner reference s = true → names_reference owner reference s' = true → id = id';
  g_requests id : is_Some (requests w !! id) → is_Some (sessions w !! id);
}.

(** What every later world keeps. *)
Record future (w w' : World) : Prop := {
  f_past : past w ⊆ past w';
  f_notes : notes w ⊆ notes w';
  f_clock : (clock w ≤ clock w')%Z;
  f_jobs : jobs_later (jobs w) (jobs w');
  f_sessions id s : sessions w !! id = Some s → ∃ s', sessions w' !! id = Some s' ∧ rtc evolves s s';
  f_live id : id ∈ live w →
    id ∈ live w' ∨ ∃ s, sessions w' !! id = Some s ∧ SessionStatus.is_terminal (cs_status s) = true;
}.

#[export] Instance jobs_later_preorder : PreOrder jobs_later.
Proof.
  split; [intros j job st ?; eauto|]. intros j1 j2 j3 H12 H23 job st Hst.
  destruct (H12 job st Hst) as (st' & Hst' & He). destruct (H23 job st' Hst') as (st'' & Hst'' & He').
  exists st''. split; [done|]. intros Hend. rewrite (He Hend) in *. by apply He'.
Qed.

#[export] Instance future_preorder : PreOrder future.
Proof.
  split; [intros w; split; [done..|intros id s Hs; by exists s|by left]|].
  intros w1 w2 w3 [P1 N1 C1 J1 S1 L1] [P2 N2 C2 J2 S2 L2]. split; [by etrans..| |].
  - intros id s Hs. destruct (S1 id s Hs) as (s' & Hs' & He). destruct (S2 id s' Hs') as (s'' & Hs'' & He').
    exists s''. split; [done|by etrans].
  - intros id Hid. destruct (L1 id Hid) as [Hl|(s & Hs & Hend)]; [by apply L2|]. right.
    destruct (S2 id s Hs) as (s' & Hs' & He). exists s'. split; [done|].
    apply evolves_leads in He as [_ _ He _ _]. apply He in Hend as Hshape.
    pose proof (shape_fields _ _ Hshape) as (_ & -> & _). done.
Qed.

Lemma accounted_future w w' job : future w w' → accounted w job → accounted w' job.
Proof.
  intros [_ Hn _ Hj _ _] [(st & Hst & Hend)|[kind Hk]]; [left|right; eauto].
  destruct (Hj job st Hst) as (st' & Hst' & He). rewrite (He Hend) in Hst'. eauto.
Qed.

Lemma state_ok_future w w' s : future w w' → state_ok w s → state_ok w' s.
Proof.
  intros Hf [H1 H2 H3 H4 H5 H6]. pose proof Hf as [_ Hn Hc Hj _ _]. split; [done|..|by eauto].
  - intros Hr. destruct (H2 Hr) as [He Hs]. split; [done|]. destruct (Hj _ _ Hs) as (st & Hst & Heq).
    by rewrite (Heq eq_refl) in Hst.
  - intros He. destruct (H3 He) as (Ho & t & Ht & Hle). split; [done|]. exists t. split; [done|lia].
  - intros e Hq He. eapply accounted_future; eauto.
  - intros e He Hend. eapply accounted_future; eauto.
Qed.

(** A world with the same store. *)
Lemma good_store w w' :
  future w w' → sessions w' = sessions w → requests w' = requests w → past w' = past w → good w → good w'.
Proof.
  intros Hf Hs Hr Hp [K P S St R Q]. split; rewrite ?Hs, ?Hr, ?Hp; [done..| |done|done].
  intros s Hin. by eapply state_ok_future; eauto.
Qed.

Lemma future_same w w' :
  sessions w' = sessions w → past w' = past w → notes w ⊆ notes w' → (clock w ≤ clock w')%Z →
  jobs_later (jobs w) (jobs w') → live w ⊆ live w' → future w w'.
Proof. intros Hs Hp Hn Hc Hj Hl. split; rewrite ?Hs, ?Hp; [done..|intros id s Hid; by exists s|]. intros id Hid. left. set_solver. Qed.

(** ** Storing a record *)

Lemma reads_current w s : good w → s ∈ past w → ∃ c, sessions w !! cs_session_id s = Some c ∧ leads s c.
Proof. intros Hg Hs. destruct (g_past w Hg s Hs) as (c & Hc & He). exists c. split; [done|by apply evolves_leads]. Qed.

Lemma names_reference_spec owner reference s :
  names_reference owner reference s = true ↔
  cs_owner s = owner ∧ cs_reference s = Some reference ∧ SessionStatus.is_terminal (cs_status s) = false.
Proof.
  unfold names_reference. rewrite !andb_true_iff, String.eqb_eq, bool_decide_eq_true, negb_true_iff. tauto.
Qed.

Lemma evolves_reference owner reference s s' :
  evolves s s' → names_reference owner reference s' = true → names_reference owner reference s = true.
Proof.
  intros [Ht Hs _ _ _]. rewrite !names_reference_spec, Ht. intros (-> & -> & Hl). split_and!; [done..|].
  destruct Hs as [Hs|[_ He]]; [|by eapply edge_live]. apply shape_fields in Hs as (_ & <- & _). done.
Qed.

Lemma store_future w id c s :
  sessions w !! id = Some c → cs_session_id c = id → evolves c s → future w (store_session s w).
Proof.
  intros Hc Hid He. assert (cs_session_id s = id) as Hs by (by rewrite (ev_terms _ _ He)).
  split; simpl; [set_solver|done..| |by left].
  intros id' s' Hs'. destruct (decide (id' = id)) as [->|Hne].
  - exists s. rewrite Hs, lookup_insert_eq. split; [done|]. simplify_eq. by apply rtc_once.
  - exists s'. rewrite Hs, lookup_insert_ne by done. done.
Qed.

Lemma store_good w id c s :
  good w → sessions w !! id = Some c → evolves c s → state_ok w s → good (store_session s w).
Proof.
  intros Hg Hc He Hok. destruct (g_key w Hg id c Hc) as (Hid & Hparse & Hpast & Hreq).
  assert (cs_session_id s = id) as Hs by (by rewrite (ev_terms _ _ He)).
  pose proof (store_future w id c s Hc Hid He) as Hf. split; simpl; rewrite ?Hs.
  - intros id' s' [[<- <-]|[Hne Hs']]%lookup_insert_Some; [split_and!; [done..|by left|done]|].
    destruct (g_key w Hg id' s' Hs') as (? & ? & ? & ?). split_and!; [done..|by right|done].
  - intros s' [->|Hs']%elem_of_cons; [exists s; by rewrite Hs, lookup_insert_eq|].
    destruct (g_past w Hg s' Hs') as (c' & Hc' & He'). destruct (decide (cs_session_id s' = id)) as [Heq|Hne].
    + rewrite Heq, lookup_insert_eq. exists s. split; [done|]. rewrite Heq in Hc'. simplify_eq. by eapply rtc_r.
    + rewrite lookup_insert_ne by done. eauto.
  - assert (∀ s', s' ∈ past w → cs_session_id s' = id → cs_generation s = cs_generation s' → shape s = shape s') as Hnew.
    { intros s' Hs' Hid' Hgen. destruct (reads_current w s' Hg Hs') as (c' & Hc' & Hlead). rewrite Hid' in Hc'. simplify_eq.
      destruct (ev_step _ _ He) as [Hshape|[Hgen' _]]; [|destruct Hlead; lia].
      pose proof (shape_fields _ _ Hshape) as (_ & _ & _ & _ & _ & _ & _ & _ & Hg' & _).
      rewrite Hshape. apply (g_same w Hg); [done..|congruence|congruence]. }
    intros s1 s2 [->|H1]%elem_of_cons [->|H2]%elem_of_cons Hid' Hgen; [done| | |by apply (g_same w Hg)].
    + apply Hnew; congruence.
    + symmetry. apply Hnew; congruence.
  - intros s' [->|Hs']%elem_of_cons; (eapply state_ok_future; [done|]); [done|by apply (g_state w Hg)].
  - intros owner reference id1 s1 id2 s2 H1 H2 Hn1 Hn2.
    apply lookup_insert_Some in H1 as [[<- <-]|[Hne1 H1]]; apply lookup_insert_Some in H2 as [[<- <-]|[Hne2 H2]]; [done| | |].
    + apply (evolves_reference _ _ _ _ He) in Hn1. by eapply (g_reference w Hg).
    + apply (evolves_reference _ _ _ _ He) in Hn2. by eapply (g_reference w Hg).
    + by eapply (g_reference w Hg).
  - intros id' Hr. rewrite lookup_insert_is_Some'. right. by apply (g_requests w Hg).
Qed.
(** ** Programs *)

(** Whatever runs between its actions, a program reaches a goal before it returns,
    calls or spawns anything. *)
Fixpoint owes {A} (goal : World → Prop) (p : Prog A) (w : World) : Prop :=
  goal w ∨
  match p with
  | Do e k => ∀ w', future w w' → good w' → owes goal (k (fst (handle e w'))) (snd (handle e w'))
  | Ask q k => ∀ w' r, future w w' → good w' → answers q w' r → owes goal (k r) (answered q r w')
  | _ => False
  end.

(** An environment made for a session is the session's, or was to be destroyed. *)
Definition kept_environment (session environment : string) (w : World) : Prop :=
  (∃ s, s ∈ past w ∧ cs_session_id s = session ∧ cs_provider_session_id s = Some environment) ∨
  ∃ ok, NoteDestroy environment ok ∈ notes w.

(** The sweep knows a session, or it has ended. *)
Definition listed (id : string) (w : World) : Prop :=
  id ∈ live w ∨ ∃ s, sessions w !! id = Some s ∧ SessionStatus.is_terminal (cs_status s) = true.

(** What a program owes once it has published a session, or an environment was
    made for it. *)
Definition promised_do {R A} (e : Eff R) (r : R) (p : Prog A) (w : World) : Prop :=
  match e in Eff R return R → Prop with
  | Publish _ _ => λ r, match r with Ok (s, true) => owes (listed (cs_session_id s)) p w | _ => True end
  | _ => λ _, True
  end r.

Definition promised_ask {R A} (q : Query R) (r : R) (p : Prog A) (w : World) : Prop :=
  match q in Query R return R → Prop with
  | EnvProvision request | EnvProvisionFrom request _ => λ r,
      match r with
      | Ok e => owes (kept_environment (prq_session_id request) (psn_provider_session_id e)) p w
      | Err _ => True
      end
  | _ => λ _, True
  end r.

(** Whatever runs between its actions, a program keeps the invariant and its
    promises, and returns what [post] says. *)
Fixpoint safe {A} (post : A → World → Prop) (p : Prog A) (w : World) : Prop :=
  match p with
  | Ret a => post a w
  | Do e k => ∀ w', future w w' → good w' →
      good (snd (handle e w')) ∧ future w' (snd (handle e w')) ∧
      promised_do e (fst (handle e w')) (k (fst (handle e w'))) (snd (handle e w')) ∧
      safe post (k (fst (handle e w'))) (snd (handle e w'))
  | Ask q k => ∀ w' r, future w w' → good w' → answers q w' r →
      promised_ask q r (k r) (answered q r w') ∧ safe post (k r) (answered q r w')
  | Advance _ k => ∀ r w', future w w' → good w' → safe post (k r) w'
  | Spawn _ k => ∀ h w', future w w' → good w' → safe post (k h) w'
  | Join _ p => ∀ w', future w w' → good w' → safe post p w'
  | Panic => True
  end.

Definition stable (goal : World → Prop) : Prop := ∀ w w', future w w' → goal w → goal w'.

Lemma kept_environment_stable session environment : stable (kept_environment session environment).
Proof.
  intros w w' [Hp Hn _ _ _ _] [(s & Hs & Hid & He)|[ok Hk]]; [left; exists s; auto|right; eauto].
Qed.

Lemma listed_stable id : stable (listed id).
Proof.
  intros w w' Hf [Hl|(s & Hs & Hend)]; [by apply (f_live w w' Hf)|]. right.
  destruct (f_sessions w w' Hf id s Hs) as (s' & Hs' & He). exists s'. split; [done|].
  apply evolves_leads in He as [_ _ He _ _]. apply He in Hend as Hshape.
  pose proof (shape_fields _ _ Hshape) as (_ & -> & _). done.
Qed.

Lemma owes_future {A} goal (p : Prog A) w w' : stable goal → future w w' → owes goal p w → owes goal p w'.
Proof.
  intros Hg Hf. destruct p; simpl; intros [Hgoal|Hk]; try (by left; eapply Hg); try done; right; intros; eapply Hk; eauto;
    by etrans.
Qed.

Lemma owes_bind {A B} goal (p : Prog A) (k : A → Prog B) w : owes goal p w → owes goal (p ≫= k) w.
Proof.
  assert (∀ (p : Prog B) w, goal w → owes goal p w) as Hdone by (intros []; simpl; by left).
  revert w. induction p as [a|R e k' IH|R q k' IH|id k' IH|t k' IH|h p IH|]; intros w; simpl.
  all: intros [Hg|Hk]; try by left. all: try done. all: try by apply Hdone.
  - right. intros w' Hf Hw. by apply IH, Hk.
  - right. intros w' r Hf Hw Ha. by apply IH, Hk.
Qed.

Lemma safe_future {A} post (p : Prog A) w w' :
  (∀ a, stable (post a)) → future w w' → safe post p w → safe post p w'.
Proof.
  intros Hpost Hf. destruct p; simpl; intros Hs; [by eapply Hpost; eauto|..]; try done; intros; eapply Hs; eauto; by etrans.
Qed.

Lemma promised_do_bind {R A B} (e : Eff R) r (p : Prog A) (k : A → Prog B) w :
  promised_do e r p w → promised_do e r (p ≫= k) w.
Proof. destruct e; simpl; try done. destruct r as [[? []]|]; [apply owes_bind|done..]. Qed.

Lemma promised_ask_bind {R A B} (q : Query R) r (p : Prog A) (k : A → Prog B) w :
  promised_ask q r p w → promised_ask q r (p ≫= k) w.
Proof. destruct q; simpl; try done; (destruct r; [apply owes_bind|done]). Qed.

(** ** Answers and plain actions *)

Lemma answered_ok {R} (q : Query R) r w : good w → good (answered q r w) ∧ future w (answered q r w).
Proof.
  intros Hg.
  assert (∀ w', sessions w' = sessions w → requests w' = requests w → past w' = past w → notes w ⊆ notes w' →
    (clock w ≤ clock w')%Z → jobs_later (jobs w) (jobs w') → live w ⊆ live w' → good w' ∧ future w w') as Hsame.
  { intros w' Hs Hr Hp Hn Hc Hj Hl. assert (future w w') as Hf by (by apply future_same). split; [|done].
    by eapply good_store. }
  assert (∀ n m, notes w ⊆ n → good (with_notes n m w) ∧ future w (with_notes n m w)) as Hnotes.
  { intros n m Hn. by apply Hsame. }
  assert (∀ T job (r : Result T ProviderError), good (note_job job r w) ∧ future w (note_job job r w)) as Hjob.
  { intros T job []; [done|]. apply Hnotes. set_solver. }
  destruct q; simpl; try done; try apply Hjob; try (apply Hnotes; set_solver).
  - destruct r; [by apply Hnotes|done].
  - destruct r; [by apply Hnotes|done].
  - destruct (acc_reserved acceptance) as [reserved|]; [|done]. destruct r; [|apply Hnotes; set_solver].
    case_bool_decide as Hnone; [done|]. apply Hsame; try done. intros job st Hst. simpl. exists st. split; [|done].
    rewrite lookup_insert_ne; [done|]. intros <-. apply Hnone. eauto.
  - destruct r; [apply Hjob|done].
Qed.

(** Actions that change neither records nor the notes, nor forget a session. *)
Definition is_plain {R} (e : Eff R) : bool :=
  match e with
  | Mutate _ _ _ _ | SettleExecution _ _ _ | Publish _ _ | RemoveLive _ => false
  | _ => true
  end.

Lemma sets_ok l d v w : good w → live w ⊆ l → good (with_sets l d v w) ∧ future w (with_sets l d v w).
Proof. intros Hg Hl. assert (future w (with_sets l d v w)) as Hf by (by apply future_same). split; [by eapply good_store|done]. Qed.

Lemma logs_ok s event_type detail w :
  good w → good (append_event s event_type detail w) ∧ future w (append_event s event_type detail w).
Proof.
  intros Hg. assert (future w (append_event s event_type detail w)) as Hf by (by apply future_same).
  split; [by eapply good_store|done].
Qed.

Lemma plain_ok {R} (e : Eff R) w : is_plain e = true → good w → good (snd (handle e w)) ∧ future w (snd (handle e w)).
Proof.
  intros Hp Hg. destruct e; simpl in *; try done; try (apply sets_ok; [done|set_solver]).
  unfold record_event. destruct (read_session id w); [by apply logs_ok|done].
Qed.

(** ** Rules for programs *)

Lemma safe_bind {A B} (p : Prog A) (k : A → Prog B) post post' w :
  good w → safe post p w →
  (∀ a w', future w w' → good w' → post a w' → safe post' (k a) w') →
  safe post' (p ≫= k) w.
Proof.
  revert w. induction p as [a|R e k' IH|R q k' IH|id k' IH|t k' IH|h p IH|]; intros w Hg Hs Hk; simpl in *; [by apply Hk|..|done].
  - intros w' Hf Hg'. destruct (Hs w' Hf Hg') as (Hg'' & Hf' & Hp & Hs'). split_and!; [done..|by apply promised_do_bind|].
    apply IH; [done..|]. intros a w0 Hf0. apply Hk. by do 2 (etrans; [done|]).
  - intros w' r Hf Hg' Ha. destruct (Hs w' r Hf Hg' Ha) as [Hp Hs']. destruct (answered_ok q r w' Hg') as [Hg'' Hf'].
    split; [by apply promised_ask_bind|]. apply IH; [done..|]. intros a w0 Hf0. apply Hk. by do 2 (etrans; [done|]).
  - intros r w' Hf Hg'. apply IH; [done|by apply Hs|]. intros a w0 Hf0. apply Hk. by etrans.
  - intros r w' Hf Hg'. apply IH; [done|by apply Hs|]. intros a w0 Hf0. apply Hk. by etrans.
  - intros w' Hf Hg'. apply IH; [done|by apply Hs|]. intros a w0 Hf0. apply Hk. by etrans.
Qed.

Lemma safe_ret {A} (post : A → World → Prop) a w : post a w → safe post (mret a) w.
Proof. done. Qed.

Lemma safe_ret_bind {A B} (k : A → Prog B) post a w : safe post (k a) w → safe post (mret a ≫= k) w.
Proof. done. Qed.

(** [?] *)
Lemma safe_try {A B E} (p : Prog (Result A E)) (k : A → Prog (Result B E)) post post' w :
  good w → safe post p w →
  (∀ a w', future w w' → good w' → post (Ok a) w' → safe post' (k a) w') →
  (∀ e w', future w w' → good w' → post (Err e) w' → post' (Err e) w') →
  safe post' (try_ p k) w.
Proof.
  intros Hg Hp Hok Herr. unfold try_. eapply safe_bind; [done..|]. intros [a|e] w' Hf Hg' Hpost; [by apply Hok|by apply Herr].
Qed.

Lemma safe_plain {R A} (e : Eff R) (k : R → Prog A) post w :
  is_plain e = true →
  (∀ w', future w w' → good w' → safe post (k (fst (handle e w'))) (snd (handle e w'))) →
  safe post (act e ≫= k) w.
Proof.
  intros Hp Hk w' Hf Hg. destruct (plain_ok e w' Hp Hg) as [Hg' Hf']. split_and!; [done..| |by apply Hk].
  by destruct e.
Qed.

(** A plain action, of which only the answer matters. *)
Lemma safe_quiet {R A} (e : Eff R) (k : R → Prog A) post w :
  is_plain e = true → (∀ r w', future w w' → good w' → safe post (k r) w') → safe post (act e ≫= k) w.
Proof.
  intros Hp Hk. apply safe_plain; [done|]. intros w' Hf Hg. destruct (plain_ok e w' Hp Hg). apply Hk; [by etrans|done].
Qed.

Lemma safe_now {A} (k : Z → Prog A) post w :
  (∀ now w', future w w' → good w' → (now ≤ clock w')%Z → safe post (k now) w') → safe post (act Now ≫= k) w.
Proof. intros Hk. apply safe_plain; [done|]. intros w' Hf Hg. simpl. by apply Hk. Qed.

Lemma safe_read_current {A} id (k : Result ComputeSession ProviderError → Prog A) post w :
  (∀ s w', future w w' → good w' → sessions w' !! id = Some s → safe post (k (Ok s)) w') →
  (∀ e w', future w w' → good w' → safe post (k (Err e)) w') →
  safe post (act (ReadSession id) ≫= k) w.
Proof.
  intros Hok Herr. apply safe_plain; [done|]. intros w' Hf Hg. simpl. unfold read_session.
  destruct (sessions w' !! id) as [s|] eqn:Hs; [by apply Hok|by apply Herr].
Qed.

Lemma safe_read {A} id (k : Result ComputeSession ProviderError → Prog A) post w :
  (∀ s w', future w w' → good w' → s ∈ past w' → cs_session_id s = id → safe post (k (Ok s)) w') →
  (∀ e w', future w w' → good w' → safe post (k (Err e)) w') →
  safe post (act (ReadSession id) ≫= k) w.
Proof.
  intros Hok Herr. apply safe_read_current; [|done]. intros s w' Hf Hg Hs.
  destruct (g_key w' Hg id s Hs) as (Hid & _ & Hp & _). by apply Hok.
Qed.

Lemma safe_ask {R A} (q : Query R) (k : R → Prog A) post w :
  (∀ r w', future w w' → good w' → promised_ask q r (k r) w') →
  (∀ r w', future w w' → good w' → answers q w' r → safe post (k r) (answered q r w')) →
  safe post (ask q ≫= k) w.
Proof.
  intros Hp Hk w' r Hf Hg Ha. destruct (answered_ok q r w' Hg) as [Hg' Hf']. split; [apply Hp; [by etrans|done]|by apply Hk].
Qed.

Definition is_provision {R} (q : Query R) : bool :=
  match q with EnvProvision _ | EnvProvisionFrom _ _ => true | _ => false end.

(** A question whose answer may be any. *)
Lemma safe_free {R A} (q : Query R) (k : R → Prog A) post w :
  is_provision q = false → (∀ r w', future w w' → good w' → safe post (k r) w') → safe post (ask q ≫= k) w.
Proof.
  intros Hp Hk. apply safe_ask; [by destruct q|]. intros r w' Hf Hg _.
  destruct (answered_ok q r w' Hg). apply Hk; [by etrans|done].
Qed.

Lemma safe_spawn {A} task (k : nat → Prog A) post w :
  (∀ h w', future w w' → good w' → safe post (k h) w') → safe post (Spawn task k) w.
Proof. done. Qed.

Definition any {A} : A → World → Prop := λ _ _, True.

Lemma safe_each {A} (f : A → Prog unit) l w :
  good w → (∀ x w', x ∈ l → future w w' → good w' → safe any (f x) w') → safe any (each f l) w.
Proof.
  revert w. induction l as [|x l IH]; intros w Hg Hf; simpl; [done|].
  eapply safe_bind; [done|apply Hf; [by left|done|done]|]. intros _ w' Hfut Hg' _. apply IH; [done|].
  intros y w0 Hy Hfut'. apply Hf; [by right|by etrans].
Qed.

Lemma safe_weaken {A} (post post' : A → World → Prop) (p : Prog A) w :
  good w → (∀ a w', future w w' → good w' → post a w' → post' a w') → safe post p w → safe post' p w.
Proof.
  revert w. induction p as [a|R e k IH|R q k IH|id k IH|t k IH|h p IH|]; intros w Hg Himp; simpl; [by apply Himp|..|done].
  - intros Hs w' Hf Hg'. destruct (Hs w' Hf Hg') as (Hg'' & Hf' & Hp & Hs'). split_and!; [done..|].
    apply IH; [done| |done]. intros a w0 Hf0. apply Himp. by do 2 (etrans; [done|]).
  - intros Hs w' r Hf Hg' Ha. destruct (Hs w' r Hf Hg' Ha) as [Hp Hs']. destruct (answered_ok q r w' Hg') as [Hg'' Hf'].
    split; [done|]. apply IH; [done| |done]. intros a w0 Hf0. apply Himp. by do 2 (etrans; [done|]).
  - intros Hs r w' Hf Hg'. apply IH; [done| |by apply Hs]. intros a w0 Hf0. apply Himp. by etrans.
  - intros Hs r w' Hf Hg'. apply IH; [done| |by apply Hs]. intros a w0 Hf0. apply Himp. by etrans.
  - intros Hs w' Hf Hg'. apply IH; [done| |by apply Hs]. intros a w0 Hf0. apply Himp. by etrans.
Qed.

(** ** Changes of records *)

(** What [mutate] stores of a changed record. *)
Definition bumped (now : Z) (s : ComputeSession) : ComputeSession :=
  set_updated_at now (set_generation (cs_generation s + 1) s).

(** A change of a record that keeps the invariant. *)
Record change_ok (w : World) (c s : ComputeSession) : Prop := {
  ch_terms : cs_terms s = cs_terms c;
  ch_generation : cs_generation s = cs_generation c;
  ch_edge : edge (cs_status c) (cs_status s) = true;
  ch_environment e : cs_provider_session_id c = Some e → cs_provider_session_id s = Some e;
  ch_executions : cs_executions c `prefix_of` cs_executions s;
  ch_claimed : cs_ownership c = Claimed → cs_ownership s = Claimed;
  ch_state : state_ok w s;
}.

Lemma change_ok_bumped w now c s : change_ok w c s → evolves c (bumped now s) ∧ state_ok w (bumped now s).
Proof.
  intros [Ht Hg He Hv Hx Hc [S1 S2 S3 S4 S5 S6]]. split; [|by split]. split; simpl; [done|right; by rewrite Hg|done|..|done].
  destruct Hx as [l ->]. rewrite fmap_app. by apply prefix_app_r.
Qed.

Lemma mutated_inv id fence change w s :
  mutated id fence change w = Ok s →
  ∃ c s1, sessions w !! id = Some c ∧ (∀ generation, fence = Some generation → generation = cs_generation c) ∧
    SessionStatus.is_terminal (cs_status c) = false ∧ change (clock w) c = Ok s1 ∧ s = bumped (clock w) s1.
Proof.
  unfold mutated, read_session. rewrite and_then_ok. intros (c & Hc & Hm). destruct (sessions w !! id) as [c'|] eqn:E; [|done].
  injection Hc as ->. rewrite !seq_ok, !reject_if_ok in Hm. destruct Hm as (Hf & Ht & Hm).
  apply and_then_ok in Hm as (s1 & Hs1 & [= <-]). exists c, s1. split_and!; [done| |done..].
  intros g ->. simpl in Hf. apply negb_false_iff, N.eqb_eq in Hf. done.
Qed.

(** What [mutate] needs of a change. *)
Definition changes (id : string) (fence : option N) (change : Z → ComputeSession → Result ComputeSession ProviderError)
    (w : World) : Prop :=
  ∀ c s1, sessions w !! id = Some c → (∀ generation, fence = Some generation → generation = cs_generation c) →
    SessionStatus.is_terminal (cs_status c) = false → c ∈ past w → cs_session_id c = id →
    change (clock w) c = Ok s1 → change_ok w c s1.

Lemma forget_ended_ok s w :
  good w → sessions w !! cs_session_id s = Some s → good (forget_ended s w) ∧ future w (forget_ended s w).
Proof.
  intros Hg Hs. unfold forget_ended. destruct (SessionStatus.is_terminal (cs_status s)) eqn:Hend; [|done].
  assert (future w (with_sets (live w ∖ {[cs_session_id s]}) (driving w) (watching w) w)) as Hf.
  { split; simpl; [done..|intros id s' Hs'; by exists s'|]. intros id Hid.
    destruct (decide (id = cs_session_id s)) as [->|Hne]; [right; eauto|left; set_solver]. }
  split; [by eapply good_store|done].
Qed.

Lemma changes_stored id fence change w s :
  good w → changes id fence change w → mutated id fence change w = Ok s →
  good (store_session s w) ∧ future w (store_session s w) ∧ cs_session_id s = id.
Proof.
  intros Hg Hch Hm. apply mutated_inv in Hm as (c & s1 & Hc & Hf & Ht & Hs1 & ->).
  destruct (g_key w Hg id c Hc) as (Hid & _ & Hp & _).
  destruct (change_ok_bumped w (clock w) c s1 (Hch c s1 Hc Hf Ht Hp Hid Hs1)) as [He Hok].
  split_and!; [by eapply store_good|by eapply store_future|]. by rewrite (ev_terms _ _ He).
Qed.

Lemma mutate_ok id fence event_type change w :
  good w → changes id fence change w →
  good (snd (mutate id fence event_type change w)) ∧ future w (snd (mutate id fence event_type change w)) ∧
  ∀ s, fst (mutate id fence event_type change w) = Ok s →
    s ∈ past (snd (mutate id fence event_type change w)) ∧ cs_session_id s = id.
Proof.
  intros Hg Hch. unfold mutate. destruct (mutated id fence change w) as [s|e] eqn:Hm; [|done].
  destruct (changes_stored id fence change w s Hg Hch Hm) as (Hg1 & Hf1 & Hid).
  destruct (logs_ok s event_type None _ Hg1) as [Hg2 Hf2].
  destruct (forget_ended_ok s (append_event s event_type None (store_session s w)) Hg2) as [Hg3 Hf3].
  { simpl. by rewrite lookup_insert_eq. }
  simpl. split_and!; [done|by do 2 (etrans; [done|])|]. intros s' [= <-]. split; [|done].
  apply (f_past _ _ Hf3). simpl. by left.
Qed.

Lemma safe_mutate {A} id fence event_type change (k : Result ComputeSession ProviderError → Prog A) post w :
  (∀ w', future w w' → good w' → changes id fence change w') →
  (∀ s w', future w w' → good w' → s ∈ past w' → cs_session_id s = id → safe post (k (Ok s)) w') →
  (∀ e w', future w w' → good w' → safe post (k (Err e)) w') →
  safe post (act (Mutate id fence event_type change) ≫= k) w.
Proof.
  intros Hch Hok Herr w' Hf Hg. destruct (mutate_ok id fence event_type change w' Hg (Hch w' Hf Hg)) as (Hg' & Hf' & Hs).
  split_and!; [done..|]. simpl. destruct (fst (mutate _ _ _ _ _)) as [s|e]; [|apply Herr; [by etrans|done]].
  destruct (Hs s eq_refl) as [Hp Hid]. apply Hok; [by etrans|done..].
Qed.

(** A fenced change finds the record it was fenced on, its executions' statuses
    apart. *)
Lemma fenced_shape w s c :
  good w → s ∈ past w → sessions w !! cs_session_id s = Some c → cs_generation c = cs_generation s → shape c = shape s.
Proof.
  intros Hg Hs Hc Hgen. destruct (g_key w Hg _ c Hc) as (Hid & _ & Hp & _). by apply (g_same w Hg).
Qed.

Lemma changes_fenced w s change :
  good w → s ∈ past w →
  (∀ c s1, shape c = shape s → c ∈ past w → state_ok w c → SessionStatus.is_terminal (cs_status c) = false →
    change (clock w) c = Ok s1 → change_ok w c s1) →
  changes (cs_session_id s) (Some (cs_generation s)) change w.
Proof.
  intros Hg Hs Hch c s1 Hc Hf Ht Hp Hid Hs1. apply Hch; [|done|by apply (g_state w Hg)|done|done].
  apply (fenced_shape w s c Hg Hs Hc). symmetry. by apply Hf.
Qed.

Lemma changes_free w id change :
  good w →
  (∀ c s1, c ∈ past w → state_ok w c → SessionStatus.is_terminal (cs_status c) = false →
    change (clock w) c = Ok s1 → change_ok w c s1) →
  changes id None change w.
Proof. intros Hg Hch c s1 Hc Hf Ht Hp Hid Hs1. apply Hch; [done|by apply (g_state w Hg)|done|done]. Qed.

(** ** Executions that have ended *)

Lemma settle_first_spec job status l l' :
  settle_first job status l = Some l' →
  (set_exe_status JobQueued <$> l') = (set_exe_status JobQueued <$> l) ∧
  ∀ e, e ∈ l' → e ∈ l ∨ exe_job_id e = job ∧ exe_status e = status.
Proof.
  revert l'. induction l as [|e l IH]; intros l'; simpl; [done|].
  destruct (String.eqb_spec (exe_job_id e) job) as [He|].
  - case_bool_decide; [done|]. intros [= <-]. split; [done|]. intros e' [->|Hin]%elem_of_cons; [by right|left; by right].
  - destruct (settle_first job status l) as [rest|]; [|done]. intros [= <-]. destruct (IH rest eq_refl) as [Hshape Hin].
    split; [by rewrite !fmap_cons, Hshape|]. intros e' [->|He']%elem_of_cons; [left; by left|].
    destruct (Hin e' He'); [left; by right|by right].
Qed.

Lemma settled_ok w c job status s event_type :
  state_ok w c → (JobStatus.is_terminal status = true → accounted w job) →
  settled job status (clock w) c = Some (s, event_type) → evolves c s ∧ state_ok w s.
Proof.
  intros [S1 S2 S3 S4 S5 S6] Hend. unfold settled. intros (l & Hl & Hs)%bind_Some.
  apply settle_first_spec in Hl as [Hshape Hin].
  assert (∀ e, e ∈ l → JobStatus.is_terminal (exe_status e) = true → accounted w (exe_job_id e)) as Hset.
  { intros e He Hterm. destruct (Hin e He) as [Hold|[-> Hst]]; [by apply S5|]. rewrite Hst in Hterm. by apply Hend. }
  assert (∀ e, is_quiet (cs_status c) = true → e ∈ l → accounted w (exe_job_id e)) as Hquiet.
  { intros e Hq He. apply (list_elem_of_fmap_2 (set_exe_status JobQueued)) in He as He'. rewrite Hshape in He'.
    apply list_elem_of_fmap in He' as (e' & Heq & He'). injection Heq as Hj _ _ _ _. rewrite Hj. by apply (S4 e'). }
  destruct (bool_decide (cs_status (set_executions l c) = Running) && _) eqn:Hidle.
  - apply andb_true_iff in Hidle as [Hrun%bool_decide_eq_true _]. simpl in Hrun. injection Hs as <- _.
    split; [split; simpl; [done|right; by rewrite Hrun|done|by rewrite Hshape|done]|].
    split; simpl; [|done|by intros []|done|done|by intros ? []]. intros _. apply S1. by rewrite Hrun.
  - injection Hs as <- _. split; [|by split].
    split; simpl; [done|left; unfold shape; simpl; by rewrite Hshape|done|by rewrite Hshape|done].
Qed.

Lemma settle_stored id job status w c s event_type :
  good w → (JobStatus.is_terminal status = true → accounted w job) → sessions w !! id = Some c →
  settled job status (clock w) c = Some (s, event_type) → good (store_session s w) ∧ future w (store_session s w).
Proof.
  intros Hg Hend Hc Hs. destruct (g_key w Hg id c Hc) as (Hid & _ & Hp & _).
  destruct (settled_ok w c job status s event_type (g_state w Hg c Hp) Hend Hs) as [He Hok].
  split; [by eapply store_good|by eapply store_future].
Qed.

Lemma safe_settle {A} id job status (k : Result ComputeSession ProviderError → Prog A) post w :
  (∀ w', future w w' → JobStatus.is_terminal status = true → accounted w' job) →
  (∀ r w', future w w' → good w' → safe post (k r) w') →
  safe post (act (SettleExecution id job status) ≫= k) w.
Proof.
  intros Hend Hk w' Hf Hg. simpl. unfold settle_execution, read_session.
  destruct (sessions w' !! id) as [c|] eqn:Hc; simpl; [|split_and!; [done..|by apply Hk]].
  destruct (settled job status (clock w') c) as [[s event_type]|] eqn:Hs; simpl; [|split_and!; [done..|by apply Hk]].
  destruct (settle_stored id job status w' c s event_type Hg (Hend w' Hf) Hc Hs) as [Hg1 Hf1].
  destruct (logs_ok s event_type (Some (job +:+ ": " +:+ JobStatus.debug status)) _ Hg1) as [Hg2 Hf2].
  split_and!; [done|by etrans|done|]. apply Hk; [by do 2 (etrans; [done|])|done].
Qed.

(** ** Publication *)

Lemma referenced_none owner reference w :
  good w → referenced owner (Some reference) w = None →
  ∀ id s, sessions w !! id = Some s → names_reference owner reference s = false.
Proof.
  intros Hg Hnone id s Hs. simpl in Hnone. apply not_true_iff_false. intros Hname.
  rewrite (find_none _ _ Hnone s) in Hname; [done|]. apply list_elem_of_In, list_elem_of_omap.
  exists id. destruct (g_key w Hg id s Hs) as (_ & Hparse & _ & _). split.
  - apply list_elem_of_fmap. exists (id, s). split; [done|]. by apply elem_of_by_id.
  - destruct (parse_session_id id) as [id'|] eqn:Hp; [|done].
    by rewrite (parse_identity_ok _ _ _ _ Hp).
Qed.

Lemma publish_ok w s stored :
  good w → is_ok (parse_session_id (cs_session_id s)) = true → state_ok w s →
  good (snd (publish s stored w)) ∧ future w (snd (publish s stored w)) ∧
  ∀ s' fresh, fst (publish s stored w) = Ok (s', fresh) →
    s' ∈ past (snd (publish s stored w)) ∧ (fresh = true → s' = s).
Proof.
  intros Hg Hparse Hok. unfold publish. destruct (referenced (cs_owner s) (cs_reference s) w) as [existing|] eqn:Href.
  { split_and!; [done..|]. intros s' fresh [= <- <-]. simpl. split; [|done].
    unfold referenced in Href. apply bind_Some in Href as (reference & _ & Hfind). apply find_some in Hfind as [Hin _].
    apply list_elem_of_In, list_elem_of_omap in Hin as (name & _ & Hin). destruct (parse_session_id name); [|done].
    by apply (g_key w Hg) in Hin as (_ & _ & ? & _). }
  case_bool_decide as Hnone.
  { destruct (sets_ok (live w) (if bool_decide (is_Some (cs_lineage s)) then {[cs_session_id s]} ∪ driving w else driving w)
      (watching w) w Hg) as [Hg' Hf']; [done|]. split_and!; done. }
  apply eq_None_not_Some in Hnone. simpl.
  match goal with |- good ?w' ∧ _ => assert (future w w') as Hf end.
  { split; simpl; [set_solver|done..| |by left]. intros id s' Hs'. exists s'.
    rewrite lookup_insert_ne; [done|]. congruence. }
  split_and!; [|done|by intros s' fresh [= <- <-]; split; [left|]]. split; simpl.
  - intros id s' [[<- <-]|[Hne Hs']]%lookup_insert_Some; [rewrite lookup_insert_eq; split_and!; [done..|by left|done]|].
    destruct (g_key w Hg id s' Hs') as (? & ? & ? & ?). rewrite lookup_insert_ne by done. split_and!; [done..|by right|done].
  - intros s' [->|Hs']%elem_of_cons; [exists s; by rewrite lookup_insert_eq|].
    destruct (g_past w Hg s' Hs') as (c & Hc & He). exists c. rewrite lookup_insert_ne; [done|congruence].
  - assert (∀ s', s' ∈ past w → cs_session_id s ≠ cs_session_id s') as Hnew.
    { intros s' Hs' Heq. destruct (g_past w Hg s' Hs') as (c & Hc & _). congruence. }
    intros s1 s2 [->|H1]%elem_of_cons [->|H2]%elem_of_cons Hid Hgen; [done|by apply Hnew in H2|by apply Hnew in H1|by apply (g_same w Hg)].
  - intros s' [->|Hs']%elem_of_cons; (eapply state_ok_future; [done|]); [done|by apply (g_state w Hg)].
  - assert (∀ owner reference id s', sessions w !! id = Some s' → names_reference owner reference s = true →
      names_reference owner reference s' = true → False) as Hnew.
    { intros owner reference id s' Hs' Hn Hn'. apply names_reference_spec in Hn as (<- & Hr & _). rewrite Hr in Href.
      rewrite (referenced_none _ _ w Hg Href id s' Hs') in Hn'. done. }
    intros owner reference id1 s1 id2 s2 H1 H2 Hn1 Hn2.
    apply lookup_insert_Some in H1 as [[<- <-]|[Hne1 H1]]; apply lookup_insert_Some in H2 as [[<- <-]|[Hne2 H2]];
      [done|by edestruct Hnew|by edestruct Hnew|by eapply (g_reference w Hg)].
  - intros id Hr. apply lookup_insert_is_Some'. apply lookup_insert_is_Some' in Hr as [|Hr]; [by left|right].
    by apply (g_requests w Hg).
Qed.

Lemma safe_publish {A} s stored (k : Result (ComputeSession * bool) ProviderError → Prog A) post w :
  is_ok (parse_session_id (cs_session_id s)) = true → (∀ w', state_ok w' s) →
  (∀ w', future w w' → good w' → owes (listed (cs_session_id s)) (k (Ok (s, true))) w') →
  (∀ s' fresh w', future w w' → good w' → s' ∈ past w' → safe post (k (Ok (s', fresh))) w') →
  (∀ e w', future w w' → good w' → safe post (k (Err e)) w') →
  safe post (act (Publish s stored) ≫= k) w.
Proof.
  intros Hparse Hst Howes Hok Herr w' Hf Hg. destruct (publish_ok w' s stored Hg Hparse (Hst w')) as (Hg' & Hf' & Hs).
  split_and!; [done..| |]; simpl.
  - destruct (fst (publish s stored w')) as [[s' []]|e]; try done. destruct (Hs s' true eq_refl) as [_ ->]; [|done].
    apply Howes; [by etrans|done].
  - destruct (fst (publish s stored w')) as [[s' fresh]|e]; [|apply Herr; [by etrans|done]].
    destruct (Hs s' fresh eq_refl) as [Hp _]. apply Hok; [by etrans|done..].
Qed.
End safety.
