(* ===== verification/SessionPrograms.v ===== *)
(** Every program of the session manager keeps the invariant and its promises
    ([safe] of [SessionSafety]), whatever other tasks do between its actions. *)

From S2P Require Import Prelude Text Core Isolation Policy Admission Descriptor.
From S2P Require Import Matching Pool Placement Requests JobRecord JobStore Session SessionManager SessionSystem.
From S2P Require Import SessionSafety.

Implicit Types s c : ComputeSession.

Section programs.
Context `{!Bundles, !CarriedMetadata}.

(** ** Changes *)

(** The conditions a status puts on the rest of a record. *)
Record status_ok (w : World) (status : SessionStatus) (s : ComputeSession) : Prop := {
  so_ready : was_ready status = true → is_Some (cs_ready_at s);
  so_expiring : status = Expiring ∨ status = Expired →
    cs_ownership s = Ephemeral ∧ ∃ t, cs_expires_at s = Some t ∧ (t ≤ clock w)%Z;
  so_quiet e : is_quiet status = true → e ∈ cs_executions s → accounted w (exe_job_id e);
  so_gone environment : status = Destroyed ∨ status = Expired →
    cs_provider_session_id s = Some environment → NoteDestroy environment true ∈ notes w;
}.

Lemma status_ok_plain w status s :
  was_ready status = false → SessionStatus.is_terminal status = false ∨ status = Failed → status ≠ Expiring →
  status_ok w status s.
Proof.
  intros Hr Hl Hne. split; [by rewrite Hr|destruct status, Hl; naive_solver..].
Qed.

(** A change of the status, and of fields the invariant does not mention. *)
Lemma change_status w c s :
  state_ok w c → status_ok w (cs_status s) c → edge (cs_status c) (cs_status s) = true →
  cs_terms s = cs_terms c → cs_generation s = cs_generation c → cs_provider_session_id s = cs_provider_session_id c →
  cs_executions s = cs_executions c → cs_ownership s = cs_ownership c → cs_expires_at s = cs_expires_at c →
  cs_ready_at s = cs_ready_at c → change_ok w c s.
Proof.
  intros [S1 S2 S3 S4 S5 S6] [O1 O2 O3 O4] He Ht Hg Hv Hx Ho Hp Hr.
  split; rewrite ?Ht, ?Hg, ?Hv, ?Hx, ?Ho, ?Hp, ?Hr; try done. split; rewrite ?Ht, ?Hv, ?Hx, ?Ho, ?Hp, ?Hr; done.
Qed.

Lemma status_ok_same w s : state_ok w s → status_ok w (cs_status s) s.
Proof. by intros [S1 S2 S3 S4 S5 S6]. Qed.

Lemma edge_same status : SessionStatus.is_terminal status = false → edge status status = true.
Proof. by destruct status. Qed.

Lemma edge_any status to :
  SessionStatus.is_terminal status = false → to = Failed ∨ to = Destroying → edge status to = true.
Proof. by destruct status; intros ? [->| ->]. Qed.

(** A change that keeps the status. *)
Lemma change_same w c s :
  state_ok w c → SessionStatus.is_terminal (cs_status c) = false → cs_status s = cs_status c →
  cs_terms s = cs_terms c → cs_generation s = cs_generation c → cs_provider_session_id s = cs_provider_session_id c →
  cs_executions s = cs_executions c → cs_ownership s = cs_ownership c → cs_expires_at s = cs_expires_at c →
  cs_ready_at s = cs_ready_at c → change_ok w c s.
Proof.
  intros Hok Hl Hs. intros. apply change_status; try done; rewrite Hs; [by apply status_ok_same|by apply edge_same].
Qed.

Lemma set_recorded_ok w f now c s :
  state_ok w c → SessionStatus.is_terminal (cs_status c) = false → set_recorded f now c = Ok s → change_ok w c s.
Proof. intros Hok Hl [= <-]. by apply change_same. Qed.

Lemma set_failed_ok w f now c s :
  state_ok w c → SessionStatus.is_terminal (cs_status c) = false → set_failed f now c = Ok s → change_ok w c s.
Proof.
  intros Hok Hl [= <-]. apply change_status; try done; [by apply status_ok_plain; [|right|]|apply edge_any; [done|by left]].
Qed.

Lemma set_evidence_ok w evidence now c s :
  state_ok w c → SessionStatus.is_terminal (cs_status c) = false → set_evidence evidence now c = Ok s → change_ok w c s.
Proof. intros Hok Hl [= <-]. by apply change_same. Qed.

Lemma shape_executions s s' e :
  shape s = shape s' → e ∈ cs_executions s → ∃ e', e' ∈ cs_executions s' ∧ exe_job_id e' = exe_job_id e.
Proof.
  intros Hshape He. apply shape_fields in Hshape as (_ & _ & _ & _ & _ & _ & _ & _ & _ & _ & _ & Hx).
  apply (list_elem_of_fmap_2 (set_exe_status JobQueued)) in He. rewrite Hx in He.
  apply list_elem_of_fmap in He as (e' & Heq & He'). injection Heq as Hj _ _ _ _. eauto.
Qed.

(** ** Rules for fenced changes of a record that was read *)

Lemma safe_fenced {A} s event_type change (k : Result ComputeSession ProviderError → Prog A) post w :
  s ∈ past w →
  (∀ w' c s1, future w w' → good w' → shape c = shape s → state_ok w' c →
    SessionStatus.is_terminal (cs_status c) = false → change (clock w') c = Ok s1 → change_ok w' c s1) →
  (∀ s' w', future w w' → good w' → s' ∈ past w' → cs_session_id s' = cs_session_id s → safe post (k (Ok s')) w') →
  (∀ e w', future w w' → good w' → safe post (k (Err e)) w') →
  safe post (act (Mutate (cs_session_id s) (Some (cs_generation s)) event_type change) ≫= k) w.
Proof.
  intros Hs Hch Hok Herr. apply safe_mutate; [|done..]. intros w' Hf Hg. apply changes_fenced; [done|by apply (f_past w w' Hf)|].
  intros c s1 Hshape Hp Hst Hl Hs1. by apply Hch.
Qed.

Lemma safe_unfenced {A} id event_type change (k : Result ComputeSession ProviderError → Prog A) post w :
  (∀ w' c s1, future w w' → good w' → state_ok w' c → SessionStatus.is_terminal (cs_status c) = false →
    change (clock w') c = Ok s1 → change_ok w' c s1) →
  (∀ s' w', future w w' → good w' → s' ∈ past w' → cs_session_id s' = id → safe post (k (Ok s')) w') →
  (∀ e w', future w w' → good w' → safe post (k (Err e)) w') →
  safe post (act (Mutate id None event_type change) ≫= k) w.
Proof.
  intros Hch Hok Herr. apply safe_mutate; [|done..]. intros w' Hf Hg. apply changes_free; [done|].
  intros c s1 Hp Hst Hl Hs1. by apply Hch.
Qed.
End programs.

(** What a program of which nothing but its safety matters goes through. *)
Ltac go :=
  repeat match goal with
    | |- ∀ _, _ => intro
    | |- any _ _ => exact I
    | |- safe _ (mret _) _ => apply safe_ret
    | |- safe _ (mret _ ≫= _) _ => apply safe_ret_bind
    | |- safe _ (act Now ≫= _) _ => apply safe_now
    | |- safe _ (act _ ≫= _) _ => apply safe_quiet; [reflexivity|]
    | |- safe _ (ask _ ≫= _) _ => apply safe_free; [reflexivity|]
    | |- safe _ (Spawn _ _) _ => apply safe_spawn
    | |- safe _ (match _ with _ => _ end) _ => case_match
    end.

(** A guard that returns early. *)
Ltac early := match goal with |- safe _ (if ?b then _ else _) _ => destruct b; [done|] end.

Section programs.
Context `{!Bundles, !CarriedMetadata, !SessionBundles, !Chrono, !Sha256} (manager : SessionManager).
Context `{!CanonicalIdentity ApplicationMaterial}.

(** ** Guards and helpers *)

(** A record that was read. *)
Definition is_read (id : string) (r : Result ComputeSession ProviderError) (w : World) : Prop :=
  ∀ s, r = Ok s → s ∈ past w ∧ cs_session_id s = id.

Lemma owned_safe id owner w : good w → safe (is_read id) (owned id owner) w.
Proof.
  intros Hg. unfold owned, try_. apply safe_read; [|by intros].
  intros s w' Hf Hg' Hp Hid. apply safe_ret. intros s'. case_match; [|done]. by intros [= <-].
Qed.

Lemma usable_safe id owner operation w : good w → safe (is_read id) (usable id owner operation) w.
Proof.
  intros Hg. unfold usable. eapply safe_try; [done|by apply owned_safe|..|done].
  intros s w' Hf Hg' Hs. apply safe_now. intros now w1 Hf1 Hg1 _. apply safe_ret. intros s'.
  destruct (Hs s eq_refl) as [Hp Hid]. repeat case_match; try done. intros [= <-]. split; [by apply (f_past w' w1)|done].
Qed.

Lemma environment_safe s w : safe any (environment s) w.
Proof. unfold environment, try_. go. Qed.

Lemma failure_safe phase e w : safe any (failure manager phase e) w.
Proof. unfold failure. go. Qed.

Lemma record_failure_safe s event_type f w : s ∈ past w → safe any (record_failure s event_type f) w.
Proof.
  intros Hs. unfold record_failure, try_. case_match; [done|].
  apply safe_fenced; [done| |by go..]. intros w' c s1 Hf Hg Hshape Hok Hl Hs1. by eapply set_recorded_ok.
Qed.

Lemma cancel_executions_safe s w : good w → safe any (cancel_executions s) w.
Proof. intros Hg. apply safe_each; [done|]. go. Qed.

Lemma accounted_answer job r w :
  job_answer job r true w → (∀ e, r = Err e → perror_kind e = UnknownJob ∨ perror_kind e = JobExpired) →
  accounted (note_job job r w) job.
Proof.
  destruct r as [j|e]; simpl.
  - intros (Hid & Hj & Hend) _. left. exists (job_status j). auto.
  - intros [Hu Hx] He. destruct (He e eq_refl) as [Hk|Hk].
    + right. exists (perror_kind e). simpl. by left.
    + left. by apply Hx.
Qed.

(** Executions whose jobs have ended, or that the job manager does not know. *)
Definition all_accounted (l : list SessionExecution) (r : Result unit ProviderError) (w : World) : Prop :=
  r = Ok tt → ∀ e, e ∈ l → accounted w (exe_job_id e).

Lemma await_ended_safe owner l l0 w :
  good w → (∀ e, e ∈ l0 → accounted w (exe_job_id e)) → safe (all_accounted (l0 ++ l)) (await_ended owner l) w.
Proof.
  revert l0 w. induction l as [|e l IH]; intros l0 w Hg Hl0; cbn [await_ended].
  { apply safe_ret. intros _ e. rewrite app_nil_r. apply Hl0. }
  apply safe_ask; [done|]. intros r w' Hf Hg' Ha. simpl in Ha |- *.
  assert (∀ r, job_answer (exe_job_id e) r true w' →
    (∀ error, r = Err error → perror_kind error = UnknownJob ∨ perror_kind error = JobExpired) →
    safe (all_accounted (l0 ++ e :: l)) (await_ended owner l) (note_job (exe_job_id e) r w')) as Hnext.
  { intros r' Ha' Hkind. destruct (answered_ok (JobWait (exe_job_id e) owner) r' w' Hg') as [Hg1 Hf1]. simpl in Hg1, Hf1.
    rewrite cons_middle, app_assoc. apply IH; [done|]. intros x [Hx|Hx]%elem_of_app.
    - apply (accounted_future w); [by etrans|by apply Hl0].
    - apply list_elem_of_singleton in Hx as ->. by apply accounted_answer. }
  destruct r as [[j|error]|]; [by apply Hnext| |apply safe_ret; done].
  destruct (perror_kind error) eqn:Hk; try (apply safe_ret; done); apply Hnext; try done; intros ? [= <-]; auto.
Qed.

Lemma terminate_safe s w : good w → safe (all_accounted (active_executions s)) (terminate_executions s) w.
Proof.
  intros Hg. unfold terminate_executions. eapply safe_bind; [done|by apply cancel_executions_safe|].
  intros _ w' Hf Hg' _. apply (await_ended_safe _ _ []); [done|]. by intros e ?%not_elem_of_nil.
Qed.

Lemma accept_execution_safe s request e w : safe any (accept_execution manager s request e) w.
Proof. unfold accept_execution, try_. go. Qed.

Lemma watch_safe id job w : safe any (watch id job) w.
Proof. unfold watch. go. Qed.

Lemma drive_safe id w : safe any (drive id) w.
Proof. unfold drive. go. Qed.

Lemma fail_session_safe s f w : s ∈ past w → safe any (fail_session s f) w.
Proof.
  intros Hs. unfold fail_session, try_. apply safe_fenced; [done|..|by go].
  - intros w' c s1 Hf Hg Hshape Hok Hl Hs1. by eapply set_failed_ok.
  - intros s' w' Hf Hg Hp Hid. eapply safe_bind; [done|by apply cancel_executions_safe|]. intros _ w1 Hf1 Hg1 _. go.
Qed.

Lemma lost_safe s w : safe any (lost s) w.
Proof. unfold lost. repeat case_match; try done; by go. Qed.

Lemma settle_from_safe checkpoint names w : safe any (settle_from checkpoint names) w.
Proof. revert w. induction names as [|id names IH]; intros w; cbn [settle_from]; [by go|]. apply safe_read; intros; [case_match; [done|]|]; apply IH. Qed.

Lemma settle_checkpoint_safe checkpoint w : safe any (settle_checkpoint checkpoint) w.
Proof. unfold settle_checkpoint. apply safe_free; [done|]. intros. apply settle_from_safe. Qed.

Lemma settle_lineage_safe s w : safe any (settle_lineage s) w.
Proof. unfold settle_lineage. case_match; [apply settle_checkpoint_safe|done]. Qed.

(** ** Provisioning *)

(** Programs that only act plainly and ask, and return. *)
Fixpoint straight {A} (p : Prog A) : Prop :=
  match p with
  | Ret _ => True
  | Do e k => is_plain e = true ∧ ∀ r, straight (k r)
  | Ask _ k => ∀ r, straight (k r)
  | _ => False
  end.

Lemma owes_straight {A B} goal (p : Prog A) (k : A → Prog B) w :
  straight p → good w → (∀ a w', future w w' → good w' → owes goal (k a) w') → owes goal (p ≫= k) w.
Proof.
  revert w. induction p as [a|R e k' IH|R q k' IH|id k' IH|t k' IH|h p IH|]; intros w; simpl; try done.
  - intros _ Hg Hk. by apply Hk.
  - intros [Hp Hs] Hg Hk. right. intros w' Hf Hg'. destruct (plain_ok e w' Hp Hg') as [Hg'' Hf']. apply IH; [done..|].
    intros a w0 Hf0. apply Hk. by do 2 (etrans; [done|]).
  - intros Hs Hg Hk. right. intros w' r Hf Hg' _. destruct (answered_ok q r w' Hg') as [Hg'' Hf']. apply IH; [done..|].
    intros a w0 Hf0. apply Hk. by do 2 (etrans; [done|]).
Qed.

Lemma owes_now {A} (goal : World → Prop) (p : Prog A) w : goal w → owes goal p w.
Proof. destruct p; by left. Qed.

Lemma owes_act {R A} (e : Eff R) (goal : World → Prop) (k : R → Prog A) w :
  (∀ w', future w w' → good w' → goal (snd (handle e w'))) → owes goal (act e ≫= k) w.
Proof. intros Hgoal. right. intros w' Hf Hg. by apply owes_now, Hgoal. Qed.

Lemma settle_from_straight checkpoint names : straight (settle_from checkpoint names).
Proof.
  induction names as [|id names IH]; simpl; [done|]. split; [done|]. intros [s|]; [|done]. by destruct (needs_checkpoint _ _).
Qed.

Lemma settle_lineage_straight s : straight (settle_lineage s).
Proof. unfold settle_lineage. case_match; [|done]. intros names. apply settle_from_straight. Qed.

(** The environment made for a session becomes the session's, or is to be
    destroyed. *)
Lemma provision_made_owes s p w :
  owes (kept_environment (cs_session_id s) (psn_provider_session_id p)) (provision_made s p) w.
Proof.
  unfold provision_made. right. intros w' Hf Hg. simpl.
  destruct (mutate _ _ _ _ w') as [[s'|e] w''] eqn:Hm; simpl; unfold mutate in Hm.
  - destruct (mutated _ _ _ w') as [s1|] eqn:Hm1; [|done]. injection Hm as -> <-.
    apply mutated_inv in Hm1 as (c & s1 & Hc & _ & _ & [= <-] & ->). destruct (g_key w' Hg _ c Hc) as (Hid & _ & _ & _).
    apply owes_now. left. exists (bumped (clock w') (set_environment (psn_provider_session_id p)
      (psn_connection p) (psn_endpoints p) (psn_capabilities p) c)). split_and!; [|done|done].
    unfold forget_ended. case_match; simpl; by left.
  - destruct (mutated _ _ _ w') as [s1|] eqn:Hm1; [done|]. injection Hm as _ <-.
    apply owes_straight; [apply settle_lineage_straight|done|]. intros _ w1 Hf1 Hg1. right.
    intros w2 r Hf2 Hg2 _. apply owes_now. right. exists (is_ok r). simpl. by left.
Qed.

Lemma adopt_ok w p s now c s1 :
  cs_status s = Provisioning → cs_provider_session_id s = None → shape c = shape s → state_ok w c →
  adopt p now c = Ok s1 → change_ok w c s1.
Proof.
  intros Hst Hnone Hshape [S1 S2 S3 S4 S5 S6] [= <-].
  apply shape_fields in Hshape as (_ & Hst' & Hv & _). rewrite Hst in Hst'. rewrite Hnone in Hv.
  split; simpl; [done..|by rewrite Hst'|by rewrite Hv|done|done|]. split; simpl; rewrite ?Hst'; try done; [|by intros []|by intros ? []].
  intros Hr. split; [done|by apply S2].
Qed.

Lemma provision_failed_safe s e w : good w → s ∈ past w → safe any (provision_failed manager s e) w.
Proof.
  intros Hg Hs. unfold provision_failed. eapply safe_bind; [done|apply failure_safe|]. intros f w' Hf Hg' _.
  eapply safe_try; [done|by apply fail_session_safe, (f_past w w')| |done]. intros _ w1 Hf1 Hg1 _.
  eapply safe_bind; [done|apply settle_lineage_safe|]. by go.
Qed.

Lemma provision_made_safe s p w :
  s ∈ past w → cs_status s = Provisioning → cs_provider_session_id s = None → safe any (provision_made s p) w.
Proof.
  intros Hs Hst Hnone. unfold provision_made.
  apply safe_fenced; [done|intros; by eapply adopt_ok|..];
    intros; (eapply safe_bind; [done|apply settle_lineage_safe|]; by go).
Qed.

Lemma provision_environment_safe s w :
  good w → s ∈ past w → cs_status s = Provisioning → cs_provider_session_id s = None →
  safe any (provision_environment manager s) w.
Proof.
  intros Hg Hs Hst Hnone. unfold provision_environment, try_. apply safe_quiet; [done|]. intros [stored|] w' Hf Hg'; [|done].
  apply safe_ret_bind. destruct (transport_bundle _) as [bundle|]; [|done]. apply (f_past w w' Hf) in Hs.
  set (rest := λ outcome, match outcome with Ok p => provision_made s p | Err e => provision_failed manager s e end).
  assert (∀ q : Query (Result ProvisionedSession ProviderError),
    (q = EnvProvision (provision_request s stored bundle) ∨
     ∃ checkpoint, q = EnvProvisionFrom (provision_request s stored bundle) checkpoint) → safe any (ask q ≫= rest) w') as Hask.
  { intros q Hq. apply safe_ask.
    - intros r w1 Hf1 Hg1. destruct r as [p|]; [|by destruct Hq as [->|[? ->]]].
      pose proof (provision_made_owes s p w1) as Ho. destruct Hq as [->|[? ->]]; exact Ho.
    - intros r w1 Hf1 Hg1 _. destruct (answered_ok q r w1 Hg1) as [Hg2 Hf2].
      assert (s ∈ past (answered q r w1)) as Hs2 by (apply (f_past w1); [done|]; by apply (f_past w')).
      destruct r as [p|e]; [by apply provision_made_safe|by apply provision_failed_safe]. }
  unfold ask_environment. destruct (cs_lineage s) as [l|]; [|apply Hask; by left].
  case_bool_decide; [|apply Hask; right; eauto]. apply safe_ret_bind. by apply provision_failed_safe.
Qed.

Lemma push_execution_ok w e s now c s1 :
  cs_status s = Provisioning → exe_status e = JobQueued → shape c = shape s → state_ok w c →
  push_execution e now c = Ok s1 → change_ok w c s1.
Proof.
  intros Hst Hq Hshape [S1 S2 S3 S4 S5 S6] [= <-]. apply shape_fields in Hshape as (_ & Hst' & _). rewrite Hst in Hst'.
  split; simpl; [done..|by rewrite Hst'|done|by apply prefix_app_r|done|].
  split; simpl; rewrite ?Hst'; try done; [by intros []| |by intros ? []].
  intros e' [He|He]%elem_of_app Hend; [by apply S5|]. apply list_elem_of_singleton in He as ->. by rewrite Hq in Hend.
Qed.

Lemma submit_readiness_safe s e w :
  good w → s ∈ past w → cs_status s = Provisioning → exe_status e = JobQueued →
  safe any (submit_readiness manager s e) w.
Proof.
  intros Hg Hs Hst Hq. unfold submit_readiness. apply safe_free; [done|]. intros known w1 Hf1 Hg1.
  apply (f_past w w1 Hf1) in Hs. destruct (is_ok known); [done|].
  eapply safe_try; [done|apply environment_safe| |done]. intros env w2 Hf2 Hg2 _. apply (f_past w1 w2 Hf2) in Hs.
  assert (∀ error w', future w2 w' → good w' →
    safe any (f ← failure manager PhaseProvisioning error; _ ←? fail_session s f; mret (Ok false)) w') as Hfail.
  { intros error w' Hf Hg'. eapply safe_bind; [done|apply failure_safe|]. intros f w0 Hf0 Hg0 _.
    eapply safe_try; [done|apply fail_session_safe; apply (f_past w' w0 Hf0); by apply (f_past w2 w' Hf)|by go|done]. }
  apply safe_free; [done|]. intros [request|error] w3 Hf3 Hg3; [|by apply Hfail].
  apply (f_past w2 w3 Hf3) in Hs as Hs3.
  eapply (safe_try _ _ any); [done| | |done].
  - case_match; [done|]. apply (safe_fenced s _ _ mret); [done| |by go..]. intros; by eapply push_execution_ok.
  - intros _ w4 Hf4 Hg4 _. eapply safe_bind; [done|apply accept_execution_safe|]. intros [status|error] w5 Hf5 Hg5 _; [done|].
    apply Hfail; [by do 2 (etrans; [done|])|done].
Qed.

Lemma set_ready_ok w s now c s1 :
  cs_status s = Provisioning → is_Some (cs_provider_session_id s) → jobs w !! cs_job_id s = Some JobSucceeded →
  shape c = shape s → state_ok w c → set_ready now c = Ok s1 → change_ok w c s1.
Proof.
  intros Hst Henv Hjob Hshape [S1 S2 S3 S4 S5 S6] [= <-]. apply shape_fields in Hshape as (Ht & Hst' & Hv & _). rewrite Hst in Hst'.
  split; simpl; [done..|by rewrite Hst'|done|done|done|]. split; simpl; try done; [|by intros []|by intros ? []].
  intros _. by rewrite Hv, Ht.
Qed.

Lemma provision_readiness_safe s w :
  good w → s ∈ past w → cs_status s = Provisioning → is_Some (cs_provider_session_id s) →
  safe any (provision_readiness manager s) w.
Proof.
  intros Hg Hs Hst [env Henv]. unfold provision_readiness. apply safe_now. intros at_ w1 Hf1 Hg1 _.
  apply (f_past w w1 Hf1) in Hs. eapply safe_try; [done|by apply submit_readiness_safe| |done].
  intros submitted w2 Hf2 Hg2 _. destruct submitted; [|done]. cbn [negb]. apply (f_past w1 w2 Hf2) in Hs.
  unfold try_ at 1. apply safe_ask; [done|]. intros r w3 Hf3 Hg3 Ha. destruct (answered_ok (JobWait (cs_job_id s) (cs_owner s)) r w3 Hg3) as [Hg4 Hf4].
  destruct r as [job|]; [|done]. destruct Ha as (Hid & Hjob & Hend). simpl in Hg4, Hf4. simpl answered. apply (f_past w2 w3 Hf3) in Hs.
  unfold try_ at 1. apply safe_read_current; [|done]. intros current w5 Hf5 Hg5 Hcur.
  destruct (g_key w5 Hg5 _ current Hcur) as (Hid5 & _ & Hp5 & _).
  assert (leads s current) as [Ht _ _ Hv _].
  { destruct (reads_current w5 s Hg5) as (c & Hc & Hlead); [by apply (f_past w3 w5 Hf5)|]. congruence. }
  unfold try_ at 1. apply safe_settle.
  { intros w' Hf' Hterm. apply (accounted_future w5); [done|]. apply (accounted_future w3); [done|].
    left. exists (job_status job). rewrite Hid. auto. }
  intros settled_ w6 Hf6 Hg6. destruct settled_ as [_|]; [|done]. apply (f_past w5 w6 Hf6) in Hp5 as Hp6.
  case_bool_decide as Hprov; cbn [negb]; [|done]. case_bool_decide as Hok.
  - unfold try_. rewrite <-Hid5. apply safe_fenced; [done| |by go..]. intros w7 c s1 Hf7 Hg7 Hshape Hstate Hl Hs1.
    eapply (set_ready_ok w7 current); [done|eauto| |done..]. rewrite Ht.
    assert (future w3 w7) as Hf37 by (by do 2 (etrans; [done|])).
    destruct (f_jobs w3 w7 Hf37 _ _ Hjob) as (st & Hst7 & Heq). rewrite Hok in Heq. by rewrite (Heq eq_refl) in Hst7.
  - apply safe_now. intros now w7 Hf7 Hg7 _. unfold try_. apply safe_read; [|done].
    intros s' w8 Hf8 Hg8 Hp8 _. by apply fail_session_safe.
Qed.

(** ** Teardown and steps *)

Lemma teardown_failed_safe s phase event_type e w : good w → s ∈ past w → safe any (teardown_failed manager s phase event_type e) w.
Proof.
  intros Hg Hs. unfold teardown_failed. eapply safe_bind; [done|apply failure_safe|]. intros f w' Hf Hg' _.
  eapply safe_try; [done|by apply record_failure_safe, (f_past w w')|by go|done].
Qed.

(** Once the executions that were active have ended, all have. *)
Lemma terminated s w : good w → s ∈ past w → all_accounted (active_executions s) (Ok tt) w →
  ∀ e, e ∈ cs_executions s → accounted w (exe_job_id e).
Proof.
  intros Hg Hs Hall e He. destruct (JobStatus.is_terminal (exe_status e)) eqn:Hend.
  - by apply (st_settled w s (g_state w Hg s Hs)).
  - apply Hall; [done|]. unfold active_executions. apply list_elem_of_In, filter_In. rewrite <-list_elem_of_In.
    unfold is_active_execution. by rewrite Hend.
Qed.

Lemma quiet_shape w s c :
  shape c = shape s → (∀ e, e ∈ cs_executions s → accounted w (exe_job_id e)) →
  ∀ e, e ∈ cs_executions c → accounted w (exe_job_id e).
Proof. intros Hshape Hq e He. destruct (shape_executions c s e Hshape He) as (e' & He' & <-). by apply Hq. Qed.

Lemma set_torn_down_ok w s now c s1 :
  cs_status s = Destroying ∨ cs_status s = Expiring →
  (∀ e, e ∈ cs_executions s → accounted w (exe_job_id e)) →
  (∀ environment, cs_provider_session_id s = Some environment → NoteDestroy environment true ∈ notes w) →
  shape c = shape s → state_ok w c → set_torn_down (bool_decide (cs_status s = Expiring)) now c = Ok s1 → change_ok w c s1.
Proof.
  intros Hst Hq Hgone Hshape Hok [= <-]. pose proof (shape_fields _ _ Hshape) as (_ & Hst' & Hv & _).
  apply change_status; try done; simpl.
  - split; simpl.
    + by case_bool_decide.
    + case_bool_decide as Hx; [|by intros []]. intros _. apply (st_expiring w c Hok). left. by rewrite Hst'.
    + intros e _. by apply (quiet_shape w s c).
    + intros environment _. rewrite Hv. apply Hgone.
  - rewrite Hst'. destruct Hst as [->| ->]; done.
Qed.

Lemma teardown_safe s w :
  good w → s ∈ past w → cs_status s = Destroying ∨ cs_status s = Expiring → safe any (teardown manager s) w.
Proof.
  intros Hg Hs Hst. unfold teardown. eapply (safe_bind _ _ any); [done|case_match; [|done]; by apply (safe_free _ mret)|].
  intros allowed w1 Hf1 Hg1 _. apply (f_past w w1 Hf1) in Hs. destruct allowed as [_|e].
  2: { apply safe_now. intros now w2 Hf2 Hg2 _.
       eapply safe_try; [done|by apply record_failure_safe, (f_past w1 w2)|by go|done]. }
  eapply safe_bind; [done|by apply terminate_safe|]. intros ended w2 Hf2 Hg2 Hended. apply (f_past w1 w2 Hf2) in Hs.
  destruct ended as [[]|e]; [|by apply teardown_failed_safe]. pose proof (terminated s w2 Hg2 Hs Hended) as Hacc.
  eapply (safe_bind _ _ (λ r w', r = Ok tt → ∀ environment, cs_provider_session_id s = Some environment →
    NoteDestroy environment true ∈ notes w')); [done| |].
  { destruct (cs_provider_session_id s) as [environment|]; [|done]. apply (safe_ask _ mret); [done|].
    intros r w' Hf Hg' _. apply safe_ret. intros -> environment' [= <-]. by left. }
  intros destroyed w3 Hf3 Hg3 Hgone. apply (f_past w2 w3 Hf3) in Hs.
  destruct destroyed as [[]|e]; [|by apply teardown_failed_safe].
  unfold try_. apply safe_fenced; [done| |by go..]. intros w4 c s1 Hf4 Hg4 Hshape Hok Hl Hs1.
  eapply (set_torn_down_ok w4 s); [done| | |done..].
  - intros e He. apply (accounted_future w2); [by etrans|by apply Hacc].
  - intros environment He. apply (f_notes w3 w4 Hf4). by apply Hgone.
Qed.

Lemma stopped_ok w s now c s1 :
  cs_status s = Stopping → (∀ e, e ∈ cs_executions s → accounted w (exe_job_id e)) →
  shape c = shape s → state_ok w c → to_status Stopped now c = Ok s1 → change_ok w c s1.
Proof.
  intros Hst Hq Hshape Hok [= <-]. pose proof (shape_fields _ _ Hshape) as (_ & Hst' & _).
  apply change_status; try done; simpl; [|by rewrite Hst', Hst].
  split; simpl; [|by intros []|intros e _; by apply (quiet_shape w s c)|by intros ? []].
  intros _. apply (st_ready w c Hok). by rewrite Hst', Hst.
Qed.

Lemma stop_step_safe s w : good w → s ∈ past w → cs_status s = Stopping → safe any (stop_step manager s) w.
Proof.
  intros Hg Hs Hst. unfold stop_step. eapply safe_bind; [done|by apply terminate_safe|].
  intros ended w1 Hf1 Hg1 Hended. apply (f_past w w1 Hf1) in Hs. destruct ended as [[]|e]; [|by apply teardown_failed_safe].
  pose proof (terminated s w1 Hg1 Hs Hended) as Hacc.
  eapply (safe_bind _ _ any); [done|repeat case_match; try done; by apply (safe_free _ mret)|].
  intros stopped w2 Hf2 Hg2 _. apply (f_past w1 w2 Hf2) in Hs. destruct stopped as [_|e]; [|by apply teardown_failed_safe].
  unfold try_. apply safe_fenced; [done| |by go..]. intros w3 c s1 Hf3 Hg3 Hshape Hok Hl Hs1.
  eapply (stopped_ok w3 s); [done| |done..]. intros e He. apply (accounted_future w1); [by etrans|by apply Hacc].
Qed.

Lemma resumed_ok w s now c s1 :
  cs_status s = Resuming → shape c = shape s → state_ok w c → set_resumed now c = Ok s1 → change_ok w c s1.
Proof.
  intros Hst Hshape Hok [= <-]. pose proof (shape_fields _ _ Hshape) as (_ & Hst' & _).
  apply change_status; try done; simpl; [|by rewrite Hst', Hst].
  split; simpl; [|by intros []|done|by intros ? []]. intros _. apply (st_ready w c Hok). by rewrite Hst', Hst.
Qed.

Lemma resume_failed_ok w f s now c s1 :
  cs_status s = Resuming → shape c = shape s → state_ok w c → set_resume_failed f now c = Ok s1 → change_ok w c s1.
Proof.
  intros Hst Hshape Hok [= <-]. pose proof (shape_fields _ _ Hshape) as (_ & Hst' & _). rewrite Hst in Hst'.
  apply change_status; try done; simpl; [|by rewrite Hst'].
  split; simpl; [|by intros []| |by intros ? []].
  - intros _. apply (st_ready w c Hok). by rewrite Hst'.
  - intros e _. apply (st_quiet w c Hok). by rewrite Hst'.
Qed.

Lemma resume_step_safe s w : good w → s ∈ past w → cs_status s = Resuming → safe any (resume_step manager s) w.
Proof.
  intros Hg Hs Hst. unfold resume_step. case_match; [|done]. apply safe_free; [done|].
  intros [_|e] w1 Hf1 Hg1; apply (f_past w w1 Hf1) in Hs.
  - unfold try_. apply safe_fenced; [done|intros; by eapply resumed_ok|by go..].
  - eapply safe_bind; [done|apply failure_safe|]. intros f w2 Hf2 Hg2 _. apply (f_past w1 w2 Hf2) in Hs.
    unfold try_. apply safe_fenced; [done|intros; by eapply resume_failed_ok|by go..].
Qed.

Lemma provisioning_ok w s now c s1 :
  cs_status s = Requested → shape c = shape s → state_ok w c → to_status Provisioning now c = Ok s1 → change_ok w c s1.
Proof.
  intros Hst Hshape Hok [= <-]. pose proof (shape_fields _ _ Hshape) as (_ & Hst' & _).
  apply change_status; try done; simpl; [by apply status_ok_plain; [|left|]|by rewrite Hst', Hst].
Qed.

Lemma step_session_safe id w : good w → safe any (step_session manager id) w.
Proof.
  intros Hg. unfold step_session, try_ at 1. apply safe_read; [|done]. intros s w1 Hf1 Hg1 Hs Hid.
  destruct (cs_status s) eqn:Hst; try (apply safe_ret; done).
  - unfold try_. rewrite <-Hid. apply safe_fenced; [done|intros; by eapply provisioning_ok|by go..].
  - eapply safe_try; [done| |by go|done]. unfold provision. destruct (cs_provider_session_id s) eqn:Henv.
    + apply provision_readiness_safe; [done..|by rewrite Henv].
    + by apply provision_environment_safe.
  - eapply safe_bind; [done|apply safe_each; [done|]|by go]. intros e w' _ _ _. apply watch_safe.
  - eapply safe_try; [done|by apply stop_step_safe|by go|done].
  - by apply resume_step_safe.
  - eapply safe_try; [done|apply teardown_safe; auto|by go|done].
  - eapply safe_try; [done|apply teardown_safe; auto|by go|done].
Qed.

(** ** Creation and forks *)

Definition is_found (r : option ComputeSession) (w : World) : Prop := ∀ s, r = Some s → s ∈ past w.

Lemma find_reference_safe owner reference w : safe is_found (find_reference owner reference) w.
Proof.
  unfold find_reference. apply safe_free; [done|]. intros names w1 _ _. generalize (session_names names). clear names.
  intros names. revert w1. induction names as [|id names IH]; intros w1; cbn [find_reference_from]; [done|].
  apply safe_read; [|intros; apply IH]. intros s w2 Hf Hg Hs _. destruct (names_reference owner reference s); [|apply IH].
  apply safe_ret. by intros s' [= <-].
Qed.

Lemma new_session_ok create owner lineage bundle admission id job execution ttl now expires w :
  state_ok w (new_session manager create owner lineage bundle admission id job execution ttl now expires).
Proof.
  split; simpl; [done|by intros [? ?]|by intros []|done|by intros ? ?%not_elem_of_nil|by intros ? []].
Qed.

Definition is_created (r : Result (ComputeSession * bool) ProviderError) (w : World) : Prop :=
  ∀ s fresh, r = Ok (s, fresh) → s ∈ past w.

Lemma create_admitted_safe create owner lineage bundle w :
  safe is_created (create_admitted manager create owner lineage bundle) w.
Proof.
  unfold create_admitted. case_bool_decide; [done|]. unfold try_ at 1. apply safe_ret_bind.
  destruct (admitted_request _ _ _) as [request|]; [|done]. unfold try_ at 1. apply safe_free; [done|].
  intros [admission|] w1 _ _; [|done]. destruct (is_admitted _); [|done]. cbn [negb]. apply safe_now. intros now w2 _ _ _.
  apply safe_ask; [done|]. intros id w3 _ Hg3 Hid. apply safe_free; [done|]. intros job w4 _ _.
  apply safe_free; [done|]. intros execution w5 _ _. case_match; [|done]. unfold try_. apply safe_publish; [done| | | |done].
  - intros w'. apply new_session_ok.
  - intros w' Hf Hg. apply (owes_act (InsertLive id)). intros w6 _ _. left. simpl. set_solver.
  - intros s' fresh w6 _ _ Hp. assert (is_created (Ok (s', fresh)) w6) as Hc by (by intros ? ? [= <- _]).
    destruct fresh; cbn [snd]; [|done]. apply safe_quiet; [done|]. intros _ w7 Hf7 Hg7. apply safe_ret.
    intros ? ? [= <- _]. by apply (f_past w6 w7 Hf7).
Qed.

Lemma create_record_safe create owner lineage w : good w → safe is_created (create_record manager create owner lineage) w.
Proof.
  intros Hg. unfold create_record, try_. apply safe_ret_bind. destruct (check_create _ _) as [bundle|]; [|done].
  eapply (safe_bind _ _ is_found); [done|case_match; [apply find_reference_safe|done]|].
  intros [s|] w1 Hf1 Hg1 Hs; [|apply create_admitted_safe]. apply safe_ret. intros s' fresh [= <- _]. by apply Hs.
Qed.

Lemma create_safe request owner w : good w → safe any (create manager request owner) w.
Proof.
  intros Hg. unfold create. eapply safe_try; [done|by apply create_record_safe| |done].
  intros created w1 Hf1 Hg1 _. case_match; [|done]. eapply safe_bind; [done|apply drive_safe|by go].
Qed.

Lemma find_references_safe owner references w : good w → safe any (find_references owner references) w.
Proof.
  revert w. induction references as [|reference references IH]; intros w Hg; cbn [find_references]; [done|].
  eapply safe_bind; [done|apply find_reference_safe|]. intros found w1 Hf1 Hg1 _.
  eapply safe_bind; [done|by apply IH|by go].
Qed.

Lemma forked_before_safe source owner fork w : good w → safe any (forked_before source owner fork) w.
Proof.
  intros Hg. unfold forked_before. repeat case_match; try done.
  eapply safe_bind; [done|by apply find_references_safe|by go].
Qed.

Lemma create_children_safe stored owner lineage references w :
  good w → safe any (create_children manager stored owner lineage references) w.
Proof.
  revert w. induction references as [|reference references IH]; intros w Hg; cbn [create_children]; [done|].
  eapply safe_bind; [done|by apply create_record_safe|]. intros [[child fresh]|] w1 Hf1 Hg1 _; [|done].
  eapply safe_bind; [done|by apply IH|by go].
Qed.

Lemma fail_child_safe e child w : safe any (fail_child manager e child) w.
Proof.
  unfold fail_child. apply safe_read; [|intros; by apply (safe_quiet _ mret)]. intros s w1 Hf1 Hg1 Hs _.
  eapply safe_bind; [done|apply failure_safe|]. intros f w2 Hf2 Hg2 _.
  eapply safe_bind; [done|by apply fail_session_safe, (f_past w1 w2)|]. intros _ w3 _ _ _. by apply (safe_quiet _ mret).
Qed.

Lemma spawn_children_safe children w : safe any (spawn_children children) w.
Proof.
  revert w. induction children as [|child children IH]; intros w; cbn [spawn_children]; [done|].
  apply safe_spawn. intros handle w1 Hf1 Hg1. eapply safe_bind; [done|apply IH|by go].
Qed.

Lemma read_children_safe children w : good w → safe any (read_children children) w.
Proof.
  revert w. induction children as [|child children IH]; intros w Hg; cbn [read_children]; [done|].
  apply safe_quiet; [done|]. intros session w1 Hf1 Hg1. eapply safe_bind; [done|by apply IH|by go].
Qed.

Lemma fork_source_safe source owner environment fork w :
  good w → safe any (fork_source manager source owner environment fork) w.
Proof.
  intros Hg. unfold fork_source, try_. apply safe_quiet; [done|]. intros [stored|] w1 Hf1 Hg1; [|done].
  apply safe_free; [done|]. intros checkpoint w2 Hf2 Hg2. apply safe_now. intros at_ w3 Hf3 Hg3 _.
  eapply safe_bind; [done|by apply create_children_safe|]. intros [children refused] w4 Hf4 Hg4 _.
  destruct children as [|child children]; [by destruct refused|].
  apply safe_free; [done|]. intros [taken|e] w5 Hf5 Hg5.
  - eapply safe_bind; [done|apply safe_each; [done|]|].
    { intros id w' _ Hf' Hg'. apply safe_unfenced; [intros; by eapply set_evidence_ok|by go..]. }
    intros _ w6 Hf6 Hg6 _. eapply safe_bind; [done|apply spawn_children_safe|]. intros handles w7 Hf7 Hg7 _.
    eapply safe_bind; [done|by apply safe_each; [|by intros]|]. intros _ w8 Hf8 Hg8 _.
    eapply safe_bind; [done|apply settle_checkpoint_safe|]. intros _ w9 Hf9 Hg9 _.
    eapply safe_bind; [done|by apply read_children_safe|by go].
  - eapply safe_bind; [done|apply safe_each; [done|intros; apply fail_child_safe]|]. intros _ w6 Hf6 Hg6 _. by go.
Qed.

Lemma fork_safe id owner fork w : good w → safe any (fork_session manager id owner fork) w.
Proof.
  intros Hg. unfold fork_session. eapply safe_try; [done|by apply owned_safe| |done]. intros source w1 Hf1 Hg1 _.
  case_match; [done|]. eapply safe_try; [done|by apply forked_before_safe| |done].
  intros [repeated|] w2 Hf2 Hg2 _; [done|]. repeat case_match; try done. by apply fork_source_safe.
Qed.

(** ** Operations *)

Lemma list_safe owner w : safe any (list_sessions owner) w.
Proof.
  unfold list_sessions. apply safe_free; [done|]. intros names w1 Hf1 Hg1.
  eapply safe_bind; [done|by apply read_children_safe|by go].
Qed.

Lemma inspect_safe id owner w : good w → safe any (inspect_session id owner) w.
Proof.
  intros Hg. unfold inspect_session. eapply safe_try; [done|by apply owned_safe| |done]. intros s w1 Hf1 Hg1 Hs.
  destruct (Hs s eq_refl) as [Hp _]. eapply safe_bind; [done|apply lost_safe|]. intros gone w2 Hf2 Hg2 _.
  case_match; [|done]. apply safe_now. intros now w3 Hf3 Hg3 _.
  eapply safe_bind; [done|apply fail_session_safe; apply (f_past w1 w3); [by etrans|done]|].
  intros _ w4 Hf4 Hg4 _. eapply safe_weaken; [done| |by apply owned_safe]. done.
Qed.

Lemma events_safe id owner w : good w → safe any (session_events id owner) w.
Proof.
  intros Hg. unfold session_events. eapply safe_try; [done|by apply owned_safe| |done]. intros s w1 Hf1 Hg1 _.
  by apply (safe_quiet _ mret).
Qed.

Lemma connect_safe id owner w : good w → safe any (connect manager id owner) w.
Proof.
  intros Hg. unfold connect. eapply safe_try; [done|by apply usable_safe| |done]. intros s w1 Hf1 Hg1 _.
  eapply safe_try; [done|apply environment_safe| |done]. intros env w2 Hf2 Hg2 _. unfold try_. by go.
Qed.

Lemma request_exec_ok w e now c s1 :
  exe_status e = JobQueued → state_ok w c → request_exec e now c = Ok s1 → change_ok w c s1.
Proof.
  intros Hq [S1 S2 S3 S4 S5 S6]. unfold request_exec. destruct (SessionStatus.is_usable (cs_status c)) eqn:Hu; [|done].
  intros [= <-]. assert (was_ready (cs_status c) = true) as Hw by (by destruct (cs_status c)).
  split; simpl; [done..|by destruct (cs_status c)|done|by apply prefix_app_r|done|].
  split; simpl; [by intros _; apply S1|done|by intros []|done| |by intros ? []].
  intros e' [He|He]%elem_of_app Hend; [by apply S5|]. apply list_elem_of_singleton in He as ->. by rewrite Hq in Hend.
Qed.

Lemma submit_exec_safe s request e w :
  exe_status e = JobQueued → safe any (submit_exec manager s request e) w.
Proof.
  intros Hq. unfold submit_exec, try_. apply safe_unfenced; [intros; by eapply request_exec_ok| |by go].
  intros s' w1 Hf1 Hg1 _ _.
  eapply (safe_bind _ _ (λ r w', ∀ error, r = Err error → accounted w' (exe_job_id e))); [done| |].
  { unfold accept_execution, try_. apply safe_ask; [done|]. intros [submission|error] w2 Hf2 Hg2 _; apply safe_ret; [done|].
    intros error' [= <-]. right. exists (perror_kind error). by left. }
  intros [status|error] w2 Hf2 Hg2 Hacc.
  - eapply safe_bind; [done|apply watch_safe|by go].
  - apply safe_settle; [|by go]. intros w' Hf' _. apply (accounted_future w2); [done|by eapply Hacc].
Qed.

Lemma exec_safe id owner command w : good w → safe any (exec_session manager id owner command) w.
Proof.
  intros Hg. unfold exec_session, try_ at 1. apply safe_ret_bind. destruct (map_err _ _); [|done].
  eapply safe_try; [done|by apply usable_safe| |done]. intros s w1 Hf1 Hg1 _. do 3 early.
  apply safe_free; [done|]. intros job w2 Hf2 Hg2. apply safe_free; [done|]. intros execution w3 Hf3 Hg3.
  apply safe_now. intros now w4 Hf4 Hg4 _. eapply safe_try; [done|apply environment_safe| |done].
  intros env w5 Hf5 Hg5 _. apply safe_free; [done|]. intros [request|] w6 Hf6 Hg6; [|done].
  eapply (safe_try _ _ any); [done| |intros; by apply submit_exec_safe|done].
  case_match; [done|]. unfold try_. by go.
Qed.

Lemma request_stop_ok w now c s1 : state_ok w c → request_stop now c = Ok s1 → change_ok w c s1.
Proof.
  intros Hok. unfold request_stop. destruct (SessionStatus.is_usable (cs_status c)) eqn:Hu; [|done]. intros [= <-].
  apply change_status; try done; simpl; [|by destruct (cs_status c)].
  split; simpl; [|by intros []|done|by intros ? []]. intros _. apply (st_ready w c Hok). by destruct (cs_status c).
Qed.

Lemma advance_safe id w : safe any (advance_owned id) w.
Proof. done. Qed.

Lemma stop_safe id owner w : good w → safe any (stop_session id owner) w.
Proof.
  intros Hg. unfold stop_session. eapply safe_try; [done|by apply owned_safe| |done]. intros s w1 Hf1 Hg1 _.
  eapply (safe_try _ _ any); [done| |intros; apply advance_safe|done].
  case_match; try done; (apply (safe_unfenced _ _ _ mret); [intros; by eapply request_stop_ok|by go..]).
Qed.

Lemma request_resume_ok w now c s1 : state_ok w c → request_resume now c = Ok s1 → change_ok w c s1.
Proof.
  intros Hok. unfold request_resume. case_bool_decide as Hs; [|done]. intros [= <-].
  apply change_status; try done; simpl; [|by rewrite Hs].
  split; simpl; [|by intros []| |by intros ? []].
  - intros _. apply (st_ready w c Hok). by rewrite Hs.
  - intros e _. apply (st_quiet w c Hok). by rewrite Hs.
Qed.

Lemma resume_safe id owner w : good w → safe any (resume_session id owner) w.
Proof.
  intros Hg. unfold resume_session. eapply safe_try; [done|by apply owned_safe| |done]. intros s w1 Hf1 Hg1 _.
  case_match; [done|]. eapply (safe_try _ _ any); [done| | |done].
  - case_match; try done. apply (safe_unfenced _ _ _ mret); [intros; by eapply request_resume_ok|by go..].
  - intros _ w2 Hf2 Hg2 _. eapply safe_try; [done|apply advance_safe| |done]. by go.
Qed.

Lemma destroying_ok w now c s1 :
  state_ok w c → SessionStatus.is_terminal (cs_status c) = false → to_status Destroying now c = Ok s1 → change_ok w c s1.
Proof.
  intros Hok Hl [= <-]. apply change_status; try done; [by apply status_ok_plain; [|left|]|apply edge_any; [done|by right]].
Qed.

Lemma destroy_safe id owner w : good w → safe any (destroy_session id owner) w.
Proof.
  intros Hg. unfold destroy_session. eapply safe_try; [done|by apply owned_safe| |done]. intros s w1 Hf1 Hg1 _.
  case_match; [done|]. eapply (safe_try _ _ any); [done| |intros; apply advance_safe|done].
  case_match; try done; (apply (safe_unfenced _ _ _ mret); [intros; by eapply destroying_ok|by go..]).
Qed.

Lemma request_claim_ok w c s1 :
  state_ok w c → SessionStatus.is_terminal (cs_status c) = false → request_claim (clock w) c = Ok s1 → change_ok w c s1.
Proof.
  intros [S1 S2 S3 S4 S5 S6] Hl. unfold request_claim. destruct (is_expired_at c (clock w)) eqn:He; [done|]. intros [= <-].
  assert (cs_status c ≠ Expiring ∧ cs_status c ≠ Expired) as [Hne1 Hne2].
  { split; intros Hs; (destruct S3 as (Ho & t & Ht & Hle); [by auto|]); unfold is_expired_at in He;
      rewrite Ho, Ht in He; simpl in He; apply Z.leb_gt in He; lia. }
  split; simpl; [done..|by apply edge_same|done|done|done|]. split; simpl; try done. by intros [].
Qed.

Lemma claim_safe id owner w : good w → safe any (claim_session manager id owner) w.
Proof.
  intros Hg. unfold claim_session. eapply safe_try; [done|by apply owned_safe| |done]. intros s w1 Hf1 Hg1 _.
  do 3 early. apply safe_now. intros now w2 Hf2 Hg2 _. early. destruct (cs_provider_session_id s); [|done].
  apply safe_free; [done|]. intros [_|e] w3 Hf3 Hg3.
  - apply (safe_unfenced _ _ _ mret); [intros; by eapply request_claim_ok|by go..].
  - eapply safe_bind; [done|apply failure_safe|]. intros f w4 Hf4 Hg4 _.
    apply safe_unfenced; [intros; by eapply set_recorded_ok|by go..].
Qed.

Lemma forget_safe {A} (p : Prog A) post w : good w → safe post p w → safe any (forget p) w.
Proof. intros Hg Hp. unfold forget. eapply safe_bind; [done..|by go]. Qed.

Lemma operation_safe owner op w : good w → safe any (operation_program manager owner op) w.
Proof.
  intros Hg. destruct op; cbn [operation_program]; (eapply (forget_safe _ any); [done|]).
  - by apply create_safe. - by apply fork_safe. - apply list_safe. - by apply inspect_safe. - by apply events_safe.
  - by apply connect_safe. - by apply exec_safe. - by apply stop_safe. - by apply resume_safe. - by apply destroy_safe.
  - by apply claim_safe.
Qed.

(** ** Tasks *)

Lemma watch_execution_safe id job w : safe any (watch_execution id job) w.
Proof.
  unfold watch_execution. apply safe_read; [|intros; by apply (safe_quiet _ mret)]. intros s w1 Hf1 Hg1 _ _.
  apply safe_ask; [done|]. intros r w2 Hf2 Hg2 Ha. destruct (answered_ok (JobWait job (cs_owner s)) r w2 Hg2) as [Hg3 Hf3].
  apply safe_settle; [|intros; by apply (safe_quiet _ mret)]. intros w' Hf' _.
  apply (accounted_future (answered (JobWait job (cs_owner s)) r w2)); [done|]. destruct r as [j|e]; simpl.
  - destruct Ha as (Hid & Hj & Hend). left. exists (job_status j). auto.
  - right. exists (perror_kind e). by left.
Qed.

Lemma settle_unaccepted_safe s e w : safe any (settle_unaccepted s e) w.
Proof.
  unfold settle_unaccepted. early. apply safe_ask; [done|]. intros r w1 Hf1 Hg1 Ha. destruct r as [j|error]; [done|].
  cbn [is_ok]. apply safe_settle; [|by go]. intros w' Hf' _.
  apply (accounted_future (answered (JobStatusOf (exe_job_id e) (cs_owner s)) (Err error) w1)); [done|].
  right. exists (perror_kind error). by left.
Qed.

Lemma recover_safe id w : safe any (recover_session id) w.
Proof.
  unfold recover_session. apply safe_read; [|done]. intros s w1 Hf1 Hg1 _ _.
  eapply safe_bind; [done|apply safe_each; [done|intros; apply settle_unaccepted_safe]|]. intros _ w2 Hf2 Hg2 _.
  apply safe_read; [|done]. intros s' w3 Hf3 Hg3 Hp _. eapply safe_bind; [done|apply lost_safe|].
  intros gone w4 Hf4 Hg4 _. destruct gone; [|apply drive_safe]. apply safe_now. intros now w5 Hf5 Hg5 _.
  eapply safe_bind; [done|apply fail_session_safe; apply (f_past w3 w5); [by etrans|done]|by go].
Qed.

Lemma expiring_ok w s now now' c s1 :
  is_expired_at s now = true → (now ≤ clock w)%Z → cs_status s ≠ Destroying → shape c = shape s → state_ok w c →
  SessionStatus.is_terminal (cs_status c) = false → to_status Expiring now' c = Ok s1 → change_ok w c s1.
Proof.
  intros He Hnow Hne Hshape Hok Hl [= <-]. pose proof (shape_fields _ _ Hshape) as (_ & Hst & _ & Ho & _ & Hx & _).
  apply change_status; try done; simpl; [|rewrite <-Hst in Hne; by destruct (cs_status c)].
  split; simpl; [done| |done|by intros ? []]. intros _. unfold is_expired_at in He. apply andb_true_iff in He as [He1 He2].
  apply bool_decide_eq_true in He1. rewrite Ho, Hx. split; [done|]. destruct (cs_expires_at s) as [t|]; [|done].
  exists t. split; [done|]. apply Z.leb_le in He2. lia.
Qed.

(** [live] forgets a session that has ended. *)
Lemma safe_remove_live {A} id s (k : unit → Prog A) post w :
  good w → s ∈ past w → cs_session_id s = id → SessionStatus.is_terminal (cs_status s) = true →
  (∀ w', future w w' → good w' → safe post (k tt) w') → safe post (act (RemoveLive id) ≫= k) w.
Proof.
  intros Hg Hs Hid Hend Hk w' Hf Hg'. destruct (reads_current w' s Hg') as (c & Hc & Hlead); [by apply (f_past w w' Hf)|].
  rewrite Hid in Hc. pose proof (shape_fields _ _ (le_ended _ _ Hlead Hend)) as (_ & Hst & _).
  assert (future w' (with_sets (live w' ∖ {[id]}) (driving w') (watching w') w')) as Hf'.
  { split; simpl; [done..|intros id' s' Hs'; by exists s'|]. intros id' Hid'.
    destruct (decide (id' = id)) as [->|]; [right; exists c; split; [done|by rewrite Hst]|left; set_solver]. }
  simpl. assert (good (with_sets (live w' ∖ {[id]}) (driving w') (watching w') w')) as Hg'' by (by eapply good_store).
  split_and!; [done..|]. apply Hk; [by etrans|done].
Qed.

Lemma reconcile_session_safe now id w : (now ≤ clock w)%Z → safe any (reconcile_session now id) w.
Proof.
  intros Hnow. unfold reconcile_session. apply safe_read; [|done]. intros s w1 Hf1 Hg1 Hs Hid.
  destruct (SessionStatus.is_terminal (cs_status s)) eqn:Hend; [by apply (safe_remove_live id s mret)|].
  apply safe_quiet; [done|]. intros driven w2 Hf2 Hg2. early.
  destruct (is_expired_at s now && _) eqn:Hexp; [|case_match; try done; apply drive_safe].
  apply andb_true_iff in Hexp as [Hexp Hst]. rewrite negb_true_iff, orb_false_iff, !bool_decide_eq_false in Hst.
  rewrite <-Hid. apply safe_fenced; [by apply (f_past w1 w2 Hf2)|..].
  - intros w' c s1 Hf Hg Hshape Hok Hl Hs1. eapply (expiring_ok w' s now); try done; [|by apply Hst].
    pose proof (f_clock w w1 Hf1). pose proof (f_clock w1 w2 Hf2). pose proof (f_clock w2 w' Hf). lia.
  - intros; apply drive_safe.
  - by go.
Qed.

Lemma reconcile_safe w : safe any reconcile w.
Proof.
  unfold reconcile. apply safe_now. intros now w1 Hf1 Hg1 Hnow. apply safe_quiet; [done|]. intros ids w2 Hf2 Hg2.
  apply safe_each; [done|]. intros id w3 _ Hf3 Hg3. apply reconcile_session_safe.
  pose proof (f_clock w1 w2 Hf2). pose proof (f_clock w2 w3 Hf3). lia.
Qed.

Lemma task_safe task w : good w → safe any (task_program task) w.
Proof.
  intros Hg. destruct task; cbn [task_program].
  - intros r w' _ _. by apply (safe_quiet _ mret).
  - apply watch_execution_safe.
  - apply recover_safe.
  - eapply safe_bind; [done|apply reconcile_safe|by go].
Qed.

(** The loop of [advance_owned], once around. *)
Lemma advance_loop_safe {A} id (k : Result ComputeSession ProviderError → Prog A) post w :
  good w → (∀ r w', future w w' → good w' → safe post (k r) w') → safe post (advance_loop manager id k) w.
Proof.
  intros Hg Hk. unfold advance_loop. eapply safe_bind; [done|by apply step_session_safe|].
  intros r w1 Hf1 Hg1 _.
  assert (safe post (Advance id k) w1) as Hloop by (intros r' w' Hf' Hg'; apply Hk; [by etrans|done]).
  repeat case_match; try done; by apply Hk.
Qed.
End programs.
