(* ===== verification/SessionProperties.v ===== *)
(** What the session manager guarantees in every state it can reach: by any
    interleaving of its tasks, of callers and of the world around it, with crashes at
    any point. *)

From S2P Require Import Prelude Text Core Isolation Policy Admission Descriptor.
From S2P Require Import Matching Pool Placement Requests JobRecord JobStore Session SessionManager SessionSystem.
From S2P Require Import SessionSafety SessionPrograms.

Implicit Types s c : ComputeSession.

Section system.
Context `{!Bundles, !CarriedMetadata, !SessionBundles, !Chrono, !Sha256} (manager : SessionManager).
Context `{!CanonicalIdentity ApplicationMaterial}.

(** ** The invariant of the system *)

Record system_ok (sys : System) : Prop := {
  sys_world : good (world sys);
  sys_tasks t p : tasks sys !! t = Some p → safe any p (world sys) ∧ t < next_task sys;
  sys_made session environment : (session, environment) ∈ made (world sys) →
    kept_environment session environment (world sys) ∨
    ∃ t p, tasks sys !! t = Some p ∧ owes (kept_environment session environment) p (world sys);
  sys_listed id : is_Some (sessions (world sys) !! id) →
    listed id (world sys) ∨ ∃ t p, tasks sys !! t = Some p ∧ owes (listed id) p (world sys);
}.

(** A task goes on with another program in a later world: what it owed it still
    owes, and it owes what it was promised. *)
Lemma task_moves sys t p p' w' :
  system_ok sys → tasks sys !! t = Some p → future (world sys) w' → good w' → safe any p' w' →
  (∀ goal, stable goal → owes goal p (world sys) → goal w' ∨ owes goal p' w') →
  (∀ session environment, (session, environment) ∈ made w' →
    (session, environment) ∈ made (world sys) ∨ owes (kept_environment session environment) p' w') →
  (∀ id, is_Some (sessions w' !! id) → is_Some (sessions (world sys) !! id) ∨ owes (listed id) p' w') →
  system_ok (with_task t p' w' sys).
Proof.
  intros [Hg Ht Hm Hl] Hp Hf Hg' Hs Howes Hmade Hlisted.
  assert (∀ goal, stable goal →
    (goal (world sys) ∨ ∃ t p, tasks sys !! t = Some p ∧ owes goal p (world sys)) →
    goal w' ∨ ∃ t0 p0, <[t := p']> (tasks sys) !! t0 = Some p0 ∧ owes goal p0 w') as Hkeep.
  { intros goal Hst [Hgoal|(t0 & p0 & Hp0 & Ho)]; [left; by eapply Hst|]. destruct (decide (t0 = t)) as [->|Hne].
    - rewrite Hp in Hp0. injection Hp0 as <-. destruct (Howes goal Hst Ho) as [|Ho']; [by left|right].
      exists t, p'. by rewrite lookup_insert_eq.
    - right. exists t0, p0. rewrite lookup_insert_ne by done. split; [done|by eapply owes_future]. }
  split; simpl; [done|..].
  - intros t0 p0 [[<- <-]|[Hne Hp0]]%lookup_insert_Some; [split; [done|by apply (Ht t p)]|].
    destruct (Ht t0 p0 Hp0) as [Hsafe Hlt]. split; [|done]. by eapply safe_future.
  - intros session environment Hin. destruct (Hmade session environment Hin) as [Hold|Ho].
    + apply Hkeep; [apply kept_environment_stable|by apply Hm].
    + right. exists t, p'. by rewrite lookup_insert_eq.
  - intros id Hid. destruct (Hlisted id Hid) as [Hold|Ho]; [apply Hkeep; [apply listed_stable|by apply Hl]|].
    right. exists t, p'. by rewrite lookup_insert_eq.
Qed.

(** The sessions an action adds are the one it publishes. *)
Lemma handle_made {R} (e : Eff R) w : made (snd (handle e w)) = made w.
Proof.
  destruct e; simpl; try done.
  - unfold mutate. destruct (mutated _ _ _ _); simpl; [|done]. unfold forget_ended. by case_match.
  - unfold settle_execution. destruct (read_session _ _); [|done]. by destruct (settled _ _ _ _) as [[? ?]|].
  - unfold record_event. by destruct (read_session _ _).
  - unfold publish. by repeat case_match.
Qed.

Lemma handle_sessions {R A} (e : Eff R) (p : Prog A) w id :
  good w → good (snd (handle e w)) → promised_do e (fst (handle e w)) p (snd (handle e w)) →
  is_Some (sessions (snd (handle e w)) !! id) → is_Some (sessions w !! id) ∨ owes (listed id) p (snd (handle e w)).
Proof.
  intros Hg Hg' Hp [s Hs]. assert (requests (snd (handle e w)) = requests w → is_Some (sessions w !! id)) as Hold.
  { intros Heq. apply (g_requests w Hg). rewrite <-Heq. by apply (g_key _ Hg' id s Hs). }
  destruct e; try (left; apply Hold; done); simpl in *.
  - left. apply Hold. unfold mutate. destruct (mutated _ _ _ _); simpl; [|done]. unfold forget_ended. by case_match.
  - left. apply Hold. unfold settle_execution. destruct (read_session _ _); [|done]. by destruct (settled _ _ _ _) as [[? ?]|].
  - left. apply Hold. unfold record_event. by destruct (read_session _ _).
  - unfold publish in *. destruct (referenced _ _ _); [by left|]. case_bool_decide; [by left|]. simpl in *.
    apply lookup_insert_Some in Hs as [[<- <-]|[_ Hs]]; [by right|by left].
Qed.

Lemma answered_frame {R A} (q : Query R) r (p : Prog A) w :
  promised_ask q r p (answered q r w) →
  sessions (answered q r w) = sessions w ∧
  ∀ session environment, (session, environment) ∈ made (answered q r w) →
    (session, environment) ∈ made w ∨ owes (kept_environment session environment) p (answered q r w).
Proof.
  assert (∀ T job (r : Result T ProviderError), sessions (note_job job r w) = sessions w ∧ made (note_job job r w) = made w)
    as Hjob by (by intros T job []).
  assert (∀ id (r : Result ProvisionedSession ProviderError), match r with
      | Ok e => owes (kept_environment id (psn_provider_session_id e)) p (note_made id r w) | Err _ => True end →
    sessions (note_made id r w) = sessions w ∧ ∀ session environment, (session, environment) ∈ made (note_made id r w) →
      (session, environment) ∈ made w ∨ owes (kept_environment session environment) p (note_made id r w)) as Hmade.
  { intros id [e|e]; simpl; [|by auto]. intros Ho. split; [done|]. intros s v [[= -> ->]|Hin]%elem_of_cons; auto. }
  destruct q; simpl; intros Hp; try by auto.
  all: try (edestruct Hjob as [-> ->]; by auto).
  - repeat case_match; try by auto.
  - destruct r as [r|]; [|by auto]. edestruct Hjob as [-> ->]. by auto.
Qed.

(** A task is added: it owes nothing. *)
Lemma task_added sys p :
  system_ok sys → safe any p (world sys) →
  system_ok {| world := world sys; next_task := S (next_task sys); tasks := <[next_task sys := p]> (tasks sys) |}.
Proof.
  intros [Hg Ht Hm Hl] Hp.
  assert (∀ goal, (goal (world sys) ∨ ∃ t p, tasks sys !! t = Some p ∧ owes goal p (world sys)) →
    goal (world sys) ∨ ∃ t p0, <[next_task sys := p]> (tasks sys) !! t = Some p0 ∧ owes goal p0 (world sys)) as Hkeep.
  { intros goal [Hgoal|(t & p0 & Hp0 & Ho)]; [by left|right]. exists t, p0. split; [|done].
    destruct (Ht t p0 Hp0). rewrite lookup_insert_ne by lia. done. }
  split; simpl; [done| |intros session environment Hin; by apply Hkeep, Hm|intros id Hid; by apply Hkeep, Hl].
  intros t p0 [[<- <-]|[_ Hp0]]%lookup_insert_Some; [split; [done|lia]|]. destruct (Ht t p0 Hp0). split; [done|lia].
Qed.

Lemma task_ended sys t p :
  system_ok sys → tasks sys !! t = Some p → p = Ret tt ∨ p = Panic →
  system_ok {| world := world sys; tasks := delete t (tasks sys); next_task := next_task sys |}.
Proof.
  intros [Hg Ht Hm Hl] Hp Hend.
  assert (∀ goal, (goal (world sys) ∨ ∃ t p, tasks sys !! t = Some p ∧ owes goal p (world sys)) →
    goal (world sys) ∨ ∃ t0 p0, delete t (tasks sys) !! t0 = Some p0 ∧ owes goal p0 (world sys)) as Hkeep.
  { intros goal [Hgoal|(t0 & p0 & Hp0 & Ho)]; [by left|]. destruct (decide (t0 = t)) as [->|Hne].
    - left. rewrite Hp in Hp0. injection Hp0 as <-. by destruct Hend as [-> | ->]; destruct Ho.
    - right. exists t0, p0. by rewrite lookup_delete_ne. }
  split; simpl; [done| |intros session environment Hin; by apply Hkeep, Hm|intros id Hid; by apply Hkeep, Hl].
  intros t0 p0 [_ Hp0]%lookup_delete_Some. by apply Ht.
Qed.

Lemma world_moves sys w' :
  system_ok sys → future (world sys) w' → sessions w' = sessions (world sys) → requests w' = requests (world sys) →
  past w' = past (world sys) → made w' = made (world sys) →
  system_ok {| world := w'; tasks := tasks sys; next_task := next_task sys |}.
Proof.
  intros [Hg Ht Hm Hl] Hf Hs Hr Hp Hmd.
  assert (∀ goal, stable goal → (goal (world sys) ∨ ∃ t p, tasks sys !! t = Some p ∧ owes goal p (world sys)) →
    goal w' ∨ ∃ t p, tasks sys !! t = Some p ∧ owes goal p w') as Hkeep.
  { intros goal Hst [Hgoal|(t & p & Hp0 & Ho)]; [left; by eapply Hst|right]. exists t, p. split; [done|by eapply owes_future]. }
  split; cbn [world tasks next_task]; rewrite ?Hs, ?Hmd; [by eapply good_store|..].
  - intros t p Hp0. destruct (Ht t p Hp0). split; [by eapply safe_future|done].
  - intros session environment Hin. apply Hkeep; [apply kept_environment_stable|by apply Hm].
  - intros id Hid. apply Hkeep; [apply listed_stable|by apply Hl].
Qed.

(** What a task owes when it returns, panics, calls or spawns is already so. *)
Lemma owes_done {A} goal (p : Prog A) w :
  match p with Do _ _ | Ask _ _ => False | _ => True end → owes goal p w → goal w.
Proof. destruct p; simpl; intros Hp Ho; try done; by destruct Ho. Qed.

(** ** Crashes *)

Lemma good_same w w' :
  sessions w' = sessions w → requests w' = requests w → past w' = past w → notes w' = notes w → jobs w' = jobs w →
  clock w' = clock w → good w → good w'.
Proof.
  intros Hs Hr Hp Hn Hj Hc [K P S St R Q]. split; rewrite ?Hs, ?Hr, ?Hp; try done.
  intros s Hin. destruct (St s Hin) as [S1 S2 S3 S4 S5 S6]. split; unfold accounted; rewrite ?Hn, ?Hj, ?Hc; assumption.
Qed.

(** A crash within an action leaves what it stored, or nothing of it. *)
Lemma torn_store {R} (e : Eff R) w :
  torn e w = w ∨
  ∃ s, torn e w = store_session s w ∧ sessions (snd (handle e w)) = sessions (torn e w) ∧
    requests (snd (handle e w)) = requests (torn e w) ∧ past (snd (handle e w)) = past (torn e w) ∧
    notes (snd (handle e w)) = notes (torn e w) ∧ jobs (snd (handle e w)) = jobs (torn e w) ∧
    clock (snd (handle e w)) = clock (torn e w).
Proof.
  destruct e; try (left; done); simpl.
  - unfold mutate. destruct (mutated _ _ _ _) as [s|]; [right|by left]. exists s. unfold forget_ended. simpl.
    by case_match.
  - unfold settle_execution. destruct (read_session _ _) as [c|]; [|by left].
    destruct (settled _ _ _ _) as [[s ?]|]; [right|by left]. by exists s.
Qed.

Lemma elem_of_unended id w :
  id ∈ unended w ↔ ∃ s, sessions w !! id = Some s ∧ SessionStatus.is_terminal (cs_status s) = false.
Proof.
  unfold unended. rewrite list_elem_of_fmap. split.
  - intros ([id' s] & -> & Hin). apply list_elem_of_filter in Hin as [Hs Hin%elem_of_map_to_list]. eauto.
  - intros (s & Hs & Hl). exists (id, s). rewrite list_elem_of_filter, elem_of_map_to_list. done.
Qed.

Lemma start_ok w : good w → system_ok (start w).
Proof.
  intros Hg. assert (good (restarted w)) as Hg' by (by eapply good_same; [..|done]). split; [done|..]; cbn [start world tasks next_task].
  - intros t p Hp. apply elem_of_list_to_map_2 in Hp.
    pose proof (elem_of_zip_l _ _ _ _ Hp) as Ht%elem_of_seq. apply elem_of_zip_r in Hp.
    split; [|lia]. unfold start_tasks in Hp.
    apply elem_of_cons in Hp as [->|(id & -> & _)%list_elem_of_fmap]; by apply task_safe.
  - by intros ? ? ?%not_elem_of_nil.
  - intros id [s Hs]. left. unfold listed. simpl. destruct (SessionStatus.is_terminal (cs_status s)) eqn:Hend; [right; eauto|].
    left. rewrite elem_of_list_to_set, elem_of_unended. eauto.
Qed.

(** ** Every step keeps the invariant *)

(** What a step, crashes included, keeps of what is stored. *)
Definition persists (w w' : World) : Prop :=
  past w ⊆ past w' ∧ ∀ id s, sessions w !! id = Some s → ∃ s', sessions w' !! id = Some s' ∧ rtc evolves s s'.

#[local] Instance persists_preorder : PreOrder persists.
Proof.
  split; [intros w; split; [done|eauto using rtc_refl]|]. intros w1 w2 w3 [P1 S1] [P2 S2]. split; [set_solver|].
  intros id s Hs. destruct (S1 id s Hs) as (s' & Hs' & He). destruct (S2 id s' Hs') as (s'' & Hs'' & He').
  exists s''. split; [done|by etrans].
Qed.

Lemma future_persists w w' : future w w' → persists w w'.
Proof. intros Hf. split; apply Hf. Qed.

Lemma session_step_ok sys sys' :
  session_step manager sys sys' → system_ok sys → system_ok sys' ∧ persists (world sys) (world sys').
Proof.
  intros Hstep Hsys. pose proof (sys_world _ Hsys) as Hg.
  destruct Hstep as [sys t R e k Ht|sys t R q k r Ht Ha|sys t id k Ht|sys t task k Ht|sys t h k Ht Hh|sys t p Ht Hp|
    sys owner op|sys j now Hj Hnow|sys|sys t R e k Ht].
  - destruct (sys_tasks _ Hsys t _ Ht) as [Hsafe _]. destruct (Hsafe (world sys)) as (Hg' & Hf & Hp & Hs); [done..|].
    split; [|by apply future_persists]. eapply task_moves; try done.
    + intros goal Hst [Hgoal|Ho]; [left; by eapply Hst|right; by apply Ho].
    + intros session environment. rewrite handle_made. auto.
    + intros id. by apply handle_sessions.
  - destruct (sys_tasks _ Hsys t _ Ht) as [Hsafe _]. destruct (Hsafe (world sys) r) as (Hp & Hs); [done..|].
    destruct (answered_ok q r (world sys) Hg) as [Hg' Hf]. destruct (answered_frame _ _ _ _ Hp) as [Hsame Hmade].
    split; [|by apply future_persists]. eapply task_moves; try done.
    + intros goal Hst [Hgoal|Ho]; [left; by eapply Hst|right; by apply Ho].
    + intros id. rewrite Hsame. auto.
  - destruct (sys_tasks _ Hsys t _ Ht) as [Hsafe _]. split; [|done]. eapply task_moves; try done; auto.
    + by apply advance_loop_safe.
    + intros goal _ Ho%owes_done; auto.
  - destruct (sys_tasks _ Hsys t _ Ht) as [Hsafe _]. split; [|done].
    apply (task_added (with_task t (k (next_task sys)) (world sys) sys)); [|by apply task_safe].
    eapply task_moves; try done; auto. + by apply Hsafe. + intros goal _ Ho%owes_done; auto.
  - destruct (sys_tasks _ Hsys t _ Ht) as [Hsafe _]. split; [|done]. eapply task_moves; try done; auto.
    + by apply Hsafe. + intros goal _ Ho%owes_done; auto.
  - split; [|done]. by eapply task_ended.
  - split; [|done]. apply task_added; [done|by apply operation_safe].
  - assert (future (world sys) (with_jobs j now (world sys))) as Hf by (by apply future_same).
    split; [|by apply future_persists]. by apply world_moves.
  - split; [by apply start_ok|by split; [|eauto using rtc_refl]].
  - destruct (sys_tasks _ Hsys t _ Ht) as [Hsafe _]. destruct (Hsafe (world sys)) as (Hg' & Hf & _ & _); [done..|].
    destruct (torn_store e (world sys)) as [Htorn|(s & _ & Hs & Hr & Hp & Hn & Hj & Hc)].
    + rewrite Htorn. split; [by apply start_ok|by split; [|eauto using rtc_refl]].
    + split; [by apply start_ok, (good_same (snd (handle e (world sys))))|]. simpl. split; simpl.
      * rewrite <-Hp. apply Hf. * rewrite <-Hs. apply Hf.
Qed.

Lemma session_steps_ok sys sys' :
  rtc (session_step manager) sys sys' → system_ok sys → system_ok sys' ∧ persists (world sys) (world sys').
Proof.
  induction 1 as [sys|sys sys1 sys2 Hstep _ IH]; intros Hsys; [done|].
  destruct (session_step_ok _ _ Hstep Hsys) as [Hsys1 Hp1]. destruct (IH Hsys1) as [Hsys2 Hp2]. split; [done|by etrans].
Qed.

Lemma empty_good now : good (empty_world now).
Proof.
  split; simpl; intros *; rewrite ?lookup_empty; try done; try (by intros ?%not_elem_of_nil).
Qed.
Lemma session_reachable_ok sys : reachable_session manager sys → system_ok sys.
Proof. intros [now Hsteps]. eapply session_steps_ok; [done|]. apply start_ok, empty_good. Qed.

(** ** The properties *)

(** The record of a session in a state of the system. *)
Definition recorded (sys : System) (id : string) (s : ComputeSession) : Prop := sessions (world sys) !! id = Some s.

Lemma recorded_past sys id s : reachable_session manager sys → recorded sys id s → s ∈ past (world sys) ∧ cs_session_id s = id.
Proof. intros Hr Hs. by destruct (g_key _ (sys_world _ (session_reachable_ok sys Hr)) id s Hs) as (? & _ & ? & _). Qed.

Lemma recorded_ok sys id s : reachable_session manager sys → recorded sys id s → state_ok (world sys) s.
Proof. intros Hr Hs. destruct (recorded_past sys id s Hr Hs). by apply (g_state _ (sys_world _ (session_reachable_ok sys Hr))). Qed.

Lemma evolves_edges s s' : rtc evolves s s' → rtc (λ from to, edge from to = true) (cs_status s) (cs_status s').
Proof.
  induction 1 as [s|s s1 s2 [_ [Hs|[_ He]] _ _ _] _ IH]; [done| |by eapply rtc_l].
  pose proof (shape_fields _ _ Hs) as (_ & Hst & _). by rewrite <-Hst.
Qed.

(** C15: A session lives as its lifecycle says.  Whatever tasks, callers and crashes
    do, a recorded session stays recorded, on the terms it was created with; its
    generation never falls; its status moves only along the edges of the lifecycle;
    its environment and a claim of it are never taken back; and once it has ended,
    nothing changes but what is known of the executions it had. *)
Theorem session_lifecycle sys sys' id s :
  reachable_session manager sys → rtc (session_step manager) sys sys' → recorded sys id s →
  ∃ s', recorded sys' id s' ∧ cs_terms s' = cs_terms s ∧ (cs_generation s ≤ cs_generation s')%N ∧
    rtc (λ from to, edge from to = true) (cs_status s) (cs_status s') ∧
    (∀ environment, cs_provider_session_id s = Some environment → cs_provider_session_id s' = Some environment) ∧
    (cs_ownership s = Claimed → cs_ownership s' = Claimed) ∧
    (SessionStatus.is_terminal (cs_status s) = true → shape s' = shape s).
Proof.
  intros Hr Hsteps Hs. destruct (session_steps_ok _ _ Hsteps (session_reachable_ok sys Hr)) as [_ [_ Hkeep]].
  destruct (Hkeep id s Hs) as (s' & Hs' & He). exists s'. pose proof (evolves_leads _ _ He) as [Ht Hg Hd Hv Hc].
  split_and!; try done. by apply evolves_edges.
Qed.

(** The generation fences.  An operation that read a session and comes back with
    the generation it read changes it only if it is still as it was read (the
    statuses of its executions apart) and has not ended; its change is the next
    generation.  Otherwise nothing is written. *)
Theorem generation_fences sys s event_type change r w' :
  reachable_session manager sys → s ∈ past (world sys) →
  mutate (cs_session_id s) (Some (cs_generation s)) event_type change (world sys) = (r, w') →
  match r with
  | Ok s' => ∃ c s1, recorded sys (cs_session_id s) c ∧ shape c = shape s ∧
      SessionStatus.is_terminal (cs_status c) = false ∧ change (clock (world sys)) c = Ok s1 ∧
      s' = bumped (clock (world sys)) s1 ∧ sessions w' = <[cs_session_id s' := s']> (sessions (world sys))
  | Err _ => w' = world sys
  end.
Proof.
  intros Hr Hs. pose proof (sys_world _ (session_reachable_ok sys Hr)) as Hg. unfold mutate.
  destruct (mutated _ _ _ _) as [s'|e] eqn:Hm; intros [= <- <-]; [|done].
  apply mutated_inv in Hm as (c & s1 & Hc & Hf & Ht & Hs1 & ->). exists c, s1. split_and!; try done.
  - apply (fenced_shape (world sys)); try done. symmetry. by apply Hf.
  - unfold forget_ended. by case_match.
Qed.

(** C16: A session that may be used is proven ready: it has an environment, and the
    job that ran the readiness script in it succeeded. *)
Theorem session_ready_proved sys id s :
  reachable_session manager sys → recorded sys id s → SessionStatus.is_usable (cs_status s) = true →
  is_Some (cs_provider_session_id s) ∧ jobs (world sys) !! cs_job_id s = Some JobSucceeded.
Proof.
  intros Hr Hs Hu. destruct (recorded_ok sys id s Hr Hs) as [Hready Hproved _ _ _ _]. apply Hproved, Hready.
  by destruct (cs_status s).
Qed.

(** C17: A teardown is complete before it is reported: a session that is destroyed
    or expired had its environment destroyed, as the provider confirmed; and each of
    its executions, as of a session that is stopped, has ended or is one of which
    the job manager answered an error. *)
Theorem teardown_complete sys id s :
  reachable_session manager sys → recorded sys id s → is_quiet (cs_status s) = true →
  (∀ e, e ∈ cs_executions s → accounted (world sys) (exe_job_id e)) ∧
  (SessionStatus.is_terminal (cs_status s) = true → ∀ environment, cs_provider_session_id s = Some environment →
     NoteDestroy environment true ∈ notes (world sys)).
Proof.
  intros Hr Hs Hq. destruct (recorded_ok sys id s Hr Hs) as [_ _ _ Hquiet _ Hgone]. split; [by eauto|].
  intros Ht environment. apply Hgone. destruct (cs_status s); try done; auto.
Qed.

(** Only what is due expires: a session that is expiring or has expired is not
    claimed, and its time is past. *)
Theorem only_due_expires sys id s :
  reachable_session manager sys → recorded sys id s → cs_status s = Expiring ∨ cs_status s = Expired →
  cs_ownership s = Ephemeral ∧ ∃ t, cs_expires_at s = Some t ∧ (t ≤ clock (world sys))%Z.
Proof. intros Hr Hs He. by apply (recorded_ok sys id s Hr Hs). Qed.

(** A reference names one session: of the sessions of a principal that have not
    ended, no two carry the same reference, however their creations interleave. *)
Theorem reference_names_one sys id s id' s' reference :
  reachable_session manager sys → recorded sys id s → recorded sys id' s' →
  cs_owner s = cs_owner s' → cs_reference s = Some reference → cs_reference s' = Some reference →
  SessionStatus.is_terminal (cs_status s) = false → SessionStatus.is_terminal (cs_status s') = false → id = id'.
Proof.
  intros Hr Hs Hs' Ho Hn Hn' Ht Ht'.
  apply (g_reference _ (sys_world _ (session_reachable_ok sys Hr)) (cs_owner s) reference id s id' s'); try done;
    by rewrite names_reference_spec.
Qed.


(** No session is forgotten: one that has not ended is among those the sweep
    goes over, or the task that created it is about to add it, before it returns. *)
Theorem no_session_forgotten sys id s :
  reachable_session manager sys → recorded sys id s → SessionStatus.is_terminal (cs_status s) = false →
  id ∈ live (world sys) ∨ ∃ t p, tasks sys !! t = Some p ∧ owes (listed id) p (world sys).
Proof.
  intros Hr Hs Ht. destruct (sys_listed _ (session_reachable_ok sys Hr) id) as [[Hl|(s' & Hs' & Ht')]|Ho]; [by eexists|by left| |by right].
  unfold recorded in Hs. congruence.
Qed.

(** ** Who may see a session *)

(** A program that answers an error by reading alone, having changed nothing. *)
Fixpoint refuses {A} (p : Prog (Result A ProviderError)) (e : ProviderError) (w : World) : Prop :=
  match p with
  | Ret r => r = Err e
  | Do action k => snd (handle action w) = w ∧ refuses (k (fst (handle action w))) e w
  | _ => False
  end.

Lemma refuses_try {A B} (p : Prog (Result A ProviderError)) (k : A → Prog (Result B ProviderError)) e w :
  refuses p e w → refuses (try_ p k) e w.
Proof.
  induction p as [r|R a k' IH|R q k' _|id k' _|t k' _|h p _|]; try done.
  - intros ->. done.
  - intros [Hw Hk]. split; [done|by apply IH].
Qed.

(** The session is not there, or is another's. *)
Definition hidden (id owner : string) (w : World) : Prop := ∀ s, sessions w !! id = Some s → cs_owner s ≠ owner.

Lemma owned_refuses id owner w : hidden id owner w → refuses (owned id owner) unknown_session w.
Proof.
  intros Hh. split; [done|]. cbn. unfold read_session. destruct (sessions w !! id) as [s|] eqn:Hs; [|done]. simpl.
  destruct (String.eqb_spec (cs_owner s) owner) as [Heq|]; [by destruct (Hh s Hs)|done].
Qed.

(** Another's session is as unknown.  Every operation on a session that is not
    there or belongs to another principal answers, in every state, the one error
    "unknown session" and changes nothing ([exec] once its command is valid); and a
    list holds the caller's sessions alone. *)
Theorem foreign_session_unknown w id owner fork command :
  hidden id owner w → is_ok (validate_command command) = true →
  refuses (fork_session manager id owner fork) unknown_session w ∧
  refuses (inspect_session id owner) unknown_session w ∧
  refuses (session_events id owner) unknown_session w ∧
  refuses (connect manager id owner) unknown_session w ∧
  refuses (exec_session manager id owner command) unknown_session w ∧
  refuses (stop_session id owner) unknown_session w ∧
  refuses (resume_session id owner) unknown_session w ∧
  refuses (destroy_session id owner) unknown_session w ∧
  refuses (claim_session manager id owner) unknown_session w ∧
  safe (λ l _, Forall (λ s, cs_owner s = owner) l) (list_sessions owner) w.
Proof.
  intros Hh Hc. pose proof (owned_refuses id owner w Hh) as Ho.
  assert (∀ operation, refuses (usable id owner operation) unknown_session w) as Hu
    by (intros; by apply refuses_try).
  split_and!; try by apply refuses_try.
  - unfold exec_session. destruct (validate_command command); [|done]. simpl. by apply (refuses_try (usable _ _ _)), Hu.
  - apply safe_free; [done|]. intros names w1 Hf Hg. eapply safe_bind; [done|by apply read_children_safe|].
    intros l w2 _ _ _. apply safe_ret, Forall_forall. intros s Hs.
    apply elem_of_sort_by, list_elem_of_In, filter_In in Hs as [_ Hs]. by apply String.eqb_eq.
Qed.
End system.
