(* ===== verification/SessionProgress.v ===== *)
(** That the loops of the session manager end: a session that is driven, and that
    nothing else changes meanwhile, comes to rest whatever the surroundings answer;
    and its destruction completes once they answer as they should. *)

From S2P Require Import Prelude Text Core Isolation Policy Admission Descriptor.
From S2P Require Import Matching Pool Placement Requests JobRecord JobStore Session SessionManager SessionSystem.
From S2P Require Import SessionSafety SessionPrograms SessionProperties.

Implicit Types s c : ComputeSession.

Section progress.
Context `{!Bundles, !CarriedMetadata, !SessionBundles, !Chrono, !Sha256} (manager : SessionManager).
Context `{!CanonicalIdentity ApplicationMaterial}.

(** ** Programs that end *)

(** While a question is open, jobs go on and time passes. *)
Definition meanwhile (w w' : World) : Prop :=
  ∃ j now, jobs_later (jobs w) j ∧ (clock w ≤ now)%Z ∧ w' = with_jobs j now w.

(** A program that runs by itself returns what [post] says, whatever it is answered
    of what [willing] allows; there always is such an answer.  [advance] says what
    the loop of [advance_owned] does. *)
Fixpoint ends_with (willing : ∀ R, Query R → R → Prop)
    (advance : string → (Result ComputeSession ProviderError → World → Prop) → World → Prop)
    {A} (post : A → World → Prop) (p : Prog A) (w : World) : Prop :=
  match p with
  | Ret a => post a w
  | Do e k => ends_with willing advance post (k (fst (handle e w))) (snd (handle e w))
  | Ask q k =>
      (∃ w1 r, meanwhile w w1 ∧ answers q w1 r ∧ willing _ q r) ∧
      ∀ w1 r, meanwhile w w1 → answers q w1 r → willing _ q r → ends_with willing advance post (k r) (answered q r w1)
  | Advance id k => advance id (λ r, ends_with willing advance post (k r)) w
  | Spawn _ k => ∀ h, ends_with willing advance post (k h) w
  | Join _ _ | Panic => False
  end.

(** The loop returns within [n] rounds. *)
Fixpoint rounds (willing : ∀ R, Query R → R → Prop) (n : nat) (id : string)
    (post : Result ComputeSession ProviderError → World → Prop) (w : World) : Prop :=
  match n with
  | 0 => False
  | S n => ends_with willing (λ _ _ _, False) (λ r w',
      match r with
      | Ok (Some s) => post (Ok s) w'
      | Ok None => rounds willing n id post w'
      | Err e => if is_stale e then rounds willing n id post w' else post (Err e) w'
      end) (step_session manager id) w
  end.

Definition ends (willing : ∀ R, Query R → R → Prop) {A} (post : A → World → Prop) (p : Prog A) (w : World) : Prop :=
  ends_with willing (λ id post w, ∃ n, rounds willing n id post w) post p w.

(** Surroundings that do not answer with the error the manager itself reports when
    a session has changed. *)
Definition no_conflict {T} (r : Result T ProviderError) : Prop :=
  match r with Ok _ => True | Err e => perror_kind e ≠ SessionConflict end.

Definition polite (R : Type) (q : Query R) (r : R) : Prop :=
  match q in Query R return R → Prop with
  | Admit _ => no_conflict | AuthorizeExpiry _ => no_conflict
  | EnvProvision _ | EnvProvisionFrom _ _ => no_conflict | EnvInspect _ => no_conflict | EnvExec _ _ => no_conflict
  | EnvDestroy _ | EnvStop _ | EnvResume _ | EnvClaim _ | EnvRelease _ => no_conflict
  | EnvConnect _ => no_conflict | EnvCheckpoint _ _ => no_conflict
  | JobStatusOf _ _ | JobCancel _ _ | JobWait _ _ => no_conflict | JobAccept _ => no_conflict
  | JobWaitDeadline _ _ => λ r, match r with Some r => no_conflict r | None => True end
  | ListDirectory | GenerateSession | GenerateJob | GenerateExecution | GenerateCheckpoint _ => λ _, True
  end r.

(** Surroundings that do as they are asked when a session is torn down: they let it
    expire, its jobs end once they are cancelled, its environment is destroyed. *)
Definition helpful (R : Type) (q : Query R) (r : R) : Prop :=
  polite R q r ∧
  match q in Query R return R → Prop with
  | AuthorizeExpiry _ => λ r, r = Ok tt
  | EnvDestroy _ => λ r, r = Ok tt
  | JobWaitDeadline _ _ => λ r,
      match r with
      | Some (Ok _) => True
      | Some (Err e) => perror_kind e = UnknownJob ∨ perror_kind e = JobExpired
      | None => False
      end
  | _ => λ _, True
  end r.

Lemma meanwhile_refl w : meanwhile w w.
Proof. exists (jobs w), (clock w). split_and!; [done..|]. by destruct w. Qed.

Definition sometime : ProviderError := transport_error "later".

Lemma polite_answer {R} (q : Query R) w : ∃ r, answers q w r ∧ polite R q r.
Proof.
  destruct q; simpl; try by (exists (Err sometime); simpl; split_and!; try done; intros [=]).
  - exists (elements (dom (sessions w))). split; [|done]. intros id Hid. by rewrite elem_of_elements, elem_of_dom.
  - exists ("ses_" +:+ foldr String "" (repeat "0"%char 64)). split; [by vm_compute|done].
  - by exists "". - by exists "". - by exists "".
  - exists None. done.
Qed.

Lemma polite_answers {R} (q : Query R) w : ∃ w1 r, meanwhile w w1 ∧ answers q w1 r ∧ polite R q r.
Proof. destruct (polite_answer q w) as (r & Ha & Hp). exists w, r. split_and!; [apply meanwhile_refl|done..]. Qed.

(** A job that is waited for ends. *)
Lemma helpful_wait job owner w : ∃ w1 r, meanwhile w w1 ∧ answers (JobWaitDeadline job owner) w1 r ∧
  helpful _ (JobWaitDeadline job owner) r.
Proof.
  destruct (jobs w !! job) as [status|] eqn:Hj.
  - set (last := if JobStatus.is_terminal status then status else JobCancelled).
    exists (with_jobs (<[job := last]> (jobs w)) (clock w) w), (Some (Err (provider_error JobExpired "expired"))).
    split_and!; [|split; simpl; [by intros [=]|]|split; simpl; [done|by right]].
    + exists (<[job := last]> (jobs w)), (clock w). split_and!; [|done..]. intros job' st Hst.
      destruct (decide (job' = job)) as [->|]; [|exists st; by rewrite lookup_insert_ne].
      exists last. rewrite lookup_insert_eq. simplify_eq. split; [done|]. unfold last. by intros ->.
    + intros _. exists last. rewrite lookup_insert_eq. split; [done|]. unfold last. by destruct status.
  - exists w, (Some (Err (provider_error UnknownJob "unknown"))). split_and!; [apply meanwhile_refl|split; simpl; [done|by intros [=]]|].
    split; simpl; [done|by left].
Qed.

Lemma helpful_answers {R} (q : Query R) w : ∃ w1 r, meanwhile w w1 ∧ answers q w1 r ∧ helpful R q r.
Proof.
  destruct q; try apply helpful_wait; try (exists w, (Ok tt); split; [apply meanwhile_refl|by repeat split]).
  all: match goal with |- context [answers ?q] => destruct (polite_answer q w) as (r & Ha & Hp) end; exists w, r;
    split; [apply meanwhile_refl|by split].
Qed.

(** ** Rules *)

Section rules.
Context (willing : ∀ R, Query R → R → Prop).
Context (can_answer : ∀ R (q : Query R) w, ∃ w1 r, meanwhile w w1 ∧ answers q w1 r ∧ willing R q r).
Context (is_polite : ∀ R (q : Query R) r, willing R q r → polite R q r).

Context (advance : string → (Result ComputeSession ProviderError → World → Prop) → World → Prop).
Context (advance_weaken : ∀ id (P Q : Result ComputeSession ProviderError → World → Prop) w,
  (∀ r w', P r w' → Q r w') → advance id P w → advance id Q w).

Notation run := (ends_with willing advance).

Lemma run_bind {A B} (p : Prog A) (k : A → Prog B) post post' w :
  run post p w → (∀ a w', post a w' → run post' (k a) w') → run post' (p ≫= k) w.
Proof.
  intros Hp Hk. revert w Hp. induction p as [a|R e k' IH|R q k' IH|id k' IH|t k' IH|h p _|]; intros w; simpl; try done.
  - apply Hk.
  - apply IH.
  - intros [Hcan Hall]. split; [done|]. intros. by apply IH, Hall.
  - apply advance_weaken. intros. by apply IH.
  - intros Hall h. by apply IH.
Qed.

Lemma run_weaken {A} (post post' : A → World → Prop) (p : Prog A) w :
  (∀ a w', post a w' → post' a w') → run post p w → run post' p w.
Proof.
  intros Hp. revert w. induction p as [a|R e k IH|R q k IH|id k IH|t k IH|h p _|]; intros w; simpl; try done; auto.
  - intros [Hcan Hall]. split; [done|]. intros. by apply IH, Hall.
  - apply advance_weaken. intros. by apply IH.
Qed.

Lemma run_try {A B E} (p : Prog (Result A E)) (k : A → Prog (Result B E)) post post' w :
  run post p w → (∀ a w', post (Ok a) w' → run post' (k a) w') → (∀ e w', post (Err e) w' → post' (Err e) w') →
  run post' (try_ p k) w.
Proof. intros Hp Hok Herr. eapply run_bind; [done|]. intros [a|e] w' Hpost; [by apply Hok|by apply Herr]. Qed.

(** A question, whose answer changes no session. *)
Lemma run_ask {R A} (q : Query R) (k : R → Prog A) post w :
  (∀ r w', sessions w' = sessions w → willing R q r → run post (k r) w') → run post (ask q ≫= k) w.
Proof.
  intros Hk. split; [apply can_answer|]. intros w1 r (j & now & _ & _ & ->) _ Hr. apply Hk; [|done].
  destruct q; simpl; try done; repeat case_match; try done; unfold note_made, note_job; by case_match.
Qed.

(** The record of the session that is driven. *)
Definition here (s : ComputeSession) (w : World) : Prop := sessions w !! cs_session_id s = Some s.

Lemma here_same s w w' : sessions w' = sessions w → here s w → here s w'.
Proof. unfold here. by intros ->. Qed.

Lemma run_read {A} s (k : Result ComputeSession ProviderError → Prog A) post w :
  here s w → run post (k (Ok s)) w → run post (act (ReadSession (cs_session_id s)) ≫= k) w.
Proof. intros Hs. simpl. unfold read_session. by rewrite Hs. Qed.

(** A change of it succeeds. *)
Lemma run_mutate_any {A} s s1 fence event_type change (k : Result ComputeSession ProviderError → Prog A) post w :
  here s w → from_option (N.eqb (cs_generation s)) true fence = true → SessionStatus.is_terminal (cs_status s) = false →
  change (clock w) s = Ok s1 → cs_terms s1 = cs_terms s →
  (∀ w', here (bumped (clock w) s1) w' → run post (k (Ok (bumped (clock w) s1))) w') →
  run post (act (Mutate (cs_session_id s) fence event_type change) ≫= k) w.
Proof.
  intros Hs Hf Ht Hc Hterms Hk. simpl. unfold mutate, mutated, read_session. rewrite Hs. simpl.
  assert (from_option (λ generation, negb (N.eqb generation (cs_generation s))) false fence = false) as ->.
  { destruct fence as [g|]; [|done]. simpl in *. by rewrite N.eqb_sym, Hf. }
  simpl. rewrite Ht. simpl. rewrite Hc. simpl. apply Hk. unfold here, forget_ended. simpl.
  case_match; simpl; by rewrite lookup_insert_eq.
Qed.

Lemma run_mutate {A} s s1 event_type change (k : Result ComputeSession ProviderError → Prog A) post w :
  here s w → SessionStatus.is_terminal (cs_status s) = false →
  change (clock w) s = Ok s1 → cs_terms s1 = cs_terms s →
  (∀ w', here (bumped (clock w) s1) w' → run post (k (Ok (bumped (clock w) s1))) w') →
  run post (act (Mutate (cs_session_id s) (Some (cs_generation s)) event_type change) ≫= k) w.
Proof. intros Hs. apply run_mutate_any; [done|]. simpl. apply N.eqb_refl. Qed.

(** ** Parts *)

Lemma not_stale e : perror_kind e ≠ SessionConflict → is_stale e = false.
Proof. intros Hk. unfold is_stale. by rewrite bool_decide_eq_false_2. Qed.

Lemma run_quiet {R A} (e : Eff R) (k : R → Prog A) post w :
  match e with Now | RecordEvent _ _ _ | ReadSession _ | ReadRequest _ => True | _ => False end →
  (∀ r w', sessions w' = sessions w → run post (k r) w') → run post (act e ≫= k) w.
Proof.
  intros He Hk. destruct e; try done; simpl; apply Hk; try done. unfold record_event. by destruct (read_session id w).
Qed.

Definition still (w : World) {A} : A → World → Prop := λ _ w', sessions w' = sessions w.

Lemma run_each {A} (f : A → Prog unit) l w :
  (∀ x w', run (still w') (f x) w') → run (still w) (each f l) w.
Proof.
  intros Hf. revert w. induction l as [|x l IH]; intros w; simpl; [done|].
  eapply run_bind; [apply Hf|]. intros [] w' Hw. eapply run_weaken; [|apply IH]. intros a w2. unfold still. congruence.
Qed.

Lemma run_cancel s w : run (still w) (cancel_executions s) w.
Proof. apply run_each. intros e w'. apply run_ask. by intros. Qed.

Lemma run_await owner l w : run (λ r w', sessions w' = sessions w ∧ no_conflict r) (await_ended owner l) w.
Proof.
  revert w. induction l as [|e l IH]; intros w; cbn [await_ended]; [done|]. apply run_ask. intros r w' Hw Hr%is_polite.
  assert (run (λ r w', sessions w' = sessions w ∧ no_conflict r) (await_ended owner l) w') as Hrest
    by (eapply run_weaken; [|apply IH]; intros r' w2 [Hw2 Hr2]; split; [congruence|done]).
  destruct r as [[j|error]|]; [done|simpl in Hr|done].
  destruct (perror_kind error) eqn:Hk; try exact Hrest; (split; [exact Hw|simpl; congruence]).
Qed.

Lemma run_terminate s w : run (λ r w', sessions w' = sessions w ∧ no_conflict r) (terminate_executions s) w.
Proof.
  eapply run_bind; [apply run_cancel|]. intros [] w' Hw. eapply run_weaken; [|apply run_await]. unfold still in Hw.
  intros r w2 [Hw2 Hr]. split; [congruence|done].
Qed.

Lemma run_settle_from checkpoint names w : run (still w) (settle_from checkpoint names) w.
Proof.
  revert w. induction names as [|id names IH]; intros w; [apply run_ask; by intros|].
  apply run_quiet; [done|]. intros r w' Hw.
  assert (run (still w) (settle_from checkpoint names) w') as Hrest
    by (eapply run_weaken; [|apply IH]; unfold still; congruence).
  destruct r as [s|e]; [|done]. by case_match.
Qed.

Lemma run_settle s w : run (still w) (settle_lineage s) w.
Proof.
  unfold settle_lineage. destruct (cs_lineage s) as [l|]; [|done]. apply run_ask. intros names w' Hw _.
  eapply run_weaken; [|apply run_settle_from]. unfold still. congruence.
Qed.

(** How far a session is from rest. *)
Definition rank (s : ComputeSession) : nat :=
  match cs_status s with
  | Requested => 4
  | Provisioning =>
      match cs_provider_session_id s with
      | None => 3
      | Some _ => if existsb (λ e, String.eqb (exe_job_id e) (cs_job_id s)) (cs_executions s) then 1 else 2
      end
  | Stopping | Resuming | Expiring | Destroying => 1
  | _ => 0
  end.

Definition nearer (s : ComputeSession) (w : World) : Prop :=
  ∃ s', here s' w ∧ cs_session_id s' = cs_session_id s ∧ rank s' < rank s.

(** The session has come nearer to rest, or the surroundings refused something. *)
Definition closer (s : ComputeSession) {T} (r : Result T ProviderError) (w : World) : Prop :=
  match r with Ok _ => nearer s w | Err e => is_stale e = true → nearer s w end.

Lemma closer_err s {T} e w : is_stale e = false → closer s (Err e : Result T ProviderError) w.
Proof. unfold closer. by intros ->. Qed.

Lemma run_fail s s0 f w :
  here s w → SessionStatus.is_terminal (cs_status s) = false → cs_session_id s = cs_session_id s0 → 0 < rank s0 →
  run (closer s0) (fail_session s f) w.
Proof.
  intros Hs Ht Hid Hrank. eapply run_mutate; [done..|]. intros w' Hs'. eapply run_bind; [apply run_cancel|].
  intros [] w2 Hw. eapply (here_same _ _ _ Hw) in Hs'.
  assert (∀ w', here (bumped (clock w) (set_ended_at (clock w) (set_failure (Some f) (set_status Failed s)))) w' →
    closer s0 (Ok tt) w') as Hclose by (intros w3 Hw3; eexists; split_and!; [done|done|done]).
  case_match; [|by apply Hclose]. apply run_ask. intros r w3 Hw3 _. apply run_quiet; [done|]. intros _ w4 Hw4.
  apply Hclose. eapply here_same; [|done]. congruence.
Qed.

Lemma run_failure {A} phase e w (k : SessionFailure → Prog A) post :
  (∀ f w', sessions w' = sessions w → run post (k f) w') → run post (failure manager phase e ≫= k) w.
Proof. intros Hk. by apply Hk. Qed.

Lemma run_teardown_failed s phase event_type e w :
  here s w → SessionStatus.is_terminal (cs_status s) = false → perror_kind e ≠ SessionConflict →
  run (closer s) (teardown_failed manager s phase event_type e) w.
Proof.
  intros Hs Ht He. apply run_failure. intros f w' Hw. eapply here_same in Hs; [|done].
  eapply (run_try _ _ (λ r _, r = Ok tt)); [|intros _ w2 _; by apply closer_err, not_stale|done].
  unfold record_failure. case_match; [done|]. by eapply run_mutate.
Qed.

(** ** Provisioning *)

Lemma run_provision_failed s e w :
  here s w → SessionStatus.is_terminal (cs_status s) = false → 0 < rank s →
  run (closer s) (provision_failed manager s e) w.
Proof.
  intros Hs Ht Hr. apply run_failure. intros f w1 Hw1. eapply here_same in Hs; [|done].
  eapply run_try; [by apply (run_fail s s)| |done]. intros [] w2 (s' & Hs' & Hid & Hlt).
  eapply run_bind; [apply run_settle|]. intros [] w3 Hw3. exists s'. by eapply here_same in Hs'.
Qed.

(** Nothing is stale in what is answered, and no session has changed. *)
Definition settled_answer (w : World) {T} (r : Result T ProviderError) (w' : World) : Prop :=
  sessions w' = sessions w ∧ match r with Ok _ => True | Err e => is_stale e = false end.

Lemma run_request id w : run (settled_answer w) (act (ReadRequest id)) w.
Proof. split; [done|]. simpl. by destruct (requests w !! id). Qed.

Lemma run_bundle artifact w : run (settled_answer w) (mret (transport_bundle artifact)) w.
Proof. split; [done|]. unfold transport_bundle. by destruct (match artifact with BundleTransport _ => _ | _ => _ end). Qed.

Lemma run_ask_environment s request w :
  run (λ r w', sessions w' = sessions w ∧ no_conflict r) (ask_environment s request) w.
Proof.
  unfold ask_environment. destruct (cs_lineage s) as [l|].
  - case_bool_decide; [done|]. apply (run_ask _ mret). intros r w' Hw Hr. by apply is_polite in Hr.
  - apply (run_ask _ mret). intros r w' Hw Hr. by apply is_polite in Hr.
Qed.

Lemma run_provision_environment s w :
  here s w → cs_status s = Provisioning → cs_provider_session_id s = None →
  run (closer s) (provision_environment manager s) w.
Proof.
  intros Hs Hst He.
  assert (SessionStatus.is_terminal (cs_status s) = false ∧ rank s = 3) as [Ht Hrank].
  { unfold rank. by rewrite Hst, He. }
  eapply run_try; [apply run_request| |by intros e w' [_ ?]; apply closer_err]. intros stored w1 [Hw1 _].
  eapply run_try; [apply run_bundle| |by intros e w' [_ ?]; apply closer_err]. intros bundle w2 [Hw2 _].
  eapply run_bind; [apply run_ask_environment|]. intros r w3 [Hw3 Hr].
  assert (here s w3) as Hs3 by (eapply here_same; [|done]; congruence).
  destruct r as [p|e]; [|apply run_provision_failed; [done..|lia]].
  eapply run_mutate; [done..|]. intros w4 Hs4. eapply run_bind; [apply run_settle|]. intros [] w5 Hw5.
  eapply here_same in Hs4; [|done]. simpl. eexists. split_and!; [done..|]. unfold rank at 1. simpl. rewrite Hst, Hrank.
  case_match; lia.
Qed.

Lemma run_env_of s w : is_Some (cs_provider_session_id s) → run (settled_answer w) (environment s) w.
Proof.
  intros [e He]. eapply run_try; [apply run_request| |by intros e' w' [? ?]; split]. intros stored w1 [Hw1 _].
  unfold settled_answer. simpl. destruct (transport_bundle (req_artifact (ssr_request stored))) as [b|e'] eqn:Hb; simpl.
  - by rewrite He.
  - split; [done|]. pose proof (run_bundle (req_artifact (ssr_request stored)) w1) as [_ Hst]. by rewrite Hb in Hst.
Qed.

(** A failure that comes with an old generation is stale. *)
Lemma run_fail_stale s s' f w :
  here s' w → cs_session_id s' = cs_session_id s → cs_generation s' ≠ cs_generation s → rank s' < rank s →
  run (closer s) (fail_session s f) w.
Proof.
  intros Hs Hid Hg Hr. unfold fail_session, try_. simpl. unfold mutate, mutated, read_session. unfold here in Hs.
  rewrite <-Hid, Hs. simpl. destruct (N.eqb_spec (cs_generation s) (cs_generation s')); [congruence|]. simpl.
  intros _. by exists s'.
Qed.

(** What is left to do once the readiness execution was submitted, or not. *)
Definition submitted (s : ComputeSession) (r : Result bool ProviderError) (w : World) : Prop :=
  match r with
  | Ok true => ∃ s', here s' w ∧ cs_session_id s' = cs_session_id s ∧ cs_status s' = Provisioning
  | Ok false => nearer s w
  | Err e => is_stale e = true → nearer s w
  end.

Lemma run_submit_failed s (p : SessionFailure → Prog (Result unit ProviderError)) phase e w :
  (∀ f w', sessions w' = sessions w → run (closer s) (p f) w') →
  run (submitted s) (failure manager phase e ≫= λ f, try_ (p f) (λ _, mret (Ok false))) w.
Proof. intros Hp. apply run_failure. intros f w' Hw. by eapply run_try; [by apply Hp|..]. Qed.

Lemma run_submit s readiness w :
  here s w → cs_status s = Provisioning → is_Some (cs_provider_session_id s) → exe_job_id readiness = cs_job_id s →
  run (submitted s) (submit_readiness manager s readiness) w.
Proof.
  intros Hs Hst He Hjob. assert (SessionStatus.is_terminal (cs_status s) = false) as Ht by (by rewrite Hst).
  assert (0 < rank s) as Hrank by (unfold rank; rewrite Hst; repeat case_match; lia).
  apply run_ask. intros known w1 Hw1 _. eapply here_same in Hs; [|done]. destruct (is_ok known); [by exists s|].
  eapply run_try; [by apply run_env_of| |by intros e w' [_ Hn]; simpl; rewrite Hn]. intros env w2 [Hw2 _].
  eapply here_same in Hs; [|done]. apply run_ask. intros [request|e] w3 Hw3 _; (eapply here_same in Hs; [|done]).
  2: { apply run_submit_failed. intros f w4 Hw4. apply run_fail; try done. by eapply here_same. }
  eapply (run_try _ _ (λ r w', ∃ s', r = Ok s' ∧ here s' w' ∧ cs_session_id s' = cs_session_id s ∧
    cs_status s' = Provisioning ∧ (s' = s ∨ cs_generation s' ≠ cs_generation s ∧ rank s' < rank s))).
  - destruct (existsb _ _) eqn:Hx; [exists s; split_and!; try done; by left|]. eapply (run_mutate _ _ _ _ mret); [done..|].
    intros w4 Hs4. eexists. split_and!; [done|done|done|done|right]. split; [simpl; lia|]. unfold rank. simpl.
    destruct He as [env' ->]. rewrite Hst, Hx, existsb_app. simpl. rewrite Hjob, String.eqb_refl, orb_true_r. lia.
  - intros s0 w4 (s' & [= ->] & Hs4 & Hid & Hst' & Hgen). unfold accept_execution, try_ at 2.
    apply run_ask. intros [submission|e] w5 Hw5 _; (eapply here_same in Hs4; [|done]); [by exists s'|].
    apply (run_submit_failed s (fail_session s)). intros f w6 Hw6. eapply here_same in Hs4; [|done].
    destruct Hgen as [->|[Hgen Hlt]]; [by apply run_fail|by eapply run_fail_stale].
  - intros e w' (s' & [=] & _).
Qed.

Lemma run_settle_execution {A} s job status (k : Result ComputeSession ProviderError → Prog A) post w :
  here s w → cs_status s = Provisioning →
  (∀ s' w', here s' w' → cs_session_id s' = cs_session_id s → cs_status s' = Provisioning →
    cs_generation s' = cs_generation s → run post (k (Ok s')) w') →
  run post (act (SettleExecution (cs_session_id s) job status) ≫= k) w.
Proof.
  intros Hs Hst Hk. simpl. unfold settle_execution, read_session. rewrite Hs. unfold settled.
  destruct (settle_first job status (cs_executions s)) as [l|]; simpl; [|by apply Hk].
  rewrite Hst. simpl. apply Hk; try done. unfold here. simpl. by rewrite lookup_insert_eq.
Qed.

Lemma run_provision_readiness s w :
  here s w → cs_status s = Provisioning → is_Some (cs_provider_session_id s) →
  run (closer s) (provision_readiness manager s) w.
Proof.
  intros Hs Hst He. assert (0 < rank s) as Hrank by (unfold rank; rewrite Hst; repeat case_match; lia).
  apply run_quiet; [done|]. intros now w1 Hw1. eapply here_same in Hs; [|done].
  eapply run_try; [by apply run_submit| |done]. intros [] w2 Hsub; [|done]. destruct Hsub as (s' & Hs' & Hid & Hst').
  cbn [negb]. unfold try_ at 1. apply run_ask. intros [job|e] w3 Hw3 Hr%is_polite; [|by apply closer_err, not_stale].
  eapply here_same in Hs'; [|done]. rewrite <-Hid. apply run_read; [done|]. apply run_settle_execution; [done..|].
  intros s2 w4 Hs2 Hid2 Hst2 Hg2. rewrite bool_decide_eq_true_2 by done. cbn [negb].
  case_bool_decide.
  - rewrite <-Hid2, <-Hg2. eapply run_mutate; [done|by rewrite Hst2|done|done|]. intros w5 Hs5. eexists.
    split_and!; [done|simpl; congruence|done].
  - apply run_quiet; [done|]. intros now2 w5 Hw5. eapply here_same in Hs2; [|done]. rewrite <-Hid2. apply run_read; [done|].
    apply run_fail; [done|by rewrite Hst2|congruence|done].
Qed.

(** ** Teardown, stopping and resuming *)

Lemma run_destroyed s w :
  here s w → cs_status s = Destroying ∨ cs_status s = Expiring →
  run (closer s) (_ ←? act (Mutate (cs_session_id s) (Some (cs_generation s))
    (if bool_decide (cs_status s = Expiring) then "expired" else "destroyed")
    (set_torn_down (bool_decide (cs_status s = Expiring)))); mret (Ok tt)) w.
Proof.
  intros Hs Hst. eapply run_mutate; [done|by destruct Hst as [-> | ->]|done|done|]. intros w' Hs'. eexists.
  split_and!; [done..|]. unfold rank. simpl. destruct Hst as [-> | ->]; simpl; lia.
Qed.

Lemma run_teardown s w :
  here s w → cs_status s = Destroying ∨ cs_status s = Expiring → run (closer s) (teardown manager s) w.
Proof.
  intros Hs Hst. assert (SessionStatus.is_terminal (cs_status s) = false) as Ht by (by destruct Hst as [-> | ->]).
  eapply (run_bind _ _ (λ r w', sessions w' = sessions w ∧ no_conflict r)).
  { case_match; [|done]. apply (run_ask _ mret). intros r w' Hw Hr. by apply is_polite in Hr. }
  intros [[]|e] w1 [Hw1 Hr1]; (eapply here_same in Hs; [|done]).
  2: { apply run_quiet; [done|]. intros now w2 Hw2. eapply here_same in Hs; [|done].
    eapply (run_try _ _ (λ r _, r = Ok tt)); [|intros _ w3 _; by apply closer_err, not_stale|done].
    unfold record_failure. case_match; [done|]. by eapply run_mutate. }
  eapply run_bind; [apply run_terminate|]. intros [[]|e] w2 [Hw2 Hr2]; (eapply here_same in Hs; [|done]);
    [|by apply run_teardown_failed].
  eapply (run_bind _ _ (λ r w', sessions w' = sessions w2 ∧ no_conflict r)).
  { case_match; [|done]. apply (run_ask _ mret). intros r w' Hw Hr. by apply is_polite in Hr. }
  intros [[]|e] w3 [Hw3 Hr3]; (eapply here_same in Hs; [|done]); [by apply run_destroyed|by apply run_teardown_failed].
Qed.

Lemma run_stop s w : here s w → cs_status s = Stopping → run (closer s) (stop_step manager s) w.
Proof.
  intros Hs Hst. assert (SessionStatus.is_terminal (cs_status s) = false) as Ht by (by rewrite Hst).
  eapply run_bind; [apply run_terminate|]. intros [[]|e] w1 [Hw1 Hr1]; (eapply here_same in Hs; [|done]);
    [|by apply run_teardown_failed].
  eapply (run_bind _ _ (λ r w', sessions w' = sessions w1 ∧ no_conflict r)).
  { repeat case_match; try done. apply (run_ask _ mret). intros r w' Hw Hr. by apply is_polite in Hr. }
  intros [[]|e] w2 [Hw2 Hr2]; (eapply here_same in Hs; [|done]); [|by apply run_teardown_failed].
  eapply run_mutate; [done..|]. intros w3 Hs3. eexists. split_and!; [done..|]. unfold rank. simpl. rewrite Hst. lia.
Qed.

(** ** Steps *)

Definition at_rest (s : ComputeSession) : Prop := rank s = 0.

Definition stepped (s : ComputeSession) (r : Result (option ComputeSession) ProviderError) (w : World) : Prop :=
  match r with
  | Ok (Some s') => here s' w ∧ cs_session_id s' = cs_session_id s ∧ at_rest s'
  | Ok None => nearer s w
  | Err e => is_stale e = true → nearer s w
  end.

Lemma closer_stepped s (p : Prog (Result unit ProviderError)) w :
  run (closer s) p w → run (stepped s) (_ ←? p; mret (Ok None)) w.
Proof. intros Hp. by eapply run_try. Qed.

Lemma run_resume s w : here s w → cs_status s = Resuming → run (stepped s) (resume_step manager s) w.
Proof.
  intros Hs Hst. assert (SessionStatus.is_terminal (cs_status s) = false) as Ht by (by rewrite Hst).
  unfold resume_step. destruct (cs_provider_session_id s); [|done]. apply run_ask.
  intros [[]|e] w1 Hw1 _; (eapply here_same in Hs; [|done]).
  - eapply run_mutate; [done..|]. intros w2 Hs2. eexists. split_and!; [done..|]. unfold rank. simpl. rewrite Hst. lia.
  - apply run_failure. intros f w2 Hw2. eapply here_same in Hs; [|done]. by eapply run_mutate.
Qed.

Lemma run_watch id job w : run (still w) (watch id job) w.
Proof. unfold watch. simpl. by case_match. Qed.

Lemma run_step s w : here s w → run (stepped s) (step_session manager (cs_session_id s)) w.
Proof.
  intros Hs. apply run_read; [done|]. destruct (cs_status s) eqn:Hst;
    try by (split_and!; [done..|]; unfold at_rest, rank; rewrite Hst).
  - eapply run_mutate; [done|by rewrite Hst|done|done|]. intros w' Hs'. eexists. split_and!; [done..|].
    unfold rank. simpl. rewrite Hst. repeat case_match; lia.
  - apply closer_stepped. unfold provision. destruct (cs_provider_session_id s) eqn:He.
    + apply run_provision_readiness; [done..|]. by rewrite He.
    + by apply run_provision_environment.
  - eapply run_bind; [apply run_each; intros; apply run_watch|]. intros [] w' Hw. eapply here_same in Hs; [|done].
    split_and!; [done..|]. unfold at_rest, rank. by rewrite Hst.
  - apply closer_stepped. by apply run_stop.
  - by apply run_resume.
  - apply closer_stepped, run_teardown; auto.
  - apply closer_stepped, run_teardown; auto.
Qed.
End rules.

(** ** The loop *)

(** What a driven session comes to. *)
Definition rested (id : string) (r : Result ComputeSession ProviderError) (w : World) : Prop :=
  match r with Ok s => sessions w !! id = Some s ∧ at_rest s | Err e => is_stale e = false end.

Lemma rounds_end willing n s w :
  (∀ R (q : Query R) w, ∃ w1 r, meanwhile w w1 ∧ answers q w1 r ∧ willing R q r) →
  (∀ R (q : Query R) r, willing R q r → polite R q r) →
  rank s < n → here s w → rounds willing n (cs_session_id s) (rested (cs_session_id s)) w.
Proof.
  intros Hcan Hpolite. revert s w. induction n as [|n IH]; intros s w Hlt Hs; [lia|]. cbn [rounds].
  eapply run_weaken; [done| |by apply (run_step willing Hcan Hpolite)].
  assert (∀ w', nearer s w' → rounds willing n (cs_session_id s) (rested (cs_session_id s)) w') as Hnear.
  { intros w' (s' & Hs' & Hid & Hr). rewrite <-Hid. apply IH; [lia|done]. }
  intros [[s'|]|e] w'; simpl.
  - intros (Hs' & Hid & Hr). rewrite <-Hid. done.
  - apply Hnear.
  - destruct (is_stale e) eqn:He; [intros Hn; by apply Hnear, Hn|done].
Qed.

Lemma rounds_weaken willing n id (P Q : Result ComputeSession ProviderError → World → Prop) w :
  (∀ r w', P r w' → Q r w') → rounds willing n id P w → rounds willing n id Q w.
Proof.
  intros HPQ. revert w. induction n as [|n IH]; intros w; [done|]. apply run_weaken; [done|].
  intros [[s|]|e] w'; [apply HPQ|apply IH|]. destruct (is_stale e); [apply IH|apply HPQ].
Qed.

(** C19: A session that is driven comes to rest.  The loop that advances a session
    returns, in any reachable state, whatever the provider, the job manager and the
    authority answer (conflicts apart, which are the manager's own): in at most five
    rounds, provided nothing else changes the session meanwhile.  It leaves a session
    at rest (ready, running, stopped or ended), or reports what was refused. *)
Theorem driven_session_rests sys id s :
  reachable_session manager sys → sessions (world sys) !! id = Some s →
  rounds polite 5 id (rested id) (world sys).
Proof.
  intros Hr Hs. destruct (recorded_past manager sys id s Hr Hs) as [_ Hid]. rewrite <-Hid in *.
  apply rounds_end; [|done| |done].
  - intros R q w. apply polite_answers.
  - unfold rank. repeat case_match; lia.
Qed.

(** ** A destruction that succeeds *)

Section helped.
Notation run := (ends_with helpful (λ _ _ _, False)).

Lemma straight_weaken (id : string) (P Q : Result ComputeSession ProviderError → World → Prop) (w : World) :
  (∀ r w', P r w' → Q r w') → False → False.
Proof. done. Qed.

Lemma helped_await owner l w : run (λ r w', sessions w' = sessions w ∧ r = Ok tt) (await_ended owner l) w.
Proof.
  revert w. induction l as [|e l IH]; intros w; cbn [await_ended]; [done|].
  apply run_ask; [intros; apply helpful_answers|]. intros r w' Hw [_ Hr].
  assert (run (λ r w', sessions w' = sessions w ∧ r = Ok tt) (await_ended owner l) w') as Hrest
    by (eapply run_weaken; [done| |apply IH]; intros r' w2 [Hw2 Hr2]; split; [congruence|done]).
  destruct r as [[j|error]|]; [done| |done]. simpl in Hr. by destruct Hr as [-> | ->].
Qed.

(** The session a teardown leaves. *)
Definition torn_down (s : ComputeSession) (w : World) : Prop :=
  ∃ s', here s' w ∧ cs_session_id s' = cs_session_id s ∧
    cs_status s' = if bool_decide (cs_status s = Expiring) then Expired else Destroyed.

Lemma helped_teardown s w :
  here s w → cs_status s = Destroying ∨ cs_status s = Expiring →
  run (λ r w', r = Ok tt ∧ torn_down s w') (teardown manager s) w.
Proof.
  intros Hs Hst. assert (∀ R (q : Query R) w, ∃ w1 r, meanwhile w w1 ∧ answers q w1 r ∧ helpful R q r) as Hcan
    by (intros; apply helpful_answers).
  eapply (run_bind _ _ straight_weaken _ _ (λ r w', sessions w' = sessions w ∧ r = Ok tt)).
  { case_match; [|done]. apply (run_ask _ Hcan _ _ mret). by intros r w' Hw [_ Hr]. }
  intros r w1 [Hw1 ->]. eapply here_same in Hs; [|done].
  eapply (run_bind _ _ straight_weaken _ _ (λ r w', sessions w' = sessions w1 ∧ r = Ok tt)).
  { eapply run_bind; [done|by apply (run_cancel helpful Hcan)|]. intros [] w' Hw.
    eapply run_weaken; [done| |apply helped_await]. unfold still in Hw. intros r' w2 [Hw2 Hr2]. split; [congruence|done]. }
  intros r w2 [Hw2 ->]. eapply here_same in Hs; [|done].
  eapply (run_bind _ _ straight_weaken _ _ (λ r w', sessions w' = sessions w2 ∧ r = Ok tt)).
  { case_match; [|done]. apply (run_ask _ Hcan _ _ mret). by intros r w' Hw [_ Hr]. }
  intros r w3 [Hw3 ->]. eapply here_same in Hs; [|done].
  eapply run_mutate; [done|by destruct Hst as [-> | ->]|done|done|]. intros w4 Hs4. split; [done|]. by eexists.
Qed.

(** The loop, of a session that is to be torn down. *)
Lemma helped_rounds s w :
  here s w → cs_status s = Destroying ∨ cs_status s = Expiring →
  rounds helpful 2 (cs_session_id s) (λ r w', ∃ s', r = Ok s' ∧ here s' w' ∧ cs_session_id s' = cs_session_id s ∧
    cs_status s' = if bool_decide (cs_status s = Expiring) then Expired else Destroyed) w.
Proof.
  intros Hs Hst.
  assert (run (λ r w', r = Ok None ∧ torn_down s w') (step_session manager (cs_session_id s)) w) as Hstep.
  { apply run_read; [done|]. destruct Hst as [Hst|Hst]; rewrite Hst;
      (eapply (run_try _ _ straight_weaken); [by apply helped_teardown; auto| |by intros ? ? [? ?]]);
      intros [] w' [_ Htorn]; done. }
  cbn [rounds]. eapply run_weaken; [done| |exact Hstep]. intros r w1 [-> (s' & Hs' & Hid & Hst')].
  rewrite <-Hid. apply run_read; [done|]. by case_bool_decide; rewrite Hst'; exists s'.
Qed.
End helped.

Lemma ends_weaken willing (id : string) (P Q : Result ComputeSession ProviderError → World → Prop) (w : World) :
  (∀ r w', P r w' → Q r w') → (∃ n, rounds willing n id P w) → ∃ n, rounds willing n id Q w.
Proof. intros HPQ [n Hn]. exists n. by eapply rounds_weaken. Qed.

(** C20: A destruction completes.  Of any session that has not ended, whatever it was
    doing, its owner's destroy returns it destroyed (or expired, if it was expiring)
    when jobs end once cancelled, the provider destroys the environment and the
    authority lets it expire; provided nothing else changes the session meanwhile. *)
Theorem destroy_completes sys id s owner :
  reachable_session manager sys → sessions (world sys) !! id = Some s → cs_owner s = owner →
  SessionStatus.is_terminal (cs_status s) = false →
  ends helpful (λ r w', ∃ s', r = Ok s' ∧ sessions w' !! id = Some s' ∧
    cs_status s' = if bool_decide (cs_status s = Expiring) then Expired else Destroyed)
    (destroy_session id owner) (world sys).
Proof.
  intros Hr Hs Ho Ht. destruct (recorded_past manager sys id s Hr Hs) as [_ Hid]. rewrite <-Hid in *.
  set (target := if bool_decide (cs_status s = Expiring) then Expired else Destroyed).
  assert (∀ s' w', here s' w' → cs_session_id s' = cs_session_id s →
    cs_status s' = (if bool_decide (cs_status s = Expiring) then Expiring else Destroying) →
    ends helpful (λ r w', ∃ s', r = Ok s' ∧ sessions w' !! cs_session_id s = Some s' ∧ cs_status s' = target)
      (advance_owned (cs_session_id s)) w') as Hloop.
  { intros s' w' Hs' Hid' Hst'. exists 2. rewrite <-Hid'. eapply rounds_weaken; [|apply helped_rounds; [done|]].
    - intros r w2 (s2 & -> & Hs2 & Hid2 & Hst2). exists s2. rewrite <-Hid2. split_and!; [done..|]. rewrite Hst2, Hst'.
      unfold target. by repeat case_bool_decide.
    - rewrite Hst'. case_bool_decide; auto. }
  apply (run_try _ _ (ends_weaken helpful) _ _ (λ r w', r = Ok s ∧ w' = world sys)); [| |by intros ? ? [? ?]].
  { apply run_read; [done|]. subst owner. by rewrite String.eqb_refl. }
  intros s0 w' [[= ->] ->]. rewrite Ht. destruct (cs_status s) eqn:Hst; try done; try by apply (Hloop s).
  all: unfold try_; (eapply (run_mutate_any _ _ s); [done|done|by rewrite Hst|done|done|]; intros w' Hw'; by eapply Hloop).
Qed.
End progress.
