(* ===== verification/SessionRuns.v ===== *)
(** Runs of the session manager: a scheduler that carries out chosen steps with
    surroundings that answer as they should, for the theorems to be applied to, and
    the interleavings that show where the code falls short of its documentation. *)

From S2P Require Import Prelude Text Core Isolation Policy Admission Descriptor.
From S2P Require Import Matching Pool Placement Requests JobRecord JobStore Session SessionManager SessionSystem.
From S2P Require Import SessionSafety SessionProperties SessionProgress.

#[local] Existing Instance witness_bundles.
#[local] Existing Instance witness_metadata.
#[local] Instance witness_session_bundles : SessionBundles :=
  {| workload_host := λ _, Isolated; with_network := λ _ b, b; validate_bundle := λ _, Ok tt; to_bytes := Ok;
     bundle_workload_id := λ _, Ok "w"; bundle_bundle_id := λ _, Ok "b" |}.
#[local] Instance witness_session_sha : Sha256 := λ data, "sha256:" +:+ to_hex data.
#[local] Instance witness_session_chrono : Chrono := λ t n,
  if Z.leb (1000 * Z.abs n) (2 ^ 63 - 1) then Some (t + n * 10 ^ 9)%Z else None.
#[local] Instance witness_session_application : CanonicalIdentity ApplicationMaterial := am_name.
#[local] Instance witness_session_policy : CanonicalIdentity Policy := λ p, default "anonymous" (policy_name p).
#[local] Instance witness_session_admission : CanonicalIdentity AdmissionMaterial :=
  λ m, material_policy_id m +:+ workload_id (material_contract m).

(** ** Surroundings *)

Definition provider : SessionManager :=
  {| sm_kind := "workspace"; sm_contains_network := false; sm_substrate := λ _, None;
     sm_identity := LocalIdentity "local";
     sm_capabilities := {| sc_exec := true; sc_terminal := true; sc_filesystem := true; sc_network := true;
       sc_public_endpoint := false; sc_persistent_storage := true; sc_suspend := true; sc_resume := true;
       sc_claim := true; sc_process_tree_termination := true; sc_memory_suspend := false; sc_fork := true |} |}.

Definition job_record (job : string) (status : JobStatus) : ExecutionJob :=
  {| job_version := "compute.job@1"; job_id := job;
     job_request := {| jr_request_hash := "sha256:00"; jr_request_id := None; jr_workload_id := "w"; jr_bundle_id := "b";
       jr_dependency_id := None; jr_runtime := Wasm; jr_application := None;
       jr_requested_execution := {| jrp_isolation := Sandboxed; jrp_network := NetNone; jrp_resources := default_limits |} |};
     job_status := status; job_provider := LocalIdentity "local"; job_application := None; job_placement_id := None;
     job_placement := None; job_provider_id := None; job_admission := None; job_reservation := None;
     job_capacity_wait := None; job_execution_id := None; job_result_digest := None;
     job_cancellation := {| can_requested := false; can_effective := false; can_phase := None |};
     JobRecord.job_failure := None; job_session_id := None; job_created_at := 0; job_updated_at := 0 |}.

(** What is recorded of a job. *)
Definition known_job (job : string) (w : World) : Result ExecutionJob ProviderError :=
  match jobs w !! job with Some status => Ok (job_record job status) | None => Err (provider_error UnknownJob "unknown job") end.

(** The end of a job, once it has ended or was never accepted. *)
Definition ended_job (job : string) (w : World) : option (Result ExecutionJob ProviderError) :=
  match jobs w !! job with
  | Some status => if JobStatus.is_terminal status then Some (Ok (job_record job status)) else None
  | None => Some (Err (provider_error UnknownJob "unknown job"))
  end.

(** A session identity: one digit, sixty-four times. *)
Definition numbered (n : nat) : string :=
  "ses_" +:+ foldr String "" (repeat (match n with 0 => "0" | 1 => "1" | 2 => "2" | _ => "3" end)%char 64).

Definition an_environment (id : string) : ProvisionedSession :=
  {| psn_provider_session_id := "env_" +:+ id;
     psn_connection := {| con_mode := ModeExec; con_address := None; con_port := None; con_details := ∅ |};
     psn_endpoints := []; psn_capabilities := sm_capabilities provider |}.

Definition admitting : JobAdmission :=
  {| adm_decision := policy_admit python_only python_contract linux_facts Compatible; adm_policy := compose [] |}.

(** What the surroundings answer; [None] while they do not. *)
Definition answer {R} (q : Query R) (w : World) : option R :=
  match q in Query R return option R with
  | ListDirectory => Some (elements (dom (sessions w)))
  | GenerateSession => Some (numbered (size (sessions w)))
  | GenerateJob => Some ("job_" +:+ pretty (length (past w)))
  | GenerateExecution => Some ("exec_" +:+ pretty (length (past w)))
  | GenerateCheckpoint source => Some ("ckpt_" +:+ source)
  | Admit _ => Some (Ok admitting)
  | AuthorizeExpiry _ => Some (Ok tt)
  | EnvProvision request | EnvProvisionFrom request _ => Some (Ok (an_environment (prq_session_id request)))
  | EnvInspect _ => Some (Ok EnvReady)
  | EnvExec _ _ => Some (Ok (plain_request [1]%N))
  | EnvDestroy _ | EnvStop _ | EnvResume _ | EnvClaim _ | EnvRelease _ => Some (Ok tt)
  | EnvConnect _ => Some (Ok {| pco_connection := None; pco_command := []; pco_credentials := ∅; pco_expires_at := None |})
  | EnvCheckpoint _ checkpoint => Some (Ok {| ckpt_id := checkpoint; ckpt_evidence := {["taken" := "yes"]} |})
  | JobStatusOf job _ | JobCancel job _ => Some (known_job job w)
  | JobAccept a => Some (Ok {| sub_job_id := ""; sub_request_id := None; sub_status := JobQueued |})
  | JobWait job _ => ended_job job w
  | JobWaitDeadline job _ => Some (ended_job job w)
  end.

Lemma known_job_answer job w : job_answer job (known_job job w) false w.
Proof. unfold known_job. destruct (jobs w !! job) eqn:Hj; simpl; [done|]. split; [done|by intros [=]]. Qed.

Lemma ended_job_answer job r w : ended_job job w = Some r → job_answer job r true w.
Proof.
  unfold ended_job. destruct (jobs w !! job) as [status|] eqn:Hj.
  - destruct (JobStatus.is_terminal status) eqn:Ht; [|done]. by intros [= <-].
  - intros [= <-]. split; [done|by intros [=]].
Qed.

Lemma numbered_valid n : is_ok (parse_session_id (numbered n)) = true.
Proof. by destruct n as [|[|[|n]]]; vm_compute. Qed.

Lemma answer_answers {R} (q : Query R) w r : answer q w = Some r → answers q w r.
Proof.
  destruct q; simpl; try by intros _.
  - intros [= <-] id Hid. by rewrite elem_of_elements, elem_of_dom.
  - intros [= <-]. apply numbered_valid.
  - intros [= <-]. apply known_job_answer.
  - apply ended_job_answer.
  - intros [= <-]. destruct (ended_job job w) eqn:He; [by apply ended_job_answer|done].
Qed.

(** ** Schedules *)

Inductive Move : Type :=
| Step (t : nat)
| Call (owner : string) (op : Operation)
(** the jobs that have not ended end so, and time passes *)
| Later (status : JobStatus) (seconds : nat)
| Crash.

Definition advance_task (t : nat) (sys : System) : System :=
  match tasks sys !! t with
  | Some (Do e k) => with_task t (k (fst (handle e (world sys)))) (snd (handle e (world sys))) sys
  | Some (Ask q k) =>
      match answer q (world sys) with Some r => with_task t (k r) (answered q r (world sys)) sys | None => sys end
  | Some (Advance id k) => with_task t (advance_loop provider id k) (world sys) sys
  | Some (Spawn task k) =>
      {| world := world sys; next_task := S (next_task sys);
         tasks := <[next_task sys := task_program task]> (<[t := k (next_task sys)]> (tasks sys)) |}
  | Some (Join h k) => match tasks sys !! h with None => with_task t k (world sys) sys | Some _ => sys end
  | Some (Ret _ | Panic) => {| world := world sys; tasks := delete t (tasks sys); next_task := next_task sys |}
  | None => sys
  end.

Definition end_jobs (status : JobStatus) (j : gmap string JobStatus) : gmap string JobStatus :=
  (λ st, if JobStatus.is_terminal st then st else status) <$> j.

Definition move (m : Move) (sys : System) : System :=
  match m with
  | Step t => advance_task t sys
  | Call owner op =>
      {| world := world sys; next_task := S (next_task sys);
         tasks := <[next_task sys := operation_program provider owner op]> (tasks sys) |}
  | Later status seconds =>
      {| world := with_jobs (end_jobs status (jobs (world sys))) (clock (world sys) + Z.of_nat seconds * 10 ^ 9) (world sys);
         tasks := tasks sys; next_task := next_task sys |}
  | Crash => start (world sys)
  end.

Lemma move_steps m sys : rtc (session_step provider) sys (move m sys).
Proof.
  destruct m as [t|owner op|status seconds|]; simpl.
  - unfold advance_task. destruct (tasks sys !! t) as [p|] eqn:Ht; [|done].
    destruct p as [a|R e k|R q k|id k|task k|h k|].
    + destruct a. apply rtc_once. eapply step_end; [done|by left].
    + apply rtc_once. by apply step_do.
    + destruct (answer q (world sys)) as [r|] eqn:Ha; [|done]. apply rtc_once. apply step_ask; [done|by apply answer_answers].
    + apply rtc_once. by apply step_advance.
    + apply rtc_once. by apply step_spawn.
    + destruct (tasks sys !! h) eqn:Hh; [done|]. apply rtc_once. by eapply step_join.
    + apply rtc_once. eapply step_end; [done|by right].
  - apply rtc_once, step_request.
  - apply rtc_once, step_elsewhere; [|lia]. intros job st Hst. unfold end_jobs. rewrite lookup_fmap, Hst. simpl.
    eexists. split; [done|]. by intros ->.
  - apply rtc_once, step_crash.
Qed.

(** The manager after some moves, from the day it was installed. *)
Definition after_moves (moves : list Move) (sys : System) : System := foldl (λ sys m, move m sys) sys moves.
Definition run (moves : list Move) : System := after_moves moves (start (empty_world 0)).

Lemma after_moves_steps moves sys : rtc (session_step provider) sys (after_moves moves sys).
Proof.
  revert sys. induction moves as [|m moves IH]; intros sys; simpl; [done|]. etrans; [apply move_steps|apply IH].
Qed.

Lemma run_reachable moves : reachable_session provider (run moves).
Proof. exists 0%Z. apply after_moves_steps. Qed.

Lemma run_app moves moves' : run (moves ++ moves') = after_moves moves' (run moves).
Proof. apply foldl_app. Qed.

Definition steps (t n : nat) : list Move := repeat (Step t) n.

Definition new_spec (reference : option string) (ttl : N) : SessionSpec :=
  {| spec_ttl_seconds := Some ttl; spec_required_capabilities := []; spec_endpoints := []; spec_persistent := false;
     spec_reference := reference |}.

Definition new_create (reference : option string) (ttl : N) : Operation :=
  OpCreate {| scr_request := plain_request [1]%N; scr_spec := new_spec reference ttl |}.

(** Alice's session, up to its readiness; then ready; then running a command. *)
Definition creating : list Move := Call "alice" (new_create (Some "dev") 60) :: steps 1 20 ++ steps 2 20.
Definition ready : list Move := creating ++ Later JobSucceeded 1 :: steps 2 20.
Definition ls : SessionCommand := new_command ["ls"].

Definition statuses (sys : System) : list SessionStatus :=
  (λ entry, cs_status (snd entry)) <$> map_to_list (sessions (world sys)).

Example session_becomes_ready : statuses (run creating) = [Provisioning] ∧ statuses (run ready) = [Ready].
Proof. by vm_compute. Qed.

(** ** Where the code falls short *)

(** Alice runs a command and destroys the session while the command, which is
    recorded, is not yet accepted as a job. *)
Definition overtaken : list Move :=
  ready ++ Call "alice" (OpExec (numbered 0) ls) :: steps 3 9 ++ Call "alice" (OpDestroy (numbered 0)) :: steps 4 30 ++
  steps 3 10.

(** The command is accepted and queued after the session was reported destroyed: the
    job manager answered that it does not know the job, which [terminate_executions]
    takes for one that has ended. *)
Example destroyed_before_accepted :
  statuses (run overtaken) = [Destroyed] ∧ jobs (world (run overtaken)) !! "job_6" = Some JobQueued ∧
  NoteJobError "job_6" UnknownJob ∈ notes (world (run overtaken)).
Proof. vm_compute. split_and!; [done..|]. repeat first [by left|right]. Qed.

(** A lifetime of [2 ^ 63 - 1] seconds, which the clamp lets through, is more than a
    [chrono::Duration] holds: the request panics instead of being refused. *)
Example lifetime_panics :
  match tasks (run (Call "alice" (new_create None (2 ^ 63 - 1)) :: steps 1 5)) !! 1 with Some Panic => true | _ => false end = true.
Proof. by vm_compute. Qed.

(** ** Witnesses *)

Lemma session_test {A} (o : option A) (f : A → bool) : from_option f false o = true → ∃ x, o = Some x ∧ f x = true.
Proof. destruct o; [eauto|done]. Qed.

(** The session of the first number, with a status. *)
Lemma session_with sys n (status : SessionStatus) :
  from_option (λ s, bool_decide (cs_status s = status)) false (sessions (world sys) !! numbered n) = true →
  ∃ s, recorded sys (numbered n) s ∧ cs_status s = status.
Proof. intros (s & Hs & Hst)%session_test. apply bool_decide_eq_true in Hst. by exists s. Qed.

Definition destroying : list Move := Call "alice" (OpDestroy (numbered 0)) :: steps 3 30.
Definition destroyed : list Move := ready ++ destroying.
Definition expired : list Move := ready ++ Later JobSucceeded 60 :: steps 0 20 ++ steps 3 30.
Definition twice : list Move := creating ++ Call "alice" (new_create (Some "dev") 60) :: steps 3 20.

Lemma session_lifecycle_witness :
  ∃ s s', recorded (run ready) (numbered 0) s ∧ recorded (run destroyed) (numbered 0) s' ∧ cs_status s' = Destroyed ∧
    cs_terms s' = cs_terms s.
Proof.
  destruct (session_with (run ready) 0 Ready) as (s & Hs & Hst); [vm_compute; reflexivity|].
  destruct (session_with (run destroyed) 0 Destroyed) as (s2 & Hs2 & Hst2); [vm_compute; reflexivity|].
  destruct (session_lifecycle provider (run ready) (run destroyed) (numbered 0) s (run_reachable _)) as (s' & Hs' & Ht & _).
  - unfold destroyed. rewrite run_app. apply after_moves_steps.
  - exact Hs.
  - exists s, s2. unfold recorded in *. rewrite Hs2 in Hs'. injection Hs' as <-. split_and!; assumption.
Defined.

Lemma generation_fences_witness :
  ∃ (s s' : ComputeSession) w', recorded (run ready) (numbered 0) s ∧
    mutate (cs_session_id s) (Some (cs_generation s)) "stopping" request_stop (world (run ready)) = (Ok s', w') ∧
    ∃ c, recorded (run ready) (cs_session_id s) c ∧ shape c = shape s.
Proof.
  destruct (session_test (sessions (world (run ready)) !! numbered 0)
    (λ s : ComputeSession, is_ok (fst (mutate (cs_session_id s) (Some (cs_generation s)) "stopping" request_stop (world (run ready))))))
    as (s & Hs & Hok); [vm_compute; reflexivity|].
  destruct (recorded_past provider (run ready) (numbered 0) s (run_reachable _) Hs) as [Hp _].
  destruct (mutate (cs_session_id s) (Some (cs_generation s)) "stopping" request_stop (world (run ready))) as [r w'] eqn:Hm.
  pose proof (generation_fences provider (run ready) s "stopping" request_stop r w' (run_reachable _) Hp Hm) as Hf.
  destruct r as [s'|e]; [|discriminate Hok]. destruct Hf as (c & _ & Hc & Hshape & _).
  exists s, s', w'. split; [exact Hs|]. split; [exact Hm|]. exists c. split; assumption.
Defined.

Lemma session_ready_proved_witness :
  ∃ s, recorded (run ready) (numbered 0) s ∧ is_Some (cs_provider_session_id s) ∧
    jobs (world (run ready)) !! cs_job_id s = Some JobSucceeded.
Proof.
  destruct (session_with (run ready) 0 Ready) as (s & Hs & Hst); [vm_compute; reflexivity|].
  exists s. split; [exact Hs|]. apply (session_ready_proved provider (run ready) (numbered 0) s (run_reachable _) Hs).
  rewrite Hst. reflexivity.
Defined.

Lemma teardown_complete_witness :
  ∃ s, recorded (run destroyed) (numbered 0) s ∧ cs_status s = Destroyed ∧
    ∀ e, e ∈ cs_executions s → accounted (world (run destroyed)) (exe_job_id e).
Proof.
  destruct (session_with (run destroyed) 0 Destroyed) as (s & Hs & Hst); [vm_compute; reflexivity|].
  exists s. split; [exact Hs|]. split; [exact Hst|].
  apply (teardown_complete provider (run destroyed) (numbered 0) s (run_reachable _) Hs). rewrite Hst. reflexivity.
Defined.

Lemma only_due_expires_witness :
  ∃ s, recorded (run expired) (numbered 0) s ∧ cs_ownership s = Ephemeral.
Proof.
  destruct (session_with (run expired) 0 Expired) as (s & Hs & Hst); [vm_compute; reflexivity|].
  exists s. split; [exact Hs|].
  apply (only_due_expires provider (run expired) (numbered 0) s (run_reachable _) Hs). right. exact Hst.
Defined.

(** Alice asks for the same reference again. *)
Lemma reference_names_one_witness :
  ∃ s, recorded (run twice) (numbered 0) s ∧ numbered 0 = numbered 0 ∧ size (sessions (world (run twice))) = 1.
Proof.
  destruct (session_test (sessions (world (run twice)) !! numbered 0)
    (λ s : ComputeSession, bool_decide (cs_reference s = Some "dev") && negb (SessionStatus.is_terminal (cs_status s))))
    as (s & Hs & Ht); [vm_compute; reflexivity|].
  apply andb_true_iff in Ht as [Hn%bool_decide_eq_true Ht%negb_true_iff]. exists s. split; [exact Hs|].
  split; [|vm_compute; reflexivity].
  apply (reference_names_one provider (run twice) (numbered 0) s (numbered 0) s "dev" (run_reachable _) Hs Hs eq_refl Hn Hn Ht Ht).
Defined.


Lemma no_session_forgotten_witness :
  numbered 0 ∈ live (world (run ready)) ∨
  ∃ t p, tasks (run ready) !! t = Some p ∧ owes (listed (numbered 0)) p (world (run ready)).
Proof.
  destruct (session_with (run ready) 0 Ready) as (s & Hs & Hst); [vm_compute; reflexivity|].
  apply (no_session_forgotten provider (run ready) (numbered 0) s (run_reachable _) Hs). rewrite Hst. reflexivity.
Defined.

Lemma foreign_session_unknown_witness :
  refuses (destroy_session (numbered 0) "mallory") unknown_session (world (run ready)) ∧
  refuses (exec_session provider (numbered 0) "mallory" ls) unknown_session (world (run ready)).
Proof.
  assert (hidden (numbered 0) "mallory" (world (run ready))) as Hh.
  { intros s Hs Ho. destruct (session_test (sessions (world (run ready)) !! numbered 0)
      (λ s : ComputeSession, String.eqb (cs_owner s) "alice")) as (s' & Hs' & Ha); [vm_compute; reflexivity|].
    rewrite Hs in Hs'. injection Hs' as <-. apply String.eqb_eq in Ha. rewrite Ha in Ho. discriminate Ho. }
  destruct (foreign_session_unknown provider (world (run ready)) (numbered 0) "mallory"
    {| fork_count := 1; fork_references := [] |} ls Hh ltac:(vm_compute; reflexivity)) as (_ & _ & _ & _ & He & _ & _ & Hd & _).
  split; [exact Hd|exact He].
Defined.

Lemma driven_session_rests_witness :
  rounds provider polite 5 (numbered 0) (rested (numbered 0)) (world (run creating)).
Proof.
  destruct (session_with (run creating) 0 Provisioning) as (s & Hs & _); [vm_compute; reflexivity|].
  exact (driven_session_rests provider (run creating) (numbered 0) s (run_reachable _) Hs).
Defined.

Lemma destroy_completes_witness :
  ends provider helpful (λ r w', ∃ s', r = Ok s' ∧ sessions w' !! numbered 0 = Some s' ∧ cs_status s' = Destroyed)
    (destroy_session (numbered 0) "alice") (world (run ready)).
Proof.
  destruct (session_test (sessions (world (run ready)) !! numbered 0)
    (λ s : ComputeSession, bool_decide (cs_status s = Ready) && String.eqb (cs_owner s) "alice")) as (s & Hs & Ht);
    [vm_compute; reflexivity|].
  apply andb_true_iff in Ht as [Hst%bool_decide_eq_true Ho%String.eqb_eq].
  pose proof (destroy_completes provider (run ready) (numbered 0) s "alice" (run_reachable _) Hs Ho) as Hd.
  rewrite Hst in Hd. exact (Hd eq_refl).
Defined.
