(* ===== verification/State.v ===== *)
(** The control-state boundary (src/crates/compute-state/src/store.rs): typed
    collections of JSON documents with versions assigned by the backend, queries
    over them, and atomic batches of writes fenced on versions.

    A document's numbers are the integers [serde_json] holds exactly
    ([i64] and [u64]); the control model has no floating-point field.  A
    version is a [u64] whose increment wraps. *)

From S2P Require Import Prelude Text.

(** ** Collections *)

Module Collection.
Inductive t : Type :=
| Project | ProjectRevision | Environment | EnvironmentProject | Deployment | Workload | Execution
| Service | Provider | Receipt | Event | WorkloadStatus | Artifact | ArtifactChunk | WorkloadInstance
| TrafficAssignment | Domain | DnsRecord | Certificate | OperatorCredential | Audit | Computer
| WorkSession | Version | Rollout | Checkpoint | Recipe.

Definition ALL : list t :=
  [Project; ProjectRevision; Environment; EnvironmentProject; Deployment; Workload; Execution;
   Service; Provider; Receipt; Event; WorkloadStatus; Artifact; ArtifactChunk; WorkloadInstance;
   TrafficAssignment; Domain; DnsRecord; Certificate; OperatorCredential; Audit; Computer;
   WorkSession; Version; Rollout; Checkpoint; Recipe].

Definition name (c : t) : string :=
  match c with
  | Project => "Project" | ProjectRevision => "ProjectRevision" | Environment => "Environment"
  | EnvironmentProject => "EnvironmentProject" | Deployment => "Deployment"
  | Workload => "Workload" | Execution => "Execution" | Service => "Service"
  | Provider => "Provider" | Receipt => "Receipt" | Event => "Event"
  | WorkloadStatus => "WorkloadStatus" | Artifact => "Artifact" | ArtifactChunk => "ArtifactChunk"
  | WorkloadInstance => "WorkloadInstance" | TrafficAssignment => "TrafficAssignment"
  | Domain => "Domain" | DnsRecord => "DnsRecord" | Certificate => "Certificate"
  | OperatorCredential => "OperatorCredential" | Audit => "Audit" | Computer => "Computer"
  | WorkSession => "WorkSession" | Version => "Version" | Rollout => "Rollout"
  | Checkpoint => "Checkpoint" | Recipe => "Recipe"
  end.

#[global] Instance eq_dec : EqDecision t.
Proof. solve_decision. Defined.

Definition from_name (wanted : string) : option t := find (λ c, String.eqb (name c) wanted) ALL.

Lemma from_name_name c : from_name (name c) = Some c.
Proof. by destruct c. Qed.

#[global] Instance countable : Countable t := inj_countable name from_name from_name_name.

#[global] Instance name_inj : Inj (=) (=) name.
Proof. intros c d H. apply (f_equal from_name) in H. rewrite !from_name_name in H. congruence. Qed.

Definition position (c : t) : N := default 0%N (N.of_nat ∘ fst <$> list_find (c =.) ALL).

Lemma position_lookup c : ALL !! N.to_nat (position c) = Some c.
Proof. by destruct c. Qed.

#[global] Instance position_inj : Inj (=) (=) position.
Proof.
  intros c d H. pose proof (position_lookup c) as Hc. rewrite H, (position_lookup d) in Hc.
  by injection Hc.
Qed.

(** Derived [Ord]: the order of declaration. *)
#[global] Instance ord : Ord t := ord_by position.
#[global] Instance ord_laws : OrdLaws t := ord_by_laws position.
End Collection.
Notation Collection := Collection.t.

(** ** Records and writes *)

Notation Document := (gmap string Value) (only parsing).

Record StateRecord : Type := {
  rec_id : string;
  rec_version : N;
  rec_value : Document;
}.

#[export] Instance state_record_eq_dec : EqDecision StateRecord.
Proof. solve_decision. Defined.

Inductive StateWrite : Type :=
| Create (collection : Collection) (id : string) (value : Document)
| Replace (collection : Collection) (id : string) (value : Document) (expected : option N)
| Update (collection : Collection) (id : string) (fields : Document) (expected : option N)
| Delete (collection : Collection) (id : string) (expected : option N).

Definition write_collection (w : StateWrite) : Collection :=
  match w with
  | Create c _ _ | Replace c _ _ _ | Update c _ _ _ | Delete c _ _ => c
  end.

Definition write_id (w : StateWrite) : string :=
  match w with
  | Create _ id _ | Replace _ id _ _ | Update _ id _ _ | Delete _ id _ => id
  end.

Inductive StateError : Type :=
| Conflict (collection : Collection) (id : string)
| Precondition (collection : Collection) (id : string) (expected : N) (actual : option N)
| NotFound (collection : Collection) (id : string)
| StateInvalid (message : string)
| StateUnavailable (message : string).

#[export] Instance state_error_eq_dec : EqDecision StateError.
Proof. solve_decision. Defined.

(** [StateError::is_race] *)
Definition is_race (e : StateError) : bool :=
  match e with Conflict _ _ | Precondition _ _ _ _ => true | _ => false end.

Definition show_actual (actual : option N) : string :=
  match actual with Some n => "Some(" +:+ show n +:+ ")" | None => "None" end.

Definition state_error_to_string (e : StateError) : string :=
  match e with
  | Conflict c id => Collection.name c +:+ " " +:+ id +:+ " already exists"
  | Precondition c id expected actual =>
      Collection.name c +:+ " " +:+ id +:+ " changed: expected version " +:+ show expected
      +:+ ", found " +:+ show_actual actual
  | NotFound c id => Collection.name c +:+ " " +:+ id +:+ " does not exist"
  | StateInvalid message => "invalid state: " +:+ message
  | StateUnavailable message => "state backend unavailable: " +:+ message
  end.

(** ** Comparison of values *)

Definition i64_fits (z : Z) : bool := Z.leb (-9223372036854775808) z && Z.leb z 9223372036854775807.

(** [as f64] of an integer: the nearest integer of 53 significant bits, ties to
    even. *)
Definition as_f64 (z : Z) : Z :=
  let m := Z.abs z in
  let shift := Z.max 0 (Z.log2 m - 52) in
  let q := Z.shiftr m shift in
  let rest := (2 * (m - Z.shiftl q shift))%Z in
  let unit_ := Z.shiftl 1 shift in
  let q' := if Z.ltb unit_ rest || (Z.eqb unit_ rest && Z.odd q) then (q + 1)%Z else q in
  (Z.sgn z * Z.shiftl q' shift)%Z.

(** [compare] *)
Definition compare_values (l r : Value) : option comparison :=
  match l, r with
  | Number l, Number r =>
      if i64_fits l && i64_fits r then Some (Z.compare l r)
      else Some (Z.compare (as_f64 l) (as_f64 r))
  | Str l, Str r => Some (String.compare l r)
  | Bool l, Bool r => Some (Bool.compare l r)
  | _, _ => None
  end.

(** ** Queries *)

Inductive Comparison : Type := CmpEq | CmpGt | CmpGte | CmpLt | CmpLte | CmpIn.

Record Filter : Type := {
  filter_field : string;
  filter_comparison : Comparison;
  filter_value : Value;
}.

Definition ID_FIELD : string := "_id".

Definition matches_value (f : Filter) (actual : option Value) : bool :=
  match actual with
  | None => false
  | Some actual =>
      let ordering := compare_values actual (filter_value f) in
      match filter_comparison f with
      | CmpIn => match filter_value f with
                 | Array values => bool_decide (actual ∈ values)
                 | _ => false
                 end
      | CmpEq => value_eqb actual (filter_value f)
      | CmpGt => bool_decide (ordering = Some Gt)
      | CmpGte => bool_decide (ordering = Some Gt ∨ ordering = Some Eq)
      | CmpLt => bool_decide (ordering = Some Lt)
      | CmpLte => bool_decide (ordering = Some Lt ∨ ordering = Some Eq)
      end
  end.

Definition matches (f : Filter) (document : Document) : bool :=
  matches_value f (document !! filter_field f).

Definition matches_record (f : Filter) (r : StateRecord) : bool :=
  if String.eqb (filter_field f) ID_FIELD then matches_value f (Some (Str (rec_id r)))
  else matches f (rec_value r).

Record Query : Type := {
  query_collection : Collection;
  query_filters : list Filter;
  query_order_by : option (string * bool);
  query_limit : option nat;
}.

Definition query_all (c : Collection) : Query :=
  {| query_collection := c; query_filters := []; query_order_by := None; query_limit := None |}.

Definition query_filter (q : Query) (field : string) (comparison : Comparison) (value : Value) : Query :=
  {| query_collection := query_collection q;
     query_filters := query_filters q ++
       [{| filter_field := field; filter_comparison := comparison; filter_value := value |}];
     query_order_by := query_order_by q; query_limit := query_limit q |}.

Definition query_eq (q : Query) (field : string) (value : Value) : Query :=
  query_filter q field CmpEq value.

Definition one_of_values (q : Query) (field : string) (values : list Value) : Query :=
  query_filter q field CmpIn (Array values).

Definition query_ids (q : Query) (ids : list string) : Query :=
  one_of_values q ID_FIELD (Str <$> ids).

Definition ascending (q : Query) (field : string) : Query :=
  {| query_collection := query_collection q; query_filters := query_filters q;
     query_order_by := Some (field, false); query_limit := query_limit q |}.

Definition descending (q : Query) (field : string) : Query :=
  {| query_collection := query_collection q; query_filters := query_filters q;
     query_order_by := Some (field, true); query_limit := query_limit q |}.

Definition with_limit (q : Query) (limit : nat) : Query :=
  {| query_collection := query_collection q; query_filters := query_filters q;
     query_order_by := query_order_by q; query_limit := Some limit |}.

Definition by_record_id (l r : StateRecord) : comparison := cmp (rec_id l) (rec_id r).

Definition by_field (field : string) (down : bool) (l r : StateRecord) : comparison :=
  let ordering :=
    match rec_value l !! field, rec_value r !! field with
    | Some l, Some r => default Eq (compare_values l r)
    | Some _, None => Lt
    | None, Some _ => Gt
    | None, None => Eq
    end in
  if down then CompOpp ordering else ordering.

(** [Query::evaluate] *)
Definition evaluate_query (q : Query) (records : list StateRecord) : list StateRecord :=
  let selected := filter (λ r, forallb (λ f, matches_record f r) (query_filters q) = true) records in
  let sorted := sort_by by_record_id selected in
  let ordered :=
    match query_order_by q with
    | Some (field, down) => sort_by (by_field field down) sorted
    | None => sorted
    end in
  match query_limit q with Some limit => take limit ordered | None => ordered end.

(** ** Tables *)

Notation Row := (N * Document)%type (only parsing).
Notation Tables := (gmap Collection (gmap string Row)) (only parsing).

Definition row (t : Tables) (c : Collection) (id : string) : option Row := t !! c ≫= (.!! id).

(** [tables.entry(collection).or_default()] *)
Definition or_default (c : Collection) (t : Tables) : Tables :=
  match t !! c with Some _ => t | None => <[c := ∅]> t end.

Definition put_row (c : Collection) (id : string) (r : Row) (t : Tables) : Tables :=
  <[c := <[id := r]> (default ∅ (t !! c))]> t.

Definition remove_row (c : Collection) (id : string) (t : Tables) : Tables :=
  <[c := delete id (default ∅ (t !! c))]> t.

(** What a write replaced. *)
Definition Undo : Type := Collection * string * option Row.

Definition fence (c : Collection) (id : string) (expected current : option N)
    : Result unit StateError :=
  match expected, current with
  | _, None => Err (NotFound c id)
  | Some expected, Some actual =>
      if N.eqb expected actual then Ok tt else Err (Precondition c id expected (Some actual))
  | None, Some _ => Ok tt
  end.

(** [*next_version += 1] *)
Definition u64_succ (n : N) : N := ((n + 1) mod (u64_max + 1))%N.

(** One write, on a table that exists. *)
Definition apply_write (w : StateWrite) (t : Tables) (next : N) : Result (Tables * N * Undo) StateError :=
  let c := write_collection w in
  let previous := row t c (write_id w) in
  let current := fst <$> previous in
  match w with
  | Create _ id value =>
      reject_if (bool_decide (is_Some current)) (Conflict c id) ;?;
      let next := u64_succ next in Ok (put_row c id (next, value) t, next, (c, id, None))
  | Replace _ id value expected =>
      fence c id expected current ;?;
      let next := u64_succ next in Ok (put_row c id (next, value) t, next, (c, id, previous))
  | Update _ id fields expected =>
      fence c id expected current ;?;
      let next := u64_succ next in
      let document := default ∅ (snd <$> previous) in
      Ok (put_row c id (next, fields ∪ document) t, next, (c, id, previous))
  | Delete _ id expected =>
      fence c id expected current ;?;
      let next := u64_succ next in Ok (remove_row c id t, next, (c, id, previous))
  end.

(** The writes in order, with what they replaced (latest first), up to the
    first refused. *)
Fixpoint apply_writes (ws : list StateWrite) (t : Tables) (next : N) (undo : list Undo)
    : Tables * N * list Undo * Result unit StateError :=
  match ws with
  | [] => (t, next, undo, Ok tt)
  | w :: ws =>
      let t := or_default (write_collection w) t in
      match apply_write w t next with
      | Ok (t, next, u) => apply_writes ws t next (u :: undo)
      | Err e => (t, next, undo, Err e)
      end
  end.

Definition undo_write (t : Tables) (u : Undo) : Tables :=
  let '(c, id, previous) := u in
  match previous with Some r => put_row c id r t | None => remove_row c id t end.

(** [apply_in_memory] *)
Definition apply_in_memory (t : Tables) (ws : list StateWrite) (next : N)
    : Tables * N * Result unit StateError :=
  let '(t, next, undo, result) := apply_writes ws t next [] in
  match result with
  | Ok _ => (t, next, result)
  | Err _ => (foldl undo_write t undo, next, result)
  end.

(** ** Transitions *)

Record Transition : Type := {
  tr_before : N;
  tr_after : N;
  tr_collections : list Collection;
}.

Definition UNCHAINED : N * N := (u64_max - 1, u64_max)%N.
Definition TRANSITIONS_CAPACITY : nat := 65536.

Definition unchained : Transition :=
  {| tr_before := fst UNCHAINED; tr_after := snd UNCHAINED; tr_collections := btree_set Collection.ALL |}.

(** [Transitions::record] *)
Definition record_transition (recorded : list Transition) (transition : option (N * N))
    (ws : list StateWrite) : list Transition :=
  let recorded := if Nat.leb TRANSITIONS_CAPACITY (length recorded) then [unchained] else recorded in
  recorded ++
  [match transition with
   | Some (before, after) =>
       {| tr_before := before; tr_after := after; tr_collections := btree_set (write_collection <$> ws) |}
   | None => unchained
   end].

(** ** The reference semantics

    The state as one map from collection and identity to version and document;
    a batch is applied to it as a whole or not at all. *)

Notation Rows := (gmap (Collection * string) (N * Document)) (only parsing).

Definition rows (t : Tables) : Rows :=
  map_uncurry (M1 := gmap Collection) (M2 := gmap string) (M12 := gmap (Collection * string)) t.

Definition spec_fence (c : Collection) (id : string) (expected : option N) (m : Rows)
    (k : Document → Rows) : Result Rows StateError :=
  match m !! (c, id) with
  | None => Err (NotFound c id)
  | Some (actual, document) =>
      match expected with
      | Some version =>
          if decide (version = actual) then Ok (k document)
          else Err (Precondition c id version (Some actual))
      | None => Ok (k document)
      end
  end.

Definition spec_write (w : StateWrite) (version : N) (m : Rows) : Result Rows StateError :=
  match w with
  | Create c id value =>
      match m !! (c, id) with
      | Some _ => Err (Conflict c id)
      | None => Ok (<[(c, id) := (version, value)]> m)
      end
  | Replace c id value expected =>
      spec_fence c id expected m (λ _, <[(c, id) := (version, value)]> m)
  | Update c id fields expected =>
      spec_fence c id expected m (λ document, <[(c, id) := (version, fields ∪ document)]> m)
  | Delete c id expected => spec_fence c id expected m (λ _, delete (c, id) m)
  end.

Fixpoint spec_batch (ws : list StateWrite) (next : N) (m : Rows) : Result Rows StateError :=
  match ws with
  | [] => Ok m
  | w :: ws => let? m := spec_write w (u64_succ next) m in spec_batch ws (u64_succ next) m
  end.

(** The counter after some writes. *)
Definition advance (next : N) (count : nat) : N := Nat.iter count u64_succ next.

(** ** Tables and rows *)

Lemma lookup_rows t c id : rows t !! (c, id) = row t c id.
Proof. apply (lookup_map_uncurry (M1 := gmap Collection) (M2 := gmap string)). Qed.

Lemma rows_ext t u : (∀ c id, row t c id = row u c id) → rows t = rows u.
Proof. intros H. apply map_eq. intros [c id]. by rewrite !lookup_rows. Qed.

Lemma row_put c id r t c' id' :
  row (put_row c id r t) c' id' = if decide ((c, id) = (c', id')) then Some r else row t c' id'.
Proof.
  unfold row, put_row. destruct (decide (c = c')) as [<-|Hc].
  - rewrite lookup_insert_eq. simpl. destruct (decide (id = id')) as [<-|Hid].
    + by rewrite lookup_insert_eq, decide_True.
    + rewrite lookup_insert_ne, decide_False by congruence. by destruct (t !! c).
  - by rewrite lookup_insert_ne, decide_False by congruence.
Qed.

Lemma row_remove c id t c' id' :
  row (remove_row c id t) c' id' = if decide ((c, id) = (c', id')) then None else row t c' id'.
Proof.
  unfold row, remove_row. destruct (decide (c = c')) as [<-|Hc].
  - rewrite lookup_insert_eq. simpl. destruct (decide (id = id')) as [<-|Hid].
    + by rewrite lookup_delete_eq, decide_True.
    + rewrite lookup_delete_ne, decide_False by congruence. by destruct (t !! c).
  - by rewrite lookup_insert_ne, decide_False by congruence.
Qed.

Lemma rows_or_default c t : rows (or_default c t) = rows t.
Proof.
  apply rows_ext. intros c' id. unfold row, or_default. destruct (t !! c) eqn:E; [done|].
  destruct (decide (c = c')) as [<-|]; [by rewrite lookup_insert_eq, E|by rewrite lookup_insert_ne].
Qed.

Lemma rows_put c id r t : rows (put_row c id r t) = <[(c, id) := r]> (rows t).
Proof.
  apply map_eq. intros [c' id']. rewrite lookup_rows, row_put. case_decide as E.
  - by rewrite E, lookup_insert_eq.
  - by rewrite lookup_insert_ne, lookup_rows by done.
Qed.

Lemma rows_remove c id t : rows (remove_row c id t) = delete (c, id) (rows t).
Proof.
  apply map_eq. intros [c' id']. rewrite lookup_rows, row_remove. case_decide as E.
  - by rewrite E, lookup_delete_eq.
  - by rewrite lookup_delete_ne, lookup_rows by done.
Qed.

#[export] Hint Rewrite rows_or_default rows_put rows_remove : state.

Lemma rows_undo t c id previous :
  rows (undo_write t (c, id, previous)) =
  match previous with Some r => <[(c, id) := r]> (rows t) | None => delete (c, id) (rows t) end.
Proof. destruct previous; simpl; by autorewrite with state. Qed.

(** Undoing only reads the rows. *)
Lemma rows_undo_all undo t u : rows t = rows u → rows (foldl undo_write t undo) = rows (foldl undo_write u undo).
Proof.
  revert t u. induction undo as [|[[c id] previous] undo IH]; intros t u H; [done|].
  cbn [foldl]. apply IH. by rewrite !rows_undo, H.
Qed.

(** One write: the reference semantics, and an undo that restores. *)
Lemma apply_write_spec w t next :
  match apply_write w t next with
  | Ok (t', next', u) =>
      next' = u64_succ next ∧ spec_write w next' (rows t) = Ok (rows t') ∧ rows (undo_write t' u) = rows t
  | Err e => spec_write w (u64_succ next) (rows t) = Err e
  end.
Proof.
  assert (∀ c id expected (previous : option (N * Document)) e,
    (fence c id expected (fst <$> previous) = Err e →
      ∀ m k, m !! (c, id) = previous → spec_fence c id expected m k = Err e) ∧
    (fence c id expected (fst <$> previous) = Ok tt →
      ∃ r, previous = Some r ∧ ∀ m k, m !! (c, id) = previous → spec_fence c id expected m k = Ok (k (snd r))))
    as Hfence.
  { intros c id expected [[actual document]|] e; unfold fence, spec_fence; simpl; split.
    3: by destruct expected; intros [= <-] m k ->.
    3: by destruct expected.
    all: destruct expected as [version|]; [destruct (N.eqb_spec version actual)|];
      intros [=]; subst; try (exists (actual, document); split; [done|]); intros m k ->;
      by rewrite ?decide_True, ?decide_False by done. }
  destruct w as [c id value|c id value expected|c id fields expected|c id expected];
    unfold apply_write; cbn [write_collection write_id spec_write]; pose proof (lookup_rows t c id) as Hl.
  { rewrite Hl. destruct (row t c id) as [r|]; simpl; [done|]. autorewrite with state.
    by rewrite delete_insert_id. }
  all: destruct (fence c id expected (fst <$> row t c id)) as [[]|e] eqn:Ef; cbn [and_then];
    [|by eapply Hfence].
  all: destruct (proj2 (Hfence c id expected (row t c id) (NotFound c id)) Ef) as (r & Hr & Hspec);
    rewrite (Hspec _ _ Hl), Hr, rows_undo; autorewrite with state; split_and!; [done..|];
    rewrite Hr in Hl.
  1, 2: by rewrite insert_insert_eq, insert_id.
  by rewrite insert_delete_eq, insert_id.
Qed.

Lemma advance_succ next n : advance (u64_succ next) n = advance next (S n).
Proof. unfold advance. induction n as [|n IH]; simpl; [done|]. by rewrite IH. Qed.

Lemma apply_writes_spec ws t next undo :
  let '(t', next', undo', result) := apply_writes ws t next undo in
  ∃ new, undo' = new ++ undo ∧ rows (foldl undo_write t' new) = rows t ∧
    match result with
    | Ok _ => spec_batch ws next (rows t) = Ok (rows t') ∧ next' = advance next (length ws)
    | Err e => spec_batch ws next (rows t) = Err e ∧ ∃ n, n < length ws ∧ next' = advance next n
    end.
Proof.
  revert t next undo. induction ws as [|w ws IH]; intros t next undo; simpl.
  { exists []. done. }
  pose proof (apply_write_spec w (or_default (write_collection w) t) next) as Hw.
  rewrite rows_or_default in Hw.
  destruct (apply_write w (or_default (write_collection w) t) next) as [[[t1 next1] u]|e].
  - destruct Hw as (-> & -> & Hundo). simpl. specialize (IH t1 (u64_succ next) (u :: undo)).
    destruct (apply_writes ws t1 (u64_succ next) (u :: undo)) as [[[t' next'] undo'] result].
    destruct IH as (new & -> & Hnew & Hres). exists (new ++ [u]). split; [by rewrite <-app_assoc|].
    split. { rewrite foldl_app. cbn [foldl]. etrans; [|exact Hundo]. by apply (rows_undo_all [u]). }
    destruct result as [[]|e].
    + destruct Hres as [-> ->]. by rewrite advance_succ.
    + destruct Hres as (-> & n & Hn & ->). split; [done|]. exists (S n). rewrite advance_succ.
      split; [lia|done].
  - rewrite Hw. simpl. exists []. simpl. rewrite rows_or_default. split_and!; [done..|].
    exists 0. split; [lia|done].
Qed.

(** What a commit does, whole: the reference semantics of the batch when it is
    accepted, and nothing to any row when it is refused. *)
Lemma apply_in_memory_spec t ws next :
  let '(t', next', result) := apply_in_memory t ws next in
  match spec_batch ws next (rows t) with
  | Ok m => result = Ok tt ∧ rows t' = m ∧ next' = advance next (length ws)
  | Err e => result = Err e ∧ rows t' = rows t ∧ ∃ n, n < length ws ∧ next' = advance next n
  end.
Proof.
  unfold apply_in_memory. pose proof (apply_writes_spec ws t next []) as H.
  destruct (apply_writes ws t next []) as [[[t' next'] undo] result].
  destruct H as (new & -> & Hundo & Hres). rewrite app_nil_r. destruct result as [[]|e].
  - destruct Hres as [-> ->]. done.
  - destruct Hres as (-> & n & Hn & ->). split_and!; [done..|]. by exists n.
Qed.

(** ** Histories

    What readers can tell of a state: its rows and its counter.  A step is a
    commit, accepted or refused (a refused one may still advance the counter);
    the counter has room for the writes. *)

Inductive commit_step : Rows * N → Rows * N → Prop :=
| commit_accepted m n ws m' :
    (n + N.of_nat (length ws) ≤ u64_max)%N → spec_batch ws n m = Ok m' →
    commit_step (m, n) (m', n + N.of_nat (length ws))%N
| commit_refused m n k :
    (n + k ≤ u64_max)%N → commit_step (m, n) (m, n + k)%N.

Definition history : relation (Rows * N) := rtc commit_step.

(** No row is newer than the counter. *)
Definition bounded (m : Rows) (n : N) : Prop := ∀ k v d, m !! k = Some (v, d) → (v ≤ n)%N.

Lemma u64_succ_room n : (n < u64_max)%N → u64_succ n = (n + 1)%N.
Proof. intros H. unfold u64_succ. apply N.mod_small. lia. Qed.

Lemma advance_room n k : (n + N.of_nat k ≤ u64_max)%N → advance n k = (n + N.of_nat k)%N.
Proof.
  unfold advance. induction k as [|k IH]; intros H; simpl Nat.iter; [lia|].
  rewrite IH, u64_succ_room by lia. lia.
Qed.

(** A write leaves every row as it was, or gives it the new version. *)
Lemma spec_write_rows w v m m' k r :
  spec_write w v m = Ok m' → m' !! k = Some r → fst r = v ∨ m !! k = Some r.
Proof.
  unfold spec_write, spec_fence. intros Hw Hk.
  destruct w; repeat (case_match; simplify_eq/=);
    try (apply lookup_insert_Some in Hk as [[<- <-]|[_ ?]]; [by left|by right]);
    by apply lookup_delete_Some in Hk as [_ ?]; right.
Qed.

Lemma spec_batch_rows ws n m m' k v d :
  (n + N.of_nat (length ws) ≤ u64_max)%N → spec_batch ws n m = Ok m' → m' !! k = Some (v, d) →
  (n < v ≤ n + N.of_nat (length ws))%N ∨ m !! k = Some (v, d).
Proof.
  revert n m. induction ws as [|w ws IH]; simpl; intros n m Hroom Hb Hk.
  { ok_inv. by right. }
  rewrite u64_succ_room in Hb by lia. apply and_then_ok in Hb as (m1 & Hw & Hb).
  destruct (IH (n + 1)%N m1) as [?|Hk1]; [lia|done..|left; lia|].
  apply (spec_write_rows w _ _ _ _ _ Hw) in Hk1 as [Hv|?]; [left|by right]. simpl in Hv. lia.
Qed.

Lemma commit_step_spec x y : commit_step x y →
  (snd x ≤ snd y)%N ∧ (snd x = snd y → fst x = fst y) ∧
  (∀ k v d, fst y !! k = Some (v, d) → (snd x < v ≤ snd y)%N ∨ fst x !! k = Some (v, d)).
Proof.
  destruct 1 as [m n ws m' Hroom Hb|m n k Hroom]; simpl.
  - split_and!; [lia| |].
    + intros Heq. destruct ws; [by injection Hb|simpl in Heq; lia].
    + intros k v d. by apply (spec_batch_rows ws).
  - split_and!; [lia|done|by right].
Qed.

Lemma history_spec x y : history x y →
  (snd x ≤ snd y)%N ∧ (snd x = snd y → fst x = fst y) ∧
  (∀ k v d, fst y !! k = Some (v, d) → (snd x < v ≤ snd y)%N ∨ fst x !! k = Some (v, d)).
Proof.
  induction 1 as [x|x y z Hxy _ (Hle & Heq & Hrows)]; [split_and!; [lia|done|by right]|].
  apply commit_step_spec in Hxy as (Hle' & Heq' & Hrows'). split_and!; [lia| |].
  - intros H. rewrite Heq' by lia. apply Heq. lia.
  - intros k v d Hk. destruct (Hrows k v d Hk) as [?|Hk']; [left; lia|].
    destruct (Hrows' k v d Hk') as [?|?]; [left; lia|by right].
Qed.

Lemma history_bounded x y : history x y → bounded (fst x) (snd x) → bounded (fst y) (snd y).
Proof.
  intros H Hb k v d Hk. apply history_spec in H as (Hle & _ & Hrows).
  destruct (Hrows k v d Hk) as [?|Hk']; [lia|]. apply Hb in Hk'. lia.
Qed.

(** ** Queries *)

(** The order of a query's answers. *)
Definition query_order (q : Query) (l r : StateRecord) : comparison :=
  match query_order_by q with
  | Some (field, down) => then_with (by_field field down l r) (by_record_id l r)
  | None => by_record_id l r
  end.

(** The kinds of values that are ordered among themselves. *)
Inductive Kind : Type := KindNumber | KindStr | KindBool.

Definition has_kind (kind : Kind) (v : Value) : Prop :=
  match kind, v with
  | KindNumber, Number z => i64_fits z = true
  | KindStr, Str _ | KindBool, Bool _ => True
  | _, _ => False
  end.

(** The field a query orders by holds values of one kind. *)
Definition orderable (q : Query) (records : list StateRecord) : Prop :=
  match query_order_by q with
  | Some (field, _) => ∃ kind, ∀ r v, r ∈ records → rec_value r !! field = Some v → has_kind kind v
  | None => True
  end.

Definition selected_by (q : Query) (r : StateRecord) : Prop :=
  ∀ f, f ∈ query_filters q → matches_record f r = true.

#[export] Instance selected_by_dec q r : Decision (selected_by q r).
Proof.
  refine (cast_if (decide (Forall (λ f, matches_record f r = true) (query_filters q))));
    unfold selected_by; by rewrite <-Forall_forall.
Defined.

Lemma sort_by_ext {A} (c d : A → A → comparison) l :
  (∀ x y, x ∈ l → y ∈ l → c x y = d x y) → sort_by c l = sort_by d l.
Proof.
  induction l as [|x l IH]; intros H; simpl; [done|]. rewrite IH by set_solver.
  assert (∀ y, y ∈ sort_by d l → c x y = d x y) as Hx.
  { intros y Hy. apply elem_of_sort_by in Hy. apply H; set_solver. }
  clear -Hx. induction (sort_by d l) as [|y m IH]; simpl; [done|].
  rewrite Hx by set_solver. destruct (d x y); [done..|]. by rewrite IH by set_solver.
Qed.

(** Sorting is stable: a list sorted one way, sorted another, is sorted by the
    second and then the first. *)
Lemma sort_by_stable {A} (c d : A → A → comparison) `{Htotal : !TotalCmp c} l :
  StronglySorted (le_by d) l → StronglySorted (le_by (λ x y, then_with (c x y) (d x y))) (sort_by c l).
Proof.
  induction 1 as [|x l _ IH Hx]; simpl; [constructor|].
  assert (Forall (le_by d x) (sort_by c l)) as Hd by by rewrite sort_by_perm.
  pose proof (sort_by_StronglySorted c l) as Hc. revert IH Hc Hd. generalize (sort_by c l).
  clear -Htotal.
  intros m Hm. induction Hm as [|y m Hm IH Hy]; intros Hc Hd; simpl; [repeat constructor|].
  apply StronglySorted_inv in Hc as [Hcm Hcy]. apply Forall_cons in Hd as [Hdy Hdm].
  destruct (c x y) eqn:E.
  3: { constructor; [by apply IH|]. rewrite insert_by_perm. constructor; [|done].
       unfold le_by. rewrite (cmp_flip (c := c) x y), E. done. }
  all: constructor; [by constructor|]; constructor; [unfold le_by; rewrite E; done|].
  all: apply Forall_forall; intros z Hz; rewrite Forall_forall in Hcy, Hdm; unfold le_by in *.
  - rewrite (cmp_eq_le_trans c x y z E). specialize (Hcy z Hz). specialize (Hdm z Hz).
    by destruct (c y z).
  - by rewrite (cmp_lt_le_trans c x y z E (Hcy z Hz)).
Qed.

#[export] Instance by_record_id_total : TotalCmp by_record_id.
Proof. apply (cmp_on (@cmp string _)). Qed.

(** A field's values as keys of one kind. *)
Definition field_key (kind : Kind) (field : string) (r : StateRecord) : N * (Z * string) :=
  match rec_value r !! field with
  | None => (1%N, (0%Z, ""))
  | Some v =>
      (0%N, match v with
            | Number z => (z, "")
            | Str s => (0%Z, s)
            | Bool b => ((if b then 1 else 0)%Z, "")
            | _ => (0%Z, "")
            end)
  end.

Definition compare_keys (l r : N * (Z * string)) : comparison :=
  then_with (cmp (fst l) (fst r))
    (then_with (cmp (fst (snd l)) (fst (snd r))) (cmp (snd (snd l)) (snd (snd r)))).

#[export] Instance compare_keys_total : TotalCmp compare_keys.
Proof.
  unfold compare_keys. apply then_with_total; [apply (cmp_on (@cmp N _))|].
  apply then_with_total; [apply (cmp_on (@cmp Z _))|apply (cmp_on (@cmp string _))].
Qed.

Lemma by_field_keys kind field down l r :
  (∀ v, rec_value l !! field = Some v → has_kind kind v) →
  (∀ v, rec_value r !! field = Some v → has_kind kind v) →
  by_field field down l r =
    (if down then CompOpp else id) (compare_keys (field_key kind field l) (field_key kind field r)).
Proof.
  intros Hl Hr. unfold by_field, field_key, compare_keys.
  assert (∀ o, (if down then CompOpp o else o) = (if down then CompOpp else id) o) as -> by by destruct down.
  f_equal. destruct (rec_value l !! field) as [v|], (rec_value r !! field) as [w|]; [|done..].
  specialize (Hl v eq_refl). specialize (Hr w eq_refl).
  destruct kind, v as [|a|a|a|a|a], w as [|b|b|b|b|b]; simpl in Hl, Hr; try done; unfold compare_values.
  - rewrite Hl, Hr. simpl. unfold cmp, Z_ord. by destruct (a ?= b)%Z.
  - by destruct a, b.
Qed.

Lemma by_field_sorted q records :
  orderable q records → StronglySorted (le_by by_record_id) records →
  match query_order_by q with
  | Some (field, down) => StronglySorted (le_by (query_order q)) (sort_by (by_field field down) records)
  | None => True
  end.
Proof.
  unfold orderable, query_order. destruct (query_order_by q) as [[field down]|]; [|done].
  intros [kind Hkind] Hs.
  set (key := λ l r, (if down then CompOpp else id)
    (compare_keys (field_key kind field l) (field_key kind field r))).
  assert (TotalCmp key) as Htotal.
  { unfold key. pose proof (cmp_on compare_keys (field_key kind field)) as Hk. destruct down; [|done].
    destruct (cmp_flipped _ (TotalCmp0 := Hk)) as [Hf Ht]. split.
    - intros x y. by rewrite (cmp_flip (c := compare_keys) (field_key kind field x)).
    - intros x y z. rewrite <-!(cmp_flip (c := compare_keys)). apply Ht. }
  assert (∀ x y, x ∈ records → y ∈ records → by_field field down x y = key x y) as Hext.
  { intros x y Hx Hy. apply by_field_keys; intros v; by apply Hkind. }
  rewrite (sort_by_ext _ key) by done.
  pose proof (sort_by_stable key by_record_id records Hs) as Hsorted.
  assert (∀ x, x ∈ sort_by key records → x ∈ records) as Hin by (intros x; apply elem_of_sort_by).
  clear -Hsorted Hext Hin. induction Hsorted as [|x l Hl IH Hx]; [constructor|].
  constructor; [apply IH; set_solver|]. rewrite Forall_forall in Hx |- *. intros y Hy.
  specialize (Hx y Hy). unfold le_by in *. rewrite Hext by set_solver. done.
Qed.

(** What a query answers: the records its filters select, in its order, up to
    its limit. *)
Lemma evaluate_query_spec q records :
  orderable q records →
  ∃ all, all ≡ₚ filter (selected_by q) records ∧ StronglySorted (le_by (query_order q)) all ∧
    evaluate_query q records = match query_limit q with Some n => take n all | None => all end.
Proof.
  intros Ho. unfold evaluate_query.
  assert (∀ r, forallb (λ f, matches_record f r) (query_filters q) = true ↔ selected_by q r) as Hsel.
  { intros r. rewrite forallb_forall. unfold selected_by. by setoid_rewrite list_elem_of_In. }
  assert (filter (λ r, forallb (λ f, matches_record f r) (query_filters q) = true) records =
    filter (selected_by q) records) as -> by (apply list_filter_iff, Hsel).
  set (chosen := sort_by by_record_id (filter (selected_by q) records)).
  assert (orderable q chosen) as Hchosen.
  { unfold orderable in *. destruct (query_order_by q) as [[field down]|]; [|done].
    destruct Ho as [kind Hk]. exists kind. intros r v Hr. apply Hk. unfold chosen in Hr.
    apply elem_of_sort_by, list_elem_of_filter in Hr as [_ ?]. done. }
  pose proof (by_field_sorted q chosen Hchosen (sort_by_StronglySorted by_record_id _)) as Hs.
  unfold query_order in *. destruct (query_order_by q) as [[field down]|].
  - eexists. split; [|split; [exact Hs|done]]. unfold chosen. by rewrite !sort_by_perm.
  - exists chosen. split; [|split; [apply sort_by_StronglySorted, _|done]]. unfold chosen.
    by rewrite sort_by_perm.
Qed.

(** The order in which the records are given does not matter. *)
Lemma evaluate_query_perm q l1 l2 :
  NoDup (rec_id <$> l1) → l1 ≡ₚ l2 → evaluate_query q l1 = evaluate_query q l2.
Proof.
  intros Hnd Hp. unfold evaluate_query.
  set (P := λ r, forallb (λ f, matches_record f r) (query_filters q) = true).
  assert (sort_by by_record_id (filter P l1) = sort_by by_record_id (filter P l2)) as ->; [|done].
  apply sort_by_perm_eq; [apply _| |by rewrite Hp].
  intros x y Hx Hy Heq. apply list_elem_of_filter in Hx as [_ Hx], Hy as [_ Hy].
  unfold by_record_id in Heq. apply cmp_eq in Heq.
  apply list_elem_of_lookup in Hx as [i Hi], Hy as [j Hj].
  assert (i = j) as ->; [|congruence].
  eapply NoDup_lookup; [exact Hnd|by rewrite list_lookup_fmap, Hi|by rewrite list_lookup_fmap, Hj, Heq].
Qed.

(** ** Properties *)

(** C24: A commit is atomic.  It has the effect of the reference semantics on
    the whole state: every write of the batch in order, each with a new version,
    when all of them are allowed; otherwise the error of the first that is not,
    and not one row changes, although earlier writes of the batch had been
    applied in place. *)
Theorem commit_atomic t ws next :
  (next + N.of_nat (length ws) ≤ u64_max)%N →
  let '(t', next', result) := apply_in_memory t ws next in
  match spec_batch ws next (rows t) with
  | Ok m => result = Ok tt ∧ rows t' = m ∧ next' = (next + N.of_nat (length ws))%N
  | Err e => result = Err e ∧ rows t' = rows t ∧ (next ≤ next' < next + N.of_nat (length ws))%N
  end.
Proof.
  intros Hroom. pose proof (apply_in_memory_spec t ws next) as H.
  destruct (apply_in_memory t ws next) as [[t' next'] result].
  destruct (spec_batch ws next (rows t)) as [m|e].
  - destruct H as (-> & -> & ->). by rewrite advance_room.
  - destruct H as (-> & -> & n & Hn & ->). rewrite advance_room by lia. split_and!; [done..|lia|lia].
Qed.

(** A query answers exactly what it asks: the records its filters select,
    in its order (ties and unordered queries by identity), up to its limit, when
    the field it orders by holds values of one kind. *)
Theorem query_exact q records :
  orderable q records →
  ∃ all, all ≡ₚ filter (selected_by q) records ∧ StronglySorted (le_by (query_order q)) all ∧
    evaluate_query q records = match query_limit q with Some n => take n all | None => all end.
Proof. apply evaluate_query_spec. Qed.

(** ** Witnesses *)

Definition named (name : string) : Document := {["name" := Str name]}.

Lemma commit_atomic_witness :
  let batch := [Create Collection.Project "p" (named "a"); Delete Collection.Project "q" None] in
  let '(t', next', result) := apply_in_memory ∅ batch 7 in
  result = Err (NotFound Collection.Project "q") ∧ rows t' = ∅ ∧ next' = 8%N.
Proof.
  pose proof (commit_atomic ∅ [Create Collection.Project "p" (named "a");
    Delete Collection.Project "q" None] 7 ltac:(vm_compute; discriminate)) as H.
  cbv zeta in *. destruct (apply_in_memory _ _ _) as [[t' next'] result] eqn:E.
  assert (result = Err (NotFound Collection.Project "q")) as Hres
    by (apply (f_equal snd) in E; simpl in E; rewrite <-E; vm_compute; reflexivity).
  assert (next' = 8%N) as Hnext by (apply (f_equal (snd ∘ fst)) in E;
    simpl in E; rewrite <-E; vm_compute; reflexivity).
  split; [exact Hres|]. split; [|exact Hnext]. destruct (spec_batch _ _ _) as [m|e].
  - destruct H as [H _]. rewrite Hres in H. discriminate H.
  - destruct H as (_ & Hr & _). exact Hr.
Defined.

Lemma query_exact_witness :
  ∃ all, evaluate_query (ascending (query_all Collection.Project) "name")
    [{| rec_id := "1"; rec_version := 1; rec_value := named "b" |};
     {| rec_id := "2"; rec_version := 2; rec_value := named "a" |}] = all ∧ rec_id <$> all = ["2"; "1"].
Proof.
  destruct (query_exact (ascending (query_all Collection.Project) "name")
    [{| rec_id := "1"; rec_version := 1; rec_value := named "b" |};
     {| rec_id := "2"; rec_version := 2; rec_value := named "a" |}]) as (all & _ & _ & He).
  { exists KindStr. intros r v Hr Hv. repeat (apply elem_of_cons in Hr as [->|Hr]);
      [..|by apply not_elem_of_nil in Hr]; vm_compute in Hv; injection Hv as <-; exact I. }
  exists all. split; [exact He|].
  cbn [query_limit ascending query_all] in He. rewrite <-He. vm_compute. reflexivity.
Defined.
