(* ===== verification/StateBackend.v ===== *)
(** The backends of control state: in memory
    (src/crates/compute-state-memory/src/lib.rs) and in one JSON document on
    disk (src/crates/compute-state-file/src/lib.rs), behind the interface the
    daemon uses ([StateStore] of src/crates/compute-state/src/store.rs).

    The file system is a map from paths to bytes; each operation on it may fail,
    and a crash may happen between two of them or within a write.  Serialization
    ([serde_json]) is the interface [DocumentCodec]. *)

From S2P Require Import Prelude Text State.

(** ** The interface *)

Record Revision : Type := {
  rev_value : N;
  rev_scope : string;
}.

#[export] Instance revision_eq_dec : EqDecision Revision.
Proof. solve_decision. Defined.

(** What the operations on the file system answer, in order: success, or an error
    after so many bytes. *)
Definition IoAnswers : Type := nat → option (nat * string).

(** [StateStore], as far as state is concerned. *)
Class StateStore (S : Type) : Type := {
  store_get : S → Collection → string → option StateRecord;
  store_query : S → Query → list StateRecord;
  store_commit : S → IoAnswers → list StateWrite → S * Result (N * N) StateError;
  store_revision : S → Revision;
}.

Definition record_of (id : string) (r : N * gmap string Value) : StateRecord :=
  {| rec_id := id; rec_version := fst r; rec_value := snd r |}.

(** The records of a collection. *)
Definition records_of (m : gmap (Collection * string) (N * gmap string Value)) (c : Collection)
    : list StateRecord :=
  omap (λ entry, if decide (fst (fst entry) = c) then Some (record_of (snd (fst entry)) (snd entry)) else None)
    (map_to_list m).

(** What a backend promises: it is a state of rows and a counter, reads answer
    from the rows, and a commit applies the whole batch or none of it, says
    which, and moves the counter by what it wrote. *)
Class StateStoreLaws (S : Type) `{!StateStore S} : Type := {
  contents : S → gmap (Collection * string) (N * gmap string Value);
  counter : S → N;
  consistent : S → Prop;
  get_contents s c id : consistent s →
    store_get s c id = record_of id <$> contents s !! (c, id);
  query_contents s q : consistent s →
    store_query s q = evaluate_query q (records_of (contents s) (query_collection q));
  revision_counter s : rev_value (store_revision s) = counter s;
  commit_consistent s io ws : consistent s → consistent (fst (store_commit s io ws));
  commit_history s io ws : consistent s → (counter s + N.of_nat (length ws) ≤ u64_max)%N →
    commit_step (contents s, counter s)
      (contents (fst (store_commit s io ws)), counter (fst (store_commit s io ws)));
  commit_counter s io ws : consistent s → (counter s + N.of_nat (length ws) ≤ u64_max)%N →
    (counter (fst (store_commit s io ws)) ≤ counter s + N.of_nat (length ws))%N;
  commit_scope s io ws : rev_scope (store_revision (fst (store_commit s io ws))) = rev_scope (store_revision s);
  commit_answer s io ws : consistent s → (counter s + N.of_nat (length ws) ≤ u64_max)%N →
    match snd (store_commit s io ws) with
    | Ok tracked =>
        tracked = (counter s, counter (fst (store_commit s io ws))) ∧
        counter (fst (store_commit s io ws)) = (counter s + N.of_nat (length ws))%N ∧
        spec_batch ws (counter s) (contents s) = Ok (contents (fst (store_commit s io ws)))
    | Err e => contents (fst (store_commit s io ws)) = contents s ∧
        (spec_batch ws (counter s) (contents s) = Err e ∨ ∃ message, e = StateUnavailable message)
    end;
}.

(** ** Reading tables *)

Definition get_row (t : gmap Collection (gmap string (N * gmap string Value))) (c : Collection)
    (id : string) : option StateRecord :=
  record_of id <$> (t !! c ≫= (.!! id)).

(** A table's records, in the order of their identities. *)
Definition table_records (t : gmap Collection (gmap string (N * gmap string Value))) (c : Collection)
    : list StateRecord :=
  (λ entry, record_of (fst entry) (snd entry)) <$>
    sort_by (λ l r, cmp (fst l) (fst r)) (map_to_list (default ∅ (t !! c))).

Lemma records_of_elem m c r :
  r ∈ records_of m c ↔ m !! (c, rec_id r) = Some (rec_version r, rec_value r).
Proof.
  unfold records_of. rewrite list_elem_of_omap. split.
  - intros ([[c' id] [v d]] & Hin & Hr). apply elem_of_map_to_list in Hin. simpl in Hr.
    by case_decide; simplify_eq/=.
  - intros Hr. exists ((c, rec_id r), (rec_version r, rec_value r)). rewrite elem_of_map_to_list.
    split; [done|]. simpl. rewrite decide_True by done. by destruct r.
Qed.

Lemma table_records_elem t c r :
  r ∈ table_records t c ↔ row t c (rec_id r) = Some (rec_version r, rec_value r).
Proof.
  unfold table_records. rewrite list_elem_of_fmap. unfold row. split.
  - intros ([id [v d]] & -> & Hin). apply elem_of_sort_by, elem_of_map_to_list in Hin. simpl.
    by destruct (t !! c).
  - intros Hr. exists (rec_id r, (rec_version r, rec_value r)). split; [by destruct r|].
    apply elem_of_sort_by, elem_of_map_to_list. by destruct (t !! c).
Qed.

Lemma omap_NoDup {A B C} (f : A → option B) (g : B → C) (l : list A) :
  NoDup l → (∀ x y u v, x ∈ l → y ∈ l → f x = Some u → f y = Some v → g u = g v → x = y) →
  NoDup (g <$> omap f l).
Proof.
  induction 1 as [|x l Hx _ IH]; intros Hinj; simpl; [constructor|].
  assert (NoDup (g <$> omap f l)) as Hl by (apply IH; intros; eapply Hinj; set_solver).
  destruct (f x) as [u|] eqn:E; [|done]. simpl. constructor; [|done].
  intros (v & Huv & (y & Hy & Hv)%list_elem_of_omap)%list_elem_of_fmap. apply Hx.
  rewrite (Hinj x y u v); [done|set_solver..|done|done|done].
Qed.

Lemma records_of_NoDup m c : NoDup (rec_id <$> records_of m c).
Proof.
  apply omap_NoDup; [apply NoDup_map_to_list|].
  intros [[c1 id1] r1] [[c2 id2] r2] u v Hx Hy Hu Hv Heq. simpl in *. repeat case_decide; simplify_eq/=.
  apply elem_of_map_to_list in Hx, Hy. by simplify_eq.
Qed.

Lemma records_of_table t c : records_of (rows t) c ≡ₚ table_records t c.
Proof.
  apply NoDup_Permutation.
  - eapply NoDup_fmap_1, records_of_NoDup.
  - apply (NoDup_fmap_1 rec_id). unfold table_records. rewrite <-list_fmap_compose.
    rewrite (list_fmap_ext _ fst) by done. rewrite sort_by_perm. apply NoDup_fst_map_to_list.
  - intros r. by rewrite records_of_elem, table_records_elem, lookup_rows.
Qed.

Lemma evaluate_table q t :
  evaluate_query q (table_records t (query_collection q)) =
  evaluate_query q (records_of (rows t) (query_collection q)).
Proof. symmetry. apply evaluate_query_perm; [apply records_of_NoDup|apply records_of_table]. Qed.

(** ** Memory *)

Record MemoryState : Type := {
  mem_tables : gmap Collection (gmap string (N * gmap string Value));
  mem_version : N;
  mem_scope : string;
  mem_transitions : list Transition;
}.

Definition memory_new (scope : string) : MemoryState :=
  {| mem_tables := ∅; mem_version := 0; mem_scope := scope; mem_transitions := [] |}.

(** [commit_tracked]: a refused batch keeps the versions it drew. *)
Definition memory_commit (s : MemoryState) (ws : list StateWrite) : MemoryState * Result (N * N) StateError :=
  let before := mem_version s in
  let '(t, version, result) := apply_in_memory (mem_tables s) ws before in
  match result with
  | Ok _ =>
      ({| mem_tables := t; mem_version := version; mem_scope := mem_scope s;
          mem_transitions := record_transition (mem_transitions s) (Some (before, version)) ws |},
       Ok (before, version))
  | Err e =>
      ({| mem_tables := t; mem_version := version; mem_scope := mem_scope s;
          mem_transitions := mem_transitions s |}, Err e)
  end.

Definition memory_take_transitions (s : MemoryState) : MemoryState * list Transition :=
  ({| mem_tables := mem_tables s; mem_version := mem_version s; mem_scope := mem_scope s;
      mem_transitions := [] |}, mem_transitions s).

#[export] Instance memory_store : StateStore MemoryState := {|
  store_get s c id := get_row (mem_tables s) c id;
  store_query s q := evaluate_query q (table_records (mem_tables s) (query_collection q));
  store_commit s io ws := memory_commit s ws;
  store_revision s := {| rev_value := mem_version s; rev_scope := mem_scope s |};
|}.

Lemma memory_commit_spec s ws :
  let '(s', r) := memory_commit s ws in
  mem_scope s' = mem_scope s ∧
  ((mem_version s + N.of_nat (length ws) ≤ u64_max)%N →
   match spec_batch ws (mem_version s) (rows (mem_tables s)) with
   | Ok m => r = Ok (mem_version s, mem_version s') ∧ rows (mem_tables s') = m ∧
             mem_version s' = (mem_version s + N.of_nat (length ws))%N
   | Err e => r = Err e ∧ rows (mem_tables s') = rows (mem_tables s) ∧
              ∃ n, (n < length ws)%nat ∧ mem_version s' = (mem_version s + N.of_nat n)%N
   end).
Proof.
  unfold memory_commit. pose proof (apply_in_memory_spec (mem_tables s) ws (mem_version s)) as H.
  destruct (apply_in_memory (mem_tables s) ws (mem_version s)) as [[t next] result].
  destruct (spec_batch ws (mem_version s) (rows (mem_tables s))) as [m|e].
  - destruct H as (-> & <- & ->). simpl. split; [done|]. intros Hroom. by rewrite advance_room.
  - destruct H as (-> & H & n & Hn & ->). simpl. split; [done|]. intros Hroom. split_and!; [done..|].
    exists n. rewrite advance_room by lia. done.
Qed.

#[export] Program Instance memory_laws : StateStoreLaws MemoryState := {|
  contents s := rows (mem_tables s);
  counter s := mem_version s;
  consistent s := True;
|}.
Next Obligation. intros s c id _. simpl. by rewrite lookup_rows. Qed.
Next Obligation. intros s q _. simpl. apply evaluate_table. Qed.
Next Obligation. done. Qed.
Next Obligation. done. Qed.
Next Obligation.
  intros s io ws _ Hroom. simpl. pose proof (memory_commit_spec s ws) as H.
  destruct (memory_commit s ws) as [s' r]. destruct H as [_ H]. specialize (H Hroom). simpl.
  destruct (spec_batch ws (mem_version s) (rows (mem_tables s))) as [m|e] eqn:E.
  - destruct H as (_ & <- & ->). by apply commit_accepted.
  - destruct H as (_ & -> & n & Hn & ->). apply commit_refused. lia.
Qed.
Next Obligation.
  intros s io ws _ Hroom. simpl. pose proof (memory_commit_spec s ws) as H.
  destruct (memory_commit s ws) as [s' r]. destruct H as [_ H]. specialize (H Hroom). simpl.
  destruct (spec_batch ws (mem_version s) (rows (mem_tables s))) as [m|e].
  - destruct H as (_ & _ & ->). done.
  - destruct H as (_ & _ & n & Hn & ->). lia.
Qed.
Next Obligation.
  intros s io ws. simpl. pose proof (memory_commit_spec s ws) as H.
  destruct (memory_commit s ws) as [s' r]. apply H.
Qed.
Next Obligation.
  intros s io ws _ Hroom. simpl. pose proof (memory_commit_spec s ws) as H.
  destruct (memory_commit s ws) as [s' r]. destruct H as [_ H]. specialize (H Hroom). simpl.
  destruct (spec_batch ws (mem_version s) (rows (mem_tables s))) as [m|e] eqn:E.
  - destruct H as (-> & <- & Hv). done.
  - destruct H as (-> & -> & _). split; [done|by left].
Qed.

(** ** A file *)

Record StoredDocument : Type := {
  sd_version : N;
  sd_value : gmap string Value;
}.

Record FileDocument : Type := {
  fd_version : string;
  fd_next_version : N;
  fd_collections : gmap string (gmap string StoredDocument);
}.

Definition STATE_VERSION : string := "compute.state@1".

(** [serde_json] of the document. *)
Class DocumentCodec : Type := {
  to_vec_pretty : FileDocument → list N;
  from_slice : list N → Result FileDocument string;
}.
Class DocumentCodecLaws `{!DocumentCodec} : Prop := {
  from_to d : from_slice (to_vec_pretty d) = Ok d;
}.

(** The files: their bytes, and whether the bytes have reached the disk. *)
Notation Disk := (gmap string (list N * bool)) (only parsing).

(** The file-system operations of a commit. *)
Inductive FsOp : Type :=
| CreateFile (path : string)
| WriteAll (path : string) (bytes : list N)
| SyncAll (path : string)
| RenameFile (from to : string).

Definition fs_path (op : FsOp) : string :=
  match op with CreateFile p | WriteAll p _ | SyncAll p | RenameFile _ p => p end.

Definition fs_apply (op : FsOp) (d : Disk) : Disk :=
  match op with
  | CreateFile p => <[p := ([], false)]> d
  | WriteAll p bytes => <[p := (default [] (fst <$> d !! p) ++ bytes, false)]> d
  | SyncAll p => alter (λ file, (fst file, true)) p d
  | RenameFile from to => match d !! from with Some file => <[to := file]> (delete from d) | None => d end
  end.

(** An operation interrupted after so many bytes. *)
Definition fs_interrupted (op : FsOp) (written : nat) (d : Disk) : Disk :=
  match op with
  | WriteAll p bytes => fs_apply (WriteAll p (take written bytes)) d
  | _ => d
  end.

(** The operations in order, stopping at the first that fails. *)
Fixpoint fs_run (io : IoAnswers) (ops : list FsOp) (d : Disk) : Disk * Result unit StateError :=
  match ops with
  | [] => (d, Ok tt)
  | op :: ops =>
      match io 0 with
      | Some (written, error) =>
          (fs_interrupted op written d, Err (StateUnavailable (fs_path op +:+ ": " +:+ error)))
      | None => fs_run (λ n, io (S n)) ops (fs_apply op d)
      end
  end.

(** The operations, interrupted within the [n]th. *)
Definition fs_crashed (ops : list FsOp) (n written : nat) (d : Disk) : Disk :=
  let d := foldl (flip fs_apply) d (take n ops) in
  match ops !! n with Some op => fs_interrupted op written d | None => d end.

(** What a disk may hold after the machine stopped: what was synced, and
    anything or nothing in the other files. *)
Definition survives (d d' : Disk) : Prop :=
  ∀ p, match d !! p with
       | Some (bytes, true) => d' !! p = Some (bytes, true)
       | Some (_, false) => True
       | None => d' !! p = None
       end.

Record FileState : Type := {
  file_path : string;
  (** [path.with_extension("json.tmp")] *)
  file_temporary : string;
  file_tables : gmap Collection (gmap string (N * gmap string Value));
  file_version : N;
  file_transitions : list Transition;
}.

Section file.
Context `{Codec : !DocumentCodec}.

Definition stored_document (r : N * gmap string Value) : StoredDocument :=
  {| sd_version := fst r; sd_value := snd r |}.

Definition stored_row (d : StoredDocument) : N * gmap string Value := (sd_version d, sd_value d).

Definition document_of (t : gmap Collection (gmap string (N * gmap string Value))) (next : N)
    : FileDocument :=
  {| fd_version := STATE_VERSION;
     fd_next_version := next;
     fd_collections := kmap (M2 := gmap string) Collection.name
       ((λ documents : gmap string (N * gmap string Value), stored_document <$> documents) <$> t) |}.

(** [FileState::write], as the operations it performs. *)
Definition write_ops (s : FileState) (t : gmap Collection (gmap string (N * gmap string Value)))
    (next : N) : list FsOp :=
  [CreateFile (file_temporary s); WriteAll (file_temporary s) (to_vec_pretty (document_of t next));
   SyncAll (file_temporary s); RenameFile (file_temporary s) (file_path s)].

Fixpoint open_collections (path : string) (entries : list (string * gmap string StoredDocument))
    (t : gmap Collection (gmap string (N * gmap string Value)))
    : Result (gmap Collection (gmap string (N * gmap string Value))) StateError :=
  match entries with
  | [] => Ok t
  | (name, documents) :: entries =>
      match Collection.from_name name with
      | None => Err (StateInvalid ("unknown collection " +:+ name +:+ " in " +:+ path))
      | Some c => open_collections path entries (<[c := stored_row <$> documents]> t)
      end
  end.

(** [FileState::open]: the document on disk, or an empty state when there is
    none. *)
Definition file_open (path temporary : string) (d : Disk) : Result FileState StateError :=
  let state t next :=
    {| file_path := path; file_temporary := temporary; file_tables := t; file_version := next;
       file_transitions := [] |} in
  match d !! path with
  | None => Ok (state ∅ 0%N)
  | Some (bytes, _) =>
      let? document := map_err (λ error, StateInvalid (path +:+ ": " +:+ error)) (from_slice bytes) in
      reject_if (negb (String.eqb (fd_version document) STATE_VERSION))
        (StateInvalid (path +:+ " is " +:+ fd_version document +:+ ", not " +:+ STATE_VERSION)) ;?;
      let? t := open_collections path
        (sort_by (λ l r, cmp (fst l) (fst r)) (map_to_list (fd_collections document))) ∅ in
      Ok (state t (fd_next_version document))
  end.

(** [commit_tracked]: durable first; memory changes only once the file does. *)
Definition file_commit (s : FileState * Disk) (io : IoAnswers) (ws : list StateWrite)
    : (FileState * Disk) * Result (N * N) StateError :=
  let '(f, d) := s in
  let before := file_version f in
  let '(t, next, result) := apply_in_memory (file_tables f) ws before in
  match result with
  | Err e => ((f, d), Err e)
  | Ok _ =>
      let '(d, written) := fs_run io (write_ops f t next) d in
      match written with
      | Err e => ((f, d), Err e)
      | Ok _ =>
          (({| file_path := file_path f; file_temporary := file_temporary f; file_tables := t;
               file_version := next;
               file_transitions := record_transition (file_transitions f) (Some (before, next)) ws |}, d),
           Ok (before, next))
      end
  end.

#[export] Instance file_store : StateStore (FileState * Disk) := {|
  store_get s c id := get_row (file_tables (fst s)) c id;
  store_query s q := evaluate_query q (table_records (file_tables (fst s)) (query_collection q));
  store_commit := file_commit;
  store_revision s := {| rev_value := file_version (fst s); rev_scope := "file:" +:+ file_path (fst s) |};
|}.

(** ** What the disk holds *)

(** The disk holds a state: its document, or nothing for the empty one. *)
Definition on_file (path : string) (t : gmap Collection (gmap string (N * gmap string Value)))
    (next : N) (d : Disk) : Prop :=
  d !! path = Some (to_vec_pretty (document_of t next), true) ∨ (d !! path = None ∧ t = ∅ ∧ next = 0%N).

Definition file_consistent (s : FileState * Disk) : Prop :=
  file_temporary (fst s) ≠ file_path (fst s) ∧
  on_file (file_path (fst s)) (file_tables (fst s)) (file_version (fst s)) (snd s).

Lemma open_collections_ok path entries t l :
  Forall2 (λ e x, fst e = Collection.name (fst x) ∧ stored_row <$> snd e = snd x) entries l →
  open_collections path entries t = Ok (foldl (λ t x, <[fst x := snd x]> t) t l).
Proof.
  intros Hf. revert t. induction Hf as [|[name documents] [c m] entries l [Hn Hm] _ IH]; intros t; [done|].
  simpl in *. subst name. rewrite Collection.from_name_name. by rewrite IH, Hm.
Qed.

Lemma foldl_insert_map {K A} `{Countable K} (l : list (K * A)) (m : gmap K A) :
  NoDup (l.*1) → (∀ k, k ∈ l.*1 → m !! k = None) →
  foldl (λ t x, <[fst x := snd x]> t) m l = list_to_map l ∪ m.
Proof.
  revert m. induction l as [|[k a] l IH]; intros m Hnd Hm; simpl; [by rewrite (left_id_L ∅ (∪))|].
  apply NoDup_cons in Hnd as [Hk Hnd]. rewrite IH; [|done|].
  - rewrite <-insert_union_r by by apply not_elem_of_list_to_map_1.
    by rewrite insert_union_l.
  - intros k' Hk'. rewrite lookup_insert_ne by set_solver. apply Hm. set_solver.
Qed.

(** Reading back a document gives the tables it was made from. *)
Lemma open_document path t next :
  open_collections path
    (sort_by (λ l r, cmp (fst l) (fst r)) (map_to_list (fd_collections (document_of t next)))) ∅ = Ok t.
Proof.
  set (entries := sort_by _ _).
  assert (entries ≡ₚ (λ x : Collection * gmap string (N * gmap string Value),
    (Collection.name (fst x), stored_document <$> snd x)) <$> map_to_list t) as Hp.
  { unfold entries. rewrite sort_by_perm. simpl. rewrite map_to_list_kmap, map_to_list_fmap by apply _.
    rewrite <-list_fmap_compose. apply reflexive_eq, list_fmap_ext. by intros _ [c m] _. }
  destruct (Permutation_map_inv _ _ Hp) as (l & Hl & Hperm).
  assert (Forall2 (λ e x, fst e = Collection.name (fst x) ∧ stored_row <$> snd e = snd x) entries l) as Hf.
  { rewrite Hl. apply Forall2_fmap_l, Forall_Forall2_diag, Forall_forall. intros [c m] _. simpl.
    split; [done|]. rewrite <-map_fmap_compose. rewrite <-(map_fmap_id m) at 2.
    apply map_fmap_ext. by intros id [v d] _. }
  rewrite (open_collections_ok path entries ∅ l Hf).
  rewrite foldl_insert_map, (right_id_L ∅ (∪)).
  - f_equal. rewrite <-(list_to_map_to_list t). apply list_to_map_proper; [|done].
    rewrite <-Hperm. apply NoDup_fst_map_to_list.
  - rewrite <-Hperm. apply NoDup_fst_map_to_list.
  - intros k _. apply lookup_empty.
Qed.

Context `{CodecLaws : !DocumentCodecLaws}.

Lemma open_on_file path temporary t next d :
  on_file path t next d →
  ∃ f, file_open path temporary d = Ok f ∧ file_path f = path ∧ file_temporary f = temporary ∧
    file_tables f = t ∧ file_version f = next.
Proof.
  unfold file_open. intros [->|(-> & -> & ->)]; [|by eexists]. rewrite from_to. cbn [map_err and_then].
  replace (String.eqb (fd_version (document_of t next)) STATE_VERSION) with true by done.
  cbn [negb reject_if and_then]. rewrite open_document. cbn [and_then]. by eexists.
Qed.
(** ** Durability *)

Lemma fs_run_crashed io ops d :
  match fs_run io ops d with
  | (d', Ok _) => ∀ written, d' = fs_crashed ops (length ops) written d
  | (d', Err e) => (∃ message, e = StateUnavailable message) ∧
      ∃ n written, n < length ops ∧ d' = fs_crashed ops n written d
  end.
Proof.
  revert io d. induction ops as [|op ops IH]; intros io d; simpl; [done|].
  destruct (io 0) as [[written error]|].
  { split; [by eexists|]. exists 0, written. split; [lia|done]. }
  specialize (IH (λ n, io (S n)) (fs_apply op d)).
  destruct (fs_run _ ops (fs_apply op d)) as [d' [[]|e]].
  - intros written. by rewrite (IH written).
  - destruct IH as [He (n & written & Hn & ->)]. split; [done|]. exists (S n), written. split; [lia|done].
Qed.

(** Whatever point a write of the document reaches, the file holds the old
    document until the rename and the new one after it. *)
Lemma write_interrupted f t next n written d :
  file_temporary f ≠ file_path f →
  fs_crashed (write_ops f t next) n written d !! file_path f =
  if decide (n < 4) then d !! file_path f else Some (to_vec_pretty (document_of t next), true).
Proof.
  intros Hne. unfold fs_crashed, write_ops.
  destruct n as [|[|[|[|n]]]]; simpl; [done|by simplify_map_eq..|].
  destruct n; simpl; by simplify_map_eq.
Qed.

Lemma on_file_survives path t next d d' : on_file path t next d → survives d d' → on_file path t next d'.
Proof.
  intros Hf Hs. specialize (Hs path). destruct Hf as [Hf|(Hf & -> & ->)]; rewrite Hf in Hs; [by left|by right].
Qed.

Lemma file_commit_spec s io ws :
  file_consistent s →
  let '(s', r) := file_commit s io ws in
  file_consistent s' ∧ file_path (fst s') = file_path (fst s) ∧
  ((file_version (fst s) + N.of_nat (length ws) ≤ u64_max)%N →
   match r with
   | Ok tracked =>
       spec_batch ws (file_version (fst s)) (rows (file_tables (fst s))) =
         Ok (rows (file_tables (fst s'))) ∧
       file_version (fst s') = (file_version (fst s) + N.of_nat (length ws))%N ∧
       tracked = (file_version (fst s), file_version (fst s'))
   | Err e => fst s' = fst s ∧
       (spec_batch ws (file_version (fst s)) (rows (file_tables (fst s))) = Err e ∨
        ∃ message, e = StateUnavailable message)
   end).
Proof.
  destruct s as [f d]. intros [Hne Hf]. cbn [fst snd] in *. unfold file_commit.
  pose proof (apply_in_memory_spec (file_tables f) ws (file_version f)) as H.
  destruct (apply_in_memory (file_tables f) ws (file_version f)) as [[t next] result].
  destruct (spec_batch ws (file_version f) (rows (file_tables f))) as [m|e].
  2: { destruct H as (-> & H & n & Hn & ->). simpl. split; [done|]. split; [done|]. intros _. by split; [|left]. }
  destruct H as (-> & <- & ->).
  pose proof (fs_run_crashed io (write_ops f t (advance (file_version f) (length ws))) d) as Hrun.
  destruct (fs_run io (write_ops f t _) d) as [d' [[]|e]]; simpl.
  - specialize (Hrun 0). split; [|split; [done|intros Hroom; by rewrite advance_room]].
    split; [done|]. left. simpl. rewrite Hrun, write_interrupted by done. done.
  - destruct Hrun as [He (n & written & Hn & ->)]. split; [|split; [done|intros _; by split; [|right]]].
    split; [done|]. unfold on_file. simpl. rewrite write_interrupted, decide_True by done. done.
Qed.

#[export] Program Instance file_laws : StateStoreLaws (FileState * Disk) := {|
  contents s := rows (file_tables (fst s));
  counter s := file_version (fst s);
  consistent := file_consistent;
|}.
Next Obligation. intros s c id _. simpl. by rewrite lookup_rows. Qed.
Next Obligation. intros s q _. simpl. apply evaluate_table. Qed.
Next Obligation. done. Qed.
Next Obligation.
  intros s io ws Hs. apply (file_commit_spec s io ws) in Hs. simpl.
  destruct (file_commit s io ws) as [s' r]. apply Hs.
Qed.
Next Obligation.
  intros s io ws Hs Hroom. apply (file_commit_spec s io ws) in Hs. simpl.
  destruct (file_commit s io ws) as [s' r]. destruct Hs as (_ & _ & H). specialize (H Hroom). simpl.
  destruct r.
  - destruct H as (H & -> & _). by apply commit_accepted.
  - destruct H as [-> _]. rewrite <-(N.add_0_r (file_version (fst s))) at 2. apply commit_refused. lia.
Qed.
Next Obligation.
  intros s io ws Hs Hroom. apply (file_commit_spec s io ws) in Hs. simpl.
  destruct (file_commit s io ws) as [s' r]. destruct Hs as (_ & _ & H). specialize (H Hroom). simpl.
  destruct r; [destruct H as (_ & -> & _); done|]. destruct H as [-> _]. lia.
Qed.
Next Obligation.
  intros [f d] io ws. unfold store_commit, file_store, file_commit.
  destruct (apply_in_memory _ _ _) as [[t next] [[]|e]]; [|done].
  by destruct (fs_run _ _ _) as [d' [[]|e]].
Qed.
Next Obligation.
  intros s io ws Hs Hroom. apply (file_commit_spec s io ws) in Hs. simpl.
  destruct (file_commit s io ws) as [s' r]. destruct Hs as (_ & _ & H). specialize (H Hroom). simpl.
  destruct r; [by destruct H as (? & ? & ->)|]. by destruct H as [-> ?].
Qed.
End file.

(** ** What a client may rely on *)

Section client.
Context {S : Type} `{Laws : StateStoreLaws S}.

(** The commits of every client of a store, in the order it took them. *)
Fixpoint commits (s : S) (trace : list (IoAnswers * list StateWrite)) : S :=
  match trace with
  | [] => s
  | (io, ws) :: trace => commits (fst (store_commit s io ws)) trace
  end.

(** How many writes they hold. *)
Definition writes (trace : list (IoAnswers * list StateWrite)) : N :=
  N.of_nat (sum_list (length ∘ snd <$> trace)).

Lemma writes_cons io ws trace : writes ((io, ws) :: trace) = (N.of_nat (length ws) + writes trace)%N.
Proof. apply Nat2N.inj_add. Qed.

Lemma commits_spec s trace :
  consistent s → (counter s + writes trace ≤ u64_max)%N →
  consistent (commits s trace) ∧
  history (contents s, counter s) (contents (commits s trace), counter (commits s trace)) ∧
  rev_scope (store_revision (commits s trace)) = rev_scope (store_revision s) ∧
  (counter (commits s trace) ≤ counter s + writes trace)%N.
Proof.
  revert s. induction trace as [|[io ws] trace IH]; intros s Hs Hroom.
  { simpl. split_and!; [done|apply rtc_refl|done|lia]. }
  rewrite writes_cons in *.
  pose proof (commit_counter s io ws Hs ltac:(lia)) as Hc.
  destruct (IH (fst (store_commit s io ws))) as (H1 & H2 & H3 & H4);
    [by apply commit_consistent|lia|].
  simpl. split_and!; [done| | |].
  - eapply rtc_l; [|done]. apply commit_history; [done|lia].
  - rewrite H3. apply commit_scope.
  - lia.
Qed.
(** A version seen again is the same row. *)
Lemma version_stable s trace c id r r' :
  consistent s → bounded (contents s) (counter s) → (counter s + writes trace ≤ u64_max)%N →
  store_get s c id = Some r → store_get (commits s trace) c id = Some r' →
  rec_version r' = rec_version r → r' = r.
Proof.
  intros Hs Hb Hroom Hr Hr' Hv.
  destruct (commits_spec s trace Hs Hroom) as (Hs' & Hh & _ & _).
  rewrite (get_contents _ c id Hs) in Hr. rewrite (get_contents _ c id Hs') in Hr'.
  apply fmap_Some in Hr as ([v d] & Hr & ->), Hr' as ([v' d'] & Hr' & ->). simpl in Hv. subst v'.
  apply history_spec in Hh as (_ & _ & Hrows). destruct (Hrows _ _ _ Hr') as [Hnew|Hold].
  - apply Hb in Hr. simpl in Hnew. lia.
  - simpl in Hold. congruence.
Qed.
End client.

(** ** Properties *)

(** Optimistic concurrency loses no update, on any backend.  A client reads a
    record; other clients commit; the client then replaces the record, fenced on
    the version it read.  If the replacement is accepted, the record was still
    exactly the one read, and now holds the client's value at a newer version;
    if it is refused, nothing changed, and unless the backend itself failed the
    record had changed. *)
Theorem fenced_write_lossless {S : Type} `{StateStoreLaws S} (s : S) trace io c id r value :
  consistent s → bounded (contents s) (counter s) → (counter s + writes trace < u64_max)%N →
  store_get s c id = Some r →
  let s1 := commits s trace in
  let '(s2, answer) := store_commit s1 io [Replace c id value (Some (rec_version r))] in
  match answer with
  | Ok _ => store_get s1 c id = Some r ∧
      ∃ v, (rec_version r < v)%N ∧
        store_get s2 c id = Some {| rec_id := id; rec_version := v; rec_value := value |}
  | Err e => (∀ c' id', store_get s2 c' id' = store_get s1 c' id') ∧
      (store_get s1 c id = Some r → ∃ message, e = StateUnavailable message)
  end.
Proof.
  intros Hs Hb Hroom Hr s1.
  destruct (commits_spec s trace Hs) as (Hs1 & Hh & _ & Hc); [lia|]. fold s1 in Hs1, Hh, Hc.
  set (batch := [Replace c id value (Some (rec_version r))]).
  pose proof (commit_answer s1 io batch Hs1 ltac:(simpl; lia)) as Ha.
  pose proof (commit_consistent s1 io batch Hs1) as Hs2.
  destruct (store_commit s1 io batch) as [s2 answer]. simpl in Ha, Hs2.
  assert (∀ r1, store_get s1 c id = Some r1 → rec_version r1 = rec_version r → r1 = r) as Hsame.
  { intros r1. apply version_stable; [done..|lia|done]. }
  pose proof (get_contents s1 c id Hs1) as Hg1.
  assert (rec_version r ≤ counter s1)%N as Hle.
  { apply history_spec in Hh as [Hle _]. simpl in Hle. rewrite get_contents in Hr by done.
    apply fmap_Some in Hr as ([v d] & Hr & ->). apply Hb in Hr. simpl. lia. }
  unfold spec_fence in Ha. destruct answer as [tracked|e].
  - destruct Ha as (_ & _ & Ha). destruct (contents s1 !! (c, id)) as [[v d]|] eqn:E; [|done].
    simpl in Ha, Hg1. case_decide as Hv; [|done]. rewrite (Hsame _ Hg1) in Hg1 by done.
    split; [done|]. exists (counter s1 + 1)%N. split; [lia|]. injection Ha as Ha.
    rewrite (get_contents s2 c id Hs2), <-Ha, u64_succ_room by lia. by simplify_map_eq.
  - destruct Ha as [Hsame2 Ha]. split.
    { intros c' id'. by rewrite (get_contents s1 c' id' Hs1), (get_contents s2 c' id' Hs2), Hsame2. }
    rewrite Hg1. destruct Ha as [Ha|Ha]; [|done].
    destruct (contents s1 !! (c, id)) as [[v d]|] eqn:E; [|done]. simpl in Ha |- *. intros [= <-].
    by rewrite decide_True in Ha.
Qed.

(** A revision identifies a state, on any backend: between two moments of one
    store, equal revisions mean that every record and every query answers the
    same. *)
Theorem revision_identifies_state {S : Type} `{StateStoreLaws S} (s : S) trace :
  consistent s → (counter s + writes trace ≤ u64_max)%N →
  store_revision (commits s trace) = store_revision s →
  (∀ c id, store_get (commits s trace) c id = store_get s c id) ∧
  (∀ q, store_query (commits s trace) q = store_query s q).
Proof.
  intros Hs Hroom Hrev. destruct (commits_spec s trace Hs Hroom) as (Hs' & Hh & _ & _).
  apply (f_equal rev_value) in Hrev. rewrite !revision_counter in Hrev.
  apply history_spec in Hh as (_ & Heq & _). simpl in Heq. split.
  - intros c id. by rewrite !get_contents, Heq by done.
  - intros q. by rewrite !query_contents, Heq by done.
Qed.

(** C25: The file backend survives a crash.  If the machine stops at any point of
    the write that makes an accepted batch durable, even within the writing of
    the bytes, and every file not yet synced then holds anything or is gone,
    reopening the state finds the state before the batch, with its counter, or,
    once the write had completed, the state after the whole batch with the
    counter moved by its length; never a mixture. *)
Theorem crash_safe `{DocumentCodecLaws} f d ws t next n written d' :
  file_consistent (f, d) → (file_version f + N.of_nat (length ws) ≤ u64_max)%N →
  apply_in_memory (file_tables f) ws (file_version f) = (t, next, Ok tt) →
  survives (fs_crashed (write_ops f t next) n written d) d' →
  ∃ f', file_open (file_path f) (file_temporary f) d' = Ok f' ∧ file_consistent (f', d') ∧
    if decide (n < 4)
    then file_tables f' = file_tables f ∧ file_version f' = file_version f
    else spec_batch ws (file_version f) (rows (file_tables f)) = Ok (rows (file_tables f')) ∧
         file_version f' = (file_version f + N.of_nat (length ws))%N.
Proof.
  intros [Hne Hf] Hroom Hbatch Hsurv. simpl in Hne, Hf.
  set (state := if decide (n < 4) then (file_tables f, file_version f) else (t, next)).
  assert (on_file (file_path f) state.1 state.2 d') as Hon.
  { apply (on_file_survives _ _ _ _ _) with (2 := Hsurv). unfold on_file, state.
    rewrite write_interrupted by done. case_decide; [done|by left]. }
  destruct (open_on_file (file_path f) (file_temporary f) _ _ _ Hon) as (f' & Ho & Hp & Ht & Htab & Hv).
  exists f'. split; [done|]. split; [split; simpl; [congruence|by rewrite Hp, Htab, Hv]|].
  rewrite Htab, Hv. unfold state. case_decide; [done|]. simpl.
  pose proof (apply_in_memory_spec (file_tables f) ws (file_version f)) as Hspec. rewrite Hbatch in Hspec.
  destruct (spec_batch _ _ _) as [m|e]; [|by destruct Hspec].
  destruct Hspec as (_ & -> & ->). by rewrite advance_room.
Qed.

(** ** Witnesses *)

(** A codec: a document as the code of its value. *)
Fixpoint value_tree (v : Value) : gen_tree (bool + Z + string) :=
  match v with
  | Null => GenNode 0 []
  | Bool b => GenLeaf (inl (inl b))
  | Number z => GenLeaf (inl (inr z))
  | Str s => GenLeaf (inr s)
  | Array l => GenNode 1 (value_tree <$> l)
  | Object fields => GenNode 2 ((λ field, GenNode 3 [GenLeaf (inr (fst field)); value_tree (snd field)]) <$> fields)
  end.

Fixpoint tree_value (t : gen_tree (bool + Z + string)) : Value :=
  match t with
  | GenLeaf (inl (inl b)) => Bool b
  | GenLeaf (inl (inr z)) => Number z
  | GenLeaf (inr s) => Str s
  | GenNode 1 l => Array (tree_value <$> l)
  | GenNode 2 l =>
      Object ((λ t, match t with GenNode _ [GenLeaf (inr name); v] => (name, tree_value v) | _ => ("", Null) end) <$> l)
  | GenNode _ _ => Null
  end.

Lemma tree_value_tree v : tree_value (value_tree v) = v.
Proof.
  induction v as [|b|z|s|l IH|l IH] using value_nested_ind; simpl; [done..| |]; f_equal.
  - induction IH as [|v l Hv _ IHl]; [done|]. by apply (f_equal2 cons).
  - induction IH as [|[name v] l Hv _ IHl]; [done|]. apply (f_equal2 cons); [|done]. by apply (f_equal (pair name)).
Qed.

#[local] Instance value_countable : Countable Value := inj_countable' _ _ tree_value_tree.

Definition document_key (d : FileDocument) : string * N * gmap string (gmap string (N * gmap string Value)) :=
  (fd_version d, fd_next_version d, fmap (M := gmap string) stored_row <$> fd_collections d).

Definition key_document (k : string * N * gmap string (gmap string (N * gmap string Value))) : FileDocument :=
  {| fd_version := k.1.1; fd_next_version := k.1.2;
     fd_collections := fmap (M := gmap string) stored_document <$> k.2 |}.

Lemma key_document_key d : key_document (document_key d) = d.
Proof.
  destruct d as [version next collections]. unfold key_document, document_key. simpl. f_equal.
  rewrite <-map_fmap_compose. rewrite <-(map_fmap_id collections) at 2.
  apply map_fmap_ext. intros name documents _. simpl. rewrite <-map_fmap_compose.
  rewrite <-(map_fmap_id documents) at 2. apply map_fmap_ext. by intros id [v value] _.
Qed.

Definition plain_codec : DocumentCodec := {|
  to_vec_pretty d := [Npos (encode (document_key d))];
  from_slice bytes :=
    match bytes with
    | [Npos p] => match decode p with Some k => Ok (key_document k) | None => Err "syntax" end
    | _ => Err "syntax"
    end;
|}.

Lemma plain_codec_laws : @DocumentCodecLaws plain_codec.
Proof.
  split. intros d. unfold from_slice, to_vec_pretty, plain_codec. by rewrite decode_encode, key_document_key.
Qed.

Definition answers : IoAnswers := λ _, None.

Definition alice : MemoryState :=
  fst (memory_commit (memory_new "memory:1") [Create Collection.Project "p" (named "alice")]).

(** Another client updates the record in between: the fenced write is refused. *)
Lemma fenced_write_lossless_witness :
  let s1 := commits alice [(answers, [Update Collection.Project "p" (named "carol") None])] in
  let '(s2, answer) := store_commit s1 answers [Replace Collection.Project "p" (named "bob") (Some 1%N)] in
  answer = Err (Precondition Collection.Project "p" 1 (Some 2%N)) ∧
  store_get s2 Collection.Project "p" = store_get s1 Collection.Project "p".
Proof.
  pose proof (fenced_write_lossless alice [(answers, [Update Collection.Project "p" (named "carol") None])]
    answers Collection.Project "p" {| rec_id := "p"; rec_version := 1; rec_value := named "alice" |}
    (named "bob")) as H.
  assert (snd (store_commit (commits alice [(answers, [Update Collection.Project "p" (named "carol") None])])
    answers [Replace Collection.Project "p" (named "bob") (Some 1%N)]) =
    Err (Precondition Collection.Project "p" 1 (Some 2%N))) as Ha by (vm_compute; reflexivity).
  cbv zeta in *. destruct (store_commit _ _ _) as [s2 answer] in *. cbn [snd] in Ha. subst answer.
  split; [reflexivity|]. apply H; [exact I| |vm_compute; reflexivity|vm_compute; reflexivity].
  intros [c id] v document Hk. change (counter alice) with 1%N.
  assert (map_Forall (λ _ r, (fst r ≤ 1)%N) (contents alice)) as Hall
    by (apply (bool_decide_unpack _); vm_compute; exact I).
  apply (Hall _ _ Hk).
Defined.

(** A refused batch that draws no version leaves the revision and the state. *)
Lemma revision_identifies_state_witness :
  store_get (commits alice [(answers, [Delete Collection.Project "q" None])]) Collection.Project "p" =
  store_get alice Collection.Project "p".
Proof.
  apply (revision_identifies_state alice [(answers, [Delete Collection.Project "q" None])]);
    [exact I|vm_compute; discriminate|vm_compute; reflexivity].
Defined.

Definition fresh_file : FileState :=
  {| file_path := "state.json"; file_temporary := "state.json.tmp"; file_tables := ∅; file_version := 0;
     file_transitions := [] |}.

(** The machine stops within the writing of the temporary file. *)
Lemma crash_safe_witness :
  let _ := plain_codec in
  ∃ f', file_open "state.json" "state.json.tmp" ∅ = Ok f' ∧ file_tables f' = ∅ ∧ file_version f' = 0%N.
Proof.
  destruct (apply_in_memory ∅ [Create Collection.Project "p" (named "alice")] 0) as [[t next] result] eqn:E.
  assert (result = Ok tt) as ->.
  { change result with (snd (t, next, result)). rewrite <-E. vm_compute. reflexivity. }
  destruct (@crash_safe plain_codec plain_codec_laws fresh_file ∅
    [Create Collection.Project "p" (named "alice")] t next 1 1 ∅) as (f' & Ho & _ & Hs).
  - split; [discriminate|]. right. split_and!; reflexivity.
  - vm_compute; discriminate.
  - exact E.
  - intros p. destruct (decide (p = "state.json.tmp")) as [->|Hp].
    + vm_compute. exact I.
    + unfold fs_crashed. simpl. rewrite !lookup_insert_ne by (intros <-; by apply Hp). reflexivity.
  - exists f'. split; [exact Ho|]. rewrite decide_True in Hs by lia. exact Hs.
Defined.
