(* ===== verification/Snapshot.v ===== *)
(** Coherent snapshots of control state
    (src/crates/compute-state/src/snapshot.rs): a handle materializes a bounded
    set of records of a store that other writers keep changing, and publishes it
    as one point in time only when the store's revision proves that it is one.

    A refresh reads the store several times; [World] is what it meets: the state
    the store is in at each of its reads, what each read answers, an error or
    not, and the order in which concurrent reads complete.  The theorems hold for
    every world in which time only moves forward.

    Clocks ([materialized_at], [build_ms]) are not modelled; counters of reports
    are unbounded.  SHA-256 and the escaping of JSON strings are the interfaces
    [Sha256Hex] and [JsonQuote]. *)

From S2P Require Import Prelude Text State StateBackend.

Definition IDS_PER_READ : nat := 200.

(** ** Definitions of snapshots *)

Record SnapshotSource : Type := {
  src_collection : Collection;
  src_filters : list Filter;
}.

Definition source_all (c : Collection) : SnapshotSource :=
  {| src_collection := c; src_filters := [] |}.

Definition source_filtered (q : Query) : SnapshotSource :=
  {| src_collection := query_collection q; src_filters := query_filters q |}.

Record SnapshotReference : Type := {
  ref_from : Collection;
  ref_field : string;
  ref_to : Collection;
  ref_immutable : bool;
}.

Inductive Incoherent : Type := Fail_ | PublishUnproven.

Record SnapshotDefinition : Type := {
  def_name : string;
  def_sources : list SnapshotSource;
  def_references : list SnapshotReference;
  coherence_attempts : nat;
  def_incoherent : Incoherent;
}.

Definition definition_new (name : string) (sources : list SnapshotSource) : SnapshotDefinition :=
  {| def_name := name; def_sources := sources; def_references := []; coherence_attempts := 3;
     def_incoherent := Fail_ |}.

Definition push_reference (d : SnapshotDefinition) (r : SnapshotReference) : SnapshotDefinition :=
  {| def_name := def_name d; def_sources := def_sources d; def_references := def_references d ++ [r];
     coherence_attempts := coherence_attempts d; def_incoherent := def_incoherent d |}.

Definition reference (d : SnapshotDefinition) (from : Collection) (field : string) (to : Collection)
    : SnapshotDefinition :=
  push_reference d {| ref_from := from; ref_field := field; ref_to := to; ref_immutable := false |}.

Definition immutable_reference (d : SnapshotDefinition) (from : Collection) (field : string)
    (to : Collection) : SnapshotDefinition :=
  push_reference d {| ref_from := from; ref_field := field; ref_to := to; ref_immutable := true |}.

Definition on_incoherent (d : SnapshotDefinition) (incoherent : Incoherent) : SnapshotDefinition :=
  {| def_name := def_name d; def_sources := def_sources d; def_references := def_references d;
     coherence_attempts := coherence_attempts d; def_incoherent := incoherent |}.

Fixpoint validate_sources (name : string) (sources : list SnapshotSource) (seen : gset Collection)
    : Result (gset Collection) StateError :=
  match sources with
  | [] => Ok seen
  | source :: sources =>
      let c := src_collection source in
      reject_if (bool_decide (c ∈ seen))
        (StateInvalid ("snapshot " +:+ name +:+ " names " +:+ Collection.name c +:+ " twice")) ;?;
      validate_sources name sources ({[c]} ∪ seen)
  end.

Fixpoint validate_references (name : string) (references : list SnapshotReference)
    (seen : gset Collection) : Result unit StateError :=
  match references with
  | [] => Ok tt
  | r :: references =>
      reject_if (negb (bool_decide (ref_from r ∈ seen)))
        (StateInvalid ("snapshot " +:+ name +:+ " references " +:+ Collection.name (ref_to r) +:+ " from "
          +:+ Collection.name (ref_from r) +:+ ", which it does not hold yet")) ;?;
      validate_references name references ({[ref_to r]} ∪ seen)
  end.

(** [SnapshotDefinition::validate] *)
Definition definition_validate (d : SnapshotDefinition) : Result unit StateError :=
  reject_if (is_empty (trim (def_name d))) (StateInvalid "a snapshot needs a name") ;?;
  reject_if (bool_decide (def_sources d = []))
    (StateInvalid ("snapshot " +:+ def_name d
       +:+ " has no sources; a snapshot is bounded by the sources it names")) ;?;
  let? seen := validate_sources (def_name d) (def_sources d) ∅ in
  validate_references (def_name d) (def_references d) seen.

(** ** The definition's digest *)

(** [serde_json::to_string] of a string. *)
Class JsonQuote := quote : string → string.

(** [canonical_json]: keys sorted at every depth. *)
Fixpoint canonical_json `{!JsonQuote} (v : Value) : string :=
  match v with
  | Object fields =>
      "{" +:+ String.concat ","
        (snd <$> sort_by (λ l r, cmp (fst l) (fst r))
          ((λ field, (fst field, quote (fst field) +:+ ":" +:+ canonical_json (snd field))) <$> fields)) +:+ "}"
  | Array values => "[" +:+ String.concat "," (canonical_json <$> values) +:+ "]"
  | Null => "null"
  | Bool true => "true"
  | Bool false => "false"
  | Number z => show_z z
  | Str s => quote s
  end.

Definition json_comparison (c : Comparison) : Value :=
  Str match c with
      | CmpEq => "eq" | CmpGt => "gt" | CmpGte => "gte" | CmpLt => "lt" | CmpLte => "lte" | CmpIn => "in"
      end.

Definition json_filter (f : Filter) : Value :=
  Object [("field", Str (filter_field f)); ("comparison", json_comparison (filter_comparison f));
          ("value", filter_value f)].

Definition json_source (s : SnapshotSource) : Value :=
  Object [("collection", Str (Collection.name (src_collection s)));
          ("where", Array (json_filter <$> src_filters s)); ("indexes", Array [])].

Definition json_reference (r : SnapshotReference) : Value :=
  Object [("from", Str (Collection.name (ref_from r))); ("field", Str (ref_field r));
          ("to", Str (Collection.name (ref_to r))); ("immutable", Bool (ref_immutable r))].

(** [SnapshotDefinition::digest]: the sources in the order of their names. *)
Definition definition_digest `{!JsonQuote, !Sha256Hex} (d : SnapshotDefinition) : string :=
  let sources := sort_by (λ l r, cmp (Collection.name (src_collection l)) (Collection.name (src_collection r)))
    (def_sources d) in
  sha256_hex (canonical_json (Object
    [("name", Str (def_name d)); ("sources", Array (json_source <$> sources));
     ("references", Array (json_reference <$> def_references d))])).

(** ** Snapshots *)

Notation Records := (gmap Collection (gmap string StateRecord)) (only parsing).

Inductive Validation : Type := ByRevision | ByRefresh.
Inductive Coherence : Type := Proven | Unproven.

#[export] Instance coherence_eq_dec : EqDecision Coherence.
Proof. solve_decision. Defined.

Record SnapshotBasis : Type := {
  basis_validation : Validation;
  basis_revision : option Revision;
  basis_reason : option string;
  basis_coherence : Coherence;
  basis_attempts : nat;
}.

Record SnapshotIdentity : Type := {
  ident_id : string;
  ident_name : string;
  ident_version : option N;
  ident_scope : option string;
  ident_generation : N;
  ident_source_set : list string;
  ident_definition_digest : string;
  ident_authority_context : string;
  ident_content_digest : option string;
  ident_derivation : string;
}.

Record Snapshot : Type := {
  snap_identity : SnapshotIdentity;
  snap_basis : SnapshotBasis;
  snap_records : Records;
  snap_durable_reads : nat;
}.

Definition snapshot_get (s : Snapshot) (c : Collection) (id : string) : option StateRecord :=
  snap_records s !! c ≫= (.!! id).

Definition snapshot_all (s : Snapshot) (c : Collection) : list StateRecord :=
  snd <$> sort_by (λ l r, cmp (fst l) (fst r)) (map_to_list (default ∅ (snap_records s !! c))).

Definition snapshot_query (s : Snapshot) (q : Query) : list StateRecord :=
  evaluate_query q (snapshot_all s (query_collection q)).

Definition snapshot_holds (s : Snapshot) (c : Collection) : bool := bool_decide (is_Some (snap_records s !! c)).

(** [Snapshot::records] *)
Definition snapshot_size (s : Snapshot) : nat :=
  sum_list ((size ∘ snd) <$> map_to_list (snap_records s)).

Record ActiveSnapshot : Type := {
  active_identity : SnapshotIdentity;
  active_basis : SnapshotBasis;
  active_records : nat;
}.

Record SnapshotReport : Type := {
  report_name : string;
  report_definition_digest : string;
  report_authority_context : string;
  report_generation : N;
  report_builds : N;
  report_failures : N;
  report_reused : N;
  report_unproven : N;
  report_durable_reads : N;
  report_last_failure : option string;
  report_active : option ActiveSnapshot;
}.

Record SnapshotHandle : Type := {
  h_definition : SnapshotDefinition;
  h_digest : string;
  h_authority_context : string;
  h_active : option Snapshot;
  h_report : SnapshotReport;
}.

(** [SnapshotHandle::new] *)
Definition handle_new `{!JsonQuote, !Sha256Hex} (d : SnapshotDefinition) (kind location : string)
    : Result SnapshotHandle StateError :=
  definition_validate d ;?;
  Ok {| h_definition := d; h_digest := definition_digest d; h_authority_context := kind +:+ ":" +:+ location;
        h_active := None;
        h_report := {| report_name := def_name d; report_definition_digest := definition_digest d;
          report_authority_context := kind +:+ ":" +:+ location;
          report_generation := 0; report_builds := 0; report_failures := 0; report_reused := 0;
          report_unproven := 0; report_durable_reads := 0; report_last_failure := None;
          report_active := None |} |}.

(** ** What a refresh meets *)

Record Answers : Type := {
  (** The [n]th reading of the revision. *)
  revision_answer : nat → Result (option Revision) StateError;
  (** The [k]th read of the [a]th materialization: a source, or identities. *)
  query_answer : nat → nat → Query → Result (list StateRecord) StateError;
  many_answer : nat → nat → Collection → list string → Result (list StateRecord) StateError;
  (** The order in which the reads of its [j]th set of tasks complete. *)
  completed : nat → nat → ∀ A : Type, list A → list A;
}.
Arguments completed _ _ _ {A} _.

(** ** Materialization *)

Definition source_query (s : SnapshotSource) : Query :=
  {| query_collection := src_collection s; query_filters := src_filters s; query_order_by := None;
     query_limit := None |}.

(** [records.entry(collection).or_default()] *)
Definition open_table (c : Collection) (t : Records) : Records := <[c := default ∅ (t !! c)]> t.

Definition insert_at (c : Collection) (id : string) (r : StateRecord) (t : Records) : Records :=
  <[c := <[id := r]> (default ∅ (t !! c))]> t.

(** A source's filter is applied again to what the backend returned. *)
Definition source_accepts (d : SnapshotDefinition) (c : Collection) (r : StateRecord) : bool :=
  match find (λ s, bool_decide (src_collection s = c)) (def_sources d) with
  | Some s => forallb (λ f, matches_record f r) (src_filters s)
  | None => false
  end.

Fixpoint join_sources (d : SnapshotDefinition)
    (answers : list (Collection * Result (list StateRecord) StateError)) (t : Records)
    : Result Records StateError :=
  match answers with
  | [] => Ok t
  | (c, result) :: answers =>
      let t := open_table c t in
      let? records := result in
      join_sources d answers
        (foldl (λ t r, if source_accepts d c r then insert_at c (rec_id r) r t else t) t records)
  end.

Definition as_str (v : Value) : option string := match v with Str s => Some s | _ => None end.

(** The identities a reference names. *)
Definition named_ids (t : Records) (r : SnapshotReference) : list string :=
  btree_set (omap (λ entry, rec_value (snd entry) !! ref_field r ≫= as_str)
    (map_to_list (default ∅ (t !! ref_from r)))).

(** Those already held or carried over from the previous snapshot, and those to
    read. *)
Fixpoint carry (r : SnapshotReference) (previous : option Snapshot) (ids : list string) (t : Records)
    (wanted : list string) : Records * list string :=
  match ids with
  | [] => (t, wanted)
  | id :: ids =>
      if bool_decide (is_Some (t !! ref_to r ≫= (.!! id))) then carry r previous ids t wanted
      else
        match (if ref_immutable r then previous ≫= λ s, snapshot_get s (ref_to r) id else None) with
        | Some known => carry r previous ids (insert_at (ref_to r) id known t) wanted
        | None => carry r previous ids t (wanted ++ [id])
        end
  end.

Fixpoint join_records (c : Collection) (answers : list (Result (list StateRecord) StateError))
    (t : Records) : Result Records StateError :=
  match answers with
  | [] => Ok t
  | result :: answers =>
      let? records := result in
      join_records c answers (foldl (λ t r, insert_at c (rec_id r) r t) t records)
  end.

Fixpoint follow (w : Answers) (a : nat) (previous : option Snapshot) (references : list SnapshotReference)
    (j : nat) (t : Records) (reads : nat) : Result (Records * nat) StateError :=
  match references with
  | [] => Ok (t, reads)
  | r :: references =>
      let '(t, wanted) := carry r previous (named_ids t r) (open_table (ref_to r) t) [] in
      let requests := chunks IDS_PER_READ wanted in
      let answers := imap (λ k ids, many_answer w a (reads + k) (ref_to r) ids) requests in
      let? t := join_records (ref_to r) (completed w a j answers) t in
      follow w a previous references (S j) t (reads + length requests)
  end.

(** [SnapshotHandle::materialize] *)
Definition materialize (w : Answers) (a : nat) (d : SnapshotDefinition) (previous : option Snapshot)
    : Result (Records * nat) StateError :=
  let answers := imap (λ k s, (src_collection s, query_answer w a k (source_query s))) (def_sources d) in
  let? t := join_sources d (completed w a 0 answers) ∅ in
  follow w a previous (def_references d) 1 t (length (def_sources d)).

(** ** Building and publishing *)

Inductive Refreshed : Type := Built | Reused.

Section building.
Context `{!JsonQuote, !Sha256Hex}.

Definition json_document (value : gmap string Value) : Value := Object (map_to_list value).

(** The digest of what a snapshot holds, its records sorted as text. *)
Definition content_digest (records : Records) : string :=
  sha256_hex (canonical_json (Array
    ((λ entry : Collection * gmap string StateRecord,
        Array [Str (Collection.name (fst entry));
               Array (Str <$> sort ((λ row, canonical_json (Object
                 [("id", Str (rec_id (snd row))); ("value", json_document (rec_value (snd row)))]))
                   <$> map_to_list (snd entry)))])
     <$> sort_by (λ l r, cmp (fst l) (fst r)) (map_to_list records)))).

(** [snap_] and the hash of the definition, the authority and the revision, or of
    the content when there is none. *)
Definition snapshot_id (h : SnapshotHandle) (records : Records) (revision : option Revision) : string :=
  let basis_identity :=
    match revision with
    | Some r => Array [Str "revision"; Str (rev_scope r); json (rev_value r)]
    | None => Array [Str "content"; Str (content_digest records)]
    end in
  "snap_" +:+ sha256_hex (canonical_json (Array
    [Str "compute.snapshot.v1"; Str (def_name (h_definition h)); Str (h_digest h);
     Str (h_authority_context h); basis_identity])).

Definition publish (h : SnapshotHandle) (records : Records) (basis : SnapshotBasis) (generation : N)
    (reads : nat) : Snapshot :=
  {| snap_identity :=
       {| ident_id := snapshot_id h records (basis_revision basis);
          ident_name := def_name (h_definition h);
          ident_version := rev_value <$> basis_revision basis;
          ident_scope := rev_scope <$> basis_revision basis;
          ident_generation := generation;
          ident_source_set := sort (Collection.name ∘ fst <$> map_to_list records);
          ident_definition_digest := h_digest h;
          ident_authority_context := h_authority_context h;
          ident_content_digest :=
            match basis_revision basis with Some _ => None | None => Some (content_digest records) end;
          ident_derivation := match basis_revision basis with Some _ => "revision" | None => "content" end |};
     snap_basis := basis; snap_records := records; snap_durable_reads := reads |}.

Definition proven_basis (revision : option Revision) (attempt : nat) : SnapshotBasis :=
  {| basis_validation := ByRevision; basis_revision := revision; basis_reason := None;
     basis_coherence := Proven; basis_attempts := attempt |}.

Definition unproven_basis (reason : string) (attempts : nat) : SnapshotBasis :=
  {| basis_validation := ByRefresh; basis_revision := None; basis_reason := Some reason;
     basis_coherence := Unproven; basis_attempts := attempts |}.

(** The attempts left, from attempt [attempt], with the durable reads made.  At
    least one attempt is made, so the last one's records are there when they are
    published ([last.expect]). *)
Fixpoint attempts_from (w : Answers) (h : SnapshotHandle) (previous : option Snapshot) (generation : N)
    (remaining attempt : nat) (before : option Revision) (last : option Records) (reads durable : nat)
    : nat * Result (Snapshot * Refreshed) StateError :=
  let d := h_definition h in
  let attempts := Nat.max (coherence_attempts d) 1 in
  match remaining with
  | O =>
      (durable,
       match def_incoherent d, last with
       | PublishUnproven, Some records =>
           Ok (publish h records (unproven_basis ("durable state changed during each of "
             +:+ pretty (N.of_nat attempts) +:+ " materialization attempts") attempts) generation reads, Built)
       | _, _ =>
           Err (StateUnavailable ("durable state changed during each of " +:+ pretty (N.of_nat attempts)
             +:+ " materialization attempts for snapshot " +:+ def_name d))
       end)
  | S remaining =>
      match materialize w attempt d previous with
      | Err e => (durable, Err e)
      | Ok (records, count) =>
          let durable := durable + count + 1 in
          match revision_answer w attempt with
          | Err e => (durable, Err e)
          | Ok after =>
              let reads := reads + count + 1 in
              if bool_decide (after = before) then
                (durable, Ok (publish h records (proven_basis before attempt) generation reads, Built))
              else
                attempts_from w h previous generation remaining (S attempt) after (Some records) reads durable
          end
      end
  end.

(** [SnapshotHandle::build], for a store of the given kind. *)
Definition build (w : Answers) (h : SnapshotHandle) (kind : string) (force : bool)
    (current : option Revision) : nat * Result (Snapshot * Refreshed) StateError :=
  let previous := h_active h in
  let '(reads, answer) :=
    match current with
    | Some current => (0, Ok (Some current))
    | None => (1, revision_answer w 0)
    end in
  match answer with
  | Err e => (reads, Err e)
  | Ok before =>
      let reusable :=
        match previous, before with
        | Some active, Some current =>
            if negb force && bool_decide (basis_revision (snap_basis active) = Some current)
            then Some active else None
        | _, _ => None
        end in
      match reusable with
      | Some active => (reads, Ok (active, Reused))
      | None =>
          let generation := (report_generation (h_report h) + 1)%N in
          match before with
          | None =>
              match materialize w 1 (h_definition h) previous with
              | Err e => (reads, Err e)
              | Ok (records, count) =>
                  (reads + count,
                   Ok (publish h records (unproven_basis (kind +:+ " does not report an authoritative revision") 1)
                         generation (reads + count), Built))
              end
          | Some _ =>
              attempts_from w h previous generation (Nat.max (coherence_attempts (h_definition h)) 1) 1
                before None reads reads
          end
      end
  end.

(** [refresh_at] *)
Definition refresh_at (w : Answers) (h : SnapshotHandle) (kind : string) (force : bool)
    (current : option Revision) : SnapshotHandle * Result (Snapshot * Refreshed) StateError :=
  let '(durable, result) := build w h kind force current in
  let report := h_report h in
  let reads := (report_durable_reads report + N.of_nat durable)%N in
  match result with
  | Ok (snapshot, Reused) =>
      ({| h_definition := h_definition h; h_digest := h_digest h;
          h_authority_context := h_authority_context h; h_active := h_active h;
          h_report := {| report_name := report_name report;
            report_definition_digest := report_definition_digest report;
            report_authority_context := report_authority_context report;
            report_generation := report_generation report;
            report_builds := report_builds report; report_failures := report_failures report;
            report_reused := report_reused report + 1; report_unproven := report_unproven report;
            report_durable_reads := reads; report_last_failure := report_last_failure report;
            report_active := report_active report |} |}, result)
  | Ok (snapshot, Built) =>
      ({| h_definition := h_definition h; h_digest := h_digest h;
          h_authority_context := h_authority_context h; h_active := Some snapshot;
          h_report := {| report_name := report_name report;
            report_definition_digest := report_definition_digest report;
            report_authority_context := report_authority_context report;
            report_generation := ident_generation (snap_identity snapshot);
            report_builds := report_builds report + 1; report_failures := report_failures report;
            report_reused := report_reused report;
            report_unproven := if decide (basis_coherence (snap_basis snapshot) = Unproven)
              then (report_unproven report + 1)%N else report_unproven report;
            report_durable_reads := reads; report_last_failure := report_last_failure report;
            report_active := Some {| active_identity := snap_identity snapshot;
              active_basis := snap_basis snapshot; active_records := snapshot_size snapshot |} |} |}, result)
  | Err e =>
      ({| h_definition := h_definition h; h_digest := h_digest h;
          h_authority_context := h_authority_context h; h_active := h_active h;
          h_report := {| report_name := report_name report;
            report_definition_digest := report_definition_digest report;
            report_authority_context := report_authority_context report;
            report_generation := report_generation report;
            report_builds := report_builds report; report_failures := report_failures report + 1;
            report_reused := report_reused report; report_unproven := report_unproven report;
            report_durable_reads := reads; report_last_failure := Some (state_error_to_string e);
            report_active := report_active report |} |}, result)
  end.

Definition refresh (w : Answers) (h : SnapshotHandle) (kind : string) (force : bool)
    : SnapshotHandle * Result (Snapshot * Refreshed) StateError :=
  refresh_at w h kind force None.
End building.

Definition invalidate (h : SnapshotHandle) : SnapshotHandle :=
  {| h_definition := h_definition h; h_digest := h_digest h;
     h_authority_context := h_authority_context h; h_active := None; h_report := h_report h |}.

Inductive Staleness : Type :=
| Unknown (reason : string)
| Current (snapshot current : option Revision)
| Stale (snapshot current : option Revision).

(** [staleness], with what the revision read answered. *)
Definition staleness (h : SnapshotHandle) (answer : Result (option Revision) StateError)
    : Result Staleness StateError :=
  match h_active h with
  | None => Ok (Unknown "nothing is published")
  | Some active =>
      match basis_revision (snap_basis active) with
      | None => Ok (Unknown "the active snapshot has no revision")
      | Some snapshot =>
          let? current := answer in
          Ok (if bool_decide (current = Some snapshot) then Current (Some snapshot) current
              else Stale (Some snapshot) current)
      end
  end.

(** ** The registry *)

Definition resolve `{!JsonQuote, !Sha256Hex} (handles : gmap string SnapshotHandle) (d : SnapshotDefinition)
    (kind location : string) : gmap string SnapshotHandle * Result SnapshotHandle StateError :=
  match handles !! def_name d with
  | Some handle =>
      if String.eqb (h_digest handle) (definition_digest d) then (handles, Ok handle)
      else (handles, Err (StateInvalid ("snapshot " +:+ def_name d
             +:+ " is already defined differently; a name means one definition")))
  | None =>
      match handle_new d kind location with
      | Ok handle => (<[def_name d := handle]> handles, Ok handle)
      | Err e => (handles, Err e)
      end
  end.

(** [SnapshotRegistry::reports] *)
Definition reports (handles : gmap string SnapshotHandle) : list SnapshotReport :=
  sort_by (λ l r, cmp (report_name l) (report_name r)) (h_report ∘ snd <$> map_to_list handles).

Definition invalidate_all (handles : gmap string SnapshotHandle) : gmap string SnapshotHandle :=
  invalidate <$> handles.

(** ** What a snapshot should hold

    The view of one state: for each source its records, and for each reference
    the records it names. *)

Notation Rows := (gmap (Collection * string) (N * gmap string Value)) (only parsing).

Definition source_table (m : Rows) (s : SnapshotSource) : gmap string StateRecord :=
  list_to_map ((λ r, (rec_id r, r)) <$>
    filter (selected_by (source_query s)) (records_of m (src_collection s))).

Definition fetched (m : Rows) (t : Records) (r : SnapshotReference) : gmap string StateRecord :=
  list_to_map (omap (λ id, (λ row, (id, record_of id row)) <$> m !! (ref_to r, id)) (named_ids t r)).

Definition view_reference (m : Rows) (t : Records) (r : SnapshotReference) : Records :=
  <[ref_to r := default ∅ (t !! ref_to r) ∪ fetched m t r]> t.

Definition view_sources (d : SnapshotDefinition) (m : Rows) : Records :=
  list_to_map ((λ s, (src_collection s, source_table m s)) <$> def_sources d).

Definition view (d : SnapshotDefinition) (m : Rows) : Records :=
  foldl (view_reference m) (view_sources d m) (def_references d).

Lemma source_table_lookup m s id r :
  source_table m s !! id = Some r ↔
  rec_id r = id ∧ selected_by (source_query s) r ∧
  m !! (src_collection s, id) = Some (rec_version r, rec_value r).
Proof.
  unfold source_table. rewrite <-elem_of_list_to_map.
  - rewrite list_elem_of_fmap. split.
    + intros (r' & [= -> ->] & [Hsel Hr]%list_elem_of_filter). by apply records_of_elem in Hr.
    + intros (<- & Hsel & Hm). exists r. split; [done|]. apply list_elem_of_filter.
      by rewrite records_of_elem.
  - rewrite <-list_fmap_compose. rewrite (list_fmap_ext _ rec_id) by done.
    eapply sublist_NoDup; [apply records_of_NoDup|apply fmap_sublist, sublist_filter].
Qed.

Lemma fetched_lookup m t r id :
  fetched m t r !! id = if decide (id ∈ named_ids t r) then record_of id <$> m !! (ref_to r, id) else None.
Proof.
  unfold fetched. generalize (named_ids t r). intros ids. induction ids as [|i ids IH]; [done|]. cbn [omap list_omap].
  destruct (m !! (ref_to r, i)) as [row|] eqn:E; simpl; destruct (decide (id = i)) as [->|Hne].
  - rewrite lookup_insert_eq, decide_True by apply list_elem_of_here. by rewrite E.
  - rewrite lookup_insert_ne by done. rewrite IH. repeat case_decide; set_solver.
  - rewrite IH, E. simpl. by repeat case_decide.
  - rewrite IH. repeat case_decide; set_solver.
Qed.

(** ** Materializing one state *)

(** Inserting records: a key holds one of them, or what it held. *)
Lemma fold_insert_at (P : StateRecord → bool) c rs t table :
  t !! c = Some table →
  foldl (λ t r, if P r then insert_at c (rec_id r) r t else t) t rs =
  <[c := foldl (λ T r, if P r then <[rec_id r := r]> T else T) table rs]> t.
Proof.
  revert t table. induction rs as [|r rs IH]; intros t table Ht; simpl; [by rewrite insert_id|].
  destruct (P r); [|by apply IH]. unfold insert_at. rewrite Ht. simpl.
  rewrite (IH _ (<[rec_id r := r]> table)) by apply lookup_insert_eq. by rewrite insert_insert_eq.
Qed.

Lemma fold_insert_lookup (P : StateRecord → bool) rs (table : gmap string StateRecord) id :
  (∃ r, r ∈ rs ∧ P r = true ∧ rec_id r = id ∧
     foldl (λ T r, if P r then <[rec_id r := r]> T else T) table rs !! id = Some r) ∨
  ((∀ r, r ∈ rs → P r = true → rec_id r ≠ id) ∧
   foldl (λ T r, if P r then <[rec_id r := r]> T else T) table rs !! id = table !! id).
Proof.
  revert table. induction rs as [|r rs IH]; intros table; simpl.
  { right. split; [by intros r []%not_elem_of_nil|done]. }
  destruct (IH (if P r then <[rec_id r := r]> table else table)) as [(x & Hx & HP & Hid & Hl)|[Hno Hl]].
  { left. exists x. split_and!; [set_solver|done..]. }
  destruct (P r) eqn:HP.
  - destruct (decide (rec_id r = id)) as [<-|Hne].
    + left. exists r. rewrite Hl, lookup_insert_eq. split_and!; [set_solver|done..].
    + right. rewrite Hl, lookup_insert_ne by done. split; [|done]. set_solver.
  - right. split; [|done]. intros x [->|Hx]%elem_of_cons; [congruence|auto].
Qed.

(** The table a source's records make is the source's table of the state. *)
Lemma source_records_table d s m rs :
  NoDup (src_collection <$> def_sources d) → s ∈ def_sources d →
  (∀ r, selected_by (source_query s) r →
     r ∈ rs ↔ m !! (src_collection s, rec_id r) = Some (rec_version r, rec_value r)) →
  foldl (λ T r, if source_accepts d (src_collection s) r then <[rec_id r := r]> T else T) ∅ rs =
  source_table m s.
Proof.
  intros Hnd Hs Hrs.
  assert (∀ r, source_accepts d (src_collection s) r = true ↔ selected_by (source_query s) r) as Hacc.
  { intros r. unfold source_accepts.
    assert (find (λ s', bool_decide (src_collection s' = src_collection s)) (def_sources d) = Some s) as ->.
    { clear Hrs. induction (def_sources d) as [|s' sources IH]; [by apply not_elem_of_nil in Hs|].
      simpl in *. apply NoDup_cons in Hnd as [Hn Hnd].
      apply elem_of_cons in Hs as [->|Hs]; [by rewrite bool_decide_true|].
      rewrite bool_decide_false; [by apply IH|]. intros Heq. apply Hn. rewrite Heq.
      by apply list_elem_of_fmap_2. }
    rewrite forallb_forall. unfold selected_by. simpl. by setoid_rewrite list_elem_of_In. }
  apply map_eq. intros id.
  destruct (fold_insert_lookup (source_accepts d (src_collection s)) rs ∅ id) as
    [(r & Hr & HP & Hid & ->)|[Hno ->]].
  - symmetry. apply source_table_lookup. apply Hacc in HP. subst id. split_and!; [done..|]. by apply Hrs.
  - rewrite lookup_empty. symmetry. apply eq_None_not_Some. intros [r Hr].
    apply source_table_lookup in Hr as (<- & Hsel & Hm). apply (Hno r); [by apply Hrs|by apply Hacc|done].
Qed.

(** Joining the sources' answers, in any order, gives the tables of the state. *)
Lemma join_sources_view d m answers t :
  NoDup (src_collection <$> def_sources d) → NoDup (answers.*1) →
  (∀ c, c ∈ answers.*1 → t !! c = None) →
  (∀ c result, (c, result) ∈ answers → ∃ s, s ∈ def_sources d ∧ src_collection s = c ∧
     ∀ rs, result = Ok rs → ∀ r, selected_by (source_query s) r →
       r ∈ rs ↔ m !! (c, rec_id r) = Some (rec_version r, rec_value r)) →
  ∀ t', join_sources d answers t = Ok t' →
  (∀ c, c ∉ answers.*1 → t' !! c = t !! c) ∧
  (∀ s, s ∈ def_sources d → src_collection s ∈ answers.*1 → t' !! src_collection s = Some (source_table m s)).
Proof.
  intros Hnd. revert t. induction answers as [|[c result] answers IH]; intros t Hnda Hfresh Hans t' Hj.
  { simpl in Hj. ok_inv. split; [done|]. intros s _ []%not_elem_of_nil. }
  simpl in Hnda, Hj. apply NoDup_cons in Hnda as [Hc Hnda]. destruct result as [rs|e]; [|done].
  simpl in Hj. destruct (Hans c (Ok rs)) as (s & Hs & <- & Hrs); [set_solver|].
  unfold open_table in Hj. rewrite Hfresh in Hj by set_solver.
  rewrite (fold_insert_at _ _ _ _ ∅), insert_insert_eq in Hj by apply lookup_insert_eq.
  rewrite (source_records_table d s m) in Hj; [|done..|by apply Hrs].
  apply IH in Hj as [Hother Htables];
    [|done| |by intros c' result' Hin; apply Hans, list_elem_of_further].
  2: { intros c' Hc'. rewrite lookup_insert_ne by set_solver. apply Hfresh. set_solver. }
  split.
  - intros c' Hc'. rewrite Hother by set_solver. rewrite lookup_insert_ne by set_solver. done.
  - intros s' Hs' [Heq|Hin]%elem_of_cons; [|by apply Htables]. simpl in Heq.
    assert (s' = s) as ->.
    { apply list_elem_of_lookup in Hs as [i Hi], Hs' as [j Hj].
      assert (i = j) as ->; [|congruence].
      eapply NoDup_lookup; [exact Hnd|by rewrite list_lookup_fmap, Hi|by rewrite list_lookup_fmap, Hj; simpl; rewrite Heq]. }
    rewrite Hother by done. by rewrite lookup_insert_eq.
Qed.

(** What the previous snapshot knows of a reference's records. *)
Definition known (r : SnapshotReference) (previous : option Snapshot) (id : string) : option StateRecord :=
  if ref_immutable r then previous ≫= λ s, snapshot_get s (ref_to r) id else None.

Lemma carry_spec r previous ids t table wanted :
  NoDup ids → t !! ref_to r = Some table →
  let '(t', wanted') := carry r previous ids t wanted in
  ∃ table', t' = <[ref_to r := table']> t ∧
    wanted' = wanted ++ filter (λ id, table !! id = None ∧ known r previous id = None) ids ∧
    ∀ id, table' !! id =
      match table !! id with
      | Some x => Some x
      | None => if decide (id ∈ ids) then known r previous id else None
      end.
Proof.
  intros Hnd. revert t table wanted. induction Hnd as [|i ids Hi _ IH]; intros t table wanted Ht.
  { simpl. exists table. rewrite insert_id, app_nil_r by done. split_and!; [done..|].
    intros id. by destruct (table !! id). }
  cbn [carry]. rewrite Ht. simpl. fold (known r previous i). rewrite filter_cons.
  case_bool_decide as Hheld.
  - specialize (IH t table wanted Ht). destruct (carry r previous ids t wanted) as [t' wanted'].
    destruct IH as (table' & -> & -> & Hl). destruct Hheld as [x Hx].
    exists table'. rewrite (decide_False (P := table !! i = None ∧ _)) by naive_solver.
    split_and!; [done..|]. intros id. rewrite Hl. destruct (table !! id) eqn:E; [done|].
    repeat case_decide; set_solver.
  - apply eq_None_not_Some in Hheld. destruct (known r previous i) as [x|] eqn:Hk.
    + unfold insert_at. rewrite Ht. simpl.
      specialize (IH (<[ref_to r := <[i := x]> table]> t) (<[i := x]> table) wanted (lookup_insert_eq _ _ _)).
      destruct (carry r previous ids _ wanted) as [t' wanted']. destruct IH as (table' & -> & -> & Hl).
      exists table'. rewrite insert_insert_eq. rewrite (decide_False (P := table !! i = None ∧ _)) by naive_solver.
      split_and!; [done| |].
      * f_equal. apply filter_ext_in. intros id Hid. rewrite lookup_insert_ne; [done|]. by intros ->.
      * intros id. rewrite Hl. destruct (decide (id = i)) as [->|Hne].
        { by rewrite lookup_insert_eq, Hheld, decide_True, Hk by apply list_elem_of_here. }
        rewrite lookup_insert_ne by done. destruct (table !! id); [done|]. repeat case_decide; set_solver.
    + specialize (IH t table (wanted ++ [i]) Ht). destruct (carry r previous ids t (wanted ++ [i])) as [t' wanted'].
      destruct IH as (table' & -> & -> & Hl). exists table'.
      rewrite (decide_True (P := table !! i = None ∧ _)), <-(assoc_L (++)) by done. split_and!; [done..|].
      intros id. rewrite Hl. destruct (table !! id) eqn:E; [done|].
      destruct (decide (id = i)) as [->|Hne]; [|repeat case_decide; set_solver].
      rewrite Hk. by repeat case_decide.
Qed.

Lemma join_records_spec c answers t t' table :
  t !! c = Some table → join_records c answers t = Ok t' →
  Forall (λ result, ∃ rs, result = Ok rs) answers ∧
  ∃ table', t' = <[c := table']> t ∧
    ∀ id, (∃ rs r, Ok rs ∈ answers ∧ r ∈ rs ∧ rec_id r = id ∧ table' !! id = Some r) ∨
          ((∀ rs r, Ok rs ∈ answers → r ∈ rs → rec_id r ≠ id) ∧ table' !! id = table !! id).
Proof.
  revert t table. induction answers as [|result answers IH]; intros t table Ht Hj; simpl in Hj.
  { ok_inv. split; [done|]. exists table. split; [by rewrite insert_id|]. intros id. right.
    split; [by intros rs r []%not_elem_of_nil|done]. }
  destruct result as [rs|e]; [|done]. simpl in Hj.
  pose proof (fold_insert_at (λ _, true) c rs t table Ht) as Hfold. simpl in Hfold. rewrite Hfold in Hj.
  destruct (IH _ _ (lookup_insert_eq _ _ _) Hj) as (Hok & table' & -> & Hl).
  split; [constructor; [by eexists|done]|]. exists table'. split; [by rewrite insert_insert_eq|]. intros id.
  destruct (Hl id) as [(rs' & r & Hrs & Hr & Hid & Hx)|[Hno Hx]].
  { left. exists rs', r. split_and!; [set_solver|done..]. }
  destruct (fold_insert_lookup (λ _, true) rs table id) as [(r & Hr & _ & Hid & Hf)|[Hno' Hf]]; simpl in Hf.
  - left. exists rs, r. rewrite Hx. split_and!; [set_solver|done..].
  - right. rewrite Hx. split; [|done]. intros rs' r [[= ->]|Hin]%elem_of_cons Hr; [by apply Hno'|by eapply Hno].
Qed.

(** Reads of identities that answer from one state. *)
Definition exact_many (m : Rows) (w : Answers) (a : nat) : Prop :=
  ∀ k c ids rs, many_answer w a k c ids = Ok rs →
  ∀ r, r ∈ rs ↔ rec_id r ∈ ids ∧ m !! (c, rec_id r) = Some (rec_version r, rec_value r).

(** Reads of sources that answer from one state, possibly with more. *)
Definition exact_sources (m : Rows) (w : Answers) (a : nat) : Prop :=
  ∀ k s rs, query_answer w a k (source_query s) = Ok rs →
  ∀ r, selected_by (source_query s) r →
    r ∈ rs ↔ m !! (src_collection s, rec_id r) = Some (rec_version r, rec_value r).

(** What is carried over as immutable has not changed. *)
Definition carried_over (m : Rows) (references : list SnapshotReference) (previous : option Snapshot) : Prop :=
  ∀ r id x, r ∈ references → known r previous id = Some x →
    m !! (ref_to r, id) = Some (rec_version x, rec_value x) ∧ rec_id x = id.

(** Every concurrent read completes, in some order. *)
Definition permutes (w : Answers) : Prop := ∀ a j A (l : list A), completed w a j l ≡ₚ l.

Lemma elem_of_chunks {A} size (l : list A) x : size ≠ 0 → x ∈ l ↔ ∃ chunk, chunk ∈ chunks size l ∧ x ∈ chunk.
Proof.
  intros Hs. rewrite <-(concat_chunks size l Hs) at 1. rewrite list_elem_of_In, in_concat.
  setoid_rewrite list_elem_of_In. naive_solver.
Qed.

(** The requests of a reference, and what they answer. *)
Definition request_answers (w : Answers) (a reads : nat) (c : Collection) (wanted : list string)
    : list (Result (list StateRecord) StateError) :=
  imap (λ k ids, many_answer w a (reads + k) c ids) (chunks IDS_PER_READ wanted).

Lemma request_sound m w a reads c wanted rs x :
  exact_many m w a → Ok rs ∈ request_answers w a reads c wanted → x ∈ rs →
  rec_id x ∈ wanted ∧ m !! (c, rec_id x) = Some (rec_version x, rec_value x).
Proof.
  intros Hm Hrs Hx. apply elem_of_lookup_imap in Hrs as (k & ids & Hans & Hids). symmetry in Hans.
  pose proof (Hm _ _ _ _ Hans) as Hexact. apply Hexact in Hx as [Hin Hx]. split; [|done].
  apply (elem_of_chunks IDS_PER_READ); [done|]. exists ids. split; [|done]. by eapply list_elem_of_lookup_2.
Qed.

Lemma request_complete m w a reads c wanted id row :
  exact_many m w a → Forall (λ result, ∃ rs, result = Ok rs) (request_answers w a reads c wanted) →
  id ∈ wanted → m !! (c, id) = Some row →
  ∃ rs, Ok rs ∈ request_answers w a reads c wanted ∧ record_of id row ∈ rs.
Proof.
  intros Hm Hok Hid Hrow. apply (elem_of_chunks IDS_PER_READ) in Hid as (ids & Hids & Hin); [|done].
  apply list_elem_of_lookup in Hids as [k Hk].
  assert (many_answer w a (reads + k) c ids ∈ request_answers w a reads c wanted) as Hans
    by (apply elem_of_lookup_imap; by exists k, ids).
  rewrite Forall_forall in Hok. destruct (Hok _ Hans) as [rs Hrs]. exists rs. rewrite <-Hrs. split; [done|].
  apply (Hm _ _ _ _ Hrs). simpl. rewrite Hrow. by destruct row.
Qed.

Lemma follow_view m w a previous references j t reads t' n :
  exact_many m w a → carried_over m references previous → permutes w →
  follow w a previous references j t reads = Ok (t', n) →
  t' = foldl (view_reference m) t references.
Proof.
  intros Hm Hc Hp. revert j t reads. induction references as [|r references IH]; intros j t reads Hf.
  { simpl in Hf. by ok_inv. }
  cbn [follow] in Hf. set (table := default ∅ (t !! ref_to r)).
  pose proof (carry_spec r previous (named_ids t r) (open_table (ref_to r) t) table []
    (btree_set_NoDup _) (lookup_insert_eq _ _ _)) as Hcarry.
  destruct (carry _ _ _ _ _) as [t1 wanted]. destruct Hcarry as (table1 & -> & -> & Hl1).
  apply and_then_ok in Hf as (t2 & Hj & Hf).
  apply join_records_spec with (table := table1) in Hj as (Hok & table2 & -> & Hl2); [|apply lookup_insert_eq].
  apply IH in Hf; [|intros r' id x Hr'; apply Hc; set_solver]. rewrite Hf. simpl. f_equal.
  unfold view_reference, open_table. rewrite !insert_insert_eq. f_equal. fold table.
  apply map_eq. intros id. rewrite lookup_union, fetched_lookup.
  fold (request_answers w a reads (ref_to r)
    (filter (λ id, table !! id = None ∧ known r previous id = None) (named_ids t r))) in Hok, Hl2.
  rewrite (Hp a j _ _) in Hok. setoid_rewrite (Hp a j _ _) in Hl2.
  destruct (Hl2 id) as [(rs & x & Hrs & Hx & <- & ->)|[Hno ->]].
  - destruct (request_sound m w a reads _ _ rs x Hm Hrs Hx) as [Hw Hmx].
    apply list_elem_of_filter in Hw as [[Ht _] Hnamed]. rewrite Ht, decide_True, Hmx by done. by destruct x.
  - rewrite Hl1. destruct (table !! id) as [x|] eqn:Ht; [by destruct (if decide _ then _ else None)|].
    case_decide as Hnamed; [|done]. destruct (known r previous id) as [x|] eqn:Hk.
    { destruct (Hc r id x) as [-> <-]; [set_solver|done|]. simpl. by destruct x. }
    destruct (m !! (ref_to r, id)) as [row|] eqn:Hmx; [|done]. exfalso.
    destruct (request_complete m w a reads (ref_to r) _ id row Hm Hok) as (rs & Hrs & Hx);
      [by apply list_elem_of_filter|done|]. by apply (Hno rs _ Hrs Hx).
Qed.

Lemma materialize_view m w a d previous t n :
  NoDup (src_collection <$> def_sources d) →
  exact_sources m w a → exact_many m w a → carried_over m (def_references d) previous → permutes w →
  materialize w a d previous = Ok (t, n) → t = view d m.
Proof.
  intros Hnd Hs Hm Hc Hp Hmat. apply and_then_ok in Hmat as (t0 & Hj & Hf).
  apply (follow_view m) in Hf as ->; [|done..]. unfold view. f_equal.
  set (answers := imap _ _) in Hj.
  assert (answers.*1 = src_collection <$> def_sources d) as Hfst.
  { unfold answers. rewrite fmap_imap. simpl. apply list_eq. intros i.
    rewrite list_lookup_imap, list_lookup_fmap. done. }
  assert ((completed w a 0 answers).*1 ≡ₚ src_collection <$> def_sources d) as Hperm
    by by rewrite (Hp a 0 _ answers), Hfst.
  apply (join_sources_view d m) in Hj as [Hother Htables]; [|done|by rewrite Hperm|by intros c _; apply lookup_empty|].
  - apply map_eq. intros c. unfold view_sources.
    destruct (decide (c ∈ src_collection <$> def_sources d)) as [Hc'|Hc'].
    + apply list_elem_of_fmap in Hc' as (s & -> & Hs').
      rewrite Htables; [|done|rewrite Hperm; by apply list_elem_of_fmap_2]. symmetry.
      apply elem_of_list_to_map.
      * rewrite <-list_fmap_compose. done.
      * apply list_elem_of_fmap. by exists s.
    + rewrite Hother by by rewrite Hperm. rewrite lookup_empty. symmetry.
      apply not_elem_of_list_to_map. rewrite <-list_fmap_compose. done.
  - intros c result Hin. rewrite (Hp a 0 _ answers) in Hin.
    apply elem_of_lookup_imap in Hin as (k & s & [= -> ->] & Hk).
    exists s. split; [by eapply list_elem_of_lookup_2|]. split; [done|]. intros rs Hrs. by apply (Hs k).
Qed.

Lemma evaluate_query_elem q records r :
  query_limit q = None → r ∈ evaluate_query q records ↔ r ∈ records ∧ selected_by q r.
Proof.
  intros Hl. unfold evaluate_query. rewrite Hl.
  assert (∀ l, r ∈ match query_order_by q with
    | Some (field, down) => sort_by (by_field field down) l | None => l end ↔ r ∈ l) as ->.
  { intros l. destruct (query_order_by q) as [[field down]|]; [apply elem_of_sort_by|done]. }
  rewrite elem_of_sort_by, list_elem_of_filter, forallb_forall. unfold selected_by.
  setoid_rewrite list_elem_of_In. naive_solver.
Qed.

Lemma selected_ids c ids r : selected_by (query_ids (query_all c) ids) r ↔ rec_id r ∈ ids.
Proof.
  unfold selected_by, query_ids, one_of_values, query_filter. simpl.
  assert ((∀ f, f ∈ [{| filter_field := ID_FIELD; filter_comparison := CmpIn; filter_value := Array (Str <$> ids) |}]
    → matches_record f r = true) ↔ matches_record {| filter_field := ID_FIELD; filter_comparison := CmpIn;
      filter_value := Array (Str <$> ids) |} r = true) as -> by set_solver.
  unfold matches_record, matches_value. simpl. rewrite bool_decide_eq_true, list_elem_of_fmap. naive_solver.
Qed.

Lemma validate_sources_NoDup name sources seen seen' :
  validate_sources name sources seen = Ok seen' →
  NoDup (src_collection <$> sources) ∧ ∀ s, s ∈ sources → src_collection s ∉ seen.
Proof.
  revert seen. induction sources as [|s sources IH]; intros seen Hv; simpl in Hv.
  { split; [constructor|]. by intros s []%not_elem_of_nil. }
  apply seq_ok in Hv as [Hn Hv]. apply reject_if_ok, bool_decide_eq_false in Hn.
  apply IH in Hv as [Hnd Hseen]. split; [|set_solver]. simpl. constructor; [|done].
  intros (s' & Heq & Hs')%list_elem_of_fmap. apply (Hseen s' Hs'). set_solver.
Qed.

Lemma validate_NoDup d : definition_validate d = Ok tt → NoDup (src_collection <$> def_sources d).
Proof.
  unfold definition_validate. intros (_ & (_ & Hv)%seq_ok)%seq_ok.
  apply and_then_ok in Hv as (seen & Hv & _). by apply validate_sources_NoDup in Hv as [? _].
Qed.

(** ** Time *)

Section time.
Context {S : Type} `{Laws : StateStoreLaws S}.

Definition later (s s' : S) : Prop :=
  history (contents s, counter s) (contents s', counter s').

(** The states a refresh's reads find: when it reads the revision, and at each
    read of a materialization. *)
Record Timeline : Type := {
  rev_at : nat → S;
  read_at : nat → nat → S;
}.

(** The world answers from those states, and time moves forward: a read of the
    [a]th materialization happens between the revision read before it and the
    one after it.  A backend may return more than a source's query selects. *)
Record Meets (w : Answers) (moments : Timeline) : Prop := {
  meets_rev n : consistent (rev_at moments n);
  meets_read a k : consistent (read_at moments a k);
  meets_before a k : later (rev_at moments a) (read_at moments (1 + a) k);
  meets_after a k : later (read_at moments (1 + a) k) (rev_at moments (1 + a));
  meets_revision n r : revision_answer w n = Ok (Some r) → store_revision (rev_at moments n) = r;
  meets_query a k s rs : query_answer w a k (source_query s) = Ok rs →
    ∀ r, selected_by (source_query s) r → r ∈ rs ↔ r ∈ store_query (read_at moments a k) (source_query s);
  meets_many a k c ids rs : many_answer w a k c ids = Ok rs →
    ∀ r, r ∈ rs ↔ r ∈ store_query (read_at moments a k) (query_ids (query_all c) ids);
  meets_completed : permutes w;
}.

(** A snapshot of a state that the store was in at the snapshot's revision. *)
Definition represents (d : SnapshotDefinition) (snapshot : Snapshot) (s : S) : Prop :=
  basis_revision (snap_basis snapshot) = Some (store_revision s) ∧
  snap_records snapshot = view d (contents s).

Lemma later_same s s' : later s s' → counter s = counter s' → contents s = contents s'.
Proof. intros Hl Hc. apply history_spec in Hl as (_ & Heq & _). by apply Heq. Qed.

(** When the revision has not moved, everything was read from one state. *)
Lemma unmoved w moments a :
  Meets w moments → store_revision (rev_at moments a) = store_revision (rev_at moments (1 + a)) →
  ∀ k, contents (read_at moments (1 + a) k) = contents (rev_at moments (1 + a)).
Proof.
  intros Hw Hrev k. pose proof (meets_before _ _ Hw a k) as Hb. pose proof (meets_after _ _ Hw a k) as Ha.
  apply (f_equal rev_value) in Hrev. rewrite !revision_counter in Hrev.
  apply later_same; [done|]. apply history_spec in Hb as [Hb _], Ha as [Ha _]. cbn [fst snd] in Ha, Hb. lia.
Qed.

Lemma materialize_moment w moments a d previous t n m :
  Meets w moments → definition_validate d = Ok tt →
  (∀ k, contents (read_at moments a k) = m) → carried_over m (def_references d) previous →
  materialize w a d previous = Ok (t, n) → t = view d m.
Proof.
  intros Hw Hv Hm Hc. apply materialize_view; [by apply validate_NoDup| | |done|apply Hw].
  - intros k s rs Hrs r Hsel. rewrite (meets_query _ _ Hw _ _ _ _ Hrs r Hsel).
    rewrite query_contents, Hm by apply Hw. rewrite evaluate_query_elem by done.
    rewrite records_of_elem. naive_solver.
  - intros k c ids rs Hrs r. rewrite (meets_many _ _ Hw _ _ _ _ _ Hrs r).
    rewrite query_contents, Hm by apply Hw. rewrite evaluate_query_elem by done.
    rewrite records_of_elem, selected_ids. naive_solver.
Qed.

Lemma attempts_represent `{!JsonQuote, !Sha256Hex} w moments h previous generation remaining attempt before last reads durable r snapshot how :
  Meets w moments → definition_validate (h_definition h) = Ok tt →
  (∀ n, carried_over (contents (rev_at moments n)) (def_references (h_definition h)) previous) →
  (∀ r, before = Some r → store_revision (rev_at moments attempt) = r) →
  snd (attempts_from w h previous generation remaining (1 + attempt) before last reads durable) =
    Ok (snapshot, how) →
  basis_revision (snap_basis snapshot) = Some r →
  how = Built ∧ ∃ n, represents (h_definition h) snapshot (rev_at moments n).
Proof.
  intros Hw Hv Hc. revert attempt before last reads durable.
  induction remaining as [|remaining IH]; intros attempt before last reads durable Hbefore Hout Hr.
  { simpl in Hout. destruct (def_incoherent (h_definition h)), last; simplify_eq/=. }
  cbn [attempts_from] in Hout. destruct (materialize w (1 + attempt) _ previous) as [[records count]|e] eqn:Hmat; [|done].
  destruct (revision_answer w (1 + attempt)) as [after|e] eqn:Hafter; [|done].
  case_bool_decide as Heq.
  - simpl in Hout. injection Hout as <- <-. simpl in Hr. subst after before. split; [done|].
    exists (1 + attempt). pose proof (meets_revision _ _ Hw _ _ Hafter) as Hrev.
    split; [by rewrite Hrev|]. cbn [publish snap_records].
    eapply materialize_moment; [done..| |apply Hc|done].
    apply (unmoved w); [done|]. rewrite Hrev. by apply Hbefore.
  - apply IH in Hout; [done| |done]. intros r' ->. by apply (meets_revision _ _ Hw).
Qed.

(** A source without filters holds the whole collection. *)
Lemma view_whole d m c id :
  NoDup (src_collection <$> def_sources d) → source_all c ∈ def_sources d →
  view d m !! c ≫= (.!! id) = record_of id <$> m !! (c, id).
Proof.
  intros Hnd Hs. unfold view.
  assert (∀ t, (∀ id, t !! c ≫= (.!! id) = record_of id <$> m !! (c, id)) →
    foldl (view_reference m) t (def_references d) !! c ≫= (.!! id) = record_of id <$> m !! (c, id)) as Hfold.
  { induction (def_references d) as [|r references IH]; intros t Ht; simpl; [apply Ht|]. apply IH.
    intros i. unfold view_reference. destruct (decide (ref_to r = c)) as [<-|Hne].
    - rewrite lookup_insert_eq. simpl. rewrite lookup_union, fetched_lookup. specialize (Ht i).
      assert (default ∅ (t !! ref_to r) !! i = record_of i <$> m !! (ref_to r, i)) as ->
        by (rewrite <-Ht; by destruct (t !! ref_to r)).
      case_decide; by destruct (m !! (ref_to r, i)).
    - by rewrite lookup_insert_ne. }
  apply Hfold. intros i. unfold view_sources.
  rewrite (elem_of_list_to_map_1 _ c (source_table m (source_all c))).
  - simpl. destruct (source_table m (source_all c) !! i) as [r|] eqn:E.
    + apply source_table_lookup in E as (<- & _ & E). simpl in E. rewrite E. by destruct r.
    + destruct (m !! (c, i)) as [row|] eqn:Em; [|done]. exfalso.
      assert (source_table m (source_all c) !! i = Some (record_of i row)); [|congruence].
      apply source_table_lookup. split; [done|]. split; [by intros f []%not_elem_of_nil|].
      simpl. rewrite Em. by destruct row.
  - rewrite <-list_fmap_compose. done.
  - apply list_elem_of_fmap. by exists (source_all c).
Qed.

Lemma represents_query d snapshot s q :
  consistent s → definition_validate d = Ok tt → represents d snapshot s →
  source_all (query_collection q) ∈ def_sources d →
  snapshot_query snapshot q = store_query s q.
Proof.
  intros Hs Hv [_ Hr] Hin. apply validate_NoDup in Hv. rewrite query_contents by done.
  unfold snapshot_query, snapshot_all. symmetry. apply evaluate_query_perm; [apply records_of_NoDup|].
  set (table := default ∅ _).
  assert (∀ id, table !! id = record_of id <$> contents s !! (query_collection q, id)) as Ht.
  { intros id. unfold table. rewrite Hr, <-(view_whole d _ _ id) by done. by destruct (view d _ !! _). }
  apply NoDup_Permutation.
  - eapply NoDup_fmap_1, records_of_NoDup.
  - apply (NoDup_fmap_1 rec_id). rewrite <-list_fmap_compose.
    rewrite (list_fmap_ext _ fst).
    + rewrite sort_by_perm. apply NoDup_fst_map_to_list.
    + intros i [id r] Hi. apply list_elem_of_lookup_2, elem_of_sort_by, elem_of_map_to_list in Hi.
      rewrite Ht in Hi. by apply fmap_Some in Hi as (row & _ & ->).
  - intros r. rewrite records_of_elem, list_elem_of_fmap. split.
    + intros Hm. exists (rec_id r, r). split; [done|]. apply elem_of_sort_by, elem_of_map_to_list.
      rewrite Ht, Hm. by destruct r.
    + intros ([id x] & -> & Hx). apply elem_of_sort_by, elem_of_map_to_list in Hx. rewrite Ht in Hx.
      apply fmap_Some in Hx as ([v document] & Hm & ->). done.
Qed.
End time.

(** ** Handles *)

Definition describes (snapshot : Snapshot) (a : ActiveSnapshot) : Prop :=
  active_identity a = snap_identity snapshot ∧ active_basis a = snap_basis snapshot ∧
  active_records a = snapshot_size snapshot.

(** The report of a handle agrees with what it published. *)
Record HandleWf (h : SnapshotHandle) : Prop := {
  wf_definition : definition_validate (h_definition h) = Ok tt;
  wf_generation : report_generation (h_report h) = report_builds (h_report h);
  wf_unproven : (report_unproven (h_report h) ≤ report_builds (h_report h))%N;
  wf_active snapshot : h_active h = Some snapshot →
    ident_generation (snap_identity snapshot) = report_generation (h_report h) ∧
    ident_name (snap_identity snapshot) = def_name (h_definition h) ∧
    ident_definition_digest (snap_identity snapshot) = h_digest h ∧
    ∃ a, report_active (h_report h) = Some a ∧ describes snapshot a;
}.

(** What a build gives: the active snapshot again, or a new generation. *)
Definition new_generation (h : SnapshotHandle) (snapshot : Snapshot) : Prop :=
  ident_generation (snap_identity snapshot) = (report_generation (h_report h) + 1)%N ∧
  ident_name (snap_identity snapshot) = def_name (h_definition h) ∧
  ident_definition_digest (snap_identity snapshot) = h_digest h.

Lemma attempts_built `{!JsonQuote, !Sha256Hex} w h previous remaining attempt before last reads durable snapshot how :
  snd (attempts_from w h previous (report_generation (h_report h) + 1) remaining attempt before last reads
    durable) = Ok (snapshot, how) →
  how = Built ∧ new_generation h snapshot.
Proof.
  revert attempt before last reads durable.
  induction remaining as [|remaining IH]; intros attempt before last reads durable Hout.
  { simpl in Hout. by destruct (def_incoherent (h_definition h)), last; simplify_eq/=. }
  cbn [attempts_from] in Hout. destruct (materialize _ _ _ _) as [[records count]|e]; [|done].
  destruct (revision_answer w attempt) as [after|e]; [|done].
  case_bool_decide; [by simplify_eq/=|by eapply IH].
Qed.

Lemma build_result `{!JsonQuote, !Sha256Hex} w h kind force current snapshot how :
  snd (build w h kind force current) = Ok (snapshot, how) →
  match how with Reused => h_active h = Some snapshot | Built => new_generation h snapshot end.
Proof.
  unfold build. destruct (match current with Some _ => _ | None => _ end) as [reads [before|e]]; [|done].
  destruct (h_active h) as [active|], before as [r|].
  - destruct (negb force && _); [by intros [= <- <-]|]. by intros [-> ?]%attempts_built.
  - destruct (materialize _ _ _ _) as [[records count]|e]; by intros [= <- <-].
  - by intros [-> ?]%attempts_built.
  - destruct (materialize _ _ _ _) as [[records count]|e]; by intros [= <- <-].
Qed.

(** ** Properties *)

(** C27: A snapshot with a revision is a point in time.  Whatever other writers do
    between and during its reads, and in whatever order concurrent reads
    complete, a refresh that returns a snapshot with a revision returns exactly
    the view of the one state the store was in at that revision, whether it built
    the snapshot or reused the active one; and every query of a whole collection
    it holds answers as the store did then. *)
Theorem snapshot_coherent `{!JsonQuote, !Sha256Hex} {S : Type} `{StateStoreLaws S} (moments : @Timeline S) w h kind force current
    snapshot how r :
  Meets w moments → definition_validate (h_definition h) = Ok tt →
  (∀ n, carried_over (contents (rev_at moments n)) (def_references (h_definition h)) (h_active h)) →
  (∀ active r, h_active h = Some active → basis_revision (snap_basis active) = Some r →
     ∃ s, later s (rev_at moments 0) ∧ represents (h_definition h) active s) →
  (∀ r, current = Some r → store_revision (rev_at moments 0) = r) →
  snd (refresh_at w h kind force current) = Ok (snapshot, how) →
  basis_revision (snap_basis snapshot) = Some r →
  ∃ n, represents (h_definition h) snapshot (rev_at moments n) ∧
    ∀ q, source_all (query_collection q) ∈ def_sources (h_definition h) →
      snapshot_query snapshot q = store_query (rev_at moments n) q.
Proof.
  intros Hw Hv Hc Hactive Hcurrent Hout Hr.
  assert (snd (build w h kind force current) = Ok (snapshot, how)) as Hb.
  { unfold refresh_at in Hout. by destruct (build w h kind force current) as [durable [[s []]|e]]. }
  clear Hout. assert (∃ n, represents (h_definition h) snapshot (rev_at moments n)) as [n Hn].
  2: { exists n. split; [done|]. intros q Hq. by apply (represents_query (h_definition h)); [apply Hw|..]. }
  unfold build in Hb. set (first := match current with Some _ => _ | None => _ end) in Hb.
  assert (∀ r, snd first = Ok (Some r) → store_revision (rev_at moments 0) = r) as Hfirst.
  { unfold first. destruct current as [r'|]; [intros r0 [= <-]; by apply Hcurrent|].
    intros r0. apply (meets_revision _ _ Hw). }
  destruct first as [reads [before|e]]; [|done]. simpl in Hfirst.
  destruct before as [r0|].
  - specialize (Hfirst r0 eq_refl).
    assert (∀ r, Some r0 = Some r → store_revision (rev_at moments 0) = r) as Hbefore by naive_solver.
    destruct (h_active h) as [active|] eqn:Ea.
    + destruct (negb force && _) eqn:Hreuse.
      * simpl in Hb. injection Hb as <- <-. apply andb_true_iff in Hreuse as [_ Heq].
        apply bool_decide_eq_true in Heq.
        destruct (Hactive active r0 eq_refl Heq) as (s & Hl & [Hs Hview]). exists 0.
        rewrite Heq in Hs. injection Hs as Hs. split; [congruence|]. rewrite Hview. f_equal.
        apply later_same; [done|]. rewrite <-!revision_counter. congruence.
      * by eapply (attempts_represent w moments h _ _ _ 0) in Hb as [_ ?].
    + by eapply (attempts_represent w moments h _ _ _ 0) in Hb as [_ ?].
  - destruct (h_active h); destruct (materialize _ _ _ _) as [[records count]|e]; by simplify_eq/=.
Qed.

(** A handle stays true to what it published.  A refresh keeps the report's
    generation equal to the number of builds, and its active entry equal to the
    active snapshot; a snapshot it returns is active afterwards; a reuse changes
    neither; and a failed build leaves the active snapshot and its report in
    place, counts the failure and records the error. *)
Theorem refresh_preserves_handle `{!JsonQuote, !Sha256Hex} w h kind force current :
  HandleWf h →
  let '(h', result) := refresh_at w h kind force current in
  HandleWf h' ∧
  match result with
  | Ok (snapshot, how) =>
      h_active h' = Some snapshot ∧
      report_builds (h_report h') = (report_builds (h_report h) + match how with Built => 1 | Reused => 0 end)%N ∧
      (how = Reused → h_active h = Some snapshot)
  | Err e =>
      h_active h' = h_active h ∧ report_active (h_report h') = report_active (h_report h) ∧
      report_builds (h_report h') = report_builds (h_report h) ∧
      report_failures (h_report h') = (report_failures (h_report h) + 1)%N ∧
      report_last_failure (h_report h') = Some (state_error_to_string e)
  end.
Proof.
  intros Hwf. unfold refresh_at. pose proof (build_result w h kind force current) as Hb.
  destruct (build w h kind force current) as [durable [[snapshot []]|e]]; simpl in Hb.
  - destruct (Hb _ _ eq_refl) as (Hg & Hn & Hd). split; [|done]. destruct Hwf as [Hv Hgen Hun _].
    split; simpl; [done|congruence|case_decide; lia|]. intros ? [= <-]. split_and!; [done..|]. by eexists.
  - specialize (Hb _ _ eq_refl). split; [by destruct Hwf; split|]. simpl. split_and!; [done|lia|done].
  - split; [by destruct Hwf; split|done].
Qed.

(** A name means one definition.  Once a definition is registered, resolving
    one of the same name gives the registered handle when its digest is the
    same, whatever the order of its sources, and an error otherwise; neither
    changes the registry. *)
Theorem name_means_one_definition `{!JsonQuote, !Sha256Hex} handles d d' kind location kind' location' handle :
  snd (resolve handles d kind location) = Ok handle → def_name d' = def_name d →
  h_digest handle = definition_digest d ∧
  let '(handles', again) := resolve (fst (resolve handles d kind location)) d' kind' location' in
  handles' = fst (resolve handles d kind location) ∧
  match again with
  | Ok handle' => handle' = handle ∧ definition_digest d' = definition_digest d
  | Err _ => definition_digest d' ≠ definition_digest d
  end ∧
  (definition_validate d = Ok tt → def_sources d ≡ₚ def_sources d' → def_references d' = def_references d →
   again = Ok handle).
Proof.
  intros Hres Hname.
  assert (h_digest handle = definition_digest d ∧
    fst (resolve handles d kind location) !! def_name d = Some handle) as [Hdigest Hreg].
  { revert Hres. unfold resolve. destruct (handles !! def_name d) as [h|] eqn:E.
    - destruct (String.eqb_spec (h_digest h) (definition_digest d)); [|done]. simpl. intros [= <-]. done.
    - destruct (handle_new d kind location) as [h|e] eqn:En; [|done]. simpl. intros [= <-].
      apply seq_ok in En as [_ [= <-]]. split; [done|]. apply lookup_insert_eq. }
  split; [done|]. unfold resolve at 1. rewrite Hname, Hreg, Hdigest.
  assert (definition_validate d = Ok tt → def_sources d ≡ₚ def_sources d' →
    def_references d' = def_references d → definition_digest d = definition_digest d') as Hsame.
  { intros Hv Hp Hr. unfold definition_digest. rewrite Hname, Hr. do 8 f_equal.
    apply sort_by_perm_eq; [apply (cmp_on (@cmp string _))| |done].
    intros x y Hx Hy Heq%cmp_eq. apply Collection.name_inj in Heq. apply validate_NoDup in Hv.
    apply list_elem_of_lookup in Hx as [i Hi], Hy as [j Hj]. assert (i = j) as ->; [|congruence].
    eapply NoDup_lookup; [exact Hv|by rewrite list_lookup_fmap, Hi|by rewrite list_lookup_fmap, Hj; simpl; rewrite Heq]. }
  destruct (String.eqb_spec (definition_digest d) (definition_digest d')) as [Heq|Hne].
  - split_and!; done.
  - split_and!; [done|congruence|]. intros. by destruct Hne; apply Hsame.
Qed.

(** ** Witnesses *)

#[local] Instance plain_quote : JsonQuote := λ s, s.
#[local] Instance plain_sha : Sha256Hex := λ s, s.

Definition projects : SnapshotDefinition := definition_new "projects" [source_all Collection.Project].

Definition fresh_handle : SnapshotHandle :=
  {| h_definition := projects; h_digest := "digest"; h_authority_context := "memory:here"; h_active := None;
     h_report := {| report_name := "projects"; report_definition_digest := "digest";
       report_authority_context := "memory:here";
       report_generation := 0; report_builds := 0; report_failures := 0; report_reused := 0;
       report_unproven := 0; report_durable_reads := 0; report_last_failure := None;
       report_active := None |} |}.

(** A writer commits between the first materialization and the revision read
    after it. *)
Definition moving : @Timeline MemoryState := {|
  rev_at n := match n with O => memory_new "memory:1" | _ => alice end;
  read_at a _ := match a with O | 1 => memory_new "memory:1" | _ => alice end;
|}.

Definition moving_answers : Answers := {|
  revision_answer n := Ok (Some (store_revision (rev_at moving n)));
  query_answer a k q := Ok (store_query (read_at moving a k) q);
  many_answer a k c ids := Ok (store_query (read_at moving a k) (query_ids (query_all c) ids));
  completed _ _ _ l := l;
|}.

Lemma moving_meets : Meets moving_answers moving.
Proof.
  assert (later (memory_new "memory:1") alice) as Hcommit.
  { pose proof (commit_history (memory_new "memory:1") answers
      [Create Collection.Project "p" (named "alice")] I ltac:(vm_compute; discriminate)) as H.
    fold alice in H. exact (rtc_once _ _ H). }
  split.
  - intros n. exact I.
  - intros a k. exact I.
  - intros [|a] k; apply rtc_refl.
  - intros [|a] k; [exact Hcommit|apply rtc_refl].
  - intros n r [= <-]. reflexivity.
  - intros a k s rs [= <-] r _. reflexivity.
  - intros a k c ids rs [= <-] r. reflexivity.
  - intros a j A l. reflexivity.
Qed.

Lemma snapshot_coherent_witness :
  ∃ snapshot, snd (refresh_at moving_answers fresh_handle "memory" false None) = Ok (snapshot, Built) ∧
    basis_attempts (snap_basis snapshot) = 2 ∧
    ∃ n, snapshot_query snapshot (query_all Collection.Project) =
      store_query (rev_at moving n) (query_all Collection.Project).
Proof.
  destruct (snd (refresh_at moving_answers fresh_handle "memory" false None)) as [[snapshot how]|e] eqn:E.
  2: { exfalso. assert (match snd (refresh_at moving_answers fresh_handle "memory" false None) with
         Ok _ => True | Err _ => False end) as H by (vm_compute; exact I). rewrite E in H. exact H. }
  assert (match snd (refresh_at moving_answers fresh_handle "memory" false None) with
    | Ok (s, how) => how = Built ∧ basis_attempts (snap_basis s) = 2 ∧
        basis_revision (snap_basis s) = Some {| rev_value := 1; rev_scope := "memory:1" |}
    | Err _ => False end) as H by (vm_compute; split_and!; reflexivity).
  rewrite E in H. destruct H as (-> & Hattempts & Hr). exists snapshot.
  split; [reflexivity|]. split; [exact Hattempts|].
  destruct (snapshot_coherent moving moving_answers fresh_handle "memory" false None snapshot Built
    {| rev_value := 1; rev_scope := "memory:1" |}) as (n & _ & Hq).
  - apply moving_meets.
  - vm_compute. reflexivity.
  - intros n r id x Hx. simpl in Hx. by apply not_elem_of_nil in Hx.
  - discriminate.
  - discriminate.
  - exact E.
  - exact Hr.
  - exists n. apply Hq. simpl. apply list_elem_of_here.
Defined.

Lemma refresh_preserves_handle_witness :
  HandleWf fresh_handle ∧ HandleWf (fst (refresh_at moving_answers fresh_handle "memory" false None)).
Proof.
  assert (HandleWf fresh_handle) as Hwf by (split; [vm_compute; reflexivity|reflexivity|done|discriminate]).
  split; [exact Hwf|].
  pose proof (refresh_preserves_handle moving_answers fresh_handle "memory" false None Hwf) as H.
  destruct (refresh_at _ _ _ _ _) as [h' result]. apply H.
Defined.

(** The same sources in another order, under the same name. *)
Lemma name_means_one_definition_witness :
  let d := definition_new "both" [source_all Collection.Project; source_all Collection.Environment] in
  let d' := definition_new "both" [source_all Collection.Environment; source_all Collection.Project] in
  ∃ handle, snd (resolve ∅ d "memory" "here") = Ok handle ∧
    snd (resolve (fst (resolve ∅ d "memory" "here")) d' "memory" "here") = Ok handle.
Proof.
  intros d d'. destruct (snd (resolve ∅ d "memory" "here")) as [handle|e] eqn:E.
  2: { exfalso. assert (match snd (resolve ∅ d "memory" "here") with Ok _ => True | Err _ => False end) as H
         by (vm_compute; exact I). rewrite E in H. exact H. }
  exists handle. split; [reflexivity|].
  destruct (name_means_one_definition ∅ d d' "memory" "here" "memory" "here" handle E eq_refl) as [_ H].
  destruct (resolve (fst _) d' _ _) as [handles' again]. destruct H as (_ & _ & H). apply H.
  - vm_compute. reflexivity.
  - simpl. apply Permutation_swap.
  - reflexivity.
Defined.

(** A backend that reports a revision once and none afterwards. *)
Definition silent_answers : Answers := {|
  revision_answer n := match n with O => Ok (Some (store_revision alice)) | _ => Ok None end;
  query_answer a k q := Ok (store_query alice q);
  many_answer a k c ids := Ok (store_query alice (query_ids (query_all c) ids));
  completed _ _ _ l := l;
|}.

(** Coherence is claimed without a revision that proves it. *)
Example proven_without_revision :
  match snd (refresh_at silent_answers fresh_handle "other" false None) with
  | Ok (snapshot, _) =>
      basis_coherence (snap_basis snapshot) = Proven ∧ basis_revision (snap_basis snapshot) = None
  | Err _ => False
  end.
Proof. vm_compute. split; reflexivity. Qed.
