(* ===== verification/Controller.v ===== *)
(** How the environment daemon keeps its working copy of desired state current
    (src/crates/compute-environment/src/daemon/mod.rs: [apply] and [catch_up]).

    The daemon reads its own writes back by identity and chains the commits its
    store recorded onto the revision its working copy represents, so that it does
    not read everything again after each of its own writes.  Another writer must
    not be missed: a commit the store did not see leaves a gap in the chain, and a
    commit to desired state that is not the daemon's own breaks it. *)

From S2P Require Import Prelude Text State StateBackend.

Definition DESIRED_COLLECTIONS : list Collection :=
  [Collection.Environment; Collection.Computer; Collection.Project; Collection.EnvironmentProject;
   Collection.Workload; Collection.WorkloadInstance; Collection.TrafficAssignment; Collection.Domain;
   Collection.DnsRecord; Collection.Certificate; Collection.Deployment; Collection.ProjectRevision].

(** The collections whose records are read back by identity. *)
Definition READ_BACK : list Collection :=
  [Collection.Environment; Collection.Project; Collection.EnvironmentProject; Collection.Workload;
   Collection.WorkloadInstance; Collection.TrafficAssignment; Collection.Domain; Collection.DnsRecord;
   Collection.Certificate; Collection.Computer; Collection.Deployment].

(** What the daemon holds about its working copy. *)
Record Working : Type := {
  desired_revision : option Revision;
  own_commits : gset (N * N);
  dirty : list (Collection * string);
  transitions : list Transition;
  rolled_forward : N;
}.

(** [Daemon::apply]: what is noted of a commit and its outcome. *)
Definition note_commit (s : Working) (targets : list (Collection * string))
    (result : Result (option (N * N)) StateError) : Working :=
  match result with
  | Ok transition =>
      {| desired_revision := desired_revision s;
         own_commits := match transition with Some t => {[t]} ∪ own_commits s | None => own_commits s end;
         dirty := dirty s ++ targets; transitions := transitions s; rolled_forward := rolled_forward s |}
  | Err _ =>
      {| desired_revision := desired_revision s; own_commits := own_commits s;
         dirty := dirty s ++ [(Collection.Environment, "")]; transitions := transitions s;
         rolled_forward := rolled_forward s |}
  end.

Definition relevant (dirty : list (Collection * string)) : gset (Collection * string) :=
  list_to_set (filter (λ target, fst target ∈ READ_BACK) dirty).

(** A commit to desired state that is not this daemon's. *)
Definition foreign (own : gset (N * N)) (t : Transition) : bool :=
  negb (bool_decide ((tr_before t, tr_after t) ∈ own)) &&
  existsb (λ c, bool_decide (c ∈ DESIRED_COLLECTIONS)) (tr_collections t).

(** The commits chained onto a revision, in the order they are sorted in. *)
Fixpoint chain (own : gset (N * N)) (at_ : N) (sorted : list Transition) : option N :=
  match sorted with
  | [] => Some at_
  | t :: sorted =>
      if N.leb (tr_after t) at_ then chain own at_ sorted
      else if negb (N.eqb (tr_before t) at_) || foreign own t then None
      else chain own (tr_after t) sorted
  end.

Definition compare_transitions (l r : Transition) : comparison :=
  then_with (cmp (tr_before l) (tr_before r)) (cmp (tr_after l) (tr_after r)).

(** [Daemon::catch_up], with the transitions the store recorded, the outcome of
    reading the written records back, and the sorted transitions
    ([sort_unstable_by_key]). *)
Definition catch_up (s : Working) (recorded : option (list Transition)) (applied : Result unit StateError)
    (sorted : list Transition → list Transition) : Working * Result bool StateError :=
  let taken := transitions s ++ match recorded with Some ts => ts | None => [unchained] end in
  let read_back := relevant (dirty s) in
  if bool_decide (set_Exists (λ target, snd target = "") read_back) || bool_decide (64 < size read_back) then
    ({| desired_revision := None; own_commits := own_commits s; dirty := []; transitions := [];
        rolled_forward := rolled_forward s |}, Ok true)
  else
    match (if bool_decide (read_back = ∅) then Ok tt else applied) with
    | Err e =>
        ({| desired_revision := desired_revision s; own_commits := own_commits s; dirty := dirty s;
            transitions := taken; rolled_forward := rolled_forward s |}, Err e)
    | Ok _ =>
        match desired_revision s with
        | None =>
            ({| desired_revision := None; own_commits := own_commits s; dirty := []; transitions := [];
                rolled_forward := rolled_forward s |}, Ok false)
        | Some revision =>
            match chain (own_commits s) (rev_value revision) (sorted taken) with
            | None =>
                ({| desired_revision := None; own_commits := ∅; dirty := []; transitions := [];
                    rolled_forward := rolled_forward s |}, Ok false)
            | Some at_ =>
                ({| desired_revision := Some {| rev_value := at_; rev_scope := rev_scope revision |};
                    own_commits := filter (λ t, (at_ < snd t)%N) (own_commits s); dirty := []; transitions := [];
                    rolled_forward := if N.eqb at_ (rev_value revision) then rolled_forward s
                      else (rolled_forward s + 1)%N |}, Ok false)
            end
        end
    end.

(** ** What really happened *)

Notation Rows := (gmap (Collection * string) (N * gmap string Value)) (only parsing).

(** A batch that was accepted, by any writer through any store. *)
Record Commit : Type := {
  cm_before : N;
  cm_after : N;
  cm_writes : list StateWrite;
}.

(** The commits that took a state to another, in order; a refused batch may draw
    versions. *)
Inductive committed : Rows * N → list Commit → Rows * N → Prop :=
| committed_nil x : committed x [] x
| committed_commit m n ws m' cs y :
    ws ≠ [] → (n + N.of_nat (length ws) ≤ u64_max)%N → spec_batch ws n m = Ok m' →
    committed (m', n + N.of_nat (length ws))%N cs y →
    committed (m, n) ({| cm_before := n; cm_after := n + N.of_nat (length ws); cm_writes := ws |} :: cs) y
| committed_refused m n k cs y :
    (n + k ≤ u64_max)%N → committed (m, n + k)%N cs y → committed (m, n) cs y.

Definition writes_row (c : Commit) (key : Collection * string) : Prop :=
  ∃ w, w ∈ cm_writes c ∧ (write_collection w, write_id w) = key.

Definition transition_of (c : Commit) : Transition :=
  {| tr_before := cm_before c; tr_after := cm_after c;
     tr_collections := btree_set (write_collection <$> cm_writes c) |}.

Lemma spec_write_other w v m m' key :
  spec_write w v m = Ok m' → (write_collection w, write_id w) ≠ key → m' !! key = m !! key.
Proof.
  unfold spec_write, spec_fence. intros Hw Hne. destruct w; simpl in Hne; repeat (case_match; simplify_eq/=);
    by rewrite ?lookup_insert_ne, ?lookup_delete_ne by done.
Qed.

Lemma spec_batch_other ws n m m' key :
  spec_batch ws n m = Ok m' → (∀ w, w ∈ ws → (write_collection w, write_id w) ≠ key) → m' !! key = m !! key.
Proof.
  revert n m. induction ws as [|w ws IH]; simpl; intros n m Hb Hne; [by ok_inv|].
  apply and_then_ok in Hb as (m1 & Hw & Hb). rewrite (IH _ _ Hb) by set_solver.
  eapply spec_write_other; [exact Hw|set_solver].
Qed.

Lemma committed_bounds x cs y :
  committed x cs y → (snd x ≤ snd y)%N ∧ ∀ c, c ∈ cs → (snd x ≤ cm_before c)%N ∧ (cm_before c < cm_after c ≤ snd y)%N.
Proof.
  induction 1 as [x|m n ws m' cs y Hws Hroom Hb _ [IH1 IH2]|m n k cs y Hroom _ [IH1 IH2]]; simpl in *.
  - split; [lia|]. by intros c []%not_elem_of_nil.
  - assert (length ws ≠ 0) by by destruct ws. split; [lia|].
    intros c [->|Hc]%elem_of_cons; simpl; [lia|]. apply IH2 in Hc. lia.
  - split; [lia|]. intros c Hc. apply IH2 in Hc. lia.
Qed.

(** The commits are disjoint in time. *)
Lemma committed_disjoint x cs y c c' :
  committed x cs y → c ∈ cs → c' ∈ cs → (cm_before c' < cm_after c ≤ cm_after c')%N → c = c'.
Proof.
  induction 1 as [x|m n ws m' cs y Hws Hroom Hb Hcs IH|m n k cs y Hroom _ IH]; [by intros []%not_elem_of_nil| |done].
  apply committed_bounds in Hcs as [_ Hcs]. simpl in Hcs.
  intros [->|Hc]%elem_of_cons [->|Hc']%elem_of_cons Hin; simpl in Hin; [done| | |by apply IH].
  - apply Hcs in Hc'. lia.
  - apply Hcs in Hc. lia.
Qed.

Lemma committed_changed x cs y key :
  committed x cs y → fst y !! key ≠ fst x !! key → ∃ c, c ∈ cs ∧ writes_row c key.
Proof.
  induction 1 as [x|m n ws m' cs y Hws Hroom Hb _ IH|m n k cs y Hroom _ IH]; simpl in *; [done| |done].
  intros Hne. destruct (decide (fst y !! key = m' !! key)) as [Heq|Hne'].
  - eexists. split; [apply list_elem_of_here|].
    destruct (decide (Exists (λ w, (write_collection w, write_id w) = key) ws)) as [Hex|Hno].
    + apply Exists_exists in Hex as (w & Hw & Hkey). by exists w.
    + destruct Hne. rewrite Heq. apply (spec_batch_other ws n m m'); [done|].
      intros w Hw Hkey. apply Hno, Exists_exists. by exists w.
  - destruct (IH Hne') as (c & Hc & Hw). exists c. split; [by apply list_elem_of_further|done].
Qed.

(** A chain covers every version between its ends, without a foreign commit. *)
Lemma chain_covers own a sorted b :
  chain own a sorted = Some b →
  (a ≤ b)%N ∧ ∀ x, (a < x ≤ b)%N →
    ∃ t, t ∈ sorted ∧ (a ≤ tr_before t)%N ∧ (tr_before t < x ≤ tr_after t)%N ∧ (tr_after t ≤ b)%N ∧
      foreign own t = false.
Proof.
  revert a. induction sorted as [|t sorted IH]; intros a Hc; simpl in Hc.
  { simplify_eq. split; [lia|]. intros x Hx. lia. }
  destruct (N.leb_spec (tr_after t) a) as [Hle|Hlt].
  { destruct (IH _ Hc) as [Hab Hcov]. split; [done|]. intros x Hx. destruct (Hcov x Hx) as (t' & Ht' & H).
    exists t'. split; [by apply list_elem_of_further|done]. }
  destruct (N.eqb_spec (tr_before t) a) as [Hb|]; [|done]. simpl in Hc.
  destruct (foreign own t) eqn:Hf; [done|]. destruct (IH _ Hc) as [Hab Hcov]. split; [lia|]. intros x Hx.
  destruct (decide (x ≤ tr_after t)%N) as [Hin|Hout].
  - exists t. split; [apply list_elem_of_here|]. split_and!; [lia..|done].
  - destruct (Hcov x) as (t' & Ht' & Hb' & H); [lia|]. exists t'.
    split; [by apply list_elem_of_further|]. split; [lia|done].
Qed.

Lemma StronglySorted_filter {A} (R : relation A) (P : A → Prop) `{!∀ x, Decision (P x)} l :
  StronglySorted R l → StronglySorted R (filter P l).
Proof.
  induction 1 as [|x l _ IH Hx]; [constructor|]. rewrite filter_cons. case_decide; [|done].
  constructor; [done|]. apply Forall_forall. intros y [_ Hy]%list_elem_of_filter.
  rewrite Forall_forall in Hx. by apply Hx.
Qed.

(** One commit begins where the one before it ended. *)
Fixpoint contiguous (n : N) (cs : list Commit) (n' : N) : Prop :=
  match cs with
  | [] => n = n'
  | c :: cs => cm_before c = n ∧ (n < cm_after c)%N ∧ contiguous (cm_after c) cs n'
  end.

Lemma foreign_false own c :
  foreign own (transition_of c) = false ↔
  (cm_before c, cm_after c) ∈ own ∨ ∀ w, w ∈ cm_writes c → write_collection w ∉ DESIRED_COLLECTIONS.
Proof.
  unfold foreign. rewrite andb_false_iff, negb_false_iff, bool_decide_eq_true.
  assert (existsb (λ k, bool_decide (k ∈ DESIRED_COLLECTIONS)) (tr_collections (transition_of c)) = false ↔
    ∀ w, w ∈ cm_writes c → write_collection w ∉ DESIRED_COLLECTIONS) as ->; [|done].
  rewrite <-not_true_iff_false, existsb_exists. setoid_rewrite <-list_elem_of_In.
  setoid_rewrite bool_decide_eq_true. cbn [transition_of tr_collections].
  setoid_rewrite elem_of_btree_set. setoid_rewrite list_elem_of_fmap. naive_solver.
Qed.

(** Commits already behind the revision are passed over. *)
Lemma chain_skip own a b sorted :
  (a ≤ b)%N → chain own b (filter (λ t, (a < tr_after t)%N) sorted) = chain own b sorted.
Proof.
  revert b. induction sorted as [|t sorted IH]; intros b Hab; [done|]. rewrite filter_cons.
  case_decide as Hlt; simpl; destruct (N.leb_spec (tr_after t) b) as [Hle|Hgt].
  - by apply IH.
  - destruct (_ || _); [done|]. apply IH. lia.
  - by apply IH.
  - lia.
Qed.

Lemma contiguous_after n cs n' c : contiguous n cs n' → c ∈ cs → (n < cm_after c)%N ∧ (n ≤ cm_before c)%N.
Proof.
  revert n. induction cs as [|d cs IH]; intros n; [by intros _ []%not_elem_of_nil|].
  intros (Hb & Hlt & Hc) [->|Hin]%elem_of_cons; [lia|]. apply (IH _ Hc) in Hin. lia.
Qed.

Lemma contiguous_sorted n cs n' :
  contiguous n cs n' → StronglySorted (le_by compare_transitions) (transition_of <$> cs).
Proof.
  revert n. induction cs as [|c cs IH]; intros n; simpl; [constructor|]. intros (Hb & Hlt & Hc).
  constructor; [by eapply IH|]. apply Forall_fmap, Forall_forall. intros d Hd.
  apply (contiguous_after _ _ _ _ Hc) in Hd. unfold le_by, compare_transitions. simpl.
  unfold cmp, N_ord. rewrite (proj2 (N.compare_lt_iff _ _)) by lia. done.
Qed.

Lemma contiguous_chain own n cs n' :
  contiguous n cs n' → (∀ c, c ∈ cs → foreign own (transition_of c) = false) →
  chain own n (transition_of <$> cs) = Some n'.
Proof.
  revert n. induction cs as [|c cs IH]; intros n; simpl; [by intros -> _|]. intros (Hb & Hlt & Hc) Hf.
  rewrite (proj2 (N.leb_gt _ _)) by done. rewrite Hb, N.eqb_refl, Hf by apply list_elem_of_here. simpl.
  apply IH; [done|]. intros d Hd. by apply Hf, list_elem_of_further.
Qed.

#[local] Instance compare_transitions_total : TotalCmp compare_transitions.
Proof.
  unfold compare_transitions. apply then_with_total; apply (cmp_on (@cmp N _)).
Qed.

Lemma contiguous_key n cs n' c d :
  contiguous n cs n' → c ∈ cs → d ∈ cs → cm_before c = cm_before d → c = d.
Proof.
  revert n. induction cs as [|e cs IH]; intros n; [by intros _ []%not_elem_of_nil|].
  intros (Hb & Hlt & Hc) [->|Hin]%elem_of_cons [->|Hin']%elem_of_cons Heq; [done| | |by eapply IH].
  - apply (contiguous_after _ _ _ _ Hc) in Hin'. lia.
  - apply (contiguous_after _ _ _ _ Hc) in Hin. lia.
Qed.

(** ** Properties *)

(** C26: Another writer is never missed.  When catching up leaves the working copy
    with a revision, then of all the commits that really took the store from the
    revision it represented before to this one, by any writer, every change of a
    record of desired state was made by a commit of the daemon's own, whose
    records it reads back. *)
Theorem catch_up_sound s recorded applied sorted s' r r' m m' cs :
  desired_revision s = Some r →
  committed (m, rev_value r) cs (m', rev_value r') → (rev_value r' < u64_max - 1)%N →
  (∀ t, t ∈ transitions s ++ match recorded with Some ts => ts | None => [unchained] end →
     (tr_after t ≤ rev_value r)%N ∨ t = unchained ∨ ∃ c, c ∈ cs ∧ t = transition_of c) →
  (∀ l, sorted l ≡ₚ l) →
  catch_up s recorded applied sorted = (s', Ok false) → desired_revision s' = Some r' →
  ∀ key, fst key ∈ DESIRED_COLLECTIONS → m' !! key ≠ m !! key →
  ∃ c, c ∈ cs ∧ (cm_before c, cm_after c) ∈ own_commits s ∧ writes_row c key.
Proof.
  intros Hr Hcs Hsmall Hrec Hperm Hup Hr' key Hdesired Hne.
  assert (chain (own_commits s) (rev_value r)
    (sorted (transitions s ++ match recorded with Some ts => ts | None => [unchained] end)) =
    Some (rev_value r')) as Hchain.
  { unfold catch_up in Hup. rewrite Hr in Hup. destruct (_ || _); [by simplify_eq/=|].
    destruct (if bool_decide _ then _ else _); [|by simplify_eq/=].
    destruct (chain _ _ _) as [b|]; [|by simplify_eq/=]. injection Hup as <-. simpl in Hr'. by injection Hr' as <-. }
  destruct (committed_changed _ _ _ key Hcs Hne) as (c & Hc & Hw). exists c. split; [done|]. split; [|done].
  pose proof (committed_bounds _ _ _ Hcs) as [_ Hbounds]. simpl in Hbounds.
  destruct (chain_covers _ _ _ _ Hchain) as [_ Hcov].
  destruct (Hcov (cm_after c)) as (t & Ht & Ha & Hx & Hb & Hf); [specialize (Hbounds c Hc); lia|].
  rewrite Hperm in Ht. destruct (Hrec t Ht) as [Hold|[->|(d & Hd & ->)]]; [lia| |].
  { simpl in Hb. lia. }
  simpl in Hx. rewrite <-(committed_disjoint _ _ _ c d Hcs Hc Hd Hx) in Hf.
  apply foreign_false in Hf as [Hf|Hf]; [done|]. destruct Hw as (w & Hw & <-). by destruct (Hf w Hw).
Qed.

(** The daemon's own commits never cost a full read.  When the commits after
    its revision are all recorded, contiguous, and its own wherever they touch
    desired state, catching up moves the working copy to where the last of them
    ended, whatever older transitions it also finds. *)
Theorem catch_up_rolls_forward s recorded applied sorted r n' cs :
  desired_revision s = Some r → contiguous (rev_value r) cs n' →
  filter (λ t, (rev_value r < tr_after t)%N)
    (transitions s ++ match recorded with Some ts => ts | None => [unchained] end) ≡ₚ transition_of <$> cs →
  (∀ c, c ∈ cs → (cm_before c, cm_after c) ∈ own_commits s ∨
     ∀ w, w ∈ cm_writes c → write_collection w ∉ DESIRED_COLLECTIONS) →
  (∀ l, sorted l ≡ₚ l ∧ StronglySorted (le_by compare_transitions) (sorted l)) →
  ¬ set_Exists (λ target, snd target = "") (relevant (dirty s)) → size (relevant (dirty s)) ≤ 64 →
  (relevant (dirty s) = ∅ ∨ applied = Ok tt) →
  ∃ s', catch_up s recorded applied sorted = (s', Ok false) ∧
    desired_revision s' = Some {| rev_value := n'; rev_scope := rev_scope r |} ∧ dirty s' = [].
Proof.
  intros Hr Hc Hts Hown Hsorted Hknown Hsize Happlied. unfold catch_up.
  rewrite (bool_decide_false _ Hknown), bool_decide_false by lia. simpl.
  assert ((if bool_decide (relevant (dirty s) = ∅) then Ok tt else applied) = Ok tt) as ->
    by (case_bool_decide; [done|]; by destruct Happlied).
  rewrite Hr, <-(chain_skip _ (rev_value r)) by done. set (taken := transitions s ++ _) in *. destruct (Hsorted taken) as [Hp Hs].
  assert (filter (λ t, (rev_value r < tr_after t)%N) (sorted taken) = transition_of <$> cs) as ->.
  { apply (StronglySorted_unique_strong (le_by compare_transitions)).
    - intros t1 t2 Ht1 Ht2 H12 H21. rewrite Hp, Hts in Ht1. apply list_elem_of_fmap in Ht1 as (c & -> & Hin).
      apply list_elem_of_fmap in Ht2 as (d & -> & Hin').
      assert (compare_transitions (transition_of c) (transition_of d) = Eq) as Heq
        by (apply cmp_le_antisym; [apply _|done|done]).
      f_equal. eapply contiguous_key; [done..|].
      unfold compare_transitions in Heq. simpl in Heq. unfold cmp, N_ord in Heq.
      destruct (N.compare_spec (cm_before c) (cm_before d)); [done|done|done].
    - by apply StronglySorted_filter.
    - by eapply contiguous_sorted.
    - by rewrite Hp, Hts. }
  rewrite (contiguous_chain _ _ _ n'); [by eexists|done|]. intros c Hin. by apply foreign_false, Hown.
Qed.

Lemma capacity_room : 2 ≤ TRANSITIONS_CAPACITY.
Proof. apply Nat.leb_le. vm_compute. reflexivity. Qed.

Lemma record_transition_spec recorded before after ws :
  length recorded ≤ TRANSITIONS_CAPACITY →
  length (record_transition recorded (Some (before, after)) ws) ≤ TRANSITIONS_CAPACITY ∧
  (length recorded < TRANSITIONS_CAPACITY →
   record_transition recorded (Some (before, after)) ws =
     recorded ++ [transition_of {| cm_before := before; cm_after := after; cm_writes := ws |}]) ∧
  ∀ t, t ∈ record_transition recorded (Some (before, after)) ws →
    t ∈ recorded ∨ t = unchained ∨ t = transition_of {| cm_before := before; cm_after := after; cm_writes := ws |}.
Proof.
  intros Hlen. pose proof capacity_room as Hcap. unfold record_transition.
  destruct (Nat.leb_spec TRANSITIONS_CAPACITY (length recorded)) as [Hfull|Hroom].
  - rewrite length_app. simpl. split_and!; [lia|lia|].
    intros t [Ht|Ht%list_elem_of_singleton]%elem_of_cons; [by right; left|by right; right].
  - rewrite length_app. simpl. split_and!; [lia|done|].
    intros t [Ht|Ht%list_elem_of_singleton]%elem_of_app; [by left|by right; right].
Qed.

Lemma committed_app x cs y cs' z : committed x cs y → committed y cs' z → committed x (cs ++ cs') z.
Proof.
  induction 1 as [x|m n ws m' cs y Hws Hroom Hb _ IH|m n k cs y Hroom _ IH]; intros Hz; simpl;
    [done|eapply committed_commit; eauto|eapply committed_refused; eauto].
Qed.

(** One batch through the store. *)
Lemma memory_commit_accounts s ws :
  ws ≠ [] → (mem_version s + N.of_nat (length ws) ≤ u64_max)%N →
  length (mem_transitions s) ≤ TRANSITIONS_CAPACITY →
  let s' := fst (memory_commit s ws) in
  length (mem_transitions s') ≤ TRANSITIONS_CAPACITY ∧
  ∃ cs, committed (rows (mem_tables s), mem_version s) cs (rows (mem_tables s'), mem_version s') ∧
    length cs ≤ 1 ∧
    (∀ t, t ∈ mem_transitions s' → t ∈ mem_transitions s ∨ t = unchained ∨ ∃ c, c ∈ cs ∧ t = transition_of c) ∧
    (length (mem_transitions s) < TRANSITIONS_CAPACITY →
     mem_transitions s' = mem_transitions s ++ (transition_of <$> cs)).
Proof.
  intros Hws Hroom Hlen. pose proof (memory_commit_spec s ws) as Hspec. unfold memory_commit in *.
  destruct (apply_in_memory (mem_tables s) ws (mem_version s)) as [[t next] [[]|e]]; simpl in *;
    destruct Hspec as [_ Hspec]; specialize (Hspec Hroom);
    destruct (spec_batch ws (mem_version s) (rows (mem_tables s))) as [m|e'] eqn:Hb;
    try by destruct Hspec.
  - destruct Hspec as (_ & <- & ->).
    destruct (record_transition_spec (mem_transitions s) (mem_version s)
      (mem_version s + N.of_nat (length ws)) ws Hlen) as (Hl & Heq & Hin).
    split; [done|]. exists [{| cm_before := mem_version s;
      cm_after := mem_version s + N.of_nat (length ws); cm_writes := ws |}].
    split_and!; [by eapply committed_commit; [..|constructor]|simpl; lia| |done].
    intros t' [?|[?|?]]%Hin; [by left|by right; left|right; right]. by eexists; split; [apply list_elem_of_here|].
  - destruct Hspec as (_ & -> & n & Hn & ->). split; [done|]. exists []. split_and!; [|simpl; lia|by left|].
    + eapply committed_refused; [|constructor]. lia.
    + intros _. by rewrite app_nil_r.
Qed.

(** The record of commits is bounded and tells the truth.  However many
    batches a memory store takes, it records at most 65,536 transitions; each is
    one it held before, a marker that breaks every chain, or a commit that really
    happened, with its revisions and collections; and while there is room they
    are exactly the commits, in order. *)
Theorem recorded_transitions_bounded s trace :
  Forall (λ batch, snd batch ≠ []) trace → (mem_version s + writes trace ≤ u64_max)%N →
  length (mem_transitions s) ≤ TRANSITIONS_CAPACITY →
  let s' := commits s trace in
  length (mem_transitions s') ≤ TRANSITIONS_CAPACITY ∧
  ∃ cs, committed (rows (mem_tables s), mem_version s) cs (rows (mem_tables s'), mem_version s') ∧
    (∀ t, t ∈ mem_transitions s' → t ∈ mem_transitions s ∨ t = unchained ∨ ∃ c, c ∈ cs ∧ t = transition_of c) ∧
    (length (mem_transitions s) + length trace ≤ TRANSITIONS_CAPACITY →
     mem_transitions s' = mem_transitions s ++ (transition_of <$> cs)).
Proof.
  intros Hne. revert s. induction Hne as [|[io ws] trace Hws _ IH]; intros s Hroom Hlen.
  { simpl. split; [done|]. exists []. rewrite app_nil_r. split_and!; [constructor|by left|done]. }
  rewrite writes_cons in Hroom.
  destruct (memory_commit_accounts s ws Hws) as (Hlen1 & cs1 & Hcs1 & Hone & Hin1 & Heq1); [lia|done|].
  pose proof (commit_counter s io ws I) as Hcount. simpl in Hcount.
  destruct (IH (fst (memory_commit s ws))) as (Hlen2 & cs2 & Hcs2 & Hin2 & Heq2);
    [specialize (Hcount ltac:(lia)); lia|done|].
  simpl. split; [done|]. exists (cs1 ++ cs2). split_and!.
  - by eapply committed_app.
  - intros t [Ht|[->|(c & Hc & ->)]]%Hin2; [|by right; left|right; right; exists c; set_solver].
    apply Hin1 in Ht as [?|[?|(c & Hc & ->)]]; [by left|by right; left|right; right; exists c; set_solver].
  - intros Hroom2. rewrite fmap_app, (assoc_L (++)).
    pose proof (Heq1 ltac:(lia)) as Heq1'. rewrite Heq2, Heq1'; [done|].
    rewrite Heq1', length_app, length_fmap. lia.
Qed.

(** ** Witnesses *)

Definition environment_commit : Commit :=
  {| cm_before := 1; cm_after := 2; cm_writes := [Create Collection.Environment "e" (named "production")] |}.

Definition working : Working :=
  {| desired_revision := Some {| rev_value := 1; rev_scope := "memory:1" |}; own_commits := {[(1, 2)%N]};
     dirty := [(Collection.Environment, "e")]; transitions := []; rolled_forward := 0 |}.

Lemma catch_up_rolls_forward_witness :
  ∃ s', catch_up working (Some [transition_of environment_commit]) (Ok tt) (sort_by compare_transitions) =
      (s', Ok false) ∧
    desired_revision s' = Some {| rev_value := 2; rev_scope := "memory:1" |} ∧ dirty s' = [].
Proof.
  apply (catch_up_rolls_forward working (Some [transition_of environment_commit]) (Ok tt)
    (sort_by compare_transitions) {| rev_value := 1; rev_scope := "memory:1" |} 2 [environment_commit]).
  - reflexivity.
  - simpl. split_and!; [reflexivity|lia|reflexivity].
  - vm_compute. reflexivity.
  - intros c [->|[]%not_elem_of_nil]%elem_of_cons. left. set_solver.
  - intros l. split; [apply sort_by_perm|apply sort_by_StronglySorted, _].
  - apply (bool_decide_unpack _). vm_compute. exact I.
  - apply (bool_decide_unpack _). vm_compute. exact I.
  - right. reflexivity.
Defined.

Lemma catch_up_sound_witness :
  ∃ c, c ∈ [environment_commit] ∧ (cm_before c, cm_after c) ∈ own_commits working ∧
    writes_row c (Collection.Environment, "e").
Proof.
  pose proof (surjective_pairing (catch_up working (Some [transition_of environment_commit]) (Ok tt)
    (sort_by compare_transitions))) as E.
  set (s' := fst (catch_up _ _ _ _)) in E.
  assert (snd (catch_up working (Some [transition_of environment_commit]) (Ok tt)
    (sort_by compare_transitions)) = Ok false) as Hok by (vm_compute; reflexivity).
  rewrite Hok in E.
  assert (desired_revision s' = Some {| rev_value := 2; rev_scope := "memory:1" |}) as Hr
    by (vm_compute; reflexivity).
  apply (catch_up_sound working (Some [transition_of environment_commit]) (Ok tt) (sort_by compare_transitions)
    s' {| rev_value := 1; rev_scope := "memory:1" |} {| rev_value := 2; rev_scope := "memory:1" |} ∅
    {[(Collection.Environment, "e") := (2%N, named "production")]}).
  - reflexivity.
  - apply (committed_commit ∅ 1 [Create Collection.Environment "e" (named "production")]
      {[(Collection.Environment, "e") := (2%N, named "production")]} []).
    + discriminate.
    + vm_compute. discriminate.
    + cbn [spec_batch spec_write]. rewrite lookup_empty. change (u64_succ 1) with 2%N. reflexivity.
    + apply committed_nil.
  - vm_compute. reflexivity.
  - intros t [->|[]%not_elem_of_nil]%elem_of_cons. right. right. exists environment_commit.
    split; [apply list_elem_of_here|reflexivity].
  - intros l. apply sort_by_perm.
  - exact E.
  - exact Hr.
  - apply list_elem_of_here.
  - rewrite lookup_singleton_eq, lookup_empty. discriminate.
Defined.

Lemma recorded_transitions_bounded_witness :
  length (mem_transitions (commits (memory_new "memory:1")
    [(answers, [Create Collection.Project "p" (named "alice")])])) ≤ TRANSITIONS_CAPACITY.
Proof.
  apply (recorded_transitions_bounded (memory_new "memory:1")
    [(answers, [Create Collection.Project "p" (named "alice")])]).
  - constructor; [discriminate|constructor].
  - vm_compute. discriminate.
  - simpl. lia.
Defined.
