(* ===== verification/Utf8.v ===== *)
(** UTF-8: [std::str::from_utf8], and that the decoding and encoding of [Text]
    are inverse on the strings it accepts, so that splitting a string at ASCII
    characters and trimming it give strings again. *)

From S2P Require Import Prelude Text.

(** ** Validity *)

Definition continuation (b : N) : bool := in_range 128 191 b.

(** [from_utf8]'s check: no overlong form, no surrogate, nothing beyond
    [U+10FFFF]. *)
Fixpoint valid_utf8 (l : list N) : bool :=
  match l with
  | [] => true
  | a :: l1 =>
      if N.ltb a 128 then valid_utf8 l1
      else match l1 with
      | [] => false
      | b :: l2 =>
          if in_range 194 223 a then continuation b && valid_utf8 l2
          else match l2 with
          | [] => false
          | c :: l3 =>
              if in_range 224 239 a then
                (if N.eqb a 224 then in_range 160 191 b
                 else if N.eqb a 237 then in_range 128 159 b else continuation b)
                && continuation c && valid_utf8 l3
              else match l3 with
              | [] => false
              | d :: l4 =>
                  in_range 240 244 a &&
                  (if N.eqb a 240 then in_range 144 191 b
                   else if N.eqb a 244 then in_range 128 143 b else continuation b)
                  && continuation c && continuation d && valid_utf8 l4
              end
          end
      end
  end.

Definition of_bytes (l : list N) : string := foldr (λ b s, String (ascii_of_N b) s) "" l.

Definition from_utf8 (l : list N) : option string := if valid_utf8 l then Some (of_bytes l) else None.

(** ** Scalar values *)

(** [char]: a code point that is not a surrogate. *)
Definition scalar (c : N) : Prop := (c < 55296 ∨ 57343 < c < 1114112)%N.

(** A string is the encoding of its characters. *)
Definition is_utf8 (s : string) : Prop := ∃ l, Forall scalar l ∧ s = of_chars l.

Lemma lor_shiftl x y k : (y < 2 ^ k)%N → N.lor (N.shiftl x k) y = (x * 2 ^ k + y)%N.
Proof.
  intros Hy. rewrite <-N.shiftl_mul_pow2.
  assert (N.land (N.shiftl x k) y = 0%N) as Hland; [|by rewrite N.add_nocarry_lxor, N.lxor_lor].
  apply N.bits_inj. intros i. rewrite N.land_spec, N.bits_0.
  destruct (N.ltb_spec i k) as [Hlt|Hge]; [by rewrite N.shiftl_spec_low|].
  apply andb_false_iff. right. destruct (N.eq_dec y 0%N) as [->|Hne]; [apply N.bits_0|].
  apply N.bits_above_log2. apply N.log2_lt_pow2; [lia|].
  eapply N.lt_le_trans; [exact Hy|]. by apply N.pow_le_mono_r.
Qed.

Lemma land_63 x : N.land x 63 = (x mod 64)%N.
Proof. apply (N.land_ones x 6). Qed.
Lemma land_31 x : N.land x 31 = (x mod 32)%N.
Proof. apply (N.land_ones x 5). Qed.
Lemma land_15 x : N.land x 15 = (x mod 16)%N.
Proof. apply (N.land_ones x 4). Qed.
Lemma land_7 x : N.land x 7 = (x mod 8)%N.
Proof. apply (N.land_ones x 3). Qed.

Lemma byte_of_N n : (n < 256)%N → byte_of (ascii_of_N n) = n.
Proof. apply N_ascii_embedding. Qed.

Lemma byte_of_bound a : (byte_of a < 256)%N.
Proof. apply N_ascii_bounded. Qed.

Lemma ascii_of_byte a : ascii_of_N (byte_of a) = a.
Proof. apply ascii_N_embedding. Qed.

Ltac div_lia := zify; Z.to_euclidean_division_equations; lia.

(** The bytes of a character, by its range. *)
Lemma encode_char_bytes c :
  scalar c →
  bytes (encode_char c) =
    if N.ltb c 128 then [c]
    else if N.ltb c 2048 then [192 + c / 64; 128 + c mod 64]%N
    else if N.ltb c 65536 then [224 + c / 4096; 128 + (c / 64) mod 64; 128 + c mod 64]%N
    else [240 + c / 262144; 128 + (c / 4096) mod 64; 128 + (c / 64) mod 64; 128 + c mod 64]%N.
Proof.
  intros Hc. unfold encode_char, scalar in *.
  assert (∀ x, N.lor 128 (N.land x 63) = (128 + x mod 64)%N) as Htail.
  { intros x. rewrite land_63. change 128%N with (N.shiftl 2 6). rewrite lor_shiftl; [done|].
    apply N.mod_lt. lia. }
  destruct (N.ltb_spec c 128); [simpl; by rewrite byte_of_N by lia|].
  destruct (N.ltb_spec c 2048).
  { cbn [bytes]. rewrite Htail, N.shiftr_0_r, N.shiftr_div_pow2. change (2 ^ 6)%N with 64%N.
    change 192%N with (N.shiftl 6 5). rewrite lor_shiftl by (change (2 ^ 5)%N with 32%N; div_lia).
    rewrite !byte_of_N; [done|div_lia..]. }
  destruct (N.ltb_spec c 65536).
  { cbn [bytes]. rewrite !Htail, N.shiftr_0_r, !N.shiftr_div_pow2. change (2 ^ 6)%N with 64%N.
    change (2 ^ 12)%N with 4096%N.
    change 224%N with (N.shiftl 14 4). rewrite lor_shiftl by (change (2 ^ 4)%N with 16%N; div_lia).
    rewrite !byte_of_N; [done|div_lia..]. }
  cbn [bytes]. rewrite !Htail, N.shiftr_0_r, !N.shiftr_div_pow2. change (2 ^ 6)%N with 64%N.
  change (2 ^ 12)%N with 4096%N. change (2 ^ 18)%N with 262144%N.
  change 240%N with (N.shiftl 30 3). rewrite lor_shiftl by (change (2 ^ 3)%N with 8%N; div_lia).
  rewrite !byte_of_N; [done|div_lia..].
Qed.

(** ** Bytes and strings *)

Lemma of_bytes_bytes s : of_bytes (bytes s) = s.
Proof. induction s as [|a s IH]; simpl; [done|]. by rewrite ascii_of_byte, IH. Qed.

Lemma bytes_of_bytes l : Forall (λ b, (b < 256)%N) l → bytes (of_bytes l) = l.
Proof. induction 1 as [|b l Hb _ IH]; simpl; [done|]. by rewrite byte_of_N, IH. Qed.

Lemma bytes_app s t : bytes (s +:+ t) = bytes s ++ bytes t.
Proof. induction s as [|a s IH]; simpl; [done|]. by rewrite <-IH. Qed.

Lemma of_bytes_app l k : of_bytes (l ++ k) = of_bytes l +:+ of_bytes k.
Proof. induction l as [|b l IH]; simpl; [done|]. by rewrite IH. Qed.

#[export] Instance bytes_inj : Inj (=) (=) bytes.
Proof. intros s t H. by rewrite <-(of_bytes_bytes s), H, of_bytes_bytes. Qed.

Lemma bytes_bound s : Forall (λ b, (b < 256)%N) (bytes s).
Proof. induction s; simpl; constructor; [apply byte_of_bound|done]. Qed.

Lemma app_nil_r_str s : s +:+ "" = s.
Proof. induction s as [|a s IH]; [done|]. exact (f_equal (String a) IH). Qed.

Lemma app_assoc_str (s t u : string) : s +:+ (t +:+ u) = (s +:+ t) +:+ u.
Proof. induction s as [|a s IH]; [done|]. exact (f_equal (String a) IH). Qed.

(** ** Decoding *)

Lemma ltb_true a b : (a < b)%N → N.ltb a b = true.
Proof. apply N.ltb_lt. Qed.
Lemma ltb_false a b : (b ≤ a)%N → N.ltb a b = false.
Proof. apply N.ltb_ge. Qed.

Lemma encode_char_string c : scalar c → encode_char c = of_bytes (bytes (encode_char c)).
Proof. intros _. by rewrite of_bytes_bytes. Qed.

(** What [chars] reads at the front of a string. *)
Lemma chars_1 a s : (a < 128)%N → chars (String (ascii_of_N a) s) = a :: chars s.
Proof. intros Ha. cbn [chars]. rewrite byte_of_N by lia. by rewrite ltb_true. Qed.

Lemma chars_2 a b s :
  (192 ≤ a < 224)%N → (128 ≤ b < 192)%N →
  chars (String (ascii_of_N a) (String (ascii_of_N b) s)) = ((a - 192) * 64 + (b - 128))%N :: chars s.
Proof.
  intros Ha Hb. cbn [chars]. rewrite !byte_of_N by lia.
  rewrite (ltb_false a 128), (ltb_true a 224), land_63, land_31 by lia.
  rewrite (lor_shiftl _ _ 6) by (change (2 ^ 6)%N with 64%N; div_lia).
  f_equal. change (2 ^ 6)%N with 64%N. div_lia.
Qed.

Lemma chars_3 a b c s :
  (224 ≤ a < 240)%N → (128 ≤ b < 192)%N → (128 ≤ c < 192)%N →
  chars (String (ascii_of_N a) (String (ascii_of_N b) (String (ascii_of_N c) s))) =
    ((a - 224) * 4096 + (b - 128) * 64 + (c - 128))%N :: chars s.
Proof.
  intros Ha Hb Hc. cbn [chars]. rewrite !byte_of_N by lia.
  rewrite (ltb_false a 128), (ltb_false a 224), (ltb_true a 240), !land_63, land_15 by lia.
  rewrite (lor_shiftl (b mod 64) _ 6) by (change (2 ^ 6)%N with 64%N; div_lia).
  rewrite (lor_shiftl _ _ 12) by (change (2 ^ 6)%N with 64%N; change (2 ^ 12)%N with 4096%N; div_lia).
  f_equal. change (2 ^ 6)%N with 64%N. change (2 ^ 12)%N with 4096%N. div_lia.
Qed.

Lemma chars_4 a b c d s :
  (240 ≤ a < 248)%N → (128 ≤ b < 192)%N → (128 ≤ c < 192)%N → (128 ≤ d < 192)%N →
  chars (String (ascii_of_N a) (String (ascii_of_N b) (String (ascii_of_N c) (String (ascii_of_N d) s)))) =
    ((a - 240) * 262144 + (b - 128) * 4096 + (c - 128) * 64 + (d - 128))%N :: chars s.
Proof.
  intros Ha Hb Hc Hd. cbn [chars]. rewrite !byte_of_N by lia.
  rewrite (ltb_false a 128), (ltb_false a 224), (ltb_false a 240), !land_63, land_7 by lia.
  rewrite (lor_shiftl (c mod 64) _ 6) by (change (2 ^ 6)%N with 64%N; div_lia).
  rewrite (lor_shiftl (b mod 64) _ 12) by (change (2 ^ 6)%N with 64%N; change (2 ^ 12)%N with 4096%N; div_lia).
  rewrite (lor_shiftl _ _ 18) by (change (2 ^ 6)%N with 64%N; change (2 ^ 12)%N with 4096%N;
    change (2 ^ 18)%N with 262144%N; div_lia).
  f_equal. change (2 ^ 6)%N with 64%N. change (2 ^ 12)%N with 4096%N. change (2 ^ 18)%N with 262144%N.
  div_lia.
Qed.

Lemma chars_encode_char c s : scalar c → chars (encode_char c +:+ s) = c :: chars s.
Proof.
  intros Hc. rewrite encode_char_string by done. rewrite encode_char_bytes by done. unfold scalar in Hc.
  destruct (N.ltb_spec c 128); [by apply chars_1|].
  destruct (N.ltb_spec c 2048); [|destruct (N.ltb_spec c 65536)].
  - etrans; [apply (chars_2 (192 + c / 64) (128 + c mod 64)); div_lia|]. f_equal. div_lia.
  - etrans; [apply (chars_3 (224 + c / 4096) (128 + (c / 64) mod 64) (128 + c mod 64)); div_lia|].
    f_equal. div_lia.
  - etrans; [apply (chars_4 (240 + c / 262144) (128 + (c / 4096) mod 64) (128 + (c / 64) mod 64)
      (128 + c mod 64)); div_lia|]. f_equal. div_lia.
Qed.

Lemma chars_of_chars l : Forall scalar l → chars (of_chars l) = l.
Proof.
  induction 1 as [|c l Hc _ IH]; [done|]. cbn [of_chars foldr]. rewrite chars_encode_char by done.
  f_equal. exact IH.
Qed.

(** ** Encoding *)

Lemma encode_char_of_bytes c l :
  scalar c → Forall (λ b, (b < 256)%N) l → bytes (encode_char c) = l → encode_char c = of_bytes l.
Proof. intros _ Hl <-. by rewrite of_bytes_bytes. Qed.

Lemma is_utf8_cons c s : scalar c → is_utf8 s → is_utf8 (encode_char c +:+ s).
Proof. intros Hc (l & Hl & ->). exists (c :: l). split; [by constructor|done]. Qed.

Lemma in_range_spec low high x : in_range low high x = true ↔ (low ≤ x ≤ high)%N.
Proof. unfold in_range. rewrite andb_true_iff, !N.leb_le. lia. Qed.

Ltac ranges := unfold continuation in *;
  repeat match goal with
  | H : _ && _ = true |- _ => apply andb_true_iff in H as [? H]
  | H : in_range _ _ _ = true |- _ => apply in_range_spec in H
  end.

(** What [from_utf8] accepts is the encoding of its characters. *)
Lemma valid_utf8_sound l : valid_utf8 l = true → is_utf8 (of_bytes l).
Proof.
  induction l as [l IH] using (induction_ltof1 _ length). unfold ltof in IH.
  destruct l as [|a l1]; [by exists []|]. cbn [valid_utf8]. destruct (N.ltb_spec a 128) as [Ha|Ha].
  { intros Hv. assert (scalar a) as Hs by (left; lia).
    change (is_utf8 (String (ascii_of_N a) (of_bytes l1))).
    replace (String (ascii_of_N a) (of_bytes l1)) with (encode_char a +:+ of_bytes l1)
      by (unfold encode_char; by rewrite ltb_true).
    apply is_utf8_cons; [done|]. apply IH; [simpl; lia|done]. }
  destruct l1 as [|b l2]; [done|]. destruct (in_range 194 223 a) eqn:H2.
  { intros Hv. ranges. set (c := ((a - 192) * 64 + (b - 128))%N).
    assert (scalar c) as Hs by (left; lia).
    assert (encode_char c = of_bytes [a; b]) as Hc.
    { apply encode_char_of_bytes; [done|repeat constructor; lia|]. rewrite encode_char_bytes by done.
      rewrite (ltb_false c 128), (ltb_true c 2048) by (unfold c; lia). unfold c. repeat f_equal; div_lia. }
    change (of_bytes (a :: b :: l2)) with (of_bytes [a; b] +:+ of_bytes l2). rewrite <-Hc.
    apply is_utf8_cons; [done|]. apply IH; [simpl; lia|done]. }
  destruct l2 as [|c0 l3]; [done|]. destruct (in_range 224 239 a) eqn:H3.
  { intros Hv. ranges. set (c := ((a - 224) * 4096 + (b - 128) * 64 + (c0 - 128))%N).
    assert ((128 ≤ b ≤ 191)%N ∧ scalar c ∧ (2048 ≤ c < 65536)%N) as (Hb & Hs & Hr).
    { unfold scalar, c. destruct (N.eqb_spec a 224), (N.eqb_spec a 237); ranges; lia. }
    assert (encode_char c = of_bytes [a; b; c0]) as Hc.
    { apply encode_char_of_bytes; [done|repeat constructor; lia|]. rewrite encode_char_bytes by done.
      rewrite (ltb_false c 128), (ltb_false c 2048), (ltb_true c 65536) by lia.
      unfold c. repeat f_equal; div_lia. }
    change (of_bytes (a :: b :: c0 :: l3)) with (of_bytes [a; b; c0] +:+ of_bytes l3). rewrite <-Hc.
    apply is_utf8_cons; [done|]. apply IH; [simpl; lia|done]. }
  destruct l3 as [|d l4]; [done|]. intros Hv. ranges.
  set (c := ((a - 240) * 262144 + (b - 128) * 4096 + (c0 - 128) * 64 + (d - 128))%N).
  assert ((128 ≤ b ≤ 191)%N ∧ scalar c ∧ (65536 ≤ c)%N) as (Hb & Hs & Hr).
  { unfold scalar, c. destruct (N.eqb_spec a 240), (N.eqb_spec a 244); ranges; lia. }
  assert (encode_char c = of_bytes [a; b; c0; d]) as Hc.
  { apply encode_char_of_bytes; [done|repeat constructor; lia|]. rewrite encode_char_bytes by done.
    rewrite (ltb_false c 128), (ltb_false c 2048), (ltb_false c 65536) by lia.
    unfold c. repeat f_equal; div_lia. }
  change (of_bytes (a :: b :: c0 :: d :: l4)) with (of_bytes [a; b; c0; d] +:+ of_bytes l4). rewrite <-Hc.
  apply is_utf8_cons; [done|]. apply IH; [simpl; lia|done].
Qed.

Lemma from_utf8_sound l s : from_utf8 l = Some s → is_utf8 s ∧ s = of_bytes l.
Proof.
  unfold from_utf8. destruct (valid_utf8 l) eqn:E; [|done]. intros [= <-].
  split; [by apply valid_utf8_sound|done].
Qed.

(** ** Parts of strings *)

Lemma of_chars_app l k : of_chars (l ++ k) = of_chars l +:+ of_chars k.
Proof.
  induction l as [|c l IH]; [done|]. cbn [of_chars foldr app]. fold (of_chars (l ++ k)) (of_chars l).
  by rewrite IH, app_assoc_str.
Qed.

Lemma of_chars_chars s : is_utf8 s → of_chars (chars s) = s.
Proof. intros (l & Hl & ->). by rewrite chars_of_chars. Qed.

Lemma chars_scalar s : is_utf8 s → Forall scalar (chars s).
Proof. intros (l & Hl & ->). by rewrite chars_of_chars. Qed.

Lemma trim_left_suffix l : ∃ k, l = k ++ trim_left l ∧ Forall (λ c, is_whitespace c = true) k.
Proof.
  induction l as [|c l (k & Hk & Hw)]; [by exists []|]. simpl. destruct (is_whitespace c) eqn:E.
  - exists (c :: k). split; [simpl; congruence|by constructor].
  - by exists [].
Qed.

Lemma trim_left_idem l : trim_left (trim_left l) = trim_left l.
Proof.
  induction l as [|c l IH]; [done|]. simpl. destruct (is_whitespace c) eqn:E; [done|]. simpl. by rewrite E.
Qed.

(** Trimming is a part of the string. *)
Lemma trim_part s :
  is_utf8 s → ∃ a b, s = of_chars a +:+ trim s +:+ of_chars b ∧ Forall scalar a ∧ Forall scalar b ∧
    is_utf8 (trim s).
Proof.
  intros Hs. unfold trim. destruct (trim_left_suffix (chars s)) as (k & Hk & _).
  destruct (trim_left_suffix (reverse (trim_left (chars s)))) as (j & Hj & _).
  set (mid := trim_left (reverse (trim_left (chars s)))) in *.
  assert (trim_left (chars s) = reverse mid ++ reverse j) as Hm.
  { apply (f_equal reverse) in Hj. by rewrite reverse_involutive, reverse_app in Hj. }
  pose proof (chars_scalar s Hs) as Hsc. rewrite Hk, Hm in Hsc.
  apply Forall_app in Hsc as [Ha [Hmid Hb]%Forall_app]. exists k, (reverse j). split_and!; [|done..|by exists (reverse mid)].
  rewrite <-(of_chars_chars s Hs) at 1. by rewrite Hk, Hm, !of_chars_app.
Qed.

Lemma trim_left_last l c : is_whitespace c = false → trim_left (l ++ [c]) = trim_left l ++ [c].
Proof.
  intros Hc. induction l as [|d l IH]; simpl; [by rewrite Hc|]. by destruct (is_whitespace d).
Qed.

(** What trimming leaves is left by trimming it again. *)
Lemma trim_idem s : is_utf8 s → trim (trim s) = trim s.
Proof.
  intros Hs. unfold trim. set (l := trim_left (chars s)).
  assert (Forall scalar (reverse (trim_left (reverse l)))) as Hsc.
  { destruct (trim_left_suffix (reverse l)) as (j & Hj & _).
    assert (Forall scalar (reverse l)) as Hl.
    { apply Forall_reverse. unfold l. destruct (trim_left_suffix (chars s)) as (k & Hk & _).
      pose proof (chars_scalar s Hs) as Hc. rewrite Hk in Hc. by apply Forall_app in Hc as [_ ?]. }
    rewrite Hj in Hl. apply Forall_app in Hl as [_ Hl]. by apply Forall_reverse. }
  rewrite chars_of_chars by done. f_equal. f_equal.
  set (m := trim_left (reverse l)).
  assert (trim_left (reverse m) = reverse m) as ->; [|by rewrite reverse_involutive; apply trim_left_idem].
  unfold m. assert (trim_left l = l) as Hl by apply trim_left_idem.
  destruct l as [|c l']; [done|]. simpl in Hl. destruct (is_whitespace c) eqn:E.
  { exfalso. assert (length (trim_left l') ≤ length l') as Hle.
    { destruct (trim_left_suffix l') as (k & Hk & _). rewrite Hk at 2. rewrite length_app. lia. }
    rewrite Hl in Hle. simpl in Hle. lia. }
  rewrite reverse_cons, trim_left_last, reverse_app by done. simpl. by rewrite E.
Qed.

Lemma encode_char_ascii c : (c < 128)%N → encode_char c = String (ascii_of_N c) "".
Proof. intros Hc. unfold encode_char. by rewrite ltb_true. Qed.

Lemma encode_char_high c : scalar c → (128 ≤ c)%N → Forall (λ b, (128 ≤ b)%N) (bytes (encode_char c)).
Proof.
  intros Hs Hc. rewrite encode_char_bytes by done. rewrite ltb_false by done.
  destruct (N.ltb_spec c 2048); [|destruct (N.ltb_spec c 65536)];
    repeat (apply Forall_cons_2; [div_lia|]); apply Forall_nil_2.
Qed.

(** Every string of characters passes [from_utf8]. *)
Lemma valid_utf8_char c l : scalar c → valid_utf8 (bytes (encode_char c) ++ l) = valid_utf8 l.
Proof.
  intros Hs. rewrite encode_char_bytes by done. unfold scalar in Hs.
  assert (∀ low high x, (low ≤ x ≤ high)%N → in_range low high x = true) as Hin
    by (intros; by apply in_range_spec).
  assert (∀ low high x, (x < low ∨ high < x)%N → in_range low high x = false) as Hout.
  { intros low high x Hx. apply not_true_iff_false. rewrite in_range_spec. lia. }
  destruct (N.ltb_spec c 128); [cbn [app valid_utf8]; by rewrite ltb_true|].
  destruct (N.ltb_spec c 2048).
  { cbn [app valid_utf8]. rewrite ltb_false, Hin by div_lia. unfold continuation.
    by rewrite Hin by div_lia. }
  destruct (N.ltb_spec c 65536).
  { cbn [app valid_utf8]. unfold continuation.
    rewrite ltb_false, (Hout 194%N 223%N), (Hin 224%N 239%N) by div_lia.
    rewrite (Hin 128%N 191%N (128 + c mod 64)%N) by div_lia.
    assert ((if N.eqb (224 + c / 4096) 224 then in_range 160 191 (128 + (c / 64) mod 64)
      else if N.eqb (224 + c / 4096) 237 then in_range 128 159 (128 + (c / 64) mod 64)
      else in_range 128 191 (128 + (c / 64) mod 64)) = true) as ->; [|done].
    destruct (N.eqb_spec (224 + c / 4096) 224); [|destruct (N.eqb_spec (224 + c / 4096) 237)];
      apply Hin; div_lia. }
  cbn [app valid_utf8]. unfold continuation.
  rewrite ltb_false, (Hout 194%N 223%N), (Hout 224%N 239%N), (Hin 240%N 244%N) by div_lia.
  rewrite (Hin 128%N 191%N (128 + c mod 64)%N), (Hin 128%N 191%N (128 + (c / 64) mod 64)%N) by div_lia.
  assert ((if N.eqb (240 + c / 262144) 240 then in_range 144 191 (128 + (c / 4096) mod 64)
    else if N.eqb (240 + c / 262144) 244 then in_range 128 143 (128 + (c / 4096) mod 64)
    else in_range 128 191 (128 + (c / 4096) mod 64)) = true) as ->; [|done].
  destruct (N.eqb_spec (240 + c / 262144) 240); [|destruct (N.eqb_spec (240 + c / 262144) 244)];
    apply Hin; div_lia.
Qed.

Lemma valid_utf8_complete s : is_utf8 s → valid_utf8 (bytes s) = true.
Proof.
  intros (l & Hl & ->). induction Hl as [|c l Hc _ IH]; [done|]. cbn [of_chars foldr].
  rewrite bytes_app, valid_utf8_char by done. exact IH.
Qed.

Lemma from_utf8_complete s : is_utf8 s → from_utf8 (bytes s) = Some s.
Proof. intros Hs. unfold from_utf8. by rewrite valid_utf8_complete, of_bytes_bytes. Qed.

Lemma is_utf8_app s t : is_utf8 s → is_utf8 t → is_utf8 (s +:+ t).
Proof.
  intros (l & Hl & ->) (k & Hk & ->). exists (l ++ k). split; [by apply Forall_app|]. by rewrite of_chars_app.
Qed.

Lemma is_utf8_ascii s : all_bytes (λ b, N.ltb b 128) s = true → is_utf8 s.
Proof.
  induction s as [|a s IH]; [by exists []|]. cbn [all_bytes bytes forallb].
  intros [Ha Hs]%andb_true_iff. apply N.ltb_lt in Ha.
  change (is_utf8 (String a "" +:+ s)). apply is_utf8_app; [|by apply IH].
  exists [byte_of a]. split; [constructor; [by left; lia|done]|]. cbn [of_chars foldr].
  by rewrite app_nil_r_str, encode_char_ascii, ascii_of_byte.
Qed.

(** Splitting at an ASCII character. *)
Lemma split_once_prefix a p s :
  any_byte (N.eqb (byte_of a)) p = false →
  split_once a (p +:+ s) = (λ hr, (p +:+ fst hr, snd hr)) <$> split_once a s.
Proof.
  induction p as [|c p IH]; intros Hp.
  { change ("" +:+ s) with s. by destruct (split_once a s) as [[]|]. }
  cbn [any_byte bytes existsb] in Hp. apply orb_false_iff in Hp as [Hc Hp].
  change (String c p +:+ s) with (String c (p +:+ s)). cbn [split_once].
  destruct (Ascii.eqb_spec c a) as [->|]; [by rewrite N.eqb_refl in Hc|]. rewrite (IH Hp).
  by destruct (split_once a s) as [[]|].
Qed.

Lemma encode_char_no_byte c a :
  scalar c → (byte_of a < 128)%N → c ≠ byte_of a → any_byte (N.eqb (byte_of a)) (encode_char c) = false.
Proof.
  intros Hs Ha Hne. unfold any_byte. apply not_true_iff_false. rewrite existsb_exists.
  intros (b & Hb & Heq%N.eqb_eq). subst b. apply list_elem_of_In in Hb.
  destruct (N.ltb_spec c 128).
  - rewrite encode_char_ascii in Hb by done. simpl in Hb. rewrite byte_of_N in Hb by lia. set_solver.
  - pose proof (encode_char_high c Hs) as Hh. rewrite Forall_forall in Hh.
    specialize (Hh ltac:(done) _ Hb). lia.
Qed.

Lemma split_once_utf8 a s l r :
  (byte_of a < 128)%N → is_utf8 s → split_once a s = Some (l, r) → is_utf8 l ∧ is_utf8 r.
Proof.
  intros Ha (k & Hk & ->). revert l r. induction Hk as [|c k Hc Hk IH]; intros l r Hs; [done|].
  change (of_chars (c :: k)) with (encode_char c +:+ of_chars k) in Hs.
  destruct (decide (c = byte_of a)) as [->|Hne].
  - rewrite encode_char_ascii, ascii_of_byte in Hs by done.
    change (String a "" +:+ of_chars k) with (String a (of_chars k)) in Hs. simpl in Hs.
    rewrite Ascii.eqb_refl in Hs. injection Hs as <- <-. split; [by exists []|by exists k].
  - rewrite split_once_prefix in Hs by by apply encode_char_no_byte.
    destruct (split_once a (of_chars k)) as [[h t]|]; [|done]. simpl in Hs. injection Hs as <- <-.
    destruct (IH h t eq_refl) as [Hh Ht]. split; [by apply is_utf8_cons|done].
Qed.

Lemma split_once_no_byte a s l r :
  split_once a s = Some (l, r) → s = l +:+ String a r ∧ any_byte (N.eqb (byte_of a)) l = false.
Proof.
  revert l. induction s as [|c s IH]; intros l; [done|]. cbn [split_once].
  destruct (Ascii.eqb_spec c a) as [->|Hne]; [by intros [= <- <-]|].
  destruct (split_once a s) as [[h t]|]; [|done]. intros [= <- <-].
  destruct (IH h eq_refl) as [-> Hh]. split; [done|]. cbn [any_byte bytes existsb].
  rewrite (proj2 (N.eqb_neq (byte_of a) (byte_of c))); [exact Hh|].
  intros Heq. apply Hne. by rewrite <-(ascii_of_byte c), <-Heq, ascii_of_byte.
Qed.

(** ** From the end *)

Notation reversed s := (of_bytes (reverse (bytes s))).

Lemma bytes_reversed s : bytes (reversed s) = reverse (bytes s).
Proof. apply bytes_of_bytes. rewrite Forall_reverse. apply bytes_bound. Qed.

Lemma reversed_twice s : reversed (reversed s) = s.
Proof. by rewrite bytes_reversed, reverse_involutive, of_bytes_bytes. Qed.

Lemma reversed_app s t : reversed (s +:+ t) = reversed t +:+ reversed s.
Proof. by rewrite bytes_app, reverse_app, of_bytes_app. Qed.

(** [str::rsplit_once] *)
Definition rsplit_once (separator : ascii) (s : string) : option (string * string) :=
  (λ parts, (of_bytes (reverse (bytes (snd parts))), of_bytes (reverse (bytes (fst parts))))) <$>
    split_once separator (of_bytes (reverse (bytes s))).

Lemma any_byte_reversed p s : any_byte p (reversed s) = any_byte p s.
Proof.
  unfold any_byte. rewrite bytes_reversed. apply eq_true_iff_eq. rewrite !existsb_exists.
  by setoid_rewrite <-list_elem_of_In; setoid_rewrite elem_of_reverse.
Qed.

(** Splitting at the last of a character. *)
Lemma rsplit_once_app a l r :
  any_byte (N.eqb (byte_of a)) r = false → rsplit_once a (l +:+ String a r) = Some (l, r).
Proof.
  intros Hr. unfold rsplit_once. change (String a r) with (String a "" +:+ r).
  rewrite app_assoc_str, !reversed_app. change (reversed (String a "")) with (String (ascii_of_N (byte_of a)) "").
  rewrite ascii_of_byte. change (String a "" +:+ reversed l) with (String a (reversed l)).
  rewrite split_once_prefix by by rewrite any_byte_reversed. cbn [split_once]. rewrite Ascii.eqb_refl. simpl.
  by rewrite app_nil_r_str, !reversed_twice.
Qed.

Lemma rsplit_once_spec a s l r :
  rsplit_once a s = Some (l, r) → s = l +:+ String a r ∧ any_byte (N.eqb (byte_of a)) r = false.
Proof.
  unfold rsplit_once. intros ([x y] & Hs & [= -> ->])%fmap_Some. simpl.
  apply split_once_no_byte in Hs as [Hs Hx]. rewrite any_byte_reversed. split; [|done].
  rewrite <-(reversed_twice s), Hs. change (String a y) with (String a "" +:+ y). rewrite !reversed_app.
  change (reversed (String a "")) with (String (ascii_of_N (byte_of a)) ""). rewrite ascii_of_byte.
  by rewrite <-app_assoc_str.
Qed.

(** ** ASCII *)

Lemma chars_ascii s : all_bytes (λ b, N.ltb b 128) s = true → chars s = bytes s.
Proof.
  induction s as [|a s IH]; [done|]. cbn [all_bytes bytes forallb]. intros [Ha Hs]%andb_true_iff.
  cbn [chars]. rewrite Ha. by rewrite IH.
Qed.

Lemma all_bytes_impl (p q : N → bool) s :
  (∀ b, p b = true → q b = true) → all_bytes p s = true → all_bytes q s = true.
Proof. unfold all_bytes. rewrite !forallb_forall. eauto. Qed.

Lemma any_byte_none (p q : N → bool) s :
  (∀ b, p b = true → q b = false) → all_bytes p s = true → any_byte q s = false.
Proof.
  intros Himpl Hp. apply not_true_iff_false. unfold any_byte. rewrite existsb_exists. intros (b & Hin & Hq).
  unfold all_bytes in Hp. rewrite forallb_forall in Hp. rewrite (Himpl b) in Hq by auto. done.
Qed.

Notation no_byte a s := (any_byte (N.eqb (byte_of a)) s = false).

Lemma no_byte_cons a c s : no_byte a (String c s) ↔ c ≠ a ∧ no_byte a s.
Proof.
  cbn [any_byte bytes existsb]. rewrite orb_false_iff, N.eqb_neq.
  assert (byte_of a ≠ byte_of c ↔ c ≠ a) as ->; [|done]. split; [by intros H ->|].
  intros Hne Heq. apply Hne. by rewrite <-(ascii_of_byte c), <-Heq, ascii_of_byte.
Qed.
