(* ===== verification/Heads.v ===== *)
(** Request heads of the egress gateway (src/crates/compute-egress/src/lib.rs):
    reading a head from a stream of reads, parsing it, and writing the head that
    is forwarded upstream. *)

From S2P Require Import Prelude Text Utf8.

Definition MAX_HEAD : nat := 32 * 1024.

(** ** Request heads *)

Definition CR : ascii := ascii_of_N 13.
Definition LF : ascii := ascii_of_N 10.
Definition crlf : string := String CR (String LF "").

(** [text.split("\r\n")] *)
Fixpoint split_crlf (s : string) : list string :=
  match s with
  | EmptyString => [""]
  | String c s' =>
      match s' with
      | String d s'' =>
          if Ascii.eqb c CR && Ascii.eqb d LF then "" :: split_crlf s''
          else match split_crlf s' with
               | [] => [String c ""]
               | part :: parts => String c part :: parts
               end
      | EmptyString => [String c ""]
      end
  end.

Record Head : Type := {
  method : string;
  target : string;
  version : string;
  headers : list (string * string);
}.

Fixpoint parse_headers (lines : list string) : option (list (string * string)) :=
  match lines with
  | [] => Some []
  | line :: lines =>
      if is_empty line then parse_headers lines
      else
        '(name, value) ← split_once ":" line;
        if is_empty name || any_char is_whitespace name then None
        else rest ← parse_headers lines; Some ((name, trim value) :: rest)
  end.

(** [Head::parse] *)
Definition parse_head (input : list N) : option Head :=
  text ← from_utf8 input;
  match split_crlf text with
  | [] => None
  | request :: lines =>
      match split " " request with
      | [m; t; v] =>
          if starts_with "HTTP/1." v then
            fields ← parse_headers lines;
            Some {| method := m; target := t; version := v; headers := fields |}
          else None
      | _ => None
      end
  end.

Definition header (h : Head) (name : string) : option string :=
  snd <$> find (λ field, eq_ignore_ascii_case (fst field) name) (headers h).

Definition HOP : list string := ["connection"; "proxy-connection"; "keep-alive"; "proxy-authorization"].

(** Whether a header is forwarded. *)
Definition kept (remove : option string) (name : string) : bool :=
  negb (existsb (λ hop, eq_ignore_ascii_case name hop) HOP) &&
  negb match remove with Some remove => eq_ignore_ascii_case name remove | None => false end.

Definition header_line (field : string * string) : string := fst field +:+ ": " +:+ snd field +:+ crlf.

(** [Head::forwarded] *)
Definition forwarded (h : Head) (to : string) (remove : option string) (add : option (string * string))
    : list N :=
  bytes (method h +:+ " " +:+ to +:+ " " +:+ version h +:+ crlf +:+
    join "" (header_line <$> filter (λ field, kept remove (fst field) = true) (headers h)) +:+
    match add with Some field => header_line field | None => "" end +:+
    "Connection: close" +:+ crlf +:+ crlf).

(** ** Reading *)

Definition END_OF_HEAD : list N := [13; 10; 13; 10]%N.

(** [windows(4).position(...)] *)
Fixpoint find_end (l : list N) (i : nat) : option nat :=
  if bool_decide (take 4 l = END_OF_HEAD) then Some i
  else match l with [] => None | _ :: l => find_end l (S i) end.

(** [read_head]: the head, what followed it, and the reads left; [None] when the
    stream ends (a read of no bytes) or the head is too large. *)
Fixpoint read_head (reads : list (list N)) (buffer : list N) : option (list N * list N * list (list N)) :=
  match find_end buffer 0 with
  | Some end_ => Some (take end_ buffer, drop (end_ + 4) buffer, reads)
  | None =>
      if Nat.ltb MAX_HEAD (length buffer) then None
      else match reads with
           | [] | [] :: _ => None
           | chunk :: reads => read_head reads (buffer ++ chunk)
           end
  end.

(** ** Lines *)

(** No end of line within. *)
Fixpoint one_line (s : string) : bool :=
  match s with
  | EmptyString => true
  | String c s' =>
      negb (Ascii.eqb c CR && match s' with String d _ => Ascii.eqb d LF | EmptyString => false end) &&
      one_line s'
  end.

Definition prepend (p : string) (parts : list string) : list string :=
  match parts with [] => [p] | q :: parts => (p +:+ q) :: parts end.

Lemma split_crlf_cons c s :
  split_crlf (String c s) =
    match s with
    | String d s' => if Ascii.eqb c CR && Ascii.eqb d LF then "" :: split_crlf s'
                     else prepend (String c "") (split_crlf s)
    | EmptyString => [String c ""]
    end.
Proof. destruct s as [|d s]; [done|]. simpl. by destruct (_ && _). Qed.

Lemma split_crlf_ne s : split_crlf s ≠ [].
Proof.
  destruct s as [|c s]; [done|]. rewrite split_crlf_cons. destruct s as [|d s]; [done|].
  destruct (_ && _); [done|]. by destruct (split_crlf (String d s)).
Qed.

Lemma split_crlf_line l s : one_line l = true → split_crlf (l +:+ crlf +:+ s) = l :: split_crlf s.
Proof.
  induction l as [|c l IH]; intros Hl; [done|]. cbn [one_line] in Hl. apply andb_true_iff in Hl as [Hc Hl].
  change (String c l +:+ crlf +:+ s) with (String c (l +:+ crlf +:+ s)). rewrite split_crlf_cons.
  rewrite (IH Hl). destruct l as [|d l].
  - change ("" +:+ crlf +:+ s) with (String CR (String LF s)).
    cbv beta iota. change (Ascii.eqb CR LF) with false. by rewrite andb_false_r.
  - change (String d l +:+ crlf +:+ s) with (String d (l +:+ crlf +:+ s)).
    cbv beta iota. by destruct (Ascii.eqb c CR && Ascii.eqb d LF).
Qed.

Lemma one_line_app a b : one_line (a +:+ b) = true → one_line a = true ∧ one_line b = true.
Proof.
  induction a as [|c a IH]; [done|]. change (String c a +:+ b) with (String c (a +:+ b)).
  cbn [one_line]. intros [Hc Hab]%andb_true_iff. apply IH in Hab as [Ha Hb]. split; [|done].
  rewrite Ha, andb_true_r. destruct a as [|d a]; [by rewrite andb_false_r|done].
Qed.

(** Lines joined by a character that does not end one. *)
Lemma one_line_join a c b :
  one_line a = true → one_line (String c b) = true → c ≠ LF → one_line (a +:+ String c b) = true.
Proof.
  intros Ha Hb Hc. induction a as [|d a IH]; [done|]. cbn [one_line] in Ha.
  apply andb_true_iff in Ha as [Hd Ha]. change (String d a +:+ String c b) with (String d (a +:+ String c b)).
  cbn [one_line]. rewrite (IH Ha), andb_true_r. destruct a as [|e a]; [|done].
  change ("" +:+ String c b) with (String c b). cbv beta iota. destruct (Ascii.eqb_spec c LF); [done|]. by rewrite andb_false_r.
Qed.

Lemma one_line_cons c s : c ≠ CR → one_line s = true → one_line (String c s) = true.
Proof. intros Hc Hs. cbn [one_line]. destruct (Ascii.eqb_spec c CR); [done|]. by rewrite Hs. Qed.

Lemma split_crlf_head s part parts d p :
  split_crlf s = part :: parts → part = String d p → ∃ s', s = String d s'.
Proof.
  intros Hs ->. destruct s as [|c s]; [done|]. rewrite split_crlf_cons in Hs. exists s.
  destruct s as [|e s]; [by simplify_eq|]. destruct (_ && _); [done|].
  destruct (split_crlf (String e s)) as [|q qs]; [by simplify_eq/=|]. by injection Hs as -> _ _.
Qed.

Lemma split_crlf_one_line s : Forall (λ line, one_line line = true) (split_crlf s).
Proof.
  induction s as [s IH] using (induction_ltof1 _ String.length). unfold ltof in IH.
  destruct s as [|c s]; [by repeat constructor|]. rewrite split_crlf_cons. destruct s as [|d s].
  { repeat constructor. simpl. by rewrite andb_false_r. }
  destruct (Ascii.eqb c CR && Ascii.eqb d LF) eqn:E.
  { constructor; [done|]. apply IH. simpl. lia. }
  pose proof (IH (String d s) ltac:(simpl; lia)) as Hs.
  destruct (split_crlf (String d s)) as [|part parts] eqn:Hp; [by repeat constructor; simpl; rewrite andb_false_r|].
  apply Forall_cons in Hs as [Hpart Hparts]. constructor; [|done].
  change (String c "" +:+ part) with (String c part). cbn [one_line]. rewrite Hpart, andb_true_r.
  destruct part as [|e part]; [by rewrite andb_false_r|].
  destruct (split_crlf_head _ _ _ e part Hp eq_refl) as [s' [= <- _]]. by rewrite E.
Qed.

(** Lines of a string of characters are strings of characters. *)
Lemma split_crlf_prefix p s :
  any_byte (N.eqb 13) p = false → split_crlf (p +:+ s) = prepend p (split_crlf s).
Proof.
  induction p as [|c p IH]; intros Hp.
  { change ("" +:+ s) with s. pose proof (split_crlf_ne s). by destruct (split_crlf s). }
  cbn [any_byte bytes existsb] in Hp. apply orb_false_iff in Hp as [Hc Hp].
  change (String c p +:+ s) with (String c (p +:+ s)). rewrite split_crlf_cons.
  assert (Ascii.eqb c CR = false) as Hcr.
  { destruct (Ascii.eqb_spec c CR) as [->|]; [done|done]. }
  rewrite Hcr. cbn [andb]. specialize (IH Hp). destruct (p +:+ s) as [|d t] eqn:E.
  - assert (p = "" ∧ s = "") as [-> ->] by (destruct p; [by destruct s|done]). done.
  - rewrite IH. by destruct (split_crlf s).
Qed.

Lemma split_crlf_utf8 s : is_utf8 s → Forall is_utf8 (split_crlf s).
Proof.
  intros (l & Hl & ->). induction l as [l IH] using (induction_ltof1 _ length). unfold ltof in IH.
  destruct Hl as [|c l Hc Hl]; [by repeat constructor; exists []|].
  change (of_chars (c :: l)) with (encode_char c +:+ of_chars l).
  assert (∀ p, is_utf8 p → Forall is_utf8 (prepend p (split_crlf (of_chars l)))) as Hpre.
  { intros p Hp. specialize (IH l ltac:(simpl; lia) Hl). pose proof (split_crlf_ne (of_chars l)).
    destruct (split_crlf (of_chars l)) as [|q qs]; [done|]. apply Forall_cons in IH as [Hq Hqs].
    constructor; [by apply is_utf8_app|done]. }
  assert (is_utf8 (encode_char c)) as Hcu.
  { rewrite <-(app_nil_r_str (encode_char c)). apply is_utf8_cons; [done|by exists []]. }
  destruct (decide (c = 13%N)) as [->|Hne].
  - change (encode_char 13) with (String CR ""). change (String CR "" +:+ of_chars l) with (String CR (of_chars l)).
    rewrite split_crlf_cons. destruct (of_chars l) as [|d t] eqn:E; [by repeat constructor|].
    destruct (Ascii.eqb CR CR && Ascii.eqb d LF) eqn:Hd; [|by apply Hpre].
    constructor; [by exists []|]. simpl in Hd. apply Ascii.eqb_eq in Hd as ->.
    destruct Hl as [|e l He Hl]; [done|]. change (of_chars (e :: l)) with (encode_char e +:+ of_chars l) in E.
    assert (chars (encode_char e +:+ of_chars l) = chars (String LF t)) as Hch by by rewrite E.
    rewrite chars_encode_char in Hch by done. change (chars (String LF t)) with (10%N :: chars t) in Hch.
    injection Hch as -> _. rewrite encode_char_ascii in E by done. injection E as <-.
    apply IH; [simpl; lia|done].
  - rewrite split_crlf_prefix; [by apply Hpre|]. by apply (encode_char_no_byte c CR).
Qed.

(** ** Parts of a request line *)

Lemma split_cons a c s :
  split a (String c s) = if Ascii.eqb c a then "" :: split a s else prepend (String c "") (split a s).
Proof. simpl. destruct (Ascii.eqb c a); [done|]. by destruct (split a s). Qed.

Lemma split_ne a s : split a s ≠ [].
Proof. destruct s as [|c s]; [done|]. rewrite split_cons. destruct (Ascii.eqb c a); [done|]. by destruct (split a s). Qed.

Lemma split_prefix a p s : no_byte a p → split a (p +:+ s) = prepend p (split a s).
Proof.
  induction p as [|c p IH]; intros Hp.
  { change ("" +:+ s) with s. pose proof (split_ne a s). by destruct (split a s). }
  apply no_byte_cons in Hp as [Hc Hp]. change (String c p +:+ s) with (String c (p +:+ s)).
  rewrite split_cons, (IH Hp). destruct (Ascii.eqb_spec c a); [done|]. by destruct (split a s).
Qed.

Lemma split_app a p s : no_byte a p → split a (p +:+ String a s) = p :: split a s.
Proof.
  intros Hp. rewrite split_prefix, split_cons, Ascii.eqb_refl by done. simpl. by rewrite app_nil_r_str.
Qed.

Lemma split_whole a p : no_byte a p → split a p = [p].
Proof. intros Hp. rewrite <-(app_nil_r_str p) at 1. rewrite split_prefix by done. simpl. by rewrite app_nil_r_str. Qed.

Lemma split_no_byte a s : Forall (λ p, no_byte a p) (split a s).
Proof.
  induction s as [|c s IH]; [by repeat constructor|]. rewrite split_cons.
  destruct (Ascii.eqb_spec c a) as [->|Hne]; [by constructor|].
  destruct IH as [|q qs Hq Hqs]; (constructor; [|done]).
  - by apply no_byte_cons.
  - by apply no_byte_cons.
Qed.

Lemma split_utf8 a s : (byte_of a < 128)%N → is_utf8 s → Forall is_utf8 (split a s).
Proof.
  intros Ha (l & Hl & ->). induction Hl as [|c l Hc Hl IH]; [by repeat constructor; exists []|].
  change (of_chars (c :: l)) with (encode_char c +:+ of_chars l).
  destruct (decide (c = byte_of a)) as [->|Hne].
  - rewrite encode_char_ascii, ascii_of_byte by done.
    change (String a "" +:+ of_chars l) with (String a (of_chars l)). rewrite split_cons, Ascii.eqb_refl.
    constructor; [by exists []|done].
  - rewrite split_prefix by by apply encode_char_no_byte. pose proof (split_ne a (of_chars l)).
    destruct IH as [|q qs Hq Hqs]; [done|]. constructor; [by apply is_utf8_cons|done].
Qed.

Lemma split_one_line a s : one_line s = true → Forall (λ p, one_line p = true) (split a s).
Proof.
  intros Hs. assert (∀ q qs, split a s = q :: qs → (∃ t, s = q +:+ t) ∧ Forall (λ p, one_line p = true) qs) as H.
  { induction s as [|c s IH]; intros q qs Hq; [simpl in Hq; simplify_eq; split; [by exists ""|done]|].
    cbn [one_line] in Hs. apply andb_true_iff in Hs as [_ Hs]. specialize (IH Hs).
    pose proof (split_ne a s) as Hne. rewrite split_cons in Hq. destruct (split a s) as [|p ps] eqn:E; [done|].
    destruct (IH p ps eq_refl) as [[t ->] Hps].
    destruct (Ascii.eqb_spec c a) as [->|]; injection Hq as <- <-.
    - split; [by eexists|]. constructor; [|done]. by apply one_line_app in Hs as [? _].
    - split; [by exists t|done]. }
  pose proof (split_ne a s) as Hne. destruct (split a s) as [|q qs] eqn:E; [done|].
  destruct (H q qs eq_refl) as [[t Ht] Hqs]. constructor; [|done]. rewrite Ht in Hs.
  by apply one_line_app in Hs as [? _].
Qed.

(** ** Parsed heads *)

(** A token of a request line. *)
Definition token (s : string) : Prop := is_utf8 s ∧ one_line s = true ∧ no_byte " " s.

Record field_name (s : string) : Prop := {
  fn_nonempty : is_empty s = false;
  fn_white : any_char is_whitespace s = false;
  fn_colon : no_byte ":" s;
  fn_utf8 : is_utf8 s;
  fn_line : one_line s = true;
}.

Definition field_value (s : string) : Prop := is_utf8 s ∧ one_line s = true.

Record HeadWf (h : Head) : Prop := {
  hwf_method : token (method h);
  hwf_target : token (target h);
  hwf_version : token (version h) ∧ starts_with "HTTP/1." (version h) = true;
  hwf_names : Forall (λ field, field_name (fst field)) (headers h);
  hwf_values : Forall (λ field, field_value (snd field) ∧ trim (snd field) = snd field) (headers h);
}.

Lemma trim_value s : is_utf8 s → one_line s = true → field_value (trim s) ∧ trim (trim s) = trim s.
Proof.
  intros Hu Hl. split; [|by apply trim_idem]. destruct (trim_part s Hu) as (a & b & Hs & _ & _ & Ht).
  split; [done|]. rewrite Hs in Hl. apply one_line_app in Hl as [_ [Hl _]%one_line_app]. done.
Qed.

Lemma parse_headers_wf lines fields :
  Forall is_utf8 lines → Forall (λ l, one_line l = true) lines → parse_headers lines = Some fields →
  Forall (λ field, field_name (fst field)) fields ∧
  Forall (λ field, field_value (snd field) ∧ trim (snd field) = snd field) fields.
Proof.
  intros Hu. revert fields. induction Hu as [|line lines Hline _ IH]; intros fields Hl Hp; simpl in Hp.
  { simplify_eq. by split. }
  apply Forall_cons in Hl as [Hone Hl]. destruct (is_empty line); [by apply IH|].
  destruct (split_once ":" line) as [[name value]|] eqn:E; [|done]. simpl in Hp.
  destruct (is_empty name || any_char is_whitespace name) eqn:Hn; [done|].
  apply orb_false_iff in Hn as [Hn1 Hn2]. destruct (parse_headers lines) as [rest|]; [|done]. simpl in Hp.
  injection Hp as <-. destruct (IH rest Hl eq_refl) as [IH1 IH2].
  apply split_once_utf8 in E as Hnv; [|done|done]. destruct Hnv as [Hnu Hvu].
  apply split_once_no_byte in E as [-> Hcolon]. apply one_line_app in Hone as [Hno Hvo].
  assert (one_line value = true) as Hvo' by (change (one_line (String ":" "" +:+ value) = true) in Hvo;
    by apply one_line_app in Hvo as [_ ?]).
  split; (constructor; [|done]); [by split|]. by apply trim_value.
Qed.

(** What [parse_head] accepts. *)
Lemma parse_head_wf input h : parse_head input = Some h → HeadWf h.
Proof.
  unfold parse_head. destruct (from_utf8 input) as [text|] eqn:E; [|done]. simpl.
  apply from_utf8_sound in E as [Hu _]. pose proof (split_crlf_utf8 text Hu) as Hlu.
  pose proof (split_crlf_one_line text) as Hl1. destruct (split_crlf text) as [|request lines]; [done|].
  apply Forall_cons in Hlu as [Hru Hlu], Hl1 as [Hr1 Hl1].
  pose proof (split_utf8 " " request ltac:(done) Hru) as Hpu.
  pose proof (split_one_line " " request Hr1) as Hp1. pose proof (split_no_byte " " request) as Hpn.
  destruct (split " " request) as [|m [|t [|v [|]]]]; try done.
  destruct (starts_with "HTTP/1." v) eqn:Hv; [|done].
  destruct (parse_headers lines) as [fields|] eqn:Hf; [|done]. simpl. intros [= <-].
  rewrite !Forall_cons in Hpu, Hp1, Hpn. destruct (parse_headers_wf _ _ Hlu Hl1 Hf) as [Hn Hvals].
  split; simpl; unfold token; naive_solver.
Qed.

(** ** Forwarded heads *)

Definition field_text (field : string * string) : string := fst field +:+ String ":" (" " +:+ snd field).

Definition text_of (lines : list string) : string := foldr (λ line s, line +:+ crlf +:+ s) "" lines.

Lemma text_of_app l k : text_of (l ++ k) = text_of l +:+ text_of k.
Proof.
  induction l as [|line l IH]; [done|].
  change (line +:+ crlf +:+ text_of (l ++ k) = (line +:+ crlf +:+ text_of l) +:+ text_of k).
  by rewrite IH, !app_assoc_str.
Qed.

Lemma text_of_utf8 lines : Forall is_utf8 lines → is_utf8 (text_of lines).
Proof.
  induction 1 as [|line lines Hl _ IH]; [by exists []|]. apply is_utf8_app; [done|].
  apply is_utf8_app; [|done]. by apply is_utf8_ascii.
Qed.

Lemma join_headers fields : join "" (header_line <$> fields) = text_of (field_text <$> fields).
Proof.
  induction fields as [|field fields IH]; [done|].
  assert (header_line field = field_text field +:+ crlf) as Hline.
  { unfold header_line, field_text. change (": " +:+ snd field +:+ crlf) with (String ":" (" " +:+ snd field) +:+ crlf).
    by rewrite app_assoc_str. }
  change (text_of (field_text <$> field :: fields)) with
    (field_text field +:+ crlf +:+ text_of (field_text <$> fields)).
  rewrite <-IH, app_assoc_str, <-Hline. destruct fields as [|field' fields]; [|done].
  simpl. by rewrite app_nil_r_str.
Qed.

Lemma trim_space s : is_utf8 s → trim (" " +:+ s) = trim s.
Proof. intros Hs. unfold trim. by change (chars (" " +:+ s)) with (32%N :: chars s). Qed.

Lemma field_text_line field :
  field_name (fst field) → field_value (snd field) → is_utf8 (field_text field) ∧ one_line (field_text field) = true.
Proof.
  intros [_ _ _ Hnu Hn1] [Hvu Hv1]. unfold field_text. split.
  - apply is_utf8_app; [done|]. change (String ":" (" " +:+ snd field)) with (": " +:+ snd field).
    apply is_utf8_app; [by apply is_utf8_ascii|done].
  - apply one_line_join; [done| |done]. apply one_line_cons; [done|].
    change (" " +:+ snd field) with (String " " (snd field)). by apply one_line_cons.
Qed.

Lemma parse_field_texts fields lines :
  Forall (λ field, field_name (fst field) ∧ field_value (snd field)) fields →
  parse_headers ((field_text <$> fields) ++ lines) =
  (λ rest, ((λ field, (fst field, trim (snd field))) <$> fields) ++ rest) <$> parse_headers lines.
Proof.
  induction 1 as [|[name value] fields [Hn [Hvu _]] _ IH];
    [simpl; by destruct (parse_headers lines)|].
  cbn [fst snd] in *. destruct Hn as [Hne Hw Hc _ _].
  assert (is_empty (field_text (name, value)) = false) as He by (unfold field_text; by destruct name).
  assert (split_once ":" (field_text (name, value)) = Some (name, " " +:+ value)) as Hs
    by by apply split_once_app.
  change ((field_text <$> (name, value) :: fields) ++ lines) with
    (field_text (name, value) :: (field_text <$> fields) ++ lines).
  cbn [parse_headers]. rewrite He, Hs. cbn [mbind option_bind]. rewrite Hne, Hw. cbn [orb]. rewrite IH.
  destruct (parse_headers lines) as [rest|]; [|done]. cbn. by rewrite trim_space.
Qed.

Definition forwarded_head (h : Head) (to : string) (remove : option string) (add : option (string * string))
    : Head :=
  {| method := method h; target := to; version := version h;
     headers := filter (λ field, kept remove (fst field) = true) (headers h) ++
       match add with Some field => [(fst field, trim (snd field))] | None => [] end ++
       [("Connection", "close")] |}.

(** The lines of a forwarded head but its last. *)
Definition forwarded_lines (h : Head) (to : string) (remove : option string) (add : option (string * string))
    : list string :=
  (method h +:+ String " " (to +:+ String " " (version h))) ::
  (field_text <$> filter (λ field, kept remove (fst field) = true) (headers h) ++
    match add with Some field => [field] | None => [] end).

Lemma forwarded_text h to remove add :
  forwarded h to remove add =
  bytes (text_of (forwarded_lines h to remove add) +:+ "Connection: close") ++ END_OF_HEAD.
Proof.
  change END_OF_HEAD with (bytes (crlf +:+ crlf)). rewrite <-bytes_app. unfold forwarded. f_equal.
  rewrite join_headers. unfold forwarded_lines. rewrite fmap_app.
  set (request := method h +:+ String " " (to +:+ String " " (version h))).
  change (text_of (request :: ?l)) with (request +:+ crlf +:+ text_of l). rewrite text_of_app.
  assert (match add with Some field => header_line field | None => "" end =
    text_of (field_text <$> match add with Some field => [field] | None => [] end)) as ->.
  { destruct add as [field|]; [|done]. exact (join_headers [field]). }
  unfold request. change (String " " (to +:+ String " " (version h))) with
    (" " +:+ (to +:+ (" " +:+ version h))).
  by rewrite !app_assoc_str.
Qed.

Lemma split_crlf_whole l : one_line l = true → split_crlf l = [l].
Proof.
  induction l as [|c l IH]; intros Hl; [done|]. cbn [one_line] in Hl. apply andb_true_iff in Hl as [Hc Hl].
  rewrite split_crlf_cons, (IH Hl). destruct l as [|d l]; [done|]. by destruct (Ascii.eqb c CR && Ascii.eqb d LF).
Qed.

Lemma split_text_of lines last :
  Forall (λ l, one_line l = true) lines → one_line last = true →
  split_crlf (text_of lines +:+ last) = lines ++ [last].
Proof.
  intros Hl Hlast. induction Hl as [|line lines Hl _ IH]; [by apply split_crlf_whole|].
  change (text_of (line :: lines) +:+ last) with ((line +:+ crlf +:+ text_of lines) +:+ last).
  rewrite <-!app_assoc_str, split_crlf_line by done. by rewrite IH.
Qed.

Section Forwarded.
  Context (h : Head) (to : string) (remove : option string) (add : option (string * string)).
  Hypothesis Hwf : HeadWf h.
  Hypothesis Hto : token to.
  Hypothesis Hadd : ∀ field, add = Some field → field_name (fst field) ∧ field_value (snd field).

Lemma forwarded_fields_ok :
  Forall (λ field, field_name (fst field) ∧ field_value (snd field))
    (filter (λ field, kept remove (fst field) = true) (headers h) ++
     match add with Some field => [field] | None => [] end).
Proof using All.
  destruct Hwf as [_ _ _ Hnames Hvalues]. apply Forall_app. split.
  - apply Forall_forall. intros field [_ Hin]%list_elem_of_filter. rewrite Forall_forall in Hnames, Hvalues.
    split; [by apply Hnames|by apply Hvalues].
  - destruct add as [field|]; [|done]. constructor; [by apply Hadd|done].
Qed.

Lemma forwarded_lines_ok :
  Forall (λ line, is_utf8 line ∧ one_line line = true ∧ is_empty line = false) (forwarded_lines h to remove add).
Proof using All.
  destruct Hwf as [[Hmu [Hm1 _]] _ [[Hvu [Hv1 _]] _] _ _], Hto as [Htu [Ht1 _]]. constructor.
  - split_and!.
    + apply is_utf8_app; [done|]. change (String " " (to +:+ String " " (version h))) with
        (" " +:+ (to +:+ (" " +:+ version h))).
      apply is_utf8_app; [by apply is_utf8_ascii|]. apply is_utf8_app; [done|].
      apply is_utf8_app; [by apply is_utf8_ascii|done].
    + apply one_line_join; [done| |done]. apply one_line_cons; [done|].
      apply one_line_join; [done| |done]. by apply one_line_cons.
    + by destruct (method h).
  - apply Forall_fmap. eapply Forall_impl; [apply forwarded_fields_ok|]. intros field [Hn Hv]. simpl.
    destruct (field_text_line field Hn Hv). split_and!; [done..|]. unfold field_text. by destruct (fst field).
Qed.

Lemma parse_forwarded :
  parse_head (bytes (text_of (forwarded_lines h to remove add) +:+ "Connection: close")) =
  Some (forwarded_head h to remove add).
Proof using All.
  pose proof forwarded_lines_ok as Hlines. unfold parse_head. rewrite from_utf8_complete.
  2: { apply is_utf8_app; [|by apply is_utf8_ascii]. apply text_of_utf8.
       eapply Forall_impl; [exact Hlines|]. by intros ? [? _]. }
  cbn [mbind option_bind]. rewrite split_text_of; [|by eapply Forall_impl; [exact Hlines|]; intros ? [_ [? _]]|done].
  destruct Hwf as [[_ [_ Hms]] _ [[_ [_ Hvs]] Hhttp] _ Hvalues], Hto as [_ [_ Hts]].
  unfold forwarded_lines. cbn [app]. rewrite split_app, split_app, split_whole by done. rewrite Hhttp.
  rewrite parse_field_texts by apply forwarded_fields_ok.
  assert (parse_headers ["Connection: close"] = Some [("Connection", "close")]) as -> by done.
  simpl. unfold forwarded_head. f_equal. f_equal. rewrite fmap_app, <-(assoc_L (++)).
  f_equal; [|by destruct add as [[]|]].
  rewrite <-(list_fmap_id (filter _ (headers h))) at 2. apply list_fmap_ext. intros i [name value] Hin.
  apply list_elem_of_lookup_2, list_elem_of_filter in Hin as [_ Hin].
  rewrite Forall_forall in Hvalues. destruct (Hvalues _ Hin) as [_ Heq]. simpl in *. by rewrite Heq.
Qed.
End Forwarded.

(** ** Where a head ends *)

Notation CRLF := [13; 10]%N.

(** The first end of a head in some bytes. *)
Definition first_end (l : list N) (n : nat) : Prop :=
  take 4 (drop n l) = END_OF_HEAD ∧ ∀ m, m < n → take 4 (drop m l) ≠ END_OF_HEAD.

Lemma find_end_step x l i :
  find_end (x :: l) i = if bool_decide (take 4 (x :: l) = END_OF_HEAD) then Some i else find_end l (S i).
Proof. done. Qed.

Lemma find_end_spec l i n : find_end l i = Some n ↔ ∃ k, n = i + k ∧ first_end l k.
Proof.
  revert i. induction l as [|x l IH]; intros i.
  { split; [done|]. intros (k & _ & Hk & _). by rewrite drop_nil in Hk. }
  rewrite find_end_step. case_bool_decide as Hd.
  - split.
    + intros [= <-]. exists 0. split; [lia|]. split; [done|lia].
    + intros ([|k] & -> & Hk & Hmin); [f_equal; lia|]. by destruct (Hmin 0 ltac:(lia)).
  - rewrite IH. split.
    + intros (k & -> & Hk & Hmin). exists (S k). split; [lia|]. split; [done|].
      intros [|m] Hm; [done|]. apply Hmin. lia.
    + intros ([|k] & -> & Hk & Hmin); [done|]. exists k. split; [lia|]. split; [done|].
      intros m Hm. apply (Hmin (S m)). lia.
Qed.

Lemma find_end_none l i : find_end l i = None ↔ ∀ n, ¬ first_end l n.
Proof.
  split.
  - intros Hf n Hn. assert (find_end l i = Some (i + n)) by (apply find_end_spec; eauto). congruence.
  - intros Hn. destruct (find_end l i) as [m|] eqn:E; [|done]. apply find_end_spec in E as (k & _ & Hk).
    by destruct (Hn k).
Qed.

Lemma first_end_length l n : first_end l n → n + 4 ≤ length l.
Proof. intros [Hn _]. apply (f_equal length) in Hn. rewrite length_take, length_drop in Hn. change (length END_OF_HEAD) with 4 in Hn. lia. Qed.

(** More bytes do not move it. *)
Lemma take_drop_app (l k : list N) m : m + 4 ≤ length l → take 4 (drop m (l ++ k)) = take 4 (drop m l).
Proof.
  intros Hm. rewrite drop_app_le by lia. apply take_app_le. rewrite length_drop. lia.
Qed.

Lemma first_end_app l k n : first_end l n → first_end (l ++ k) n.
Proof.
  intros Hf. pose proof (first_end_length _ _ Hf) as Hl. destruct Hf as [Hn Hmin].
  split; [by rewrite take_drop_app|]. intros m Hm. rewrite take_drop_app by lia. by apply Hmin.
Qed.

Lemma first_end_app_inv l k n : first_end (l ++ k) n → n + 4 ≤ length l → first_end l n.
Proof.
  intros [Hn Hmin] Hl. rewrite take_drop_app in Hn by done. split; [done|].
  intros m Hm. rewrite <-(take_drop_app l k) by lia. by apply Hmin.
Qed.

Lemma first_end_unique l n m : first_end l n → first_end l m → n = m.
Proof.
  intros [Hn Hnmin] [Hm Hmmin]. destruct (Nat.lt_trichotomy n m) as [Hlt|[?|Hlt]]; [|done|].
  - by destruct (Hmmin n Hlt).
  - by destruct (Hnmin m Hlt).
Qed.

Lemma first_end_split l n : first_end l n → l = take n l ++ END_OF_HEAD ++ drop (n + 4) l.
Proof. intros [Hn _]. by rewrite <-Hn, <-drop_drop, take_drop, take_drop. Qed.

Lemma read_head_eq reads buffer :
  read_head reads buffer =
    match find_end buffer 0 with
    | Some end_ => Some (take end_ buffer, drop (end_ + 4) buffer, reads)
    | None =>
        if Nat.ltb MAX_HEAD (length buffer) then None
        else match reads with
             | [] | [] :: _ => None
             | chunk :: reads => read_head reads (buffer ++ chunk)
             end
    end.
Proof. by destruct reads. Qed.
#[local] Opaque MAX_HEAD.

(** What a read head is: the bytes before the first end. *)
Lemma read_head_sound reads buffer hd rest left_ :
  read_head reads buffer = Some (hd, rest, left_) →
  first_end (buffer ++ concat reads) (length hd) ∧
  buffer ++ concat reads = hd ++ END_OF_HEAD ++ rest ++ concat left_ ∧
  (first_end buffer (length hd) ∨ ∃ c chunk, (c :: chunk) ∈ reads ∧ length hd + 4 ≤ MAX_HEAD + length (c :: chunk)).
Proof.
  revert buffer. induction reads as [|chunk reads IH]; intros buffer; rewrite read_head_eq;
    destruct (find_end buffer 0) as [n|] eqn:E.
  1, 3: intros [= <- <- <-]; apply find_end_spec in E as (k & -> & Hk); simpl in *;
    pose proof (first_end_length _ _ Hk); rewrite length_take, Nat.min_l by lia; split_and!;
    [by apply first_end_app| |by left]; rewrite (first_end_split _ _ Hk) at 1; by rewrite <-!(assoc_L (++)).
  - by destruct (Nat.ltb _ _).
  - destruct (Nat.ltb_spec MAX_HEAD (length buffer)) as [|Hb]; [done|].
    destruct chunk as [|c chunk]; [done|]. intros Hr. apply IH in Hr as (Hf & Heq & Hbound).
    cbn [concat]. rewrite !(assoc_L (++)) in *. split_and!; [done..|]. right.
    destruct Hbound as [Hend|(c' & chunk' & Hin & Hlen)]; [|exists c', chunk'; split; [by right|done]].
    exists c, chunk. split; [by left|]. apply first_end_length in Hend. rewrite length_app in Hend. lia.
Qed.

(** A head that fits is read. *)
Lemma read_head_complete reads buffer n :
  first_end (buffer ++ concat reads) n → n + 4 ≤ S MAX_HEAD → Forall (λ chunk, chunk ≠ []) reads →
  ∃ rest left_, read_head reads buffer = Some (take n (buffer ++ concat reads), rest, left_).
Proof.
  intros Hn Hfit Hreads. revert buffer Hn.
  induction Hreads as [|chunk reads Hc Hreads IH]; intros buffer Hn; rewrite read_head_eq;
    destruct (find_end buffer 0) as [m|] eqn:E.
  1, 3: apply find_end_spec in E as (k & -> & Hk); simpl in *;
    pose proof (first_end_unique _ _ _ Hn (first_end_app _ _ _ Hk)) as ->; do 2 eexists; do 3 f_equal;
    symmetry; apply take_app_le; apply first_end_length in Hk; lia.
  - simpl in Hn. rewrite app_nil_r in Hn. by destruct (proj1 (find_end_none _ _) E n).
  - destruct (Nat.ltb_spec MAX_HEAD (length buffer)).
    { destruct (proj1 (find_end_none _ _) E n). eapply first_end_app_inv; [exact Hn|lia]. }
    destruct chunk as [|c chunk]; [done|]. cbn [concat] in *. rewrite (assoc_L (++)) in *. by apply IH.
Qed.

(** However the bytes of a connection arrive, [read_head] splits them at the
    first empty line: what it returns as the head is what precedes it, nothing is
    lost of what follows, and the head is no larger than the limit and one read;
    and a head within the limit is always found. *)
Theorem head_framing reads :
  Forall (λ chunk, 0 < length chunk ≤ 4096) reads →
  (∀ hd rest left_, read_head reads [] = Some (hd, rest, left_) →
     first_end (concat reads) (length hd) ∧ concat reads = hd ++ END_OF_HEAD ++ rest ++ concat left_ ∧
     length hd + 4 ≤ MAX_HEAD + 4096) ∧
  (∀ hd tail, concat reads = hd ++ END_OF_HEAD ++ tail → first_end (concat reads) (length hd) →
     length hd + 4 ≤ MAX_HEAD + 1 →
     ∃ rest left_, read_head reads [] = Some (hd, rest, left_) ∧ tail = rest ++ concat left_).
Proof.
  intros Hreads. split.
  - intros hd rest left_ (Hf & Heq & Hb)%read_head_sound. split_and!; [done..|].
    destruct Hb as [Hb|(c & chunk & Hin & Hb)]; [apply first_end_length in Hb; simpl in Hb; lia|].
    rewrite Forall_forall in Hreads. apply Hreads in Hin. lia.
  - intros hd tail Heq Hf Hlen.
    destruct (read_head_complete reads [] (length hd)) as (rest & left_ & Hr); [done|lia| |].
    { eapply Forall_impl; [exact Hreads|]. intros [|? ?]; simpl; [lia|done]. }
    cbn [app] in Hr. rewrite Heq, take_app_length in Hr. exists rest, left_. split; [done|].
    apply read_head_sound in Hr as (_ & Hr & _). cbn [app] in Hr. rewrite Heq in Hr.
    by apply (inj (app hd)), (inj (app END_OF_HEAD)) in Hr.
Qed.

(** A line is passed over when another follows it, and ends the head when an
    empty one does. *)
Lemma find_end_line line next i :
  one_line line = true →
  find_end (bytes line ++ CRLF ++ next) i =
    if bool_decide (take 2 next = CRLF) then Some (i + length (bytes line))
    else find_end next (i + length (bytes line) + 2).
Proof.
  revert i. induction line as [|c line IH]; intros i Hl.
  - change (bytes "" ++ CRLF ++ next) with (13%N :: 10%N :: next). rewrite find_end_step.
    assert (take 4 (13%N :: 10%N :: next) = END_OF_HEAD ↔ take 2 next = CRLF) as Hiff.
    { change (13%N :: 10%N :: take 2 next = 13%N :: 10%N :: CRLF ↔ take 2 next = CRLF). split; [by intros [= ?]|by intros ->]. }
    rewrite (bool_decide_ext _ _ Hiff). case_bool_decide; [f_equal; simpl; lia|].
    rewrite find_end_step, bool_decide_false by done. f_equal. simpl. lia.
  - cbn [one_line] in Hl. apply andb_true_iff in Hl as [Hc Hl].
    change (bytes (String c line) ++ CRLF ++ next) with (byte_of c :: (bytes line ++ CRLF ++ next)).
    rewrite find_end_step, bool_decide_false.
    + rewrite (IH _ Hl). change (length (bytes (String c line))) with (S (length (bytes line))).
      case_bool_decide; f_equal; lia.
    + intros Heq. destruct line as [|d line].
      { by change (byte_of c :: 13%N :: 10%N :: take 1 next = END_OF_HEAD) in Heq. }
      change (byte_of c :: byte_of d :: take 2 (bytes line ++ CRLF ++ next) = END_OF_HEAD) in Heq.
      injection Heq as Hcr Hlf _.
      assert (c = CR) as -> by by rewrite <-(ascii_of_byte c), Hcr.
      assert (d = LF) as -> by by rewrite <-(ascii_of_byte d), Hlf. done.
Qed.

Lemma line_start line next :
  one_line line = true → is_empty line = false → take 2 (bytes line ++ 13%N :: next) ≠ CRLF.
Proof.
  destruct line as [|c [|d line]]; intros Hl He Heq; [done|by injection Heq|].
  change ([byte_of c; byte_of d] = CRLF) in Heq. injection Heq as Hcr Hlf.
  assert (c = CR) as -> by by rewrite <-(ascii_of_byte c), Hcr.
  assert (d = LF) as -> by by rewrite <-(ascii_of_byte d), Hlf. done.
Qed.

Lemma find_end_lines lines last next i :
  Forall (λ line, one_line line = true ∧ is_empty line = false) lines →
  one_line last = true → is_empty last = false →
  find_end (bytes (text_of lines +:+ last) ++ END_OF_HEAD ++ next) i =
  Some (i + length (bytes (text_of lines +:+ last))).
Proof.
  intros Hlines Hlast Hne. revert i. induction Hlines as [|line lines [Hl Hle] Hlines IH]; intros i.
  { change (text_of [] +:+ last) with last. change (END_OF_HEAD ++ next) with (CRLF ++ CRLF ++ next).
    by rewrite find_end_line. }
  change (text_of (line :: lines) +:+ last) with ((line +:+ crlf +:+ text_of lines) +:+ last).
  rewrite <-!app_assoc_str, !bytes_app. change (bytes crlf) with CRLF. rewrite <-!(assoc_L (++)).
  rewrite find_end_line by done. rewrite <-bytes_app in *. rewrite bool_decide_false.
  - rewrite (assoc_L (++)), <-bytes_app, IH, !length_app. f_equal. simpl. lia.
  - destruct Hlines as [|l lines [Hl' Hle'] _]; [by apply (line_start last)|].
    change (text_of (l :: lines)) with (l +:+ String CR (String LF (text_of lines))).
    rewrite bytes_app, <-(assoc_L (++)). by apply line_start.
Qed.

(** ** Credentials *)

(** The names and values of the headers a gateway may be told to add. *)
Definition header_name (s : string) : bool :=
  negb (is_empty s) && all_bytes (λ b, is_ascii_alphanumeric b || N.eqb b 45) s.
Definition header_value (s : string) : bool := negb (any_byte (λ b, N.eqb b 13 || N.eqb b 10) s).

Lemma no_cr_one_line s : no_byte CR s → one_line s = true.
Proof. induction s as [|c s IH]; [done|]. intros [Hc Hs]%no_byte_cons. apply one_line_cons; auto. Qed.

Lemma header_name_field s : header_name s = true → field_name s.
Proof.
  unfold header_name. intros [He%negb_true_iff Hs]%andb_true_iff.
  assert (∀ b, is_ascii_alphanumeric b || N.eqb b 45 = true → N.ltb b 128 = true ∧ is_whitespace b = false ∧
    N.eqb 58 b = false ∧ N.eqb 13 b = false) as Hb.
  { intros b. unfold is_ascii_alphanumeric, is_ascii_digit, is_ascii_lowercase, is_ascii_uppercase, is_whitespace, in_range.
    intros Hb. repeat rewrite ?orb_true_iff, ?andb_true_iff, ?N.leb_le, ?N.eqb_eq in Hb.
    rewrite ?orb_false_iff, ?andb_false_iff, N.ltb_lt, ?N.leb_gt, ?N.eqb_neq. lia. }
  assert (all_bytes (λ b, N.ltb b 128) s = true) as Hascii by (eapply all_bytes_impl; [|exact Hs]; naive_solver).
  split; [done| | |by apply is_utf8_ascii|].
  - unfold any_char. rewrite (chars_ascii s Hascii). eapply (any_byte_none _ is_whitespace s); [|exact Hs]. naive_solver.
  - eapply any_byte_none; [|exact Hs]. naive_solver.
  - apply no_cr_one_line. eapply any_byte_none; [|exact Hs]. naive_solver.
Qed.

Lemma header_value_field s : is_utf8 s → header_value s = true → field_value s.
Proof.
  intros Hu Hs. split; [done|]. apply no_cr_one_line. apply negb_true_iff in Hs.
  unfold any_byte in *. rewrite <-not_true_iff_false, existsb_exists in *. intros (b & Hin & Hb).
  apply Hs. exists b. split; [done|]. apply N.eqb_eq in Hb as <-. done.
Qed.

(** The values of a header. *)
Definition values (h : Head) (name : string) : list string :=
  snd <$> filter (λ field, eq_ignore_ascii_case (fst field) name = true) (headers h).

Lemma eq_ignore_sym s t : eq_ignore_ascii_case s t = eq_ignore_ascii_case t s.
Proof. apply String.eqb_sym. Qed.

Lemma eq_ignore_refl s : eq_ignore_ascii_case s s = true.
Proof. apply String.eqb_refl. Qed.

Lemma filter_kept_none (P : string * string → Prop) `{∀ field, Decision (P field)} fields remove :
  (∀ field, P field → kept remove (fst field) = false) →
  filter P (filter (λ field, kept remove (fst field) = true) fields) = [].
Proof.
  intros Hp. apply filter_nil. intros field [Hk _]%list_elem_of_filter Hpn. rewrite (Hp _ Hpn) in Hk. done.
Qed.

(** What an upstream reads of a forwarded request. *)
Lemma forwarded_read h to remove add body :
  HeadWf h → token to → (∀ field, add = Some field → field_name (fst field) ∧ field_value (snd field)) →
  ∃ hd, read_head [forwarded h to remove add ++ body] [] = Some (hd, body, []) ∧
    parse_head hd = Some (forwarded_head h to remove add).
Proof.
  intros Hwf Hto Hadd. eexists. split; [|by apply parse_forwarded].
  rewrite forwarded_text, <-(assoc_L (++)). set (hd := bytes _).
  assert (find_end (hd ++ END_OF_HEAD ++ body) 0 = Some (length hd)) as Hend.
  { apply find_end_lines; [|done..]. eapply Forall_impl; [by apply forwarded_lines_ok|]. naive_solver. }
  rewrite read_head_eq. cbn [find_end take]. rewrite bool_decide_false by done.
  change (Nat.ltb MAX_HEAD (length [])) with false. 
  destruct (hd ++ END_OF_HEAD ++ body) as [|c chunk] eqn:E; [by destruct hd|].
  rewrite read_head_eq. cbn [app]. rewrite Hend, <-E, take_app_length.
  by rewrite <-drop_drop, drop_app_length.
Qed.


(** ** Witnesses *)

Definition a_head : string := "GET /v1 HTTP/1.1" +:+ crlf +:+ "Host: api.example.com" +:+ crlf +:+ "X-Api-Key: guess".

Lemma head_framing_witness :
  let reads := [bytes "GET /v1 HT"; bytes ("TP/1.1" +:+ crlf +:+ "Host: a" +:+ String CR ""); [10; 13]%N;
                10%N :: bytes "body"; bytes "more"] in
  ∃ rest left_, read_head reads [] = Some (bytes ("GET /v1 HTTP/1.1" +:+ crlf +:+ "Host: a"), rest, left_) ∧
    bytes "bodymore" = rest ++ concat left_.
Proof.
  intros reads. assert (Forall (λ chunk : list N, 0 < length chunk ≤ 4096) reads) as Hreads
    by (apply (bool_decide_unpack _); vm_compute; exact I).
  destruct (head_framing reads Hreads) as [_ Hfound]. apply Hfound; [vm_compute; reflexivity| |apply Nat.leb_le; vm_compute; reflexivity].
  assert (find_end (concat reads) 0 = Some 25) as Hend by (vm_compute; reflexivity).
  apply find_end_spec in Hend as (k & Hk & Hend). simpl in Hk. subst k. exact Hend.
Defined.

