(* ===== verification/Hello.v ===== *)
(** The server name of a TLS ClientHello, as the egress gateway reads it
    (src/crates/compute-egress/src/lib.rs): [tls_server_name] and its [Reader]. *)

From S2P Require Import Prelude Text Utf8.

Definition MAX_HELLO : nat := 5 + 16 * 1024.

Definition valid_host (host : string) : bool :=
  negb (is_empty host) && N.leb (len host) 253 &&
  all_bytes (λ b, is_ascii_alphanumeric b || one_of ".-" b) host.

(** ** The server name of a TLS ClientHello *)

Inductive Hello : Type :=
| Name (name : string)
| NoName
| NotTls
| Incomplete
| Malformed.

#[export] Instance hello_eq_dec : EqDecision Hello.
Proof. solve_decision. Defined.

(** [Reader] *)
Definition take_bytes (count : nat) (l : list N) : option (list N * list N) :=
  if Nat.ltb (length l) count then None else Some (take count l, drop count l).
Definition read_u8 (l : list N) : option (N * list N) :=
  match l with a :: l => Some (a, l) | _ => None end.
Definition read_u16 (l : list N) : option (N * list N) :=
  match l with a :: b :: l => Some ((256 * a + b)%N, l) | _ => None end.
Definition read_u24 (l : list N) : option (N * list N) :=
  match l with a :: b :: c :: l => Some ((65536 * a + 256 * b + c)%N, l) | _ => None end.

(** Entries of a server-name list; an iteration consumes three bytes. *)
Fixpoint server_names (fuel : nat) (l : list N) : option Hello :=
  match fuel, l with
  | S fuel, _ :: _ =>
      '(name_type, l) ← read_u8 l; '(length, l) ← read_u16 l; '(name, l) ← take_bytes (N.to_nat length) l;
      if N.eqb name_type 0 then
        name ← from_utf8 name;
        if valid_host (to_ascii_lowercase name) then Some (Name (to_ascii_lowercase name)) else None
      else server_names fuel l
  | _, _ => None
  end.

(** Extensions; an iteration consumes four bytes. *)
Fixpoint extensions (fuel : nat) (l : list N) : option Hello :=
  match fuel, l with
  | S fuel, _ :: _ =>
      '(kind, l) ← read_u16 l; '(length, l) ← read_u16 l; '(body, l) ← take_bytes (N.to_nat length) l;
      if N.eqb kind 0 then
        '(length, body) ← read_u16 body; '(names, _) ← take_bytes (N.to_nat length) body;
        server_names (S (List.length names)) names
      else extensions fuel l
  | _, _ => Some NoName
  end.

Definition client_hello (l : list N) : option Hello :=
  '(kind, l) ← read_u8 l;
  if negb (N.eqb kind 1) then None
  else
    '(length, l) ← read_u24 l; '(l, _) ← take_bytes (N.to_nat length) l;
    '(_, l) ← take_bytes (2 + 32) l;
    '(session, l) ← read_u8 l; '(_, l) ← take_bytes (N.to_nat session) l;
    '(suites, l) ← read_u16 l; '(_, l) ← take_bytes (N.to_nat suites) l;
    '(compression, l) ← read_u8 l; '(_, l) ← take_bytes (N.to_nat compression) l;
    match l with
    | [] => Some NoName
    | _ =>
        '(length, l) ← read_u16 l; '(l, _) ← take_bytes (N.to_nat length) l;
        extensions (S (List.length l)) l
    end.

(** [tls_server_name] *)
Definition tls_server_name (input : list N) : Hello :=
  match input with
  | [] => Incomplete
  | first :: _ =>
      if negb (N.eqb first 22) then NotTls
      else match input with
      | _ :: _ :: _ :: high :: low :: rest =>
          let record := N.to_nat (256 * high + low) in
          if Nat.ltb (length input) (5 + record) then Incomplete
          else default Malformed (client_hello (take record rest))
      | _ => Incomplete
      end
  end.

(** ** ClientHellos as clients write them (RFC 8446, section 4.1.2; RFC 6066, section 3) *)

Definition write_u16 (n : nat) : list N := [N.of_nat n / 256; N.of_nat n mod 256]%N.
Definition write_u24 (n : nat) : list N :=
  [N.of_nat n / 65536; (N.of_nat n / 256) mod 256; N.of_nat n mod 256]%N.
(** A vector with its length in two bytes. *)
Definition vector16 (l : list N) : list N := write_u16 (length l) ++ l.

(** An entry of a server-name list, and an extension. *)
Definition write_name (entry : N * list N) : list N := fst entry :: vector16 (snd entry).
Definition write_extension (extension : nat * list N) : list N :=
  write_u16 (fst extension) ++ vector16 (snd extension).
Definition write_names (names : list (N * list N)) : list N := vector16 (concat (write_name <$> names)).

(** Extensions: those before the server name, the server name, those after. *)
Record Extensions : Type := {
  before : list (nat * list N);
  server_name : option (list (N * list N));
  after : list (nat * list N);
}.

Record ClientHello : Type := {
  version_random : list N;
  session_id : list N;
  cipher_suites : list N;
  compression_methods : list N;
  hello_extensions : option Extensions;
}.

Definition write_extensions (e : Extensions) : list N :=
  concat (write_extension <$> before e) ++
  match server_name e with
  | Some names => write_extension (0, write_names names) ++ concat (write_extension <$> after e)
  | None => []
  end.

Definition write_body (c : ClientHello) : list N :=
  version_random c ++ (N.of_nat (length (session_id c)) :: session_id c) ++ vector16 (cipher_suites c) ++
  (N.of_nat (length (compression_methods c)) :: compression_methods c) ++
  match hello_extensions c with Some e => vector16 (write_extensions e) | None => [] end.

Definition write_handshake (c : ClientHello) : list N :=
  1%N :: write_u24 (length (write_body c)) ++ write_body c.

(** A record of a protocol version. *)
Definition write_record (major minor : N) (c : ClientHello) : list N :=
  22%N :: major :: minor :: vector16 (write_handshake c).

(** Lengths and kinds that fit their fields; no server name among the others. *)
Record hello_fits (c : ClientHello) : Prop := {
  fits_random : length (version_random c) = 34;
  fits_session : length (session_id c) < 256;
  fits_compression : length (compression_methods c) < 256;
  fits_record : length (write_handshake c) < 65536;
  fits_before : ∀ e, hello_extensions c = Some e → Forall (λ x, 0 < fst x < 65536) (before e);
}.

(** What a ClientHello says of its server. *)
Definition said_name (name : list N) : Hello :=
  match from_utf8 name with
  | Some name => if valid_host (to_ascii_lowercase name) then Name (to_ascii_lowercase name) else Malformed
  | None => Malformed
  end.

Definition said_server (c : ClientHello) : Hello :=
  match hello_extensions c ≫= server_name with
  | None => NoName
  | Some names =>
      match find (λ entry, N.eqb (fst entry) 0) names with
      | Some (_, name) => said_name name
      | None => Malformed
      end
  end.

(** ** Reading what was written *)

Lemma take_bytes_app l k : take_bytes (length l) (l ++ k) = Some (l, k).
Proof.
  unfold take_bytes. rewrite (proj2 (Nat.ltb_ge _ _)) by (rewrite length_app; lia).
  by rewrite take_app_length, drop_app_length.
Qed.

Lemma read_write_u16 n l : n < 65536 → read_u16 (write_u16 n ++ l) = Some (N.of_nat n, l).
Proof. intros Hn. simpl. do 2 f_equal. pose proof (N.div_mod (N.of_nat n) 256). lia. Qed.

Lemma read_write_u24 n l : read_u24 (write_u24 n ++ l) = Some (N.of_nat n, l).
Proof.
  simpl. do 2 f_equal. pose proof (N.div_mod (N.of_nat n) 256). pose proof (N.div_mod (N.of_nat n / 256) 256).
  replace (N.of_nat n / 65536)%N with (N.of_nat n / 256 / 256)%N by (by rewrite N.Div0.div_div). lia.
Qed.

Lemma read_vector16 {A} (l k : list N) (f : list N * list N → option A) :
  length l < 65536 →
  ('(n, k') ← read_u16 (vector16 l ++ k); take_bytes (N.to_nat n) k' ≫= f) = f (l, k).
Proof.
  intros Hl. unfold vector16. rewrite <-(assoc_L (++)), read_write_u16 by done. simpl.
  by rewrite Nat2N.id, take_bytes_app.
Qed.

Lemma length_concat_in (l : list N) ls : l ∈ ls → length l ≤ length (concat ls).
Proof. induction 1 as [l ls|l l' ls _ IH]; simpl; rewrite length_app; lia. Qed.

Lemma server_names_read names fuel :
  length (concat (write_name <$> names)) < fuel → length (concat (write_name <$> names)) < 65536 →
  default Malformed (server_names fuel (concat (write_name <$> names))) =
  match find (λ entry, N.eqb (fst entry) 0) names with Some (_, name) => said_name name | None => Malformed end.
Proof.
  revert fuel. induction names as [|[kind name] names IH]; intros [|fuel] Hf Hl; [lia|done|lia|].
  change (concat (write_name <$> (kind, name) :: names)) with
    (kind :: vector16 name ++ concat (write_name <$> names)) in *.
  assert (length name < 65536 ∧ length (concat (write_name <$> names)) < 65536 ∧
    length (concat (write_name <$> names)) < fuel) as (Hn & Hns & Hfuel).
  { unfold vector16 in *. cbn [length] in *. rewrite !length_app in *. simpl in *. lia. }
  cbn [server_names read_u8 mbind option_bind]. rewrite read_vector16 by done. cbn [find fst].
  destruct (N.eqb kind 0); [|by apply IH]. unfold said_name.
  destruct (from_utf8 name) as [s|]; [|done]. simpl. by destruct (valid_host _).
Qed.

Lemma extensions_cons fuel kind body l :
  kind < 65536 → length body < 65536 →
  extensions (S fuel) (write_extension (kind, body) ++ l) =
    if N.eqb (N.of_nat kind) 0 then
      '(length, body) ← read_u16 body; '(names, _) ← take_bytes (N.to_nat length) body;
      server_names (S (List.length names)) names
    else extensions fuel l.
Proof.
  intros Hk Hb. unfold write_extension. cbn [fst snd]. rewrite <-(assoc_L (++)).
  transitivity ('(kind, l) ← read_u16 (write_u16 kind ++ vector16 body ++ l); '(length, l) ← read_u16 l;
    '(body, l) ← take_bytes (N.to_nat length) l;
    if N.eqb kind 0 then
      '(length, body) ← read_u16 body; '(names, _) ← take_bytes (N.to_nat length) body;
      server_names (S (List.length names)) names
    else extensions fuel l); [done|].
  rewrite read_write_u16 by lia. cbn [mbind option_bind]. by rewrite read_vector16.
Qed.

Lemma extensions_skip xs l fuel :
  Forall (λ x, 0 < fst x < 65536) xs → length (concat (write_extension <$> xs)) < 65536 →
  length (concat (write_extension <$> xs) ++ l) < fuel →
  ∃ fuel', length l < fuel' ∧ extensions fuel (concat (write_extension <$> xs) ++ l) = extensions fuel' l.
Proof.
  intros Hx. revert fuel. induction Hx as [|[kind body] xs Hk Hx IH]; intros fuel Hl Hf; [by exists fuel|].
  change (concat (write_extension <$> (kind, body) :: xs)) with
    (write_extension (kind, body) ++ concat (write_extension <$> xs)) in *.
  rewrite <-(assoc_L (++)) in *. rewrite length_app in Hf, Hl.
  assert (length (write_extension (kind, body)) = 4 + length body) as Hlen by done.
  rewrite Hlen in Hf, Hl. destruct fuel as [|fuel]; [lia|]. rewrite extensions_cons by (simpl in *; lia).
  rewrite (proj2 (N.eqb_neq _ _)) by (simpl in Hk; lia). apply IH; lia.
Qed.

Lemma extensions_read e :
  Forall (λ x, 0 < fst x < 65536) (before e) → length (write_extensions e) < 65536 →
  default Malformed (extensions (S (length (write_extensions e))) (write_extensions e)) =
  match server_name e with
  | None => NoName
  | Some names =>
      match find (λ entry, N.eqb (fst entry) 0) names with Some (_, name) => said_name name | None => Malformed end
  end.
Proof.
  intros Hb Hl. unfold write_extensions in *. set (l := match server_name e with Some _ => _ | None => _ end) in *.
  pose proof Hl as Hl'. rewrite length_app in Hl'.
  destruct (extensions_skip (before e) l (S (length (concat (write_extension <$> before e) ++ l)))
    Hb ltac:(lia) ltac:(lia)) as ([|fuel] & Hfuel & ->); [lia|].
  unfold l in *. clear l. destruct (server_name e) as [names|]; [|done].
  assert (length (write_extension (0, write_names names)) = 6 + length (concat (write_name <$> names))) as Hlen by done.
  rewrite length_app, Hlen in *.
  assert (length (write_names names) = 2 + length (concat (write_name <$> names))) as Hlen' by done.
  rewrite extensions_cons by lia. change (N.eqb (N.of_nat 0) 0) with true. cbv beta iota. unfold write_names.
  rewrite <-(app_nil_r (vector16 _)), read_vector16 by lia. apply server_names_read; lia.
Qed.

Lemma read_vector8 {A} (l k : list N) (f : list N * list N → option A) :
  ('(n, k') ← read_u8 ((N.of_nat (length l) :: l) ++ k); take_bytes (N.to_nat n) k' ≫= f) = f (l, k).
Proof. simpl. by rewrite Nat2N.id, take_bytes_app. Qed.

Lemma write_body_length c :
  length (write_body c) =
  length (version_random c) + (1 + length (session_id c)) + (2 + length (cipher_suites c)) +
  (1 + length (compression_methods c)) +
  match hello_extensions c with Some e => 2 + length (write_extensions e) | None => 0 end.
Proof.
  unfold write_body, vector16. rewrite !length_app. destruct (hello_extensions c); simpl;
    rewrite ?length_app; simpl; lia.
Qed.

Lemma client_hello_read c : hello_fits c → default Malformed (client_hello (write_handshake c)) = said_server c.
Proof.
  intros [Hr _ _ Hl He]. unfold client_hello, write_handshake in *. cbn [read_u8 mbind option_bind].
  change (negb (N.eqb 1 1)) with false. cbv iota. rewrite read_write_u24. cbn [mbind option_bind].
  rewrite Nat2N.id. rewrite <-(app_nil_r (write_body c)) at 2. rewrite take_bytes_app.
  change (4 + length (write_body c) < 65536) in Hl. assert (length (write_body c) < 65536) as Hbody by lia.
  rewrite write_body_length in Hbody. cbn [mbind option_bind]. unfold write_body.
  change (2 + 32) with 34. rewrite <-Hr, take_bytes_app. cbn [mbind option_bind].
  rewrite read_vector8, read_vector16, read_vector8 by lia. unfold said_server.
  destruct (hello_extensions c) as [e|] eqn:E; [|done].
  transitivity (default Malformed ('(length, l) ← read_u16 (vector16 (write_extensions e));
    '(l, _) ← take_bytes (N.to_nat length) l; extensions (S (List.length l)) l)); [done|].
  rewrite <-(app_nil_r (vector16 _)), read_vector16 by lia. apply extensions_read; [by apply He|lia].
Qed.

(** The server name a tunnel is judged by is the one its client wrote: of a
    ClientHello record, however long its other fields and whatever follows it,
    [tls_server_name] reads the first host name of its server-name extension in
    lower case ([Malformed] when that is none or no host, [NoName] when there is no
    such extension); and of every proper prefix of it, that it is not complete. *)
Theorem server_name_read major minor c :
  hello_fits c →
  (∀ more, tls_server_name (write_record major minor c ++ more) = said_server c) ∧
  (∀ n, n < length (write_record major minor c) →
     tls_server_name (take n (write_record major minor c)) = Incomplete).
Proof.
  intros Hc. pose proof (fits_record c Hc) as Hl.
  assert (256 * (N.of_nat (length (write_handshake c)) / 256) + N.of_nat (length (write_handshake c)) mod 256 =
    N.of_nat (length (write_handshake c)))%N as Hdiv
    by (pose proof (N.div_mod (N.of_nat (length (write_handshake c))) 256); lia).
  unfold write_record, vector16, write_u16. split.
  - intros more. cbn [app tls_server_name]. change (negb (N.eqb 22 22)) with false. cbv iota.
    rewrite Hdiv, Nat2N.id. rewrite (proj2 (Nat.ltb_ge _ _)) by (simpl; rewrite length_app; lia).
    rewrite take_app_length. by apply client_hello_read.
  - intros n Hn. destruct n as [|[|[|[|[|n]]]]]; [done..|]. cbn [app take tls_server_name].
    change (negb (N.eqb 22 22)) with false. cbv iota. rewrite Hdiv, Nat2N.id.
    rewrite (proj2 (Nat.ltb_lt _ _)); [done|]. simpl in Hn |- *. rewrite length_take. lia.
Qed.

(** ** Witnesses *)

Definition a_hello : ClientHello :=
  {| version_random := 3%N :: 3%N :: replicate 32 7%N; session_id := replicate 32 1%N;
     cipher_suites := [19; 1; 19; 2]%N; compression_methods := [0%N];
     hello_extensions := Some {| before := [(10, [0; 2; 0; 29]%N)];
       server_name := Some [(0%N, bytes "API.Example.com")]; after := [(43, [2; 3; 4]%N)] |} |}.

Lemma server_name_read_witness :
  tls_server_name (write_record 3 1 a_hello ++ bytes "more") = Name "api.example.com" ∧
  tls_server_name (take 60 (write_record 3 1 a_hello)) = Incomplete.
Proof.
  assert (hello_fits a_hello) as Hc.
  { split; [done|apply Nat.ltb_lt; reflexivity..|]. intros e [= <-].
    constructor; [split; apply Nat.ltb_lt; reflexivity|constructor]. }
  destruct (server_name_read 3 1 a_hello Hc) as [Hall Hprefix]. split.
  - rewrite Hall. reflexivity.
  - apply Hprefix. apply Nat.ltb_lt. reflexivity.
Defined.
