(* ===== verification/Addresses.v ===== *)
(** IP addresses as the egress gateway uses them
    (src/crates/compute-egress/src/lib.rs): their parser and display, written out
    from the standard library's, and which of them are public. *)

From S2P Require Import Prelude Text Utf8.

(** ** IP addresses *)

Inductive IpAddr : Type :=
| V4 (a b c d : N)
| V6 (segments : list N).

#[export] Instance ip_eq_dec : EqDecision IpAddr.
Proof. solve_decision. Defined.

Notation SocketAddr := (IpAddr * N)%type (only parsing).

Definition to_digit (radix : N) (c : ascii) : option N :=
  let b := byte_of c in
  let digit :=
    if is_ascii_digit b then Some (b - 48)%N
    else if in_range 97 102 b then Some (b - 87)%N
    else if in_range 65 70 b then Some (b - 55)%N else None in
  match digit with Some d => if N.ltb d radix then Some d else None | None => None end.

Fixpoint read_digits (radix max acc count : N) (s : string) : option (N * N * string) :=
  match s with
  | EmptyString => Some (acc, count, s)
  | String c rest =>
      match to_digit radix c with
      | Some d => if N.ltb max (count + 1) then None else read_digits radix max (acc * radix + d) (count + 1) rest
      | None => Some (acc, count, s)
      end
  end.

(** [read_number]: at most so many digits, of a value at most [limit]. *)
Definition read_number (radix max : N) (zero_prefix : bool) (limit : N) (s : string) : option (N * string) :=
  match read_digits radix max 0 0 s with
  | Some (value, count, rest) =>
      if N.eqb count 0 then None
      else if negb zero_prefix && starts_with "0" s && N.ltb 1 count then None
      else if N.leb value limit then Some (value, rest) else None
  | None => None
  end.

Definition read_char (c : ascii) (s : string) : option string :=
  match s with String d rest => if Ascii.eqb c d then Some rest else None | EmptyString => None end.

Definition read_separator {A} (c : ascii) (i : nat) (p : string → option (A * string)) (s : string)
    : option (A * string) :=
  match i with O => p s | S _ => read_char c s ≫= p end.

Definition read_ipv4 (s : string) : option (N * N * N * N * string) :=
  let octet i s := read_separator "." i (read_number 10 3 false 255) s in
  '(a, s) ← octet 0 s; '(b, s) ← octet 1 s; '(c, s) ← octet 2 s; '(d, s) ← octet 3 s;
  Some (a, b, c, d, s).

(** Up to so many groups, the last two possibly written as an IPv4 address. *)
Fixpoint read_groups (remaining i : nat) (s : string) : list N * bool * string :=
  match remaining with
  | O => ([], false, s)
  | S left_ =>
      match (match left_ with O => None | S _ => match i with O => read_ipv4 s | S _ => read_char ":" s ≫= read_ipv4 end end) with
      | Some (a, b, c, d, rest) => ([256 * a + b; 256 * c + d]%N, true, rest)
      | None =>
          match read_separator ":" i (read_number 16 4 true 65535) s with
          | Some (g, rest) => let '(gs, v4, rest) := read_groups left_ (S i) rest in (g :: gs, v4, rest)
          | None => ([], false, s)
          end
      end
  end.

Definition read_ipv6 (s : string) : option (list N * string) :=
  let '(head, v4, s) := read_groups 8 0 s in
  if bool_decide (length head = 8) then Some (head, s)
  else if v4 then None
  else
    s ← read_char ":" s; s ← read_char ":" s;
    let '(tail, _, s) := read_groups (8 - (length head + 1)) 0 s in
    Some (head ++ replicate (8 - length head - length tail) 0%N ++ tail, s).

(** [s.parse::<IpAddr>()] *)
Definition parse_ip (s : string) : option IpAddr :=
  match read_ipv4 s with
  | Some (a, b, c, d, rest) => if is_empty rest then Some (V4 a b c d) else None
  | None =>
      match read_ipv6 s with
      | Some (segments, rest) => if is_empty rest then Some (V6 segments) else None
      | None => None
      end
  end.

(** ** Public addresses *)

(** [Ipv4Addr]'s predicates, by octets. *)
Definition is_private_v4 (a b : N) : bool :=
  N.eqb a 10 || (N.eqb a 172 && in_range 16 31 b) || (N.eqb a 192 && N.eqb b 168).
Definition is_documentation_v4 (a b c : N) : bool :=
  (N.eqb a 192 && N.eqb b 0 && N.eqb c 2) || (N.eqb a 198 && N.eqb b 51 && N.eqb c 100)
  || (N.eqb a 203 && N.eqb b 0 && N.eqb c 113).

Definition is_public_v4 (a b c d : N) : bool :=
  negb (is_private_v4 a b
    || N.eqb a 127
    || (N.eqb a 169 && N.eqb b 254)
    || (N.eqb a 0 && N.eqb b 0 && N.eqb c 0 && N.eqb d 0)
    || (N.eqb a 255 && N.eqb b 255 && N.eqb c 255 && N.eqb d 255)
    || is_documentation_v4 a b c
    || in_range 224 239 a
    || N.eqb a 0
    || (N.eqb a 100 && (N.leb 64 b && N.ltb b 128))
    || (N.eqb a 198 && (N.eqb b 18 || N.eqb b 19))
    || N.leb 240 a).

Definition to_ipv4_mapped (segments : list N) : option (N * N * N * N) :=
  match segments with
  | [s0; s1; s2; s3; s4; s5; ab; cd] =>
      if bool_decide ([s0; s1; s2; s3; s4] = [0; 0; 0; 0; 0]%N) && N.eqb s5 65535
      then Some (ab / 256, ab mod 256, cd / 256, cd mod 256)%N else None
  | _ => None
  end.

Definition is_public (address : IpAddr) : bool :=
  match address with
  | V4 a b c d => is_public_v4 a b c d
  | V6 segments =>
      match to_ipv4_mapped segments with
      | Some (a, b, c, d) => is_public_v4 a b c d
      | None =>
          let first := nth 0 segments 0%N in
          negb (bool_decide (segments = [0; 0; 0; 0; 0; 0; 0; 1]%N)
            || bool_decide (segments = [0; 0; 0; 0; 0; 0; 0; 0]%N)
            || N.eqb (N.land first 65280) 65280
            || N.eqb (N.land first 65024) 64512
            || N.eqb (N.land first 65472) 65152
            || (N.eqb first 8193 && N.eqb (nth 1 segments 0%N) 3512))
      end
  end.

(** ** Display of addresses *)

Definition hex_digit (d : N) : string := String (ascii_of_N (if N.ltb d 10 then 48 + d else 87 + d)) "".

(** [{:x}] of a [u16] *)
Definition show_hex (n : N) : string :=
  (if N.leb 4096 n then hex_digit (n / 4096) else "") +:+
  (if N.leb 256 n then hex_digit ((n / 256) mod 16) else "") +:+
  (if N.leb 16 n then hex_digit ((n / 16) mod 16) else "") +:+ hex_digit (n mod 16).

Definition show_ipv4 (a b c d : N) : string :=
  show a +:+ "." +:+ show b +:+ "." +:+ show c +:+ "." +:+ show d.

(** The first longest run of zero segments: where it starts and its length. *)
Fixpoint zero_run (segments : list N) (i current : nat) (best : nat * nat) : nat * nat :=
  match segments with
  | [] => best
  | s :: segments =>
      if N.eqb s 0 then
        let current := S current in
        zero_run segments (S i) current (if Nat.ltb (snd best) current then (S i - current, current) else best)
      else zero_run segments (S i) 0 best
  end.

Definition show_ip (address : IpAddr) : string :=
  match address with
  | V4 a b c d => show_ipv4 a b c d
  | V6 segments =>
      match to_ipv4_mapped segments with
      | Some (a, b, c, d) => "::ffff:" +:+ show_ipv4 a b c d
      | None =>
          let (start, length) := zero_run segments 0 0 (0, 0) in
          let part l := join ":" (show_hex <$> l) in
          if Nat.ltb 1 length then part (take start segments) +:+ "::" +:+ part (drop (start + length) segments)
          else part segments
      end
  end.

(** ** Public addresses as blocks *)

Definition value4 (a b c d : N) : N := (((a * 256 + b) * 256 + c) * 256 + d)%N.
Definition value6 (segments : list N) : N := foldl (λ v s, (v * 65536 + s)%N) 0%N segments.

(** Whether an address of so many bits is in a block, given by its first address
    and the length of its prefix. *)
Definition in_block (bits value : N) (block : N * N) : bool :=
  N.eqb (N.shiftr value (bits - snd block)) (N.shiftr (fst block) (bits - snd block)).

(** The blocks the public internet does not route to, as the gateway counts them. *)
Definition SPECIAL_V4 : list (N * N) :=
  [(value4 0 0 0 0, 8); (value4 10 0 0 0, 8); (value4 100 64 0 0, 10); (value4 127 0 0 0, 8);
   (value4 169 254 0 0, 16); (value4 172 16 0 0, 12); (value4 192 0 2 0, 24); (value4 192 168 0 0, 16);
   (value4 198 18 0 0, 15); (value4 198 51 100 0, 24); (value4 203 0 113 0, 24); (value4 224 0 0 0, 4);
   (value4 240 0 0 0, 4)]%N.
Definition MAPPED : N * N := (value6 [0; 0; 0; 0; 0; 65535; 0; 0], 96)%N.
Definition SPECIAL_V6 : list (N * N) :=
  [(value6 [0; 0; 0; 0; 0; 0; 0; 0], 128); (value6 [0; 0; 0; 0; 0; 0; 0; 1], 128);
   (value6 [64512; 0; 0; 0; 0; 0; 0; 0], 7); (value6 [65152; 0; 0; 0; 0; 0; 0; 0], 10);
   (value6 [65280; 0; 0; 0; 0; 0; 0; 0], 8); (value6 [8193; 3512; 0; 0; 0; 0; 0; 0], 32)]%N.

(** An address is special when a block holds it; one that maps an IPv4 address,
    when that is. *)
Definition special (address : IpAddr) : bool :=
  match address with
  | V4 a b c d => existsb (in_block 32 (value4 a b c d)) SPECIAL_V4
  | V6 segments =>
      let v := value6 segments in
      if in_block 128 v MAPPED then existsb (in_block 32 (v mod 2 ^ 32)) SPECIAL_V4
      else existsb (in_block 128 v) SPECIAL_V6
  end.

Definition well_formed (address : IpAddr) : Prop :=
  match address with
  | V4 a b c d => Forall (λ octet, (octet < 256)%N) [a; b; c; d]
  | V6 segments => length segments = 8 ∧ Forall (λ s, (s < 65536)%N) segments
  end.

(** Finds the case of a disjunction that arithmetic proves. *)
Ltac pick_case :=
  lazymatch goal with |- _ ∨ _ => first [left; pick_case | right; pick_case] | |- _ => solve [lia] end.

Lemma public_v4 a b c d :
  Forall (λ octet, (octet < 256)%N) [a; b; c; d] →
  is_public_v4 a b c d = negb (existsb (in_block 32 (value4 a b c d)) SPECIAL_V4).
Proof.
  rewrite !Forall_cons. intros (Ha & Hb & Hc & Hd & _).
  assert (value4 a b c d / 2 ^ 24 = a ∧ value4 a b c d / 2 ^ 22 = 4 * a + b / 64 ∧
    value4 a b c d / 2 ^ 16 = 256 * a + b ∧ value4 a b c d / 2 ^ 20 = 16 * a + b / 16 ∧
    value4 a b c d / 2 ^ 8 = 65536 * a + 256 * b + c ∧ value4 a b c d / 2 ^ 17 = 128 * a + b / 2 ∧
    value4 a b c d / 2 ^ 28 = a / 16)%N as (H24 & H22 & H16 & H20 & H8 & H17 & H28).
  { unfold value4. cbn [N.pow Pos.pow Pos.iter Pos.mul]. split_and!; div_lia. }
  unfold is_public_v4. f_equal. apply eq_true_iff_eq.
  unfold SPECIAL_V4. cbn [existsb]. unfold in_block. cbn [fst snd]. rewrite !N.shiftr_div_pow2.
  change (32 - 8)%N with 24%N. change (32 - 10)%N with 22%N. change (32 - 16)%N with 16%N.
  change (32 - 12)%N with 20%N. change (32 - 24)%N with 8%N. change (32 - 15)%N with 17%N.
  change (32 - 4)%N with 28%N. rewrite H24, H22, H16, H20, H8, H17, H28.
  unfold is_private_v4, is_documentation_v4, in_range. cbn [value4].
  repeat rewrite ?orb_true_iff, ?andb_true_iff, ?N.eqb_eq, ?N.leb_le, ?N.ltb_lt.
  repeat match goal with |- context [(value4 ?a ?b ?c ?d / ?n)%N] =>
    let v := eval vm_compute in (value4 a b c d / n)%N in change (value4 a b c d / n)%N with v end.
  pose proof (N.div_mod b 64) as Q64. pose proof (N.mod_lt b 64) as R64. pose proof (N.div_mod b 16) as Q16.
  pose proof (N.mod_lt b 16) as R16. pose proof (N.div_mod b 2) as Q2. pose proof (N.mod_lt b 2) as R2.
  pose proof (N.div_mod a 16) as A16. pose proof (N.mod_lt a 16) as M16.
  generalize dependent (b / 64)%N. generalize dependent (b mod 64)%N. generalize dependent (b / 16)%N.
  generalize dependent (b mod 16)%N. generalize dependent (b / 2)%N. generalize dependent (b mod 2)%N.
  generalize dependent (a / 16)%N. generalize dependent (a mod 16)%N. intros.
  split; intros Hcase; repeat match type of Hcase with _ ∨ _ => destruct Hcase as [Hcase|Hcase] end; pick_case.
Qed.

Definition check_masks (x : N) : bool :=
  Bool.eqb (N.eqb (N.land x 65280) 65280) (N.eqb (x / 256) 255) &&
  Bool.eqb (N.eqb (N.land x 65024) 64512) (N.eqb (x / 512) 126) &&
  Bool.eqb (N.eqb (N.land x 65472) 65152) (N.eqb (x / 64) 1018).

Lemma segment_masks x :
  (x < 65536)%N →
  N.eqb (N.land x 65280) 65280 = N.eqb (x / 256) 255 ∧ N.eqb (N.land x 65024) 64512 = N.eqb (x / 512) 126 ∧
  N.eqb (N.land x 65472) 65152 = N.eqb (x / 64) 1018.
Proof.
  intros Hx. set (octets := N.of_nat <$> seq 0 256).
  assert (forallb (λ h, forallb (λ l, check_masks (256 * h + l)) octets) octets = true) as Hall
    by (vm_compute; reflexivity).
  assert (∀ n, (n < 256)%N → In n octets) as Hin.
  { intros n Hn. apply list_elem_of_In, list_elem_of_fmap. exists (N.to_nat n). rewrite N2Nat.id.
    split; [done|]. apply elem_of_seq. lia. }
  rewrite forallb_forall in Hall. specialize (Hall _ (Hin (x / 256)%N ltac:(div_lia))).
  rewrite forallb_forall in Hall. specialize (Hall _ (Hin (x mod 256)%N ltac:(div_lia))).
  rewrite <-N.div_mod in Hall by done. unfold check_masks in Hall.
  rewrite !andb_true_iff, !Bool.eqb_true_iff in Hall. naive_solver.
Qed.

Lemma value6_blocks s0 s1 s2 s3 s4 s5 s6 s7 :
  Forall (λ s, (s < 65536)%N) [s0; s1; s2; s3; s4; s5; s6; s7] →
  let v := value6 [s0; s1; s2; s3; s4; s5; s6; s7] in
  (v / 2 ^ 120 = s0 / 256 ∧ v / 2 ^ 121 = s0 / 512 ∧ v / 2 ^ 118 = s0 / 64 ∧ v / 2 ^ 96 = 65536 * s0 + s1 ∧
   v / 2 ^ 32 = value6 [s0; s1; s2; s3; s4; s5] ∧ v mod 2 ^ 32 = 65536 * s6 + s7)%N.
Proof.
  rewrite !Forall_cons. intros (H0 & H1 & H2 & H3 & H4 & H5 & H6 & H7 & _) v. unfold v, value6. cbn [foldl].
  cbn [N.pow Pos.pow Pos.iter Pos.mul]. split_and!; div_lia.
Qed.

Section Segments.
  Context (s0 s1 s2 s3 s4 s5 s6 s7 : N).
  Hypothesis Hseg : Forall (λ s, (s < 65536)%N) [s0; s1; s2; s3; s4; s5; s6; s7].
  Notation segments := [s0; s1; s2; s3; s4; s5; s6; s7].

Lemma list_eq_bool (l k : list N) b : (l = k ↔ b = true) → bool_decide (l = k) = b.
Proof using. intros Hb. apply eq_true_iff_eq. by rewrite bool_decide_eq_true. Qed.

Lemma mapped_block :
  in_block 128 (value6 segments) MAPPED =
  bool_decide ([s0; s1; s2; s3; s4] = [0; 0; 0; 0; 0]%N) && N.eqb s5 65535.
Proof using Hseg.
  destruct (value6_blocks _ _ _ _ _ _ _ _ Hseg) as (_ & _ & _ & _ & H32 & _).
  rewrite !Forall_cons in Hseg. unfold in_block, MAPPED. cbn [fst snd]. rewrite !N.shiftr_div_pow2.
  change (128 - 96)%N with 32%N. rewrite H32. change (value6 [0; 0; 0; 0; 0; 65535; 0; 0] / 2 ^ 32)%N with 65535%N.
  apply eq_true_iff_eq. rewrite andb_true_iff, bool_decide_eq_true, !N.eqb_eq. unfold value6. cbn [foldl]. split.
  - intros Hv. assert (s0 = 0 ∧ s1 = 0 ∧ s2 = 0 ∧ s3 = 0 ∧ s4 = 0 ∧ s5 = 65535)%N as (-> & -> & -> & -> & -> & ->) by lia.
    done.
  - intros [[= -> -> -> -> ->] ->]. lia.
Qed.

Lemma special_v6_blocks :
  existsb (in_block 128 (value6 segments)) SPECIAL_V6 =
  bool_decide (segments = [0; 0; 0; 0; 0; 0; 0; 0]%N) || (bool_decide (segments = [0; 0; 0; 0; 0; 0; 0; 1]%N)
  || (N.eqb (s0 / 512) 126 || (N.eqb (s0 / 64) 1018 || (N.eqb (s0 / 256) 255 ||
      (N.eqb s0 8193 && N.eqb s1 3512 || false))))).
Proof using Hseg.
  destruct (value6_blocks _ _ _ _ _ _ _ _ Hseg) as (H120 & H121 & H118 & H96 & _).
  rewrite !Forall_cons in Hseg. unfold SPECIAL_V6. cbn [existsb]. unfold in_block. cbn [fst snd].
  rewrite !N.shiftr_div_pow2. change (128 - 128)%N with 0%N. change (128 - 7)%N with 121%N.
  change (128 - 10)%N with 118%N. change (128 - 8)%N with 120%N. change (128 - 32)%N with 96%N.
  rewrite H120, H121, H118, H96. change (2 ^ 0)%N with 1%N. rewrite !N.div_1_r.
  f_equal; [|f_equal; [|f_equal; f_equal; f_equal; f_equal]].
  - symmetry. apply list_eq_bool. rewrite N.eqb_eq. unfold value6. cbn [foldl]. split; [by intros [= -> -> -> -> -> -> -> ->]|].
    intros Hv. repeat f_equal; lia.
  - symmetry. apply list_eq_bool. rewrite N.eqb_eq. unfold value6. cbn [foldl]. split; [by intros [= -> -> -> -> -> -> -> ->]|].
    intros Hv. repeat f_equal; lia.
  - change (value6 [8193; 3512; 0; 0; 0; 0; 0; 0] / 2 ^ 96)%N with (65536 * 8193 + 3512)%N.
    apply eq_true_iff_eq. rewrite andb_true_iff, !N.eqb_eq. lia.
Qed.
End Segments.

(** An address is public exactly when no special-purpose block holds it:
    [is_public], a list of tests on octets and segments, is membership in the CIDR
    blocks it stands for, IPv4 addresses mapped into IPv6 judged as IPv4. *)
Theorem public_exact address : well_formed address → is_public address = negb (special address).
Proof.
  destruct address as [a b c d|segments]; [apply public_v4|]. intros [Hlen Hseg].
  do 8 (destruct segments as [|? segments]; [done|]). destruct segments; [|done].
  unfold special. cbv zeta. rewrite mapped_block by done. unfold is_public, to_ipv4_mapped.
  destruct (value6_blocks _ _ _ _ _ _ _ _ Hseg) as (_ & _ & _ & _ & _ & Hmod). rewrite special_v6_blocks by done.
  rewrite !Forall_cons in Hseg. destruct (_ && _).
  - rewrite Hmod, public_v4 by (repeat constructor; div_lia). do 3 f_equal. unfold value4. div_lia.
  - destruct (segment_masks n ltac:(lia)) as (H8 & H9 & H10). cbn [nth]. rewrite H8, H9, H10. f_equal.
    destruct (bool_decide _), (bool_decide _), (N.eqb (n / 512) 126), (N.eqb (n / 64) 1018), (N.eqb (n / 256) 255),
      (N.eqb n 8193), (N.eqb n0 3512); reflexivity.
Qed.

Lemma public_exact_witness :
  is_public (V4 100 64 0 1) = false ∧ is_public (V6 [0; 0; 0; 0; 0; 65535; 32512; 1]%N) = false ∧
  is_public (V6 [9734; 18176; 0; 0; 0; 0; 0; 4369]%N) = true.
Proof.
  rewrite !public_exact by (simpl; repeat constructor). split_and!; vm_compute; reflexivity.
Defined.

(** An IPv4 address in the deprecated form without a prefix, here 127.0.0.1, is in
    no block that is special, and so public. *)
Example compatible_is_public : parse_ip "::127.0.0.1" = Some (V6 [0; 0; 0; 0; 0; 0; 32512; 1]%N) ∧
  is_public (V6 [0; 0; 0; 0; 0; 0; 32512; 1]%N) = true.
Proof. by vm_compute. Qed.
