(* ===== verification/Egress.v ===== *)
(** The egress gateway (src/crates/compute-egress/src/lib.rs): the one way out of
    a session that may reach the network.  It admits destinations by rules,
    resolves and pins them, checks what a tunnel is for by the server name of its
    TLS handshake, and adds credentials to requests for bound hosts so that they
    never enter the session.

    A connection is a function from what the gateway meets (the bytes the session
    sends, as they are read; answers of name resolution; whether upstreams answer
    and prove who they are) to the effects it has in order.  TLS itself and
    certificates are outside, and writes succeed: one that fails ends a connection
    after what it did until then. *)

From S2P Require Import Prelude Text Utf8 Heads Hello Addresses.

(** ** Rules *)

Record HostRule : Type := {
  rule_host : string;
  rule_ports : list N;
}.

(** [str::strip_suffix] *)
Definition strip_suffix (suffix s : string) : option string :=
  of_bytes ∘ reverse ∘ bytes <$> strip_prefix (of_bytes (reverse (bytes suffix))) (of_bytes (reverse (bytes s))).

Definition ends_with (suffix s : string) : bool := bool_decide (is_Some (strip_suffix suffix s)).

(** [HostRule::matches] *)
Definition rule_matches (rule : HostRule) (host : string) (port : N) : bool :=
  let ports_match :=
    if bool_decide (rule_ports rule = []) then N.eqb port 443 else bool_decide (port ∈ rule_ports rule) in
  let pattern := to_ascii_lowercase (rule_host rule) in
  let host_match :=
    match strip_prefix "*." pattern with
    | Some suffix =>
        match strip_suffix suffix host with
        | Some label => N.ltb 1 (len label) && ends_with "." label
        | None => false
        end
    | None => String.eqb host pattern
    end in
  ports_match && host_match.

Record EgressPolicy : Type := {
  allow : list HostRule;
  allow_private : bool;
}.

Record CredentialBinding : Type := {
  bind_host : string;
  bind_header : string;
  bind_value : string;
}.

Record GatewayConfig : Type := {
  config_policy : EgressPolicy;
  config_bindings : list CredentialBinding;
  config_resolve : gmap string (list SocketAddr);
}.

(** The gateway's state, its keys and certificates apart. *)
Record Gateway : Type := {
  gw_policy : EgressPolicy;
  gw_bindings : gmap string CredentialBinding;
  gw_resolve : gmap string (list SocketAddr);
}.

Definition allows (policy : EgressPolicy) (host : string) (port : N) : bool :=
  existsb (λ rule, rule_matches rule host port) (allow policy).

Definition strip_wildcard (host : string) : string := default host (strip_prefix "*." host).

Fixpoint check_rules (rules : list HostRule) : Result unit string :=
  match rules with
  | [] => Ok tt
  | rule :: rules =>
      let host := strip_wildcard (rule_host rule) in
      reject_if (negb (valid_host host) && bool_decide (parse_ip host = None))
        ("unsupported host rule " +:+ debug_str (rule_host rule)) ;?;
      check_rules rules
  end.

Fixpoint collect_bindings (policy : EgressPolicy) (bindings : list CredentialBinding)
    (collected : gmap string CredentialBinding) : Result (gmap string CredentialBinding) string :=
  match bindings with
  | [] => Ok collected
  | binding :: bindings =>
      let host := to_ascii_lowercase (bind_host binding) in
      reject_if (negb (valid_host host) || bool_decide (is_Some (parse_ip host)))
        ("a credential is bound to a host name, not " +:+ debug_str (bind_host binding)) ;?;
      reject_if (is_empty (bind_header binding)
          || negb (all_bytes (λ b, is_ascii_alphanumeric b || N.eqb b 45) (bind_header binding))
          || any_byte (λ b, N.eqb b 13 || N.eqb b 10) (bind_value binding))
        ("invalid credential binding for " +:+ host) ;?;
      reject_if (negb (allows policy host 443))
        ("a credential is bound to " +:+ host +:+ ", which the policy does not allow on 443") ;?;
      reject_if (bool_decide (is_Some (collected !! host))) (host +:+ " has two credential bindings") ;?;
      collect_bindings policy bindings (<[host := binding]> collected)
  end.

(** The fixed answers by lower-case name; of names that differ in case only, the
    last in order stays. *)
Definition lower_keys (resolve : gmap string (list SocketAddr)) : gmap string (list SocketAddr) :=
  foldl (λ m entry, <[to_ascii_lowercase (fst entry) := snd entry]> m) ∅
    (sort_by (λ l r, cmp (fst l) (fst r)) (map_to_list resolve)).

(** [Gateway::start], up to its keys and its listener. *)
Definition start (config : GatewayConfig) : Result Gateway string :=
  check_rules (allow (config_policy config)) ;?;
  let? bindings := collect_bindings (config_policy config) (config_bindings config) ∅ in
  Ok {| gw_policy := config_policy config; gw_bindings := bindings;
        gw_resolve := lower_keys (config_resolve config) |}.

(** ** Destinations *)

Fixpoint trim_start_char (c : ascii) (s : string) : string :=
  match s with String d rest => if Ascii.eqb c d then trim_start_char c rest else s | EmptyString => "" end.

Definition trim_end_char (c : ascii) (s : string) : string :=
  of_bytes (reverse (bytes (trim_start_char c (of_bytes (reverse (bytes s)))))).

Definition parse_u16 (s : string) : option N := n ← parse_u64 s; if N.leb n 65535 then Some n else None.

Definition split_authority (authority : string) (default_port : N) : option (string * N) :=
  '(host, port) ←
    match rsplit_once ":" authority with
    | Some (host, port) =>
        if negb (contains host ":") || starts_with "[" host then pair host <$> parse_u16 port
        else Some (authority, default_port)
    | None => Some (authority, default_port)
    end;
  let host := to_ascii_lowercase (trim_end_char "]" (trim_start_char "[" host)) in
  if valid_host host || bool_decide (is_Some (parse_ip host)) then Some (host, port) else None.

(** [State::admit], with what name resolution answers. *)
Definition state_admit (gw : Gateway) (lookup : string → N → Result (list SocketAddr) string) (host : string)
    (port : N) : Result SocketAddr string :=
  reject_if (negb (allows (gw_policy gw) host port)) (host +:+ ":" +:+ show port +:+ " is not allowed") ;?;
  let? addresses :=
    match gw_resolve gw !! host with
    | Some fixed => Ok fixed
    | None =>
        match parse_ip host with
        | Some address => Ok [(address, port)]
        | None => map_err (λ error, host +:+ " does not resolve: " +:+ error) (lookup host port)
        end
    end in
  match addresses with
  | [] => Err (host +:+ " does not resolve")
  | first :: _ =>
      match find (λ address : SocketAddr, negb (allow_private (gw_policy gw)) && negb (is_public (fst address)))
        addresses with
      | Some address => Err (host +:+ " resolves to " +:+ show_ip (fst address) +:+ ", which is not a public address")
      | None => Ok first
      end
  end.

(** ** Connections *)

Record Decision_ : Type := {
  dec_host : string;
  dec_port : N;
  dec_allowed : bool;
  dec_brokered : bool;
  dec_reason : string;
}.

(** What a connection does, in order. *)
Inductive Effect : Type :=
| Recorded (decision : Decision_)
| Refused (status reason : string)
| Connected (address : SocketAddr)
| Established
(** bytes written to the upstream in the clear, or over TLS verified for a host *)
| SentClear (address : SocketAddr) (bytes : list N)
| SentTls (host : string) (address : SocketAddr) (bytes : list N)
(** [copy_bidirectional] *)
| Piped (address : SocketAddr).

(** What a connection meets. *)
Record World : Type := {
  client_reads : list (list N);
  lookup : string → N → Result (list SocketAddr) string;
  upstream_answers : SocketAddr → bool;
  (** what the session sends inside the TLS the gateway terminates, when its
      handshake succeeds *)
  inner_reads : option (list (list N));
  upstream_verified : string → SocketAddr → bool;
}.

Definition record_decision (host : string) (port : N) (allowed brokered : bool) (reason : string) : Effect :=
  Recorded {| dec_host := host; dec_port := port; dec_allowed := allowed; dec_brokered := brokered;
              dec_reason := reason |}.

(** The first bytes of a tunnel, until they tell what it is for; [None] when the
    session closes it first. *)
Fixpoint read_hello (reads : list (list N)) (first : list N) : option (Hello * list N) :=
  match tls_server_name first with
  | Incomplete =>
      if Nat.ltb (length first) MAX_HELLO then
        match reads with [] | [] :: _ => None | chunk :: reads => read_hello reads (first ++ chunk) end
      else Some (Incomplete, first)
  | other => Some (other, first)
  end.

(** Why a tunnel is refused, if it is. *)
Definition tunnel_refusal (host : string) (port : N) (verdict : Hello) : option string :=
  match verdict with
  | Name name =>
      if eq_ignore_ascii_case name host then None
      else Some ("the TLS server name " +:+ name +:+ " is not " +:+ host +:+ ", the host the tunnel was opened to")
  | NoName =>
      if bool_decide (is_Some (parse_ip host)) then None
      else Some ("a TLS connection to " +:+ host +:+ " names no server")
  | NotTls => if negb (N.eqb port 443) then None else Some (host +:+ ":443 is opened for TLS only")
  | Incomplete | Malformed => Some "an unreadable TLS ClientHello"
  end.

(** The host a head names, by its first [Host]. *)
Definition named_host (h : Head) (default_port : N) : option string :=
  value ← header h "host"; fst <$> split_authority value default_port.

(** [brokered] *)
Definition brokered (w : World) (host : string) (address : SocketAddr) (binding : CredentialBinding)
    : list Effect :=
  match inner_reads w with
  | None => []
  | Some reads =>
      match read_head reads [] with
      | None => []
      | Some (head, rest, _) =>
          match parse_head head with
          | None => [Refused "400 Bad Request" "unreadable request"]
          | Some h =>
              if negb (bool_decide (named_host h 443 = Some host)) || negb (starts_with "/" (target h)) then
                let reason := "a request in the tunnel to " +:+ host +:+ " names another host" in
                [record_decision host 443 false false reason; Refused "403 Forbidden" reason]
              else if upstream_verified w host address then
                [record_decision host 443 true true "credential added";
                 SentTls host address (forwarded h (target h) (Some (bind_header binding))
                   (Some (bind_header binding, bind_value binding)));
                 SentTls host address rest; Piped address]
              else []
          end
      end
  end.

(** A tunnel to a host without a credential. *)
Definition tunnel (host : string) (port : N) (address : SocketAddr) (reads : list (list N)) (rest : list N)
    : list Effect :=
  match read_hello reads rest with
  | None => []
  | Some (verdict, first) =>
      match tunnel_refusal host port verdict with
      | Some reason => [record_decision host port false false reason]
      | None => [record_decision host port true false "tunnelled"; SentClear address first; Piped address]
      end
  end.

Definition connect_request (gw : Gateway) (w : World) (reads : list (list N)) (rest : list N) (h : Head)
    : list Effect :=
  match split_authority (target h) 443 with
  | None => [Refused "400 Bad Request" "unreadable destination"]
  | Some (host, port) =>
      match state_admit gw (lookup w) host port with
      | Err reason => [record_decision host port false false reason; Refused "403 Forbidden" reason]
      | Ok address =>
          if negb (upstream_answers w address) then
            [record_decision host port false false "the upstream did not answer";
             Refused "502 Bad Gateway" "the upstream did not answer"]
          else
            [Connected address; Established] ++
            match (if N.eqb port 443 then gw_bindings gw !! host else None) with
            | None => tunnel host port address reads rest
            | Some binding => if bool_decide (rest = []) then brokered w host address binding else []
            end
      end
  end.

(** The authority and the path of an [http://] target. *)
Fixpoint split_path (s : string) : string * string :=
  match s with
  | EmptyString => ("", "/")
  | String c rest =>
      if Ascii.eqb c "/" then ("", s)
      else let (authority, path) := split_path rest in (String c authority, path)
  end.

Definition plain_request (gw : Gateway) (w : World) (rest : list N) (h : Head) : list Effect :=
  match strip_prefix "http://" (target h) with
  | None => [Refused "400 Bad Request" "use CONNECT or an http:// URL"]
  | Some authority_path =>
      let (authority, path) := split_path authority_path in
      match split_authority authority 80 with
      | None => [Refused "400 Bad Request" "unreadable destination"]
      | Some (host, port) =>
          if match named_host h 80 with Some named => negb (String.eqb named host) | None => false end then
            let reason := "the request's Host is not " +:+ host +:+ ", the host it was sent to" in
            [record_decision host port false false reason; Refused "403 Forbidden" reason]
          else
            match state_admit gw (lookup w) host port with
            | Err reason => [record_decision host port false false reason; Refused "403 Forbidden" reason]
            | Ok address =>
                if negb (upstream_answers w address) then
                  [Refused "502 Bad Gateway" "the upstream did not answer"]
                else
                  [Connected address; record_decision host port true false "forwarded (plain HTTP)";
                   SentClear address (forwarded h path None None); SentClear address rest; Piped address]
            end
      end
  end.

(** [connection] *)
Definition connection (gw : Gateway) (w : World) : list Effect :=
  match read_head (client_reads w) [] with
  | None => []
  | Some (head, rest, reads) =>
      match parse_head head with
      | None => [Refused "400 Bad Request" "unreadable request"]
      | Some h =>
          if eq_ignore_ascii_case (method h) "CONNECT" then connect_request gw w reads rest h
          else plain_request gw w rest h
      end
  end.

(** ** What rules allow *)

Lemma strip_suffix_spec suffix s label : strip_suffix suffix s = Some label ↔ s = label +:+ suffix.
Proof.
  unfold strip_suffix. rewrite fmap_Some. split.
  - intros (r & Hr & ->). apply strip_prefix_Some in Hr. simpl.
    by rewrite <-(reversed_twice s), Hr, reversed_app, reversed_twice.
  - intros ->. exists (reversed label). rewrite reversed_app. split; [apply strip_prefix_app|].
    simpl. by rewrite reversed_twice.
Qed.

Lemma ends_with_spec suffix s : ends_with suffix s = true ↔ ∃ label, s = label +:+ suffix.
Proof.
  unfold ends_with. rewrite bool_decide_eq_true. unfold is_Some. by setoid_rewrite strip_suffix_spec.
Qed.

(** A rule for a name, or for the names below one ([*.name], not [name] itself);
    on port 443 when it lists no ports. *)
Definition names_host (pattern host : string) : Prop :=
  match strip_prefix "*." pattern with
  | Some suffix => ∃ label, label ≠ "" ∧ host = label +:+ "." +:+ suffix
  | None => host = pattern
  end.

Definition rule_allows (rule : HostRule) (host : string) (port : N) : Prop :=
  (port ∈ match rule_ports rule with [] => [443%N] | ports => ports end) ∧
  names_host (to_ascii_lowercase (rule_host rule)) host.

Lemma rule_matches_spec rule host port : rule_matches rule host port = true ↔ rule_allows rule host port.
Proof.
  unfold rule_matches, rule_allows. rewrite andb_true_iff. f_equiv.
  { case_bool_decide as Hp; [rewrite Hp, list_elem_of_singleton; apply N.eqb_eq|].
    rewrite bool_decide_eq_true. by destruct (rule_ports rule). }
  unfold names_host. destruct (strip_prefix "*." _) as [suffix|]; [|by rewrite String.eqb_eq].
  destruct (strip_suffix suffix host) as [label|] eqn:E.
  - pose proof E as Hhost. apply strip_suffix_spec in Hhost as ->. rewrite andb_true_iff, N.ltb_lt, ends_with_spec. split.
    + intros [Hlen [l ->]]. exists l. split; [|by rewrite app_assoc_str]. by intros ->.
    + intros (l & Hl & Heq). rewrite app_assoc_str in Heq. apply strip_suffix_spec in Heq.
      rewrite Heq in E. injection E as <-. split; [|by exists l]. destruct l as [|c l]; [done|].
      unfold len. simpl. destruct l; simpl; lia.
  - split; [done|]. intros (label & _ & ->). rewrite app_assoc_str in E.
    by rewrite (proj2 (strip_suffix_spec suffix _ (label +:+ ".")) eq_refl) in E.
Qed.

(** ** Where a connection goes *)

(** The upstream an effect reaches. *)
Definition upstream_of (e : Effect) : option SocketAddr :=
  match e with
  | Connected a | SentClear a _ | SentTls _ a _ | Piped a => Some a
  | Recorded _ | Refused _ _ | Established => None
  end.

(** The destination a session asks for. *)
Definition requested (w : World) : option (string * N) :=
  '(hd, _, _) ← read_head (client_reads w) [];
  h ← parse_head hd;
  if eq_ignore_ascii_case (method h) "CONNECT" then split_authority (target h) 443
  else authority_path ← strip_prefix "http://" (target h); split_authority (fst (split_path authority_path)) 80.

(** The addresses a host has. *)
Definition resolves (gw : Gateway) (w : World) (host : string) (port : N) (addresses : list SocketAddr)
    : Prop :=
  match gw_resolve gw !! host with
  | Some fixed => addresses = fixed
  | None =>
      match parse_ip host with
      | Some ip => addresses = [(ip, port)]
      | None => lookup w host port = Ok addresses
      end
  end.

(** An address the gateway may connect to for a host: a rule allows it, it is the
    first the host resolves to, and none of them is private unless the policy
    allows that. *)
Definition admitted (gw : Gateway) (w : World) (host : string) (port : N) (address : SocketAddr) : Prop :=
  (∃ rule, rule ∈ allow (gw_policy gw) ∧ rule_matches rule host port = true) ∧
  ∃ addresses, resolves gw w host port addresses ∧ head addresses = Some address ∧
    ∀ a, a ∈ addresses → allow_private (gw_policy gw) = true ∨ is_public (fst a) = true.

Lemma find_none {A} (p : A → bool) l : find p l = None ↔ ∀ x, x ∈ l → p x = false.
Proof.
  split.
  - intros Hf x Hx. apply (find_none p l Hf). by apply list_elem_of_In.
  - induction l as [|x l IH]; intros Hp; [done|]. simpl. rewrite Hp by apply list_elem_of_here.
    apply IH. intros y Hy. by apply Hp, list_elem_of_further.
Qed.

Lemma admit_ok gw w host port address :
  state_admit gw (lookup w) host port = Ok address ↔ admitted gw w host port address.
Proof.
  unfold state_admit, admitted, resolves.
  rewrite seq_ok, reject_if_ok, negb_false_iff, and_then_ok. unfold allows. rewrite existsb_exists.
  setoid_rewrite <-list_elem_of_In. apply and_iff_compat_l.
  assert (∀ addresses,
    match addresses with
    | [] => Err (host +:+ " does not resolve")
    | first :: _ =>
        match find (λ a : SocketAddr, negb (allow_private (gw_policy gw)) && negb (is_public (fst a)))
          addresses with
        | Some a => Err (host +:+ " resolves to " +:+ show_ip (fst a) +:+ ", which is not a public address")
        | None => Ok first
        end
    end = Ok address ↔ head addresses = Some address ∧
      ∀ a, a ∈ addresses → allow_private (gw_policy gw) = true ∨ is_public (fst a) = true) as Hlast.
  { intros [|first addresses]; [by split; [|intros [? _]]|]. set (p := λ a : SocketAddr, _).
    assert (find p (first :: addresses) = None ↔ ∀ a, a ∈ first :: addresses →
      allow_private (gw_policy gw) = true ∨ is_public (fst a) = true) as Hfind.
    { rewrite find_none. unfold p. setoid_rewrite andb_false_iff. by setoid_rewrite negb_false_iff. }
    rewrite <-Hfind. destruct (find p (first :: addresses)); simpl; naive_solver. }
  destruct (gw_resolve gw !! host) as [fixed|]; [|destruct (parse_ip host) as [ip|]].
  - setoid_rewrite Hlast. naive_solver.
  - setoid_rewrite Hlast. naive_solver.
  - setoid_rewrite map_err_ok. setoid_rewrite Hlast. naive_solver.
Qed.

(** The effects of each kind of request reach only admitted upstreams. *)
Lemma brokered_upstream w host address binding e a :
  e ∈ brokered w host address binding → upstream_of e = Some a → a = address.
Proof.
  unfold brokered, record_decision.
  repeat case_match; rewrite ?elem_of_cons, ?elem_of_nil; naive_solver.
Qed.

Lemma tunnel_upstream host port address reads rest e a :
  e ∈ tunnel host port address reads rest → upstream_of e = Some a → a = address.
Proof.
  unfold tunnel, record_decision.
  repeat case_match; rewrite ?elem_of_cons, ?elem_of_nil; naive_solver.
Qed.

(** The decisions a connection records. *)
Definition decisions (effects : list Effect) : list Decision_ :=
  omap (λ e, match e with Recorded d => Some d | _ => None end) effects.

(** The ways a connection can go: it is refused with at most one decision, or
    its destination is admitted and reached. *)
Definition refused (effects : list Effect) : Prop :=
  length (decisions effects) ≤ 1 ∧
  ∀ e, e ∈ effects → match e with Recorded d => dec_allowed d = false | Refused _ _ => True | _ => False end.

Lemma connection_cases gw w :
  refused (connection gw w) ∨
  ∃ host port address, requested w = Some (host, port) ∧ state_admit gw (lookup w) host port = Ok address ∧
    ((∃ reads rest, connection gw w = [Connected address; Established] ++ tunnel host port address reads rest) ∨
     (∃ binding, port = 443%N ∧ gw_bindings gw !! host = Some binding ∧
        (connection gw w = [Connected address; Established] ∨
         connection gw w = [Connected address; Established] ++ brokered w host address binding)) ∨
     (∃ h path rest, connection gw w =
        [Connected address; record_decision host port true false "forwarded (plain HTTP)";
         SentClear address (forwarded h path None None); SentClear address rest; Piped address])).
Proof.
  assert (∀ d s r, dec_allowed d = false → refused [Recorded d; Refused s r]) as Hrefuse.
  { intros d s r Hd. split; [done|]. intros e. rewrite !elem_of_cons, elem_of_nil. by intros [->|[->|[]]]. }
  assert (∀ s r, refused [Refused s r]) as Hone.
  { intros s r. split; [simpl; lia|]. by intros e ->%list_elem_of_singleton. }
  unfold connection, requested.
  destruct (read_head _ _) as [[[hd rest] reads]|]; [|left; split; [simpl; lia|by intros e ?%not_elem_of_nil]].
  cbn [mbind option_bind]. destruct (parse_head hd) as [h|]; [|by left]. cbn [mbind option_bind].
  destruct (eq_ignore_ascii_case (method h) "CONNECT").
  - unfold connect_request. destruct (split_authority (target h) 443) as [[host port]|]; [|by left].
    destruct (state_admit gw (lookup w) host port) as [address|reason] eqn:Hadmit; [|left; by apply Hrefuse].
    destruct (upstream_answers w address); [|left; by apply Hrefuse]. right. exists host, port, address.
    split_and!; [done..|]. cbn [negb]. destruct (N.eqb_spec port 443) as [->|]; [|left; eauto].
    destruct (gw_bindings gw !! host) as [binding|]; [|left; eauto]. right; left. exists binding.
    split_and!; [done..|]. case_bool_decide; [by right|by left].
  - unfold plain_request. destruct (strip_prefix "http://" (target h)) as [p|]; [|by left].
    cbn [mbind option_bind]. destruct (split_path p) as [authority path]. cbn [fst].
    destruct (split_authority authority 80) as [[host port]|]; [|by left].
    destruct (match named_host h 80 with Some _ => _ | None => _ end); [left; by apply Hrefuse|].
    destruct (state_admit gw (lookup w) host port) as [address|reason] eqn:Hadmit; [|left; by apply Hrefuse].
    destruct (upstream_answers w address); [|left; apply Hone]. right. exists host, port, address.
    split_and!; [done..|]. right; right. eauto.
Qed.

Lemma connection_upstream gw w e a :
  e ∈ connection gw w → upstream_of e = Some a →
  ∃ host port, requested w = Some (host, port) ∧ admitted gw w host port a.
Proof.
  intros He Ha. destruct (connection_cases gw w) as [Hr|(host & port & address & Hreq & Hadmit & Hcases)].
  { destruct Hr as [_ Hr]. specialize (Hr e He). by destruct e. }
  exists host, port. split; [done|]. apply admit_ok. assert (a = address) as ->; [|done].
  destruct Hcases as [(reads & rest & Heq)|[(binding & _ & _ & [Heq|Heq])|(h & path & rest & Heq)]];
    rewrite Heq in He; simpl in He; rewrite ?elem_of_cons, ?elem_of_nil in He.
  - destruct He as [->|[->|He]]; [by simplify_eq/=|done|]. by eapply tunnel_upstream.
  - destruct He as [->|[->|[]]]; by simplify_eq/=.
  - destruct He as [->|[->|He]]; [by simplify_eq/=|done|]. by eapply brokered_upstream.
  - naive_solver.
Qed.

(** ** Where credentials go *)

(** Gateways that differ in the values of their credentials only. *)
Definition same_but_values (gw gw' : Gateway) : Prop :=
  gw_policy gw = gw_policy gw' ∧ gw_resolve gw = gw_resolve gw' ∧
  (λ b, (bind_host b, bind_header b)) <$> gw_bindings gw =
  (λ b, (bind_host b, bind_header b)) <$> gw_bindings gw'.

(** An effect without what is sent over verified TLS. *)
Definition redact (e : Effect) : Effect :=
  match e with SentTls host address _ => SentTls host address [] | _ => e end.

Lemma connection_redacted gw gw' w :
  same_but_values gw gw' → redact <$> connection gw w = redact <$> connection gw' w.
Proof.
  intros (Hp & Hr & Hb). unfold connection. destruct (read_head _ _) as [[[hd rest] reads]|]; [|done].
  destruct (parse_head hd) as [h|]; [|done].
  assert (∀ host port, state_admit gw (lookup w) host port = state_admit gw' (lookup w) host port) as Hadmit.
  { intros host port. unfold state_admit. by rewrite Hp, Hr. }
  destruct (eq_ignore_ascii_case (method h) "CONNECT").
  - unfold connect_request. destruct (split_authority (target h) 443) as [[host port]|]; [|done].
    rewrite Hadmit. destruct (state_admit gw' (lookup w) host port) as [address|]; [|done].
    destruct (upstream_answers w address); [|done]. simpl. do 2 f_equal.
    destruct (N.eqb port 443); [|done].
    assert ((λ b, (bind_host b, bind_header b)) <$> gw_bindings gw !! host =
      (λ b, (bind_host b, bind_header b)) <$> gw_bindings gw' !! host) as Hhost
      by by rewrite <-!lookup_fmap, Hb.
    destruct (gw_bindings gw !! host) as [b|], (gw_bindings gw' !! host) as [b'|]; simplify_eq/=; [|done].
    case_bool_decide; [|done]. unfold brokered. destruct (inner_reads w) as [inner|]; [|done].
    destruct (read_head inner []) as [[[ihd irest] ?]|]; [|done]. destruct (parse_head ihd) as [ih|]; [|done].
    destruct (negb _ || negb _); [done|]. by destruct (upstream_verified w host address).
  - unfold plain_request. destruct (strip_prefix "http://" (target h)) as [p|]; [|done].
    destruct (split_path p) as [authority path]. destruct (split_authority authority 80) as [[host port]|]; [|done].
    rewrite Hadmit. by repeat case_match.
Qed.

(** What is sent over TLS goes to a bound host that proved who it is. *)
Lemma connection_tls gw w host address payload :
  SentTls host address payload ∈ connection gw w →
  ∃ binding, gw_bindings gw !! host = Some binding ∧ admitted gw w host 443 address ∧
    upstream_verified w host address = true ∧
    ∃ reads hd rest left_ h, inner_reads w = Some reads ∧ read_head reads [] = Some (hd, rest, left_) ∧
      parse_head hd = Some h ∧ named_host h 443 = Some host ∧
      (payload = forwarded h (target h) (Some (bind_header binding)) (Some (bind_header binding, bind_value binding))
       ∨ payload = rest).
Proof.
  intros He. unfold connection in He. destruct (read_head (client_reads w) _) as [[[hd rest] reads]|]; [|by apply not_elem_of_nil in He].
  destruct (parse_head hd) as [h|]; [|by apply list_elem_of_singleton in He].
  destruct (eq_ignore_ascii_case (method h) "CONNECT").
  2: { unfold plain_request, record_decision in He. repeat case_match; rewrite ?elem_of_cons, ?elem_of_nil in He; naive_solver. }
  unfold connect_request, record_decision in He.
  destruct (split_authority (target h) 443) as [[host' port]|]; [|by apply list_elem_of_singleton in He].
  destruct (state_admit gw (lookup w) host' port) as [address'|reason] eqn:Hadmit; [|rewrite !elem_of_cons, elem_of_nil in He; naive_solver].
  apply admit_ok in Hadmit. destruct (upstream_answers w address'); [|simpl in He; rewrite !elem_of_cons, elem_of_nil in He; naive_solver].
  simpl in He. apply elem_of_cons in He as [?|He]; [done|]. apply elem_of_cons in He as [?|He]; [done|].
  destruct (N.eqb_spec port 443) as [->|].
  2: { unfold tunnel, record_decision in He. repeat case_match; rewrite ?elem_of_cons, ?elem_of_nil in He; naive_solver. }
  destruct (gw_bindings gw !! host') as [binding|] eqn:Hb.
  2: { unfold tunnel, record_decision in He. repeat case_match; rewrite ?elem_of_cons, ?elem_of_nil in He; naive_solver. }
  case_bool_decide; [|by apply not_elem_of_nil in He]. unfold brokered, record_decision in He.
  destruct (inner_reads w) as [inner|] eqn:Hi; [|by apply not_elem_of_nil in He].
  destruct (read_head inner []) as [[[ihd irest] ileft]|] eqn:Hread; [|by apply not_elem_of_nil in He].
  destruct (parse_head ihd) as [ih|] eqn:Hparse; [|by apply list_elem_of_singleton in He].
  destruct (bool_decide (named_host ih 443 = Some host')) eqn:Hn;
    [|simpl in He; rewrite !elem_of_cons, elem_of_nil in He; naive_solver].
  apply bool_decide_eq_true in Hn. simpl in He.
  destruct (starts_with "/" (target ih)); [|simpl in He; rewrite !elem_of_cons, elem_of_nil in He; naive_solver].
  simpl in He. destruct (upstream_verified w host' address') eqn:Hv; [|by apply not_elem_of_nil in He].
  rewrite !elem_of_cons, elem_of_nil in He.
  assert (host = host' ∧ address = address' ∧ (payload = forwarded ih (target ih) (Some (bind_header binding))
    (Some (bind_header binding, bind_value binding)) ∨ payload = irest)) as (-> & -> & Hpay) by naive_solver.
  exists binding. split_and!; [done..|]. by exists inner, ihd, irest, ileft, ih.
Qed.

(** C28: The gateway reaches one destination per connection and only one it may:
    whatever the session sends, every effect on an upstream is on the first address
    of the host the session asked for, a rule of the policy allows that host on that
    port, and unless the policy allows private addresses none of the addresses the
    host resolves to is one. *)
Theorem egress_confined gw w e a :
  e ∈ connection gw w → upstream_of e = Some a →
  ∃ host port rule addresses,
    requested w = Some (host, port) ∧ rule ∈ allow (gw_policy gw) ∧ rule_allows rule host port ∧
    resolves gw w host port addresses ∧ head addresses = Some a ∧
    (allow_private (gw_policy gw) = false → ∀ b, b ∈ addresses → is_public (fst b) = true).
Proof.
  intros He Ha. destruct (connection_upstream gw w e a He Ha) as (host & port & Hreq & (rule & Hin & Hm) & addresses & Hres & Hhd & Hpub).
  exists host, port, rule, addresses. apply rule_matches_spec in Hm. split_and!; [done..|].
  intros Hp b Hb. destruct (Hpub b Hb) as [Heq|]; [congruence|done].
Qed.

(** ** The record of decisions *)

(** Whether an effect moves what the session sends. *)
Definition moves (e : Effect) : bool :=
  match e with SentClear _ _ | SentTls _ _ _ | Piped _ => true | _ => false end.

(** Whether a decision covers an effect that moves: it says that a credential is
    added when what is sent is. *)
Definition covers (d : Decision_) (e : Effect) : bool :=
  match e with SentTls _ _ _ => dec_brokered d | SentClear _ _ => negb (dec_brokered d) | _ => true end.

(** One decision at most, and one that allows it before anything moves. *)
Definition audited (host : string) (port : N) (effects : list Effect) : Prop :=
  length (decisions effects) ≤ 1 ∧
  ∀ i e, effects !! i = Some e → moves e = true →
    ∃ j d, j < i ∧ effects !! j = Some (Recorded d) ∧ dec_allowed d = true ∧
      (dec_host d, dec_port d) = (host, port) ∧ covers d e = true.

Lemma audited_quiet host port effects :
  length (decisions effects) ≤ 1 → Forall (λ e, moves e = false) effects → audited host port effects.
Proof.
  intros Hd Hq. split; [done|]. intros i e Hi Hm. rewrite Forall_lookup in Hq. apply Hq in Hi. congruence.
Qed.

Lemma audited_decided host port before brokered reason after :
  decisions before = [] → decisions after = [] → Forall (λ e, moves e = false) before →
  Forall (λ e, covers {| dec_host := host; dec_port := port; dec_allowed := true; dec_brokered := brokered;
    dec_reason := reason |} e = true) after →
  audited host port (before ++ record_decision host port true brokered reason :: after).
Proof.
  intros Hb Ha Hq Hc. split.
  { unfold decisions in *. rewrite omap_app, Hb. cbn [app]. change (S (length (decisions after)) ≤ 1).
    unfold decisions. rewrite Ha. simpl. lia. }
  intros i e Hi Hm. rewrite Forall_lookup in Hq, Hc. destruct (decide (i < length before)) as [Hlt|Hge].
  { rewrite lookup_app_l in Hi by done. apply Hq in Hi. congruence. }
  rewrite lookup_app_r in Hi by lia. destruct (i - length before) as [|k] eqn:E; [by injection Hi as <-|].
  exists (length before). eexists. rewrite list_lookup_middle by done.
  split_and!; [lia|done..|by eapply Hc].
Qed.

Lemma tunnel_audited host port address reads rest :
  audited host port ([Connected address; Established] ++ tunnel host port address reads rest).
Proof.
  unfold tunnel. destruct (read_hello reads rest) as [[verdict first]|];
    [destruct (tunnel_refusal host port verdict)|].
  - apply audited_quiet; [simpl; lia|by repeat constructor].
  - apply audited_decided; by repeat constructor.
  - apply audited_quiet; [simpl; lia|by repeat constructor].
Qed.

Lemma brokered_audited w host address binding :
  audited host 443 ([Connected address; Established] ++ brokered w host address binding).
Proof.
  unfold brokered. repeat case_match;
    first [apply audited_quiet; [simpl; lia|by repeat constructor] | apply audited_decided; by repeat constructor].
Qed.

(** The record of decisions tells what happened: a connection records at most
    one decision, and nothing of the session moves upstream before one that allows
    it, names the destination the session asked for, and says truly whether a
    credential is added. *)
Theorem egress_audited gw w host port :
  requested w = Some (host, port) → audited host port (connection gw w).
Proof.
  intros Hreq. destruct (connection_cases gw w) as [[Hd Hr]|(host' & port' & address & Hreq' & _ & Hcases)].
  { apply audited_quiet; [done|]. apply Forall_forall. intros e He. apply Hr in He. by destruct e. }
  rewrite Hreq in Hreq'. injection Hreq' as <- <-.
  destruct Hcases as [(reads & rest & ->)|[(binding & -> & _ & [->| ->])|(h & path & rest & ->)]].
  - apply tunnel_audited.
  - apply audited_quiet; [simpl; lia|by repeat constructor].
  - apply brokered_audited.
  - apply (audited_decided host port [Connected address]); by repeat constructor.
Qed.

(** C29: Credentials reach only the hosts they are bound to: what the session, the
    record of decisions and every other upstream see of a connection does not
    depend on the values of the credentials, and what does is sent over TLS to an
    admitted address of a bound host that proved to be it, in a request that names
    that host. *)
Theorem credential_confined gw gw' w :
  same_but_values gw gw' →
  redact <$> connection gw w = redact <$> connection gw' w ∧
  ∀ host address payload, SentTls host address payload ∈ connection gw w →
    ∃ binding reads hd rest left_ h, gw_bindings gw !! host = Some binding ∧ admitted gw w host 443 address ∧
      upstream_verified w host address = true ∧
      inner_reads w = Some reads ∧ read_head reads [] = Some (hd, rest, left_) ∧
      parse_head hd = Some h ∧ named_host h 443 = Some host ∧
      payload ∈ [forwarded h (target h) (Some (bind_header binding)) (Some (bind_header binding, bind_value binding));
                 rest].
Proof.
  intros Hsame. split; [by apply connection_redacted|]. intros host address payload Hsent.
  apply connection_tls in Hsent as (binding & Hb & Had & Hv & reads & hd & rest & left_ & h & Hi & Hr & Hp & Hn & Hpay).
  exists binding, reads, hd, rest, left_, h. split_and!; [done..|].
  destruct Hpay as [->| ->]; [by left|by right; left].
Qed.

(** ** What tunnels are for *)

Lemma to_lower_twice s : to_ascii_lowercase (to_ascii_lowercase s) = to_ascii_lowercase s.
Proof.
  induction s as [|c s IH]; [done|]. cbn [to_ascii_lowercase]. rewrite IH. f_equal.
  destruct c as [[] [] [] [] [] [] [] []]; vm_compute; reflexivity.
Qed.

(** Steps through reads that succeed. *)
Ltac reads_of H := repeat (apply bind_Some in H as ([? ?] & _ & H)).

Lemma server_names_lower fuel l name :
  server_names fuel l = Some (Name name) → to_ascii_lowercase name = name.
Proof.
  revert l. induction fuel as [|fuel IH]; intros [|x l]; [done..|]. cbn [server_names]. intros Hs. reads_of Hs.
  destruct (N.eqb _ 0); [|by eapply IH]. apply bind_Some in Hs as (s & _ & Hs).
  destruct (valid_host _); [|done]. injection Hs as <-. apply to_lower_twice.
Qed.

Lemma extensions_lower fuel l name :
  extensions fuel l = Some (Name name) → to_ascii_lowercase name = name.
Proof.
  revert l. induction fuel as [|fuel IH]; intros [|x l]; [done..|]. cbn [extensions]. intros Hs. reads_of Hs.
  destruct (N.eqb _ 0); [|by eapply IH]. reads_of Hs. by eapply server_names_lower.
Qed.

Lemma tls_server_name_lower l name : tls_server_name l = Name name → to_ascii_lowercase name = name.
Proof.
  intros Hl. assert (∃ record, client_hello record = Some (Name name)) as [record Hc].
  { unfold tls_server_name in Hl. repeat case_match; try done.
    destruct (client_hello _) as [h|] eqn:E; [|done]. simpl in Hl. subst h. eauto. }
  unfold client_hello in Hc. apply bind_Some in Hc as ([kind r] & _ & Hc).
  destruct (negb (N.eqb kind 1)); [done|]. reads_of Hc. case_match; [done|]. reads_of Hc. by eapply extensions_lower.
Qed.

Lemma split_authority_lower authority port host p :
  split_authority authority port = Some (host, p) → to_ascii_lowercase host = host.
Proof.
  unfold split_authority. intros ([host' port'] & _ & Hs)%bind_Some.
  destruct (valid_host _ || _); [|done]. injection Hs as <- <-. apply to_lower_twice.
Qed.

Lemma read_hello_verdict reads first verdict sent :
  read_hello reads first = Some (verdict, sent) → tls_server_name sent = verdict.
Proof.
  revert first. induction reads as [|chunk reads IH]; intros first; simpl;
    destruct (tls_server_name first) eqn:E; try (by intros [= <- <-]);
    (destruct (Nat.ltb _ _); [|by intros [= <- <-]]); [done|]. destruct chunk; [done|]. apply IH.
Qed.

(** What the first bytes of a tunnel may be: TLS that names the host the tunnel
    is for (or, when that is an address, no host), and anything else but TLS on
    other ports than 443. *)
Definition tunnel_opening (host : string) (port : N) (first : list N) : Prop :=
  match tls_server_name first with
  | Name name => name = host
  | NoName => is_Some (parse_ip host)
  | NotTls => port ≠ 443%N
  | Incomplete | Malformed => False
  end.

Lemma tunnel_opens host port address reads rest first a :
  to_ascii_lowercase host = host →
  SentClear a first ∈ tunnel host port address reads rest → tunnel_opening host port first.
Proof.
  intros Hlow Hin. unfold tunnel, record_decision in Hin.
  destruct (read_hello reads rest) as [[verdict sent]|] eqn:Hread; [|by apply not_elem_of_nil in Hin].
  apply read_hello_verdict in Hread.
  destruct (tunnel_refusal host port verdict) eqn:Hrefusal; [by apply list_elem_of_singleton in Hin|].
  rewrite !elem_of_cons, elem_of_nil in Hin. destruct Hin as [?|[Heq|[?|[]]]]; [done| |done].
  injection Heq as -> ->. unfold tunnel_opening. rewrite Hread. destruct verdict as [name| | | |]; simpl in Hrefusal.
  - destruct (eq_ignore_ascii_case name host) eqn:E; [|done]. apply String.eqb_eq in E.
    by rewrite <-(tls_server_name_lower sent name Hread), E.
  - by case_bool_decide.
  - by destruct (N.eqb_spec port 443).
  - done.
  - done.
Qed.

(** A tunnel is what it was opened for: the first bytes the gateway passes on
    through one are a whole TLS ClientHello for the host the session asked for, or,
    on another port than 443, bytes that are no TLS at all. *)
Theorem tunnel_names_host gw w host port a first :
  requested w = Some (host, port) → Established ∈ connection gw w → SentClear a first ∈ connection gw w →
  tunnel_opening host port first.
Proof.
  intros Hreq Hest Hsent.
  destruct (connection_cases gw w) as [[_ Hr]|(host' & port' & address & Hreq' & _ & Hcases)]; [by apply Hr in Hest|].
  rewrite Hreq in Hreq'. injection Hreq' as <- <-.
  assert (to_ascii_lowercase host = host) as Hlow.
  { unfold requested in Hreq. apply bind_Some in Hreq as ([[hd ?] ?] & _ & Hreq).
    apply bind_Some in Hreq as (h & _ & Hreq). destruct (eq_ignore_ascii_case _ _); [by eapply split_authority_lower|].
    apply bind_Some in Hreq as (p & _ & Hreq). by eapply split_authority_lower. }
  destruct Hcases as [(reads & rest & Heq)|[(binding & -> & _ & Heq)|(h & path & rest & Heq)]].
  - rewrite Heq in Hsent. simpl in Hsent. rewrite !elem_of_cons in Hsent.
    destruct Hsent as [?|[?|Hsent]]; [done..|]. by eapply tunnel_opens.
  - exfalso. destruct Heq as [Heq|Heq]; rewrite Heq in Hsent; simpl in Hsent; rewrite !elem_of_cons in Hsent.
    + rewrite elem_of_nil in Hsent. naive_solver.
    + destruct Hsent as [?|[?|Hsent]]; [done..|]. unfold brokered, record_decision in Hsent.
      repeat case_match; rewrite ?elem_of_cons, ?elem_of_nil in Hsent; naive_solver.
  - rewrite Heq in Hest. rewrite !elem_of_cons, elem_of_nil in Hest. unfold record_decision in Hest. naive_solver.
Qed.

(** ** Configuration *)

Notation bound_host binding := (to_ascii_lowercase (bind_host binding)).

Record binding_ok (policy : EgressPolicy) (binding : CredentialBinding) : Prop := {
  binding_host : valid_host (bound_host binding) = true;
  binding_name : parse_ip (bound_host binding) = None;
  binding_header : header_name (bind_header binding) = true;
  binding_value : header_value (bind_value binding) = true;
  binding_allowed : ∃ rule, rule ∈ allow policy ∧ rule_allows rule (bound_host binding) 443;
}.

Definition rule_ok (rule : HostRule) : Prop :=
  valid_host (strip_wildcard (rule_host rule)) = true ∨ is_Some (parse_ip (strip_wildcard (rule_host rule))).

Lemma allows_spec policy host port :
  allows policy host port = true ↔ ∃ rule, rule ∈ allow policy ∧ rule_allows rule host port.
Proof.
  unfold allows. rewrite existsb_exists. setoid_rewrite <-list_elem_of_In. by setoid_rewrite rule_matches_spec.
Qed.

Lemma check_rules_spec rules : check_rules rules = Ok tt ↔ Forall rule_ok rules.
Proof.
  induction rules as [|rule rules IH]; [by split; [constructor|]|]. cbn [check_rules].
  rewrite seq_ok, reject_if_ok, andb_false_iff, negb_false_iff, bool_decide_eq_false, Forall_cons, IH.
  unfold rule_ok. by rewrite <-not_eq_None_Some.
Qed.

Lemma collect_bindings_cons policy b bindings collected m :
  collect_bindings policy (b :: bindings) collected = Ok m ↔
  binding_ok policy b ∧ collected !! bound_host b = None ∧
  collect_bindings policy bindings (<[bound_host b := b]> collected) = Ok m.
Proof.
  cbn [collect_bindings]. rewrite !seq_ok, !reject_if_ok.
  rewrite !orb_false_iff, !negb_false_iff, !bool_decide_eq_false, allows_spec, <-!eq_None_not_Some.
  split.
  - intros ([Hv Hip] & [[He Hh] Hval] & Hall & Hnew & Hrest). split_and!; [|done..].
    split; [done..| | |done]; unfold header_name, header_value; by rewrite ?He, ?Hh, ?Hval.
  - intros ([Hv Hip Hh Hval Hall] & Hnew & Hrest). unfold header_name, header_value in *.
    apply andb_true_iff in Hh as [He%negb_true_iff Hh]. apply negb_true_iff in Hval. done.
Qed.

Lemma collect_bindings_spec policy bindings collected m :
  collect_bindings policy bindings collected = Ok m ↔
  Forall (binding_ok policy) bindings ∧ NoDup ((λ b, bound_host b) <$> bindings) ∧
  (∀ b, b ∈ bindings → collected !! bound_host b = None) ∧
  m = list_to_map ((λ b, (bound_host b, b)) <$> bindings) ∪ collected.
Proof.
  revert collected. induction bindings as [|b bindings IH]; intros collected.
  { cbn [collect_bindings fmap list_fmap list_to_map foldr]. rewrite (left_id_L ∅ (∪)). split.
    - intros [= ->]. split_and!; [constructor..|by intros b ?%not_elem_of_nil|done].
    - by intros (_ & _ & _ & ->). }
  rewrite collect_bindings_cons, IH, !fmap_cons, NoDup_cons, Forall_cons.
  set (l := (λ b, (bound_host b, b)) <$> bindings). set (hosts := (λ b, bound_host b) <$> bindings).
  change (list_to_map ((bound_host b, b) :: l)) with (<[bound_host b := b]> (list_to_map l : gmap string CredentialBinding)).
  assert ((∀ b', b' ∈ bindings → <[bound_host b := b]> collected !! bound_host b' = None) ↔
    bound_host b ∉ hosts ∧ ∀ b', b' ∈ bindings → collected !! bound_host b' = None) as ->.
  { setoid_rewrite lookup_insert_None. unfold hosts. rewrite list_elem_of_fmap. naive_solver. }
  assert (bound_host b ∉ hosts →
    list_to_map l ∪ <[bound_host b := b]> collected = <[bound_host b := b]> (list_to_map l) ∪ collected) as Hmap.
  { intros Hni. rewrite <-insert_union_r, insert_union_l; [done|]. apply not_elem_of_list_to_map_1.
    unfold l. rewrite <-list_fmap_compose. exact Hni. }
  setoid_rewrite elem_of_cons. split.
  - intros (? & ? & ? & ? & [? ?] & ->). rewrite Hmap by done. split_and!; try done. naive_solver.
  - intros ([? ?] & [? ?] & Hnew & ->). rewrite Hmap by done. split_and!; try done; naive_solver.
Qed.

(** A gateway starts exactly when every rule is for a host, every credential
    is for a host name that the policy allows on port 443, with a header that
    cannot break a request apart, and no host has two; and it then holds each
    credential under its host. *)
Theorem start_exact config gw :
  start config = Ok gw ↔
  Forall rule_ok (allow (config_policy config)) ∧
  Forall (binding_ok (config_policy config)) (config_bindings config) ∧
  NoDup ((λ b, bound_host b) <$> config_bindings config) ∧
  gw = {| gw_policy := config_policy config;
          gw_bindings := list_to_map ((λ b, (bound_host b, b)) <$> config_bindings config);
          gw_resolve := lower_keys (config_resolve config) |}.
Proof.
  unfold start. rewrite seq_ok, check_rules_spec, and_then_ok. setoid_rewrite collect_bindings_spec.
  setoid_rewrite (right_id_L ∅ (∪)). split.
  - intros (? & m & (? & ? & _ & ->) & [= <-]). done.
  - intros (? & ? & ? & ->). split; [done|]. eexists. split_and!; done.
Qed.

(** ** Witnesses *)

Definition a_policy : EgressPolicy :=
  {| allow := [{| rule_host := "api.example.com"; rule_ports := [] |};
               {| rule_host := "*.example.org"; rule_ports := [80; 443]%N |}]; allow_private := false |}.

Definition a_binding (value : string) : CredentialBinding :=
  {| bind_host := "API.example.com"; bind_header := "authorization"; bind_value := value |}.

Definition a_gateway (value : string) : Gateway :=
  {| gw_policy := a_policy; gw_bindings := {["api.example.com" := a_binding value]}; gw_resolve := ∅ |}.

Definition a_request (lines : list string) : list N := bytes (join crlf lines +:+ crlf +:+ crlf).

Definition a_world (client : list (list N)) (inner : option (list (list N))) : World :=
  {| client_reads := client; lookup := λ host port, Ok [(V4 93 184 216 34, port); (V4 93 184 216 35, port)];
     upstream_answers := λ _, true; inner_reads := inner; upstream_verified := λ _ _, true |}.

(** A request in a tunnel to the bound host. *)
Definition a_brokered : World :=
  a_world [a_request ["CONNECT api.example.com:443 HTTP/1.1"]]
    (Some [a_request ["GET /v1 HTTP/1.1"; "Host: api.example.com"; "Authorization: guess"]]).

Example a_gateway_starts :
  start {| config_policy := a_policy; config_bindings := [a_binding "Bearer secret"]; config_resolve := ∅ |} =
  Ok (a_gateway "Bearer secret").
Proof. vm_compute. reflexivity. Qed.

Definition sent_brokered (value : string) : list N :=
  a_request ["GET /v1 HTTP/1.1"; "Host: api.example.com"; "authorization: " +:+ value; "Connection: close"].

Lemma egress_confined_witness :
  ∃ host port rule addresses,
    requested a_brokered = Some (host, port) ∧ rule ∈ allow a_policy ∧ rule_allows rule host port ∧
    resolves (a_gateway "secret") a_brokered host port addresses ∧ head addresses = Some (V4 93 184 216 34, 443%N) ∧
    (allow_private a_policy = false → ∀ b, b ∈ addresses → is_public (fst b) = true).
Proof.
  apply (egress_confined (a_gateway "secret") a_brokered (Connected (V4 93 184 216 34, 443%N))); [|reflexivity].
  vm_compute. left.
Defined.

Lemma egress_audited_witness :
  requested a_brokered = Some ("api.example.com", 443%N) ∧
  audited "api.example.com" 443 (connection (a_gateway "secret") a_brokered).
Proof.
  assert (requested a_brokered = Some ("api.example.com", 443%N)) as Hreq by (vm_compute; reflexivity).
  split; [exact Hreq|]. exact (egress_audited (a_gateway "secret") a_brokered _ _ Hreq).
Defined.

Lemma credential_confined_witness :
  redact <$> connection (a_gateway "secret") a_brokered = redact <$> connection (a_gateway "other") a_brokered ∧
  SentTls "api.example.com" (V4 93 184 216 34, 443%N) (sent_brokered "secret") ∈
    connection (a_gateway "secret") a_brokered ∧
  upstream_verified a_brokered "api.example.com" (V4 93 184 216 34, 443%N) = true.
Proof.
  assert (same_but_values (a_gateway "secret") (a_gateway "other")) as Hsame
    by (split_and!; vm_compute; reflexivity).
  destruct (credential_confined _ _ a_brokered Hsame) as [Heq Hsent].
  assert (SentTls "api.example.com" (V4 93 184 216 34, 443%N) (sent_brokered "secret") ∈
    connection (a_gateway "secret") a_brokered) as Hin by (vm_compute; right; right; right; left).
  destruct (Hsent _ _ _ Hin) as (binding & reads & hd & rest & left_ & h & _ & _ & Hv & _).
  split_and!; [exact Heq|exact Hin|exact Hv].
Defined.

(** A tunnel to another host, opened with a ClientHello for it in two reads. *)
Definition www_hello : ClientHello :=
  {| version_random := 3%N :: 3%N :: replicate 32 7%N; session_id := []; cipher_suites := [19; 1]%N;
     compression_methods := [0%N];
     hello_extensions := Some {| before := []; server_name := Some [(0%N, bytes "WWW.Example.org")]; after := [] |} |}.

Definition a_tunnel : World :=
  a_world [a_request ["CONNECT www.example.org:443 HTTP/1.1"]; take 20 (write_record 3 1 www_hello);
           drop 20 (write_record 3 1 www_hello)] None.

Lemma tunnel_names_host_witness :
  SentClear (V4 93 184 216 34, 443%N) (write_record 3 1 www_hello) ∈ connection (a_gateway "secret") a_tunnel ∧
  tunnel_opening "www.example.org" 443 (write_record 3 1 www_hello).
Proof.
  assert (SentClear (V4 93 184 216 34, 443%N) (write_record 3 1 www_hello) ∈
    connection (a_gateway "secret") a_tunnel) as Hin by (vm_compute; right; right; right; left).
  split; [exact Hin|]. apply (tunnel_names_host (a_gateway "secret") a_tunnel _ _ _ _) with (3 := Hin);
    vm_compute; [reflexivity|right; left].
Defined.

(** ** What the gateway lets through *)

Definition plain_sent (lines : list string) : list (list N) :=
  omap (λ e, match e with SentClear _ sent => Some sent | _ => None end)
    (connection (a_gateway "secret") (a_world [a_request lines] None)).

(** A [Host] that is no host name is not compared with the destination; it is
    forwarded as it is. *)
Example unreadable_host_forwarded :
  plain_sent ["GET http://www.example.org/ HTTP/1.1"; "Host: internal_service"] =
  [a_request ["GET / HTTP/1.1"; "Host: internal_service"; "Connection: close"]; []].
Proof. vm_compute. reflexivity. Qed.

(** Only the first of several is compared. *)
Example second_host_forwarded :
  plain_sent ["GET http://www.example.org/ HTTP/1.1"; "Host: www.example.org"; "Host: other.example.net"] =
  [a_request ["GET / HTTP/1.1"; "Host: www.example.org"; "Host: other.example.net"; "Connection: close"]; []].
Proof. vm_compute. reflexivity. Qed.

(** A line feed alone does not end a line for the gateway, and is forwarded within
    a value. *)
Example line_feed_forwarded :
  plain_sent ["GET http://www.example.org/ HTTP/1.1"; "X: 1" +:+ String LF "Host: other.example.net"] =
  [a_request ["GET / HTTP/1.1"; "X: 1" +:+ String LF "Host: other.example.net"; "Connection: close"]; []].
Proof. vm_compute. reflexivity. Qed.
