(* ===== verification/Routes.v ===== *)
(** The route registry of the Compute API
    (src/crates/compute-environment/src/routes.rs, and the scopes of auth.rs):
    every operation with the scope it needs, and how a request finds its route. *)

From S2P Require Import Prelude Text.

(** ** Scopes *)

Inductive Scope : Type := Read | Execute | Deploy | Operate | Admin.

#[export] Instance scope_eq_dec : EqDecision Scope.
Proof. solve_decision. Defined.

Definition SCOPES : list Scope := [Read; Execute; Deploy; Operate; Admin].

Definition scope_str (s : Scope) : string :=
  match s with
  | Read => "compute.read"
  | Execute => "compute.execute"
  | Deploy => "compute.deploy"
  | Operate => "compute.operate"
  | Admin => "compute.admin"
  end.

(** [Scope::parse] *)
Definition parse_scope (value : string) : Result Scope string :=
  match find (λ scope, String.eqb (scope_str scope) value) SCOPES with
  | Some scope => Ok scope
  | None => Err ("unknown scope " +:+ value +:+ "; scopes are " +:+ join ", " (scope_str <$> SCOPES))
  end.

(** ** Routes *)

Inductive Surface : Type := Controller | Target.

#[export] Instance surface_eq_dec : EqDecision Surface.
Proof. solve_decision. Defined.

Record Route : Type := route {
  route_method : string;
  route_path : string;
  route_scope : Scope;
  route_operation : string;
  route_surface : Surface;
}.

#[export] Instance route_eq_dec : EqDecision Route.
Proof. solve_decision. Defined.

(** The controller, its agent, credentials, audit and upgrades. *)
Definition NODE_ROUTES : list Route :=
  [route "GET" "/health" Read "health" Controller;
   route "GET" "/ready" Read "ready" Controller;
   route "GET" "/info" Read "info" Controller;
   route "GET" "/status" Read "status" Controller;
   route "GET" "/api" Read "api" Controller;
   route "GET" "/auth/whoami" Read "auth.whoami" Controller;
   route "GET" "/agent" Read "agent.status" Controller;
   route "POST" "/agent/model" Operate "agent.model.set" Controller;
   route "POST" "/agent/address" Operate "agent.address.set" Controller;
   route "POST" "/agent/work" Operate "agent.work.submit" Controller;
   route "GET" "/agent/work/{work}" Read "agent.work.get" Controller;
   route "GET" "/agent/work/{work}/events" Read "agent.work.events" Controller;
   route "POST" "/agent/work/{work}/cancel" Operate "agent.work.cancel" Controller;
   route "GET" "/auth/credentials" Admin "auth.credentials.list" Controller;
   route "POST" "/auth/credentials" Admin "auth.credentials.create" Controller;
   route "POST" "/auth/credentials/{credential}/revoke" Admin "auth.credential.revoke" Controller;
   route "POST" "/auth/credentials/{credential}/rotate" Admin "auth.credential.rotate" Controller;
   route "GET" "/audit" Admin "audit" Controller;
   route "GET" "/metrics" Read "metrics" Controller;
   route "POST" "/node/reconcile" Operate "node.reconcile" Controller;
   route "GET" "/node/upgrade" Read "node.upgrade" Controller;
   route "POST" "/node/upgrade" Admin "node.upgrade.apply" Controller;
   route "POST" "/node/rollback" Admin "node.rollback" Controller;
   route "POST" "/shutdown" Admin "shutdown" Controller].

(** Environments. *)
Definition ENVIRONMENT_ROUTES : list Route :=
  [route "GET" "/environments" Read "environments.list" Controller;
   route "POST" "/environments" Operate "environments.create" Controller;
   route "GET" "/environments/{environment}" Read "environment.get" Controller;
   route "DELETE" "/environments/{environment}" Operate "environment.delete" Controller;
   route "GET" "/environments/{environment}/status" Read "environment.status" Controller;
   route "POST" "/environments/{environment}/start" Operate "environment.start" Controller;
   route "POST" "/environments/{environment}/stop" Operate "environment.stop" Controller;
   route "POST" "/environments/{environment}/restart" Operate "environment.restart" Controller].

(** Projects and workloads of an environment. *)
Definition PROJECT_ROUTES : list Route :=
  [route "GET" "/environments/{environment}/projects" Read "environment.projects.list" Controller;
   route "POST" "/environments/{environment}/projects" Deploy "environment.projects.create" Controller;
   route "GET" "/environments/{environment}/projects/{project}" Read "environment.project.get" Controller;
   route "DELETE" "/environments/{environment}/projects/{project}" Deploy "environment.project.delete" Controller;
   route "GET" "/environments/{environment}/projects/{project}/status" Read "environment.project.status" Controller;
   route "POST" "/environments/{environment}/projects/{project}/start" Operate "environment.project.start" Controller;
   route "POST" "/environments/{environment}/projects/{project}/stop" Operate "environment.project.stop" Controller;
   route "POST" "/environments/{environment}/projects/{project}/restart" Operate "environment.project.restart" Controller;
   route "GET" "/environments/{environment}/projects/{project}/executions" Read "environment.project.executions.list" Controller;
   route "GET" "/environments/{environment}/projects/{project}/receipts" Read "environment.project.receipts.list" Controller;
   route "GET" "/environments/{environment}/projects/{project}/workloads/{workload}" Read "environment.project.workload.get" Controller;
   route "POST" "/environments/{environment}/projects/{project}/workloads/{workload}/start" Operate "environment.project.workload.start" Controller;
   route "POST" "/environments/{environment}/projects/{project}/workloads/{workload}/stop" Operate "environment.project.workload.stop" Controller;
   route "POST" "/environments/{environment}/projects/{project}/workloads/{workload}/restart" Operate "environment.project.workload.restart" Controller;
   route "POST" "/environments/{environment}/projects/{project}/workloads/{workload}/run" Execute "environment.project.workload.run" Controller;
   route "GET" "/environments/{environment}/projects/{project}/workloads/{workload}/logs" Read "environment.project.workload.logs" Controller].

(** The computer of an environment, its checkpoints and workspace. *)
Definition COMPUTER_ROUTES : list Route :=
  [route "GET" "/environments/{environment}/computer" Read "environment.computer" Controller;
   route "POST" "/environments/{environment}/contents" Operate "environment.contents" Controller;
   route "POST" "/environments/{environment}/repositories" Operate "environment.repositories.create" Controller;
   route "DELETE" "/environments/{environment}/repositories/{repository}" Operate "environment.repository.delete" Controller;
   route "POST" "/environments/{environment}/packages" Operate "environment.packages.create" Controller;
   route "DELETE" "/environments/{environment}/packages/{package}" Operate "environment.package.delete" Controller;
   route "POST" "/environments/{environment}/processes" Operate "environment.processes.create" Controller;
   route "DELETE" "/environments/{environment}/processes/{process}" Operate "environment.process.delete" Controller;
   route "POST" "/environments/{environment}/processes/{process}/start" Operate "environment.process.start" Controller;
   route "POST" "/environments/{environment}/processes/{process}/stop" Operate "environment.process.stop" Controller;
   route "POST" "/environments/{environment}/reconcile" Operate "environment.reconcile" Controller;
   route "POST" "/environments/{environment}/replace" Operate "environment.replace" Controller;
   route "POST" "/environments/{environment}/fork" Operate "environment.fork" Controller;
   route "POST" "/environments/{environment}/checkpoint" Operate "environment.checkpoint" Controller;
   route "POST" "/checkpoints/{checkpoint}/restore" Operate "checkpoint.restore" Controller;
   route "GET" "/environments/{environment}/checkpoints" Read "environment.checkpoints.list" Controller;
   route "GET" "/environments/{environment}/checkpoints/{checkpoint}" Read "environment.checkpoint.get" Controller;
   route "POST" "/environments/{environment}/workspace/export" Execute "environment.workspace.export" Controller;
   route "POST" "/environments/{environment}/workspace/seed" Operate "environment.workspace.seed" Controller;
   route "POST" "/environments/{environment}/workspace/verify" Execute "environment.workspace.verify" Controller].

(** Work in an environment, and its configuration. *)
Definition WORK_ROUTES : list Route :=
  [route "POST" "/environments/{environment}/exec" Execute "environment.exec" Controller;
   route "POST" "/environments/{environment}/connect" Execute "environment.connect" Controller;
   route "GET" "/environments/{environment}/jobs/{job}" Read "environment.job.get" Controller;
   route "POST" "/environments/{environment}/jobs/{job}/output" Read "environment.job.output" Controller;
   route "POST" "/environments/{environment}/jobs/{job}/input" Execute "environment.job.input" Controller;
   route "POST" "/environments/{environment}/jobs/{job}/cancel" Execute "environment.job.cancel" Controller;
   route "GET" "/environments/{environment}/logs" Read "environment.logs" Controller;
   route "POST" "/environments/{environment}/run" Execute "environment.run" Controller;
   route "POST" "/environments/{environment}/release" Deploy "environment.release" Controller;
   route "POST" "/environments/{environment}/config" Operate "environment.config.set" Controller;
   route "GET" "/environments/{environment}/config" Read "environment.config" Controller;
   route "POST" "/environments/{environment}/config/change" Operate "environment.config.change" Controller;
   route "POST" "/environments/{environment}/config/import" Operate "environment.config.import" Controller;
   route "POST" "/environments/{environment}/config/discover" Execute "environment.config.discover" Controller;
   route "POST" "/environments/{environment}/lifecycle" Operate "environment.lifecycle" Controller;
   route "POST" "/environments/{environment}/propose" Execute "environment.propose" Controller;
   route "POST" "/environments/{environment}/sources" Deploy "environment.sources" Controller;
   route "POST" "/environments/{environment}/processes/{process}/restart" Operate "environment.process.restart" Controller].

(** Recipes, software, sessions and projects. *)
Definition SOFTWARE_ROUTES : list Route :=
  [route "GET" "/recipes" Read "recipes.list" Controller;
   route "GET" "/recipes/starters" Read "recipes.starters" Controller;
   route "POST" "/recipes" Operate "recipes.create" Controller;
   route "POST" "/recipes/resolve" Read "recipes.resolve" Controller;
   route "GET" "/recipes/{recipe}" Read "recipe.get" Controller;
   route "GET" "/recipes/{recipe}/resolve" Read "recipe.resolve" Controller;
   route "GET" "/targets" Read "targets" Controller;
   route "GET" "/software" Read "software.list" Controller;
   route "GET" "/software/{project}" Read "software.get" Controller;
   route "GET" "/software/{project}/versions" Read "software.versions.list" Controller;
   route "POST" "/software/{project}/versions" Deploy "software.versions.create" Controller;
   route "GET" "/software/{project}/versions/{version}" Read "software.version.get" Controller;
   route "POST" "/software/{project}/deploy" Deploy "software.deploy" Controller;
   route "GET" "/software/{project}/promotion" Read "software.promotion" Controller;
   route "POST" "/software/{project}/promote" Deploy "software.promote" Controller;
   route "POST" "/software/{project}/rollback" Deploy "software.rollback" Controller;
   route "GET" "/rollouts" Read "rollouts.list" Controller;
   route "GET" "/rollouts/{rollout}" Read "rollout.get" Controller;
   route "GET" "/sessions" Read "sessions.list" Controller;
   route "POST" "/sessions" Operate "sessions.create" Controller;
   route "GET" "/sessions/{session}" Read "session.get" Controller;
   route "DELETE" "/sessions/{session}" Operate "session.delete" Controller;
   route "GET" "/projects" Read "projects.list" Controller;
   route "GET" "/projects/{project}" Read "project.get" Controller;
   route "GET" "/projects/{project}/status" Read "project.status" Controller;
   route "GET" "/projects/{project}/revisions" Read "project.revisions.list" Controller;
   route "POST" "/projects/{project}/revisions" Deploy "project.revisions.create" Controller].

(** Deployments, the network, evidence and providers. *)
Definition DEPLOYMENT_ROUTES : list Route :=
  [route "GET" "/deployments" Read "deployments.list" Controller;
   route "POST" "/deployments" Deploy "deployments.create" Controller;
   route "POST" "/deployments/promote" Deploy "deployments.promote" Controller;
   route "GET" "/deployments/{deployment}" Read "deployment.get" Controller;
   route "GET" "/deployments/{deployment}/receipt" Read "deployment.receipt" Controller;
   route "POST" "/deployments/{deployment}/rollback" Deploy "deployment.rollback" Controller;
   route "GET" "/domains" Read "domains.list" Controller;
   route "POST" "/domains" Operate "domains.create" Controller;
   route "GET" "/domains/{domain}" Read "domain.get" Controller;
   route "DELETE" "/domains/{domain}" Operate "domain.delete" Controller;
   route "GET" "/dns" Read "dns" Controller;
   route "POST" "/dns/reconcile" Operate "dns.reconcile" Controller;
   route "GET" "/certificates" Read "certificates.list" Controller;
   route "POST" "/certificates/{domain}/renew" Operate "certificate.renew" Controller;
   route "GET" "/network" Read "network" Controller;
   route "GET" "/executions/{execution}" Read "execution.get" Controller;
   route "GET" "/receipts/{receipt}" Read "receipt.get" Controller;
   route "GET" "/events" Read "events" Controller;
   route "GET" "/events/stream" Read "events.stream" Controller;
   route "GET" "/providers" Read "providers" Controller;
   route "GET" "/services" Read "services.list" Controller;
   route "GET" "/services/{service}/ui" Read "service.ui" Controller].

(** Applications and services. *)
Definition APPLICATION_ROUTES : list Route :=
  [route "GET" "/applications" Read "applications.list" Controller;
   route "GET" "/applications/{application}" Read "application.get" Controller;
   route "GET" "/applications/{application}/deployments" Read "application.deployments.list" Controller;
   route "POST" "/applications/{application}/deployments" Deploy "application.deployments.create" Controller;
   route "GET" "/applications/{application}/deployments/{deployment}" Read "application.deployment.get" Controller;
   route "GET" "/applications/{application}/deployments/{deployment}/receipt" Read "application.deployment.receipt" Controller;
   route "POST" "/applications/{application}/rollback" Deploy "application.rollback" Controller;
   route "POST" "/applications/{application}/stop" Operate "application.stop" Controller;
   route "GET" "/applications/{application}/logs" Read "application.logs" Controller;
   route "POST" "/services" Operate "services.create" Controller;
   route "DELETE" "/services/{service}" Operate "service.delete" Controller].

(** This node as a target: capabilities and jobs. *)
Definition TARGET_ROUTES : list Route :=
  [route "GET" "/compute/capabilities" Read "compute.capabilities" Target;
   route "GET" "/compute/health" Read "compute.health" Target;
   route "GET" "/compute/capacity" Read "compute.capacity" Target;
   route "POST" "/compute/execute" Execute "compute.execute" Target;
   route "POST" "/compute/admission" Execute "compute.admission" Target;
   route "POST" "/compute/runtimes/resolve" Execute "compute.runtimes.resolve" Target;
   route "POST" "/compute/runtimes/prepare" Execute "compute.runtimes.prepare" Target;
   route "POST" "/compute/runtimes/status" Execute "compute.runtimes.status" Target;
   route "POST" "/compute/jobs" Execute "compute.jobs.create" Target;
   route "GET" "/compute/jobs" Read "compute.jobs.list" Target;
   route "GET" "/compute/jobs/{job}" Read "compute.job.get" Target;
   route "GET" "/compute/jobs/{job}/result" Read "compute.job.result" Target;
   route "GET" "/compute/jobs/{job}/receipt" Read "compute.job.receipt" Target;
   route "GET" "/compute/jobs/{job}/logs" Read "compute.job.logs" Target;
   route "POST" "/compute/jobs/{job}/cancel" Execute "compute.job.cancel" Target;
   route "GET" "/compute/inspect" Read "compute.inspect" Target;
   route "GET" "/compute/jobs/{job}/artifacts" Read "compute.job.artifacts" Target;
   route "GET" "/compute/jobs/{job}/events" Read "compute.job.events" Target;
   route "POST" "/compute/jobs/{job}/output" Read "compute.job.output" Target].

(** This node as a target: sessions. *)
Definition TARGET_SESSION_ROUTES : list Route :=
  [route "POST" "/compute/sessions" Execute "compute.sessions.create" Target;
   route "GET" "/compute/sessions" Read "compute.sessions.list" Target;
   route "GET" "/compute/sessions/{session}" Read "compute.session.get" Target;
   route "GET" "/compute/sessions/{session}/events" Read "compute.session.events" Target;
   route "GET" "/compute/sessions/{session}/logs" Read "compute.session.logs" Target;
   route "POST" "/compute/sessions/{session}/connect" Execute "compute.session.connect" Target;
   route "POST" "/compute/sessions/{session}/exec" Execute "compute.session.exec" Target;
   route "POST" "/compute/sessions/{session}/input" Execute "compute.session.input" Target;
   route "POST" "/compute/sessions/{session}/stop" Execute "compute.session.stop" Target;
   route "POST" "/compute/sessions/{session}/resume" Execute "compute.session.resume" Target;
   route "POST" "/compute/sessions/{session}/destroy" Execute "compute.session.destroy" Target;
   route "POST" "/compute/sessions/{session}/claim" Execute "compute.session.claim" Target;
   route "POST" "/compute/sessions/{session}/fork" Execute "compute.session.fork" Target].

Definition ROUTES : list Route :=
  NODE_ROUTES ++ ENVIRONMENT_ROUTES ++ PROJECT_ROUTES ++ COMPUTER_ROUTES ++ WORK_ROUTES ++
  SOFTWARE_ROUTES ++ DEPLOYMENT_ROUTES ++ APPLICATION_ROUTES ++ TARGET_ROUTES ++ TARGET_SESSION_ROUTES.

(** ** Finding a route *)

Definition template (r : Route) : list string := filter (λ s, is_empty s = false) (split "/" (route_path r)).

Definition is_parameter (segment : string) : bool := starts_with "{" segment.

(** [Route::matches] *)
Definition route_matches (r : Route) (method : string) (segments : list string) : bool :=
  String.eqb (route_method r) method &&
  bool_decide (length (template r) = length segments) &&
  forallb (λ '(expected, actual), is_parameter expected || String.eqb expected actual)
    (zip (template r) segments).

Definition literals (r : Route) : nat := length (filter (λ s, is_parameter s = false) (template r)).

(** [Iterator::max_by_key]: the last of the greatest. *)
Definition max_by_key {A} (key : A → nat) (l : list A) : option A :=
  foldl (λ best x, match best with
                   | Some y => if Nat.ltb (key x) (key y) then Some y else Some x
                   | None => Some x
                   end) None l.

(** [find] *)
Definition find_route (method : string) (segments : list string) : option Route :=
  max_by_key literals (filter (λ r, route_matches r method segments = true) ROUTES).

Definition required_scope (method : string) (segments : list string) : Scope :=
  match find_route method segments with Some r => route_scope r | None => Admin end.

(** ** What a route serves *)

(** A request a route declares: its method, and its path with a value for every
    parameter. *)
Definition serves (r : Route) (method : string) (segments : list string) : Prop :=
  route_method r = method ∧
  Forall2 (λ expected actual, is_parameter expected = true ∨ expected = actual) (template r) segments.

Lemma route_matches_spec r method segments : route_matches r method segments = true ↔ serves r method segments.
Proof.
  unfold route_matches, serves. rewrite !andb_true_iff, String.eqb_eq, bool_decide_eq_true, Logic.and_assoc. f_equiv.
  generalize (template r) as expected. induction segments as [|actual segments IH]; intros [|e expected];
    [split; [constructor|done]|split; [by intros [? _]|by inversion 1]..|].
  simpl. rewrite Forall2_cons, <-IH, andb_true_iff, orb_true_iff, String.eqb_eq. simpl.
  rewrite Nat.succ_inj_wd. tauto.
Qed.

(** The greatest by a key. *)
Lemma max_by_key_spec {A} (key : A → nat) l x :
  max_by_key key l = Some x → x ∈ l ∧ ∀ y, y ∈ l → key y ≤ key x.
Proof.
  unfold max_by_key. revert x. induction l as [|y l IH] using rev_ind; intros x; [done|].
  rewrite foldl_app. simpl. setoid_rewrite elem_of_app. setoid_rewrite list_elem_of_singleton.
  destruct (foldl _ None l) as [z|] eqn:E.
  - destruct (IH z eq_refl) as [Hz Hmax]. destruct (Nat.ltb_spec (key y) (key z)) as [Hlt|Hge]; intros [= <-].
    + split; [by left|]. intros u [Hu| ->]; [by apply Hmax|lia].
    + split; [by right|]. intros u [Hu| ->]; [|done]. specialize (Hmax u Hu). lia.
  - intros [= <-]. split; [by right|]. intros u [Hu| ->]; [|done].
    destruct l as [|v l _] using rev_ind; [by apply not_elem_of_nil in Hu|].
    rewrite foldl_app in E. simpl in E. by repeat case_match.
Qed.

Lemma max_by_key_some {A} (key : A → nat) l y : y ∈ l → is_Some (max_by_key key l).
Proof.
  unfold max_by_key. induction l as [|z l _] using rev_ind; [by intros ?%not_elem_of_nil|].
  intros _. rewrite foldl_app. simpl. repeat case_match; eauto.
Qed.

(** Whether one request can match two routes. *)
Definition overlap (r r' : Route) : bool :=
  String.eqb (route_method r) (route_method r') &&
  bool_decide (length (template r) = length (template r')) &&
  forallb (λ '(e, e'), is_parameter e || is_parameter e' || String.eqb e e') (zip (template r) (template r')).

Lemma serves_overlap r r' method segments :
  serves r method segments → serves r' method segments → overlap r r' = true.
Proof.
  intros [<- Hr] [Hm Hr']. unfold overlap. rewrite Hm, String.eqb_refl.
  rewrite (Forall2_length _ _ _ Hr), (Forall2_length _ _ _ Hr'), bool_decide_true by done. simpl.
  clear Hm. revert Hr'. generalize (template r') as l'. induction Hr as [|e a l segments He _ IH];
    inversion 1 as [|e' a' l'' segments' He' Hl']; subst; [done|]. simpl. rewrite IH by done.
  rewrite andb_true_r, !orb_true_iff, String.eqb_eq. naive_solver.
Qed.

(** Two routes of the registry that one request can match are told apart by how
    much of their paths is literal. *)
Lemma routes_unambiguous r r' :
  r ∈ ROUTES → r' ∈ ROUTES → overlap r r' = true → literals r = literals r' → r = r'.
Proof.
  intros Hr Hr' Ho Hl.
  assert (forallb (λ r, forallb (λ r', bool_decide (r = r') || negb (overlap r r') ||
    negb (Nat.eqb (literals r) (literals r'))) ROUTES) ROUTES = true) as Hall by (vm_compute; reflexivity).
  rewrite forallb_forall in Hall. specialize (Hall r (proj1 (list_elem_of_In _ _) Hr)).
  rewrite forallb_forall in Hall. specialize (Hall r' (proj1 (list_elem_of_In _ _) Hr')).
  rewrite Ho, Hl, Nat.eqb_refl, !orb_false_r in Hall. by apply bool_decide_eq_true in Hall.
Qed.

(** Every request has one route: [find] answers the route of the registry that
    serves it and is more specific than any other that does, so the order in which
    routes are listed never decides which scope a request needs. *)
Lemma find_route_exact method segments r :
  find_route method segments = Some r ↔
  r ∈ ROUTES ∧ serves r method segments ∧
  ∀ r', r' ∈ ROUTES → serves r' method segments → r' ≠ r → literals r' < literals r.
Proof.
  unfold find_route. set (l := filter _ ROUTES).
  assert (∀ r, r ∈ l ↔ r ∈ ROUTES ∧ serves r method segments) as Hl.
  { intros r'. unfold l. rewrite list_elem_of_filter, route_matches_spec. naive_solver. }
  assert (∀ r, max_by_key literals l = Some r →
    ∀ r', r' ∈ ROUTES → serves r' method segments → r' ≠ r → literals r' < literals r) as Hmax.
  { intros r0 [Hin Hge]%max_by_key_spec r' Hr' Hs Hne. apply Hl in Hin as [Hin Hs0].
    specialize (Hge r' (proj2 (Hl r') (conj Hr' Hs))).
    destruct (decide (literals r' = literals r0)) as [Heq|]; [|lia].
    destruct Hne. apply routes_unambiguous; [done..|by eapply serves_overlap|done]. }
  split.
  - intros Hfind. pose proof (max_by_key_spec _ _ _ Hfind) as [[Hin Hs]%Hl _]. split_and!; [done..|by apply Hmax].
  - intros (Hin & Hs & Hbest).
    destruct (max_by_key_some literals l r) as [r0 Hr0]; [by apply Hl|]. rewrite Hr0. f_equal.
    destruct (decide (r = r0)) as [|Hne]; [done|]. pose proof (max_by_key_spec _ _ _ Hr0) as [[Hin0 Hs0]%Hl _].
    specialize (Hmax r0 Hr0 r Hin Hs Hne). specialize (Hbest r0 Hin0 Hs0 (not_eq_sym Hne)). lia.
Qed.

(** The registry: no method and path is declared twice, operations have one
    name each, targets are what is under [/compute/], and what is not a [GET] needs
    more than [compute.read], three reads with a body apart. *)
Definition reads_with_body : list string :=
  ["environment.job.output"; "recipes.resolve"; "compute.job.output"].

Fixpoint distinct (l : list string) : bool :=
  match l with [] => true | x :: l => negb (existsb (String.eqb x) l) && distinct l end.

Lemma distinct_NoDup l : distinct l = true → NoDup l.
Proof.
  induction l as [|x l IH]; intros Hd; [constructor|]. simpl in Hd. apply andb_true_iff in Hd as [Hx Hl].
  constructor; [|by apply IH]. intros Hin%list_elem_of_In. apply negb_true_iff, not_true_iff_false in Hx. apply Hx.
  apply existsb_exists. exists x. split; [done|apply String.eqb_refl].
Qed.

Lemma registry_sound :
  NoDup ((λ r, route_method r +:+ " " +:+ route_path r) <$> ROUTES) ∧ NoDup (route_operation <$> ROUTES) ∧
  ∀ r, r ∈ ROUTES →
    (route_surface r = Target ↔ starts_with "/compute/" (route_path r) = true) ∧
    (route_method r ≠ "GET" → route_scope r = Read → route_operation r ∈ reads_with_body).
Proof.
  split_and!; [apply distinct_NoDup; vm_compute; reflexivity..|].
  assert (forallb (λ r, Bool.eqb (bool_decide (route_surface r = Target)) (starts_with "/compute/" (route_path r)) &&
    (String.eqb (route_method r) "GET" || negb (bool_decide (route_scope r = Read)) ||
     bool_decide (route_operation r ∈ reads_with_body))) ROUTES = true) as Hall by (vm_compute; reflexivity).
  rewrite forallb_forall in Hall. intros r Hr%list_elem_of_In. specialize (Hall r Hr). clear Hr.
  apply andb_true_iff in Hall as [Hs Hread]. apply (proj1 (Bool.eqb_true_iff _ _)) in Hs. split.
  - rewrite <-Hs. symmetry. apply bool_decide_eq_true.
  - intros Hget Hscope. rewrite !orb_true_iff, String.eqb_eq, negb_true_iff, bool_decide_eq_false,
      bool_decide_eq_true in Hread. by destruct Hread as [[?|?]|?].
Qed.
