(* ===== verification/Auth.v ===== *)
(** Operators of the Compute API: credentials and their authentication
    (src/crates/compute-environment/src/auth.rs), and what the daemon does with
    them in control state shared with other nodes (daemon/operators.rs).

    SHA-256 and [chrono] are parameters; the random bytes a credential is minted
    from, the clock, and whether a file or control state can be reached are
    arguments. *)

From S2P Require Import Prelude Text Utf8 Routes.

(** ** Errors *)

Inductive EnvironmentError : Type :=
| Invalid (message : string)
| NotFound (message : string)
| NoRoute (message : string)
| Conflict (message : string)
| Denied (message : string)
| Unauthorized (message : string)
| Forbidden (message : string)
| RuntimeUnavailable (message : string)
| Cancelled (message : string)
| ControllerUnavailable (message : string)
| UpgradeFailed (message : string)
| Unavailable (message : string)
| Io (message : string)
| Json (message : string)
| Compute (message : string).

Definition error_kind (e : EnvironmentError) : string :=
  match e with
  | Invalid _ | Json _ | Compute _ => "invalid"
  | NotFound _ => "not_found"
  | NoRoute _ => "no_route"
  | Conflict _ => "conflict"
  | Denied _ => "admission_denied"
  | Unauthorized _ => "authentication_failed"
  | Forbidden _ => "authorization_denied"
  | RuntimeUnavailable _ => "runtime_unavailable"
  | Cancelled _ => "cancelled"
  | ControllerUnavailable _ => "controller_unavailable"
  | UpgradeFailed _ => "upgrade_failed"
  | Unavailable _ => "state_unavailable"
  | Io _ => "io"
  end.

(** [EnvironmentError::message]; [Io], [Json] and [Compute] hold what their source
    displays. *)
Definition error_message (e : EnvironmentError) : string :=
  match e with
  | Invalid m | NotFound m | NoRoute m | Conflict m | Denied m | Unauthorized m | Forbidden m
  | RuntimeUnavailable m | Cancelled m | ControllerUnavailable m | UpgradeFailed m | Unavailable m => m
  | Io m => "I/O error: " +:+ m
  | Json m => "JSON error: " +:+ m
  | Compute m => m
  end.

Definition error_status (e : EnvironmentError) : N :=
  match e with
  | Invalid _ | Json _ | Compute _ => 400
  | Unauthorized _ => 401
  | Denied _ | Forbidden _ => 403
  | Cancelled _ => 409
  | UpgradeFailed _ => 500
  | RuntimeUnavailable _ | ControllerUnavailable _ => 503
  | NotFound _ | NoRoute _ => 404
  | Conflict _ => 409
  | Io _ => 500
  | Unavailable _ => 503
  end.

(** ** Credentials *)

(** Instants are nanoseconds since the epoch. *)
Record OperatorCredentialRecord : Type := {
  credential_id : string;
  operator_id : string;
  scopes : list string;
  cred_verifier : string;
  description : option string;
  created_at : Z;
  expires_at : option Z;
  revoked_at : option Z;
  rotated_from : option string;
  created_by : option string;
}.

(** What an operator may do, a [BTreeSet] of scopes. *)
Record Principal : Type := {
  pr_operator_id : string;
  pr_credential_id : option string;
  pr_scopes : list Scope;
  pr_development : bool;
}.

Definition scope_set (l : list Scope) : list Scope := filter (λ s, s ∈ l) SCOPES.

(** [Principal::allows] *)
Definition allows (p : Principal) (scope : Scope) : bool :=
  bool_decide (Admin ∈ pr_scopes p) || bool_decide (scope ∈ pr_scopes p).

Definition development_principal : Principal :=
  {| pr_operator_id := "development"; pr_credential_id := None; pr_scopes := scope_set SCOPES;
     pr_development := true |}.

Inductive SecurityMode : Type := Development | Production.

Record SecurityConfig : Type := {
  mode : SecurityMode;
  reason : string;
  tls : bool;
  legacy_token : option string;
}.

Definition passed (at_ : option Z) (now : Z) : bool :=
  match at_ with Some at_ => Z.leb at_ now | None => false end.

(** [status] *)
Definition credential_status (r : OperatorCredentialRecord) (now : Z) : string :=
  if passed (revoked_at r) now then "revoked"
  else if passed (expires_at r) now then "expired" else "active".

(** [CredentialView::of] shows all but the verifier. *)
Record CredentialView : Type := {
  view_credential_id : string;
  view_operator_id : string;
  view_scopes : list string;
  view_description : option string;
  view_created_at : Z;
  view_expires_at : option Z;
  view_revoked_at : option Z;
  view_rotated_from : option string;
  view_created_by : option string;
  view_status : string;
}.

Definition view_of (r : OperatorCredentialRecord) (now : Z) : CredentialView :=
  {| view_credential_id := credential_id r; view_operator_id := operator_id r; view_scopes := scopes r;
     view_description := description r; view_created_at := created_at r; view_expires_at := expires_at r;
     view_revoked_at := revoked_at r; view_rotated_from := rotated_from r; view_created_by := created_by r;
     view_status := credential_status r now |}.

Record CredentialRequest : Type := {
  req_operator_id : string;
  req_scopes : list string;
  req_description : option string;
  req_expires_in_seconds : option N;
}.

Definition TOKEN_PREFIX : string := "cmpt_".

Definition hex_digit (d : N) : ascii := ascii_of_N (if N.ltb d 10 then 48 + d else 87 + d).

(** [hex] *)
Fixpoint hex (l : list N) : string :=
  match l with [] => "" | b :: l => String (hex_digit (b / 16)) (String (hex_digit (b mod 16)) (hex l)) end.

(** [u64 as i64] *)
Definition as_i64 (n : N) : Z := if N.leb n I64_MAX then Z.of_N n else Z.of_N n - 2 ^ 64.

Definition operator_char (c : N) : bool :=
  is_ascii_alphanumeric c || existsb (N.eqb c) [45; 95; 46; 64]%N.

Fixpoint parse_scopes (l : list string) : Result (list string) string :=
  match l with
  | [] => Ok []
  | s :: l => let? scope := parse_scope s in let? rest := parse_scopes l in Ok (scope_str scope :: rest)
  end.

Section Credentials.
  Context `{!Sha256Hex, !Chrono}.

Definition verifier (secret : string) : string := sha256_hex secret.

(** [mint], with the random bytes of the identifier and of the secret; [None]
    when the instant of expiry is out of range. *)
Definition mint (request : CredentialRequest) (created_by rotated_from : option string)
    (id_bytes secret_bytes : list N) (now : Z)
    : option (Result (OperatorCredentialRecord * string) EnvironmentError) :=
  let operator := trim (req_operator_id request) in
  if is_empty operator || N.ltb 128 (len operator) || negb (forallb operator_char (chars operator)) then
    Some (Err (Invalid "operator_id must be 1-128 characters of letters, digits, - _ . @"))
  else if bool_decide (req_scopes request = []) then Some (Err (Invalid "a credential needs at least one scope"))
  else
    match parse_scopes (req_scopes request) with
    | Err message => Some (Err (Invalid message))
    | Ok names =>
        let id := "cred_" +:+ hex id_bytes in
        let secret := hex secret_bytes in
        expires ←
          match req_expires_in_seconds request with
          | Some seconds => Some <$> add_seconds now (Z.of_N (N.min seconds I64_MAX))
          | None => Some None
          end;
        Some (Ok ({| credential_id := id; operator_id := operator; scopes := dedup (sort_by cmp names);
                     cred_verifier := verifier secret; description := req_description request;
                     created_at := now; expires_at := expires; revoked_at := None;
                     rotated_from := rotated_from; created_by := created_by |},
                  TOKEN_PREFIX +:+ id +:+ String "_" secret))
    end.

(** [constant_time_eq] *)
Definition constant_time_eq (left_ right_ : list N) : bool :=
  bool_decide (length left_ = length right_) &&
  N.eqb (foldl (λ difference '(a, b), N.lor difference (N.lxor a b)) 0%N (zip left_ right_)) 0.

(** ** The authority of a node *)

Record Authority : Type := {
  config : SecurityConfig;
  credentials : gmap string OperatorCredentialRecord;
  loaded_at : option Z;
  (** the records in the snapshot file, when it can be read *)
  snapshot : option (list OperatorCredentialRecord);
}.

Definition rejected : EnvironmentError := Unauthorized "the credential is not valid".

Definition record_principal (r : OperatorCredentialRecord) : Principal :=
  {| pr_operator_id := operator_id r; pr_credential_id := Some (credential_id r);
     pr_scopes := scope_set (omap (λ s, match parse_scope s with Ok scope => Some scope | Err _ => None end) (scopes r));
     pr_development := false |}.

(** [Authority::authenticate] *)
Definition authenticate (a : Authority) (authorization : option string) (now : Z)
    : Result Principal EnvironmentError :=
  match authorization with
  | None =>
      match mode (config a), legacy_token (config a) with
      | Development, None => Ok development_principal
      | _, _ => Err (Unauthorized "this Compute API requires a credential: Authorization: Bearer <token>")
      end
  | Some header =>
      match trim <$> strip_prefix "Bearer " header with
      | None => Err (Unauthorized "expected Authorization: Bearer <token>")
      | Some token =>
          if match legacy_token (config a) with
             | Some legacy => constant_time_eq (bytes (verifier token)) (bytes (verifier legacy))
             | None => false
             end
          then Ok {| pr_operator_id := "legacy-token"; pr_credential_id := None; pr_scopes := scope_set SCOPES;
                     pr_development := false |}
          else
            match strip_prefix TOKEN_PREFIX token ≫= rsplit_once "_" with
            | None => Err rejected
            | Some (id, secret) =>
                match credentials a !! id with
                | None => Err rejected
                | Some r =>
                    if negb (constant_time_eq (bytes (verifier secret)) (bytes (cred_verifier r))) then Err rejected
                    else if String.eqb (credential_status r now) "revoked" then
                      Err (Unauthorized ("credential " +:+ id +:+ " was revoked"))
                    else if String.eqb (credential_status r now) "expired" then
                      Err (Unauthorized ("credential " +:+ id +:+ " expired"))
                    else Ok (record_principal r)
                end
            end
      end
  end.

Definition by_id (records : list OperatorCredentialRecord) : gmap string OperatorCredentialRecord :=
  foldl (λ m r, <[credential_id r := r]> m) ∅ records.

(** [write_snapshot]; the file is replaced when it can be written. *)
Definition write_snapshot (written : bool) (a : Authority) : Authority :=
  {| config := config a; credentials := credentials a; loaded_at := loaded_at a;
     snapshot := if written then Some (snd <$> map_to_list (credentials a)) else snapshot a |}.

Definition set_credentials (m : gmap string OperatorCredentialRecord) (a : Authority) : Authority :=
  {| config := config a; credentials := m; loaded_at := loaded_at a; snapshot := snapshot a |}.

Definition set_loaded (now : Z) (a : Authority) : Authority :=
  {| config := config a; credentials := credentials a; loaded_at := Some now; snapshot := snapshot a |}.

(** [Authority::replace] *)
Definition replace (records : list OperatorCredentialRecord) (now : Z) (written : bool) (a : Authority) : Authority :=
  set_loaded now (write_snapshot written (set_credentials (by_id records) a)).

(** [Authority::upsert] *)
Definition upsert (r : OperatorCredentialRecord) (written : bool) (a : Authority) : Authority :=
  write_snapshot written (set_credentials (<[credential_id r := r]> (credentials a)) a).

(** [Authority::load_snapshot] *)
Definition load_snapshot (a : Authority) : Authority :=
  match snapshot a with Some records => set_credentials (by_id records) a | None => a end.

(** [Authority::has_active_admin] *)
Definition has_active_admin (a : Authority) (now : Z) : bool :=
  existsb (λ r, String.eqb (credential_status r now) "active" &&
                existsb (String.eqb (scope_str Admin)) (scopes r)) (snd <$> map_to_list (credentials a)).

(** ** Changes of credentials *)

(** A record of control state with the version it was written at. *)
Record Stored : Type := {
  version : N;
  value : OperatorCredentialRecord;
}.

(** What a change writes: a new record, or a record in place of one that must
    still be as it was read. *)
Inductive Write : Type :=
| Create (r : OperatorCredentialRecord)
| Replace (stored : Stored) (r : OperatorCredentialRecord).

(** A change, and the records the node's cache takes over once it is applied. *)
Record Plan : Type := {
  writes : list Write;
  upserts : list OperatorCredentialRecord;
}.

Definition set_revoked (at_ : Z) (r : OperatorCredentialRecord) : OperatorCredentialRecord :=
  {| credential_id := credential_id r; operator_id := operator_id r; scopes := scopes r;
     cred_verifier := cred_verifier r; description := description r; created_at := created_at r;
     expires_at := expires_at r; revoked_at := Some at_; rotated_from := rotated_from r;
     created_by := created_by r |}.

(** [create_credential] up to its change; the token is the answer's. *)
Definition create_plan (principal : Principal) (request : CredentialRequest) (id_bytes secret_bytes : list N)
    (now : Z) : option (Result (Plan * (CredentialView * string)) EnvironmentError) :=
  minted ← mint request (Some (pr_operator_id principal)) None id_bytes secret_bytes now;
  Some (and_then minted (λ '(r, token), Ok ({| writes := [Create r]; upserts := [r] |}, (view_of r now, token)))).

(** [bootstrap_admin]: the first admin of a production node. *)
Definition bootstrap_plan (a : Authority) (id_bytes secret_bytes : list N) (now : Z)
    : option (Result (option (Plan * string)) EnvironmentError) :=
  match mode (config a) with
  | Development => Some (Ok None)
  | Production =>
      if has_active_admin a now then Some (Ok None)
      else
        minted ← mint {| req_operator_id := "bootstrap-admin"; req_scopes := [scope_str Admin];
                         req_description := Some "issued at first production start; revoke after use";
                         req_expires_in_seconds := None |} (Some "compute") None id_bytes secret_bytes now;
        Some (and_then minted (λ '(r, token), Ok (Some ({| writes := [Create r]; upserts := [r] |}, token))))
  end.

(** [revoke_credential] of what was read: no change when it has an end already. *)
Definition revoke_plan (stored : Stored) (now : Z) : option Plan * CredentialView :=
  match revoked_at (value stored) with
  | Some _ => (None, view_of (value stored) now)
  | None =>
      let r := set_revoked now (value stored) in
      (Some {| writes := [Replace stored r]; upserts := [r] |}, view_of r now)
  end.

(** [rotate_credential] of what was read. *)
Definition rotate_plan (principal : Principal) (stored : Stored) (grace_seconds : N)
    (id_bytes secret_bytes : list N) (now : Z)
    : option (Result (Plan * (CredentialView * string)) EnvironmentError) :=
  let old := value stored in
  match revoked_at old with
  | Some _ => Some (Err (Conflict ("credential " +:+ credential_id old +:+ " is revoked; create a new one")))
  | None =>
      minted ← mint
        {| req_operator_id := operator_id old; req_scopes := scopes old; req_description := description old;
           req_expires_in_seconds :=
             (λ at_, Z.to_N (Z.max (Z.quot (at_ - created_at old) (10 ^ 9)) 1)) <$> expires_at old |}
        (Some (pr_operator_id principal)) (Some (credential_id old)) id_bytes secret_bytes now;
      match minted with
      | Err e => Some (Err e)
      | Ok (r, token) =>
          end_ ← add_seconds now (as_i64 grace_seconds);
          let old := set_revoked end_ old in
          Some (Ok ({| writes := [Create r; Replace stored old]; upserts := [old; r] |}, (view_of r now, token)))
      end
  end.

(** ** Nodes and control state *)

Notation Control := (gmap string Stored).

(** What a write stores with the next version; [None] is a conflict. *)
Definition written_by (next : N) (w : Write) (c : Control) : option Stored :=
  match w with
  | Create r => match c !! credential_id r with None => Some {| version := next; value := r |} | Some _ => None end
  | Replace stored r =>
      match c !! credential_id (value stored) with
      | Some current => if N.eqb (version current) (version stored) then Some {| version := next; value := r |} else None
      | None => None
      end
  end.

Definition written_id (w : Write) : string :=
  match w with Create r => credential_id r | Replace stored _ => credential_id (value stored) end.

(** A batch: the control state after it and what it stored. *)
Fixpoint apply_all (next : N) (ws : list Write) (c : Control) : option (Control * list Stored) :=
  match ws with
  | [] => Some (c, [])
  | w :: ws =>
      stored ← written_by next w c;
      '(c', rest) ← apply_all (next + 1) ws (<[written_id w := stored]> c);
      Some (c', stored :: rest)
  end.

(** A node beside the control state it shares with others: what handlers have
    applied and not yet put into the cache, and the lists that loads have read and
    not yet put in its place. *)
Record Node : Type := {
  control : Control;
  next_version : N;
  (** everything control state ever held *)
  history : list Stored;
  authority : Authority;
  finishing : list OperatorCredentialRecord;
  loading : list (list OperatorCredentialRecord);
}.

(** The plans handlers make of a record they read. *)
Inductive planned : Plan → Prop :=
| planned_create principal request id secret now plan answer :
    create_plan principal request id secret now = Some (Ok (plan, answer)) → planned plan
| planned_bootstrap a id secret now plan token :
    bootstrap_plan a id secret now = Some (Ok (Some (plan, token))) → planned plan
| planned_revoke stored now plan view : revoke_plan stored now = (Some plan, view) → planned plan
| planned_rotate principal stored grace id secret now plan answer :
    rotate_plan principal stored grace id secret now = Some (Ok (plan, answer)) → planned plan.

Definition reads_of (plan : Plan) : list Stored :=
  omap (λ w, match w with Replace stored _ => Some stored | Create _ => None end) (writes plan).

(** A step of a node or of its neighbours.  What a handler replaces it read from
    control state at some time before. *)
Inductive step : Node → Node → Prop :=
| step_apply d plan c stored (own : bool) :
    planned plan → reads_of plan ⊆ history d →
    apply_all (next_version d) (writes plan) (control d) = Some (c, stored) →
    step d {| control := c; next_version := next_version d + N.of_nat (length (writes plan));
              history := stored ++ history d; authority := authority d;
              finishing := (if own then upserts plan else []) ++ finishing d; loading := loading d |}
| step_finish d r before after written :
    finishing d = before ++ r :: after →
    step d {| control := control d; next_version := next_version d; history := history d;
              authority := upsert r written (authority d); finishing := before ++ after; loading := loading d |}
| step_list d :
    step d {| control := control d; next_version := next_version d; history := history d;
              authority := authority d; finishing := finishing d;
              loading := (value ∘ snd <$> map_to_list (control d)) :: loading d |}
| step_replace d l before after now written :
    loading d = before ++ l :: after →
    step d {| control := control d; next_version := next_version d; history := history d;
              authority := replace l now written (authority d); finishing := finishing d; loading := before ++ after |}
| step_unreachable d :
    step d {| control := control d; next_version := next_version d; history := history d;
              authority := load_snapshot (authority d); finishing := finishing d; loading := loading d |}
| step_restart d :
    step d {| control := control d; next_version := next_version d; history := history d;
              authority := {| config := config (authority d); credentials := ∅; loaded_at := None;
                              snapshot := snapshot (authority d) |};
              finishing := []; loading := [] |}.

(** A node before anything was stored. *)
Definition fresh (security : SecurityConfig) : Node :=
  {| control := ∅; next_version := 1; history := [];
     authority := {| config := security; credentials := ∅; loaded_at := None; snapshot := None |};
     finishing := []; loading := [] |}.
End Credentials.

(** ** What handlers write *)

Notation Control := (gmap string Stored).

(** A record before another: the same, or before its end was set. *)
Definition earlier (r r' : OperatorCredentialRecord) : Prop :=
  r = r' ∨ (revoked_at r = None ∧ ∃ t, r' = set_revoked t r).

#[export] Instance earlier_preorder : PreOrder earlier.
Proof.
  split; [by left|]. intros r1 r2 r3 [->|[Hn [t Ht]]] [<-|[Hn' H3]]; unfold earlier; eauto.
  by rewrite Ht in Hn'.
Qed.

Definition record_of (w : Write) : OperatorCredentialRecord := match w with Create r | Replace _ r => r end.

Definition write_fine (w : Write) : Prop :=
  match w with
  | Create r => revoked_at r = None
  | Replace stored r => revoked_at (value stored) = None ∧ ∃ t, r = set_revoked t (value stored)
  end.

Section Invariant.
  Context `{!Sha256Hex, !Chrono}.

Lemma mint_fresh request created_by rotated_from id secret now r token :
  mint request created_by rotated_from id secret now = Some (Ok (r, token)) → revoked_at r = None.
Proof.
  unfold mint. repeat case_match; try done; intros (e & _ & [= <- _])%bind_Some; done.
Qed.

Lemma planned_fine plan :
  planned plan → Forall write_fine (writes plan) ∧ ∀ r, r ∈ upserts plan → r ∈ record_of <$> writes plan.
Proof.
  destruct 1 as [? ? ? ? ? plan ? Hp|? ? ? ? plan ? Hp|stored now plan view Hp|? stored ? ? ? ? plan ? Hp].
  - unfold create_plan in Hp. apply bind_Some in Hp as (minted & Hm & [= Hp]).
    destruct minted as [[r token]|]; [|done]. simpl in Hp. injection Hp as <- _. apply mint_fresh in Hm.
    split; [by repeat constructor|]. simpl. set_solver.
  - unfold bootstrap_plan in Hp. destruct (mode _); [done|]. destruct (has_active_admin _ _); [done|].
    apply bind_Some in Hp as (minted & Hm & [= Hp]). destruct minted as [[r tok]|]; [|done]. simpl in Hp.
    injection Hp as <- _. apply mint_fresh in Hm. split; [by repeat constructor|]. simpl. set_solver.
  - unfold revoke_plan in Hp. destruct (revoked_at (value stored)) eqn:Hr; [done|]. injection Hp as <- _.
    split; [repeat constructor; eauto|]. simpl. set_solver.
  - unfold rotate_plan in Hp. destruct (revoked_at (value stored)) eqn:Hr; [done|].
    apply bind_Some in Hp as (minted & Hm & Hp). destruct minted as [[r tok]|]; [|done].
    apply bind_Some in Hp as (end_ & _ & [= <- _]). apply mint_fresh in Hm.
    split; [repeat constructor; simpl; eauto|]. simpl. set_solver.
Qed.

(** ** Control state *)

(** Records under their identifiers, and versions that tell apart everything that
    was ever stored. *)
Record control_ok (c : Control) (next : N) (h : list Stored) : Prop := {
  ok_held id s : c !! id = Some s → s ∈ h ∧ credential_id (value s) = id;
  ok_before s : s ∈ h → (version s < next)%N;
  ok_unique s s' : s ∈ h → s' ∈ h → version s = version s' → s = s';
}.

Lemma control_ok_perm c next h h' : h ≡ₚ h' → control_ok c next h → control_ok c next h'.
Proof. intros Hh [H1 H2 H3]. split; intros *; rewrite <-?Hh; eauto. Qed.

(** Records only change by being given an end, once. *)
Definition grows (c c' : Control) : Prop :=
  ∀ id s, c !! id = Some s → ∃ s', c' !! id = Some s' ∧ earlier (value s) (value s').

#[export] Instance grows_preorder : PreOrder grows.
Proof.
  split; [intros c id s Hs; by exists s|]. intros c1 c2 c3 H12 H23 id s Hs.
  destruct (H12 id s Hs) as (s' & Hs' & He). destruct (H23 id s' Hs') as (s'' & Hs'' & He').
  exists s''. split; [done|by etrans].
Qed.

Lemma write_ok c next h w s :
  control_ok c next h → write_fine w → (∀ stored r, w = Replace stored r → stored ∈ h) →
  written_by next w c = Some s →
  control_ok (<[written_id w := s]> c) (next + 1) (s :: h) ∧ grows c (<[written_id w := s]> c) ∧
  value s = record_of w ∧ credential_id (value s) = written_id w.
Proof.
  intros [Hheld Hbefore Huniq] Hfine Hread Hw.
  assert (version s = next ∧ value s = record_of w ∧ credential_id (value s) = written_id w ∧
    ∀ cur, c !! written_id w = Some cur → earlier (value cur) (value s)) as (Hver & Hval & Hid & Hearlier).
  { destruct w as [r|stored r]; simpl in Hw |- *.
    - destruct (c !! credential_id r) eqn:E; [done|]. injection Hw as <-. simpl. done.
    - destruct (c !! credential_id (value stored)) as [cur|] eqn:E; [|done].
      destruct (N.eqb_spec (version cur) (version stored)) as [Hv|]; [|done]. injection Hw as <-. simpl.
      destruct Hfine as [Hnone [t ->]]. split_and!; [done..|]. intros cur' [= <-]. destruct (Hheld _ _ E) as [Hcur _].
      rewrite (Huniq cur stored Hcur (Hread _ _ eq_refl) Hv). right. eauto. }
  split_and!; [| |done|done].
  - split.
    + intros id s' [[<- <-]|[Hne Hs']]%lookup_insert_Some; [split; [by left|done]|].
      destruct (Hheld _ _ Hs'). split; [by right|done].
    + intros s' [->|Hs']%elem_of_cons; [lia|]. apply Hbefore in Hs'. lia.
    + intros s1 s2 [->|H1]%elem_of_cons [->|H2]%elem_of_cons Heq; [done| | |by apply Huniq].
      * apply Hbefore in H2. lia.
      * apply Hbefore in H1. lia.
  - intros id s' Hs'. destruct (decide (id = written_id w)) as [->|Hne].
    + exists s. rewrite lookup_insert_eq. eauto.
    + exists s'. rewrite lookup_insert_ne by done. done.
Qed.

Lemma apply_all_ok ws c next h c' stored :
  control_ok c next h → Forall write_fine ws → (∀ s r, Replace s r ∈ ws → s ∈ h) →
  apply_all next ws c = Some (c', stored) →
  control_ok c' (next + N.of_nat (length ws)) (stored ++ h) ∧ grows c c' ∧
  ∀ w, w ∈ ws → ∃ s, c' !! credential_id (record_of w) = Some s ∧ earlier (record_of w) (value s).
Proof.
  intros Hok Hfine. revert c next h stored Hok.
  induction Hfine as [|w ws Hw _ IH]; intros c next h stored Hok Hreads Happ; simpl in Happ.
  { injection Happ as <- <-. rewrite N.add_0_r. split_and!; [done..|by intros w ?%not_elem_of_nil]. }
  apply bind_Some in Happ as (s & Hs & Happ). apply bind_Some in Happ as ([c1 rest] & Happ & [= <- <-]).
  destruct (write_ok c next h w s Hok Hw) as (Hok1 & Hgrow & Hval & Hid); [|done|].
  { intros s0 r ->. apply (Hreads s0 r). by left. }
  destruct (IH _ _ _ rest Hok1) as (Hok2 & Hgrow2 & Hall); [|done|].
  { intros s0 r Hin. right. apply (Hreads s0 r). by right. }
  split_and!.
  - cbn [length]. rewrite Nat2N.inj_succ, <-N.add_1_l, N.add_assoc.
    eapply control_ok_perm; [|exact Hok2]. symmetry. apply Permutation_middle.
  - by etrans.
  - intros w' [->|Hin]%elem_of_cons; [|by apply Hall].
    destruct (Hgrow2 (written_id w) s) as (s' & Hs' & He); [apply lookup_insert_eq|].
    rewrite <-Hval, Hid. eauto.
Qed.

(** ** Nodes *)

(** The records a node holds anywhere. *)
Definition copy (d : Node) (r : OperatorCredentialRecord) : Prop :=
  r ∈ finishing d ∨ (∃ l, l ∈ loading d ∧ r ∈ l) ∨ (∃ id, credentials (authority d) !! id = Some r) ∨
  (∃ l, snapshot (authority d) = Some l ∧ r ∈ l).

(** A node's copies are of records control state holds, possibly from before they
    were given an end. *)
Record node_ok (d : Node) : Prop := {
  ok_control : control_ok (control d) (next_version d) (history d);
  ok_copies r : copy d r → ∃ s, control d !! credential_id r = Some s ∧ earlier r (value s);
  ok_keys id r : credentials (authority d) !! id = Some r → credential_id r = id;
}.

Lemma by_id_lookup l id r : by_id l !! id = Some r → r ∈ l ∧ credential_id r = id.
Proof.
  unfold by_id. induction l as [|r' l IH] using rev_ind; [done|].
  rewrite foldl_app. simpl. rewrite lookup_insert_Some. intros [[<- <-]|[_ Hl]].
  - split; [|done]. apply elem_of_app. right. by left.
  - destruct (IH Hl). split; [|done]. apply elem_of_app. by left.
Qed.

Lemma map_values_elem {A} (m : gmap string A) x : x ∈ (snd <$> map_to_list m) ↔ ∃ id, m !! id = Some x.
Proof.
  rewrite list_elem_of_fmap. split.
  - intros ([id y] & -> & Hin). apply elem_of_map_to_list in Hin. eauto.
  - intros [id Hid]. exists (id, x). by rewrite elem_of_map_to_list.
Qed.

(** Where the copies of a node come from after a step that leaves control state
    alone. *)
Lemma upsert_copies r written a r' :
  (∃ id, credentials (upsert r written a) !! id = Some r') ∨
  (∃ l, snapshot (upsert r written a) = Some l ∧ r' ∈ l) →
  r' = r ∨ (∃ id, credentials a !! id = Some r') ∨ (∃ l, snapshot a = Some l ∧ r' ∈ l).
Proof.
  assert ((∃ id, <[credential_id r := r]> (credentials a) !! id = Some r') →
    r' = r ∨ (∃ id, credentials a !! id = Some r')) as Hins.
  { intros [id [[_ <-]|[_ Hid]]%lookup_insert_Some]; eauto. }
  unfold upsert, write_snapshot, set_credentials. simpl. intros [Hc|(l & Hl & Hr)]; [naive_solver|].
  destruct written; [|eauto]. injection Hl as <-. apply map_values_elem in Hr. naive_solver.
Qed.

Lemma replace_copies l now written a r' :
  (∃ id, credentials (replace l now written a) !! id = Some r') ∨
  (∃ k, snapshot (replace l now written a) = Some k ∧ r' ∈ k) →
  r' ∈ l ∨ (∃ k, snapshot a = Some k ∧ r' ∈ k).
Proof.
  unfold replace, write_snapshot, set_credentials, set_loaded. simpl. intros [[id Hid]|(k & Hk & Hr)].
  - left. by apply by_id_lookup in Hid as [? _].
  - destruct written; [|eauto]. injection Hk as <-. apply map_values_elem in Hr as [id Hid].
    left. by apply by_id_lookup in Hid as [? _].
Qed.

Lemma load_snapshot_copies a r' :
  (∃ id, credentials (load_snapshot a) !! id = Some r') ∨ (∃ k, snapshot (load_snapshot a) = Some k ∧ r' ∈ k) →
  (∃ id, credentials a !! id = Some r') ∨ (∃ k, snapshot a = Some k ∧ r' ∈ k).
Proof.
  unfold load_snapshot. destruct (snapshot a) as [l|] eqn:E; [|by rewrite E]. simpl. rewrite E.
  intros [[id Hid]|Hk]; [|by right]. apply by_id_lookup in Hid as [? _]. eauto.
Qed.

(** A step adds as copies only what control state holds then, and what it
    applied. *)
Lemma step_copies d d' r :
  step d d' → copy d' r →
  copy d r ∨ (∃ id s, control d !! id = Some s ∧ value s = r) ∨
  (∃ plan c stored, planned plan ∧ reads_of plan ⊆ history d ∧
     apply_all (next_version d) (writes plan) (control d) = Some (c, stored) ∧ control d' = c ∧ r ∈ upserts plan).
Proof.
  intros Hstep Hcopy. unfold copy in *.
  destruct Hstep as [d plan c stored own Hp Hr Ha|d r' before after written Hf|d|d l before after now written Hl|d|d];
    simpl in Hcopy.
  - rewrite elem_of_app in Hcopy. destruct Hcopy as [[Hup|Hfin]|Hrest]; [|by left; left|by left; right].
    destruct own; [|by apply not_elem_of_nil in Hup]. right; right. exists plan, c, stored. done.
  - rewrite Hf. rewrite elem_of_app in *. setoid_rewrite elem_of_cons.
    destruct Hcopy as [Hfin|[Hload|Hauth]]; [naive_solver|naive_solver|].
    apply upsert_copies in Hauth. naive_solver.
  - destruct Hcopy as [?|[(l & Hl & Hr)|?]]; [naive_solver| |naive_solver].
    apply elem_of_cons in Hl as [->|Hl]; [|left; right; left; eauto]. right; left.
    apply list_elem_of_fmap in Hr as ([id s] & -> & Hin). apply elem_of_map_to_list in Hin. eauto.
  - destruct Hcopy as [?|[(k & Hk & Hr)|Hauth]]; [naive_solver| |].
    + left; right; left. exists k. rewrite Hl. rewrite elem_of_app in *. rewrite elem_of_cons. naive_solver.
    + apply (replace_copies l now written) in Hauth as [Hr|Hs]; [|left; right; right; by right].
      left; right; left. exists l. rewrite Hl, elem_of_app, elem_of_cons. naive_solver.
  - destruct Hcopy as [?|[?|Hauth]]; [naive_solver..|]. apply load_snapshot_copies in Hauth. naive_solver.
  - destruct Hcopy as [?%not_elem_of_nil|[(l & ?%not_elem_of_nil & _)|[[id Hid]|?]]]; [done..| |naive_solver].
    by rewrite lookup_empty in Hid.
Qed.

Lemma reads_of_subset plan h s r : reads_of plan ⊆ h → Replace s r ∈ writes plan → s ∈ h.
Proof. intros Hr Hin. apply Hr. unfold reads_of. apply list_elem_of_omap. eauto. Qed.

Lemma step_control d d' :
  control_ok (control d) (next_version d) (history d) → step d d' →
  control_ok (control d') (next_version d') (history d') ∧ grows (control d) (control d').
Proof.
  intros Hok Hstep. destruct Hstep as [d plan c stored own Hp Hr Ha|d|d|d|d|d]; [|by split..].
  destruct (planned_fine plan Hp) as [Hfine _].
  destruct (apply_all_ok (writes plan) _ _ _ c stored Hok Hfine) as (Hok' & Hgrow & _); [|exact Ha|done].
  intros s r. by apply reads_of_subset.
Qed.

Lemma node_step_ok d d' : node_ok d → step d d' → node_ok d'.
Proof.
  intros [Hc Hcopies Hkeys] Hstep. destruct (step_control d d' Hc Hstep) as [Hc' Hgrow]. split; [done| |].
  - intros r Hcopy. destruct (step_copies d d' r Hstep Hcopy) as [Hr|[(id & s & Hs & <-)|Hplan]].
    + destruct (Hcopies r Hr) as (s & Hs & He). destruct (Hgrow _ s Hs) as (s' & Hs' & He').
      exists s'. split; [done|by etrans].
    + destruct (ok_held _ _ _ Hc id s Hs) as [_ <-]. by apply Hgrow.
    + destruct Hplan as (plan & c & stored & Hp & Hr & Ha & <- & Hup).
      destruct (planned_fine plan Hp) as [Hfine Hsub]. apply Hsub in Hup. apply list_elem_of_fmap in Hup as (w & -> & Hw).
      destruct (apply_all_ok (writes plan) _ _ _ (control d') stored Hc Hfine) as (_ & _ & Hall); [|exact Ha|by apply Hall].
      intros s r. by apply reads_of_subset.
  - intros id r. destruct Hstep as [d plan c stored own Hp Hr Ha|d r' before after written Hf|d|d l before after now written Hl|d|d];
      simpl; [by apply Hkeys| |by apply Hkeys| | |by rewrite lookup_empty].
    + rewrite lookup_insert_Some. intros [[<- <-]|[_ ?]]; [done|by apply Hkeys].
    + by intros [_ ?]%by_id_lookup.
    + unfold load_snapshot. destruct (snapshot (authority d)); [by intros [_ ?]%by_id_lookup|by apply Hkeys].
Qed.

Lemma fresh_ok security : node_ok (fresh security).
Proof.
  split; simpl.
  - split; [intros id s Hid; by rewrite lookup_empty in Hid|by intros ? ?%not_elem_of_nil|by intros ? ? ?%not_elem_of_nil].
  - intros r [?%not_elem_of_nil|[(l & ?%not_elem_of_nil & _)|[[id Hid]|(l & Hl & _)]]]; [done|done| |done].
    simpl in Hid. by rewrite lookup_empty in Hid.
  - intros id r Hid. by rewrite lookup_empty in Hid.
Qed.

Lemma node_reachable_ok security d : rtc step (fresh security) d → node_ok d.
Proof.
  intros Hr. assert (node_ok (fresh security)) as Hok by apply fresh_ok.
  induction Hr as [|d d' d'' Hstep _ IH]; [done|]. by apply IH, (node_step_ok d).
Qed.

(** ** Authentication *)

Lemma difference_zero l r d :
  length l = length r →
  foldl (λ difference '(a, b), N.lor difference (N.lxor a b)) d (zip l r) = 0%N ↔ d = 0%N ∧ l = r.
Proof.
  revert r d. induction l as [|a l IH]; intros [|b r] d Hlen; [naive_solver|done|done|].
  injection Hlen as Hlen. simpl. rewrite IH by done. rewrite N.lor_eq_0_iff, N.lxor_eq_0_iff. naive_solver.
Qed.

Lemma constant_time_eq_spec s t : constant_time_eq (bytes s) (bytes t) = true ↔ s = t.
Proof.
  unfold constant_time_eq. rewrite andb_true_iff, bool_decide_eq_true, N.eqb_eq. split.
  - intros [Hlen Hz]. apply difference_zero in Hz as [_ Hz]; [|done]. by apply (inj bytes).
  - intros ->. split; [done|]. by apply difference_zero.
Qed.

(** What a header presents: the identifier of a credential and a secret. *)
Definition presented (header id secret : string) : Prop :=
  ∃ token, header = "Bearer " +:+ token ∧ trim token = TOKEN_PREFIX +:+ id +:+ String "_" secret ∧ no_byte "_" secret.

Lemma presented_spec header id secret :
  presented header id secret ↔
  ∃ token, trim <$> strip_prefix "Bearer " header = Some token ∧
    strip_prefix TOKEN_PREFIX token ≫= rsplit_once "_" = Some (id, secret).
Proof.
  split.
  - intros (token & -> & Ht & Hs). exists (trim token). rewrite strip_prefix_app. split; [done|].
    rewrite Ht, strip_prefix_app. simpl. by apply rsplit_once_app.
  - intros (token & (raw & Hraw & ->)%fmap_Some & (rest & Hrest & Hsplit)%bind_Some).
    apply strip_prefix_Some in Hraw, Hrest. apply rsplit_once_spec in Hsplit as [-> Hs].
    exists raw. rewrite Hrest. done.
Qed.

Definition active (r : OperatorCredentialRecord) (now : Z) : Prop :=
  passed (revoked_at r) now = false ∧ passed (expires_at r) now = false.

(** [authenticate] without a pre-shared token. *)
Lemma authenticate_credential a header now p :
  legacy_token (config a) = None →
  authenticate a (Some header) now = Ok p ↔
  ∃ id secret r, presented header id secret ∧ credentials a !! id = Some r ∧
    verifier secret = cred_verifier r ∧ active r now ∧ p = record_principal r.
Proof.
  intros Hlegacy. setoid_rewrite presented_spec. unfold authenticate. rewrite Hlegacy.
  destruct (trim <$> strip_prefix "Bearer " header) as [token|]; [|by split; [|naive_solver]].
  destruct (strip_prefix TOKEN_PREFIX token ≫= rsplit_once "_") as [[id secret]|] eqn:E.
  2: { split; [done|]. intros (id & secret & r & (token' & [= <-] & Ht) & _). congruence. }
  assert (∀ id' secret', (∃ token', Some token = Some token' ∧ strip_prefix TOKEN_PREFIX token' ≫= rsplit_once "_" =
    Some (id', secret')) ↔ (id', secret') = (id, secret)) as Hthis.
  { intros id' secret'. split; [intros (? & [= <-] & Ht); congruence|]. intros [= -> ->]. eauto. }
  setoid_rewrite Hthis. unfold active, credential_status.
  destruct (credentials a !! id) as [r|] eqn:Hr; [|by split; [|intros (? & ? & ? & [= -> ->] & ? & _); congruence]].
  destruct (constant_time_eq (bytes (verifier secret)) (bytes (cred_verifier r))) eqn:Hv.
  2: { split; [done|]. intros (? & ? & r' & [= -> ->] & Hr' & Hver & _). rewrite Hr in Hr'. injection Hr' as <-.
       apply constant_time_eq_spec in Hver. congruence. }
  apply constant_time_eq_spec in Hv. split.
  - destruct (passed (revoked_at r) now) eqn:H1, (passed (expires_at r) now) eqn:H2; try done. intros [= <-].
    exists id, secret, r. done.
  - intros (? & ? & r' & [= -> ->] & Hr' & _ & [H1 H2] & ->). rewrite Hr in Hr'. injection Hr' as <-.
    by rewrite H1, H2.
Qed.

Lemma step_config d d' : step d d' → config (authority d') = config (authority d).
Proof. destruct 1; simpl; try done. unfold load_snapshot. by destruct (snapshot _). Qed.

Lemma steps_config d d' : rtc step d d' → config (authority d') = config (authority d).
Proof. induction 1 as [|d d1 d2 Hs _ IH]; [done|]. by rewrite IH, (step_config d d1). Qed.

(** C32: Nobody is let in but on a credential of control state: whatever happened
    on the node and on others, in production a request is granted a principal only
    for the secret of a credential that control state holds, which has not expired,
    and as the operator and with the scopes of that credential. *)
Theorem authentication_sound security d authorization now p :
  rtc step (fresh security) d → mode security = Production → legacy_token security = None →
  authenticate (authority d) authorization now = Ok p →
  ∃ header id secret stored,
    authorization = Some header ∧ presented header id secret ∧ control d !! id = Some stored ∧
    verifier secret = cred_verifier (value stored) ∧ p = record_principal (value stored) ∧
    passed (expires_at (value stored)) now = false.
Proof.
  intros Hreach Hmode Hlegacy Hauth. pose proof (steps_config _ _ Hreach) as Hconfig. simpl in Hconfig.
  destruct authorization as [header|]; [|by unfold authenticate in Hauth; rewrite Hconfig, Hmode in Hauth].
  apply authenticate_credential in Hauth as (id & secret & r & Hpres & Hr & Hver & [_ Hexp] & ->); [|by rewrite Hconfig].
  destruct (node_reachable_ok security d Hreach) as [_ Hcopies Hkeys].
  destruct (Hcopies r) as (s & Hs & He); [right; right; left; eauto|]. rewrite (Hkeys id r Hr) in Hs.
  exists header, id, secret, s. destruct He as [->|[_ [t Ht]]]; [done|]. rewrite Ht. done.
Qed.

(** ** Revocation *)

(** Control state and every copy of a node know the end of a credential. *)
Definition settled (d : Node) (id : string) (t : Z) : Prop :=
  (∃ s, control d !! id = Some s ∧ revoked_at (value s) = Some t) ∧
  ∀ r, copy d r → credential_id r = id → revoked_at r = Some t.

Lemma earlier_ended r r' t : earlier r r' → revoked_at r = Some t → r' = r.
Proof. intros [->|[Hn _]] Ht; [done|congruence]. Qed.

(** A batch does not touch a credential that has an end. *)
Lemma apply_all_ended ws c next h c' stored id s t :
  control_ok c next h → Forall write_fine ws → (∀ s r, Replace s r ∈ ws → s ∈ h) →
  apply_all next ws c = Some (c', stored) →
  c !! id = Some s → revoked_at (value s) = Some t → ∀ w, w ∈ ws → credential_id (record_of w) ≠ id.
Proof.
  intros Hok Hfine. revert c next h stored s Hok.
  induction Hfine as [|w ws Hw _ IH]; intros c next h stored s Hok Hreads Happ Hs Ht w' Hw'; simpl in Happ;
    [by apply not_elem_of_nil in Hw'|].
  apply bind_Some in Happ as (s1 & Hs1 & Happ). apply bind_Some in Happ as ([c1 rest] & Happ & [= <- <-]).
  destruct (write_ok c next h w s1 Hok Hw) as (Hok1 & Hgrow & Hval & Hid); [|done|].
  { intros s0 r ->. apply (Hreads s0 r). by left. }
  assert (written_id w ≠ id) as Hne.
  { intros Heq. destruct w as [r|st r]; simpl in *; subst id; [by rewrite Hs in Hs1|]. rewrite Hs in Hs1.
    destruct (N.eqb_spec (version s) (version st)) as [Hv|]; [|done].
    rewrite (ok_unique _ _ _ Hok s st) in Ht; [|by eapply ok_held|by apply (Hreads st r); left|done].
    destruct Hw as [Hnone _]. congruence. }
  apply elem_of_cons in Hw' as [->|Hw']; [by rewrite <-Hval, Hid|].
  eapply (IH _ _ (s1 :: h) rest s); [done| |done|by rewrite lookup_insert_ne|done|done].
  intros s0 r Hin. right. apply (Hreads s0 r). by right.
Qed.

Lemma settled_step d d' id t : node_ok d → settled d id t → step d d' → settled d' id t.
Proof.
  intros Hok [(s & Hs & Ht) Hcopies] Hstep. pose proof (ok_control d Hok) as Hc.
  destruct (step_control d d' Hc Hstep) as [Hc' Hgrow]. split.
  - destruct (Hgrow id s Hs) as (s' & Hs' & He). exists s'. split; [done|]. by rewrite (earlier_ended _ _ t He Ht).
  - intros r Hcopy Hid. destruct (step_copies d d' r Hstep Hcopy) as [Hr|[(id' & s' & Hs' & <-)|Hplan]]; [by apply Hcopies| |].
    + destruct (ok_held _ _ _ Hc id' s' Hs') as [_ Hid']. congruence.
    + destruct Hplan as (plan & c & stored & Hp & Hr & Ha & _ & Hup).
      destruct (planned_fine plan Hp) as [Hfine Hsub]. apply Hsub, list_elem_of_fmap in Hup as (w & -> & Hw).
      destruct (apply_all_ended (writes plan) _ _ _ c stored id s t Hc Hfine) with (w := w); [|done..].
      intros s0 r. by apply reads_of_subset.
Qed.

Lemma settled_steps d d' id t : node_ok d → settled d id t → rtc step d d' → node_ok d' ∧ settled d' id t.
Proof.
  intros Hok Hset Hsteps. induction Hsteps as [|d d1 d2 Hstep _ IH]; [done|].
  apply IH; [by eapply node_step_ok|by eapply settled_step].
Qed.

Lemma settled_refused d id t header secret now :
  node_ok d → settled d id t → legacy_token (config (authority d)) = None → presented header id secret → (t ≤ now)%Z →
  ∃ message, authenticate (authority d) (Some header) now = Err (Unauthorized message).
Proof.
  intros Hok [_ Hcopies] Hlegacy Hpres Hnow.
  destruct (authenticate (authority d) (Some header) now) as [p|e] eqn:Hauth.
  - apply authenticate_credential in Hauth as (id' & secret' & r & Hpres' & Hr & _ & [Hrev _] & _); [|done].
    apply presented_spec in Hpres as (tok & Htok & Hsplit), Hpres' as (tok' & Htok' & Hsplit').
    assert (id' = id) as -> by congruence.
    rewrite (Hcopies r) in Hrev; [|right; right; left; eauto|by apply (ok_keys d Hok)].
    simpl in Hrev. apply Z.leb_gt in Hrev. lia.
  - unfold authenticate in Hauth. repeat case_match; try done; injection Hauth as <-; eauto.
Qed.

(** The handler of a revocation, alone on the node, settles the credential. *)
Lemma revoke_settles d plan view stored c written now :
  node_ok d → finishing d = [] → loading d = [] →
  control d !! credential_id (value stored) = Some stored →
  revoke_plan stored now = (Some plan, view) →
  apply_all (next_version d) (writes plan) (control d) = Some (c, written) →
  let d' := {| control := c; next_version := next_version d + 1; history := written ++ history d;
               authority := foldl (λ a r, upsert r true a) (authority d) (upserts plan);
               finishing := []; loading := [] |} in
  node_ok d' ∧ settled d' (credential_id (value stored)) now.
Proof.
  intros Hok Hfin Hload Hheld Hplan Happ d'. set (id := credential_id (value stored)) in *.
  assert (planned plan) as Hp by by eapply planned_revoke.
  unfold revoke_plan in Hplan. destruct (revoked_at (value stored)) eqn:Hnone; [done|]. injection Hplan as <- _.
  set (r := set_revoked now (value stored)) in *.
  assert (stored ∈ history d) as Hhist by by apply (ok_held _ _ _ (ok_control d Hok)) in Hheld as [? _].
  pose proof (step_apply d {| writes := [Replace stored r]; upserts := [r] |} c written true Hp) as H1.
  specialize (H1 ltac:(intros s ->%list_elem_of_singleton; done) Happ). simpl in H1. rewrite Hfin, Hload in H1.
  assert (node_ok d') as Hok'.
  { eapply node_step_ok; [eapply node_step_ok; [exact Hok|exact H1]|].
    match type of H1 with step _ ?d1 => exact (step_finish d1 r [] [] true eq_refl) end. }
  split; [done|]. split.
  - simpl in Happ. fold id in Happ. rewrite Hheld, N.eqb_refl in Happ. simpl in Happ. injection Happ as <- <-.
    exists {| version := next_version d; value := r |}. simpl. by rewrite lookup_insert_eq.
  - assert (∀ r', (∃ k, <[id := r]> (credentials (authority d)) !! k = Some r') → credential_id r' = id →
      revoked_at r' = Some now) as Hcache.
    { intros r' [k [[_ <-]|[Hne Hk]]%lookup_insert_Some] Hid; [done|]. apply (ok_keys d Hok) in Hk. congruence. }
    intros r' [?%not_elem_of_nil|[(l & ?%not_elem_of_nil & _)|[Hc|(l & [= <-] & Hl)]]] Hid; [done|done|by apply Hcache|].
    apply Hcache; [|done]. by apply map_values_elem in Hl.
Qed.


(** ** Tokens *)

Lemma trim_none_white s :
  all_bytes (λ b, N.ltb b 128 && negb (is_whitespace b)) s = true → trim s = s.
Proof.
  intros Hs. assert (all_bytes (λ b, N.ltb b 128) s = true) as Hascii
    by (eapply all_bytes_impl; [|exact Hs]; intros b [? _]%andb_true_iff; done).
  assert (∀ l, Forall (λ b, is_whitespace b = false) l → trim_left l = l) as Hleft.
  { intros l Hl. destruct Hl as [|b l Hb _]; [done|]. simpl. by rewrite Hb. }
  assert (Forall (λ b, is_whitespace b = false) (chars s)) as Hwhite.
  { rewrite (chars_ascii s Hascii). apply Forall_forall. intros b Hb%list_elem_of_In.
    unfold all_bytes in Hs. rewrite forallb_forall in Hs. apply Hs, andb_true_iff in Hb as [_ Hb%negb_true_iff]. done. }
  unfold trim. rewrite (Hleft _ Hwhite), (Hleft (reverse _)), reverse_involutive by by apply Forall_reverse.
  destruct (is_utf8_ascii s Hascii) as (l & Hl & ->). by rewrite chars_of_chars.
Qed.

Definition token_byte (b : N) : bool := is_ascii_digit b || in_range 97 122 b || N.eqb b 95.

Lemma token_byte_plain b : token_byte b = true → N.ltb b 128 && negb (is_whitespace b) = true.
Proof.
  unfold token_byte, is_ascii_digit, is_whitespace, in_range. intros Hb.
  repeat rewrite ?orb_true_iff, ?andb_true_iff, ?N.leb_le, ?N.eqb_eq in Hb.
  rewrite andb_true_iff, negb_true_iff, ?orb_false_iff, ?andb_false_iff, N.ltb_lt, ?N.leb_gt, ?N.eqb_neq. lia.
Qed.

Lemma all_bytes_app p s t : all_bytes p (s +:+ t) = all_bytes p s && all_bytes p t.
Proof. unfold all_bytes. by rewrite bytes_app, forallb_app. Qed.

Lemma hex_bytes l :
  Forall (λ b, (b < 256)%N) l → all_bytes token_byte (hex l) = true ∧ no_byte "_" (hex l).
Proof.
  induction 1 as [|b l Hb _ [IH1 IH2]]; [done|].
  assert (∀ d, (d < 16)%N → token_byte (byte_of (hex_digit d)) = true ∧ hex_digit d ≠ "_"%char) as Hd.
  { intros d Hd. assert (In d (N.of_nat <$> seq 0 16)) as Hin.
    { apply list_elem_of_In, list_elem_of_fmap. exists (N.to_nat d). rewrite N2Nat.id. split; [done|].
      apply elem_of_seq. lia. }
    simpl in Hin. repeat (destruct Hin as [<-|Hin]; [by vm_compute|]). done. }
  destruct (Hd (b / 16)%N ltac:(div_lia)) as [H1 N1], (Hd (b mod 16)%N ltac:(div_lia)) as [H2 N2].
  cbn [hex]. split; [cbn [all_bytes bytes forallb]; rewrite H1, H2; exact IH1|].
  by rewrite !no_byte_cons.
Qed.

Lemma parse_scopes_ok l names : parse_scopes l = Ok names → names = l ∧ ∀ s, s ∈ l → ∃ scope, parse_scope s = Ok scope.
Proof.
  revert names. induction l as [|s l IH]; intros names; simpl; [by intros [= <-]; split; [|intros ? ?%not_elem_of_nil]|].
  destruct (parse_scope s) as [scope|] eqn:Hs; [|done]. simpl. destruct (parse_scopes l) as [rest|]; [|done].
  intros [= <-]. destruct (IH rest eq_refl) as [-> Hall]. split.
  - f_equal. unfold parse_scope in Hs. destruct (find _ SCOPES) as [sc|] eqn:Hf; [|done]. injection Hs as <-.
    apply find_some in Hf as [_ Hf]. by apply String.eqb_eq in Hf.
  - intros s' [->|Hs']%elem_of_cons; eauto.
Qed.

Lemma parse_scope_str scope : parse_scope (scope_str scope) = Ok scope.
Proof. by destruct scope. Qed.

Lemma parse_scope_inv s scope : parse_scope s = Ok scope → s = scope_str scope.
Proof.
  unfold parse_scope. destruct (find _ SCOPES) as [sc|] eqn:Hf; [|done]. intros [= <-].
  apply find_some in Hf as [_ Hf]. by apply String.eqb_eq in Hf.
Qed.

Lemma elem_of_scopes scope : scope ∈ SCOPES.
Proof. destruct scope; unfold SCOPES; set_solver. Qed.

Lemma record_principal_scopes r scope : scope ∈ pr_scopes (record_principal r) ↔ scope_str scope ∈ scopes r.
Proof.
  unfold record_principal, scope_set. simpl. rewrite list_elem_of_filter, list_elem_of_omap. split.
  - intros [(s & Hs & Hp) _]. destruct (parse_scope s) as [sc|] eqn:E; [|done]. injection Hp as <-.
    by rewrite <-(parse_scope_inv s sc E).
  - intros Hs. split; [|apply elem_of_scopes]. exists (scope_str scope). by rewrite parse_scope_str.
Qed.

(** A new credential works as asked: the token handed out authenticates, on
    a node whose cache has the record, as the operator of the request and with
    exactly the scopes it asked for, until the credential expires or is revoked. *)
Theorem minted_token_authenticates request created_by rotated_from id secret now r token a later :
  mint request created_by rotated_from id secret now = Some (Ok (r, token)) →
  Forall (λ b, (b < 256)%N) id → Forall (λ b, (b < 256)%N) secret →
  legacy_token (config a) = None → credentials a !! credential_id r = Some r →
  passed (expires_at r) later = false →
  ∃ p, authenticate a (Some ("Bearer " +:+ token)) later = Ok p ∧
    pr_operator_id p = trim (req_operator_id request) ∧ pr_credential_id p = Some (credential_id r) ∧
    pr_development p = false ∧ ∀ scope, scope ∈ pr_scopes p ↔ scope_str scope ∈ req_scopes request.
Proof.
  intros Hmint Hid Hsecret Hlegacy Hheld Hexp. exists (record_principal r).
  unfold mint in Hmint. destruct (_ || _); [done|]. case_bool_decide; [done|].
  destruct (parse_scopes (req_scopes request)) as [names|] eqn:Hnames; [|done].
  apply bind_Some in Hmint as (expires & _ & [= Hr Htoken]).
  destruct (hex_bytes id Hid) as [Hid1 _], (hex_bytes secret Hsecret) as [Hs1 Hs2]. split_and!.
  - apply authenticate_credential; [done|]. exists (credential_id r), (hex secret), r. split_and!; [|done|by subst r|by subst r|done].
    exists token. split; [done|]. split; [|done]. rewrite trim_none_white.
    + by subst r token.
    + eapply all_bytes_impl; [exact token_byte_plain|]. subst token.
      change (TOKEN_PREFIX +:+ ("cred_" +:+ hex id) +:+ String "_" (hex secret)) with
        ("cmpt_cred_" +:+ (hex id +:+ ("_" +:+ hex secret))).
      rewrite !all_bytes_app, Hid1, Hs1. done.
  - by subst r.
  - by subst r.
  - done.
  - intros scope. rewrite record_principal_scopes. subst r. simpl. rewrite elem_of_dedup, elem_of_sort_by.
    by apply parse_scopes_ok in Hnames as [-> _].
Qed.
End Invariant.

(** ** Witnesses *)

#[local] Instance plain_digest : Sha256Hex := λ s, s.
#[local] Instance bounded_chrono : Chrono := λ t n,
  if Z.leb (1000 * Z.abs n) (2 ^ 63 - 1) then Some (t + n * 10 ^ 9)%Z else None.

#[local] Instance bounded_chrono_laws : ChronoLaws.
Proof.
  split; intros t n; unfold add_seconds, bounded_chrono; destruct (Z.leb_spec (1000 * Z.abs n) (2 ^ 63 - 1));
    [by intros t' [= <-]|done|lia|done].
Qed.

Definition a_request : CredentialRequest :=
  {| req_operator_id := "developer-42"; req_scopes := ["compute.read"; "compute.deploy"]; req_description := None;
     req_expires_in_seconds := Some 3600%N |}.

Definition id_bytes : list N := replicate 8 171%N.
Definition secret_bytes : list N := replicate 32 205%N.

Definition a_credential : OperatorCredentialRecord :=
  {| credential_id := "cred_" +:+ hex id_bytes; operator_id := "developer-42";
     scopes := ["compute.deploy"; "compute.read"]; cred_verifier := hex secret_bytes; description := None;
     created_at := 0; expires_at := Some (3600 * 10 ^ 9)%Z; revoked_at := None; rotated_from := None;
     created_by := Some "admin" |}.

Definition a_token : string := "cmpt_cred_" +:+ hex id_bytes +:+ "_" +:+ hex secret_bytes.

Definition production : SecurityConfig :=
  {| mode := Production; reason := "configured"; tls := true; legacy_token := None |}.

Definition an_admin : Principal :=
  {| pr_operator_id := "admin"; pr_credential_id := None; pr_scopes := [Admin]; pr_development := false |}.

Lemma a_credential_minted : mint a_request (Some "admin") None id_bytes secret_bytes 0 = Some (Ok (a_credential, a_token)).
Proof. vm_compute. reflexivity. Qed.

(** A node that created the credential and has it in its cache. *)
Definition a_node : Node :=
  {| control := {["cred_" +:+ hex id_bytes := {| version := 1; value := a_credential |}]}; next_version := 2;
     history := [{| version := 1; value := a_credential |}];
     authority := upsert a_credential true (authority (fresh production)); finishing := []; loading := [] |}.

Lemma a_node_reachable : rtc step (fresh production) a_node.
Proof.
  eapply rtc_l.
  { apply (step_apply (fresh production) {| writes := [Create a_credential]; upserts := [a_credential] |}
      {["cred_" +:+ hex id_bytes := {| version := 1; value := a_credential |}]} [{| version := 1; value := a_credential |}] true).
    - apply (planned_create an_admin a_request id_bytes secret_bytes 0 _ (view_of a_credential 0, a_token)).
      vm_compute. reflexivity.
    - intros s ?%not_elem_of_nil. done.
    - vm_compute. reflexivity. }
  eapply rtc_l; [|apply rtc_refl].
  match goal with |- step ?d _ => exact (step_finish d a_credential [] [] true eq_refl) end.
Qed.

Lemma authentication_sound_witness :
  authenticate (authority a_node) (Some ("Bearer " +:+ a_token)) 1 = Ok (record_principal a_credential) ∧
  ∃ header id secret stored,
    Some ("Bearer " +:+ a_token) = Some header ∧ presented header id secret ∧ control a_node !! id = Some stored ∧
    verifier secret = cred_verifier (value stored) ∧ record_principal a_credential = record_principal (value stored) ∧
    passed (expires_at (value stored)) 1 = false.
Proof.
  assert (authenticate (authority a_node) (Some ("Bearer " +:+ a_token)) 1 = Ok (record_principal a_credential)) as Hauth
    by (vm_compute; reflexivity).
  split; [exact Hauth|].
  exact (authentication_sound production a_node _ _ _ a_node_reachable eq_refl eq_refl Hauth).
Defined.

Lemma minted_token_authenticates_witness :
  ∃ p, authenticate (authority a_node) (Some ("Bearer " +:+ a_token)) 1 = Ok p ∧ pr_operator_id p = "developer-42" ∧
    ∀ scope, scope ∈ pr_scopes p ↔ scope_str scope ∈ ["compute.read"; "compute.deploy"].
Proof.
  destruct (minted_token_authenticates a_request (Some "admin") None id_bytes secret_bytes 0 a_credential a_token
    (authority a_node) 1 a_credential_minted) as (p & Hp & Hop & _ & _ & Hscopes).
  - apply (bool_decide_unpack _). vm_compute. exact I.
  - apply (bool_decide_unpack _). vm_compute. exact I.
  - reflexivity.
  - vm_compute. reflexivity.
  - vm_compute. reflexivity.
  - exists p. split; [exact Hp|]. split; [rewrite Hop; vm_compute; reflexivity|exact Hscopes].
Defined.

Lemma a_token_presents : presented ("Bearer " +:+ a_token) ("cred_" +:+ hex id_bytes) (hex secret_bytes).
Proof. exists a_token. by vm_compute. Qed.


(** ** What revocation leaves open *)

(** A load that read control state before a revocation and finishes after it puts
    the credential back into the cache: it authenticates until the next load. *)
Example stale_load_readmits :
  let revoked := upsert (set_revoked 5 a_credential) true (authority a_node) in
  (∃ message, authenticate revoked (Some ("Bearer " +:+ a_token)) 7 = Err (Unauthorized message)) ∧
  authenticate (replace [a_credential] 6 true revoked) (Some ("Bearer " +:+ a_token)) 7 =
    Ok (record_principal a_credential).
Proof. split; [eexists|]; vm_compute; reflexivity. Qed.

(** A credential in the grace period of its rotation cannot be revoked: the
    handler answers without a change, and the credential goes on working. *)
Example grace_outlasts_revocation :
  let rotated := set_revoked 100 a_credential in
  fst (revoke_plan {| version := 3; value := rotated |} 5) = None ∧
  view_status (snd (revoke_plan {| version := 3; value := rotated |} 5)) = "active" ∧
  authenticate (upsert rotated true (authority a_node)) (Some ("Bearer " +:+ a_token)) 7 =
    Ok (record_principal rotated).
Proof. by vm_compute. Qed.

(** A lifetime of more milliseconds than [i64] holds is not cut down to the longest
    there is: [mint] panics. *)
Lemma long_lifetime_panics `{Sha : Sha256Hex, Clock : Chrono, !ChronoLaws} request created_by rotated_from id secret now seconds r :
  req_expires_in_seconds request = Some seconds → (I64_MAX < 1000 * seconds)%N →
  mint request created_by rotated_from id secret now ≠ Some (Ok r).
Proof.
  intros Hs Hlong. unfold mint. destruct (_ || _); [done|]. case_bool_decide; [done|].
  destruct (parse_scopes _); [|done]. rewrite Hs. rewrite add_seconds_bound; [done|].
  unfold I64_MAX in *. lia.
Qed.
