(* ===== verification/Api.v ===== *)
(** A request of the Compute API (src/crates/compute-environment/src/api.rs):
    [dispatch] authenticates, authorizes, runs and audits it; and what the daemon
    does with refusals and audit records (daemon/operators.rs).

    Reading the request and decoding its path, the handlers behind [route] and the
    files of the user interface are outside: a dispatch is a function of what they
    give. *)

From S2P Require Import Prelude Text Utf8 Routes Auth.

(** ** Audit records *)

Record AuditRecord : Type := {
  audit_request_id : string;
  audit_operator_id : string;
  audit_credential_id : option string;
  audit_operation : string;
  audit_resource : string;
  audit_resource_id : option string;
  audit_result : string;
  audit_status : N;
  audit_error_kind : option string;
  audit_detail : list (string * Value);
  audit_at : Z;
}.

Definition operation_name (method : string) (segments : list string) : string :=
  match find_route method segments with
  | Some r => method +:+ " " +:+ route_path r
  | None => method +:+ " /" +:+ join "/" segments
  end.

Definition singular (name : string) : string :=
  match find (λ entry, String.eqb (fst entry) name)
    [("environments", "environment"); ("projects", "project"); ("workloads", "workload");
     ("deployments", "deployment"); ("domains", "domain"); ("certificates", "certificate");
     ("credentials", "credential"); ("services", "service"); ("executions", "execution");
     ("receipts", "receipt")] with
  | Some (_, one) => one
  | None => name
  end.

Definition NAMED : list string :=
  ["environments"; "projects"; "workloads"; "deployments"; "domains"; "certificates"; "credentials"; "services"].

Definition names_resource (name id : string) : bool :=
  bool_decide (name ∈ NAMED) && negb (bool_decide (id ∈ ["promote"; "reconcile"])).

(** The loop of [resource_of]: the rest of the segments, the identifiers so far,
    and the innermost resource. *)
Fixpoint innermost (segments : list string) (path : list string) (resource : string * option string)
    : string * option string :=
  match segments with
  | [] => resource
  | name :: rest =>
      match rest with
      | id :: rest' =>
          if names_resource name id
          then innermost rest' (path ++ [id]) (singular name, Some (join "/" (path ++ [id])))
          else innermost rest path resource
      | [] => resource
      end
  end.

Definition resource_of (segments : list string) : string * option string :=
  innermost segments [] (match segments with name :: _ => singular name | [] => "" end, None).

Definition KEYS : list string :=
  ["deployment_id"; "revision"; "revision_id"; "project"; "environment"; "execution_id"; "credential_id"; "status"].

Definition get_field (fields : list (string * Value)) (key : string) : option Value :=
  snd <$> find (λ field, String.eqb (fst field) key) fields.

Definition is_scalar (v : Value) : bool := match v with Str _ | Number _ => true | _ => false end.

(** The closure [collect] of [detail_of]. *)
Definition collect (fields detail : list (string * Value)) : list (string * Value) :=
  foldl (λ detail key,
    match get_field fields key with
    | Some v => if is_scalar v && bool_decide (get_field detail key = None) then detail ++ [(key, v)] else detail
    | None => detail
    end) detail KEYS.

Definition detail_of (v : Value) : list (string * Value) :=
  match v with
  | Object fields =>
      filter (λ field, fst field ≠ "token")
        (foldl (λ detail nested,
          match get_field fields nested with Some (Object inner) => collect inner detail | _ => detail end)
          (collect fields []) ["credential"; "record"; "deployment"])
  | _ => []
  end.

(** ** Dispatch *)

Inductive Response : Type :=
| RJson (status : N) (value : Value)
| RStatic (content_type : string)
| RText (content_type : string)
| RBytes (content_type : string)
| RRemote (status : N)
| RRedirect (location : string)
| RStream.

(** What a request does, in order: refusals recorded as events, the handler run
    for a principal, and audit records. *)
Inductive ApiEffect : Type :=
| RefusedEvent (kind message : string)
| Handled (principal : Principal)
| Audited (record : AuditRecord).

(** What a dispatch meets. *)
Record ApiWorld : Type := {
  api_authority : Authority;
  api_now : Z;
  ui_enabled : bool;
  is_stopping : bool;
  health : Value;
  ready : Value;
  require_state : Result unit EnvironmentError;
  handler : Principal → Result Response EnvironmentError;
}.

Record ApiRequest : Type := {
  method : string;
  path : string;
  segments : list string;
  authorization : option string;
  request_id : string;
}.

(** Requests that carry no state, and those a stopping daemon refuses. *)
Definition unauthenticated (w : ApiWorld) (q : ApiRequest) : option (Result Response EnvironmentError) :=
  let get := String.eqb (method q) "GET" in
  match segments q with
  | [] =>
      if get then
        Some (if ui_enabled w then Ok (RRedirect "/ui/")
              else Err (NotFound (path q +:+ "/ is not served: this controller is headless; the API is")))
      else if is_stopping w then Some (Err (ControllerUnavailable "the controller is stopping")) else None
  | first :: rest =>
      if get && String.eqb first "ui" && negb (ui_enabled w) then
        Some (Err (NotFound (path q +:+ " is not served: this controller is headless")))
      else if get && bool_decide (segments q = ["ui"]) then Some (Ok (RStatic "text/html; charset=utf-8"))
      else if get && bool_decide (segments q = ["ui"; "app.js"]) then Some (Ok (RStatic "text/javascript; charset=utf-8"))
      else if get && bool_decide (segments q = ["ui"; "app.css"]) then Some (Ok (RStatic "text/css; charset=utf-8"))
      else if get && bool_decide (segments q = ["health"]) then Some (Ok (RJson 200 (health w)))
      else if get && bool_decide (segments q = ["ready"]) then Some (Ok (RJson 200 (ready w)))
      else if is_stopping w then Some (Err (ControllerUnavailable "the controller is stopping"))
      else None
  end.

(** A change is any request but a read. *)
Definition mutation (q : ApiRequest) : bool :=
  negb (String.eqb (method q) "GET") &&
  match find_route (method q) (segments q) with
  | Some r => negb (bool_decide (route_scope r = Read))
  | None => true
  end.

Definition audit_of (w : ApiWorld) (q : ApiRequest) (operator : string) (credential : option string)
    (result : string) (status : N) (error : option EnvironmentError) (detail : list (string * Value)) : AuditRecord :=
  {| audit_request_id := request_id q; audit_operator_id := operator; audit_credential_id := credential;
     audit_operation := operation_name (method q) (segments q);
     audit_resource := fst (resource_of (segments q)); audit_resource_id := snd (resource_of (segments q));
     audit_result := result; audit_status := status; audit_error_kind := error_kind <$> error;
     audit_detail := detail; audit_at := api_now w |}.

(** An audit record of a change; reads leave none. *)
Definition audit_if (q : ApiRequest) (record : AuditRecord) : list ApiEffect :=
  if mutation q then [Audited record] else [].

(** The audit record of what a handler answered. *)
Definition audit_result_of (w : ApiWorld) (q : ApiRequest) (p : Principal)
    (result : Result Response EnvironmentError) : AuditRecord :=
  let audit := audit_of w q (pr_operator_id p) (pr_credential_id p) in
  match result with
  | Ok (RJson status value) => audit "accepted" status None (detail_of value)
  | Ok _ => audit "accepted" 200%N None []
  | Err error => audit "failed" (error_status error) (Some error) []
  end.

(** What is served once a principal is known. *)
Definition authorized (w : ApiWorld) (q : ApiRequest) (p : Principal)
    : list ApiEffect * Result Response EnvironmentError :=
  match find_route (method q) (segments q) with
  | None => ([], Err (NoRoute (method q +:+ " " +:+ path q)))
  | Some _ =>
      let scope := required_scope (method q) (segments q) in
      let operation := operation_name (method q) (segments q) in
      if negb (allows p scope) then
        let error := Forbidden (operation +:+ " needs " +:+ scope_str scope +:+ "; " +:+ pr_operator_id p +:+
          " has " +:+ join ", " (scope_str <$> pr_scopes p)) in
        (RefusedEvent "auth.authorization_denied" (pr_operator_id p +:+ " was denied " +:+ operation) ::
         audit_if q (audit_of w q (pr_operator_id p) (pr_credential_id p) "rejected" (error_status error) (Some error) []),
         Err error)
      else
        match (if mutation q && negb (bool_decide (segments q = ["shutdown"])) then require_state w else Ok tt) with
        | Err error =>
            ([Audited (audit_of w q (pr_operator_id p) (pr_credential_id p) "failed" (error_status error) (Some error) [])],
             Err error)
        | Ok _ =>
            let result := handler w p in
            (Handled p :: audit_if q (audit_result_of w q p result), result)
        end
  end.

(** [dispatch] *)
Definition dispatch `{!Sha256Hex} (w : ApiWorld) (q : ApiRequest)
    : list ApiEffect * Result Response EnvironmentError :=
  match unauthenticated w q with
  | Some result => ([], result)
  | None =>
      match authenticate (api_authority w) (authorization q) (api_now w) with
      | Err error =>
          (RefusedEvent "auth.authentication_failed"
             (operation_name (method q) (segments q) +:+ ": " +:+ error_message error) ::
           audit_if q (audit_of w q "anonymous" None "rejected" (error_status error) (Some error) []),
           Err error)
      | Ok p => authorized w q p
      end
  end.

(** ** Refusals *)

Definition AUTH_EVENTS_PER_MINUTE : N := 60.

(** [refused] up to its event: the minute and the refusals counted in it, and
    whether this one is recorded. *)
Definition refused (st : Z * N) (now : Z) : (Z * N) * bool :=
  let minute := Z.quot (Z.div now (10 ^ 9)) 60 in
  let st := if Z.eqb (fst st) minute then st else (minute, 0%N) in
  let st := (fst st, (snd st + 1)%N) in
  (st, N.leb (snd st) AUTH_EVENTS_PER_MINUTE).

(** ** The audit trail *)

(** Control state's audit records, those that wait for it, and the flushes under
    way: what each has still to write, and what it could not. *)
Record Trail : Type := {
  durable : gmap string AuditRecord;
  pending : list AuditRecord;
  flushes : list (list AuditRecord * list AuditRecord);
  (** every record [audit] was called with *)
  calls : list AuditRecord;
}.

(** What [apply] of a change that creates an audit record does. *)
Inductive Applied : Type := Stored_ | Exists | Unreachable.

Definition create_audit (reachable : bool) (r : AuditRecord) (m : gmap string AuditRecord)
    : gmap string AuditRecord * Applied :=
  if reachable then
    match m !! audit_request_id r with
    | None => (<[audit_request_id r := r]> m, Stored_)
    | Some _ => (m, Exists)
    end
  else (m, Unreachable).

(** [audit], [flush_pending_audit] at its points of suspension, interleaved. *)
Inductive trail_step : Trail → Trail → Prop :=
| trail_audit t r reachable m applied :
    create_audit reachable r (durable t) = (m, applied) →
    trail_step t {| durable := m; pending := pending t ++ (match applied with Stored_ => [] | _ => [r] end);
                    flushes := flushes t; calls := r :: calls t |}
| trail_take t :
    trail_step t {| durable := durable t; pending := []; flushes := (pending t, []) :: flushes t; calls := calls t |}
| trail_write t before after r todo failed reachable m applied :
    flushes t = before ++ (r :: todo, failed) :: after →
    create_audit reachable r (durable t) = (m, applied) →
    trail_step t {| durable := m; pending := pending t;
                    flushes := before ++ (todo, failed ++ match applied with Unreachable => [r] | _ => [] end) :: after;
                    calls := calls t |}
| trail_end t before after failed :
    flushes t = before ++ ([], failed) :: after →
    trail_step t {| durable := durable t; pending := failed ++ pending t; flushes := before ++ after; calls := calls t |}.

Definition trail_start : Trail := {| durable := ∅; pending := []; flushes := []; calls := [] |}.

(** ** What is authorized *)

Lemma unauthenticated_open w q : unauthenticated w q = None → is_stopping w = false.
Proof. unfold unauthenticated. repeat case_match; naive_solver. Qed.


(** ** What is audited *)

Definition audits (effects : list ApiEffect) : list AuditRecord :=
  omap (λ e, match e with Audited r => Some r | _ => None end) effects.

(** What an audit record says of an outcome. *)
Definition tells (record : AuditRecord) (handled : Prop) (result : Result Response EnvironmentError) : Prop :=
  (audit_result record = "accepted" ↔ handled ∧ ∃ response, result = Ok response) ∧
  match result with
  | Ok _ => audit_error_kind record = None
  | Err e => audit_error_kind record = Some (error_kind e) ∧ audit_status record = error_status e
  end.

Lemma authorized_audited w q p r :
  mutation q = true → find_route (method q) (segments q) = Some r →
  ∃ record, audits (fst (authorized w q p)) = [record] ∧
    audit_request_id record = request_id q ∧ audit_operation record = method q +:+ " " +:+ route_path r ∧
    audit_operator_id record = pr_operator_id p ∧ audit_credential_id record = pr_credential_id p ∧
    tells record (Handled p ∈ fst (authorized w q p)) (snd (authorized w q p)).
Proof.
  intros Hm Hr. unfold authorized, audit_if, operation_name. rewrite Hr, Hm. destruct (allows p _); simpl.
  2: { eexists. split; [reflexivity|]. simpl. unfold operation_name. rewrite Hr. split_and!; [done..|].
       split; [|done]. simpl. rewrite !elem_of_cons, elem_of_nil. naive_solver. }
  destruct (if negb _ then require_state w else Ok tt) as [[]|error] eqn:Hstate; simpl.
  - eexists. split; [reflexivity|]. unfold audit_result_of, tells.
    destruct (handler w p) as [response|error]; [destruct response|]; simpl; unfold operation_name; rewrite Hr;
      (split_and!; try done); rewrite !elem_of_cons; naive_solver.
  - eexists. split; [reflexivity|]. simpl. unfold operation_name. rewrite Hr. split_and!; [done..|].
    split; [|done]. simpl. rewrite !elem_of_cons, elem_of_nil. naive_solver.
Qed.


(** ** Bounds on refusals *)

Definition minute_of (now : Z) : Z := Z.quot (Z.div now (10 ^ 9)) 60.

(** The minutes of the refusals that are recorded, of a sequence of refusals. *)
Fixpoint recorded (st : Z * N) (nows : list Z) : list Z :=
  match nows with
  | [] => []
  | now :: nows =>
      let '(st, record) := refused st now in
      (if record then [minute_of now] else []) ++ recorded st nows
  end.

Definition count (m : Z) (l : list Z) : nat := length (filter (λ x, x = m) l).

Lemma recorded_in st nows x : x ∈ recorded st nows → x ∈ minute_of <$> nows.
Proof.
  revert st. induction nows as [|now nows IH]; intros st; [done|]. cbn [recorded refused].
  rewrite fmap_cons, elem_of_app, elem_of_cons. intros [Hx|Hx]; [|right; by eapply IH].
  destruct (N.leb _ _); [|by apply not_elem_of_nil in Hx]. apply list_elem_of_singleton in Hx. by left.
Qed.

Definition room (st : Z * N) (m : Z) : nat := if decide (m = fst st) then 60 - N.to_nat (N.min (snd st) 60) else 60.

Lemma recorded_bound st nows m :
  StronglySorted Z.le (fst st :: (minute_of <$> nows)) → count m (recorded st nows) ≤ room st m.
Proof.
  revert st. induction nows as [|now nows IH]; intros [m0 c] Hs; [unfold count; simpl; lia|].
  apply StronglySorted_cons in Hs as [Hle Hs]. rewrite fmap_cons in Hle, Hs. simpl in Hle.
  apply Forall_cons in Hle as [Hle0 _]. cbn [recorded refused fst snd].
  change (Z.quot (Z.div now (10 ^ 9)) 60) with (minute_of now).
  set (st := if Z.eqb m0 (minute_of now) then (m0, c) else (minute_of now, 0%N)).
  assert (fst st = minute_of now) as Hst by (unfold st; by destruct (Z.eqb_spec m0 (minute_of now))).
  unfold count. rewrite filter_app, length_app. fold (count m (recorded (fst st, (snd st + 1)%N) nows)).
  rewrite Hst. specialize (IH (minute_of now, (snd st + 1)%N) Hs). unfold room in *. cbn [fst snd] in *.
  change AUTH_EVENTS_PER_MINUTE with 60%N.
  destruct (decide (m = minute_of now)) as [->|Hne].
    assert (length (filter (λ x, x = minute_of now) (if N.leb (snd st + 1) 60 then [minute_of now] else [])) =
      if N.leb (snd st + 1) 60 then 1 else 0) as ->.
    { destruct (N.leb _ _); [|done]. by rewrite filter_cons_True. }
    revert IH. generalize (count (minute_of now) (recorded (minute_of now, (snd st + 1)%N) nows)). intros k IH.
    unfold st in *. destruct (Z.eqb_spec m0 (minute_of now)) as [->|Hne0]; cbn [snd] in *; case_decide; try done;
      destruct (N.leb_spec (c + 1) 60); simpl; lia.
  - assert (length (filter (λ x, x = m) (if N.leb (snd st + 1) 60 then [minute_of now] else [])) = 0) as ->.
    { destruct (N.leb _ _); [|done]. by rewrite filter_cons_False. }
    destruct (decide (m = m0)) as [->|]; [|lia].
    assert (count m0 (recorded (minute_of now, (snd st + 1)%N) nows) = 0) as ->; [|lia].
    unfold count. rewrite (proj2 (filter_nil _ _)); [done|]. intros x Hx ->. apply recorded_in in Hx.
    apply StronglySorted_cons in Hs as [Hall _]. rewrite Forall_forall in Hall. specialize (Hall _ Hx). lia.
Qed.

(** Anonymous traffic cannot flood control state: while the clock does not go
    back over a minute, at most sixty refused requests of any minute are recorded as
    events, however many there are. *)
Theorem refusals_bounded start nows m :
  StronglySorted Z.le (start :: (minute_of <$> nows)) → count m (recorded (start, 0%N) nows) ≤ 60.
Proof. intros Hs. pose proof (recorded_bound (start, 0%N) nows m Hs). unfold room in *. case_decide; simpl in *; lia. Qed.

(** ** The audit trail *)

(** Where a record of an audit is: in control state, waiting, or in a flush. *)
Definition kept_record (t : Trail) (r : AuditRecord) : Prop :=
  durable t !! audit_request_id r = Some r ∨ r ∈ pending t ∨
  ∃ todo failed, (todo, failed) ∈ flushes t ∧ (r ∈ todo ∨ r ∈ failed).

(** Everything the trail holds was given to [audit], and nothing given is lost. *)
Record trail_ok (t : Trail) : Prop := {
  trail_held r : kept_record t r → r ∈ calls t;
  trail_stored id r : durable t !! id = Some r → audit_request_id r = id ∧ r ∈ calls t;
  trail_kept r : r ∈ calls t → kept_record t r;
}.

Definition unique_ids (l : list AuditRecord) : Prop :=
  ∀ r r', r ∈ l → r' ∈ l → audit_request_id r = audit_request_id r' → r = r'.

(** Creating the record of an audit, when identifiers are not used twice. *)
Lemma create_audit_ok reachable r m m' applied calls :
  unique_ids calls → r ∈ calls → (∀ id r, m !! id = Some r → audit_request_id r = id ∧ r ∈ calls) →
  create_audit reachable r m = (m', applied) →
  (∀ id r, m' !! id = Some r → audit_request_id r = id ∧ r ∈ calls) ∧
  (∀ id r, m !! id = Some r → m' !! id = Some r) ∧
  (applied ≠ Unreachable → m' !! audit_request_id r = Some r).
Proof.
  intros Hu Hr Hm. unfold create_audit. destruct reachable; [|by intros [= <- <-]].
  destruct (m !! audit_request_id r) as [r'|] eqn:E; intros [= <- <-].
  - split_and!; [done..|]. intros _. destruct (Hm _ _ E) as [Hid Hin]. 
    rewrite E. f_equal. symmetry. by apply Hu.
  - split_and!.
    + intros id r' [[<- <-]|[_ ?]]%lookup_insert_Some; [done|by apply Hm].
    + intros id r' Hid. rewrite lookup_insert_ne; [done|]. intros <-. congruence.
    + intros _. apply lookup_insert_eq.
Qed.

Lemma trail_audit_ok t r reachable m applied :
  unique_ids (r :: calls t) → trail_ok t → create_audit reachable r (durable t) = (m, applied) →
  trail_ok {| durable := m; pending := pending t ++ (match applied with Stored_ => [] | _ => [r] end);
              flushes := flushes t; calls := r :: calls t |}.
Proof.
  intros Hu [Hheld Hstored Hkept] Hc.
  destruct (create_audit_ok reachable r (durable t) m applied (r :: calls t) Hu) as (Hm & Hmono & Hdone); [by left| |done|].
  { intros id r' Hid. destruct (Hstored id r' Hid). split; [done|by right]. }
  split; simpl.
  + unfold kept_record. simpl. intros r' [Hd|[Hp|Hfl]].
    * by apply Hm in Hd as [_ ?].
    * apply elem_of_app in Hp as [Hp|Hp]; [right; apply Hheld; by right; left|].
      destruct applied; rewrite ?list_elem_of_singleton, ?elem_of_nil in Hp; subst; try done; by left.
    * right. apply Hheld. by right; right.
  + exact Hm.
  + unfold kept_record. simpl. intros r' [->|Hr']%elem_of_cons.
    * destruct applied; [left; by apply Hdone|right; left; set_solver..].
    * destruct (Hkept r' Hr') as [Hd|[Hp|Hfl]]; [left; by apply Hmono|right; left; set_solver|by right; right].
Qed.

Lemma trail_take_ok t :
  trail_ok t →
  trail_ok {| durable := durable t; pending := []; flushes := (pending t, []) :: flushes t; calls := calls t |}.
Proof.
  intros [Hheld Hstored Hkept].
  split; simpl; [|done|].
  + unfold kept_record. simpl. intros r' [Hd|[?%not_elem_of_nil|(todo & failed & Hin & Hr)]]; [apply Hheld; by left|done|].
    apply elem_of_cons in Hin as [[= -> ->]|Hin]; apply Hheld; [|right; right; eauto].
    destruct Hr as [Hr|?%not_elem_of_nil]; [by right; left|done].
  + unfold kept_record. simpl. intros r' Hr'. destruct (Hkept r' Hr') as [Hd|[Hp|(todo & failed & Hin & Hr)]].
    * by left.
    * right; right. exists (pending t), []. split; [by left|by left].
    * right; right. exists todo, failed. split; [by right|done].
Qed.

Lemma trail_write_ok t before after r todo failed reachable m applied :
  unique_ids (calls t) → trail_ok t → flushes t = before ++ (r :: todo, failed) :: after →
  create_audit reachable r (durable t) = (m, applied) →
  trail_ok {| durable := m; pending := pending t;
              flushes := before ++ (todo, failed ++ match applied with Unreachable => [r] | _ => [] end) :: after;
              calls := calls t |}.
Proof.
  intros Hu [Hheld Hstored Hkept] Hf Hc.
  assert (r ∈ calls t) as Hr.
  { apply Hheld. right; right. exists (r :: todo), failed. rewrite Hf. split; [set_solver|left; by left]. }
  destruct (create_audit_ok reachable r (durable t) m applied (calls t) Hu Hr Hstored Hc) as (Hm & Hmono & Hdone).
  set (now_failed := failed ++ match applied with Unreachable => [r] | _ => [] end).
  assert (∀ r', r' ∈ now_failed → r' ∈ failed ∨ r' = r) as Hnf.
  { intros r' [?|Hr']%elem_of_app; [by left|right]. destruct applied; set_solver. }
  split; simpl; [|exact Hm|].
  + unfold kept_record. simpl. intros r' [Hd|[Hp|(td & fl & Hin & Hr')]]; [by apply Hm in Hd as [_ ?]|apply Hheld; by right; left|].
    rewrite elem_of_app, elem_of_cons in Hin. destruct Hin as [Hin|[[= -> ->]|Hin]];
      [apply Hheld; right; right; exists td, fl; rewrite Hf; set_solver| |apply Hheld; right; right; exists td, fl; rewrite Hf; set_solver].
    apply Hheld. right; right. exists (r :: todo), failed. rewrite Hf. split; [set_solver|].
    destruct Hr' as [?|Hr'%Hnf]; [left; by right|]. destruct Hr' as [?| ->]; [by right|left; by left].
  + unfold kept_record. simpl. intros r' Hr'. destruct (Hkept r' Hr') as [Hd|[Hp|(td & fl & Hin & Hr'')]];
      [left; by apply Hmono|right; by left|].
    rewrite Hf, elem_of_app, elem_of_cons in Hin. destruct Hin as [Hin|[[= -> ->]|Hin]];
      [right; right; exists td, fl; set_solver| |right; right; exists td, fl; set_solver].
    destruct Hr'' as [[->|Hin]%elem_of_cons|Hin].
    * destruct applied; [left; by apply Hdone|left; by apply Hdone|].
      right; right. exists todo, now_failed. split; [set_solver|right; unfold now_failed; set_solver].
    * right; right. exists todo, now_failed. split; [set_solver|by left].
    * right; right. exists todo, now_failed. split; [set_solver|right; unfold now_failed; set_solver].
Qed.

Lemma trail_end_ok t before after failed :
  trail_ok t → flushes t = before ++ ([], failed) :: after →
  trail_ok {| durable := durable t; pending := failed ++ pending t; flushes := before ++ after; calls := calls t |}.
Proof.
  intros [Hheld Hstored Hkept] Hf.
  split; simpl; [|done|].
  + unfold kept_record. simpl. intros r' [Hd|[Hp|(td & fl & Hin & Hr')]]; apply Hheld; [by left| |].
    * apply elem_of_app in Hp as [Hp|Hp]; [|by right; left]. right; right. exists [], failed. rewrite Hf. set_solver.
    * right; right. exists td, fl. rewrite Hf. set_solver.
  + unfold kept_record. simpl. intros r' Hr'. destruct (Hkept r' Hr') as [Hd|[Hp|(td & fl & Hin & Hr'')]];
      [by left|right; left; set_solver|].
    rewrite Hf, elem_of_app, elem_of_cons in Hin. destruct Hin as [Hin|[[= -> ->]|Hin]];
      [right; right; exists td, fl; set_solver| |right; right; exists td, fl; set_solver].
    destruct Hr'' as [?%not_elem_of_nil|Hr'']; [done|]. right; left. set_solver.
Qed.

Lemma trail_step_ok t t' : unique_ids (calls t') → trail_ok t → trail_step t t' → trail_ok t'.
Proof.
  intros Hu Hok Hstep. destruct Hstep; simpl in Hu;
    eauto using trail_audit_ok, trail_take_ok, trail_write_ok, trail_end_ok.
Qed.

Lemma trail_calls t t' r : trail_step t t' → r ∈ calls t → r ∈ calls t'.
Proof. destruct 1; simpl; [by right|done..]. Qed.

(** No audit record is lost to an outage: however audits and flushes
    interleave, and whenever control state can or cannot be reached, a record given
    to [audit] is in control state, or waits, or is in the hands of a flush; and once
    nothing waits and no flush is under way, control state holds every one. *)
Theorem audit_not_lost t :
  rtc trail_step trail_start t → unique_ids (calls t) →
  (∀ r, r ∈ calls t → kept_record t r) ∧
  (pending t = [] → flushes t = [] → ∀ r, r ∈ calls t → durable t !! audit_request_id r = Some r).
Proof.
  intros Hsteps Hu.
  assert (trail_ok t) as Hok.
  { revert t Hsteps Hu. refine (rtc_ind_r _ _ _ _); [intros Hu|intros t' t'' _ Hstep IH Hu].
    - unfold trail_start, kept_record. split; simpl.
      + intros r [Hd|[?%not_elem_of_nil|(? & ? & ?%not_elem_of_nil & _)]]; [simpl in Hd; by rewrite lookup_empty in Hd|done..].
      + intros id r Hd. by rewrite lookup_empty in Hd.
      + by intros r ?%not_elem_of_nil.
    - eapply trail_step_ok; [done| |done]. apply IH. intros r r' Hr Hr'. apply Hu; by eapply trail_calls. }
  split; [apply Hok|]. intros Hp Hf r Hr.
  destruct (trail_kept t Hok r Hr) as [Hd|[Hin|(todo & failed & Hin & _)]]; [done| |].
  - rewrite Hp in Hin. by apply not_elem_of_nil in Hin.
  - rewrite Hf in Hin. by apply not_elem_of_nil in Hin.
Qed.

(** ** Witnesses *)

#[local] Instance plain_digest : Sha256Hex := λ s, s.

Definition an_operator (scopes : list string) : OperatorCredentialRecord :=
  {| credential_id := "cred_a1"; operator_id := "alice"; scopes := scopes; cred_verifier := "s1"; description := None;
     created_at := 0; expires_at := None; revoked_at := None; rotated_from := None; created_by := None |}.

Definition a_world (scopes : list string) : ApiWorld :=
  {| api_authority := {| config := {| mode := Production; reason := ""; tls := true; legacy_token := None |};
       credentials := {["cred_a1" := an_operator scopes]}; loaded_at := None; snapshot := None |};
     api_now := 10; ui_enabled := true; is_stopping := false; health := Null; ready := Null; require_state := Ok tt;
     handler := λ _, Ok (RJson 201 (Object [("deployment_id", Str "dep_1"); ("token", Str "t")])) |}.

Definition a_deploy : ApiRequest :=
  {| method := "POST"; path := "/deployments"; segments := ["deployments"];
     authorization := Some "Bearer cmpt_cred_a1_s1"; request_id := "req_1" |}.



Lemma refusals_bounded_witness : count 0 (recorded (0, 0%N)%Z (replicate 100 30%Z)) ≤ 60.
Proof.
  apply refusals_bounded. vm_compute. repeat constructor; done.
Defined.

Definition an_audit : AuditRecord :=
  audit_of (a_world []) a_deploy "alice" None "failed" 503 None [].

(** An audit during an outage, and a flush after it. *)
Definition a_trail : Trail :=
  {| durable := {["req_1" := an_audit]}; pending := []; flushes := []; calls := [an_audit] |}.

Lemma a_trail_reachable : rtc trail_step trail_start a_trail.
Proof.
  eapply rtc_l; [exact (trail_audit trail_start an_audit false ∅ Unreachable eq_refl)|].
  eapply rtc_l; [apply trail_take|]. simpl.
  eapply rtc_l; [eapply (trail_write _ [] [] an_audit [] [] true {["req_1" := an_audit]} Stored_); vm_compute; reflexivity|].
  eapply rtc_l; [eapply (trail_end _ [] [] []); reflexivity|]. simpl. apply rtc_refl.
Qed.

Lemma audit_not_lost_witness : durable a_trail !! "req_1" = Some an_audit.
Proof.
  destruct (audit_not_lost a_trail a_trail_reachable) as [_ Hall].
  - intros r r' ->%list_elem_of_singleton ->%list_elem_of_singleton _. reflexivity.
  - apply (Hall eq_refl eq_refl an_audit). left.
Defined.
