(* ===== verification/Release.v ===== *)
(** Releases: the records of control state a release reads and writes, the
    working copy the daemon decides on, and atomic changes
    (src/crates/compute-state/src/model.rs and control.rs; [Desired], [Change] and
    [Scope] of src/crates/compute-environment/src/daemon/mod.rs).

    The records are held as [Desired] holds them: memberships, workloads and traffic
    assignments under the names they are looked up by, which stand for the identities
    [ids::membership], [ids::workload] and [ids::traffic] derive from them; instances
    and deployments under their identities.  Every write is fenced on the version it
    was decided on, as [Batch] does.  Instants are nanoseconds; the evidence a release
    gathers ([serde_json::Value] in the source) is a record of what it holds; of an
    event its kind, scope and message are kept. *)

From S2P Require Import Prelude Text Core Isolation Policy Admission Descriptor Matching Pool Placement State Auth.

(** ** Data *)

Inductive DesiredState : Type := DesiredRunning | DesiredStopped.
#[export] Instance desired_state_eq_dec : EqDecision DesiredState.
Proof. solve_decision. Defined.

Inductive WorkloadKind : Type := KindService | KindTask.
#[export] Instance workload_kind_eq_dec : EqDecision WorkloadKind.
Proof. solve_decision. Defined.

Inductive RestartPolicy : Type := RestartNever | RestartOnFailure.
#[export] Instance restart_policy_eq_dec : EqDecision RestartPolicy.
Proof. solve_decision. Defined.

Inductive ReadinessCheck : Type := CheckProcess | CheckPort | CheckHttp | CheckTask.
#[export] Instance readiness_check_eq_dec : EqDecision ReadinessCheck.
Proof. solve_decision. Defined.

Record PortSpec : Type := { ps_name : string; ps_port : N }.

Record PortBinding : Type := { pb_name : string; pb_logical : N; pb_host : N }.
#[export] Instance port_binding_eq_dec : EqDecision PortBinding.
Proof. solve_decision. Defined.

Record Readiness : Type := {
  rd_check : ReadinessCheck;
  rd_port : option string;
  rd_path : option string;
  rd_task : option string;
  rd_timeout_ms : N;
  rd_interval_ms : N;
}.

(** [Readiness::default_for] *)
Definition default_readiness (ports : list PortSpec) : Readiness :=
  {| rd_check := match ports with [] => CheckProcess | _ => CheckPort end;
     rd_port := None; rd_path := None; rd_task := None; rd_timeout_ms := 60000; rd_interval_ms := 250 |}.

Record RevisionWorkload : Type := {
  rw_name : string;
  rw_kind : WorkloadKind;
  rw_bundle_id : string;
  rw_artifact : string;
  rw_workload_identity : string;
  rw_runtime : string;
  rw_runtime_version : option string;
  rw_dependency : option string;
  rw_distribution : option string;
  rw_readiness : option Readiness;
  rw_ports : list PortSpec;
  rw_restart : RestartPolicy;
  rw_desired_state : DesiredState;
}.

Record ProjectRevisionRecord : Type := {
  rev_project_id : string;
  rev_project : string;
  rev_revision : string;
  rev_revision_digest : string;
  rev_source : option string;
  rev_workloads : list RevisionWorkload;
  rev_created_at : Z;
}.

(** The fields of an environment that releases read; its computer by presence. *)
Record EnvironmentRecord : Type := {
  env_name : string;
  env_desired_state : DesiredState;
  env_config : gmap string string;
  env_policy : option Value;
  env_provider : option string;
  env_has_computer : bool;
  env_created_at : Z;
}.

Record EnvironmentProjectRecord : Type := {
  mem_environment_id : string;
  mem_environment : string;
  mem_project_id : string;
  mem_project : string;
  mem_desired_state : DesiredState;
  mem_config : gmap string string;
  mem_revision_id : option string;
  mem_deployment_id : option string;
  mem_created_at : Z;
  mem_updated_at : Z;
}.

Module DeploymentStatus.
Inductive t : Type :=
| Pending | Starting | Ready | NetworkReady | Switching | Active | Draining | Complete | Failed | RolledBack.

#[global] Instance eq_dec : EqDecision t.
Proof. solve_decision. Defined.

Definition as_str (s : t) : string :=
  match s with
  | Pending => "pending" | Starting => "starting" | Ready => "ready" | NetworkReady => "network_ready"
  | Switching => "switching" | Active => "active" | Draining => "draining" | Complete => "complete"
  | Failed => "failed" | RolledBack => "rolled_back"
  end.

Definition is_terminal (s : t) : bool :=
  match s with Complete | Failed | RolledBack => true | _ => false end.

(** [IN_FLIGHT] of the daemon *)
Definition IN_FLIGHT : list t := [Pending; Starting; Ready; NetworkReady; Switching; Active; Draining].
End DeploymentStatus.
Notation DeploymentStatus := DeploymentStatus.t.

Module InstanceState.
Inductive t : Type := Starting | Ready | Serving | Draining | Stopped | Failed.
#[global] Instance eq_dec : EqDecision t.
Proof. solve_decision. Defined.
End InstanceState.
Notation InstanceState := InstanceState.t.

Record PoolPlacement : Type := {
  pp_placement_id : string;
  pp_provider_id : string;
  pp_selection_mode : string;
}.

Record ApplicationArtifactEvidence : Type := {
  aa_artifact_id : string;
  aa_url : option string;
  aa_version : option string;
  aa_capabilities : list string;
  aa_runtime : option string;
  aa_runtime_version : option string;
}.

Record DeploymentWorkload : Type := {
  dw_name : string;
  dw_kind : WorkloadKind;
  dw_bundle_id : string;
  dw_artifact : string;
  dw_runtime : string;
  dw_runtime_version : option string;
  dw_resolved_runtime_version : option string;
  dw_distribution : option string;
  dw_admitted : bool;
  dw_policy_id : option string;
  dw_admission_id : option string;
  dw_placement_id : option string;
  dw_provider : option string;
  dw_reasons : list string;
  dw_endpoints : list PortBinding;
  dw_pool_placement : option PoolPlacement;
  dw_application_artifact : option ApplicationArtifactEvidence;
}.

(** The evidence of a release. *)
Record ReadinessEvidence : Type := {
  re_check : ReadinessCheck;
  re_ready_at : option Z;
  re_detail : option string;
}.

Record EndpointEvidence : Type := {
  ee_endpoint : string;
  ee_host_port : N;
  ee_target_port : option N;
  ee_listening : bool;
  ee_reachable : bool;
}.

Record DomainEvidence : Type := {
  de_domain : string;
  de_endpoint : string;
  de_dns : string;
  de_tls : string;
  de_routing : string;
}.

Record NetworkResult : Type := {
  nr_endpoints : list EndpointEvidence;
  nr_domains : list DomainEvidence;
  nr_degraded : bool;
  nr_verified_at : Z;
}.

Record Moved : Type := {
  mv_endpoint : string;
  mv_host_port : N;
  mv_from_instance : option string;
  mv_from_revision : option string;
  mv_to_instance : string;
  mv_to_port : N;
}.

Record SwitchResult : Type := {
  sw_endpoints : option (list Moved);
  sw_switched_at : option Z;
  sw_verified : option (list (string * string));
  sw_verified_at : option Z;
}.

Record DeploymentRecord : Type := {
  dep_environment_id : string;
  dep_environment : string;
  dep_project_id : string;
  dep_project : string;
  dep_version : N;
  dep_revision_id : string;
  dep_revision : string;
  dep_revision_digest : string;
  dep_status : DeploymentStatus;
  dep_promoted_from : option string;
  dep_previous : option string;
  dep_workloads : list DeploymentWorkload;
  dep_failure : option string;
  dep_receipt_ids : list string;
  dep_old_revision : option string;
  dep_config_digest : option string;
  dep_config : gmap string string;
  dep_readiness_result : option (gmap string ReadinessEvidence);
  dep_network_result : option NetworkResult;
  dep_traffic_switch_result : option SwitchResult;
  dep_rollback_reason : option string;
  dep_receipt : option string;
  dep_status_since : option Z;
  dep_completed_at : option Z;
  dep_created_at : Z;
  dep_updated_at : Z;
}.

Record WorkloadRecord : Type := {
  wl_environment_id : string;
  wl_environment : string;
  wl_project_id : string;
  wl_project : string;
  wl_name : string;
  wl_kind : WorkloadKind;
  wl_desired_state : DesiredState;
  wl_restart : RestartPolicy;
  wl_bundle_id : string;
  wl_workload_identity : string;
  wl_runtime : string;
  wl_ports : list PortBinding;
  wl_deployment_id : string;
}.

Record WorkloadInstanceRecord : Type := {
  inst_environment_id : string;
  inst_environment : string;
  inst_project_id : string;
  inst_project : string;
  inst_workload : string;
  inst_workload_id : string;
  inst_deployment_id : string;
  inst_revision : string;
  inst_state : InstanceState;
  inst_ports : list PortBinding;
  inst_readiness : option string;
  inst_started_at : option Z;
  inst_ready_at : option Z;
  inst_stopped_at : option Z;
  inst_error : option string;
  inst_updated_at : Z;
}.

Record TrafficAssignmentRecord : Type := {
  ta_endpoint : string;
  ta_environment : string;
  ta_project : string;
  ta_workload : string;
  ta_port : string;
  ta_host_port : N;
  ta_domains : list string;
  ta_deployment_id : string;
  ta_revision : string;
  ta_instance_id : string;
  ta_target_port : N;
  ta_status : string;
  ta_previous_deployment_id : option string;
  ta_previous_instance_id : option string;
  ta_switched_at : Z;
}.

(** The fields of a domain that releases read; how its DNS, TLS and routing stand. *)
Record DomainRecord : Type := {
  dom_name : string;
  dom_environment : string;
  dom_project : string;
  dom_workload : string;
  dom_port : string;
  dom_dns_status : string;
  dom_tls_status : string;
  dom_routing_status : string;
}.

(** ** Identities *)

Section ids.
Context `{!Sha256Hex}.

(** [(part.len() as u64).to_be_bytes()] *)
Definition be_bytes (n : N) : string :=
  String.string_of_list_ascii
    (map (λ i, ascii_of_N (N.land (N.shiftr n (8 * i)) 255)) [7; 6; 5; 4; 3; 2; 1; 0]%N).

Definition short_digest (parts : list string) : string :=
  String.substring 0 24 (sha256_hex (foldr (λ part s, be_bytes (len part) +:+ part +:+ s) "" parts)).

Definition project_id_of (name : string) : string := "prj_" +:+ short_digest [name].
Definition workload_id_of (environment_id project_id name : string) : string :=
  "wl_" +:+ short_digest [environment_id; project_id; name].
Definition instance_id_of (workload_id deployment_id : string) : string :=
  "wi_" +:+ short_digest [workload_id; deployment_id].
End ids.

(** [ids::endpoint] *)
Definition endpoint_of (environment project workload port : string) : string :=
  environment +:+ "/" +:+ project +:+ "/" +:+ workload +:+ "/" +:+ port.

(** ** Stored records and the working copy *)

Record Stored (A : Type) : Type := {
  st_id : string;
  st_version : N;
  st_value : A;
}.
Arguments st_id {A} s.
Arguments st_version {A} s.
Arguments st_value {A} s.

(** Environment, project and workload names; environment and project. *)
Notation Key := (string * string * string)%type (only parsing).
Notation Place := (string * string)%type (only parsing).

Record Desired : Type := {
  environments : gmap string (Stored EnvironmentRecord);
  memberships : gmap Place (Stored EnvironmentProjectRecord);
  workloads : gmap Key (Stored WorkloadRecord);
  deployments : gmap string (Stored DeploymentRecord);
  revisions : gmap string ProjectRevisionRecord;
  instances : gmap string (Stored WorkloadInstanceRecord);
  traffic : gmap string (Stored TrafficAssignmentRecord);
  domains : gmap string (Stored DomainRecord);
}.

(** A [BTreeMap] in the order of its keys. *)
Definition entries {K A} `{Countable K} (c : K → K → comparison) (m : gmap K A) : list (K * A) :=
  sort_by (λ l r, c (fst l) (fst r)) (map_to_list m).

(** Tuples compare field by field. *)
Definition compare_places (l r : Place) : comparison :=
  then_with (String.compare (fst l) (fst r)) (String.compare (snd l) (snd r)).
Definition compare_keys (l r : Key) : comparison :=
  then_with (compare_places (fst l) (fst r)) (String.compare (snd l) (snd r)).

Definition place_of (k : Key) : Place := fst k.

Definition dep_place (d : DeploymentRecord) : Place := (dep_environment d, dep_project d).
Definition inst_place (i : WorkloadInstanceRecord) : Place := (inst_environment i, inst_project i).
Definition ta_place (a : TrafficAssignmentRecord) : Place := (ta_environment a, ta_project a).

Section desired.
Context (d : Desired).

Definition workloads_of (p : Place) : list (Key * Stored WorkloadRecord) :=
  filter (λ e, place_of (fst e) = p) (entries compare_keys (workloads d)).

(** [instances.values().filter(..)] *)
Definition instances_where (f : WorkloadInstanceRecord → bool) : list (Stored WorkloadInstanceRecord) :=
  filter (λ s, f (st_value s) = true) (map snd (Pool.by_id (instances d))).

Definition instance_key (i : WorkloadInstanceRecord) : Key :=
  (inst_environment i, inst_project i, inst_workload i).

(** [instance]: the index keeps the last of several. *)
Definition instance (key : Key) (deployment_id : string) : option (Stored WorkloadInstanceRecord) :=
  last (instances_where (λ i, bool_decide (instance_key i = key) &&
                              String.eqb (inst_deployment_id i) deployment_id)).

Definition project_runs (p : Place) : bool :=
  from_option (λ m, bool_decide (mem_desired_state (st_value m) = DesiredRunning)) false (memberships d !! p) &&
  from_option (λ e, bool_decide (env_desired_state (st_value e) = DesiredRunning)) false
    (environments d !! fst p).

Definition revision_of (deployment_id : string) : option ProjectRevisionRecord :=
  deployment ← deployments d !! deployment_id; revisions d !! dep_revision_id (st_value deployment).

Definition revision_workload (deployment_id workload : string) : option RevisionWorkload :=
  revision ← revision_of deployment_id; List.find (λ w, String.eqb (rw_name w) workload) (rev_workloads revision).

Definition workload_runs (key : Key) (deployment_id : string) : bool :=
  let desired :=
    match workloads d !! key with
    | Some workload => wl_desired_state (st_value workload)
    | None => from_option rw_desired_state DesiredRunning (revision_workload deployment_id (snd key))
    end in
  bool_decide (desired = DesiredRunning) && project_runs (place_of key).

Definition in_flight : list (Stored DeploymentRecord) :=
  filter (λ s, DeploymentStatus.is_terminal (dep_status (st_value s)) = false) (map snd (Pool.by_id (deployments d))).
End desired.

(** Whether an instance should run. *)
Inductive Want : Type := WantRun | WantKeepIfRunning | WantStop.

Definition want (d : Desired) (i : WorkloadInstanceRecord) : Want :=
  if negb (workload_runs d (instance_key i) (inst_deployment_id i)) then WantStop
  else match inst_state i with
       | InstanceState.Starting | InstanceState.Ready | InstanceState.Serving => WantRun
       | InstanceState.Draining => WantKeepIfRunning
       | InstanceState.Stopped | InstanceState.Failed => WantStop
       end.

(** ** Events *)

Record Scope : Type := {
  sc_environment : option string;
  sc_project : option string;
  sc_workload : option string;
  sc_deployment_id : option string;
}.

Definition scope_default : Scope :=
  {| sc_environment := None; sc_project := None; sc_workload := None; sc_deployment_id := None |}.
Definition scope_environment (environment : string) : Scope :=
  {| sc_environment := Some environment; sc_project := None; sc_workload := None; sc_deployment_id := None |}.
Definition scope_project (p : Place) : Scope :=
  {| sc_environment := Some (fst p); sc_project := Some (snd p); sc_workload := None; sc_deployment_id := None |}.
Definition scope_workload (key : Key) : Scope :=
  {| sc_environment := Some (fst (place_of key)); sc_project := Some (snd (place_of key));
     sc_workload := Some (snd key); sc_deployment_id := None |}.
Definition with_deployment (deployment_id : string) (s : Scope) : Scope :=
  {| sc_environment := sc_environment s; sc_project := sc_project s; sc_workload := sc_workload s;
     sc_deployment_id := Some deployment_id |}.

Record Event : Type := { ev_kind : string; ev_scope : Scope; ev_message : string }.

(** ** Changes *)

(** A write of one record: [Batch::create], [replace], [update], [delete].  The
    fields an update merges are a function on the record. *)
Inductive Op (A : Type) : Type :=
| OpCreate (id : string) (value : A)
| OpReplace (stored : Stored A) (value : A)
| OpUpdate (stored : Stored A) (fields : A → A)
| OpDelete (stored : Stored A).
Arguments OpCreate {A} id value.
Arguments OpReplace {A} stored value.
Arguments OpUpdate {A} stored fields.
Arguments OpDelete {A} stored.

Inductive Write : Type :=
| WEnvironment (name : string) (op : Op EnvironmentRecord)
| WMembership (place : Place) (op : Op EnvironmentProjectRecord)
| WWorkload (key : Key) (op : Op WorkloadRecord)
| WDeployment (id : string) (op : Op DeploymentRecord)
| WInstance (id : string) (op : Op WorkloadInstanceRecord)
| WTraffic (endpoint : string) (op : Op TrafficAssignmentRecord)
| WStatus (id : string) (op : Op unit).

Record Change : Type := { ch_writes : list Write; ch_events : list Event }.

Definition change_new : Change := {| ch_writes := []; ch_events := [] |}.
Definition change_with (w : Write) (c : Change) : Change :=
  {| ch_writes := ch_writes c ++ [w]; ch_events := ch_events c |}.
Definition change_all (ws : list Write) (c : Change) : Change :=
  {| ch_writes := ch_writes c ++ ws; ch_events := ch_events c |}.

(** [Daemon::event]: the record of an event is written with the change. *)
Definition event (kind : string) (scope : Scope) (message : string) (c : Change) : Change :=
  {| ch_writes := ch_writes c;
     ch_events := ch_events c ++ [{| ev_kind := kind; ev_scope := scope; ev_message := message |}] |}.

Definition change_is_empty (c : Change) : bool :=
  match ch_writes c, ch_events c with [], [] => true | _, _ => false end.

(** Control state: the records, the observed statuses of workloads by version, the
    events, and the version counter. *)
Record Control : Type := {
  records : Desired;
  statuses : gmap string (Stored unit);
  events : list Event;
  next_version : N;
}.

(** [Write::apply] for one record, with the fences of [apply_in_memory]. *)
Definition apply_op {A} (c : Collection) (op : Op A) (current : option (Stored A)) (next : N)
    : Result (option (Stored A)) StateError :=
  let fenced s := fence c (st_id s) (Some (st_version s)) (st_version <$> current) in
  match op with
  | OpCreate id value =>
      reject_if (bool_decide (is_Some current)) (State.Conflict c id) ;?;
      Ok (Some {| st_id := id; st_version := next; st_value := value |})
  | OpReplace s value =>
      fenced s ;?; Ok ((λ r, {| st_id := st_id r; st_version := next; st_value := value |}) <$> current)
  | OpUpdate s fields =>
      fenced s ;?;
      Ok ((λ r, {| st_id := st_id r; st_version := next; st_value := fields (st_value r) |}) <$> current)
  | OpDelete s => fenced s ;?; Ok None
  end.

Definition put {K A} `{Countable K} (key : K) (value : option A) (m : gmap K A) : gmap K A :=
  match value with Some v => <[key := v]> m | None => delete key m end.

Definition with_environments m (d : Desired) : Desired :=
  {| environments := m; memberships := memberships d; workloads := workloads d; deployments := deployments d;
     revisions := revisions d; instances := instances d; traffic := traffic d; domains := domains d |}.
Definition with_memberships m (d : Desired) : Desired :=
  {| environments := environments d; memberships := m; workloads := workloads d; deployments := deployments d;
     revisions := revisions d; instances := instances d; traffic := traffic d; domains := domains d |}.
Definition with_workloads m (d : Desired) : Desired :=
  {| environments := environments d; memberships := memberships d; workloads := m; deployments := deployments d;
     revisions := revisions d; instances := instances d; traffic := traffic d; domains := domains d |}.
Definition with_deployments m (d : Desired) : Desired :=
  {| environments := environments d; memberships := memberships d; workloads := workloads d; deployments := m;
     revisions := revisions d; instances := instances d; traffic := traffic d; domains := domains d |}.
Definition with_revisions m (d : Desired) : Desired :=
  {| environments := environments d; memberships := memberships d; workloads := workloads d;
     deployments := deployments d; revisions := m; instances := instances d; traffic := traffic d;
     domains := domains d |}.
Definition with_instances m (d : Desired) : Desired :=
  {| environments := environments d; memberships := memberships d; workloads := workloads d;
     deployments := deployments d; revisions := revisions d; instances := m; traffic := traffic d;
     domains := domains d |}.
Definition with_traffic m (d : Desired) : Desired :=
  {| environments := environments d; memberships := memberships d; workloads := workloads d;
     deployments := deployments d; revisions := revisions d; instances := instances d; traffic := m;
     domains := domains d |}.
Definition with_domains m (d : Desired) : Desired :=
  {| environments := environments d; memberships := memberships d; workloads := workloads d;
     deployments := deployments d; revisions := revisions d; instances := instances d; traffic := traffic d;
     domains := m |}.

Definition with_records (r : Desired) (c : Control) : Control :=
  {| records := r; statuses := statuses c; events := events c; next_version := next_version c |}.
Definition with_statuses s (c : Control) : Control :=
  {| records := records c; statuses := s; events := events c; next_version := next_version c |}.
Definition next_write (c : Control) : Control :=
  {| records := records c; statuses := statuses c; events := events c; next_version := next_version c + 1 |}.

Definition apply_record_write (w : Write) (c : Control) : Result Control StateError :=
  let c := next_write c in
  let d := records c in
  let next := next_version c in
  match w with
  | WEnvironment k op =>
      let? r := apply_op Collection.Environment op (environments d !! k) next in
      Ok (with_records (with_environments (put k r (environments d)) d) c)
  | WMembership k op =>
      let? r := apply_op Collection.EnvironmentProject op (memberships d !! k) next in
      Ok (with_records (with_memberships (put k r (memberships d)) d) c)
  | WWorkload k op =>
      let? r := apply_op Collection.Workload op (workloads d !! k) next in
      Ok (with_records (with_workloads (put k r (workloads d)) d) c)
  | WDeployment k op =>
      let? r := apply_op Collection.Deployment op (deployments d !! k) next in
      Ok (with_records (with_deployments (put k r (deployments d)) d) c)
  | WInstance k op =>
      let? r := apply_op Collection.WorkloadInstance op (instances d !! k) next in
      Ok (with_records (with_instances (put k r (instances d)) d) c)
  | WTraffic k op =>
      let? r := apply_op Collection.TrafficAssignment op (traffic d !! k) next in
      Ok (with_records (with_traffic (put k r (traffic d)) d) c)
  | WStatus k op =>
      let? r := apply_op Collection.WorkloadStatus op (statuses c !! k) next in
      Ok (with_statuses (put k r (statuses c)) c)
  end.

Fixpoint apply_record_writes (ws : list Write) (c : Control) : Result Control StateError :=
  match ws with
  | [] => Ok c
  | w :: ws => let? c := apply_record_write w c in apply_record_writes ws c
  end.

Definition record_events (es : list Event) (c : Control) : Control :=
  {| records := records c; statuses := statuses c; events := events c ++ es;
     next_version := next_version c + N.of_nat (length es) |}.

(** A change committed: all of its writes, or none. *)
Definition commit (change : Change) (c : Control) : Result Control StateError :=
  let? c := apply_record_writes (ch_writes change) c in Ok (record_events (ch_events change) c).

(** [impl From<StateError> for EnvironmentError] *)
Definition environment_error (e : StateError) : EnvironmentError :=
  match e with
  | State.Conflict _ _ | Precondition _ _ _ _ =>
      Conflict (state_error_to_string e +:+ "; another change landed first, retry against the current state")
  | State.NotFound _ _ => NotFound (state_error_to_string e)
  | StateInvalid message => Invalid message
  | StateUnavailable message => Unavailable message
  end.

(** The deployments a working copy holds: in flight, or named by a membership or an
    instance; the revisions those name. *)
Definition held (d : Desired) (id : string) (s : Stored DeploymentRecord) : bool :=
  bool_decide (dep_status (st_value s) ∈ DeploymentStatus.IN_FLIGHT) ||
  existsb (λ m, bool_decide (mem_deployment_id (st_value (snd m)) = Some id)) (map_to_list (memberships d)) ||
  existsb (λ i, String.eqb (inst_deployment_id (st_value (snd i))) id) (map_to_list (instances d)).

(** [Desired::from_snapshot] of the snapshot [desired_snapshot] defines. *)
Definition working_copy (c : Control) : Desired :=
  let d := records c in
  let kept := filter (λ e, held d (fst e) (snd e) = true) (deployments d) in
  with_revisions
    (filter (λ e, existsb (λ s, String.eqb (dep_revision_id (st_value (snd s))) (fst e)) (map_to_list kept) = true)
       (revisions d))
    (with_deployments kept d).
