(* ===== verification/ReleaseSteps.v ===== *)
(** The steps of a release (src/crates/compute-environment/src/daemon/release.rs): what
    each decides from the working copy and what the node shows, as the change it would
    commit.  [None] is "nothing to do yet" ([Ok(false)]).

    What the node shows ([Node]) is an argument: the clock, which ports can be bound,
    what accepts connections and answers, what runs, how placement answers, whether
    the receipt could be stored.  All the readings of the clock within one step agree. *)

From S2P Require Import Prelude Text Core Isolation Policy Admission Descriptor Matching Pool Placement State Auth Release.

(** ** The node *)

Inductive ActualState : Type :=
| ActPending | ActStarting | ActRunning | ActStopping | ActStopped | ActCompleted | ActFailed | ActDenied
| ActDegraded.
#[export] Instance actual_state_eq_dec : EqDecision ActualState.
Proof. solve_decision. Defined.

Record Config : Type := {
  port_range : N * N;
  instance_port_range : N * N;
  drain_timeout : Z;
  switch_timeout : Z;
  daemon_version : string;
  daemon_instance : string;
}.

(** What a receipt says of a deployment. *)
Record DeploymentReceipt : Type := {
  dr_deployment_id : string;
  dr_deployment_version : N;
  dr_environment_id : string;
  dr_environment : string;
  dr_project_id : string;
  dr_project : string;
  dr_revision_id : string;
  dr_revision : string;
  dr_revision_digest : string;
  dr_old_revision : option string;
  dr_previous_deployment_id : option string;
  dr_promoted_from : option string;
  dr_config_digest : option string;
  dr_status : DeploymentStatus;
  dr_failure : option string;
  dr_rollback_reason : option string;
  dr_workloads : list DeploymentWorkload;
  dr_readiness : option (gmap string ReadinessEvidence);
  dr_network : option NetworkResult;
  dr_traffic_switch : option SwitchResult;
  dr_execution_receipts : list string;
  dr_events : list (N * string * Z);
  dr_created_at : Z;
  dr_completed_at : option Z;
  dr_compute : string;
  dr_daemon : string;
}.

Record Route : Type := { rt_instance_id : string; rt_target_port : N }.
#[export] Instance route_eq_dec : EqDecision Route.
Proof. solve_decision. Defined.

Record Target : Type := {
  tg_environment : Stored EnvironmentRecord;
  tg_config : gmap string string;
  tg_project_id : string;
  tg_revision : ProjectRevisionRecord;
  tg_workload : RevisionWorkload;
  tg_workload_id : string;
  tg_ports : list PortBinding;
}.

(** What is known of a unit that was started. *)
Record UnitRuntime : Type := {
  ur_state : option ActualState;
  ur_held : bool;
  ur_failures : N;
  ur_error : option string;
  ur_running_since : option Z;
}.

Record Node : Type := {
  node_now : Z;
  node_instant : Z;
  (** whether a port could be bound, on the endpoints' address and on 127.0.0.1 *)
  endpoint_binds : N → bool;
  instance_binds : N → bool;
  node_accepts : N → bool;
  node_http : N → string → option N;
  node_routes : gmap N Route;
  endpoint_errors : gmap N string;
  node_runtime : Key → string → option UnitRuntime;
  (** the status and exit code a task ended with *)
  node_task : Key → string → Result (string * option Z) EnvironmentError;
  node_prepare : Target → Result PlacementReport EnvironmentError;
  open_connections : string → option N;
  release_events : string → list (N * string * Z);
  put_receipt : DeploymentReceipt → Result string EnvironmentError;
  status_versions : gmap string (Stored unit);
}.

Definition usize_max : N := u64_max.
Definition ms : Z := 1000000.

(** [(now - then).to_std().unwrap_or_default()] *)
Definition elapsed (now then_ : Z) : Z := Z.max 0 (now - then_).

Definition error_display (e : EnvironmentError) : string :=
  match e with
  | Invalid m => "invalid: " +:+ m
  | NotFound m => "not found: " +:+ m
  | NoRoute m => "no such operation: " +:+ m
  | Conflict m => "conflict: " +:+ m
  | Denied m => "admission denied: " +:+ m
  | Unauthorized m => "authentication failed: " +:+ m
  | Forbidden m => "authorization denied: " +:+ m
  | RuntimeUnavailable m => "runtime unavailable: " +:+ m
  | Cancelled m => "cancelled: " +:+ m
  | ControllerUnavailable m => "controller unavailable: " +:+ m
  | UpgradeFailed m => "upgrade failed: " +:+ m
  | Unavailable m => "control state unavailable: " +:+ m
  | Io _ | Json _ | Compute _ => error_message e
  end.

(** [range.find(..)] over [low..=high] *)
Definition find_port (range : N * N) (f : N → bool) : option N :=
  let '(low, high) := range in
  List.find f
    (if N.leb low high then map (λ i, low + N.of_nat i)%N (seq 0 (N.to_nat (high - low + 1))) else []).

(** ** Updates

    The fields [batch.update] merges, [None] where the update does not name one. *)

Record DeploymentFields : Type := {
  df_workloads : option (list DeploymentWorkload);
  df_failure : option string;
  df_readiness_result : option (gmap string ReadinessEvidence);
  df_network_result : option NetworkResult;
  df_traffic_switch_result : option SwitchResult;
  df_rollback_reason : option string;
  df_receipt : option string;
  df_completed_at : option Z;
}.

Definition no_fields : DeploymentFields :=
  {| df_workloads := None; df_failure := None; df_readiness_result := None; df_network_result := None;
     df_traffic_switch_result := None; df_rollback_reason := None; df_receipt := None; df_completed_at := None |}.

(** An optional field given, or as it was. *)
Definition given {A} (new old : option A) : option A := match new with Some _ => new | None => old end.

Definition merge_deployment (status : DeploymentStatus) (now : Z) (f : DeploymentFields) (r : DeploymentRecord)
    : DeploymentRecord :=
  {| dep_environment_id := dep_environment_id r; dep_environment := dep_environment r;
     dep_project_id := dep_project_id r; dep_project := dep_project r; dep_version := dep_version r;
     dep_revision_id := dep_revision_id r; dep_revision := dep_revision r;
     dep_revision_digest := dep_revision_digest r; dep_status := status;
     dep_promoted_from := dep_promoted_from r; dep_previous := dep_previous r;
     dep_workloads := default (dep_workloads r) (df_workloads f);
     dep_failure := given (df_failure f) (dep_failure r); dep_receipt_ids := dep_receipt_ids r;
     dep_old_revision := dep_old_revision r; dep_config_digest := dep_config_digest r;
     dep_config := dep_config r;
     dep_readiness_result := given (df_readiness_result f) (dep_readiness_result r);
     dep_network_result := given (df_network_result f) (dep_network_result r);
     dep_traffic_switch_result := given (df_traffic_switch_result f) (dep_traffic_switch_result r);
     dep_rollback_reason := given (df_rollback_reason f) (dep_rollback_reason r);
     dep_receipt := given (df_receipt f) (dep_receipt r); dep_status_since := Some now;
     dep_completed_at := given (df_completed_at f) (dep_completed_at r); dep_created_at := dep_created_at r;
     dep_updated_at := now |}.

Record InstanceFields : Type := {
  if_state : InstanceState;
  if_ready_at : option Z;
  if_readiness : option string;
  if_stopped_at : option Z;
  if_error : option string;
}.

Definition instance_to (state : InstanceState) : InstanceFields :=
  {| if_state := state; if_ready_at := None; if_readiness := None; if_stopped_at := None; if_error := None |}.
Definition instance_stopped (state : InstanceState) (error : option string) (now : Z) : InstanceFields :=
  {| if_state := state; if_ready_at := None; if_readiness := None; if_stopped_at := Some now; if_error := error |}.

Definition merge_instance (now : Z) (f : InstanceFields) (r : WorkloadInstanceRecord) : WorkloadInstanceRecord :=
  {| inst_environment_id := inst_environment_id r; inst_environment := inst_environment r;
     inst_project_id := inst_project_id r; inst_project := inst_project r; inst_workload := inst_workload r;
     inst_workload_id := inst_workload_id r; inst_deployment_id := inst_deployment_id r;
     inst_revision := inst_revision r; inst_state := if_state f; inst_ports := inst_ports r;
     inst_readiness := given (if_readiness f) (inst_readiness r); inst_started_at := inst_started_at r;
     inst_ready_at := given (if_ready_at f) (inst_ready_at r);
     inst_stopped_at := given (if_stopped_at f) (inst_stopped_at r);
     inst_error := given (if_error f) (inst_error r); inst_updated_at := now |}.

Definition update_instance (now : Z) (s : Stored WorkloadInstanceRecord) (f : InstanceFields) : Write :=
  WInstance (st_id s) (OpUpdate s (merge_instance now f)).

Definition key_of_workload (w : WorkloadRecord) : Key := (wl_environment w, wl_project w, wl_name w).

(** [delete_status]; the status of a workload is held under the workload's identity. *)
Definition delete_status (node : Node) (workload_id : string) : list Write :=
  match status_versions node !! workload_id with
  | Some status => [WStatus workload_id (OpDelete status)]
  | None => []
  end.

(** [run_config] *)
Definition run_config (deployment : DeploymentRecord) (membership : option (Stored EnvironmentProjectRecord))
    : gmap string string :=
  if negb (bool_decide (dep_config deployment = ∅)) || bool_decide (is_Some (dep_config_digest deployment))
  then dep_config deployment
  else from_option (λ m, mem_config (st_value m)) ∅ membership.

(** [placement_failure] *)
Definition placement_failure (r : PlacementReport) : string * option AdmissionDecision :=
  let failure :=
    match failure r with
    | Some f => failure_code f +:+ ": " +:+ failure_message f
    | None => "placement_failed"
    end in
  let decision :=
    head (omap (λ p, match pe_admission p with
                     | Some d => if negb (is_admitted d) then Some d else None
                     | None => None
                     end) (providers r)) in
  let reasons := from_option (λ d, reason_message <$> decision_reasons d) [] decision in
  (match reasons with [] => failure | _ => failure +:+ ": " +:+ join "; " reasons end, decision).

(** A workload's stable endpoints: [resolved_endpoints]. *)
Definition resolved_endpoints (d : Desired) (key : Key) (evidence : DeploymentWorkload) : list PortBinding :=
  match dw_endpoints evidence, dw_kind evidence with
  | [], KindService => from_option (λ w, wl_ports (st_value w)) [] (workloads d !! key)
  | endpoints, _ => endpoints
  end.

(** [listens] *)
Definition listens (d : Desired) (deployment_id workload : string) : bool :=
  match revision_workload d deployment_id workload with
  | Some w =>
      match rd_check (default (default_readiness (rw_ports w)) (rw_readiness w)) with
      | CheckPort | CheckHttp => true
      | _ => false
      end
  | None => false
  end.

Section steps.
Context `{!Sha256Hex}.
Context (config : Config) (node : Node).

(** ** Committing *)

Definition release_scope (release : Stored DeploymentRecord) : Scope :=
  with_deployment (st_id release) (scope_project (dep_place (st_value release))).

Definition since (record : DeploymentRecord) : Z :=
  elapsed (node_now node) (default (dep_updated_at record) (dep_status_since record)).

(** [transition] *)
Definition transition (release : Stored DeploymentRecord) (next : DeploymentStatus) (f : DeploymentFields)
    (c : Change) : Change :=
  change_with (WDeployment (st_id release) (OpUpdate release (merge_deployment next (node_now node) f))) c.

(** "project revision" of a release's messages *)
Definition titled (record : DeploymentRecord) : string := dep_project record +:+ " " +:+ dep_revision record.

(** [deployment_receipt] *)
Definition receipt_of (deployment_id : string) (record : DeploymentRecord) : DeploymentReceipt :=
  {| dr_deployment_id := deployment_id; dr_deployment_version := dep_version record;
     dr_environment_id := dep_environment_id record; dr_environment := dep_environment record;
     dr_project_id := dep_project_id record; dr_project := dep_project record;
     dr_revision_id := dep_revision_id record; dr_revision := dep_revision record;
     dr_revision_digest := dep_revision_digest record; dr_old_revision := dep_old_revision record;
     dr_previous_deployment_id := dep_previous record; dr_promoted_from := dep_promoted_from record;
     dr_config_digest := dep_config_digest record; dr_status := dep_status record;
     dr_failure := dep_failure record; dr_rollback_reason := dep_rollback_reason record;
     dr_workloads := dep_workloads record; dr_readiness := dep_readiness_result record;
     dr_network := dep_network_result record; dr_traffic_switch := dep_traffic_switch_result record;
     dr_execution_receipts := dep_receipt_ids record; dr_events := release_events node deployment_id;
     dr_created_at := dep_created_at record; dr_completed_at := dep_completed_at record;
     dr_compute := daemon_version config; dr_daemon := daemon_instance config |}.

Definition deployment_receipt (deployment_id : string) (record : DeploymentRecord)
    : Result string EnvironmentError :=
  put_receipt node (receipt_of deployment_id record).

(** A record as it finishes, for its receipt. *)
Definition finished (status : DeploymentStatus) (workloads : option (list DeploymentWorkload))
    (failure rollback_reason : option string) (r : DeploymentRecord) : DeploymentRecord :=
  {| dep_environment_id := dep_environment_id r; dep_environment := dep_environment r;
     dep_project_id := dep_project_id r; dep_project := dep_project r; dep_version := dep_version r;
     dep_revision_id := dep_revision_id r; dep_revision := dep_revision r;
     dep_revision_digest := dep_revision_digest r; dep_status := status;
     dep_promoted_from := dep_promoted_from r; dep_previous := dep_previous r;
     dep_workloads := default (dep_workloads r) workloads; dep_failure := given failure (dep_failure r);
     dep_receipt_ids := dep_receipt_ids r; dep_old_revision := dep_old_revision r;
     dep_config_digest := dep_config_digest r; dep_config := dep_config r;
     dep_readiness_result := dep_readiness_result r; dep_network_result := dep_network_result r;
     dep_traffic_switch_result := dep_traffic_switch_result r;
     dep_rollback_reason := given rollback_reason (dep_rollback_reason r); dep_receipt := dep_receipt r;
     dep_status_since := dep_status_since r; dep_completed_at := Some (node_now node);
     dep_created_at := dep_created_at r; dep_updated_at := dep_updated_at r |}.

(** ** Failing *)

Definition stopped_or_failed (s : InstanceState) : bool :=
  match s with InstanceState.Stopped | InstanceState.Failed => true | _ => false end.

(** [fail_with]; of the fields given on the way only [workloads] occurs. *)
Definition fail_with (change : Change) (release : Stored DeploymentRecord) (d : Desired)
    (stage reason : string) (workloads : option (list DeploymentWorkload)) : Result Change EnvironmentError :=
  let record := st_value release in
  let now := node_now node in
  let? receipt :=
    deployment_receipt (st_id release) (finished DeploymentStatus.Failed workloads (Some reason) None record) in
  let change :=
    transition release DeploymentStatus.Failed
      {| df_workloads := workloads; df_failure := Some reason; df_readiness_result := None;
         df_network_result := None; df_traffic_switch_result := None; df_rollback_reason := None;
         df_receipt := Some receipt; df_completed_at := Some now |} change in
  let own := instances_where d (λ i, String.eqb (inst_deployment_id i) (st_id release) &&
                                     negb (stopped_or_failed (inst_state i))) in
  let change :=
    change_all
      ((λ i, update_instance now i (instance_stopped InstanceState.Failed (Some reason) now)) <$> own) change in
  let change :=
    match memberships d !! dep_place record with
    | Some membership =>
        match mem_deployment_id (st_value membership) with
        | None => change_with (WMembership (dep_place record) (OpDelete membership)) change
        | Some _ => change
        end
    | None => change
    end in
  Ok (event "deployment.failed" (release_scope release)
        (titled record +:+ " was not released to " +:+ dep_environment record +:+ ": " +:+ reason) change).

(** [fail], on the working copy as it is by then *)
Definition fail (later : Desired) (release : Stored DeploymentRecord) (stage reason : string)
    : Result Change EnvironmentError :=
  fail_with change_new release later stage reason None.

(** ** Pending: admission, placement, ports *)

Definition free_port (range : N * N) (used : gset N) (endpoint : bool) : Result N EnvironmentError :=
  match find_port range (λ candidate,
          negb (bool_decide (candidate ∈ used)) &&
          (if endpoint then endpoint_binds node candidate else instance_binds node candidate)) with
  | Some port => Ok port
  | None =>
      Err (Invalid ("no free host port in " +:+ show (fst range) +:+ "-" +:+ show (snd range) +:+ " for "
                    +:+ (if endpoint then "an endpoint" else "an instance")))
  end.

(** What [plan_ports] plans, and the ports used by then. *)
Record PortPlan : Type := {
  plan_endpoints : list PortBinding;
  plan_instance : list PortBinding;
  plan_used_endpoints : gset N;
  plan_used_instances : gset N;
}.

(** The host port an endpoint already has. *)
Definition kept_port (d : Desired) (key : Key) (port : PortSpec) : option N :=
  let existing := workload ← workloads d !! key;
    pb_host <$> List.find (λ b, String.eqb (pb_name b) (ps_name port)) (wl_ports (st_value workload)) in
  match existing with
  | Some host => Some host
  | None =>
      ta_host_port ∘ st_value <$>
        traffic d !! endpoint_of (fst (place_of key)) (snd (place_of key)) (snd key) (ps_name port)
  end.

Fixpoint plan_ports (d : Desired) (key : Key) (ports : list PortSpec) (used_endpoints used_instances : gset N)
    : Result PortPlan EnvironmentError :=
  match ports with
  | [] => Ok {| plan_endpoints := []; plan_instance := []; plan_used_endpoints := used_endpoints;
                plan_used_instances := used_instances |}
  | port :: ports =>
      let? '(host, used_endpoints) :=
        match kept_port d key port with
        | Some host => Ok (host, used_endpoints)
        | None =>
            let? host := free_port (port_range config) used_endpoints true in
            Ok (host, {[host]} ∪ used_endpoints)
        end in
      let? instance := free_port (instance_port_range config) used_instances false in
      let? rest := plan_ports d key ports used_endpoints ({[instance]} ∪ used_instances) in
      Ok {| plan_endpoints :=
              {| pb_name := ps_name port; pb_logical := ps_port port; pb_host := host |} :: plan_endpoints rest;
            plan_instance :=
              {| pb_name := ps_name port; pb_logical := ps_port port; pb_host := instance |}
              :: plan_instance rest;
            plan_used_endpoints := plan_used_endpoints rest;
            plan_used_instances := plan_used_instances rest |}
  end.

(** The endpoints' ports in use, and the instances'. *)
Definition used_endpoints (d : Desired) (release : Stored DeploymentRecord) : gset N :=
  list_to_set
    (concat ((λ e, pb_host <$> wl_ports (st_value (snd e))) <$> entries compare_keys (workloads d)) ++
     ((λ e, ta_host_port (st_value (snd e))) <$> Pool.by_id (traffic d)) ++
     concat ((λ other, concat ((λ w, pb_host <$> dw_endpoints w) <$> dep_workloads (st_value other))) <$>
       filter (λ other, st_id other ≠ st_id release) (in_flight d))).

Definition used_instances (d : Desired) : gset N :=
  list_to_set
    (concat ((λ i, pb_host <$> inst_ports (st_value i)) <$>
       instances_where d (λ i, negb (stopped_or_failed (inst_state i))))).

(** What admission and placement decided of one workload. *)
Definition admit_workload (record : DeploymentRecord) (w : RevisionWorkload) (report : PlacementReport)
    (endpoints : list PortBinding) : DeploymentWorkload :=
  let recorded := List.find (λ r, String.eqb (dw_name r) (rw_name w)) (dep_workloads record) in
  let distribution := selected report ≫= selected_runtime_distribution in
  let '(denied, decision) := placement_failure report in
  let remote_service s :=
    bool_decide (rw_kind w = KindService) && negb (bool_decide (selected_provider_kind s = KindLocal)) in
  let admitted :=
    match selected report with Some s => negb (remote_service s) | None => false end in
  {| dw_name := rw_name w; dw_kind := rw_kind w; dw_bundle_id := rw_bundle_id w; dw_artifact := rw_artifact w;
     dw_runtime := rw_runtime w; dw_runtime_version := rw_runtime_version w;
     dw_resolved_runtime_version := dist_version <$> distribution;
     dw_distribution := given (dist_id <$> distribution) (rw_distribution w);
     dw_admitted := admitted;
     dw_policy_id :=
       match selected report, decision with
       | Some s, _ => Some (if admitted then selected_policy_id s else report_policy_id report)
       | None, Some decision => Some (decision_policy_id decision)
       | None, None => Some (report_policy_id report)
       end;
     dw_admission_id :=
       match selected report with
       | Some s => if admitted then Some (selected_admission_id s) else None
       | None => admission_id <$> decision
       end;
     dw_placement_id := Some (placement_id report);
     dw_provider := selected_provider_id <$> selected report;
     dw_reasons :=
       match selected report with
       | Some s =>
           if admitted then []
           else ["services run on the daemon's own node; placement selected " +:+ selected_provider_id s]
       | None => [denied]
       end;
     dw_endpoints := endpoints;
     dw_pool_placement := recorded ≫= dw_pool_placement;
     dw_application_artifact := recorded ≫= dw_application_artifact |}.

(** What the loop over a revision's workloads has gathered when it ends. *)
Record Admissions : Type := {
  adm_evidence : list DeploymentWorkload;
  adm_instances : list (RevisionWorkload * string * list PortBinding);
  adm_failure : option string;
}.

Definition admissions_end (failure : option string) : Admissions :=
  {| adm_evidence := []; adm_instances := []; adm_failure := failure |}.

Fixpoint admit_workloads (d : Desired) (environment : Stored EnvironmentRecord) (record : DeploymentRecord)
    (revision : ProjectRevisionRecord) (ws : list RevisionWorkload) (used_e used_i : gset N) : Admissions :=
  match ws with
  | [] => admissions_end None
  | w :: ws =>
      let key : Key := (dep_environment record, dep_project record, rw_name w) in
      let workload_id := workload_id_of (st_id environment) (dep_project_id record) (rw_name w) in
      let failed e := admissions_end (Some (rw_name w +:+ ": " +:+ error_display e)) in
      let planned :=
        match rw_kind w with
        | KindService => plan_ports d key (rw_ports w) used_e used_i
        | KindTask => Ok {| plan_endpoints := []; plan_instance := []; plan_used_endpoints := used_e;
                            plan_used_instances := used_i |}
        end in
      match planned with
      | Err e => failed e
      | Ok plan =>
          match node_prepare node
                  {| tg_environment := environment; tg_config := dep_config record;
                     tg_project_id := dep_project_id record; tg_revision := revision; tg_workload := w;
                     tg_workload_id := workload_id; tg_ports := plan_instance plan |} with
          | Err e => failed e
          | Ok report =>
              let admitted := admit_workload record w report (plan_endpoints plan) in
              if dw_admitted admitted then
                let rest := admit_workloads d environment record revision ws
                              (plan_used_endpoints plan) (plan_used_instances plan) in
                {| adm_evidence := admitted :: adm_evidence rest;
                   adm_instances :=
                     match rw_kind w with
                     | KindService => (w, workload_id, plan_instance plan) :: adm_instances rest
                     | KindTask => adm_instances rest
                     end;
                   adm_failure := adm_failure rest |}
              else
                {| adm_evidence := [admitted]; adm_instances := [];
                   adm_failure := Some (rw_name w +:+ ": " +:+ join "; " (dw_reasons admitted)) |}
          end
      end
  end.

(** The instance a release starts. *)
Definition starting_instance (record : DeploymentRecord) (release_id : string) (w : RevisionWorkload)
    (workload_id : string) (ports : list PortBinding) : WorkloadInstanceRecord :=
  {| inst_environment_id := dep_environment_id record; inst_environment := dep_environment record;
     inst_project_id := dep_project_id record; inst_project := dep_project record;
     inst_workload := rw_name w; inst_workload_id := workload_id; inst_deployment_id := release_id;
     inst_revision := dep_revision record; inst_state := InstanceState.Starting; inst_ports := ports;
     inst_readiness := None; inst_started_at := Some (node_now node); inst_ready_at := None;
     inst_stopped_at := None; inst_error := None; inst_updated_at := node_now node |}.

(** [admit] *)
Definition admit_release (later d : Desired) (release : Stored DeploymentRecord)
    (environment : Stored EnvironmentRecord) : Result (option Change) EnvironmentError :=
  let record := st_value release in
  match revisions d !! dep_revision_id record with
  | None => let? c := fail later release "admission" ("revision " +:+ dep_revision_id record +:+ " is missing") in
            Ok (Some c)
  | Some revision =>
      let admissions :=
        admit_workloads d environment record revision (rev_workloads revision) (used_endpoints d release)
          (used_instances d) in
      match adm_failure admissions with
      | Some failure =>
          let? c := fail_with change_new release d "admission" failure (Some (adm_evidence admissions)) in
          Ok (Some c)
      | None =>
          let change :=
            transition release DeploymentStatus.Starting
              {| df_workloads := Some (adm_evidence admissions); df_failure := None; df_readiness_result := None;
                 df_network_result := None; df_traffic_switch_result := None; df_rollback_reason := None;
                 df_receipt := None; df_completed_at := None |} change_new in
          let change :=
            change_all
              (omap (λ '(w, workload_id, ports),
                 let id := instance_id_of workload_id (st_id release) in
                 match instances d !! id with
                 | Some _ => None
                 | None => Some (WInstance id (OpCreate id
                             (starting_instance record (st_id release) w workload_id ports)))
                 end) (adm_instances admissions)) change in
          let change :=
            event "deployment.admitted" (release_scope release)
              (titled record +:+ " admitted in " +:+ dep_environment record) change in
          Ok (Some (event "deployment.placed" (release_scope release)
            (titled record +:+ " placed in " +:+ dep_environment record +:+ "; starting its instances") change))
      end
  end.

(** ** Starting: readiness *)

Inductive Check : Type :=
| CheckReady (detail : string)
| CheckWaiting (detail : string)
| CheckFailed (reason : string).

Definition show_exit (code : option Z) : string := from_option show_z "no exit code" code.

(** The port a readiness check names. *)
Definition readiness_port (i : WorkloadInstanceRecord) (readiness : Readiness) : option (string * N) :=
  (λ b, (pb_name b, pb_host b)) <$>
    match rd_port readiness with
    | Some name => List.find (λ b, String.eqb (pb_name b) name) (inst_ports i)
    | None => head (inst_ports i)
    end.

Definition undeclared_port : Check := CheckFailed "readiness names a port the service does not declare".

(** What a unit that runs shows of a check. *)
Definition observe_readiness (release : Stored DeploymentRecord) (i : WorkloadInstanceRecord)
    (readiness : Readiness) (running_since : option Z) : Check :=
  match rd_check readiness with
  | CheckProcess =>
      let up := from_option (elapsed (node_now node)) 0%Z running_since in
      if Z.leb (500 * ms) up then CheckReady ("running for " +:+ show_z (up / ms) +:+ "ms")
      else CheckWaiting "the process has just started"
  | CheckPort =>
      match readiness_port i readiness with
      | Some (name, host) =>
          if node_accepts node host then CheckReady ("port " +:+ name +:+ " accepts connections")
          else CheckWaiting ("port " +:+ name +:+ " is not accepting connections")
      | None => undeclared_port
      end
  | CheckHttp =>
      let path := default "/" (rd_path readiness) in
      match readiness_port i readiness with
      | Some (name, host) =>
          match node_http node host path with
          | Some status =>
              if N.leb 200 status && N.ltb status 400
              then CheckReady ("GET " +:+ path +:+ " on port " +:+ name +:+ " answered " +:+ show status)
              else CheckWaiting ("GET " +:+ path +:+ " answered " +:+ show status)
          | None => CheckWaiting ("GET " +:+ path +:+ " on port " +:+ name +:+ " got no answer")
          end
      | None => undeclared_port
      end
  | CheckTask =>
      match rd_task readiness with
      | None => CheckFailed "a task readiness check needs a task"
      | Some task =>
          match node_task node (inst_environment i, inst_project i, task) (st_id release) with
          | Ok (status, code) =>
              if Z.eqb (default 0%Z code) 0 && String.eqb status "completed"
              then CheckReady ("task " +:+ task +:+ " exited 0")
              else CheckWaiting ("task " +:+ task +:+ " ended " +:+ status +:+ " (" +:+ show_exit code +:+ ")")
          | Err e => CheckWaiting ("task " +:+ task +:+ ": " +:+ error_display e)
          end
      end
  end.

(** [check_readiness], with when each instance was last checked. *)
Definition check_readiness (release : Stored DeploymentRecord) (instance : Stored WorkloadInstanceRecord)
    (workload : RevisionWorkload) (readiness : Readiness) (checked : gmap string Z) : Check * gmap string Z :=
  let i := st_value instance in
  let early last := Z.ltb (elapsed (node_instant node) last) (Z.of_N (rd_interval_ms readiness) * ms) in
  if from_option early false (checked !! st_id instance) then (CheckWaiting "checking", checked)
  else
    let checked := <[st_id instance := node_instant node]> checked in
    (match node_runtime node (instance_key i) (st_id release) with
     | None => CheckWaiting "not started yet"
     | Some unit_ =>
         let error := default "it exited" (ur_error unit_) in
         let ended := ur_held unit_ &&
           (bool_decide (rw_restart workload = RestartNever) || N.leb 3 (ur_failures unit_)) in
         match ur_state unit_ with
         | Some ActDenied => CheckFailed ("denied: " +:+ error)
         | Some ActFailed | Some ActStopped | Some ActCompleted =>
             if ended then CheckFailed error else CheckWaiting "starting"
         | Some ActRunning => observe_readiness release i readiness (ur_running_since unit_)
         | _ => CheckWaiting "starting"
         end
     end, checked).

(** What the loop over a release's instances has gathered. *)
Record Readying : Type := {
  ry_change : Change;
  ry_results : gmap string ReadinessEvidence;
  ry_waiting : list string;
  ry_timeout : Z;
  ry_checked : gmap string Z;
}.

Definition ready_event (release : Stored DeploymentRecord) (key : Key) (detail : string) (c : Change) : Change :=
  event "instance.ready" (with_deployment (st_id release) (scope_workload key))
    (snd key +:+ " " +:+ dep_revision (st_value release) +:+ " is ready in " +:+ fst (place_of key) +:+ "/"
     +:+ snd (place_of key) +:+ ": " +:+ detail) c.

(** One instance; [inr] carries the reason it failed before it was ready. *)
Definition ready_instance (d : Desired) (release : Stored DeploymentRecord) (revision : ProjectRevisionRecord)
    (r : Readying) (instance : Stored WorkloadInstanceRecord) : Readying * option string :=
  let i := st_value instance in
  let key := instance_key i in
  match List.find (λ w, String.eqb (rw_name w) (snd key)) (rev_workloads revision) with
  | None => (r, None)
  | Some workload =>
      let readiness := default (default_readiness (rw_ports workload)) (rw_readiness workload) in
      let timeout := Z.max (ry_timeout r) (Z.of_N (rd_timeout_ms readiness) * ms) in
      let with_result results change waiting checked :=
        {| ry_change := change; ry_results := results; ry_waiting := waiting; ry_timeout := timeout;
           ry_checked := checked |} in
      if bool_decide (inst_state i = InstanceState.Ready) then
        (with_result
           (<[snd key := {| re_check := rd_check readiness; re_ready_at := inst_ready_at i;
                            re_detail := inst_readiness i |}]> (ry_results r))
           (ry_change r) (ry_waiting r) (ry_checked r), None)
      else
        let '(outcome, checked) :=
          if workload_runs d key (st_id release)
          then check_readiness release instance workload readiness (ry_checked r)
          else (CheckReady "not started: its desired state is stopped", ry_checked r) in
        match outcome with
        | CheckReady detail =>
            let change :=
              change_with
                (update_instance (node_now node) instance
                   {| if_state := InstanceState.Ready; if_ready_at := Some (node_now node);
                      if_readiness := Some detail; if_stopped_at := None; if_error := None |}) (ry_change r) in
            (with_result
               (<[snd key := {| re_check := rd_check readiness; re_ready_at := Some (node_now node);
                                re_detail := Some detail |}]> (ry_results r))
               (ready_event release key detail change) (ry_waiting r) checked, None)
        | CheckWaiting detail =>
            (with_result (ry_results r) (ry_change r) (ry_waiting r ++ [snd key +:+ ": " +:+ detail]) checked,
             None)
        | CheckFailed reason =>
            (with_result (ry_results r) (ry_change r) (ry_waiting r) checked,
             Some (snd key +:+ " failed before it was ready: " +:+ reason))
        end
  end.

Fixpoint ready_instances (d : Desired) (release : Stored DeploymentRecord) (revision : ProjectRevisionRecord)
    (r : Readying) (rest : list (Stored WorkloadInstanceRecord)) : Readying * option string :=
  match rest with
  | [] => (r, None)
  | i :: rest =>
      match ready_instance d release revision r i with
      | (r, None) => ready_instances d release revision r rest
      | (r, Some reason) => (r, Some reason)
      end
  end.

Definition own_instances (d : Desired) (release : Stored DeploymentRecord) : list (Stored WorkloadInstanceRecord) :=
  instances_where d (λ i, String.eqb (inst_deployment_id i) (st_id release)).

(** [await_readiness], and what was checked when. *)
Definition await_readiness (d : Desired) (release : Stored DeploymentRecord) (checked : gmap string Z)
    : Result (option Change) EnvironmentError * gmap string Z :=
  let record := st_value release in
  match revisions d !! dep_revision_id record with
  | None => (Ok None, checked)
  | Some revision =>
      let '(r, failed) :=
        ready_instances d release revision
          {| ry_change := change_new; ry_results := ∅; ry_waiting := []; ry_timeout := 0; ry_checked := checked |}
          (own_instances d release) in
      let failing reason := let? c := fail_with (ry_change r) release d "readiness" reason None in Ok (Some c) in
      (match failed with
       | Some reason => failing reason
       | None =>
           match ry_waiting r with
           | [] =>
               Ok (Some (event "deployment.ready" (release_scope release)
                 (titled record +:+ " is ready in " +:+ dep_environment record)
                 (transition release DeploymentStatus.Ready
                    {| df_workloads := None; df_failure := None; df_readiness_result := Some (ry_results r);
                       df_network_result := None; df_traffic_switch_result := None; df_rollback_reason := None;
                       df_receipt := None; df_completed_at := None |} (ry_change r))))
           | waiting =>
               if Z.ltb (ry_timeout r) (since record) then
                 failing ("readiness timed out after " +:+ show_z (ry_timeout r / (1000 * ms)) +:+ "s: "
                          +:+ join "; " waiting)
               else if change_is_empty (ry_change r) then Ok None
               else Ok (Some (ry_change r))
           end
       end, ry_checked r)
  end.

(** ** Ready: endpoints, DNS, TLS *)

(** What stops the verification of the network: a reason to fail, or nothing yet. *)
Inductive NetworkStop : Type := NetworkFail (reason : string) | NetworkWait.

Definition port_of (i : WorkloadInstanceRecord) (name : string) : option N :=
  pb_host <$> List.find (λ b, String.eqb (pb_name b) name) (inst_ports i).

(** One endpoint of a workload. *)
Definition verify_endpoint (d : Desired) (release : Stored DeploymentRecord) (key : Key)
    (instance : Stored WorkloadInstanceRecord) (binding : PortBinding) : Result EndpointEvidence NetworkStop :=
  let endpoint := endpoint_of (fst (place_of key)) (snd (place_of key)) (snd key) (pb_name binding) in
  let listening := bool_decide (is_Some (node_routes node !! pb_host binding)) in
  match endpoint_errors node !! pb_host binding with
  | Some error => Err (NetworkFail error)
  | None =>
      reject_if (negb listening && negb (endpoint_binds node (pb_host binding)))
        (NetworkFail ("endpoint " +:+ endpoint +:+ " cannot listen: port " +:+ show (pb_host binding)
                      +:+ " is in use by another process")) ;?;
      let target := port_of (st_value instance) (pb_name binding) in
      let reachable := from_option (node_accepts node) false target in
      reject_if (workload_runs d key (st_id release) && listens d (st_id release) (snd key) && negb reachable)
        (if Z.ltb (switch_timeout config) (since (st_value release))
         then NetworkFail (snd key +:+ " stopped accepting connections on " +:+ pb_name binding)
         else NetworkWait) ;?;
      Ok {| ee_endpoint := endpoint; ee_host_port := pb_host binding; ee_target_port := target;
            ee_listening := listening; ee_reachable := reachable |}
  end.

Fixpoint try_map {A B E} (f : A → Result B E) (l : list A) : Result (list B) E :=
  match l with
  | [] => Ok []
  | x :: l => let? y := f x in let? ys := try_map f l in Ok (y :: ys)
  end.

Definition verify_workload (d : Desired) (release : Stored DeploymentRecord) (evidence : DeploymentWorkload)
    : Result (list EndpointEvidence) NetworkStop :=
  let record := st_value release in
  let key : Key := (dep_environment record, dep_project record, dw_name evidence) in
  match instance d key (st_id release) with
  | None => Ok []
  | Some i => try_map (verify_endpoint d release key i) (resolved_endpoints d key evidence)
  end.

Definition domain_evidence (s : Stored DomainRecord) : DomainEvidence :=
  let domain := st_value s in
  {| de_domain := dom_name domain;
     de_endpoint := endpoint_of (dom_environment domain) (dom_project domain) (dom_workload domain) (dom_port domain);
     de_dns := dom_dns_status domain; de_tls := dom_tls_status domain; de_routing := dom_routing_status domain |}.

(** [verify_network] *)
Definition verify_network (later d : Desired) (release : Stored DeploymentRecord)
    : Result (option Change) EnvironmentError :=
  let record := st_value release in
  match try_map (verify_workload d release) (dep_workloads record) with
  | Err (NetworkFail reason) => let? c := fail later release "network" reason in Ok (Some c)
  | Err NetworkWait => Ok None
  | Ok endpoints =>
      let found :=
        domain_evidence ∘ snd <$>
          filter (λ e, (dom_environment (st_value (snd e)), dom_project (st_value (snd e))) = dep_place record)
            (Pool.by_id (domains d)) in
      let result :=
        {| nr_endpoints := concat endpoints; nr_domains := found;
           nr_degraded := existsb (λ e, String.eqb (de_dns e) "failed" || String.eqb (de_tls e) "failed") found;
           nr_verified_at := node_now node |} in
      Ok (Some (transition release DeploymentStatus.NetworkReady
        {| df_workloads := None; df_failure := None; df_readiness_result := None;
           df_network_result := Some result; df_traffic_switch_result := None; df_rollback_reason := None;
           df_receipt := None; df_completed_at := None |} change_new))
  end.

(** ** The switch *)

(** The membership that makes a deployment current. *)
Definition current_membership (d : Desired) (target : Stored DeploymentRecord) : Write :=
  let record := st_value target in
  let p := dep_place record in
  let membership := memberships d !! p in
  let value :=
    {| mem_environment_id := dep_environment_id record; mem_environment := dep_environment record;
       mem_project_id := dep_project_id record; mem_project := dep_project record;
       mem_desired_state := from_option (λ m, mem_desired_state (st_value m)) DesiredRunning membership;
       mem_config := run_config record membership; mem_revision_id := Some (dep_revision_id record);
       mem_deployment_id := Some (st_id target);
       mem_created_at := from_option (λ m, mem_created_at (st_value m)) (node_now node) membership;
       mem_updated_at := node_now node |} in
  WMembership p
    (match membership with
     | Some existing => OpReplace existing value
     | None => OpCreate ("ep_" +:+ short_digest [dep_environment_id record; dep_project_id record]) value
     end).

(** The ports a workload of the target keeps. *)
Definition routed_ports (d : Desired) (record : DeploymentRecord) (key : Key) : list PortBinding :=
  match List.find (λ e, String.eqb (dw_name e) (snd key)) (dep_workloads record) with
  | Some evidence => resolved_endpoints d key evidence
  | None => from_option (λ e, wl_ports (st_value e)) [] (workloads d !! key)
  end.

Definition workload_key (record : DeploymentRecord) (w : RevisionWorkload) : Key :=
  (dep_environment record, dep_project record, rw_name w).

Definition current_workload (d : Desired) (target : Stored DeploymentRecord) (w : RevisionWorkload) : Write :=
  let record := st_value target in
  let key := workload_key record w in
  let existing := workloads d !! key in
  let value :=
    {| wl_environment_id := dep_environment_id record; wl_environment := dep_environment record;
       wl_project_id := dep_project_id record; wl_project := dep_project record; wl_name := rw_name w;
       wl_kind := rw_kind w;
       wl_desired_state := from_option (λ e, wl_desired_state (st_value e)) (rw_desired_state w) existing;
       wl_restart := rw_restart w; wl_bundle_id := rw_bundle_id w;
       wl_workload_identity := rw_workload_identity w; wl_runtime := rw_runtime w;
       wl_ports := routed_ports d record key; wl_deployment_id := st_id target |} in
  WWorkload key
    (match existing with
     | Some existing => OpReplace existing value
     | None => OpCreate (workload_id_of (dep_environment_id record) (dep_project_id record) (rw_name w)) value
     end).

(** A workload taken away, with its observed status. *)
Definition delete_workload (e : Key * Stored WorkloadRecord) : list Write :=
  WWorkload (fst e) (OpDelete (snd e)) :: delete_status node (st_id (snd e)).

(** What becomes of an instance when a deployment takes over. *)
Definition next_instance_state (target_id : string) (i : WorkloadInstanceRecord) : InstanceState :=
  if String.eqb (inst_deployment_id i) target_id then InstanceState.Serving
  else match inst_state i with
       | InstanceState.Serving => InstanceState.Draining
       | InstanceState.Starting | InstanceState.Ready => InstanceState.Stopped
       | other => other
       end.

Definition turn_instance (target_id : string) (s : Stored WorkloadInstanceRecord) : option Write :=
  let next := next_instance_state target_id (st_value s) in
  if bool_decide (next = inst_state (st_value s)) then None
  else Some (update_instance (node_now node) s
         (if bool_decide (next = InstanceState.Stopped)
          then instance_stopped next None (node_now node) else instance_to next)).

(** The assignment of one endpoint to the target's instance; [None] where the
    instance has no such port. *)
Definition assign (d : Desired) (target : Stored DeploymentRecord) (key : Key)
    (instance : Stored WorkloadInstanceRecord) (binding : PortBinding) : option TrafficAssignmentRecord :=
  let endpoint := endpoint_of (fst (place_of key)) (snd (place_of key)) (snd key) (pb_name binding) in
  target_port ← port_of (st_value instance) (pb_name binding);
  let existing := traffic d !! endpoint in
  Some
    {| ta_endpoint := endpoint; ta_environment := fst (place_of key); ta_project := snd (place_of key);
       ta_workload := snd key; ta_port := pb_name binding; ta_host_port := pb_host binding;
       ta_domains :=
         (λ e, dom_name (st_value (snd e))) <$>
           filter (λ e, de_endpoint (domain_evidence (snd e)) = endpoint) (Pool.by_id (domains d));
       ta_deployment_id := st_id target; ta_revision := dep_revision (st_value target);
       ta_instance_id := st_id instance; ta_target_port := target_port; ta_status := "active";
       ta_previous_deployment_id := (λ e, ta_deployment_id (st_value e)) <$> existing;
       ta_previous_instance_id := (λ e, ta_instance_id (st_value e)) <$> existing;
       ta_switched_at := node_now node |}.

Definition moved_of (d : Desired) (a : TrafficAssignmentRecord) : Moved :=
  {| mv_endpoint := ta_endpoint a; mv_host_port := ta_host_port a;
     mv_from_instance := ta_previous_instance_id a;
     mv_from_revision := (λ e, ta_revision (st_value e)) <$> traffic d !! ta_endpoint a;
     mv_to_instance := ta_instance_id a; mv_to_port := ta_target_port a |}.

Definition put_assignment (d : Desired) (a : TrafficAssignmentRecord) : Write :=
  WTraffic (ta_endpoint a)
    (match traffic d !! ta_endpoint a with
     | Some existing => OpReplace existing a
     | None => OpCreate ("ta_" +:+ short_digest [ta_endpoint a]) a
     end).

(** The services of a revision with their endpoints, in the order of their keys. *)
Definition service_endpoints (d : Desired) (target : Stored DeploymentRecord) (revision : ProjectRevisionRecord)
    : list (Key * list PortBinding) :=
  let record := st_value target in
  sort_by (λ l r, compare_keys (fst l) (fst r))
    ((λ w, (workload_key record w, routed_ports d record (workload_key record w))) <$>
       filter (λ w, rw_kind w = KindService) (rev_workloads revision)).

Definition assignments (d : Desired) (target : Stored DeploymentRecord) (revision : ProjectRevisionRecord)
    : list TrafficAssignmentRecord :=
  concat ((λ e, match instance d (fst e) (st_id target) with
                | Some i => omap (assign d target (fst e) i) (snd e)
                | None => []
                end) <$> service_endpoints d target revision).

(** [route_to] *)
Definition route_to (change : Change) (d : Desired) (target : Stored DeploymentRecord)
    : Result (Change * list Moved) EnvironmentError :=
  let record := st_value target in
  let p := dep_place record in
  match revisions d !! dep_revision_id record with
  | None => Err (NotFound ("revision " +:+ dep_revision_id record))
  | Some revision =>
      let kept := workload_key record <$> rev_workloads revision in
      let assigned := assignments d target revision in
      let change := change_with (current_membership d target) change in
      let change := change_all (current_workload d target <$> rev_workloads revision) change in
      let change :=
        change_all (concat (delete_workload <$> filter (λ e, fst e ∉ kept) (workloads_of d p))) change in
      let change :=
        change_all (omap (turn_instance (st_id target)) (instances_where d (λ i, bool_decide (inst_place i = p))))
          change in
      let change := change_all (put_assignment d <$> assigned) change in
      let change :=
        change_all
          ((λ e, WTraffic (fst e) (OpDelete (snd e))) <$>
             filter (λ e, ta_place (st_value (snd e)) = p ∧ fst e ∉ (ta_endpoint <$> assigned)) (Pool.by_id (traffic d)))
          change in
      Ok (change, moved_of d <$> assigned)
  end.

(** [switch] *)
Definition switch (d : Desired) (release : Stored DeploymentRecord) : Result (option Change) EnvironmentError :=
  let record := st_value release in
  let? '(change, moved) := route_to change_new d release in
  let change :=
    transition release DeploymentStatus.Switching
      {| df_workloads := None; df_failure := None; df_readiness_result := None; df_network_result := None;
         df_traffic_switch_result :=
           Some {| sw_endpoints := Some moved; sw_switched_at := Some (node_now node); sw_verified := None;
                   sw_verified_at := None |};
         df_rollback_reason := None; df_receipt := None; df_completed_at := None |} change in
  let change :=
    event "deployment.switched" (release_scope release)
      (titled record +:+ " now receives traffic in " +:+ dep_environment record) change in
  let change :=
    event "deployment.activated" (release_scope release)
      (titled record +:+ " is now current in " +:+ dep_environment record) change in
  Ok (Some (match moved with
            | [] => change
            | _ => event "network.route.switched" (release_scope release)
                     (show (N.of_nat (length moved)) +:+ " endpoint(s) switched to " +:+ dep_revision record) change
            end)).

(** ** Rolling back *)

(** [roll_back]; [fetched] answers the reads by identity of what the working copy does
    not hold. *)
Definition roll_back (d : Desired) (fetched : Desired) (release : Stored DeploymentRecord) (reason : string)
    : Result Change EnvironmentError :=
  let record := st_value release in
  let p := dep_place record in
  let previous :=
    id ← dep_previous record;
    match deployments d !! id with Some previous => Some previous | None => deployments fetched !! id end in
  match previous with
  | None =>
      let change :=
        change_all
          ((λ e, WTraffic (fst e) (OpDelete (snd e))) <$>
             filter (λ e, ta_place (st_value (snd e)) = p) (Pool.by_id (traffic d))) change_new in
      let change := change_all (concat (delete_workload <$> workloads_of d p)) change in
      let change :=
        match memberships d !! p with
        | Some membership => change_with (WMembership p (OpDelete membership)) change
        | None => change
        end in
      fail_with change release d "switch" reason None
  | Some previous =>
      let d := with_deployments (<[st_id previous := previous]> (deployments d)) d in
      let revision_id := dep_revision_id (st_value previous) in
      let d :=
        match revisions d !! revision_id, revisions fetched !! revision_id with
        | None, Some revision => with_revisions (<[revision_id := revision]> (revisions d)) d
        | _, _ => d
        end in
      let? '(change, moved) := route_to change_new d previous in
      let? receipt :=
        deployment_receipt (st_id release) (finished DeploymentStatus.RolledBack None None (Some reason) record) in
      let change :=
        transition release DeploymentStatus.RolledBack
          {| df_workloads := None; df_failure := None; df_readiness_result := None; df_network_result := None;
             df_traffic_switch_result := None; df_rollback_reason := Some reason; df_receipt := Some receipt;
             df_completed_at := Some (node_now node) |} change in
      Ok (event "deployment.rolled_back" (release_scope release)
            (titled record +:+ " was rolled back to " +:+ dep_revision (st_value previous) +:+ " in "
             +:+ dep_environment record +:+ ": " +:+ reason) change)
  end.

(** ** Switching: verification through the data plane *)

(** What is wrong with one assignment, or what proves it. *)
Definition verify_assignment (d : Desired) (release : Stored DeploymentRecord) (a : TrafficAssignmentRecord)
    : Result (string * string) string :=
  let key : Key := (ta_environment a, ta_project a, ta_workload a) in
  reject_if
    (negb (bool_decide (node_routes node !! ta_host_port a =
       Some {| rt_instance_id := ta_instance_id a; rt_target_port := ta_target_port a |})))
    ("endpoint " +:+ ta_endpoint a +:+ " does not yet forward to " +:+ ta_instance_id a) ;?;
  if negb (workload_runs d key (st_id release)) then Ok (ta_endpoint a, "not running by desired state")
  else
    let readiness := revision_workload d (st_id release) (snd key) ≫= rw_readiness in
    let through_http :=
      match readiness with
      | Some r =>
          if bool_decide (rd_check r = CheckHttp) &&
             from_option (λ port, String.eqb port (ta_port a)) true (rd_port r)
          then Some r else None
      | None => None
      end in
    let? detail :=
      match through_http with
      | Some r =>
          let path := default "/" (rd_path r) in
          let failed answer :=
            Err ("GET " +:+ path +:+ " through endpoint " +:+ ta_endpoint a +:+ " answered " +:+ answer) in
          match node_http node (ta_host_port a) path with
          | Some status =>
              if N.leb 200 status && N.ltb status 400
              then Ok ("GET " +:+ path +:+ " through the endpoint answered " +:+ show status)
              else failed ("Some(" +:+ show status +:+ ")")
          | None => failed "None"
          end
      | None =>
          if negb (listens d (st_id release) (snd key))
          then Ok "the endpoint forwards to the instance; readiness does not check a port"
          else if node_accepts node (ta_target_port a)
          then Ok "the endpoint forwards to an instance that accepts connections"
          else Err ("the instance behind " +:+ ta_endpoint a +:+ " does not accept connections")
      end in
    Ok (ta_endpoint a, detail).

Definition assigned_to (d : Desired) (deployment_id : string) : list TrafficAssignmentRecord :=
  (λ e, st_value (snd e)) <$>
    filter (λ e, ta_deployment_id (st_value (snd e)) = deployment_id) (Pool.by_id (traffic d)).

(** [verify_switch] *)
Definition verify_switch (d fetched : Desired) (release : Stored DeploymentRecord)
    : Result (option Change) EnvironmentError :=
  let record := st_value release in
  match try_map (verify_assignment d release) (assigned_to d (st_id release)) with
  | Err problem =>
      if Z.ltb (switch_timeout config) (since record)
      then let? c := roll_back d fetched release problem in Ok (Some c)
      else Ok None
  | Ok verified =>
      let result := dep_traffic_switch_result record in
      Ok (Some (transition release DeploymentStatus.Active
        {| df_workloads := None; df_failure := None; df_readiness_result := None; df_network_result := None;
           df_traffic_switch_result :=
             Some {| sw_endpoints := result ≫= sw_endpoints; sw_switched_at := result ≫= sw_switched_at;
                     sw_verified := Some verified; sw_verified_at := Some (node_now node) |};
           df_rollback_reason := None; df_receipt := None; df_completed_at := None |} change_new))
  end.

(** ** Active, draining, complete *)

(** [begin_drain] *)
Definition begin_drain (release : Stored DeploymentRecord) : Result (option Change) EnvironmentError :=
  let record := st_value release in
  Ok (Some (event "deployment.draining" (release_scope release)
    (titled record +:+ " serves in " +:+ dep_environment record +:+ "; draining what it replaced")
    (transition release DeploymentStatus.Draining no_fields change_new))).

(** [complete] *)
Definition complete (d : Desired) (release : Stored DeploymentRecord) : Result (option Change) EnvironmentError :=
  let record := st_value release in
  let? receipt :=
    deployment_receipt (st_id release) (finished DeploymentStatus.Complete None None None record) in
  let change :=
    transition release DeploymentStatus.Complete
      {| df_workloads := None; df_failure := None; df_readiness_result := None; df_network_result := None;
         df_traffic_switch_result := None; df_rollback_reason := None; df_receipt := Some receipt;
         df_completed_at := Some (node_now node) |} change_new in
  let history :=
    instances_where d (λ i, bool_decide (inst_place i = dep_place record) &&
                            negb (String.eqb (inst_deployment_id i) (st_id release)) &&
                            stopped_or_failed (inst_state i)) in
  let change := change_all ((λ s, WInstance (st_id s) (OpDelete s)) <$> history) change in
  Ok (Some (event "deployment.completed" (release_scope release)
        (titled record +:+ " is released in " +:+ dep_environment record) change)).

(** [finish_drain] *)
Definition finish_drain (d : Desired) (release : Stored DeploymentRecord) : Result (option Change) EnvironmentError :=
  match instances_where d (λ i, bool_decide (inst_place i = dep_place (st_value release)) &&
                                bool_decide (inst_state i = InstanceState.Draining)) with
  | [] => complete d release
  | _ => Ok None
  end.

(** ** One step *)

(** [step]: what it decides of one release, and what was checked when.  [later] is the
    working copy by the time [fail] reads it. *)
Definition step (d later fetched : Desired) (release : Stored DeploymentRecord) (checked : gmap string Z)
    : Result (option Change) EnvironmentError * gmap string Z :=
  let record := st_value release in
  let failing stage reason := let? c := fail later release stage reason in Ok (Some c) in
  match environments d !! dep_environment record with
  | None => (failing "environment" "the environment was destroyed", checked)
  | Some environment =>
      match memberships d !! dep_place record with
      | None => (failing "project" "the project was removed from the environment", checked)
      | Some membership =>
          let current := bool_decide (mem_deployment_id (st_value membership) = Some (st_id release)) in
          let has_instances := match own_instances d release with [] => false | _ => true end in
          let before_serving :=
            match dep_status record with
            | DeploymentStatus.Pending | DeploymentStatus.Starting | DeploymentStatus.Ready => true
            | _ => false
            end in
          if current && negb has_instances && before_serving then (complete d release, checked)
          else
            match dep_status record with
            | DeploymentStatus.Pending => (admit_release later d release environment, checked)
            | DeploymentStatus.Starting => await_readiness d release checked
            | DeploymentStatus.Ready => (verify_network later d release, checked)
            | DeploymentStatus.NetworkReady => (switch d release, checked)
            | DeploymentStatus.Switching => (verify_switch d fetched release, checked)
            | DeploymentStatus.Active => (begin_drain release, checked)
            | DeploymentStatus.Draining => (finish_drain d release, checked)
            | _ => (Ok None, checked)
            end
      end
  end.

(** ** Instances outside releases *)

(** [drain_instances]: the change that stops what has drained. *)
Definition drained (d : Desired) : list (Stored WorkloadInstanceRecord) :=
  let verifying :=
    (λ s, dep_place (st_value s)) <$>
      filter (λ s, dep_status (st_value s) = DeploymentStatus.Switching) (in_flight d) in
  let draining :=
    instances_where d (λ i, bool_decide (inst_state i = InstanceState.Draining) &&
                            negb (bool_decide (inst_place i ∈ verifying))) in
  let routed (s : Stored WorkloadInstanceRecord) :=
    match inst_ports (st_value s) with
    | [] => false
    | _ => existsb (λ r, String.eqb (rt_instance_id (snd r)) (st_id s)) (map_to_list (node_routes node))
    end in
  let busy (s : Stored WorkloadInstanceRecord) :=
    N.ltb 0 (default usize_max (open_connections node (st_id s))) &&
    Z.ltb (elapsed (node_now node) (inst_updated_at (st_value s))) (drain_timeout config) in
  filter (λ s, negb (routed s) && negb (busy s) = true) draining.

Definition drained_message (s : Stored WorkloadInstanceRecord) : string :=
  let titled := inst_workload (st_value s) +:+ " " +:+ inst_revision (st_value s) in
  let open := default usize_max (open_connections node (st_id s)) in
  if N.eqb open 0 then titled +:+ " drained and stopped"
  else titled +:+ " stopped after the drain timeout with " +:+ show open +:+ " connection(s) open".

Definition drain_instances (d : Desired) : Change :=
  foldl (λ c s,
    event "instance.stopped"
      (with_deployment (inst_deployment_id (st_value s)) (scope_workload (instance_key (st_value s))))
      (drained_message s)
      (change_with (update_instance (node_now node) s
         (instance_stopped InstanceState.Stopped None (node_now node))) c)) change_new (drained d).

(** The ports of an adopted instance; [None] when none is free. *)
Fixpoint adopt_ports (bindings : list PortBinding) (used : gset N) : option (list PortBinding * gset N) :=
  match bindings with
  | [] => Some ([], used)
  | b :: bindings =>
      match free_port (instance_port_range config) used false with
      | Err _ => None
      | Ok port =>
          '(ports, used) ← adopt_ports bindings ({[port]} ∪ used);
          Some ({| pb_name := pb_name b; pb_logical := pb_logical b; pb_host := port |} :: ports, used)
      end
  end.

(** Whether a workload runs without an instance, as before releases. *)
Definition adoptable (d : Desired) (releasing : list Place) (e : Key * Stored WorkloadRecord) : bool :=
  let w := st_value (snd e) in
  bool_decide (wl_kind w = KindService) && negb (bool_decide (place_of (fst e) ∈ releasing)) &&
  negb (bool_decide (is_Some (instance d (fst e) (wl_deployment_id w)))) &&
  bool_decide (is_Some (deployments d !! wl_deployment_id w)).

Definition adopted_instance (key : Key) (s : Stored WorkloadRecord) (revision : string) (ports : list PortBinding)
    : WorkloadInstanceRecord :=
  let w := st_value s in
  {| inst_environment_id := wl_environment_id w; inst_environment := fst (place_of key);
     inst_project_id := wl_project_id w; inst_project := snd (place_of key); inst_workload := snd key;
     inst_workload_id := st_id s; inst_deployment_id := wl_deployment_id w; inst_revision := revision;
     inst_state := InstanceState.Serving; inst_ports := ports;
     inst_readiness := Some "adopted: running before zero-downtime releases";
     inst_started_at := Some (node_now node); inst_ready_at := Some (node_now node); inst_stopped_at := None;
     inst_error := None; inst_updated_at := node_now node |}.

Definition adopted_assignment (key : Key) (s : Stored WorkloadRecord) (revision id : string)
    (binding port : PortBinding) : TrafficAssignmentRecord :=
  {| ta_endpoint := endpoint_of (fst (place_of key)) (snd (place_of key)) (snd key) (pb_name binding);
     ta_environment := fst (place_of key); ta_project := snd (place_of key); ta_workload := snd key;
     ta_port := pb_name binding; ta_host_port := pb_host binding; ta_domains := [];
     ta_deployment_id := wl_deployment_id (st_value s); ta_revision := revision; ta_instance_id := id;
     ta_target_port := pb_host port; ta_status := "active"; ta_previous_deployment_id := None;
     ta_previous_instance_id := None; ta_switched_at := node_now node |}.

(** The writes that adopt one workload. *)
Definition adopt_workload (d : Desired) (e : Key * Stored WorkloadRecord) (ports : list PortBinding) : list Write :=
  let '(key, s) := e in
  let w := st_value s in
  let revision := from_option (λ r, dep_revision (st_value r)) "" (deployments d !! wl_deployment_id w) in
  let id := instance_id_of (st_id s) (wl_deployment_id w) in
  WInstance id (OpCreate id (adopted_instance key s revision ports)) ::
  (zip_with (λ b p, put_assignment d (adopted_assignment key s revision id b p)) (wl_ports w) ports).

Fixpoint adopt_workloads (d : Desired) (es : list (Key * Stored WorkloadRecord)) (used : gset N)
    : option (list Write) :=
  match es with
  | [] => Some []
  | e :: es =>
      '(ports, used) ← adopt_ports (wl_ports (st_value (snd e))) used;
      rest ← adopt_workloads d es used;
      Some (adopt_workload d e ports ++ rest)
  end.

(** [adopt_services]: nothing at all when a port is missing. *)
Definition adopt_services (d : Desired) : Change :=
  let releasing := (λ s, dep_place (st_value s)) <$> in_flight d in
  let used := list_to_set (concat ((λ i, pb_host <$> inst_ports (st_value (snd i))) <$> Pool.by_id (instances d))) in
  let adopted := filter (λ e, adoptable d releasing e = true) (entries compare_keys (workloads d)) in
  {| ch_writes := default [] (adopt_workloads d adopted used); ch_events := [] |}.

End steps.
