(* ===== verification/ReleaseSystem.v ===== *)
(** Releases as a system: what operators ask for
    (src/crates/compute-environment/src/daemon/deploy.rs, lifecycle.rs), the endpoints
    that follow traffic assignments (reconcile.rs), and the daemon's rounds
    ([advance_releases]) beside them, as a step relation.

    Operations and rounds hold one lock ([reconciling]): an operation finds no round
    under way.  Within a round the daemon decides on a working copy that its own
    commits have left behind, unless a reader has refreshed it meanwhile.  A commit may
    fail, with or without a trace; the daemon may stop anywhere.  The daemon is the
    only writer of these records. *)

From S2P Require Import Prelude Text Core Isolation Policy Admission Descriptor Matching Pool Placement State Auth Release ReleaseSteps.

(** ** Operators *)

Record DeployRequest : Type := {
  dq_project : string;
  dq_environment : string;
  dq_revision : option string;
  dq_config : option (gmap string string);
  dq_desired_state : option DesiredState;
  dq_placement : option PoolPlacement;
  dq_artifact : option ApplicationArtifactEvidence;
  dq_required_config : gset string;
}.

Record PromoteRequest : Type := {
  pq_project : string;
  pq_from : string;
  pq_to : string;
  pq_allow_unhealthy : bool;
  pq_config : option (gmap string string);
}.

Definition NUL : string := String Ascii.zero EmptyString.

(** [validate_env] *)
Definition validate_env (scope : string) (env : gmap string string) : Result unit EnvironmentError :=
  try_for_each (λ e,
    let '(key, value) := e in
    reject_if (is_empty key || contains "=" key || contains NUL key || contains NUL value ||
               starts_with "COMPUTE_" key || String.eqb key "PORT")
      (Invalid (scope +:+ " configuration key " +:+ debug_str key +:+ " is invalid or reserved by Compute")))
    (Pool.by_id env).

(** [Desired::environment] *)
Definition environment (d : Desired) (name_or_id : string) : option (Stored EnvironmentRecord) :=
  match environments d !! name_or_id with
  | Some e => Some e
  | None => List.find (λ e, String.eqb (st_id e) name_or_id) (map snd (Pool.by_id (environments d)))
  end.

Definition find_environment (d : Desired) (name : string) : Result (Stored EnvironmentRecord) EnvironmentError :=
  match environment d name with
  | Some e => Ok e
  | None => Err (NotFound ("environment " +:+ name))
  end.

Definition missing (c : Collection) (id : string) : EnvironmentError := NotFound (Collection.name c +:+ " " +:+ id).

Section operators.
Context `{!Sha256Hex}.
Context (config : Config) (node : Node).
(** the digest of the environment's and the project's configuration *)
Context (config_digest : gmap string string → gmap string string → string).

(** The newest first; of the same instant, in the order of their identities. *)
Definition newest_first {A} (created : A → Z) (m : list (string * A)) : list (string * A) :=
  sort_by (λ l r, Z.compare (created (snd r)) (created (snd l))) m.

(** [resolve_revision], in control state *)
Definition resolve_revision (c : Desired) (project_id project : string) (selector : option string)
    : Result (string * ProjectRevisionRecord) EnvironmentError :=
  match selector with
  | Some id =>
      if starts_with "rev_" id then
        match revisions c !! id with
        | None => Err (missing Collection.ProjectRevision id)
        | Some revision =>
            if String.eqb (rev_project_id revision) project_id then Ok (id, revision)
            else Err (Invalid (id +:+ " is a revision of " +:+ rev_project revision +:+ ", not " +:+ project))
        end
      else
        match newest_first rev_created_at
                (filter (λ e, rev_project_id (snd e) = project_id ∧ rev_revision (snd e) = id)
                   (Pool.by_id (revisions c))) with
        | found :: _ => Ok found
        | [] => Err (NotFound ("revision " +:+ id +:+ " of " +:+ project))
        end
  | None =>
      match newest_first rev_created_at
              (filter (λ e, rev_project_id (snd e) = project_id) (Pool.by_id (revisions c))) with
      | found :: _ => Ok found
      | [] => Err (NotFound ("any revision of " +:+ project +:+ "; register one first"))
      end
  end.

(** The version of a project's next deployment. *)
Definition next_version_of (c : Desired) (project_id : string) : N :=
  match newest_first (λ s, dep_created_at (st_value s))
          (filter (λ e, dep_project_id (st_value (snd e)) = project_id) (Pool.by_id (deployments c))) with
  | (_, latest) :: _ => N.max (saturating_add (dep_version (st_value latest)) 1) 1
  | [] => 1
  end.

(** The evidence a deployment starts with. *)
Definition initial_workloads (request : DeployRequest) (revision : ProjectRevisionRecord) : list DeploymentWorkload :=
  match dq_placement request, dq_artifact request with
  | None, None => []
  | placement, artifact =>
      (λ w, {| dw_name := rw_name w; dw_kind := rw_kind w; dw_bundle_id := rw_bundle_id w;
               dw_artifact := rw_artifact w; dw_runtime := rw_runtime w;
               dw_runtime_version := rw_runtime_version w; dw_resolved_runtime_version := None;
               dw_distribution := rw_distribution w; dw_admitted := false; dw_policy_id := None;
               dw_admission_id := None; dw_placement_id := None; dw_provider := None; dw_reasons := [];
               dw_endpoints := []; dw_pool_placement := placement; dw_application_artifact := artifact |})
        <$> rev_workloads revision
  end.

Definition set_desired_state (state : DesiredState) (now : Z) (m : EnvironmentProjectRecord)
    : EnvironmentProjectRecord :=
  {| mem_environment_id := mem_environment_id m; mem_environment := mem_environment m;
     mem_project_id := mem_project_id m; mem_project := mem_project m; mem_desired_state := state;
     mem_config := mem_config m; mem_revision_id := mem_revision_id m;
     mem_deployment_id := mem_deployment_id m; mem_created_at := mem_created_at m; mem_updated_at := now |}.

(** [deploy_with], up to its commit: [d] is the working copy just refreshed, [c] what
    control state holds. *)
Definition deploy_with (d c : Desired) (request : DeployRequest) (promoted_from : option string)
    : Result (string * Change) EnvironmentError :=
  let? _ := match dq_config request with Some env => validate_env "project" env | None => Ok tt end in
  let? environment := find_environment d (dq_environment request) in
  let env := st_value environment in
  let project := dq_project request in
  reject_if (env_has_computer env)
    (Invalid ("environment " +:+ env_name env +:+ " runs on its own computer, so a bundle is never deployed to this node for it: release a revision of one of its projects instead (`compute deploy "
      +:+ project +:+ " --environment " +:+ env_name env +:+ " --revision REVISION`, or POST /environments/"
      +:+ env_name env +:+ "/release)")) ;?;
  let p : Place := (env_name env, project) in
  let project_id := project_id_of project in
  let? '(revision_id, revision) := resolve_revision c project_id project (dq_revision request) in
  let? _ :=
    match List.find (λ r, bool_decide (dep_place (st_value r) = p)) (in_flight d) with
    | Some r =>
        Err (Conflict (project +:+ " is already being released to " +:+ env_name env +:+ " (" +:+ st_id r
          +:+ ", " +:+ DeploymentStatus.as_str (dep_status (st_value r)) +:+ "); wait for it or roll it back"))
    | None => Ok tt
    end in
  let membership := memberships d !! p in
  let settings :=
    match dq_config request with
    | Some settings => settings
    | None => from_option (λ m, mem_config (st_value m)) ∅ membership
    end in
  let lacking :=
    filter (λ name, settings !! name = None ∧ env_config env !! name = None)
      (btree_set (elements (dq_required_config request))) in
  reject_if (negb (bool_decide (lacking = [])))
    (Invalid (project +:+ " requires configuration it was not given: " +:+ join ", " lacking)) ;?;
  let previous := membership ≫= λ m, mem_deployment_id (st_value m) in
  let old_revision := previous ≫= λ id, (λ r, dep_revision (st_value r)) <$> deployments d !! id in
  let now := node_now node in
  let version := next_version_of c project_id in
  let deployment_id := "dep_" +:+ short_digest [project_id; show version] in
  let record :=
    {| dep_environment_id := st_id environment; dep_environment := env_name env; dep_project_id := project_id;
       dep_project := project; dep_version := version; dep_revision_id := revision_id;
       dep_revision := rev_revision revision; dep_revision_digest := rev_revision_digest revision;
       dep_status := DeploymentStatus.Pending; dep_promoted_from := promoted_from; dep_previous := previous;
       dep_workloads := initial_workloads request revision; dep_failure := None; dep_receipt_ids := [];
       dep_old_revision := old_revision; dep_config_digest := Some (config_digest (env_config env) settings);
       dep_config := settings; dep_readiness_result := None; dep_network_result := None;
       dep_traffic_switch_result := None; dep_rollback_reason := None; dep_receipt := None;
       dep_status_since := Some now; dep_completed_at := None; dep_created_at := now; dep_updated_at := now |} in
  let scope := with_deployment deployment_id (scope_project p) in
  let change := change_with (WDeployment deployment_id (OpCreate deployment_id record)) change_new in
  let change :=
    match membership with
    | Some existing =>
        match dq_desired_state request with
        | Some state =>
            if bool_decide (state = mem_desired_state (st_value existing)) then change
            else change_with (WMembership p (OpUpdate existing (set_desired_state state now))) change
        | None => change
        end
    | None =>
        event "project.added" scope (project +:+ " added to " +:+ env_name env)
          (change_with (WMembership p (OpCreate ("ep_" +:+ short_digest [st_id environment; project_id])
             {| mem_environment_id := st_id environment; mem_environment := env_name env;
                mem_project_id := project_id; mem_project := project;
                mem_desired_state := default DesiredRunning (dq_desired_state request); mem_config := settings;
                mem_revision_id := None; mem_deployment_id := None; mem_created_at := now;
                mem_updated_at := now |})) change)
    end in
  Ok (deployment_id,
      event "deployment.started" scope
        ("Releasing " +:+ project +:+ " " +:+ rev_revision revision +:+ " to " +:+ env_name env) change).

(** [rollback]: a change, or the deployment of what a completed release replaced. *)
Definition rollback (d c : Desired) (deployment_id : string)
    : Result (Change + DeployRequest) EnvironmentError :=
  match deployments c !! deployment_id with
  | None => Err (missing Collection.Deployment deployment_id)
  | Some release =>
      let record := st_value release in
      match dep_status record with
      | DeploymentStatus.Pending | DeploymentStatus.Starting | DeploymentStatus.Ready
      | DeploymentStatus.NetworkReady =>
          let? change := fail config node d release "rollback" "rolled back by an operator before traffic moved" in
          Ok (inl change)
      | DeploymentStatus.Switching | DeploymentStatus.Active | DeploymentStatus.Draining =>
          let? change := roll_back config node d c release "rolled back by an operator" in Ok (inl change)
      | DeploymentStatus.Complete =>
          let current := memberships d !! dep_place record ≫= λ m, mem_deployment_id (st_value m) in
          reject_if (negb (bool_decide (current = Some deployment_id)))
            (Conflict (deployment_id +:+ " is not the current deployment of " +:+ dep_project record +:+ " in "
                       +:+ dep_environment record)) ;?;
          match dep_previous record with
          | None => Err (Conflict (deployment_id +:+ " replaced nothing; there is nothing to roll back to"))
          | Some id =>
              match deployments c !! id with
              | None => Err (missing Collection.Deployment id)
              | Some previous =>
                  Ok (inr
                    {| dq_project := dep_project record; dq_environment := dep_environment record;
                       dq_revision := Some (dep_revision_id (st_value previous));
                       dq_config := Some (run_config (st_value previous) None); dq_desired_state := None;
                       dq_placement := None;
                       dq_artifact := head (omap dw_application_artifact (dep_workloads (st_value previous)));
                       dq_required_config := ∅ |})
              end
          end
      | DeploymentStatus.Failed | DeploymentStatus.RolledBack =>
          Err (Conflict (deployment_id +:+ " is " +:+ DeploymentStatus.as_str (dep_status record)
                         +:+ "; there is nothing to roll back"))
      end
  end.

(** [membership], of the working copy just refreshed *)
Definition membership (d : Desired) (environment_name project : string)
    : Result (Place * Stored EnvironmentProjectRecord) EnvironmentError :=
  let? e := find_environment d environment_name in
  let p : Place := (env_name (st_value e), project) in
  match memberships d !! p with
  | Some m => Ok (p, m)
  | None => Err (NotFound ("project " +:+ project +:+ " in " +:+ fst p))
  end.

(** [promote], up to the deployment it asks for *)
Definition promote (d c : Desired) (request : PromoteRequest) : Result (DeployRequest * string) EnvironmentError :=
  let? '(p, m) := membership d (pq_from request) (pq_project request) in
  match mem_deployment_id (st_value m) with
  | None => Err (Conflict (pq_project request +:+ " has no current deployment in " +:+ pq_from request))
  | Some source_id =>
      match deployments c !! source_id with
      | None => Err (missing Collection.Deployment source_id)
      | Some source =>
          let released :=
            match dep_status (st_value source) with
            | DeploymentStatus.Active | DeploymentStatus.Draining | DeploymentStatus.Complete => true
            | _ => false
            end in
          reject_if (negb released && negb (pq_allow_unhealthy request))
            (Conflict (pq_project request +:+ " " +:+ dep_revision (st_value source) +:+ " is "
               +:+ DeploymentStatus.as_str (dep_status (st_value source)) +:+ " in " +:+ pq_from request
               +:+ ", not released; promote a validated revision")) ;?;
          Ok ({| dq_project := pq_project request; dq_environment := pq_to request;
                 dq_revision := Some (dep_revision_id (st_value source)); dq_config := pq_config request;
                 dq_desired_state := None; dq_placement := None; dq_artifact := None;
                 dq_required_config := ∅ |}, source_id)
      end
  end.

Definition verb (state : DesiredState) (restart : bool) : string :=
  if restart then "restarted"
  else match state with DesiredRunning => "started" | DesiredStopped => "stopped" end.

(** The suffix of the kind of an event. *)
Definition state_kind (subject : string) (state : DesiredState) (restart : bool) : string :=
  subject +:+ "." +:+ verb state restart.

(** [create_environment], of a definition that passed its checks *)
Definition create_environment (d : Desired) (id : string) (e : EnvironmentRecord) : Result Change EnvironmentError :=
  reject_if (bool_decide (is_Some (environments d !! env_name e)))
    (Conflict ("environment " +:+ env_name e +:+ " already exists")) ;?;
  Ok (event "environment.created" (scope_environment (env_name e)) ("Environment " +:+ env_name e +:+ " created")
        (change_with (WEnvironment (env_name e) (OpCreate id e)) change_new)).

Definition set_env_state (state : DesiredState) (e : EnvironmentRecord) : EnvironmentRecord :=
  {| env_name := env_name e; env_desired_state := state; env_config := env_config e; env_policy := env_policy e;
     env_provider := env_provider e; env_has_computer := env_has_computer e; env_created_at := env_created_at e |}.

(** [set_environment_state] *)
Definition set_environment_state (d : Desired) (name : string) (state : DesiredState) (restart : bool)
    : Result Change EnvironmentError :=
  let? e := find_environment d name in
  let env_name := env_name (st_value e) in
  Ok (event (state_kind "environment" state restart) (scope_environment env_name)
        ("Environment " +:+ env_name +:+ " " +:+ verb state restart)
        (change_with (WEnvironment env_name (OpUpdate e (set_env_state state))) change_new)).

(** [set_project_state] *)
Definition set_project_state (d : Desired) (environment_name project : string) (state : DesiredState)
    (restart : bool) : Result Change EnvironmentError :=
  let? '(p, m) := membership d environment_name project in
  let scope := scope_project p in
  let scope := match mem_deployment_id (st_value m) with Some id => with_deployment id scope | None => scope end in
  Ok (event (state_kind "project" state restart) scope (project +:+ " in " +:+ fst p +:+ " " +:+ verb state restart)
        (change_with (WMembership p (OpUpdate m (set_desired_state state (node_now node)))) change_new)).

Definition set_workload_desired (state : DesiredState) (w : WorkloadRecord) : WorkloadRecord :=
  {| wl_environment_id := wl_environment_id w; wl_environment := wl_environment w;
     wl_project_id := wl_project_id w; wl_project := wl_project w; wl_name := wl_name w; wl_kind := wl_kind w;
     wl_desired_state := state; wl_restart := wl_restart w; wl_bundle_id := wl_bundle_id w;
     wl_workload_identity := wl_workload_identity w; wl_runtime := wl_runtime w; wl_ports := wl_ports w;
     wl_deployment_id := wl_deployment_id w |}.

(** [set_workload_state] *)
Definition set_workload_state (d : Desired) (environment_name project workload : string) (state : DesiredState)
    (restart : bool) : Result Change EnvironmentError :=
  let? e := find_environment d environment_name in
  let key : Key := (env_name (st_value e), project, workload) in
  match workloads d !! key with
  | None => Err (NotFound ("workload " +:+ workload +:+ " in " +:+ env_name (st_value e) +:+ "/" +:+ project))
  | Some record =>
      reject_if (bool_decide (wl_kind (st_value record) = KindTask))
        (Invalid (workload +:+ " is a task; run it instead of starting or stopping it")) ;?;
      Ok (event (state_kind "workload" state false)
            (with_deployment (wl_deployment_id (st_value record)) (scope_workload key))
            (workload +:+ " " +:+ verb state restart +:+ " in " +:+ fst (place_of key) +:+ "/" +:+ project)
            (change_with (WWorkload key (OpUpdate record (set_workload_desired state))) change_new))
  end.

Definition routes_to (d : Desired) (f : DomainRecord → bool) : option string :=
  (λ s, dom_name (st_value s)) <$> List.find (λ s, f (st_value s)) (map snd (Pool.by_id (domains d))).

(** The instances and assignments taken away with what they belong to. *)
Definition delete_instances (l : list (Stored WorkloadInstanceRecord)) : list Write :=
  (λ s, WInstance (st_id s) (OpDelete s)) <$> l.
Definition delete_assignments (l : list (string * Stored TrafficAssignmentRecord)) : list Write :=
  (λ e, WTraffic (fst e) (OpDelete (snd e))) <$> l.

(** [remove_project] *)
Definition remove_project (d : Desired) (environment_name project : string) : Result Change EnvironmentError :=
  let? '(p, m) := membership d environment_name project in
  let? _ :=
    match routes_to d (λ domain, bool_decide ((dom_environment domain, dom_project domain) = p)) with
    | Some name => Err (Conflict ("domain " +:+ name +:+ " routes to " +:+ project +:+ " in " +:+ fst p
                                  +:+ "; remove it first"))
    | None => Ok tt
    end in
  let change := change_with (WMembership p (OpDelete m)) change_new in
  let change := change_all (concat (delete_workload node <$> workloads_of d p)) change in
  let change := change_all (delete_instances (instances_where d (λ i, bool_decide (inst_place i = p)))) change in
  let change :=
    change_all (delete_assignments (filter (λ e, ta_place (st_value (snd e)) = p) (Pool.by_id (traffic d)))) change in
  Ok (event "project.removed" (scope_project p) (project +:+ " removed from " +:+ fst p) change).

(** [destroy_environment] *)
Definition destroy_environment (d : Desired) (name : string) : Result Change EnvironmentError :=
  let? e := find_environment d name in
  let env := env_name (st_value e) in
  let? _ :=
    match routes_to d (λ domain, String.eqb (dom_environment domain) env) with
    | Some domain => Err (Conflict ("domain " +:+ domain +:+ " routes to " +:+ env +:+ "; remove it first"))
    | None => Ok tt
    end in
  let change := change_with (WEnvironment env (OpDelete e)) change_new in
  let change :=
    change_all ((λ m, WMembership (fst m) (OpDelete (snd m))) <$>
      filter (λ m, fst (fst m) = env) (entries compare_places (memberships d))) change in
  let change :=
    change_all (concat (delete_workload node <$>
      filter (λ w, fst (place_of (fst w)) = env) (entries compare_keys (workloads d)))) change in
  let change :=
    change_all (delete_instances (instances_where d (λ i, String.eqb (inst_environment i) env))) change in
  let change :=
    change_all (delete_assignments (filter (λ t, ta_environment (st_value (snd t)) = env) (Pool.by_id (traffic d))))
      change in
  Ok (event "environment.destroyed" (scope_environment env) ("Environment " +:+ env +:+ " destroyed") change).

End operators.

(** ** Endpoints *)

(** [sync_endpoints]: the routes and the errors once every assignment has been
    followed; [assigns] is whether the data plane takes a route, [retains] whether it
    lets go of the others. *)
Definition sync_endpoints (d : Desired) (assigns : N → Route → option string) (retains : bool)
    (current : gmap N Route) : gmap N Route * gmap N string :=
  let wanted := (λ e, st_value (snd e)) <$> Pool.by_id (traffic d) in
  let follow '(routes, errors) (a : TrafficAssignmentRecord) :=
    let route := {| rt_instance_id := ta_instance_id a; rt_target_port := ta_target_port a |} in
    if bool_decide (current !! ta_host_port a = Some route) then (routes, errors)
    else match assigns (ta_host_port a) route with
         | None => (<[ta_host_port a := route]> routes, errors)
         | Some error =>
             (routes, <[ta_host_port a := "endpoint " +:+ ta_endpoint a +:+ " cannot listen on port "
                                          +:+ show (ta_host_port a) +:+ ": " +:+ error]> errors)
         end in
  let '(routes, errors) := foldl follow (current, ∅) wanted in
  let keep := list_to_set (ta_host_port <$> wanted) : gset N in
  let stale := existsb (λ e, negb (bool_decide (fst e ∈ keep))) (map_to_list current) in
  (if stale && retains then filter (λ e, fst e ∈ keep) routes else routes, errors).

(** ** The system *)

Record System : Type := {
  control : Control;
  desired : Desired;
  (** the releases of the round under way that were not advanced yet *)
  queue : list (Stored DeploymentRecord);
  checked : gmap string Z;
  routes : gmap N Route;
  errors : gmap N string;
}.

Inductive Operation : Type :=
| Deploy (request : DeployRequest) (promoted_from : option string)
| Rollback (deployment_id : string)
| CreateEnvironment (id : string) (e : EnvironmentRecord)
| DestroyEnvironment (name : string)
| SetEnvironmentState (name : string) (state : DesiredState) (restart : bool)
| RemoveProject (environment project : string)
| SetProjectState (environment project : string) (state : DesiredState) (restart : bool)
| SetWorkloadState (environment project workload : string) (state : DesiredState) (restart : bool).

Section system.
Context `{!Sha256Hex}.
Context (config : Config).
Context (config_digest : gmap string string → gmap string string → string).

(** The change an operation commits; [d] is the working copy just refreshed.  Rolling
    back a completed release deploys. *)
Definition operate (node : Node) (d c : Desired) (op : Operation) : Result Change EnvironmentError :=
  match op with
  | Deploy request promoted_from => let? r := deploy_with node config_digest d c request promoted_from in Ok (snd r)
  | Rollback id =>
      let? r := rollback config node d c id in
      match r with
      | inl change => Ok change
      | inr request => let? r := deploy_with node config_digest d c request None in Ok (snd r)
      end
  | CreateEnvironment id e => create_environment d id e
  | DestroyEnvironment name => destroy_environment node d name
  | SetEnvironmentState name state restart => set_environment_state d name state restart
  | RemoveProject environment project => remove_project node d environment project
  | SetProjectState environment project state restart => set_project_state node d environment project state restart
  | SetWorkloadState environment project workload state restart =>
      set_workload_state d environment project workload state restart
  end.

(** A commit that was tried. *)
Inductive attempt (change : Change) (c : Control) : Control → Prop :=
| attempt_made c' : commit change c = Ok c' → attempt change c c'
| attempt_failed : attempt change c c.

(** What the node shows that the daemon and control state hold. *)
Definition sees (node : Node) (c : Control) (routes : gmap N Route) (errors : gmap N string) : Prop :=
  node_routes node = routes ∧ endpoint_errors node = errors ∧ status_versions node = statuses c.

Inductive sys_step : System → System → Prop :=
(** the start of a round: what is desired is read, endpoints follow it, services are
    adopted, instances drained *)
| step_round s node assigns retains routes' errors' c1 c2 :
    let d := working_copy (control s) in
    sync_endpoints d assigns retains (routes s) = (routes', errors') →
    node_routes node = routes' → endpoint_errors node = errors' →
    attempt (adopt_services config node d) (control s) c1 →
    attempt (drain_instances config node d) c1 c2 →
    sys_step s {| control := c2; desired := d; queue := in_flight d; checked := checked s;
                  routes := routes'; errors := errors' |}
(** one release of the round *)
| step_release s node release rest later result checked' c' :
    queue s = release :: rest →
    sees node (control s) (routes s) (errors s) →
    later = desired s ∨ later = working_copy (control s) →
    step config node (desired s) later (records (control s)) release (checked s) = (result, checked') →
    match result with
    | Ok (Some change) => attempt change (control s) c'
    | _ => c' = control s
    end →
    sys_step s {| control := c'; desired := desired s; queue := rest; checked := checked';
                  routes := routes s; errors := errors s |}
(** a reader refreshes the working copy *)
| step_refresh s :
    sys_step s {| control := control s; desired := working_copy (control s); queue := queue s;
                  checked := checked s; routes := routes s; errors := errors s |}
(** the round is given up, or over *)
| step_end s :
    sys_step s {| control := control s; desired := desired s; queue := []; checked := checked s;
                  routes := routes s; errors := errors s |}
(** an operation, between rounds *)
| step_operate s node op change c' :
    queue s = [] →
    sees node (control s) (routes s) (errors s) →
    operate node (working_copy (control s)) (records (control s)) op = Ok change →
    attempt change (control s) c' →
    sys_step s {| control := c'; desired := working_copy (control s); queue := []; checked := checked s;
                  routes := routes s; errors := errors s |}
(** a revision is registered *)
| step_register s id revision :
    revisions (records (control s)) !! id = None →
    sys_step s {| control := with_records
                    (with_revisions (<[id := revision]> (revisions (records (control s)))) (records (control s)))
                    (control s);
                  desired := desired s; queue := queue s; checked := checked s; routes := routes s;
                  errors := errors s |}
(** domains come, go and change; the statuses of workloads are written *)
| step_observe s domains' statuses' :
    sys_step s {| control := with_statuses statuses'
                    (with_records (with_domains domains' (records (control s))) (control s));
                  desired := desired s; queue := queue s; checked := checked s; routes := routes s;
                  errors := errors s |}
(** the daemon starts again: the data plane kept some of its routes *)
| step_restart s routes' :
    routes' ⊆ routes s →
    sys_step s {| control := control s; desired := working_copy (control s); queue := []; checked := ∅;
                  routes := routes'; errors := ∅ |}.

(** The versions of every record are ones that were given. *)
Record versions_within (n : N) (d : Desired) : Prop := {
  within_environments k s : environments d !! k = Some s → (st_version s <= n)%N;
  within_memberships k s : memberships d !! k = Some s → (st_version s <= n)%N;
  within_workloads k s : workloads d !! k = Some s → (st_version s <= n)%N;
  within_deployments k s : deployments d !! k = Some s → (st_version s <= n)%N;
  within_instances k s : instances d !! k = Some s → (st_version s <= n)%N;
  within_traffic k s : traffic d !! k = Some s → (st_version s <= n)%N;
}.

(** Control state as it was before releases: workloads and memberships, of deployments
    that are recorded, without instances or traffic assignments. *)
Record before_releases (c : Control) : Prop := {
  no_instances : instances (records c) = ∅;
  no_traffic : traffic (records c) = ∅;
  members_placed p m id :
    memberships (records c) !! p = Some m → mem_deployment_id (st_value m) = Some id →
    ∃ r, deployments (records c) !! id = Some r ∧ dep_place (st_value r) = p;
  workloads_current k w :
    workloads (records c) !! k = Some w →
    ∃ m, memberships (records c) !! place_of k = Some m ∧
         mem_deployment_id (st_value m) = Some (wl_deployment_id (st_value w));
  one_each id id' r r' :
    deployments (records c) !! id = Some r → deployments (records c) !! id' = Some r' →
    DeploymentStatus.is_terminal (dep_status (st_value r)) = false →
    DeploymentStatus.is_terminal (dep_status (st_value r')) = false →
    dep_place (st_value r) = dep_place (st_value r') → id = id';
  previous_placed id r id' :
    deployments (records c) !! id = Some r → dep_previous (st_value r) = Some id' →
    ∃ r', deployments (records c) !! id' = Some r' ∧ dep_place (st_value r') = dep_place (st_value r);
  identified id r : deployments (records c) !! id = Some r → st_id r = id;
  versioned : versions_within (next_version c) (records c);
}.

Inductive reachable (s0 : System) : System → Prop :=
| reachable_here : reachable s0 s0
| reachable_step s s' : reachable s0 s → sys_step s s' → reachable s0 s'.

(** A daemon that starts on such a state. *)
Definition initial (s : System) : Prop :=
  before_releases (control s) ∧ desired s = working_copy (control s) ∧ queue s = [] ∧ routes s = ∅.

Definition reached (s : System) : Prop := ∃ s0, initial s0 ∧ reachable s0 s.

End system.
