(* ===== verification/ReleaseFacts.v ===== *)
(** What a change does to the records of control state: each kind of record is a
    table, an interface ([Table]) through which the effect of a batch of fenced writes
    is stated and proved once; and what the working copy holds. *)

From S2P Require Import Prelude Text Core Isolation Policy Admission Descriptor Matching Pool Placement State Auth Release ReleaseSteps ReleaseSystem.

(** ** Tables *)

(** A write fenced on a version given before. *)
Definition fenced {A} (n : N) (op : Op A) : Prop :=
  match op with
  | OpCreate _ _ => True
  | OpReplace s _ | OpUpdate s _ | OpDelete s => (st_version s <= n)%N
  end.

Definition fenced_write (n : N) (w : Write) : Prop :=
  match w with
  | WEnvironment _ op => fenced n op
  | WMembership _ op => fenced n op
  | WWorkload _ op => fenced n op
  | WDeployment _ op => fenced n op
  | WInstance _ op => fenced n op
  | WTraffic _ op => fenced n op
  | WStatus _ _ => True
  end.

Class Table (K A : Type) `{Countable K} := {
  tget : Desired → gmap K (Stored A);
  tsel : Write → option (K * Op A);
  table_write w c c' :
    apply_record_write w c = Ok c' →
    match tsel w with
    | Some (k, op) =>
        ∃ col x, apply_op col op (tget (records c) !! k) (next_version c + 1)%N = Ok x ∧
                 tget (records c') = put k x (tget (records c))
    | None => tget (records c') = tget (records c)
    end;
  table_fenced n w k op : tsel w = Some (k, op) → fenced_write n w → fenced n op;
  table_within n d k s : versions_within n d → tget d !! k = Some s → (st_version s <= n)%N;
}.

Ltac table_law :=
  match goal with
  | |- ∀ w c c', _ =>
      intros w c c' Hw; destruct w; simpl in *; apply and_then_ok in Hw as (x & Hx & [= <-]); simpl; by eauto
  | |- ∀ n w k op, _ => intros n []; naive_solver
  | |- ∀ n d k s, _ => intros n d k s []; by eauto
  end.

#[export, refine] Instance environment_table : Table string EnvironmentRecord :=
  {| tget := environments; tsel := λ w, match w with WEnvironment k op => Some (k, op) | _ => None end |}.
Proof. all: table_law. Defined.
#[export, refine] Instance membership_table : Table Place EnvironmentProjectRecord :=
  {| tget := memberships; tsel := λ w, match w with WMembership k op => Some (k, op) | _ => None end |}.
Proof. all: table_law. Defined.
#[export, refine] Instance workload_table : Table Key WorkloadRecord :=
  {| tget := workloads; tsel := λ w, match w with WWorkload k op => Some (k, op) | _ => None end |}.
Proof. all: table_law. Defined.
#[export, refine] Instance deployment_table : Table string DeploymentRecord :=
  {| tget := deployments; tsel := λ w, match w with WDeployment k op => Some (k, op) | _ => None end |}.
Proof. all: table_law. Defined.
#[export, refine] Instance instance_table : Table string WorkloadInstanceRecord :=
  {| tget := instances; tsel := λ w, match w with WInstance k op => Some (k, op) | _ => None end |}.
Proof. all: table_law. Defined.
#[export, refine] Instance traffic_table : Table string TrafficAssignmentRecord :=
  {| tget := traffic; tsel := λ w, match w with WTraffic k op => Some (k, op) | _ => None end |}.
Proof. all: table_law. Defined.

(** ** One record through a batch *)

(** What a committed write does to its record, [n] being the versions given before. *)
Inductive op_step {A} (n : N) : Op A → option (Stored A) → option (Stored A) → Prop :=
| op_created id value v :
    (n < v)%N → op_step n (OpCreate id value) None (Some {| st_id := id; st_version := v; st_value := value |})
| op_replaced s r value v :
    (n < v)%N → st_version r = st_version s →
    op_step n (OpReplace s value) (Some r) (Some {| st_id := st_id r; st_version := v; st_value := value |})
| op_updated s r f v :
    (n < v)%N → st_version r = st_version s →
    op_step n (OpUpdate s f) (Some r) (Some {| st_id := st_id r; st_version := v; st_value := f (st_value r) |})
| op_deleted s r : st_version r = st_version s → op_step n (OpDelete s) (Some r) None.

Inductive run_ops {A} (n : N) : list (Op A) → option (Stored A) → option (Stored A) → Prop :=
| run_nil x : run_ops n [] x x
| run_cons op ops x y z : op_step n op x y → run_ops n ops y z → run_ops n (op :: ops) x z.

Lemma fence_ok c id s current u :
  fence c id (Some s) current = Ok u → current = Some s.
Proof. destruct current as [v|]; simpl; [|done]. destruct (N.eqb_spec s v); naive_solver. Qed.

Lemma apply_op_step {A} n col (op : Op A) x next y :
  (n < next)%N → apply_op col op x next = Ok y → op_step n op x y.
Proof.
  intros Hn Hop. destruct op as [id v|s v|s f|s]; simpl in Hop; apply and_then_ok in Hop as ([] & Hf & [= <-]).
  - apply reject_if_ok, bool_decide_eq_false in Hf. destruct x; [by destruct Hf|]. by constructor.
  - apply fence_ok, fmap_Some in Hf as (r & -> & Hr). by constructor.
  - apply fence_ok, fmap_Some in Hf as (r & -> & Hr). by constructor.
  - apply fence_ok, fmap_Some in Hf as (r & -> & Hr). by constructor.
Qed.

Section table.
Context `{T : Table K A}.

Definition ops_on (k : K) (ws : list Write) : list (Op A) :=
  omap (λ w, match tsel w with Some (k', op) => if decide (k' = k) then Some op else None | None => None end) ws.

Lemma elem_of_ops_on op k ws : op ∈ ops_on k ws ↔ ∃ w, w ∈ ws ∧ tsel w = Some (k, op).
Proof.
  unfold ops_on. rewrite list_elem_of_omap. split.
  - intros (w & Hw & Hop). exists w. split; [done|].
    destruct (tsel w) as [[k' op']|]; [|done]. case_decide; naive_solver.
  - intros (w & Hw & Hop). exists w. split; [done|]. rewrite Hop. by rewrite decide_True.
Qed.

Lemma lookup_put (k k' : K) (x : option (Stored A)) m :
  put k x m !! k' = if decide (k = k') then x else m !! k'.
Proof.
  unfold put. destruct x; case_decide; subst.
  - by rewrite lookup_insert_eq.
  - by rewrite lookup_insert_ne.
  - by rewrite lookup_delete_eq.
  - by rewrite lookup_delete_ne.
Qed.

Lemma next_version_write w c c' :
  apply_record_write w c = Ok c' → next_version c' = (next_version c + 1)%N.
Proof.
  destruct w; simpl; intros Hw; apply and_then_ok in Hw as (x & Hx & [= <-]); done.
Qed.

Lemma run_writes n ws c c' k :
  (n <= next_version c)%N → apply_record_writes ws c = Ok c' →
  run_ops n (ops_on k ws) (tget (records c) !! k) (tget (records c') !! k) ∧ (n <= next_version c')%N.
Proof.
  revert c. induction ws as [|w ws IH]; intros c Hn Hws; simpl in Hws.
  { injection Hws as <-. split; [constructor|done]. }
  apply and_then_ok in Hws as (c1 & Hw & Hws).
  pose proof (next_version_write w c c1 Hw) as Hnext.
  destruct (IH c1) as [Hrun Hle]; [lia|done|]. split; [|done].
  pose proof (table_write w c c1 Hw) as Hlaw. unfold ops_on in *. simpl.
  destruct (tsel w) as [[k' op]|].
  - destruct Hlaw as (col & x & Hx & Hput). rewrite Hput, lookup_put in Hrun. case_decide; subst.
    + econstructor; [|done]. eapply apply_op_step, Hx. lia.
    + done.
  - by rewrite Hlaw in Hrun.
Qed.
End table.

(** ** What a record is after a batch *)

(** The record after the batch was made by one of its writes. *)
Inductive made {A} (n : N) (ops : list (Op A)) (x : option (Stored A)) : option (Stored A) → Prop :=
| made_created st : OpCreate (st_id st) (st_value st) ∈ ops → (n < st_version st)%N → made n ops x (Some st)
| made_replaced s r st :
    OpReplace s (st_value st) ∈ ops → x = Some r → st_version r = st_version s → st_id st = st_id r →
    (n < st_version st)%N → made n ops x (Some st)
| made_updated s r f st :
    ops = [OpUpdate s f] → x = Some r → st_version r = st_version s → st_id st = st_id r →
    st_value st = f (st_value r) → (n < st_version st)%N → made n ops x (Some st)
| made_deleted s : OpDelete s ∈ ops → made n ops x None.

Lemma run_ops_none {A} n (ops : list (Op A)) x y :
  run_ops n ops x y → (∀ st, x = Some st → (n < st_version st)%N) → Forall (fenced n) ops →
  y = x ∨ (∃ st, y = Some st ∧ OpCreate (st_id st) (st_value st) ∈ ops ∧ (n < st_version st)%N) ∨ 
  (y = None ∧ ∃ s, OpDelete s ∈ ops).
Proof.
  induction 1 as [|op ops x y z Hop Hrun IH]; [by left|]. intros Hx [Hf Hfs]%Forall_cons_1.
  destruct Hop as [id v' v Hv|s r v' v Hv Hr|s r f v Hv Hr|s r Hr]; simpl in Hf;
    try (specialize (Hx _ eq_refl); lia).
  destruct IH as [->|[(st & -> & Hin & Hn)|(-> & s & Hs)]]; [naive_solver|done|..].
  - right. left. eexists. split; [done|]. simpl. split; [by left|done].
  - right. left. exists st. split; [done|]. split; [by right|done].
  - right. right. split; [done|]. exists s. by right.
Qed.

Lemma run_ops_made {A} n (ops : list (Op A)) x y :
  run_ops n ops x y → Forall (fenced n) ops → (ops = [] ∧ y = x) ∨ (ops ≠ [] ∧ made n ops x y).
Proof.
  intros Hrun Hf. destruct Hrun as [|op ops x y z Hop Hrun]; [by left|]. right. split; [done|].
  apply Forall_cons_1 in Hf as [Hf Hfs].
  assert (Hnew : ∀ st, y = Some st → (n < st_version st)%N).
  { intros st ->. by inversion Hop. }
  destruct (run_ops_none n ops y z Hrun Hnew Hfs) as [->|[(st & -> & Hin & Hn)|(-> & s & Hs)]].
  - destruct Hop as [id v' v Hv|s r v' v Hv Hr|s r f v Hv Hr|s r Hr].
    + apply made_created; simpl; [by left|done].
    + eapply made_replaced; simpl; [by left|done..].
    + (* an update is the only write of its record *)
      assert (ops = []) as ->.
      { inversion Hrun as [|op' ops' x' y' z' Hop' Hrest]; [done|]. subst. exfalso.
        apply Forall_cons_1 in Hfs as [Hf' _]. inversion Hop'; subst; simpl in *; lia. }
      eapply made_updated; simpl; done.
    + apply made_deleted with s. by left.
  - apply made_created; [by right|done].
  - apply made_deleted with s. by right.
Qed.

(** ** Commits *)

Lemma next_version_commit change c c' : commit change c = Ok c' → (next_version c <= next_version c')%N.
Proof.
  unfold commit. intros Hc. apply and_then_ok in Hc as (c1 & Hws & [= <-]). simpl.
  assert (next_version c <= next_version c1)%N; [|lia].
  by apply (run_writes (K := string) (A := EnvironmentRecord) (next_version c) (ch_writes change) c c1 "").
Qed.

(** What a committed change makes of one record. *)
Lemma commit_record `{T : Table K A} change c c' k :
  commit change c = Ok c' → Forall (fenced_write (next_version c)) (ch_writes change) →
  let ops := ops_on k (ch_writes change) in
  (ops = [] ∧ tget (records c') !! k = tget (records c) !! k) ∨
  (ops ≠ [] ∧ made (next_version c) ops (tget (records c) !! k) (tget (records c') !! k)).
Proof.
  intros Hc Hf ops. unfold commit in Hc. apply and_then_ok in Hc as (c1 & Hws & [= <-]). simpl.
  apply run_ops_made.
  - by apply run_writes.
  - apply Forall_forall. intros op (w & Hw & Hop)%elem_of_ops_on.
    eapply table_fenced; [done|]. by eapply Forall_forall in Hw.
Qed.

(** The writes of one record, in order. *)
Lemma commit_run `{T : Table K A} change c c' k :
  commit change c = Ok c' →
  run_ops (next_version c) (ops_on k (ch_writes change)) (tget (records c) !! k) (tget (records c') !! k).
Proof.
  intros Hc. unfold commit in Hc. apply and_then_ok in Hc as (c1 & Hws & [= <-]). simpl.
  by apply (run_writes (next_version c) _ _ _ k) in Hws as [Hrun _].
Qed.

Lemma commit_untouched `{T : Table K A} change c c' k :
  commit change c = Ok c' → (∀ w op, w ∈ ch_writes change → tsel w ≠ Some (k, op)) →
  tget (records c') !! k = tget (records c) !! k.
Proof.
  intros Hc Hno. unfold commit in Hc. apply and_then_ok in Hc as (c1 & Hws & [= <-]). simpl.
  apply (run_writes (next_version c) _ _ _ k) in Hws as [Hrun _]; [|lia].
  destruct (ops_on k (ch_writes change)) as [|op ops] eqn:Hops; [by inversion Hrun|].
  assert (op ∈ ops_on k (ch_writes change)) as (w & Hw & Hop)%elem_of_ops_on
    by (rewrite Hops; by left).
  by destruct (Hno w op).
Qed.

(** The first write of a record meets it as it was. *)
Lemma commit_first `{T : Table K A} change c c' k :
  commit change c = Ok c' →
  tget (records c') !! k = tget (records c) !! k ∨
  ∃ w op y, w ∈ ch_writes change ∧ tsel w = Some (k, op) ∧ op_step (next_version c) op (tget (records c) !! k) y.
Proof.
  intros Hc. unfold commit in Hc. apply and_then_ok in Hc as (c1 & Hws & [= <-]). simpl.
  apply (run_writes (next_version c) _ _ _ k) in Hws as [Hrun _]; [|lia].
  destruct (ops_on k (ch_writes change)) as [|op ops] eqn:Hops; [left; by inversion Hrun|].
  assert (op ∈ ops_on k (ch_writes change)) as (w & Hw & Hop)%elem_of_ops_on by (rewrite Hops; by left).
  right. inversion Hrun as [|op' ops' x y z Hstep Hrest]; subst. by exists w, op, y.
Qed.

(** What a record is after a commit: as it was, or made by a write. *)
Inductive made_by {K A} `{Table K A} (c : Control) (ws : list Write) (k : K) (st : Stored A) : Prop :=
| by_create w id :
    w ∈ ws → tsel w = Some (k, OpCreate id (st_value st)) → st_id st = id → made_by c ws k st
| by_replace w s r :
    w ∈ ws → tsel w = Some (k, OpReplace s (st_value st)) → tget (records c) !! k = Some r →
    st_version r = st_version s → st_id st = st_id r → made_by c ws k st
| by_update w s f r :
    w ∈ ws → tsel w = Some (k, OpUpdate s f) → tget (records c) !! k = Some r → st_version r = st_version s →
    st_id st = st_id r → st_value st = f (st_value r) → made_by c ws k st.

Lemma commit_made `{T : Table K A} change c c' k st :
  commit change c = Ok c' → Forall (fenced_write (next_version c)) (ch_writes change) →
  tget (records c') !! k = Some st →
  tget (records c) !! k = Some st ∨ (made_by c (ch_writes change) k st ∧ (next_version c < st_version st)%N).
Proof.
  intros Hc Hf Hst. destruct (commit_record change c c' k Hc Hf) as [[_ Heq]|[_ Hmade]]; [left; congruence|].
  right. rewrite Hst in Hmade.
  inversion Hmade as [st' Hin Hv|s r st' Hin Hx Hr Hid Hv|s r f st' Hops Hx Hr Hid Hval Hv|]; subst;
    (split; [|done]).
  - apply elem_of_ops_on in Hin as (w & Hw & Hsel). by eapply by_create.
  - apply elem_of_ops_on in Hin as (w & Hw & Hsel). by eapply by_replace.
  - assert (OpUpdate s f ∈ ops_on k (ch_writes change)) as (w & Hw & Hsel)%elem_of_ops_on
      by (rewrite Hops; by left).
    by eapply by_update.
Qed.

(** Without deletions, a batch that commits writes no record twice. *)
Lemma run_once {A} n (ops : list (Op A)) x y :
  run_ops n ops x y → Forall (fenced n) ops → (∀ s, OpDelete s ∉ ops) → length ops ≤ 1.
Proof.
  intros Hrun Hf Hdel. inversion Hrun as [|op ops' x' z y' Hop Hrest]; subst; [simpl; lia|].
  inversion Hrest as [|op2 ops2 x2 z2 y2 Hop2 Hrest2]; subst; [simpl; lia|]. exfalso.
  apply Forall_cons_1 in Hf as [_ [Hf _]%Forall_cons_1].
  inversion Hop; subst; try (inversion Hop2; subst; simpl in *; lia).
  destruct (Hdel s). by left.
Qed.

Lemma single_writes `{T : Table K A} change c c' k :
  commit change c = Ok c' → Forall (fenced_write (next_version c)) (ch_writes change) →
  (∀ w s, w ∈ ch_writes change → tsel w ≠ Some (k, OpDelete s)) →
  length (ops_on k (ch_writes change)) ≤ 1.
Proof.
  intros Hc Hf Hdel. unfold commit in Hc. apply and_then_ok in Hc as (c1 & Hws & [= <-]).
  apply (run_writes (next_version c) _ _ _ k) in Hws as [Hrun _]; [|lia].
  eapply run_once; [done|..].
  - apply Forall_forall. intros op (w & Hw & Hop)%elem_of_ops_on.
    eapply table_fenced; [done|]. by eapply Forall_forall in Hw.
  - intros s (w & Hw & Hop)%elem_of_ops_on. by eapply Hdel.
Qed.

Lemma single_op `{T : Table K A} k w op ws :
  length (ops_on k ws) ≤ 1 → w ∈ ws → tsel w = Some (k, op) → ops_on k ws = [op].
Proof.
  intros Hlen Hw Hsel. assert (op ∈ ops_on k ws) as Hin by (apply elem_of_ops_on; eauto).
  destruct (ops_on k ws) as [|op1 [|? ?]]; simpl in Hlen; [by apply elem_of_nil in Hin| |lia].
  by apply list_elem_of_singleton in Hin as ->.
Qed.

Lemma ops_on_cons `{T : Table K A} k w ws :
  ops_on k (w :: ws) =
  match tsel w with
  | Some (k', op) => if decide (k' = k) then op :: ops_on k ws else ops_on k ws
  | None => ops_on k ws
  end.
Proof. unfold ops_on. simpl. destruct (tsel w) as [[k' op]|]; [case_decide|]; done. Qed.

(** The keys a list of writes names. *)
Definition keys_of `{T : Table K A} (ws : list Write) : list K := omap (λ w, fst <$> tsel (Table := T) w) ws.

Lemma keys_of_once `{T : Table K A} ws : (∀ k, length (ops_on (T := T) k ws) ≤ 1) → NoDup (keys_of (T := T) ws).
Proof.
  induction ws as [|w ws IH]; intros Hlen; [constructor|].
  assert (NoDup (keys_of (T := T) ws)) as Hnd.
  { apply IH. intros k. specialize (Hlen k). rewrite (ops_on_cons (T := T)) in Hlen.
    destruct (tsel w) as [[k' op]|]; [case_decide|]; simpl in Hlen; lia. }
  unfold keys_of in *. simpl. destruct (tsel w) as [[k op]|] eqn:Hsel; simpl; [|done]. constructor; [|done].
  intros (w' & Hw' & Hk)%list_elem_of_omap. destruct (tsel w') as [[k' op']|] eqn:Hsel'; [injection Hk as <-|done].
  specialize (Hlen k'). rewrite (ops_on_cons (T := T)), Hsel, decide_True in Hlen by done.
  assert (op' ∈ ops_on k' ws) as Hin by (apply elem_of_ops_on; eauto).
  destruct (ops_on k' ws); [by apply elem_of_nil in Hin|simpl in Hlen; lia].
Qed.

Lemma made_version {A} n (ops : list (Op A)) x st : made n ops x (Some st) → (n < st_version st)%N.
Proof. by inversion 1. Qed.

Lemma apply_op_version {A} col (op : Op A) x next st :
  apply_op col op x next = Ok (Some st) → st_version st = next.
Proof.
  destruct op; simpl; intros Hop; apply and_then_ok in Hop as ([] & _ & Hst);
    try destruct x; naive_solver.
Qed.

Lemma commit_table_within `{T : Table K A} change c c' :
  commit change c = Ok c' →
  (∀ k s, tget (records c) !! k = Some s → (st_version s <= next_version c)%N) →
  ∀ k s, tget (records c') !! k = Some s → (st_version s <= next_version c')%N.
Proof.
  unfold commit. intros Hc Hn k s Hs. apply and_then_ok in Hc as (c1 & Hws & [= <-]). simpl in *.
  apply N.le_trans with (next_version c1); [|lia].
  revert c Hws Hn. induction (ch_writes change) as [|w ws IH]; intros c Hws Hn; simpl in Hws.
  { injection Hws as <-. eauto. }
  apply and_then_ok in Hws as (c2 & Hw & Hws). eapply IH; [done|]. clear IH Hs s k.
  intros k s Hs. pose proof (next_version_write _ _ _ Hw) as ->.
  pose proof (table_write (A := A) w c c2 Hw) as Hlaw. destruct (tsel w) as [[k2 op]|].
  - destruct Hlaw as (col & x & Hx & Hput). rewrite Hput, lookup_put in Hs. case_decide.
    + subst. apply apply_op_version in Hx. lia.
    + apply Hn in Hs. lia.
  - rewrite Hlaw in Hs. apply Hn in Hs. lia.
Qed.

Lemma commit_within change c c' :
  commit change c = Ok c' → versions_within (next_version c) (records c) →
  versions_within (next_version c') (records c').
Proof.
  intros Hc []. constructor.
  - by apply (commit_table_within (T := environment_table) change c c' Hc).
  - by apply (commit_table_within (T := membership_table) change c c' Hc).
  - by apply (commit_table_within (T := workload_table) change c c' Hc).
  - by apply (commit_table_within (T := deployment_table) change c c' Hc).
  - by apply (commit_table_within (T := instance_table) change c c' Hc).
  - by apply (commit_table_within (T := traffic_table) change c c' Hc).
Qed.

Lemma within_mono n n' d : (n <= n')%N → versions_within n d → versions_within n' d.
Proof. intros Hn []. constructor; intros k s Hs; (apply N.le_trans with n; [naive_solver|done]). Qed.

(** ** Reading the working copy *)

Lemma elem_of_entries {K A} `{Countable K} c (m : gmap K A) k x : (k, x) ∈ entries c m ↔ m !! k = Some x.
Proof. unfold entries. by rewrite elem_of_sort_by, elem_of_map_to_list. Qed.

Lemma elem_of_values {A} (m : gmap string A) x : x ∈ map snd (Pool.by_id m) ↔ ∃ id, m !! id = Some x.
Proof.
  change (map snd (Pool.by_id m)) with (snd <$> Pool.by_id m). rewrite list_elem_of_fmap. split.
  - intros ([id y] & -> & Hin%elem_of_by_id). eauto.
  - intros (id & Hid). exists (id, x). split; [done|]. by apply elem_of_by_id.
Qed.

Lemma elem_of_instances_where d f s :
  s ∈ instances_where d f ↔ (∃ id, instances d !! id = Some s) ∧ f (st_value s) = true.
Proof. unfold instances_where. rewrite list_elem_of_filter, elem_of_values. naive_solver. Qed.

Lemma elem_of_in_flight d s :
  s ∈ in_flight d ↔
  (∃ id, deployments d !! id = Some s) ∧ DeploymentStatus.is_terminal (dep_status (st_value s)) = false.
Proof. unfold in_flight. rewrite list_elem_of_filter, elem_of_values. naive_solver. Qed.

Lemma elem_of_workloads_of d p k w : (k, w) ∈ workloads_of d p ↔ workloads d !! k = Some w ∧ place_of k = p.
Proof. unfold workloads_of. rewrite list_elem_of_filter, elem_of_entries. naive_solver. Qed.

Lemma instance_some d k dep s :
  instance d k dep = Some s →
  (∃ id, instances d !! id = Some s) ∧ instance_key (st_value s) = k ∧ inst_deployment_id (st_value s) = dep.
Proof.
  unfold instance. rewrite last_Some. intros (l & Hl).
  assert (s ∈ instances_where d (λ i, bool_decide (instance_key i = k) && String.eqb (inst_deployment_id i) dep))
    as [Hin Hs]%elem_of_instances_where by (rewrite Hl; set_solver).
  apply andb_prop in Hs as [Hk Hd]. apply bool_decide_eq_true in Hk. by apply String.eqb_eq in Hd.
Qed.

(** The working copy holds what control state holds; of the deployments, those in
    flight among others. *)
Lemma working_copy_deployment c id s :
  deployments (working_copy c) !! id = Some s →
  deployments (records c) !! id = Some s.
Proof. unfold working_copy. simpl. by intros [Hs _]%map_lookup_filter_Some. Qed.

Lemma in_flight_held d id s :
  DeploymentStatus.is_terminal (dep_status (st_value s)) = false → held d id s = true.
Proof.
  intros Hs. unfold held. rewrite bool_decide_eq_true_2; [done|].
  unfold DeploymentStatus.IN_FLIGHT. destruct (dep_status (st_value s)); try done; set_solver.
Qed.

Lemma working_copy_in_flight c id s :
  deployments (records c) !! id = Some s →
  DeploymentStatus.is_terminal (dep_status (st_value s)) = false →
  deployments (working_copy c) !! id = Some s.
Proof.
  intros Hs Hflight. unfold working_copy. simpl. apply map_lookup_filter_Some. split; [done|].
  by apply in_flight_held.
Qed.

Lemma working_copy_within n c : versions_within n (records c) → versions_within n (working_copy c).
Proof.
  intros Hw. pose proof (within_deployments _ _ Hw) as Hdeps. destruct Hw. constructor; simpl; try done.
  intros k s [Hs _]%map_lookup_filter_Some. eauto.
Qed.

Lemma try_map_ok {A B E} (f : A → Result B E) l l' y :
  try_map f l = Ok l' → y ∈ l' → ∃ x, x ∈ l ∧ f x = Ok y.
Proof.
  revert l'. induction l as [|x l IH]; intros l' Hl Hy; simpl in Hl; [naive_solver set_solver|].
  apply and_then_ok in Hl as (y' & Hx & Hl). apply and_then_ok in Hl as (ys & Hys & [= <-]).
  apply elem_of_cons in Hy as [->|Hy]; [set_solver|].
  destruct (IH ys Hys Hy) as (x' & Hx' & Hf). exists x'. set_solver.
Qed.
