(* ===== verification/ReleaseSafety.v ===== *)
(** What every reachable state of the release system satisfies: traffic names
    instances that serve the current deployment of their project, at most one release
    of a project is in flight, and the working copy of a round still covers the
    projects it has yet to advance. *)

From S2P Require Import Prelude Text Core Isolation Policy Admission Descriptor Matching Pool Placement State Auth Release ReleaseSteps ReleaseSystem ReleaseFacts.

(** ** The invariant *)

Definition terminal (r : Stored DeploymentRecord) : bool := DeploymentStatus.is_terminal (dep_status (st_value r)).

(** Traffic has moved to a release in one of these. *)
Definition has_moved (s : DeploymentStatus) : bool :=
  match s with
  | DeploymentStatus.Switching | DeploymentStatus.Active | DeploymentStatus.Draining => true
  | _ => false
  end.

Definition ta_key (a : TrafficAssignmentRecord) : Key := (ta_environment a, ta_project a, ta_workload a).

(** The membership an assignment belongs to makes its deployment current. *)
Definition is_current (d : Desired) (p : Place) (deployment_id : string) : Prop :=
  ∃ m, memberships d !! p = Some m ∧ mem_deployment_id (st_value m) = Some deployment_id.

(** The instance an assignment names serves, on the port it names. *)
Definition serving (d : Desired) (a : TrafficAssignmentRecord) : Prop :=
  ∃ i, instances d !! ta_instance_id a = Some i ∧
       inst_state (st_value i) = InstanceState.Serving ∧
       inst_deployment_id (st_value i) = ta_deployment_id a ∧
       instance_key (st_value i) = ta_key a ∧
       port_of (st_value i) (ta_port a) = Some (ta_target_port a).

(** The workload declares the endpoint, on that host port. *)
Definition declared (d : Desired) (a : TrafficAssignmentRecord) : Prop :=
  ∃ w b, workloads d !! ta_key a = Some w ∧ b ∈ wl_ports (st_value w) ∧
         pb_name b = ta_port a ∧ pb_host b = ta_host_port a.

Definition follows (d : Desired) (a : TrafficAssignmentRecord) : Prop :=
  is_current d (ta_place a) (ta_deployment_id a) ∧ serving d a ∧ declared d a.

(** A deployment is the one of its place that is current, has its workloads and its
    traffic, and serves: its instances do, and no others. *)
Record serves_alone (d : Desired) (p : Place) (deployment_id : string) : Prop := {
  alone_current : is_current d p deployment_id;
  alone_workloads k w : workloads d !! k = Some w → place_of k = p → wl_deployment_id (st_value w) = deployment_id;
  alone_traffic ep a : traffic d !! ep = Some a → ta_place (st_value a) = p → ta_deployment_id (st_value a) = deployment_id;
  alone_instances id i : instances d !! id = Some i → inst_place (st_value i) = p →
    (inst_state (st_value i) = InstanceState.Serving ↔ inst_deployment_id (st_value i) = deployment_id);
}.

Definition placed (d : Desired) (id : string) (p : Place) : Prop :=
  ∃ r, deployments d !! id = Some r ∧ dep_place (st_value r) = p.

Record good (d : Desired) : Prop := {
  good_deployment id r : deployments d !! id = Some r → st_id r = id;
  good_instance id i : instances d !! id = Some i → st_id i = id ∧
    placed d (inst_deployment_id (st_value i)) (inst_place (st_value i));
  good_member p m id : memberships d !! p = Some m → mem_deployment_id (st_value m) = Some id → placed d id p;
  good_workload k w : workloads d !! k = Some w → is_current d (place_of k) (wl_deployment_id (st_value w));
  good_previous id r id' : deployments d !! id = Some r → dep_previous (st_value r) = Some id' →
    placed d id' (dep_place (st_value r));
  good_one id id' r r' :
    deployments d !! id = Some r → deployments d !! id' = Some r' → terminal r = false → terminal r' = false →
    dep_place (st_value r) = dep_place (st_value r') → id = id';
  good_traffic ep a : traffic d !! ep = Some a → follows d (st_value a);
  good_moved ep a r :
    traffic d !! ep = Some a → deployments d !! ta_deployment_id (st_value a) = Some r → terminal r = false →
    has_moved (dep_status (st_value r)) = true ∧ is_Some (environments d !! ta_environment (st_value a));
}.

(** An instance as the working copy has it, or drained since. *)
Definition as_drained (i0 i : Stored WorkloadInstanceRecord) : Prop :=
  i = i0 ∨
  (inst_state (st_value i0) = InstanceState.Draining ∧ inst_state (st_value i) = InstanceState.Stopped ∧
   (st_version i0 < st_version i)%N ∧ instance_key (st_value i) = instance_key (st_value i0) ∧
   inst_deployment_id (st_value i) = inst_deployment_id (st_value i0)).

(** What a working copy knows of one project of an environment. *)
Record covers (p : Place) (d c : Desired) : Prop := {
  covers_environment : environments d !! fst p = environments c !! fst p;
  covers_membership : memberships d !! p = memberships c !! p;
  covers_workload k : place_of k = p → workloads d !! k = workloads c !! k;
  covers_traffic ep a : traffic c !! ep = Some a → ta_place (st_value a) = p → traffic d !! ep = Some a;
  covers_instance id i : instances c !! id = Some i → inst_place (st_value i) = p →
    ∃ i0, instances d !! id = Some i0 ∧ as_drained i0 i;
  covers_copied id i0 : instances d !! id = Some i0 → inst_place (st_value i0) = p →
    ∃ i, instances c !! id = Some i ∧ as_drained i0 i;
}.

(** The instances and deployments of a working copy are of deployments that are
    recorded, and its versions were given. *)
Record copied (d : Desired) (c : Control) : Prop := {
  copied_instance id i : instances d !! id = Some i → st_id i = id ∧
    placed (records c) (inst_deployment_id (st_value i)) (inst_place (st_value i));
  copied_deployment id r : deployments d !! id = Some r → st_id r = id ∧ placed (records c) id (dep_place (st_value r));
  copied_within : versions_within (next_version c) d;
}.

Record sound (s : System) : Prop := {
  sound_good : good (records (control s));
  sound_within : versions_within (next_version (control s)) (records (control s));
  sound_copied : copied (desired s) (control s);
  sound_once : NoDup (st_id <$> queue s);
  sound_queue r : r ∈ queue s →
    deployments (records (control s)) !! st_id r = Some r ∧ terminal r = false ∧
    covers (dep_place (st_value r)) (desired s) (records (control s));
}.

(** ** Facts about the invariant *)

Lemma inst_place_key i : inst_place i = place_of (instance_key i).
Proof. done. Qed.

Lemma ta_place_key a : ta_place a = place_of (ta_key a).
Proof. done. Qed.

Lemma covers_refl p d : covers p d d.
Proof. constructor; try done; intros id i Hi _; exists i; by split; [|left]. Qed.

Lemma covers_working_copy p c : covers p (working_copy c) (records c).
Proof. destruct (covers_refl p (records c)). by constructor. Qed.

Lemma copied_working_copy c :
  good (records c) → versions_within (next_version c) (records c) → copied (working_copy c) c.
Proof.
  intros Hg Hw. constructor; [| |by apply working_copy_within].
  - intros id i Hi. by apply (good_instance _ Hg).
  - intros id r Hr%working_copy_deployment. split; [by apply (good_deployment _ Hg)|by exists r].
Qed.

(** A place has one deployment that is current. *)
Lemma is_current_inj d p id id' : is_current d p id → is_current d p id' → id = id'.
Proof. intros (m & Hm & Hid) (m' & Hm' & Hid'). naive_solver. Qed.

Lemma placed_inj d id p p' : placed d id p → placed d id p' → p = p'.
Proof. intros (r & Hr & <-) (r' & Hr' & <-). naive_solver. Qed.

(** The deployment traffic of a place goes to is one of that place. *)
Lemma traffic_placed d ep a :
  good d → traffic d !! ep = Some a → placed d (ta_deployment_id (st_value a)) (ta_place (st_value a)).
Proof.
  intros Hg Ha. destruct (good_traffic _ Hg _ _ Ha) as [(m & Hm & Hid) _]. by eapply good_member.
Qed.

(** No traffic names a release before it has moved. *)
Definition unrouted (d : Desired) (id : string) : Prop :=
  ∀ ep a, traffic d !! ep = Some a → ta_deployment_id (st_value a) ≠ id.

Lemma unmoved_unrouted d id r :
  good d → deployments d !! id = Some r → terminal r = false → has_moved (dep_status (st_value r)) = false →
  unrouted d id.
Proof.
  intros Hg Hr Hflight Hmoved ep a Ha Hid.
  destruct (good_moved _ Hg ep a r Ha) as [? _]; [by rewrite Hid|done|]. congruence.
Qed.

Lemma as_drained_serving i0 i :
  as_drained i0 i → inst_state (st_value i0) = InstanceState.Serving → i = i0.
Proof. intros [->|(H & _)]; [done|]. congruence. Qed.

Lemma as_drained_version i0 i : as_drained i0 i → st_version i = st_version i0 → i = i0.
Proof. intros [->|(_ & _ & Hv & _)]; [done|]. lia. Qed.

Lemma as_drained_key i0 i :
  as_drained i0 i → instance_key (st_value i) = instance_key (st_value i0) ∧
                    inst_deployment_id (st_value i) = inst_deployment_id (st_value i0).
Proof. intros [->|(_ & _ & _ & ? & ?)]; done. Qed.

(** ** Changes to a release's own records

    Everything that a release writes before and after its switch: its own status, its
    own instances, history, and a membership that never had a deployment. *)

Section own.
Context (c : Control) (d : Desired) (r : Stored DeploymentRecord) (now : Z).

Inductive own_write : Write → Prop :=
| own_status st f :
    has_moved st = true ∨ DeploymentStatus.is_terminal st = true ∨ unrouted (records c) (st_id r) →
    own_write (WDeployment (st_id r) (OpUpdate r (merge_deployment st now f)))
| own_update id i f :
    instances d !! id = Some i → inst_deployment_id (st_value i) = st_id r → unrouted (records c) (st_id r) →
    own_write (update_instance now i f)
| own_create id v :
    inst_deployment_id v = st_id r → inst_place v = dep_place (st_value r) →
    own_write (WInstance id (OpCreate id v))
| own_delete id i :
    instances d !! id = Some i → inst_place (st_value i) = dep_place (st_value r) →
    stopped_or_failed (inst_state (st_value i)) = true → own_write (WInstance (st_id i) (OpDelete i))
| own_leave m :
    memberships d !! dep_place (st_value r) = Some m → mem_deployment_id (st_value m) = None →
    own_write (WMembership (dep_place (st_value r)) (OpDelete m)).

Context (change : Change) (c' : Control).
Hypothesis Hgood : good (records c).
Hypothesis Hwithin : versions_within (next_version c) (records c).
Hypothesis Hr : deployments (records c) !! st_id r = Some r.
Hypothesis Hflight : terminal r = false.
Hypothesis Hcovers : covers (dep_place (st_value r)) d (records c).
Hypothesis Hcopied : copied d c.
Hypothesis Hown : ∀ w, w ∈ ch_writes change → own_write w.
Hypothesis Hcommit : commit change c = Ok c'.

Lemma own_fenced : Forall (fenced_write (next_version c)) (ch_writes change).
Proof.
  apply Forall_forall. intros w Hw. pose proof (copied_within _ _ Hcopied) as Hd.
  destruct (Hown w Hw); simpl; try done.
  - by apply (within_deployments _ _ Hwithin (st_id r)).
  - by eapply (within_instances _ _ Hd).
  - by eapply (within_instances _ _ Hd).
  - by eapply (within_memberships _ _ Hd).
Qed.

Lemma own_kept K A `{T : Table K A} k :
  (∀ w op, own_write w → tsel w ≠ Some (k, op)) → tget (records c') !! k = tget (records c) !! k.
Proof. intros Hno. eapply commit_untouched; [done|]. intros w op Hw. by apply Hno, Hown. Qed.

Ltac no_own := intros w op Hw; destruct Hw; simpl; congruence.

Lemma own_environments n : environments (records c') !! n = environments (records c) !! n.
Proof. apply (own_kept _ _ (T := environment_table)). no_own. Qed.
Lemma own_workloads k : workloads (records c') !! k = workloads (records c) !! k.
Proof. apply (own_kept _ _ (T := workload_table)). no_own. Qed.
Lemma own_traffic ep : traffic (records c') !! ep = traffic (records c) !! ep.
Proof. apply (own_kept _ _ (T := traffic_table)). no_own. Qed.
Lemma own_memberships p : p ≠ dep_place (st_value r) → memberships (records c') !! p = memberships (records c) !! p.
Proof. intros Hp. apply (own_kept _ _ (T := membership_table)). no_own. Qed.
Lemma own_deployments id : id ≠ st_id r → deployments (records c') !! id = deployments (records c) !! id.
Proof. intros Hid. apply (own_kept _ _ (T := deployment_table)). no_own. Qed.

Lemma own_member p m : memberships (records c') !! p = Some m → memberships (records c) !! p = Some m.
Proof.
  intros Hm. apply (commit_made (T := membership_table) _ _ _ _ _ Hcommit own_fenced) in Hm as [Hm|[Hby _]]; [done|].
  destruct Hby as [w id Hw Hsel|w s r0 Hw Hsel|w s f r0 Hw Hsel]; destruct (Hown w Hw); simpl in Hsel; congruence.
Qed.

Lemma own_current p id : is_current (records c) p id → is_current (records c') p id.
Proof.
  intros (m & Hm & Hid). exists m. split; [|done].
  destruct (commit_first (T := membership_table) _ _ _ p Hcommit) as [Heq|(w & op & y & Hw & Hsel & Hstep)];
    simpl in *; [congruence|].
  destruct (Hown w Hw) as [| | | |m' Hm' Hnone]; simpl in Hsel; try done. injection Hsel as <- <-.
  rewrite (covers_membership _ _ _ Hcovers) in Hm'. congruence.
Qed.

Lemma own_release :
  ∃ r', deployments (records c') !! st_id r = Some r' ∧ st_id r' = st_id r ∧
        (r' = r ∨ ∃ st f, st_value r' = merge_deployment st now f (st_value r) ∧
                          (has_moved st = true ∨ DeploymentStatus.is_terminal st = true ∨
                           unrouted (records c) (st_id r))).
Proof.
  destruct (deployments (records c') !! st_id r) as [r'|] eqn:Hr'.
  - exists r'. split; [done|].
    apply (commit_made (T := deployment_table) _ _ _ _ _ Hcommit own_fenced) in Hr' as [Heq|[Hby _]].
    { simpl in Heq. assert (r' = r) as -> by congruence. eauto. }
    destruct Hby as [w id Hw Hsel|w s r0 Hw Hsel|w s f r0 Hw Hsel Hr0 Hv Hid Hval];
      destruct (Hown w Hw); simpl in Hsel; try congruence.
    injection Hsel as <- <-. simpl in Hr0. assert (r0 = r) as -> by congruence. eauto 6.
  - exfalso. destruct (commit_record (T := deployment_table) _ _ _ (st_id r) Hcommit own_fenced) as [[_ Heq]|[_ Hmade]];
      simpl in *; [congruence|].
    rewrite Hr' in Hmade. inversion Hmade as [| | |s Hin]. apply elem_of_ops_on in Hin as (w & Hw & Hsel).
    destruct (Hown w Hw); simpl in Hsel; congruence.
Qed.

(** The instance an update was decided on is the one it meets. *)
Lemma own_met id i i0 :
  instances d !! id = Some i0 → instances (records c) !! id = Some i → st_version i = st_version i0 →
  inst_place (st_value i0) = dep_place (st_value r) → i = i0.
Proof.
  intros Hi0 Hi Hv Hp. destruct (covers_copied _ _ _ Hcovers id i0 Hi0 Hp) as (i' & Hi' & Hdrained).
  assert (i' = i) as -> by congruence. by apply as_drained_version.
Qed.

Lemma own_place id i :
  instances d !! id = Some i → inst_deployment_id (st_value i) = st_id r →
  inst_place (st_value i) = dep_place (st_value r).
Proof.
  intros Hi Hid. destruct (copied_instance _ _ Hcopied id i Hi) as [_ Hplaced]. rewrite Hid in Hplaced.
  eapply placed_inj; [done|]. by exists r.
Qed.

Lemma own_instance id i' :
  instances (records c') !! id = Some i' →
  instances (records c) !! id = Some i' ∨
  (∃ i f, instances (records c) !! id = Some i ∧ instances d !! id = Some i ∧
          inst_deployment_id (st_value i) = st_id r ∧
          unrouted (records c) (st_id r) ∧ st_value i' = merge_instance now f (st_value i) ∧ st_id i' = st_id i) ∨
  (st_id i' = id ∧ inst_deployment_id (st_value i') = st_id r ∧
   inst_place (st_value i') = dep_place (st_value r)).
Proof.
  intros Hi'. apply (commit_made (T := instance_table) _ _ _ _ _ Hcommit own_fenced) in Hi' as [Hi'|[Hby _]];
    [by left|right].
  destruct Hby as [w id' Hw Hsel Hid|w s r0 Hw Hsel|w s f r0 Hw Hsel Hr0 Hv Hid Hval];
    destruct (Hown w Hw) as [|id0 i f0 Hi Hdep Hun|id0 v Hdep Hp| |]; simpl in Hsel; try congruence.
  - injection Hsel as -> <- ->. by right.
  - injection Hsel as <- <- <-. left. simpl in Hr0.
    destruct (copied_instance _ _ Hcopied id0 i Hi) as [Hid0 _]. rewrite Hid0 in *.
    assert (r0 = i) as ->; [|by exists i, f0].
    eapply own_met; try done. by eapply own_place.
Qed.

Lemma own_live id i :
  instances (records c) !! id = Some i → stopped_or_failed (inst_state (st_value i)) = false →
  (unrouted (records c) (st_id r) → inst_deployment_id (st_value i) ≠ st_id r) →
  instances (records c') !! id = Some i.
Proof.
  intros Hi Hs Hne.
  destruct (commit_first (T := instance_table) _ _ _ id Hcommit) as [Heq|(w & op & y & Hw & Hsel & Hstep)];
    simpl in *; [congruence|]. exfalso. rewrite Hi in Hstep.
  destruct (Hown w Hw) as [|id0 i0 f0 Hi0 Hdep Hun|id0 v Hdep Hp|id0 i0 Hi0 Hp Hst|]; simpl in Hsel; try congruence.
  - injection Hsel as <- <-. destruct (copied_instance _ _ Hcopied id0 i0 Hi0) as [Hid _]. rewrite Hid in *.
    inversion Hstep as [|?|s r0 f v Hv Hver|]; subst.
    assert (i = i0) as -> by (eapply own_met; try done; by eapply own_place). by apply Hne.
  - injection Hsel as <- <-. inversion Hstep.
  - injection Hsel as <- <-. destruct (copied_instance _ _ Hcopied id0 i0 Hi0) as [Hid _]. rewrite Hid in *.
    inversion Hstep as [|?|?|s r0 Hver]; subst.
    assert (i = i0) as -> by by eapply own_met. congruence.
Qed.

Lemma merged_place st f rec : dep_place (merge_deployment st now f rec) = dep_place rec.
Proof. done. Qed.

(** Deployments stay, where they are and with what they replaced. *)
Lemma own_deployment id r0' :
  deployments (records c') !! id = Some r0' →
  ∃ r0, deployments (records c) !! id = Some r0 ∧ st_id r0' = st_id r0 ∧
        dep_place (st_value r0') = dep_place (st_value r0) ∧
        dep_previous (st_value r0') = dep_previous (st_value r0) ∧
        (terminal r0' = false → terminal r0 = false) ∧
        (terminal r0' = false → has_moved (dep_status (st_value r0)) = true ∨ unrouted (records c) id →
         has_moved (dep_status (st_value r0')) = true ∨ unrouted (records c) id).
Proof.
  intros Hr'. destruct (decide (id = st_id r)) as [->|Hne].
  - destruct own_release as (r' & Hr'' & Hid & Hcases). assert (r0' = r') as -> by congruence.
    exists r. split; [done|]. destruct Hcases as [->|(st & f & Hval & Hst)]; [done|].
    unfold terminal. rewrite Hval. split; [done|]. split; [done|]. split; [done|]. split; [done|].
    simpl. intros Hterm _. destruct Hst as [?|[?|?]]; [by left|congruence|by right].
  - exists r0'. by rewrite own_deployments in Hr'.
Qed.

Lemma own_placed id p : placed (records c) id p → placed (records c') id p.
Proof.
  intros (r0 & Hr0 & <-). destruct (decide (id = st_id r)) as [->|Hne].
  - destruct own_release as (r' & Hr' & _ & Hcases). exists r'. split; [done|].
    assert (r0 = r) as -> by congruence. destruct Hcases as [->|(st & f & -> & _)]; done.
  - exists r0. by rewrite own_deployments.
Qed.

Lemma own_good : good (records c').
Proof.
  constructor.
  - intros id r0 Hr0. apply own_deployment in Hr0 as (r1 & Hr1 & -> & _). by apply (good_deployment _ Hgood).
  - intros id i Hi. apply own_instance in Hi as [Hi|[(i0 & f & Hi0 & _ & Hdep & _ & Hval & Hid)|(Hid & Hdep & Hp)]].
    + destruct (good_instance _ Hgood id i Hi) as [? ?]. split; [done|]. by apply own_placed.
    + destruct (good_instance _ Hgood id i0 Hi0) as [? ?]. split; [congruence|]. rewrite Hval. by apply own_placed.
    + split; [done|]. rewrite Hdep, Hp. apply own_placed. by exists r.
  - intros p m id Hm Hid. apply own_member in Hm. apply own_placed. by eapply good_member.
  - intros k w Hw. rewrite own_workloads in Hw. apply own_current. by apply (good_workload _ Hgood).
  - intros id r0 id' Hr0 Hprev. apply own_deployment in Hr0 as (r1 & Hr1 & _ & -> & Hp & _).
    apply own_placed. apply (good_previous _ Hgood id r1); congruence.
  - intros id id' r1 r2 H1 H2 T1 T2 Hp. apply own_deployment in H1 as (r1' & H1 & _ & Hp1 & _ & T1' & _).
    apply own_deployment in H2 as (r2' & H2 & _ & Hp2 & _ & T2' & _).
    eapply (good_one _ Hgood); try done; [by apply T1'|by apply T2'|congruence].
  - intros ep a Ha. rewrite own_traffic in Ha. destruct (good_traffic _ Hgood ep a Ha) as (Hcur & Hserve & Hdecl).
    split; [by apply own_current|]. split.
    + destruct Hserve as (i & Hi & Hs & Hdep & Hkey & Hport). exists i. split; [|done].
      apply own_live; [done|by rewrite Hs|]. rewrite Hdep. intros Hun. by eapply Hun.
    + destruct Hdecl as (w & b & Hw & Hb). exists w, b. by rewrite own_workloads.
  - intros ep a r0 Ha Hr0 Hterm. rewrite own_traffic in Ha.
    apply own_deployment in Hr0 as (r1 & Hr1 & _ & _ & _ & Hterm' & Hmoved).
    destruct (good_moved _ Hgood ep a r1 Ha Hr1 (Hterm' Hterm)) as [Hm Henv]. rewrite own_environments.
    split; [|done]. destruct (Hmoved Hterm (or_introl Hm)) as [?|Hun]; [done|]. by destruct (Hun ep a).
Qed.

(** What a working copy knows of other places stays true. *)
Lemma own_covers p d' :
  p ≠ dep_place (st_value r) → covers p d' (records c) → covers p d' (records c').
Proof.
  intros Hp Hd'. constructor.
  - by rewrite own_environments, (covers_environment _ _ _ Hd').
  - by rewrite own_memberships, (covers_membership _ _ _ Hd').
  - intros k Hk. by rewrite own_workloads, (covers_workload _ _ _ Hd').
  - intros ep a Ha. rewrite own_traffic in Ha. by apply (covers_traffic _ _ _ Hd').
  - intros id i Hi Hplace.
    apply own_instance in Hi as [Hi|[(i0 & f & Hi0 & Hd0 & Hdep & _ & Hval & Hid)|(Hid & Hdep & Hpl)]].
    + by apply (covers_instance _ _ _ Hd').
    + exfalso. apply Hp. rewrite <-Hplace, Hval. by eapply own_place.
    + congruence.
  - intros id i0 Hi0 Hplace. destruct (covers_copied _ _ _ Hd' id i0 Hi0 Hplace) as (i & Hi & Hdr).
    exists i. split; [|done].
    assert (Hpi : inst_place (st_value i) = p).
    { rewrite inst_place_key. destruct (as_drained_key _ _ Hdr) as [-> _]. by rewrite <-inst_place_key. }
    destruct (commit_first (T := instance_table) _ _ _ id Hcommit) as [Heq|(w & op & y & Hw & Hsel & Hstep)];
      simpl in *; [congruence|]. exfalso. rewrite Hi in Hstep.
    destruct (Hown w Hw) as [|id0 i1 f0 Hi1 Hdep Hun|id0 v Hdep Hpv|id0 i1 Hi1 Hp1 Hst|]; simpl in Hsel; try congruence.
    + injection Hsel as <- <-. destruct (copied_instance _ _ Hcopied id0 i1 Hi1) as [Hid _]. rewrite Hid in *.
      inversion Hstep as [|?|s r0 f v Hv Hver|]; subst.
      assert (i = i1) as -> by (eapply own_met; try done; by eapply own_place).
      apply Hp. rewrite <-Hpi. by eapply own_place.
    + injection Hsel as <- <-. inversion Hstep.
    + injection Hsel as <- <-. destruct (copied_instance _ _ Hcopied id0 i1 Hi1) as [Hid _]. rewrite Hid in *.
      inversion Hstep as [|?|?|s r0 Hver]; subst.
      assert (i = i1) as -> by by eapply own_met. congruence.
Qed.
End own.

(** ** What a step writes, the switch and rollbacks apart *)

Section writes.
Context `{!Sha256Hex} (config : Config) (node : Node).

Lemma elem_of_change_with w w' ch : w ∈ ch_writes (change_with w' ch) ↔ w ∈ ch_writes ch ∨ w = w'.
Proof. simpl. set_solver. Qed.
Lemma elem_of_change_all w ws ch : w ∈ ch_writes (change_all ws ch) ↔ w ∈ ch_writes ch ∨ w ∈ ws.
Proof. simpl. set_solver. Qed.
Lemma elem_of_transition w r st f ch :
  w ∈ ch_writes (transition node r st f ch) ↔
  w ∈ ch_writes ch ∨ w = WDeployment (st_id r) (OpUpdate r (merge_deployment st (node_now node) f)).
Proof. apply elem_of_change_with. Qed.
Lemma elem_of_event w kind scope message ch : w ∈ ch_writes (event kind scope message ch) ↔ w ∈ ch_writes ch.
Proof. done. Qed.
Lemma elem_of_change_new w : w ∈ ch_writes change_new ↔ False.
Proof. simpl. by rewrite elem_of_nil. Qed.

Lemma fail_with_writes ch r d stage reason ws change w :
  fail_with config node ch r d stage reason ws = Ok change → w ∈ ch_writes change →
  w ∈ ch_writes ch ∨
  (∃ f, w = WDeployment (st_id r) (OpUpdate r (merge_deployment DeploymentStatus.Failed (node_now node) f))) ∨
  (∃ id i f, instances d !! id = Some i ∧ inst_deployment_id (st_value i) = st_id r ∧
             w = update_instance (node_now node) i f) ∨
  (∃ m, memberships d !! dep_place (st_value r) = Some m ∧ mem_deployment_id (st_value m) = None ∧
        w = WMembership (dep_place (st_value r)) (OpDelete m)).
Proof.
  intros Hfail Hw. unfold fail_with in Hfail. apply and_then_ok in Hfail as (receipt & _ & [= <-]).
  rewrite elem_of_event in Hw.
  match type of Hw with w ∈ ch_writes (match ?x with _ => _ end) => destruct x as [m|] eqn:Hm end;
    [destruct (mem_deployment_id (st_value m)) eqn:Hnone; [|rewrite elem_of_change_with in Hw; destruct Hw as [Hw|Hw]; [|by eauto 10]]|];
    rewrite elem_of_change_all, elem_of_transition, list_elem_of_fmap in Hw;
    (destruct Hw as [[?|?]|(i & -> & ((id & Hi) & Hf)%elem_of_instances_where)]; [by left|by eauto|]);
    (right; right; left; apply andb_prop in Hf as [Hf%String.eqb_eq _]; by eauto 10).
Qed.

Context (c : Control) (r : Stored DeploymentRecord).
Notation own d := (own_write c d r (node_now node)).

Lemma fail_with_own ch d stage reason ws change :
  fail_with config node ch r d stage reason ws = Ok change → unrouted (records c) (st_id r) →
  (∀ w, w ∈ ch_writes ch → own d w) → ∀ w, w ∈ ch_writes change → own d w.
Proof.
  intros Hfail Hun Hch w Hw.
  apply (fail_with_writes _ _ _ _ _ _ _ _ Hfail) in Hw
    as [Hw|[(f & ->)|[(id & i & f & Hi & Hdep & ->)|(m & Hm & Hnone & ->)]]].
  - by apply Hch.
  - apply own_status. by right; left.
  - by eapply own_update.
  - by apply own_leave.
Qed.

Lemma fail_own later stage reason change :
  fail config node later r stage reason = Ok change → unrouted (records c) (st_id r) →
  ∀ w, w ∈ ch_writes change → own later w.
Proof.
  intros Hfail Hun. apply (fail_with_own change_new later stage reason None change Hfail Hun).
  by intros w Hw%elem_of_change_new.
Qed.

Lemma complete_own d change :
  complete config node d r = Ok (Some change) → ∀ w, w ∈ ch_writes change → own d w.
Proof.
  unfold complete. intros Hc w Hw. apply and_then_ok in Hc as (receipt & _ & [= <-]).
  rewrite elem_of_event, elem_of_change_all, elem_of_transition, elem_of_change_new, list_elem_of_fmap in Hw.
  destruct Hw as [[[] | ->] | (i & -> & ((id & Hi) & Hf)%elem_of_instances_where)].
  - apply own_status. by right; left.
  - apply andb_prop in Hf as [Hf Hst]. apply andb_prop in Hf as [Hp%bool_decide_eq_true _].
    by eapply own_delete.
Qed.

Lemma finish_drain_own d change :
  finish_drain config node d r = Ok (Some change) → ∀ w, w ∈ ch_writes change → own d w.
Proof. unfold finish_drain. case_match; [|done]. apply complete_own. Qed.

Lemma begin_drain_own d change :
  begin_drain node r = Ok (Some change) → ∀ w, w ∈ ch_writes change → own d w.
Proof.
  unfold begin_drain. intros [= <-] w Hw.
  rewrite elem_of_event, elem_of_transition, elem_of_change_new in Hw. destruct Hw as [[] | ->].
  apply own_status. by left.
Qed.

Lemma admit_own later d e change :
  admit_release config node later d r e = Ok (Some change) → unrouted (records c) (st_id r) →
  (∀ w, w ∈ ch_writes change → own d w) ∨ (∀ w, w ∈ ch_writes change → own later w).
Proof.
  unfold admit_release. intros Ha Hun.
  destruct (revisions d !! _) as [revision|].
  2:{ apply and_then_ok in Ha as (ch & Hfail & [= <-]). right. by eapply fail_own. }
  left. case_match.
  { apply and_then_ok in Ha as (ch & Hfail & [= <-]). apply (fail_with_own _ _ _ _ _ _ Hfail Hun).
    by intros w Hw%elem_of_change_new. }
  injection Ha as <-. intros w Hw.
  rewrite !elem_of_event, elem_of_change_all, elem_of_transition, elem_of_change_new, list_elem_of_omap in Hw.
  destruct Hw as [[[] | ->] | ([[rw wid] ports] & _ & Hw)].
  - apply own_status. by right; right.
  - case_match; [done|]. injection Hw as <-. by apply own_create.
Qed.

(** The loop over the instances only updates them. *)
Lemma ready_instance_writes d rev ry i ry' failed :
  ready_instance node d r rev ry i = (ry', failed) →
  ∀ w, w ∈ ch_writes (ry_change ry') → w ∈ ch_writes (ry_change ry) ∨ ∃ f, w = update_instance (node_now node) i f.
Proof.
  unfold ready_instance. intros Hr w Hw.
  destruct (List.find _ _) as [workload|]; [|injection Hr as <- <-; by left].
  case_bool_decide; [injection Hr as <- <-; by left|].
  match type of Hr with (let '(_, _) := ?x in _) = _ => destruct x as [outcome ch'] end.
  destruct outcome; injection Hr as <- <-; simpl in Hw.
  - apply elem_of_app in Hw as [Hw|Hw]; [by left|]. right. apply list_elem_of_singleton in Hw. by eexists.
  - by left.
  - by left.
Qed.

Lemma ready_instances_writes d rev l : ∀ ry ry' failed,
  ready_instances node d r rev ry l = (ry', failed) →
  ∀ w, w ∈ ch_writes (ry_change ry') →
    w ∈ ch_writes (ry_change ry) ∨ ∃ i f, i ∈ l ∧ w = update_instance (node_now node) i f.
Proof.
  induction l as [|i l IH]; intros ry ry' failed Hr w Hw; simpl in Hr; [injection Hr as <- <-; by left|].
  destruct (ready_instance node d r rev ry i) as [ry1 failed1] eqn:Hi.
  assert (Hstep : w ∈ ch_writes (ry_change ry1) → w ∈ ch_writes (ry_change ry) ∨
                  ∃ i' f, i' ∈ i :: l ∧ w = update_instance (node_now node) i' f).
  { intros Hw1. apply (ready_instance_writes _ _ _ _ _ _ Hi) in Hw1 as [?|(f & ->)]; [by left|].
    right. exists i, f. split; [by left|done]. }
  destruct failed1 as [reason|]; [injection Hr as <- <-; by apply Hstep|].
  apply (IH _ _ _ Hr) in Hw as [Hw|(i' & f & Hi' & ->)]; [by apply Hstep|].
  right. exists i', f. split; [by right|done].
Qed.

Lemma await_own d ch0 ch1 change :
  await_readiness config node d r ch0 = (Ok (Some change), ch1) → unrouted (records c) (st_id r) →
  ∀ w, w ∈ ch_writes change → own d w.
Proof.
  unfold await_readiness. intros Ha Hun. destruct (revisions d !! _) as [revision|]; [|done].
  destruct (ready_instances _ _ _ _ _ _) as [ry failed] eqn:Hready. injection Ha as Ha _.
  assert (Hry : ∀ w, w ∈ ch_writes (ry_change ry) → own d w).
  { intros w Hw. apply (ready_instances_writes _ _ _ _ _ _ Hready) in Hw as [Hw|(i & f & Hi & ->)];
      [by apply elem_of_change_new in Hw|].
    apply elem_of_instances_where in Hi as [(id & Hi) Hdep%String.eqb_eq]. by eapply own_update. }
  destruct failed as [reason|].
  { apply and_then_ok in Ha as (ch & Hfail & [= <-]). by apply (fail_with_own _ _ _ _ _ _ Hfail Hun). }
  destruct (ry_waiting ry) as [|w0 ws].
  { injection Ha as <-. intros w Hw. rewrite elem_of_event, elem_of_transition in Hw.
    destruct Hw as [Hw| ->]; [by apply Hry|]. apply own_status. by right; right. }
  case_match; [apply and_then_ok in Ha as (ch & Hfail & [= <-]); by apply (fail_with_own _ _ _ _ _ _ Hfail Hun)|].
  case_match; [done|]. by injection Ha as <-.
Qed.

Lemma network_own later d change :
  verify_network config node later d r = Ok (Some change) → unrouted (records c) (st_id r) →
  ∀ w, w ∈ ch_writes change → own later w.
Proof.
  unfold verify_network. intros Hv Hun. case_match.
  - injection Hv as <-. intros w Hw. rewrite elem_of_transition, elem_of_change_new in Hw.
    destruct Hw as [[] | ->]. apply own_status. by right; right.
  - case_match; [|done]. apply and_then_ok in Hv as (ch & Hfail & [= <-]). by eapply fail_own.
Qed.
End writes.
