(* ===== verification/ReleaseRoutes.v ===== *)
(** Moving the traffic of a project and taking projects away: what the commit of such a
    change makes of the records, and that it keeps the invariant. *)

From S2P Require Import Prelude Text Core Isolation Policy Admission Descriptor Matching Pool Placement State Auth Release ReleaseSteps ReleaseSystem ReleaseFacts ReleaseSafety.

(** ** The switch, and the return from it *)

Section route.
Context `{!Sha256Hex} (config : Config) (node : Node).

Lemma route_writes d target routed moved :
  route_to node change_new d target = Ok (routed, moved) →
  ∃ revision, revisions d !! dep_revision_id (st_value target) = Some revision ∧ ∀ w,
    w ∈ ch_writes routed ↔
    w = current_membership node d target ∨
    (∃ rw, rw ∈ rev_workloads revision ∧ w = current_workload d target rw) ∨
    (∃ e, workloads d !! fst e = Some (snd e) ∧ place_of (fst e) = dep_place (st_value target) ∧
          fst e ∉ workload_key (st_value target) <$> rev_workloads revision ∧ w ∈ delete_workload node e) ∨
    (∃ id i, instances d !! id = Some i ∧ inst_place (st_value i) = dep_place (st_value target) ∧
             turn_instance node (st_id target) i = Some w) ∨
    (∃ a, a ∈ assignments node d target revision ∧ w = put_assignment d a) ∨
    (∃ ep a, traffic d !! ep = Some a ∧ ta_place (st_value a) = dep_place (st_value target) ∧
             ep ∉ ta_endpoint <$> assignments node d target revision ∧ w = WTraffic ep (OpDelete a)).
Proof.
  unfold route_to. destruct (revisions d !! _) as [revision|]; [|done]. intros [= <- <-].
  exists revision. split; [done|]. intros w.
  rewrite !elem_of_change_all, elem_of_change_with, elem_of_change_new, list_elem_of_omap.
  rewrite !list_elem_of_fmap. split.
  - intros [[[[[[[]|Hw]|Hw]|Hw]|Hw]|Hw]|Hw].
    + by left.
    + right; left. destruct Hw as (rw & -> & Hrw). by eexists.
    + right; right; left. apply list_elem_of_In, in_concat in Hw as (l & Hl & Hw).
      apply list_elem_of_In, list_elem_of_fmap in Hl as ([k s] & -> & Hl). apply list_elem_of_In in Hw.
      apply list_elem_of_filter in Hl as [Hkept [Hs Hp]%elem_of_workloads_of]. by exists (k, s).
    + do 3 right; left. destruct Hw as (i & Hi & Hw).
      apply elem_of_instances_where in Hi as [(id & Hi) Hp%bool_decide_eq_true]. by eauto.
    + do 4 right; left. destruct Hw as (a & -> & Ha). by eexists.
    + do 5 right. destruct Hw as ([ep a] & -> & Ha).
      apply list_elem_of_filter in Ha as [[Hp Hep] Ha%elem_of_by_id]. by eauto 10.
  - intros [->|[(rw & Hrw & ->)|[([k s] & Hs & Hp & Hkept & Hw)|[(id & i & Hi & Hp & Hw)|[(a & Ha & ->)|(ep & a & Ha & Hp & Hep & ->)]]]]].
    + by do 5 left; right.
    + do 4 left; right. by eexists.
    + do 3 left; right. apply list_elem_of_In, in_concat. exists (delete_workload node (k, s)).
      split; [|by apply list_elem_of_In]. apply list_elem_of_In, list_elem_of_fmap. exists (k, s). split; [done|].
      apply list_elem_of_filter. split; [done|]. by apply elem_of_workloads_of.
    + do 2 left; right. exists i. split; [|done]. apply elem_of_instances_where. split; [by eauto|].
      by apply bool_decide_eq_true.
    + left; right. by eexists.
    + right. exists (ep, a). split; [done|]. apply list_elem_of_filter. split; [done|]. by apply elem_of_by_id.
Qed.

Context (c c' : Control) (d : Desired) (target r : Stored DeploymentRecord) (st : DeploymentStatus) (f : DeploymentFields).
Context (routed change : Change) (moved : list Moved) (revision : ProjectRevisionRecord).
Notation p := (dep_place (st_value target)).
Notation assigned := (assignments node d target revision).
Hypothesis Hgood : good (records c).
Hypothesis Hwithin : versions_within (next_version c) (records c).
Hypothesis Hcovers : covers p d (records c).
Hypothesis Hcopied : copied d c.
Hypothesis Hr : deployments (records c) !! st_id r = Some r.
Hypothesis Hflight : terminal r = false.
Hypothesis Hplace : dep_place (st_value r) = p.
Hypothesis Htarget : placed (records c) (st_id target) p.
Hypothesis Hrouted : ∀ w,
    w ∈ ch_writes routed ↔
    w = current_membership node d target ∨
    (∃ rw, rw ∈ rev_workloads revision ∧ w = current_workload d target rw) ∨
    (∃ e, workloads d !! fst e = Some (snd e) ∧ place_of (fst e) = p ∧
          fst e ∉ workload_key (st_value target) <$> rev_workloads revision ∧ w ∈ delete_workload node e) ∨
    (∃ id i, instances d !! id = Some i ∧ inst_place (st_value i) = p ∧
             turn_instance node (st_id target) i = Some w) ∨
    (∃ a, a ∈ assigned ∧ w = put_assignment d a) ∨
    (∃ ep a, traffic d !! ep = Some a ∧ ta_place (st_value a) = p ∧
             ep ∉ ta_endpoint <$> assigned ∧ w = WTraffic ep (OpDelete a)).
Hypothesis Hchange : ∀ w, w ∈ ch_writes change ↔ w ∈ ch_writes routed ∨
  w = WDeployment (st_id r) (OpUpdate r (merge_deployment st (node_now node) f)).
Hypothesis Hcommit : commit change c = Ok c'.
(** the status the release gets: it moved, or it is over and the target was *)
Hypothesis Hstatus :
  (st_id target = st_id r ∧ has_moved st = true ∧ is_Some (environments (records c) !! fst p)) ∨
  DeploymentStatus.is_terminal st = true.

(** The writes of each table. *)
Inductive routed_write : Write → Prop :=
| routed_membership op :
    (∀ s, op ≠ OpDelete s) →
    (∀ v, (∃ id, op = OpCreate id v) ∨ (∃ s, op = OpReplace s v) → mem_deployment_id v = Some (st_id target)) →
    (∀ s g, op ≠ OpUpdate s g) → fenced (next_version c) op → routed_write (WMembership p op)
| routed_workload k op :
    place_of k = p → (∀ s g, op ≠ OpUpdate s g) →
    (∀ v, (∃ id, op = OpCreate id v) ∨ (∃ s, op = OpReplace s v) →
          wl_deployment_id v = st_id target ∧ wl_ports v = routed_ports d (st_value target) k) →
    (∀ s, op = OpDelete s → k ∉ workload_key (st_value target) <$> rev_workloads revision) →
    fenced (next_version c) op → routed_write (WWorkload k op)
| routed_status id op : routed_write (WStatus id op)
| routed_instance id i g :
    instances d !! id = Some i → inst_place (st_value i) = p → if_state g ≠ inst_state (st_value i) →
    (inst_deployment_id (st_value i) = st_id target → if_state g = InstanceState.Serving) →
    if_state g = next_instance_state (st_id target) (st_value i) →
    routed_write (WInstance id (OpUpdate i (merge_instance (node_now node) g)))
| routed_assignment a op :
    a ∈ assigned → (∃ id, op = OpCreate id a) ∨ (∃ s, op = OpReplace s a) → fenced (next_version c) op →
    routed_write (WTraffic (ta_endpoint a) op)
| routed_unassigned ep a :
    traffic d !! ep = Some a → ep ∉ ta_endpoint <$> assigned → routed_write (WTraffic ep (OpDelete a))
| routed_release :
    routed_write (WDeployment (st_id r) (OpUpdate r (merge_deployment st (node_now node) f))).

Lemma workload_key_place record rw : place_of (workload_key record rw) = dep_place record.
Proof. done. Qed.

Lemma turn_instance_some i w :
  turn_instance node (st_id target) i = Some w →
  ∃ g, w = update_instance (node_now node) i g ∧ if_state g ≠ inst_state (st_value i) ∧
       (inst_deployment_id (st_value i) = st_id target → if_state g = InstanceState.Serving) ∧
       if_state g = next_instance_state (st_id target) (st_value i).
Proof.
  unfold turn_instance. case_bool_decide as Hnext; [done|]. intros [= <-].
  eexists. split; [done|].
  assert (Hstate : if_state (if bool_decide (next_instance_state (st_id target) (st_value i) = InstanceState.Stopped)
    then instance_stopped (next_instance_state (st_id target) (st_value i)) None (node_now node)
    else instance_to (next_instance_state (st_id target) (st_value i))) = next_instance_state (st_id target) (st_value i))
    by by case_bool_decide.
  rewrite Hstate. split; [done|]. split; [|done].
  intros Hid. unfold next_instance_state. by rewrite (proj2 (String.eqb_eq _ _) Hid).
Qed.

Lemma routed_writes w : w ∈ ch_writes change → routed_write w.
Proof.
  intros [Hw| ->]%Hchange; [|constructor]. pose proof (copied_within _ _ Hcopied) as Hd.
  apply Hrouted in Hw as [->|[(rw & Hrw & ->)|[([k s] & Hs & Hp & Hkept & Hw)|[(id & i & Hi & Hp & Hw)|[(a & Ha & ->)|(ep & a & Ha & Hp & Hep & ->)]]]]].
  - unfold current_membership. destruct (memberships d !! p) as [m|] eqn:Hm; apply routed_membership; try done.
    + intros v [(id & [= <-])|(s & [= <- <-])]; done.
    + by apply (within_memberships _ _ Hd p).
    + intros v [(id & [= <- <-])|(s & [= <-])]; done.
  - unfold current_workload. destruct (workloads d !! _) as [s|] eqn:Hs; apply routed_workload; try done.
    + intros v [(id & [= <-])|(s' & [= <- <-])]; done.
    + by eapply (within_workloads _ _ Hd).
    + intros v [(id & [= <- <-])|(s' & [= <-])]; done.
  - unfold delete_workload in Hw. apply elem_of_cons in Hw as [->|Hw].
    + simpl in *. apply routed_workload; try done.
      * intros v [(id & [= <-])|(s' & [=])].
      * by eapply (within_workloads _ _ Hd).
    + unfold delete_status in Hw. case_match; [|by apply elem_of_nil in Hw].
      apply list_elem_of_singleton in Hw as ->. constructor.
  - apply turn_instance_some in Hw as (g & -> & Hne & Hserve & Hnext). unfold update_instance.
    destruct (copied_instance _ _ Hcopied id i Hi) as [-> _]. by apply routed_instance.
  - unfold put_assignment. destruct (traffic d !! ta_endpoint a) as [s|] eqn:Hs; apply routed_assignment; try done.
    + right. by exists s.
    + by eapply (within_traffic _ _ Hd).
    + left. by eexists.
  - by apply routed_unassigned.
Qed.

Lemma routed_fenced : Forall (fenced_write (next_version c)) (ch_writes change).
Proof.
  apply Forall_forall. intros w Hw. pose proof (copied_within _ _ Hcopied) as Hd.
  destruct (routed_writes w Hw); simpl; try done.
  - by eapply (within_instances _ _ Hd).
  - by eapply (within_traffic _ _ Hd).
  - by eapply (within_deployments _ _ Hwithin).
Qed.

Ltac no_write := intros w op Hw; destruct (routed_writes w Hw); simpl; congruence.

Lemma routed_environments n : environments (records c') !! n = environments (records c) !! n.
Proof. apply (commit_untouched (T := environment_table) _ _ _ n Hcommit). no_write. Qed.
Lemma routed_memberships q : q ≠ p → memberships (records c') !! q = memberships (records c) !! q.
Proof. intros Hq. apply (commit_untouched (T := membership_table) _ _ _ q Hcommit). no_write. Qed.
Lemma routed_workloads k : place_of k ≠ p → workloads (records c') !! k = workloads (records c) !! k.
Proof. intros Hk. apply (commit_untouched (T := workload_table) _ _ _ k Hcommit). no_write. Qed.
Lemma routed_deployments id : id ≠ st_id r → deployments (records c') !! id = deployments (records c) !! id.
Proof. intros Hid. apply (commit_untouched (T := deployment_table) _ _ _ id Hcommit). no_write. Qed.

(** The target is the current deployment of its place. *)
Lemma routed_current : is_current (records c') p (st_id target).
Proof.
  assert (Hin : current_membership node d target ∈ ch_writes change) by (apply Hchange; left; apply Hrouted; by left).
  destruct (commit_record (T := membership_table) _ _ _ p Hcommit routed_fenced) as [[Hnil _]|[_ Hmade]].
  { exfalso. unfold current_membership in Hin.
    match type of Hin with WMembership _ ?op ∈ _ => assert (op ∈ ops_on (T := membership_table) p (ch_writes change)) as Hmem
      by (apply elem_of_ops_on; eexists; by split) end.
    rewrite Hnil in Hmem. by apply not_elem_of_nil in Hmem. }
  assert (Hops : ∀ op, op ∈ ops_on (T := membership_table) p (ch_writes change) →
    (∀ s, op ≠ OpDelete s) ∧ (∀ s g, op ≠ OpUpdate s g) ∧
    (∀ v, (∃ id, op = OpCreate id v) ∨ (∃ s, op = OpReplace s v) → mem_deployment_id v = Some (st_id target))).
  { intros op (w & Hw & Hsel)%elem_of_ops_on.
    destruct (routed_writes w Hw) as [op' Hd Hv Hu| | | | | |]; simpl in Hsel; by simplify_eq. }
  simpl in Hmade. destruct (memberships (records c') !! p) as [m|] eqn:Hm; inversion Hmade as [m' Hop|s r0 m' Hop|s r0 g m' Hop|s Hop]; subst.
  - exists m. split; [done|]. destruct (Hops _ Hop) as (_ & _ & Hv). apply Hv. by eauto.
  - exists m. split; [done|]. destruct (Hops _ Hop) as (_ & _ & Hv). apply Hv. by eauto.
  - destruct (Hops (OpUpdate s g)) as (_ & Hu & _); [rewrite Hop; by left|]. by destruct (Hu s g).
  - destruct (Hops _ Hop) as (Hd & _). by destruct (Hd s).
Qed.

Lemma routed_is_current q id : q ≠ p → is_current (records c) q id → is_current (records c') q id.
Proof. intros Hq (m & Hm & Hid). exists m. by rewrite routed_memberships. Qed.

(** The workloads of the place are the target's. *)
Lemma routed_workload_made k :
  place_of k = p →
  (ops_on (T := workload_table) k (ch_writes change) = [] ∧ k ∉ workload_key (st_value target) <$> rev_workloads revision ∧
   workloads (records c') !! k = None) ∨
  (workloads (records c') !! k = None ∧ k ∉ workload_key (st_value target) <$> rev_workloads revision) ∨
  (∃ w, workloads (records c') !! k = Some w ∧ wl_deployment_id (st_value w) = st_id target ∧
        wl_ports (st_value w) = routed_ports d (st_value target) k).
Proof.
  intros Hk.
  destruct (commit_record (T := workload_table) _ _ _ k Hcommit routed_fenced) as [[Hnil Heq]|[_ Hmade]].
  - left. simpl in Heq.
    assert (Hkept : k ∉ workload_key (st_value target) <$> rev_workloads revision).
    { intros (rw & -> & Hrw)%list_elem_of_fmap.
      assert (Hin : current_workload d target rw ∈ ch_writes change)
        by (apply Hchange; left; apply Hrouted; right; left; by eexists).
      unfold current_workload in Hin.
      match type of Hin with WWorkload ?k ?op ∈ _ => assert (op ∈ ops_on (T := workload_table) k (ch_writes change)) as Hmem
        by (apply elem_of_ops_on; eexists; by split) end.
      rewrite Hnil in Hmem. by apply not_elem_of_nil in Hmem. }
    split; [done|]. split; [done|]. rewrite Heq. destruct (workloads (records c) !! k) as [s|] eqn:Hs; [|done]. exfalso.
    assert (Hin : WWorkload k (OpDelete s) ∈ ch_writes change).
    { apply Hchange. left. apply Hrouted. right; right; left. exists (k, s). simpl.
      rewrite (covers_workload _ _ _ Hcovers k Hk). by repeat split; [..|left]. }
    assert (OpDelete s ∈ ops_on (T := workload_table) k (ch_writes change)) as Hmem
      by (apply elem_of_ops_on; eexists; by split).
    rewrite Hnil in Hmem. by apply not_elem_of_nil in Hmem.
  - assert (Hops : ∀ op, op ∈ ops_on (T := workload_table) k (ch_writes change) →
      (∀ s g, op ≠ OpUpdate s g) ∧
      (∀ v, (∃ id, op = OpCreate id v) ∨ (∃ s, op = OpReplace s v) →
            wl_deployment_id v = st_id target ∧ wl_ports v = routed_ports d (st_value target) k) ∧
      (∀ s, op = OpDelete s → k ∉ workload_key (st_value target) <$> rev_workloads revision)).
    { intros op (w & Hw & Hsel)%elem_of_ops_on.
      destruct (routed_writes w Hw) as [|k' op' Hk' Hu Hv Hd| | | | |]; simpl in Hsel; by simplify_eq. }
    right. simpl in Hmade.
    destruct (workloads (records c') !! k) as [w|] eqn:Hw;
      inversion Hmade as [w' Hop|s r0 w' Hop|s r0 g w' Hop|s Hop]; subst.
    + right. exists w. split; [done|]. destruct (Hops _ Hop) as (_ & Hv & _). apply Hv. by eauto.
    + right. exists w. split; [done|]. destruct (Hops _ Hop) as (_ & Hv & _). apply Hv. by eauto.
    + destruct (Hops (OpUpdate s g)) as (Hu & _); [rewrite Hop; by left|]. by destruct (Hu s g).
    + left. split; [done|]. destruct (Hops _ Hop) as (_ & _ & Hd). by eapply Hd.
Qed.

Lemma routed_workload_target k w :
  place_of k = p → workloads (records c') !! k = Some w → wl_deployment_id (st_value w) = st_id target.
Proof.
  intros Hk Hw. destruct (routed_workload_made k Hk) as [(_ & _ & ?)|[(? & _)|(w' & Hw' & Hdep & _)]]; congruence.
Qed.

Lemma routed_workload_kept rw :
  rw ∈ rev_workloads revision →
  ∃ w, workloads (records c') !! workload_key (st_value target) rw = Some w ∧
       wl_ports (st_value w) = routed_ports d (st_value target) (workload_key (st_value target) rw).
Proof.
  intros Hrw.
  assert (Hin : workload_key (st_value target) rw ∈ workload_key (st_value target) <$> rev_workloads revision)
    by (apply list_elem_of_fmap; by eexists).
  destruct (routed_workload_made (workload_key (st_value target) rw) eq_refl)
    as [(_ & ? & _)|[(_ & ?)|(w & Hw & _ & Hports)]]; [done..|by exists w].
Qed.

(** The release has its new status; other deployments are as they were. *)
Lemma routed_release_made :
  ∃ r', deployments (records c') !! st_id r = Some r' ∧ st_id r' = st_id r ∧
        st_value r' = merge_deployment st (node_now node) f (st_value r).
Proof.
  assert (Hin : WDeployment (st_id r) (OpUpdate r (merge_deployment st (node_now node) f)) ∈ ch_writes change)
    by (apply Hchange; by right).
  destruct (commit_record (T := deployment_table) _ _ _ (st_id r) Hcommit routed_fenced) as [[Hnil _]|[_ Hmade]].
  { exfalso. assert (OpUpdate r (merge_deployment st (node_now node) f) ∈
      ops_on (T := deployment_table) (st_id r) (ch_writes change)) as Hmem by (apply elem_of_ops_on; eexists; by split).
    rewrite Hnil in Hmem. by apply not_elem_of_nil in Hmem. }
  assert (Hops : ∀ op, op ∈ ops_on (T := deployment_table) (st_id r) (ch_writes change) →
    op = OpUpdate r (merge_deployment st (node_now node) f)).
  { intros op (w & Hw & Hsel)%elem_of_ops_on. destruct (routed_writes w Hw); simpl in Hsel; by simplify_eq. }
  simpl in Hmade. rewrite Hr in Hmade. destruct (deployments (records c') !! st_id r) as [r'|] eqn:Hr';
    inversion Hmade as [x Hop|s r0 x Hop|s r0 g x Hop Hx Hv Hid Hval|s Hop]; subst.
  - apply Hops in Hop. done.
  - apply Hops in Hop. done.
  - specialize (Hops (OpUpdate s g)). rewrite Hop in Hops. specialize (Hops (list_elem_of_here _ _)).
    injection Hops as -> ->. injection Hx as <-. by exists r'.
  - apply Hops in Hop. done.
Qed.

Lemma routed_deployment id x :
  deployments (records c') !! id = Some x →
  ∃ x0, deployments (records c) !! id = Some x0 ∧ st_id x = st_id x0 ∧
        dep_place (st_value x) = dep_place (st_value x0) ∧ dep_previous (st_value x) = dep_previous (st_value x0) ∧
        (terminal x = false → terminal x0 = false) ∧ (id ≠ st_id r → x = x0).
Proof.
  intros Hx. destruct (decide (id = st_id r)) as [->|Hne].
  - destruct routed_release_made as (r' & Hr' & Hid & Hval). assert (x = r') as -> by congruence.
    exists r. by rewrite Hval.
  - exists x. by rewrite <-(routed_deployments id Hne).
Qed.

Lemma routed_placed id q : placed (records c) id q → placed (records c') id q.
Proof.
  intros (x & Hx & <-). destruct (decide (id = st_id r)) as [->|Hne].
  - destruct routed_release_made as (r' & Hr' & Hid & Hval). exists r'. split; [done|].
    rewrite Hval. assert (x = r) as -> by congruence. done.
  - exists x. by rewrite routed_deployments.
Qed.

(** An instance keeps its identity, its place and its ports; only those of the place
    change state. *)
Lemma routed_instance_made id x :
  instances (records c') !! id = Some x →
  instances (records c) !! id = Some x ∨
  ∃ i g, instances (records c) !! id = Some i ∧ instances d !! id = Some i ∧ inst_place (st_value i) = p ∧
         st_id x = st_id i ∧ st_value x = merge_instance (node_now node) g (st_value i) ∧
         (inst_deployment_id (st_value i) = st_id target → if_state g = InstanceState.Serving) ∧
         if_state g = next_instance_state (st_id target) (st_value i).
Proof.
  intros Hx. apply (commit_made (T := instance_table) _ _ _ _ _ Hcommit routed_fenced) in Hx as [?|[Hby _]]; [by left|].
  right. destruct Hby as [w id' Hw Hsel|w s r0 Hw Hsel|w s g r0 Hw Hsel Hr0 Hv Hid Hval];
    destruct (routed_writes w Hw) as [| | |id0 i g0 Hi Hp Hne Hserve| | |]; simpl in Hsel; try congruence.
  injection Hsel as <- <- <-. simpl in Hr0. exists i, g0.
  destruct (covers_copied _ _ _ Hcovers id0 i Hi Hp) as (i' & Hi' & Hdr).
  assert (i' = r0) as -> by congruence. apply as_drained_version in Hdr as ->; [|done]. done.
Qed.

Lemma routed_instance_kept id i :
  instances (records c) !! id = Some i → inst_place (st_value i) ≠ p → instances (records c') !! id = Some i.
Proof.
  intros Hi Hp.
  destruct (commit_first (T := instance_table) _ _ _ id Hcommit) as [Heq|(w & op & y & Hw & Hsel & Hstep)];
    simpl in *; [congruence|]. exfalso.
  destruct (routed_writes w Hw) as [| | |id0 i0 g0 Hi0 Hp0 Hne Hserve| | |]; simpl in Hsel; try congruence.
  injection Hsel as <- <-. destruct (covers_copied _ _ _ Hcovers id0 i0 Hi0 Hp0) as (i' & Hi' & Hdr).
  apply Hp. assert (i' = i) as <- by congruence. rewrite inst_place_key.
  destruct (as_drained_key _ _ Hdr) as [-> _]. done.
Qed.

(** The target's instances serve. *)
Lemma routed_instance_serves id i :
  instances d !! id = Some i → inst_place (st_value i) = p → inst_deployment_id (st_value i) = st_id target →
  ∃ x, instances (records c') !! id = Some x ∧ inst_state (st_value x) = InstanceState.Serving ∧
       inst_deployment_id (st_value x) = st_id target ∧ instance_key (st_value x) = instance_key (st_value i) ∧
       inst_ports (st_value x) = inst_ports (st_value i).
Proof.
  intros Hi Hp Hdep. destruct (covers_copied _ _ _ Hcovers id i Hi Hp) as (i' & Hi' & Hdr).
  destruct (decide (inst_state (st_value i) = InstanceState.Serving)) as [Hs|Hs].
  - apply as_drained_serving in Hdr as ->; [|done]. exists i. split; [|done].
    destruct (commit_first (T := instance_table) _ _ _ id Hcommit) as [Heq|(w & op & y & Hw & Hsel & Hstep)];
      simpl in *; [congruence|]. exfalso.
    destruct (routed_writes w Hw) as [| | |id0 i0 g0 Hi0 Hp0 Hne Hserve| | |]; simpl in Hsel; try congruence.
    injection Hsel as <- <-. assert (i0 = i) as -> by congruence. apply Hne. rewrite Hs. by apply Hserve.
  - assert (Hnext : next_instance_state (st_id target) (st_value i) = InstanceState.Serving).
    { unfold next_instance_state. by rewrite (proj2 (String.eqb_eq _ _) Hdep). }
    assert (Hin : update_instance (node_now node) i (instance_to InstanceState.Serving) ∈ ch_writes change).
    { apply Hchange. left. apply Hrouted. do 3 right; left. exists id, i. split; [done|]. split; [done|].
      unfold turn_instance. rewrite Hnext. rewrite bool_decide_eq_false_2 by congruence. done. }
    destruct (copied_instance _ _ Hcopied id i Hi) as [Hid _].
    destruct (commit_record (T := instance_table) _ _ _ id Hcommit routed_fenced) as [[Hnil _]|[_ Hmade]].
    { exfalso. unfold update_instance in Hin.
      match type of Hin with WInstance _ ?op ∈ _ => assert (op ∈ ops_on (T := instance_table) id (ch_writes change)) as Hmem
        by (apply elem_of_ops_on; eexists; split; [done|by rewrite <-Hid]) end.
      rewrite Hnil in Hmem. by apply not_elem_of_nil in Hmem. }
    assert (Hops : ∀ op, op ∈ ops_on (T := instance_table) id (ch_writes change) →
      ∃ g, op = OpUpdate i (merge_instance (node_now node) g) ∧ if_state g = InstanceState.Serving).
    { intros op (w & Hw & Hsel)%elem_of_ops_on.
      destruct (routed_writes w Hw) as [| | |id0 i0 g0 Hi0 Hp0 Hne Hserve| | |]; simpl in Hsel; try congruence.
      injection Hsel as <- <-. assert (i0 = i) as -> by congruence. exists g0. by split; [|apply Hserve]. }
    simpl in Hmade. rewrite Hi' in Hmade. destruct (instances (records c') !! id) as [x|] eqn:Hx;
      inversion Hmade as [x' Hop|s r0 x' Hop|s r0 g x' Hop Hx0 Hv Hxid Hval|s Hop]; subst;
      try (apply Hops in Hop as (g0 & ? & _); done).
    destruct (Hops (OpUpdate s g)) as (g0 & [= -> ->] & Hg0); [rewrite Hop; by left|].
    injection Hx0 as ->. apply as_drained_version in Hdr as ->; [|done].
    exists x. rewrite Hval. by repeat split.
Qed.

(** An assignment of the target, field by field. *)
Lemma assigned_fields a :
  a ∈ assigned →
  ∃ rw b id i, rw ∈ rev_workloads revision ∧ instances d !! id = Some i ∧
    instance_key (st_value i) = workload_key (st_value target) rw ∧
    inst_deployment_id (st_value i) = st_id target ∧
    b ∈ routed_ports d (st_value target) (workload_key (st_value target) rw) ∧
    ta_key a = workload_key (st_value target) rw ∧ ta_deployment_id a = st_id target ∧ ta_instance_id a = st_id i ∧
    ta_port a = pb_name b ∧ ta_host_port a = pb_host b ∧ port_of (st_value i) (pb_name b) = Some (ta_target_port a).
Proof.
  unfold assignments. intros Ha. apply list_elem_of_In, in_concat in Ha as (l & Hl & Ha).
  apply list_elem_of_In, list_elem_of_fmap in Hl as ([k ports] & -> & Hk). apply list_elem_of_In in Ha.
  simpl in Ha. unfold service_endpoints in Hk.
  apply elem_of_sort_by, list_elem_of_fmap in Hk as (rw & [= -> ->] & [_ Hrw]%list_elem_of_filter).
  destruct (instance d (workload_key (st_value target) rw) (st_id target)) as [i|] eqn:Hi; [|by apply elem_of_nil in Ha].
  apply instance_some in Hi as ((id & Hi) & Hkey & Hdep).
  apply list_elem_of_omap in Ha as (b & Hb & Ha).
  unfold assign in Ha. apply bind_Some in Ha as (port & Hport & [= <-]).
  by exists rw, b, id, i.
Qed.

Lemma assigned_follows a : a ∈ assigned → follows (records c') a ∧ ta_place a = p.
Proof.
  intros (rw & b & id & i & Hrw & Hi & Hkey & Hdep & Hb & Hta & Htd & Hti & Htp & Hth & Hport)%assigned_fields.
  assert (Hp : ta_place a = p) by by rewrite ta_place_key, Hta.
  split; [|done]. split; [|split].
  - rewrite Hp, Htd. apply routed_current.
  - destruct (routed_instance_serves id i Hi) as (x & Hx & Hs & Hxd & Hxk & Hxp).
    { by rewrite inst_place_key, Hkey. }
    { done. }
    destruct (copied_instance _ _ Hcopied id i Hi) as [Hid _].
    exists x. rewrite Hti, Hid, Htd, Hta, Htp. split; [done|]. split; [done|]. split; [done|]. split; [congruence|].
    unfold port_of in *. by rewrite Hxp.
  - destruct (routed_workload_kept rw Hrw) as (w & Hw & Hports). exists w, b. rewrite Hta. split; [done|].
    by rewrite Hports.
Qed.

(** What traffic is left is assigned to the target, or of another place. *)
Lemma routed_traffic ep a :
  traffic (records c') !! ep = Some a →
  st_value a ∈ assigned ∨ (traffic (records c) !! ep = Some a ∧ ta_place (st_value a) ≠ p).
Proof.
  intros Ha.
  destruct (commit_record (T := traffic_table) _ _ _ ep Hcommit routed_fenced) as [[Hnil Heq]|[_ Hmade]];
    simpl in *.
  - right. rewrite Ha in Heq. split; [done|]. intros Hp.
    pose proof (covers_traffic _ _ _ Hcovers ep a (eq_sym Heq) Hp) as Hda.
    destruct (decide (ep ∈ ta_endpoint <$> assigned)) as [Hep|Hep].
    + apply list_elem_of_fmap in Hep as (a0 & -> & Ha0).
      assert (Hin : put_assignment d a0 ∈ ch_writes change)
        by (apply Hchange; left; apply Hrouted; do 4 right; left; by eexists).
      unfold put_assignment in Hin.
      match type of Hin with WTraffic _ ?op ∈ _ => assert (op ∈ ops_on (T := traffic_table) (ta_endpoint a0) (ch_writes change)) as Hmem
        by (apply elem_of_ops_on; eexists; by split) end.
      rewrite Hnil in Hmem. by apply not_elem_of_nil in Hmem.
    + assert (Hin : WTraffic ep (OpDelete a) ∈ ch_writes change)
        by (apply Hchange; left; apply Hrouted; do 5 right; by exists ep, a).
      assert (OpDelete a ∈ ops_on (T := traffic_table) ep (ch_writes change)) as Hmem
        by (apply elem_of_ops_on; eexists; by split).
      rewrite Hnil in Hmem. by apply not_elem_of_nil in Hmem.
  - left. rewrite Ha in Hmade.
    assert (Hops : ∀ op, op ∈ ops_on (T := traffic_table) ep (ch_writes change) →
      (∀ s g, op ≠ OpUpdate s g) ∧ (∀ v, (∃ id, op = OpCreate id v) ∨ (∃ s, op = OpReplace s v) → v ∈ assigned)).
    { intros op (w & Hw & Hsel)%elem_of_ops_on.
      destruct (routed_writes w Hw) as [| | | |a0 op' Ha0 Hop' Hf|ep0 a0 Ha0 Hep0|]; simpl in Hsel; try congruence.
      - injection Hsel as <- <-. destruct Hop' as [(id & ->)|(s & ->)]; split; naive_solver.
      - injection Hsel as <- <-. split; naive_solver. }
    inversion Hmade as [a' Hop|s r0 a' Hop|s r0 g a' Hop|]; subst.
    + apply Hops in Hop as [_ Hv]. apply Hv. by eauto.
    + apply Hops in Hop as [_ Hv]. apply Hv. by eauto.
    + destruct (Hops (OpUpdate s g)) as [Hu _]; [rewrite Hop; by left|]. by destruct (Hu s g).
Qed.

(** Every assignment of the target is there. *)
Lemma routed_assigned a :
  a ∈ assigned → ∃ s, traffic (records c') !! ta_endpoint a = Some s ∧ st_value s = a.
Proof.
  intros Ha.
  assert (Hin : put_assignment d a ∈ ch_writes change)
    by (apply Hchange; left; apply Hrouted; do 4 right; left; by eexists).
  assert (Hone : length (ops_on (T := traffic_table) (ta_endpoint a) (ch_writes change)) ≤ 1).
  { eapply (single_writes (T := traffic_table)); [done|apply routed_fenced|]. intros w s Hw Hsel.
    destruct (routed_writes w Hw) as [| | | |a0 op Ha0 Hop _|ep0 a0 _ Hep0|]; simpl in Hsel; simplify_eq.
    - destruct Hop as [(? & ?)|(? & ?)]; congruence.
    - apply Hep0, list_elem_of_fmap. by exists a. }
  unfold put_assignment in Hin.
  match type of Hin with WTraffic _ ?op ∈ _ =>
    pose proof (single_op (T := traffic_table) _ _ op _ Hone Hin eq_refl) as Hops end.
  destruct (commit_record (T := traffic_table) _ _ _ (ta_endpoint a) Hcommit routed_fenced) as [[Hnil _]|[_ Hmade]];
    [congruence|].
  rewrite Hops in Hmade. simpl in Hmade. destruct (traffic (records c') !! ta_endpoint a) as [s|].
  - exists s. split; [done|].
    inversion Hmade as [s' Hop|s0 r0 s' Hop|s0 r0 g s' Hop|]; subst;
      try apply list_elem_of_singleton in Hop; destruct (traffic d !! ta_endpoint a);
      rewrite ?list_elem_of_singleton in Hop; congruence.
  - exfalso. inversion Hmade as [| | |s0 Hop]; subst. apply list_elem_of_singleton in Hop.
    by destruct (traffic d !! ta_endpoint a).
Qed.

(** Of the instances of the place only the target's serve. *)
Lemma routed_serving id x :
  instances (records c') !! id = Some x → inst_place (st_value x) = p →
  inst_state (st_value x) = InstanceState.Serving → inst_deployment_id (st_value x) = st_id target.
Proof.
  intros Hx Hp Hs. destruct (decide (inst_deployment_id (st_value x) = st_id target)) as [|Hne]; [done|exfalso].
  pose proof Hx as [Hold|(i & g & _ & _ & _ & _ & Hval & _ & Hnext)]%routed_instance_made.
  - destruct (covers_instance _ _ _ Hcovers id x Hold Hp) as (i0 & Hi0 & [<-|(_ & Hstopped & _)]); [|congruence].
    assert (Hin : update_instance (node_now node) x (instance_to InstanceState.Draining) ∈ ch_writes change).
    { apply Hchange. left. apply Hrouted. do 3 right; left. exists id, x. split; [done|]. split; [done|].
      unfold turn_instance, next_instance_state. rewrite (proj2 (String.eqb_neq _ _) Hne), Hs. done. }
    destruct (copied_instance _ _ Hcopied id x Hi0) as [Hid _]. unfold update_instance in Hin. rewrite Hid in Hin.
    destruct (commit_record (T := instance_table) _ _ _ id Hcommit routed_fenced) as [[Hnil _]|[_ Hmade]].
    + match type of Hin with WInstance _ ?op ∈ _ => assert (op ∈ ops_on (T := instance_table) id (ch_writes change)) as Hmem
        by (apply elem_of_ops_on; eexists; by split) end.
      rewrite Hnil in Hmem. by apply not_elem_of_nil in Hmem.
    + simpl in Hmade. rewrite Hx in Hmade. apply made_version in Hmade.
      pose proof (within_instances _ _ Hwithin id x Hold). lia.
  - rewrite Hval in Hs, Hne. simpl in Hs, Hne. rewrite Hnext in Hs. unfold next_instance_state in Hs.
    rewrite (proj2 (String.eqb_neq _ _) Hne) in Hs. by destruct (inst_state (st_value i)).
Qed.

Lemma routed_alone : serves_alone (records c') p (st_id target).
Proof.
  constructor.
  - apply routed_current.
  - intros k w Hw Hk. by eapply routed_workload_target.
  - intros ep a Ha Hp. apply routed_traffic in Ha as [Ha|[_ ?]]; [|done].
    by apply assigned_fields in Ha as (rw & b & id & i & _ & _ & _ & _ & _ & _ & Htd & _).
  - intros id x Hx Hp. split; [by apply (routed_serving id)|]. intros Hdep.
    assert (∃ i, instances (records c) !! id = Some i ∧ inst_place (st_value i) = p ∧
                 inst_deployment_id (st_value i) = st_id target) as (i & Hi & Hpi & Hdi).
    { pose proof Hx as [Hold|(i & g & Hi & _ & Hpi & _ & Hval & _)]%routed_instance_made; [by exists x|].
      exists i. by rewrite Hval in Hdep. }
    destruct (covers_instance _ _ _ Hcovers id i Hi Hpi) as (i0 & Hi0 & Hdr).
    destruct (as_drained_key _ _ Hdr) as [Hkey Hdi0].
    destruct (routed_instance_serves id i0 Hi0) as (x' & Hx' & Hs & _).
    { rewrite inst_place_key, <-Hkey. by rewrite <-inst_place_key. }
    { congruence. }
    congruence.
Qed.

(** What is assigned: every endpoint of a service whose instance has the port. *)
Lemma elem_of_assigned rw i b port :
  rw ∈ rev_workloads revision → rw_kind rw = KindService →
  instance d (workload_key (st_value target) rw) (st_id target) = Some i →
  b ∈ routed_ports d (st_value target) (workload_key (st_value target) rw) →
  port_of (st_value i) (pb_name b) = Some port →
  ∃ a, a ∈ assigned ∧ ta_key a = workload_key (st_value target) rw ∧ ta_port a = pb_name b ∧
       ta_endpoint a = endpoint_of (dep_environment (st_value target)) (dep_project (st_value target)) (rw_name rw) (pb_name b) ∧
       ta_instance_id a = st_id i ∧ ta_target_port a = port ∧ ta_host_port a = pb_host b.
Proof.
  intros Hrw Hk Hi Hb Hport. unfold assignments.
  destruct (assign node d target (workload_key (st_value target) rw) i b) as [a|] eqn:Ha;
    [|unfold assign in Ha; by rewrite Hport in Ha].
  exists a. split.
  - apply list_elem_of_In, in_concat. eexists. split.
    + apply list_elem_of_In, list_elem_of_fmap. eexists. split; [reflexivity|]. unfold service_endpoints.
      apply elem_of_sort_by, list_elem_of_fmap. exists rw. split; [reflexivity|]. by apply list_elem_of_filter.
    + apply list_elem_of_In. simpl. rewrite Hi. apply list_elem_of_omap. by exists b.
  - unfold assign in Ha. rewrite Hport in Ha. by injection Ha as <-.
Qed.

Lemma routed_good : good (records c').
Proof.
  constructor.
  - intros id x Hx. apply routed_deployment in Hx as (x0 & Hx0 & -> & _). by apply (good_deployment _ Hgood).
  - intros id x Hx. apply routed_instance_made in Hx as [Hx|(i & g & Hi & _ & _ & Hid & Hval & _)].
    + destruct (good_instance _ Hgood id x Hx) as [? ?]. split; [done|]. by apply routed_placed.
    + destruct (good_instance _ Hgood id i Hi) as [? ?]. split; [congruence|]. rewrite Hval. by apply routed_placed.
  - intros q m id Hm Hid. apply routed_placed. destruct (decide (q = p)) as [->|Hq].
    + destruct routed_current as (m' & Hm' & Hid'). assert (id = st_id target) as -> by congruence. done.
    + rewrite routed_memberships in Hm by done. by eapply good_member.
  - intros k w Hw. destruct (decide (place_of k = p)) as [Hk|Hk].
    + rewrite (routed_workload_target k w Hk Hw), Hk. apply routed_current.
    + rewrite routed_workloads in Hw by done. apply routed_is_current; [done|]. by apply (good_workload _ Hgood).
  - intros id x id' Hx Hprev. apply routed_deployment in Hx as (x0 & Hx0 & _ & -> & Hp & _).
    apply routed_placed. apply (good_previous _ Hgood id x0); congruence.
  - intros id id' x x' Hx Hx' T1 T2 Hp. apply routed_deployment in Hx as (x0 & Hx & _ & Hp1 & _ & T1' & _).
    apply routed_deployment in Hx' as (x0' & Hx' & _ & Hp2 & _ & T2' & _).
    eapply (good_one _ Hgood); try done; [by apply T1'|by apply T2'|congruence].
  - intros ep a Ha. apply routed_traffic in Ha as [Ha|[Ha Hp]]; [by apply assigned_follows|].
    destruct (good_traffic _ Hgood ep a Ha) as (Hcur & (i & Hi & Hi') & (w & b & Hw & Hb)). split; [|split].
    + by apply routed_is_current.
    + exists i. split; [|done]. apply routed_instance_kept; [done|]. rewrite inst_place_key.
      destruct Hi' as (_ & _ & -> & _). by rewrite <-ta_place_key.
    + exists w, b. by rewrite routed_workloads by (by rewrite <-ta_place_key).
  - intros ep a x Ha Hx Hterm. rewrite routed_environments. apply routed_traffic in Ha as [Ha|[Ha Hp]].
    + destruct (assigned_follows _ Ha) as [_ Hp].
      apply assigned_fields in Ha as (rw & b & id & i & _ & _ & _ & _ & _ & Hta & Htd & _).
      rewrite Htd in Hx. destruct routed_release_made as (r' & Hr' & _ & Hval).
      destruct (decide (st_id target = st_id r)) as [Heq|Hne].
      * rewrite Heq in Hx. assert (x = r') as -> by congruence. unfold terminal in Hterm. rewrite Hval in Hterm |- *.
        simpl in *. destruct Hstatus as [(_ & Hm & Henv)|Hover]; [|congruence]. split; [done|].
        change (ta_environment (st_value a)) with (fst (ta_place (st_value a))). by rewrite Hp.
      * exfalso. rewrite routed_deployments in Hx by done. apply Hne.
        destruct Htarget as (x0 & Hx0 & Hp0). assert (x0 = x) as -> by congruence.
        eapply (good_one _ Hgood); try done. congruence.
    + apply routed_deployment in Hx as (x0 & Hx0 & _ & _ & _ & Hterm' & Hsame).
      destruct (good_moved _ Hgood ep a x0 Ha Hx0 (Hterm' Hterm)) as [Hm Henv]. split; [|done].
      rewrite Hsame; [done|]. intros Heq. apply Hp.
      rewrite <-Hplace. eapply placed_inj; [by eapply traffic_placed|]. rewrite Heq. by exists r.
Qed.

Lemma routed_covers q d' : q ≠ p → covers q d' (records c) → covers q d' (records c').
Proof.
  intros Hq Hd'. constructor.
  - by rewrite routed_environments, (covers_environment _ _ _ Hd').
  - by rewrite routed_memberships, (covers_membership _ _ _ Hd').
  - intros k Hk. rewrite routed_workloads by congruence. by apply (covers_workload _ _ _ Hd').
  - intros ep a Ha Hpl. apply routed_traffic in Ha as [Ha|[Ha _]]; [|by apply (covers_traffic _ _ _ Hd')].
    destruct (assigned_follows _ Ha) as [_ Hp]. congruence.
  - intros id x Hx Hpl. apply routed_instance_made in Hx as [Hx|(i & g & Hi & _ & Hp & _ & Hval & _)].
    + by apply (covers_instance _ _ _ Hd').
    + exfalso. apply Hq. rewrite <-Hpl, Hval. done.
  - intros id i0 Hi0 Hpl. destruct (covers_copied _ _ _ Hd' id i0 Hi0 Hpl) as (i & Hi & Hdr).
    exists i. split; [|done]. apply routed_instance_kept; [done|].
    rewrite inst_place_key. destruct (as_drained_key _ _ Hdr) as [-> _]. rewrite <-inst_place_key. congruence.
Qed.
End route.

(** ** Taking places away

    Removing a project, destroying an environment, rolling back a first release. *)

Section clear.
Context (c c' : Control) (d : Desired) (now : Z) (P : Place → Prop).
Context (change : Change).

Inductive clear_write : Write → Prop :=
| clear_environment n k e :
    environments d !! k = Some e → (∀ q, fst q = n → P q) → clear_write (WEnvironment n (OpDelete e))
| clear_membership q m : memberships d !! q = Some m → P q → clear_write (WMembership q (OpDelete m))
| clear_workload k w : workloads d !! k = Some w → P (place_of k) → clear_write (WWorkload k (OpDelete w))
| clear_status id op : clear_write (WStatus id op)
| clear_instance id i :
    instances d !! id = Some i → P (inst_place (st_value i)) → clear_write (WInstance (st_id i) (OpDelete i))
| clear_failed id i g :
    instances d !! id = Some i → P (inst_place (st_value i)) → clear_write (update_instance now i g)
| clear_traffic ep a : traffic d !! ep = Some a → P (ta_place (st_value a)) → clear_write (WTraffic ep (OpDelete a))
| clear_release r st f :
    deployments (records c) !! st_id r = Some r → P (dep_place (st_value r)) → DeploymentStatus.is_terminal st = true →
    clear_write (WDeployment (st_id r) (OpUpdate r (merge_deployment st now f))).

Hypothesis Hgood : good (records c).
Hypothesis Hwithin : versions_within (next_version c) (records c).
Hypothesis Hcovers : ∀ q, P q → covers q d (records c).
Hypothesis Hcopied : copied d c.
Hypothesis Hclear : ∀ w, w ∈ ch_writes change → clear_write w.
Hypothesis Hall_traffic : ∀ ep a, traffic d !! ep = Some a → P (ta_place (st_value a)) →
  WTraffic ep (OpDelete a) ∈ ch_writes change.
Hypothesis Hall_workloads : ∀ k w, workloads d !! k = Some w → P (place_of k) →
  WWorkload k (OpDelete w) ∈ ch_writes change.
Hypothesis Hcommit : commit change c = Ok c'.

Lemma clear_fenced : Forall (fenced_write (next_version c)) (ch_writes change).
Proof.
  apply Forall_forall. intros w Hw. pose proof (copied_within _ _ Hcopied) as Hd.
  destruct (Hclear w Hw); simpl; try done.
  - by eapply (within_environments _ _ Hd).
  - by eapply (within_memberships _ _ Hd).
  - by eapply (within_workloads _ _ Hd).
  - by eapply (within_instances _ _ Hd).
  - by eapply (within_instances _ _ Hd).
  - by eapply (within_traffic _ _ Hd).
  - by apply (within_deployments _ _ Hwithin (st_id r)).
Qed.

(** A record that only deletions touch is as it was, where it is left. *)
Lemma clear_left K A `{T : Table K A} k x :
  (∀ w op, clear_write w → tsel w = Some (k, op) → ∃ s, op = OpDelete s) →
  tget (records c') !! k = Some x → tget (records c) !! k = Some x.
Proof.
  intros Hdel Hx. apply (commit_made _ _ _ _ _ Hcommit clear_fenced) in Hx as [?|[Hby _]]; [done|].
  destruct Hby as [w id Hw Hsel|w s r0 Hw Hsel|w s g r0 Hw Hsel];
    destruct (Hdel w _ (Hclear w Hw) Hsel) as (s' & ?); congruence.
Qed.

Ltac only_deletes :=
  let w' := fresh in intros w' op Hw Hsel; destruct Hw; simpl in Hsel; simplify_eq; by eexists.

Lemma clear_membership_left q m : memberships (records c') !! q = Some m → memberships (records c) !! q = Some m.
Proof. apply (clear_left _ _ (T := membership_table)). only_deletes. Qed.
Lemma clear_workload_left k w : workloads (records c') !! k = Some w → workloads (records c) !! k = Some w.
Proof. apply (clear_left _ _ (T := workload_table)). only_deletes. Qed.
Lemma clear_traffic_left ep a : traffic (records c') !! ep = Some a → traffic (records c) !! ep = Some a.
Proof. apply (clear_left _ _ (T := traffic_table)). only_deletes. Qed.

(** Nothing of the places is left. *)
Lemma clear_traffic_gone ep a : traffic (records c') !! ep = Some a → ¬ P (ta_place (st_value a)).
Proof.
  intros Ha HP. pose proof (clear_traffic_left _ _ Ha) as Hc.
  pose proof (covers_traffic _ _ _ (Hcovers _ HP) ep a Hc eq_refl) as Hd.
  pose proof (Hall_traffic ep a Hd HP) as Hin.
  destruct (commit_record (T := traffic_table) _ _ _ ep Hcommit clear_fenced) as [[Hnil _]|[_ Hmade]].
  - assert (OpDelete a ∈ ops_on (T := traffic_table) ep (ch_writes change)) as Hmem
      by (apply elem_of_ops_on; eexists; by split).
    rewrite Hnil in Hmem. by apply not_elem_of_nil in Hmem.
  - simpl in Hmade. rewrite Ha in Hmade. apply made_version in Hmade.
    pose proof (within_traffic _ _ Hwithin ep a Hc). lia.
Qed.

Lemma clear_workload_gone k w : workloads (records c') !! k = Some w → ¬ P (place_of k).
Proof.
  intros Hw HP. pose proof (clear_workload_left _ _ Hw) as Hc.
  assert (Hd : workloads d !! k = Some w) by by rewrite (covers_workload _ _ _ (Hcovers _ HP) k eq_refl).
  pose proof (Hall_workloads k w Hd HP) as Hin.
  destruct (commit_record (T := workload_table) _ _ _ k Hcommit clear_fenced) as [[Hnil _]|[_ Hmade]].
  - assert (OpDelete w ∈ ops_on (T := workload_table) k (ch_writes change)) as Hmem
      by (apply elem_of_ops_on; eexists; by split).
    rewrite Hnil in Hmem. by apply not_elem_of_nil in Hmem.
  - simpl in Hmade. rewrite Hw in Hmade. apply made_version in Hmade.
    pose proof (within_workloads _ _ Hwithin k w Hc). lia.
Qed.

Lemma clear_memberships q : ¬ P q → memberships (records c') !! q = memberships (records c) !! q.
Proof.
  intros Hq. apply (commit_untouched (T := membership_table) _ _ _ q Hcommit).
  intros w op Hw Hsel. destruct (Hclear w Hw); simpl in Hsel; simplify_eq. done.
Qed.
Lemma clear_workloads k : ¬ P (place_of k) → workloads (records c') !! k = workloads (records c) !! k.
Proof.
  intros Hk. apply (commit_untouched (T := workload_table) _ _ _ k Hcommit).
  intros w op Hw Hsel. destruct (Hclear w Hw); simpl in Hsel; simplify_eq. done.
Qed.
Lemma clear_environments q : ¬ P q → environments (records c') !! fst q = environments (records c) !! fst q.
Proof.
  intros Hq. apply (commit_untouched (T := environment_table) _ _ _ _ Hcommit).
  intros w op Hw Hsel. destruct (Hclear w Hw); simpl in Hsel; simplify_eq. naive_solver.
Qed.

Lemma clear_deployment id x :
  deployments (records c') !! id = Some x →
  ∃ x0, deployments (records c) !! id = Some x0 ∧ st_id x = st_id x0 ∧
        dep_place (st_value x) = dep_place (st_value x0) ∧ dep_previous (st_value x) = dep_previous (st_value x0) ∧
        (terminal x = false → x = x0).
Proof.
  intros Hx. apply (commit_made (T := deployment_table) _ _ _ _ _ Hcommit clear_fenced) in Hx as [Hx|[Hby _]].
  { by exists x. }
  destruct Hby as [w id' Hw Hsel|w s r0 Hw Hsel|w s g r0 Hw Hsel Hr0 Hv Hid Hval];
    destruct (Hclear w Hw) as [| | | | | | |r st f Hr HP Hst]; simpl in Hsel; try congruence.
  injection Hsel as <- <- <-. simpl in Hr0. assert (r0 = r) as -> by congruence. exists r.
  unfold terminal. rewrite Hval. simpl. repeat split; try done. congruence.
Qed.

Lemma clear_placed id q : placed (records c) id q → placed (records c') id q.
Proof.
  intros (x & Hx & <-). destruct (deployments (records c') !! id) as [x'|] eqn:Hx'.
  - exists x'. split; [done|]. apply clear_deployment in Hx' as (x0 & Hx0 & _ & -> & _). congruence.
  - exfalso. destruct (commit_record (T := deployment_table) _ _ _ id Hcommit clear_fenced) as [[_ Heq]|[_ Hmade]];
      simpl in *; [congruence|].
    rewrite Hx' in Hmade. inversion Hmade as [| | |s Hin]. apply elem_of_ops_on in Hin as (w & Hw & Hsel).
    destruct (Hclear w Hw); simpl in Hsel; congruence.
Qed.

Lemma clear_deployments id x :
  deployments (records c) !! id = Some x → ¬ P (dep_place (st_value x)) → deployments (records c') !! id = Some x.
Proof.
  intros Hx HP. rewrite <-Hx. apply (commit_untouched (T := deployment_table) _ _ _ id Hcommit).
  intros w op Hw Hsel. destruct (Hclear w Hw) as [| | | | | | |r st f Hr HPr _]; simpl in Hsel; simplify_eq.
  naive_solver.
Qed.

Lemma clear_instance_left id x :
  instances (records c') !! id = Some x →
  ∃ i, instances (records c) !! id = Some i ∧ st_id x = st_id i ∧
       instance_key (st_value x) = instance_key (st_value i) ∧
       inst_deployment_id (st_value x) = inst_deployment_id (st_value i) ∧
       (¬ P (inst_place (st_value i)) → x = i).
Proof.
  intros Hx. apply (commit_made (T := instance_table) _ _ _ _ _ Hcommit clear_fenced) in Hx as [Hx|[Hby _]].
  { by exists x. }
  destruct Hby as [w id' Hw Hsel|w s r0 Hw Hsel|w s g r0 Hw Hsel Hr0 Hv Hid Hval];
    destruct (Hclear w Hw) as [| | | | |id0 i g0 Hi HP| |]; simpl in Hsel; try congruence.
  injection Hsel as <- <- <-. simpl in Hr0. exists r0. rewrite Hval. repeat split; try done.
  intros HnP. destruct HnP. destruct (copied_instance _ _ Hcopied id0 i Hi) as [Hid0 _]. rewrite Hid0 in *.
  destruct (covers_copied _ _ _ (Hcovers _ HP) id0 i Hi eq_refl) as (i' & Hi' & Hdr).
  assert (i' = r0) as -> by congruence. by apply as_drained_version in Hdr as ->.
Qed.

Lemma clear_instance_kept id i :
  instances (records c) !! id = Some i → ¬ P (inst_place (st_value i)) → instances (records c') !! id = Some i.
Proof.
  intros Hi HP.
  destruct (commit_first (T := instance_table) _ _ _ id Hcommit) as [Heq|(w & op & y & Hw & Hsel & Hstep)];
    simpl in *; [congruence|]. exfalso.
  destruct (Hclear w Hw) as [| | | |id0 i0 Hi0 HP0|id0 i0 g Hi0 HP0| |]; simpl in Hsel; try congruence;
    (injection Hsel as <- <-; destruct (copied_instance _ _ Hcopied id0 i0 Hi0) as [Hid _]; rewrite Hid in *;
     destruct (covers_copied _ _ _ (Hcovers _ HP0) id0 i0 Hi0 eq_refl) as (i' & Hi' & Hdr);
     assert (i' = i) as -> by congruence; apply HP; rewrite inst_place_key;
     destruct (as_drained_key _ _ Hdr) as [-> _]; by rewrite <-inst_place_key).
Qed.

Lemma clear_is_current q id : ¬ P q → is_current (records c) q id → is_current (records c') q id.
Proof. intros Hq (m & Hm & Hid). exists m. by rewrite clear_memberships. Qed.

Lemma clear_good : good (records c').
Proof.
  constructor.
  - intros id x Hx. apply clear_deployment in Hx as (x0 & Hx0 & -> & _). by apply (good_deployment _ Hgood).
  - intros id x Hx. apply clear_instance_left in Hx as (i & Hi & -> & Hkey & -> & _).
    destruct (good_instance _ Hgood id i Hi) as [? ?]. split; [done|]. apply clear_placed.
    rewrite inst_place_key, Hkey. by rewrite <-inst_place_key.
  - intros q m id Hm Hid. apply clear_placed. apply clear_membership_left in Hm. by eapply good_member.
  - intros k w Hw. pose proof (clear_workload_gone _ _ Hw). apply clear_workload_left in Hw.
    apply clear_is_current; [done|]. by apply (good_workload _ Hgood).
  - intros id x id' Hx Hprev. apply clear_deployment in Hx as (x0 & Hx0 & _ & -> & Hp & _).
    apply clear_placed. apply (good_previous _ Hgood id x0); congruence.
  - intros id id' x x' Hx Hx' T1 T2 Hp. apply clear_deployment in Hx as (x0 & Hx & _ & _ & _ & T1').
    apply clear_deployment in Hx' as (x0' & Hx' & _ & _ & _ & T2'). specialize (T1' T1). specialize (T2' T2). subst.
    by eapply (good_one _ Hgood).
  - intros ep a Ha. pose proof (clear_traffic_gone _ _ Ha) as HP. apply clear_traffic_left in Ha.
    destruct (good_traffic _ Hgood ep a Ha) as (Hcur & (i & Hi & Hi') & (w & b & Hw & Hb)). split; [|split].
    + by apply clear_is_current.
    + exists i. split; [|done]. apply clear_instance_kept; [done|]. rewrite inst_place_key.
      destruct Hi' as (_ & _ & -> & _). by rewrite <-ta_place_key.
    + exists w, b. by rewrite clear_workloads by (by rewrite <-ta_place_key).
  - intros ep a x Ha Hx Hterm. pose proof (clear_traffic_gone _ _ Ha) as HP. apply clear_traffic_left in Ha.
    apply clear_deployment in Hx as (x0 & Hx0 & _ & _ & _ & Hsame). specialize (Hsame Hterm). subst.
    pose proof (clear_environments _ HP) as Henv. simpl in Henv. rewrite Henv. by apply (good_moved _ Hgood ep a x0).
Qed.

Lemma clear_covers q d' : ¬ P q → covers q d' (records c) → covers q d' (records c').
Proof.
  intros Hq Hd'. constructor.
  - by rewrite clear_environments, (covers_environment _ _ _ Hd').
  - by rewrite clear_memberships, (covers_membership _ _ _ Hd').
  - intros k Hk. rewrite clear_workloads by congruence. by apply (covers_workload _ _ _ Hd').
  - intros ep a Ha. apply clear_traffic_left in Ha. by apply (covers_traffic _ _ _ Hd').
  - intros id x Hx Hpl. apply clear_instance_left in Hx as (i & Hi & _ & Hkey & _ & Hsame).
    assert (Hpi : inst_place (st_value i) = q) by (rewrite <-Hpl, !inst_place_key; congruence).
    rewrite Hsame by congruence. by apply (covers_instance _ _ _ Hd').
  - intros id i0 Hi0 Hpl. destruct (covers_copied _ _ _ Hd' id i0 Hi0 Hpl) as (i & Hi & Hdr).
    exists i. split; [|done]. apply clear_instance_kept; [done|].
    rewrite inst_place_key. destruct (as_drained_key _ _ Hdr) as [-> _]. rewrite <-inst_place_key. congruence.
Qed.
End clear.
