(* ===== verification/ReleaseRounds.v ===== *)
(** Rounds and operations keep the invariant of releases: adoption, draining, the
    changes operators make; every reachable state is [sound]. *)

From S2P Require Import Prelude Text Core Isolation Policy Admission Descriptor Matching Pool Placement State Auth Release ReleaseSteps ReleaseSystem ReleaseFacts ReleaseSafety ReleaseRoutes.

(** ** Adoption *)

Section adopt.
Context `{!Sha256Hex} (config : Config) (node : Node).
Context (c c' : Control).
Notation d := (working_copy c).
Notation releasing := ((λ s, dep_place (st_value s)) <$> in_flight d).
Hypothesis Hgood : good (records c).
Hypothesis Hwithin : versions_within (next_version c) (records c).
Hypothesis Hcommit : commit (adopt_services config node d) c = Ok c'.

(** A workload that is adopted, with the ports its instance gets. *)
Definition adopts (k : Key) (s : Stored WorkloadRecord) (ports : list PortBinding) : Prop :=
  workloads (records c) !! k = Some s ∧ adoptable d releasing (k, s) = true ∧
  pb_name <$> ports = pb_name <$> wl_ports (st_value s) ∧
  adopt_workload node d (k, s) ports ⊆+ ch_writes (adopt_services config node d).

Lemma adopt_ports_names bs used ports used' :
  adopt_ports config node bs used = Some (ports, used') → pb_name <$> ports = pb_name <$> bs.
Proof.
  revert used ports used'. induction bs as [|b bs IH]; intros used ports used' Ha; simpl in Ha; [by injection Ha as <- <-|].
  destruct (free_port _ _ _ _) as [port|]; [|done].
  apply bind_Some in Ha as ([ports' used''] & Hrest & Ha). injection Ha as <- <-. simpl. f_equal. by eapply IH.
Qed.

Lemma adopt_workloads_writes es used ws :
  adopt_workloads config node d es used = Some ws →
  ∀ w, w ∈ ws → ∃ e ports, e ∈ es ∧ pb_name <$> ports = pb_name <$> wl_ports (st_value (snd e)) ∧
    w ∈ adopt_workload node d e ports ∧ adopt_workload node d e ports ⊆+ ws.
Proof.
  revert used ws. induction es as [|e es IH]; intros used ws Ha w Hw; simpl in Ha.
  { injection Ha as <-. by apply elem_of_nil in Hw. }
  apply bind_Some in Ha as ([ports used'] & Hports & Ha). apply bind_Some in Ha as (rest & Hrest & Ha).
  injection Ha as <-. apply elem_of_app in Hw as [Hw|Hw].
  - exists e, ports. split; [by left|]. split; [by eapply adopt_ports_names|]. split; [done|].
    by apply submseteq_inserts_r.
  - destruct (IH _ _ Hrest w Hw) as (e' & ports' & He' & Hnames & Hin & Hsub). exists e', ports'.
    split; [by right|]. split; [done|]. split; [done|]. by apply submseteq_inserts_l.
Qed.

Lemma adopt_writes w :
  w ∈ ch_writes (adopt_services config node d) →
  ∃ k s ports, adopts k s ports ∧ w ∈ adopt_workload node d (k, s) ports.
Proof.
  unfold adopt_services. simpl. intros Hw.
  destruct (adopt_workloads _ _ _ _ _) as [ws|] eqn:Hws; [|by apply elem_of_nil in Hw].
  simpl in Hw. destruct (adopt_workloads_writes _ _ _ Hws w Hw) as ([k s] & ports & He & Hnames & Hin & Hsub).
  apply list_elem_of_filter in He as [Had Hks%elem_of_entries].
  exists k, s, ports. split; [|done]. split; [done|]. split; [done|]. split; [done|].
  unfold adopt_services. simpl. by rewrite Hws.
Qed.

Definition adopted_id (s : Stored WorkloadRecord) : string :=
  instance_id_of (st_id s) (wl_deployment_id (st_value s)).
Definition adopted_revision (s : Stored WorkloadRecord) : string :=
  from_option (λ r, dep_revision (st_value r)) "" (deployments d !! wl_deployment_id (st_value s)).
Definition adopted_traffic (k : Key) (s : Stored WorkloadRecord) (b port : PortBinding) : TrafficAssignmentRecord :=
  adopted_assignment node k s (adopted_revision s) (adopted_id s) b port.

Inductive adopt_write : Write → Prop :=
| adopt_instance k s ports :
    adopts k s ports →
    adopt_write (WInstance (adopted_id s) (OpCreate (adopted_id s) (adopted_instance node k s (adopted_revision s) ports)))
| adopt_traffic k s ports b port op :
    adopts k s ports → (b, port) ∈ zip (wl_ports (st_value s)) ports →
    (∃ id, op = OpCreate id (adopted_traffic k s b port)) ∨
    (∃ old, op = OpReplace old (adopted_traffic k s b port) ∧ (st_version old <= next_version c)%N) →
    adopt_write (WTraffic (ta_endpoint (adopted_traffic k s b port)) op).

Lemma adopt_writes_kind w : w ∈ ch_writes (adopt_services config node d) → adopt_write w.
Proof.
  intros (k & s & ports & Hadopts & Hw)%adopt_writes. unfold adopt_workload in Hw.
  apply elem_of_cons in Hw as [->|Hw]; [by apply adopt_instance|].
  apply elem_of_lookup_zip_with in Hw as (i & b & port & -> & Hb & Hport).
  unfold put_assignment. eapply adopt_traffic; [done| |].
  - apply list_elem_of_lookup. exists i. apply lookup_zip_Some. by split.
  - destruct (traffic d !! _) as [old|] eqn:Hold; [right|left; by eexists].
    exists old. split; [done|]. by apply (within_traffic _ _ Hwithin) in Hold.
Qed.

Lemma adopt_fenced : Forall (fenced_write (next_version c)) (ch_writes (adopt_services config node d)).
Proof.
  apply Forall_forall. intros w Hw. destruct (adopt_writes_kind w Hw) as [|k s ports b port op Ha Hb Hop]; [done|].
  simpl. destruct Hop as [(id & ->)|(old & -> & ?)]; done.
Qed.

Ltac no_adopt := intros w op Hw; destruct (adopt_writes_kind w Hw); simpl; congruence.

Lemma adopt_environments n : environments (records c') !! n = environments (records c) !! n.
Proof. apply (commit_untouched (T := environment_table) _ _ _ n Hcommit). no_adopt. Qed.
Lemma adopt_memberships q : memberships (records c') !! q = memberships (records c) !! q.
Proof. apply (commit_untouched (T := membership_table) _ _ _ q Hcommit). no_adopt. Qed.
Lemma adopt_workloads_kept k : workloads (records c') !! k = workloads (records c) !! k.
Proof. apply (commit_untouched (T := workload_table) _ _ _ k Hcommit). no_adopt. Qed.
Lemma adopt_deployments id : deployments (records c') !! id = deployments (records c) !! id.
Proof. apply (commit_untouched (T := deployment_table) _ _ _ id Hcommit). no_adopt. Qed.

Lemma adopt_instances_once id : length (ops_on (T := instance_table) id (ch_writes (adopt_services config node d))) ≤ 1.
Proof.
  eapply (single_writes (T := instance_table)); [done|apply adopt_fenced|].
  intros w s Hw. destruct (adopt_writes_kind w Hw); simpl; congruence.
Qed.

Lemma adopt_traffic_once ep : length (ops_on (T := traffic_table) ep (ch_writes (adopt_services config node d))) ≤ 1.
Proof.
  eapply (single_writes (T := traffic_table)); [done|apply adopt_fenced|].
  intros w s Hw. destruct (adopt_writes_kind w Hw) as [|k s' ports b port op Ha Hb Hop]; simpl; [done|].
  intros [= _ ->]. destruct Hop as [(id & ?)|(old & ? & _)]; done.
Qed.

(** The endpoints of an adopted workload differ, since its assignments were written. *)
Lemma adopted_names k s ports : adopts k s ports → NoDup (pb_name <$> wl_ports (st_value s)).
Proof.
  intros (Hs & Had & Hnames & Hsub).
  pose proof (keys_of_once (T := traffic_table) _ adopt_traffic_once) as Hnd.
  assert (Hkeys : keys_of (T := traffic_table) (adopt_workload node d (k, s) ports) =
    (λ b, endpoint_of (fst (place_of k)) (snd (place_of k)) (snd k) (pb_name b)) <$> wl_ports (st_value s)).
  { unfold keys_of, adopt_workload. simpl.
    assert (Hlen : length ports = length (wl_ports (st_value s)))
      by by rewrite <-(length_fmap pb_name ports), Hnames, length_fmap.
    clear -Hlen. revert ports Hlen. induction (wl_ports (st_value s)) as [|b bs IH]; intros [|port ports] Hlen; try done.
    simpl in *. f_equal. apply IH. lia. }
  assert (Hnd' : NoDup (keys_of (T := traffic_table) (adopt_workload node d (k, s) ports))).
  { clear -Hnd Hsub. apply submseteq_Permutation in Hsub as (rest & Hperm). unfold keys_of in *.
    rewrite Hperm, omap_app in Hnd. by apply NoDup_app in Hnd as [? _]. }
  rewrite Hkeys in Hnd'. clear -Hnd'.
  eapply (NoDup_fmap_1 (endpoint_of (fst (place_of k)) (snd (place_of k)) (snd k))).
  by rewrite <-list_fmap_compose.
Qed.

Lemma find_zip (bs ports : list PortBinding) b port :
  NoDup (pb_name <$> bs) → pb_name <$> ports = pb_name <$> bs → (b, port) ∈ zip bs ports →
  pb_host <$> List.find (λ b', String.eqb (pb_name b') (pb_name b)) ports = Some (pb_host port).
Proof.
  revert ports. induction bs as [|b0 bs IH]; intros [|p0 ports] Hnd Hnames Hin; try done.
  { by apply elem_of_nil in Hin. }
  simpl in *. injection Hnames as Hname Hnames. apply NoDup_cons in Hnd as [Hb0 Hnd].
  apply elem_of_cons in Hin as [[= -> ->]|Hin].
  - by rewrite (proj2 (String.eqb_eq _ _) Hname).
  - destruct (String.eqb_spec (pb_name p0) (pb_name b)) as [Heq|Hne]; [|by apply IH].
    destruct Hb0. rewrite <-Hname, Heq. apply list_elem_of_fmap. exists b. split; [done|].
    by apply elem_of_zip_l in Hin.
Qed.

Lemma adopted_instance_made k s ports :
  adopts k s ports →
  ∃ x, instances (records c') !! adopted_id s = Some x ∧
       st_value x = adopted_instance node k s (adopted_revision s) ports.
Proof.
  intros Hadopts. pose proof Hadopts as (_ & _ & _ & Hsub).
  assert (Hin : WInstance (adopted_id s) (OpCreate (adopted_id s) (adopted_instance node k s (adopted_revision s) ports))
                  ∈ ch_writes (adopt_services config node d)).
  { eapply elem_of_submseteq; [|done]. by left. }
  pose proof (single_op (T := instance_table) _ _ _ _ (adopt_instances_once (adopted_id s)) Hin eq_refl) as Hops.
  destruct (commit_record (T := instance_table) _ _ _ (adopted_id s) Hcommit adopt_fenced) as [[Hnil _]|[_ Hmade]];
    [congruence|].
  rewrite Hops in Hmade. simpl in Hmade. destruct (instances (records c') !! adopted_id s) as [x|];
    inversion Hmade as [x' Hop|s' r0 x' Hop|s' r0 g x' Hop|s' Hop]; subst; try (by apply list_elem_of_singleton in Hop).
  - apply list_elem_of_singleton in Hop as [= _ Hval]. by exists x.
  - done.
Qed.

Lemma adopt_instance_kept id i :
  instances (records c) !! id = Some i → instances (records c') !! id = Some i.
Proof.
  intros Hi. destruct (commit_first (T := instance_table) _ _ _ id Hcommit) as [Heq|(w & op & y & Hw & Hsel & Hstep)];
    simpl in *; [congruence|]. exfalso. rewrite Hi in Hstep.
  destruct (adopt_writes_kind w Hw); simpl in Hsel; [|done]. injection Hsel as <- <-. inversion Hstep.
Qed.

Lemma adopt_instance_made id x :
  instances (records c') !! id = Some x →
  instances (records c) !! id = Some x ∨
  ∃ k s ports, adopts k s ports ∧ st_id x = id ∧ st_value x = adopted_instance node k s (adopted_revision s) ports.
Proof.
  intros Hx. apply (commit_made (T := instance_table) _ _ _ _ _ Hcommit adopt_fenced) in Hx as [?|[Hby _]]; [by left|].
  right. destruct Hby as [w id' Hw Hsel|w s r0 Hw Hsel|w s g r0 Hw Hsel];
    destruct (adopt_writes_kind w Hw) as [k s' ports Ha|]; simpl in Hsel; try congruence.
  injection Hsel as -> <- Hval. by exists k, s', ports.
Qed.

Lemma adopt_traffic_made ep a :
  traffic (records c') !! ep = Some a →
  traffic (records c) !! ep = Some a ∨
  ∃ k s ports b port, adopts k s ports ∧ (b, port) ∈ zip (wl_ports (st_value s)) ports ∧
                      st_value a = adopted_traffic k s b port.
Proof.
  intros Ha. apply (commit_made (T := traffic_table) _ _ _ _ _ Hcommit adopt_fenced) in Ha as [?|[Hby _]]; [by left|].
  right. destruct Hby as [w id' Hw Hsel|w s r0 Hw Hsel|w s g r0 Hw Hsel];
    destruct (adopt_writes_kind w Hw) as [|k s' ports b port op Had Hb Hop]; simpl in Hsel; try congruence;
    injection Hsel as <- ->; exists k, s', ports, b, port;
    destruct Hop as [(id0 & ?)|(old & ? & _)]; simplify_eq; done.
Qed.

(** An adopted workload is of the current deployment of its place, and nothing is
    being released there. *)
Lemma adopts_current k s ports :
  adopts k s ports →
  is_current (records c) (place_of k) (wl_deployment_id (st_value s)) ∧ place_of k ∉ releasing.
Proof.
  intros (Hs & Had & _). split; [by apply (good_workload _ Hgood)|]. unfold adoptable in Had. simpl in Had.
  apply andb_prop in Had as [Had _]. apply andb_prop in Had as [Had _]. apply andb_prop in Had as [_ Had].
  by apply negb_true_iff, bool_decide_eq_false in Had.
Qed.


Lemma adopt_is_current q id : is_current (records c) q id → is_current (records c') q id.
Proof. intros (m & Hm & Hid). exists m. by rewrite adopt_memberships. Qed.
Lemma adopt_placed id q : placed (records c) id q → placed (records c') id q.
Proof. intros (x & Hx & Hp). exists x. by rewrite adopt_deployments. Qed.

Lemma adopted_follows k s ports b port :
  adopts k s ports → (b, port) ∈ zip (wl_ports (st_value s)) ports →
  follows (records c') (adopted_traffic k s b port).
Proof.
  intros Had Hb. destruct (adopts_current _ _ _ Had) as [Hcur _]. pose proof Had as (Hs & _ & Hnames & _).
  destruct k as [[env project] name]. split; [by apply adopt_is_current|]. split.
  - destruct (adopted_instance_made _ _ _ Had) as (x & Hx & Hval). exists x. rewrite Hval. split; [done|].
    split; [done|]. split; [done|]. split; [done|]. unfold port_of. simpl.
    eapply find_zip; [by eapply adopted_names|done..].
  - exists s, b. rewrite adopt_workloads_kept. split; [done|]. split; [|done]. by apply elem_of_zip_l in Hb.
Qed.

Lemma in_flight_releasing id x :
  deployments (records c) !! id = Some x → terminal x = false → dep_place (st_value x) ∈ releasing.
Proof.
  intros Hx Hterm. apply list_elem_of_fmap. exists x. split; [done|]. apply elem_of_in_flight. split; [|done].
  exists id. by apply working_copy_in_flight.
Qed.

Lemma adopt_good : good (records c').
Proof.
  constructor.
  - intros id x Hx. rewrite adopt_deployments in Hx. by apply (good_deployment _ Hgood).
  - intros id x Hx. apply adopt_instance_made in Hx as [Hx|(k & s & ports & Had & Hid & Hval)].
    + destruct (good_instance _ Hgood id x Hx) as [? ?]. split; [done|]. by apply adopt_placed.
    + split; [done|]. rewrite Hval. destruct k as [[env project] name]. apply adopt_placed.
      destruct (adopts_current _ _ _ Had) as [(m & Hm & Hdep) _]. by eapply good_member.
  - intros q m id Hm Hid. rewrite adopt_memberships in Hm. apply adopt_placed. by eapply good_member.
  - intros k w Hw. rewrite adopt_workloads_kept in Hw. apply adopt_is_current. by apply (good_workload _ Hgood).
  - intros id x id' Hx Hprev. rewrite adopt_deployments in Hx. apply adopt_placed. by eapply (good_previous _ Hgood).
  - intros id id' x x'. rewrite !adopt_deployments. by apply (good_one _ Hgood).
  - intros ep a Ha. apply adopt_traffic_made in Ha as [Ha|(k & s & ports & b & port & Had & Hb & Hval)].
    + destruct (good_traffic _ Hgood ep a Ha) as (Hcur & (i & Hi & Hi') & (w & b & Hw & Hb)). split; [|split].
      * by apply adopt_is_current.
      * exists i. split; [|done]. by apply adopt_instance_kept.
      * exists w, b. by rewrite adopt_workloads_kept.
    + rewrite Hval. by eapply adopted_follows.
  - intros ep a x Ha Hx Hterm. rewrite adopt_deployments in Hx. rewrite adopt_environments.
    apply adopt_traffic_made in Ha as [Ha|(k & s & ports & b & port & Had & Hb & Hval)].
    { by apply (good_moved _ Hgood ep a x). }
    exfalso. destruct (adopts_current _ _ _ Had) as [(m & Hm & Hdep) Hno]. rewrite Hval in Hx. simpl in Hx.
    destruct (good_member _ Hgood _ _ _ Hm Hdep) as (x' & Hx' & Hp). assert (x' = x) as -> by congruence.
    apply Hno. rewrite <-Hp. by eapply in_flight_releasing.
Qed.

Lemma adopt_covers q : q ∈ releasing → covers q (working_copy c) (records c').
Proof.
  intros Hq. pose proof (covers_working_copy q c) as Hd. constructor.
  - by rewrite adopt_environments.
  - by rewrite adopt_memberships.
  - intros k Hk. by rewrite adopt_workloads_kept.
  - intros ep a Ha Hpl. apply adopt_traffic_made in Ha as [Ha|(k & s & ports & b & port & Had & Hb & Hval)]; [done|].
    exfalso. destruct (adopts_current _ _ _ Had) as [_ Hno]. apply Hno. rewrite Hval in Hpl.
    destruct k as [[env project] name]. by rewrite <-Hpl in Hq.
  - intros id x Hx Hpl. apply adopt_instance_made in Hx as [Hx|(k & s & ports & Had & Hid & Hval)].
    { exists x. by split; [|left]. }
    exfalso. destruct (adopts_current _ _ _ Had) as [_ Hno]. apply Hno. rewrite Hval in Hpl.
    destruct k as [[env project] name]. by rewrite <-Hpl in Hq.
  - intros id i0 Hi0 _. exists i0. split; [by apply adopt_instance_kept|by left].
Qed.
End adopt.

(** ** Draining *)

Section drain.
Context (config : Config) (node : Node) (c c' : Control) (d : Desired).
Hypothesis Hgood : good (records c).
Hypothesis Hcopied : copied d c.
Hypothesis Hexact : ∀ id i, instances d !! id = Some i → instances (records c) !! id = Some i.
Hypothesis Hcommit : commit (drain_instances config node d) c = Ok c'.

Lemma drained_draining i :
  i ∈ drained config node d → (∃ id, instances d !! id = Some i) ∧ inst_state (st_value i) = InstanceState.Draining.
Proof.
  unfold drained. intros [_ [Hi Hs]%elem_of_instances_where]%list_elem_of_filter. split; [done|].
  apply andb_prop in Hs as [Hs _]. by apply bool_decide_eq_true in Hs.
Qed.

Lemma drain_writes w :
  w ∈ ch_writes (drain_instances config node d) →
  ∃ id i, instances d !! id = Some i ∧ inst_state (st_value i) = InstanceState.Draining ∧
          w = update_instance (node_now node) i (instance_stopped InstanceState.Stopped None (node_now node)).
Proof.
  clear Hgood Hcopied Hexact Hcommit. unfold drain_instances. intros Hw.
  assert (Hgen : ∀ l ch, (∀ i, i ∈ l → i ∈ drained config node d) →
    w ∈ ch_writes (foldl (λ c0 s, event "instance.stopped"
      (with_deployment (inst_deployment_id (st_value s)) (scope_workload (instance_key (st_value s))))
      (drained_message node s)
      (change_with (update_instance (node_now node) s
         (instance_stopped InstanceState.Stopped None (node_now node))) c0)) ch l) →
    w ∈ ch_writes ch ∨ ∃ i, i ∈ drained config node d ∧
      w = update_instance (node_now node) i (instance_stopped InstanceState.Stopped None (node_now node))).
  { induction l as [|i l IH]; intros ch Hl Hin; simpl in Hin; [by left|].
    apply IH in Hin as [Hin|Hin]; [|by right|set_solver].
    rewrite elem_of_event, elem_of_change_with in Hin. destruct Hin as [?| ->]; [by left|]. right. exists i. set_solver. }
  apply Hgen in Hw as [Hw|(i & Hi & ->)]; [by apply elem_of_change_new in Hw| |done].
  apply drained_draining in Hi as [(id & Hi) Hs]. by exists id, i.
Qed.

Lemma drain_fenced : Forall (fenced_write (next_version c)) (ch_writes (drain_instances config node d)).
Proof.
  apply Forall_forall. intros w Hw. apply drain_writes in Hw as (id & i & Hi & _ & ->). simpl.
  by apply (within_instances _ _ (copied_within _ _ Hcopied) id).
Qed.

Lemma drain_kept K A `{T : Table K A} k :
  (∀ i f, tsel (update_instance (node_now node) i f) = None) → tget (records c') !! k = tget (records c) !! k.
Proof.
  intros Hno. eapply commit_untouched; [done|]. intros w op Hw. apply drain_writes in Hw as (id & i & _ & _ & ->).
  by rewrite Hno.
Qed.

Lemma drain_environments n : environments (records c') !! n = environments (records c) !! n.
Proof. by apply (drain_kept _ _ (T := environment_table)). Qed.
Lemma drain_memberships q : memberships (records c') !! q = memberships (records c) !! q.
Proof. by apply (drain_kept _ _ (T := membership_table)). Qed.
Lemma drain_workloads k : workloads (records c') !! k = workloads (records c) !! k.
Proof. by apply (drain_kept _ _ (T := workload_table)). Qed.
Lemma drain_deployments id : deployments (records c') !! id = deployments (records c) !! id.
Proof. by apply (drain_kept _ _ (T := deployment_table)). Qed.
Lemma drain_traffic ep : traffic (records c') !! ep = traffic (records c) !! ep.
Proof. by apply (drain_kept _ _ (T := traffic_table)). Qed.

Lemma drain_instance id x :
  instances (records c') !! id = Some x →
  ∃ i, instances (records c) !! id = Some i ∧ st_id x = st_id i ∧ as_drained i x.
Proof.
  intros Hx. apply (commit_made (T := instance_table) _ _ _ _ _ Hcommit drain_fenced) in Hx as [Hx|[Hby Hv]].
  { exists x. by split; [|split; [|left]]. }
  destruct Hby as [w id' Hw Hsel|w s r0 Hw Hsel|w s g r0 Hw Hsel Hr0 Hver Hid Hval];
    apply drain_writes in Hw as (id0 & i & Hi & Hs & ->); simpl in Hsel; try congruence.
  injection Hsel as <- <- <-. simpl in Hr0. destruct (copied_instance _ _ Hcopied id0 i Hi) as [Hid0 _].
  rewrite Hid0 in Hr0. apply Hexact in Hi as Hi'. assert (r0 = i) as -> by congruence.
  exists i. split; [by rewrite Hid0|]. split; [done|]. right. rewrite Hval. repeat split; try done.
  pose proof (within_instances _ _ (copied_within _ _ Hcopied) id0 i Hi). lia.
Qed.

Lemma drain_instance_kept id i :
  instances (records c) !! id = Some i → ∃ x, instances (records c') !! id = Some x ∧ as_drained i x.
Proof.
  intros Hi. destruct (instances (records c') !! id) as [x|] eqn:Hx.
  - exists x. split; [done|]. apply drain_instance in Hx as (i' & Hi' & _ & Hdr).
    by assert (i' = i) as -> by congruence.
  - exfalso. destruct (commit_record (T := instance_table) _ _ _ id Hcommit drain_fenced) as [[_ Heq]|[_ Hmade]];
      simpl in *; [congruence|].
    rewrite Hx in Hmade. inversion Hmade as [| | |s Hin]. apply elem_of_ops_on in Hin as (w & Hw & Hsel).
    by apply drain_writes in Hw as (id0 & i0 & _ & _ & ->).
Qed.

Lemma as_drained_trans i0 i1 i2 : as_drained i0 i1 → as_drained i1 i2 → as_drained i0 i2.
Proof.
  intros [->|(H1 & H2 & H3 & H4 & H5)] [->|(G1 & G2 & G3 & G4 & G5)]; [by left|by right|by right|]. congruence.
Qed.

Lemma drain_good : good (records c').
Proof.
  constructor.
  - intros id x Hx. rewrite drain_deployments in Hx. by apply (good_deployment _ Hgood).
  - intros id x Hx. apply drain_instance in Hx as (i & Hi & -> & Hdr). apply as_drained_key in Hdr as [Hkey ->].
    destruct (good_instance _ Hgood id i Hi) as [? (y & Hy & Hp)]. split; [done|]. exists y.
    rewrite drain_deployments, inst_place_key, Hkey. by rewrite <-inst_place_key.
  - intros q m id Hm Hid. rewrite drain_memberships in Hm.
    destruct (good_member _ Hgood q m id Hm Hid) as (y & Hy & Hp). exists y. by rewrite drain_deployments.
  - intros k w Hw. rewrite drain_workloads in Hw. destruct (good_workload _ Hgood k w Hw) as (m & Hm & Hid).
    exists m. by rewrite drain_memberships.
  - intros id x id' Hx Hprev. rewrite drain_deployments in Hx.
    destruct (good_previous _ Hgood id x id' Hx Hprev) as (y & Hy & Hp). exists y. by rewrite drain_deployments.
  - intros id id' x x'. rewrite !drain_deployments. by apply (good_one _ Hgood).
  - intros ep a Ha. rewrite drain_traffic in Ha.
    destruct (good_traffic _ Hgood ep a Ha) as ((m & Hm & Hid) & (i & Hi & Hs & Hi') & (w & b & Hw & Hb)).
    split; [exists m; by rewrite drain_memberships|]. split.
    + destruct (drain_instance_kept _ _ Hi) as (x & Hx & Hdr). apply as_drained_serving in Hdr as ->; [|done].
      by exists i.
    + exists w, b. by rewrite drain_workloads.
  - intros ep a x Ha Hx. rewrite drain_traffic in Ha. rewrite drain_deployments in Hx. rewrite drain_environments.
    by apply (good_moved _ Hgood ep a x).
Qed.

Lemma drain_covers q d' : covers q d' (records c) → covers q d' (records c').
Proof.
  intros Hd'. constructor.
  - by rewrite drain_environments, (covers_environment _ _ _ Hd').
  - by rewrite drain_memberships, (covers_membership _ _ _ Hd').
  - intros k Hk. by rewrite drain_workloads, (covers_workload _ _ _ Hd').
  - intros ep a Ha. rewrite drain_traffic in Ha. by apply (covers_traffic _ _ _ Hd').
  - intros id x Hx Hpl. apply drain_instance in Hx as (i & Hi & _ & Hdr).
    destruct (covers_instance _ _ _ Hd' id i Hi) as (i0 & Hi0 & Hdr0).
    { rewrite <-Hpl, !inst_place_key. by destruct (as_drained_key _ _ Hdr) as [-> _]. }
    exists i0. split; [done|]. by eapply as_drained_trans.
  - intros id i0 Hi0 Hpl. destruct (covers_copied _ _ _ Hd' id i0 Hi0 Hpl) as (i & Hi & Hdr0).
    destruct (drain_instance_kept _ _ Hi) as (x & Hx & Hdr). exists x. split; [done|]. by eapply as_drained_trans.
Qed.
End drain.

(** ** What operators set and start *)

Section settle.
Context (c c' : Control) (change : Change) (new : option (string * DeploymentRecord)).

Inductive settle_write : Write → Prop :=
| settle_environment n op : (∀ s, op ≠ OpDelete s) → fenced (next_version c) op → settle_write (WEnvironment n op)
| settle_member q s f :
    (∀ m, mem_deployment_id (f m) = mem_deployment_id m) → (st_version s <= next_version c)%N →
    settle_write (WMembership q (OpUpdate s f))
| settle_join q id m : mem_deployment_id m = None → settle_write (WMembership q (OpCreate id m))
| settle_workload k s f :
    (∀ w, wl_deployment_id (f w) = wl_deployment_id w ∧ wl_ports (f w) = wl_ports w) →
    (st_version s <= next_version c)%N → settle_write (WWorkload k (OpUpdate s f))
| settle_deploy id record :
    new = Some (id, record) → (∀ x, dep_previous record = Some x → placed (records c) x (dep_place record)) →
    (∀ x r, deployments (records c) !! x = Some r → terminal r = false →
            dep_place (st_value r) ≠ dep_place record) →
    settle_write (WDeployment id (OpCreate id record)).

Hypothesis Hgood : good (records c).
Hypothesis Hsettle : ∀ w, w ∈ ch_writes change → settle_write w.
Hypothesis Hcommit : commit change c = Ok c'.

Lemma settle_fenced : Forall (fenced_write (next_version c)) (ch_writes change).
Proof. apply Forall_forall. intros w Hw. by destruct (Hsettle w Hw). Qed.

Lemma settle_kept K A `{T : Table K A} k :
  (∀ w op, settle_write w → tsel w ≠ Some (k, op)) → tget (records c') !! k = tget (records c) !! k.
Proof. intros Hno. eapply commit_untouched; [done|]. intros w op Hw. by apply Hno, Hsettle. Qed.

Lemma settle_instances id : instances (records c') !! id = instances (records c) !! id.
Proof. apply (settle_kept _ _ (T := instance_table)). intros w op Hw. by destruct Hw. Qed.
Lemma settle_traffic ep : traffic (records c') !! ep = traffic (records c) !! ep.
Proof. apply (settle_kept _ _ (T := traffic_table)). intros w op Hw. by destruct Hw. Qed.

(** Where nothing is deleted, what was there stays there. *)
Lemma settle_stays K A `{T : Table K A} k :
  (∀ w s, settle_write w → tsel w ≠ Some (k, OpDelete s)) →
  is_Some (tget (records c) !! k) → is_Some (tget (records c') !! k).
Proof.
  intros Hno [x Hx]. destruct (tget (records c') !! k) as [y|] eqn:Hy; [done|]. exfalso.
  destruct (commit_record (T := T) _ _ _ k Hcommit settle_fenced) as [[_ Heq]|[_ Hmade]]; [congruence|].
  rewrite Hy in Hmade. inversion Hmade as [| | |s Hin]. apply elem_of_ops_on in Hin as (w & Hw & Hsel).
  by destruct (Hno w s (Hsettle w Hw)).
Qed.

Lemma settle_environments n : is_Some (environments (records c) !! n) → is_Some (environments (records c') !! n).
Proof.
  apply (settle_stays _ _ (T := environment_table)). intros w s Hw. destruct Hw as [n' op Hdel| | | |]; simpl; try done.
  intros [= _ ->]. by apply (Hdel s).
Qed.

Lemma settle_member_made q m :
  memberships (records c') !! q = Some m →
  mem_deployment_id (st_value m) = None ∨
  ∃ m0, memberships (records c) !! q = Some m0 ∧ mem_deployment_id (st_value m) = mem_deployment_id (st_value m0).
Proof.
  intros Hm. apply (commit_made (T := membership_table) _ _ _ _ _ Hcommit settle_fenced) in Hm as [Hm|[Hby _]].
  { right. by exists m. }
  destruct Hby as [w id' Hw Hsel|w s r0 Hw Hsel|w s g r0 Hw Hsel Hr0 Hv Hid Hval];
    destruct (Hsettle w Hw) as [|q' s' f Hf _|q' id0 m0 Hnone| |]; simpl in Hsel; simplify_eq.
  - by left.
  - right. exists r0. split; [done|]. by rewrite Hval, Hf.
Qed.

Lemma settle_is_current q id : is_current (records c) q id → is_current (records c') q id.
Proof.
  intros (m & Hm & Hid).
  destruct (commit_first (T := membership_table) _ _ _ q Hcommit) as [Heq|(w & op & y & Hw & Hsel & Hstep)]; simpl in *.
  { exists m. by rewrite Heq. }
  assert (is_Some (memberships (records c') !! q)) as [m' Hm'].
  { apply (settle_stays _ _ (T := membership_table)); [|by exists m].
    intros w' s Hw'. by destruct Hw'. }
  exists m'. split; [done|].
  destruct (commit_made (T := membership_table) _ _ _ _ _ Hcommit settle_fenced Hm') as [Hm''|[Hby _]];
    [simpl in Hm''; congruence|].
  destruct Hby as [w' id' Hw' Hsel'|w' s r0 Hw' Hsel'|w' s g r0 Hw' Hsel' Hr0 Hv Hid' Hval];
    pose proof (Hsettle w' Hw') as Hkind;
    destruct Hkind as [|q' s' f Hf _|q' id0 m0 Hnone| |]; simpl in Hsel'; simplify_eq.
  - (* a membership is created only where there was none *)
    exfalso. rewrite Hm in Hstep.
    assert (Hlen : length (ops_on (T := membership_table) q (ch_writes change)) ≤ 1).
    { eapply (single_writes (T := membership_table)); [done|apply settle_fenced|].
      intros w1 s1 Hw1. by destruct (Hsettle w1 Hw1). }
    pose proof (single_op (T := membership_table) q _ _ _ Hlen Hw Hsel) as H1.
    pose proof (single_op (T := membership_table) q _ _ _ Hlen Hw' eq_refl) as H2.
    rewrite H1 in H2. injection H2 as ->. inversion Hstep.
  - simpl in Hr0. by rewrite Hval, Hf, Hm in * |- *; simplify_eq.
Qed.

Lemma settle_workload_made k w :
  workloads (records c') !! k = Some w →
  ∃ w0, workloads (records c) !! k = Some w0 ∧ wl_deployment_id (st_value w) = wl_deployment_id (st_value w0) ∧
        wl_ports (st_value w) = wl_ports (st_value w0).
Proof.
  intros Hm. apply (commit_made (T := workload_table) _ _ _ _ _ Hcommit settle_fenced) in Hm as [Hm|[Hby _]].
  { by exists w. }
  destruct Hby as [w' id' Hw Hsel|w' s r0 Hw Hsel|w' s g r0 Hw Hsel Hr0 Hv Hid Hval];
    destruct (Hsettle w' Hw) as [| | |k' s' f Hf _|]; simpl in Hsel; simplify_eq.
  exists r0. split; [done|]. rewrite Hval. apply Hf.
Qed.

Lemma settle_deployment id r :
  deployments (records c') !! id = Some r →
  deployments (records c) !! id = Some r ∨
  (new = Some (id, st_value r) ∧ st_id r = id ∧ deployments (records c) !! id = None ∧
   (∀ x, dep_previous (st_value r) = Some x → placed (records c) x (dep_place (st_value r))) ∧
   (∀ x r0, deployments (records c) !! x = Some r0 → terminal r0 = false →
            dep_place (st_value r0) ≠ dep_place (st_value r))).
Proof.
  intros Hr. destruct (commit_first (T := deployment_table) _ _ _ id Hcommit) as [Heq|(w & op & y & Hw & Hsel & Hstep)];
    simpl in *; [left; congruence|].
  destruct (commit_made (T := deployment_table) _ _ _ _ _ Hcommit settle_fenced Hr) as [?|[Hby _]]; [by left|].
  destruct (Hsettle w Hw) as [| | | |id0 rec0 Hnew0 _ _]; simpl in Hsel; simplify_eq. inversion Hstep as [? ? ? ? Hx| | |]; subst.
  destruct Hby as [w' id' Hw' Hsel' Hid|w' s r0 Hw' Hsel'|w' s g r0 Hw' Hsel'];
    destruct (Hsettle w' Hw') as [| | | |id1 rec1 Hnew Hprev Hone]; simpl in Hsel'; simplify_eq.
  right. by repeat split.
Qed.

Lemma settle_deployment_kept id r :
  deployments (records c) !! id = Some r → deployments (records c') !! id = Some r.
Proof.
  intros Hr. destruct (commit_first (T := deployment_table) _ _ _ id Hcommit) as [Heq|(w & op & y & Hw & Hsel & Hstep)];
    simpl in *; [congruence|]. exfalso. rewrite Hr in Hstep.
  destruct (Hsettle w Hw); simpl in Hsel; simplify_eq. inversion Hstep.
Qed.

Lemma settle_placed id q : placed (records c) id q → placed (records c') id q.
Proof. intros (r & Hr & Hp). exists r. split; [|done]. by apply settle_deployment_kept. Qed.

Lemma settle_good : good (records c').
Proof.
  constructor.
  - intros id x Hx. apply settle_deployment in Hx as [Hx|(_ & Hid & _)]; [by apply (good_deployment _ Hgood)|done].
  - intros id x Hx. rewrite settle_instances in Hx. destruct (good_instance _ Hgood id x Hx). split; [done|].
    by apply settle_placed.
  - intros q m id Hm Hid. apply settle_placed. apply settle_member_made in Hm as [?|(m0 & Hm0 & Hdep)]; [congruence|].
    apply (good_member _ Hgood q m0); congruence.
  - intros k w Hw. apply settle_workload_made in Hw as (w0 & Hw0 & -> & _). apply settle_is_current.
    by apply (good_workload _ Hgood).
  - intros id x id' Hx Hprev. apply settle_placed. apply settle_deployment in Hx as [Hx|(_ & _ & _ & Hp & _)].
    + by eapply (good_previous _ Hgood).
    + by apply Hp.
  - intros id id' x x' Hx Hx' T1 T2 Hp.
    apply settle_deployment in Hx as [Hx|(Hn & _ & _ & _ & Hone)];
      apply settle_deployment in Hx' as [Hx'|(Hn' & _ & _ & _ & Hone')].
    + by eapply (good_one _ Hgood).
    + by destruct (Hone' _ _ Hx T1).
    + by destruct (Hone _ _ Hx' T2).
    + congruence.
  - intros ep a Ha. rewrite settle_traffic in Ha.
    destruct (good_traffic _ Hgood ep a Ha) as (Hcur & (i & Hi & Hi') & (w & b & Hw & Hb)).
    split; [by apply settle_is_current|]. split.
    + exists i. by rewrite settle_instances.
    + assert (is_Some (workloads (records c') !! ta_key (st_value a))) as [w' Hw'].
      { apply (settle_stays _ _ (T := workload_table)); [|by exists w]. intros w0 s Hw0. by destruct Hw0. }
      exists w', b. split; [done|]. apply settle_workload_made in Hw' as (w0 & Hw0 & _ & ->).
      by assert (w0 = w) as -> by congruence.
  - intros ep a x Ha Hx Hterm. rewrite settle_traffic in Ha.
    apply settle_deployment in Hx as [Hx|(_ & _ & Hnone & _)].
    + destruct (good_moved _ Hgood ep a x Ha Hx Hterm). split; [done|]. by apply settle_environments.
    + exfalso. destruct (traffic_placed _ _ _ Hgood Ha) as (r0 & Hr0 & _). congruence.
Qed.
End settle.

(** ** One step of a release *)

(** What a change to one place keeps: the invariant, where deployments are, and what
    working copies know of other places. *)
Record keeps (p : Place) (c c' : Control) : Prop := {
  keeps_good : good (records c');
  keeps_placed id q : placed (records c) id q → placed (records c') id q;
  keeps_deployments id x :
    deployments (records c) !! id = Some x → dep_place (st_value x) ≠ p → deployments (records c') !! id = Some x;
  keeps_covers q d' : q ≠ p → covers q d' (records c) → covers q d' (records c');
}.

Section advance.
Context `{!Sha256Hex} (config : Config) (node : Node).
Context (c c' : Control) (d : Desired) (r : Stored DeploymentRecord) (change : Change).
Notation p := (dep_place (st_value r)).
Hypothesis Hgood : good (records c).
Hypothesis Hwithin : versions_within (next_version c) (records c).
Hypothesis Hr : deployments (records c) !! st_id r = Some r.
Hypothesis Hflight : terminal r = false.
Hypothesis Hcovers : covers p d (records c).
Hypothesis Hcopied : copied d c.
Hypothesis Hcommit : commit change c = Ok c'.

Lemma own_keeps now : (∀ w, w ∈ ch_writes change → own_write c d r now w) → keeps p c c'.
Proof.
  intros Hown. constructor.
  - by eapply own_good.
  - intros id q. by eapply own_placed.
  - intros id x Hx Hp. rewrite <-Hx. eapply own_deployments; [done..|]. intros ->. congruence.
  - intros q d' Hq. by eapply own_covers.
Qed.

Lemma route_keeps (d0 : Desired) target st f routed moved :
  route_to node change_new d0 target = Ok (routed, moved) →
  (∀ w, w ∈ ch_writes change ↔ w ∈ ch_writes routed ∨
     w = WDeployment (st_id r) (OpUpdate r (merge_deployment st (node_now node) f))) →
  covers p d0 (records c) → copied d0 c → dep_place (st_value target) = p →
  placed (records c) (st_id target) p →
  (st_id target = st_id r ∧ has_moved st = true ∧ is_Some (environments (records c) !! fst p)) ∨
    DeploymentStatus.is_terminal st = true →
  keeps p c c'.
Proof.
  intros Hroute Hchange Hcov Hcop Htp Htarget Hstatus.
  destruct (route_writes node d0 target routed moved Hroute) as (revision & _ & Hrouted).
  rewrite <-Htp in Hcov, Htarget, Hstatus. symmetry in Htp. constructor.
  - by eapply (routed_good node c c' d0 target r st f routed change revision).
  - intros id q. by eapply (routed_placed node c c' d0 target r st f routed change revision).
  - intros id x Hx Hp. rewrite <-Hx. eapply (routed_deployments node c c' d0 target r st f routed change revision);
      [done..|]. intros ->. congruence.
  - intros q d' Hq. rewrite Htp in Hq.
    by eapply (routed_covers node c c' d0 target r st f routed change revision).
Qed.

Lemma switch_keeps e :
  switch node d r = Ok (Some change) → environments d !! fst p = Some e → keeps p c c'.
Proof.
  intros Hs He. unfold switch in Hs. apply and_then_ok in Hs as ([routed moved] & Hroute & [= Hch]).
  eapply (route_keeps d r DeploymentStatus.Switching); [done| |done|done|done|by exists r|].
  - intros w. rewrite <-Hch. destruct moved; rewrite ?elem_of_event, elem_of_transition; reflexivity.
  - left. split; [done|]. split; [done|]. rewrite <-(covers_environment _ _ _ Hcovers). by eexists.
Qed.

Lemma delete_workload_writes e w :
  w ∈ delete_workload node e → w = WWorkload (fst e) (OpDelete (snd e)) ∨ ∃ id op, w = WStatus id op.
Proof.
  unfold delete_workload, delete_status. intros [->|Hw]%elem_of_cons; [by left|]. right.
  case_match; [|by apply elem_of_nil in Hw]. apply list_elem_of_singleton in Hw as ->. by eexists _, _.
Qed.

Lemma elem_of_deletes w es :
  w ∈ concat (delete_workload node <$> es) ↔ ∃ e, e ∈ es ∧ w ∈ delete_workload node e.
Proof.
  rewrite list_elem_of_In, in_concat. split.
  - intros (l & Hl & Hw). apply list_elem_of_In, list_elem_of_fmap in Hl as (e & -> & He).
    exists e. split; [done|]. by apply list_elem_of_In.
  - intros (e & He & Hw). exists (delete_workload node e). split; [|by apply list_elem_of_In].
    apply list_elem_of_In, list_elem_of_fmap. by exists e.
Qed.

(** What a release replaced, as rolling it back finds it. *)
Definition replaced (fetched : Desired) : option (Stored DeploymentRecord) :=
  id ← dep_previous (st_value r);
  match deployments d !! id with Some previous => Some previous | None => deployments fetched !! id end.

(** Rolling back to it routes to it, from a working copy that knows the place. *)
Lemma roll_back_routes fetched reason previous :
  roll_back config node d fetched r reason = Ok change → replaced fetched = Some previous →
  (∀ id x, deployments fetched !! id = Some x → st_id x = id ∧ (st_version x <= next_version c)%N ∧
     placed (records c) id (dep_place (st_value x))) →
  dep_place (st_value previous) = p ∧ placed (records c) (st_id previous) p ∧
  Some (st_id previous) = dep_previous (st_value r) ∧
  ∃ d0 f routed moved, route_to node change_new d0 previous = Ok (routed, moved) ∧
    (∀ w, w ∈ ch_writes change ↔ w ∈ ch_writes routed ∨
       w = WDeployment (st_id r) (OpUpdate r (merge_deployment DeploymentStatus.RolledBack (node_now node) f))) ∧
    covers p d0 (records c) ∧ copied d0 c ∧ df_rollback_reason f = Some reason.
Proof.
  intros Hb Hprev Hfetched. unfold roll_back in Hb. cbv zeta in Hb. unfold replaced in Hprev. rewrite Hprev in Hb.
  apply bind_Some in Hprev as (id & Hid & Hprev).
  pose proof (good_previous _ Hgood _ _ _ Hr Hid) as Hplaced.
  assert (Hx : st_id previous = id ∧ (st_version previous <= next_version c)%N ∧
               placed (records c) id (dep_place (st_value previous))).
  { destruct (deployments d !! id) as [x|] eqn:Hd.
    - injection Hprev as ->. destruct (copied_deployment _ _ Hcopied id previous Hd). split; [done|].
      split; [|done]. by apply (within_deployments _ _ (copied_within _ _ Hcopied) id).
    - by apply Hfetched. }
  destruct Hx as (<- & Hver & Hpp).
  assert (Hp : dep_place (st_value previous) = p) by by eapply placed_inj.
  split; [done|]. split; [by rewrite <-Hp|]. split; [done|].
  apply and_then_ok in Hb as ([routed moved] & Hroute & Hb).
  apply and_then_ok in Hb as (receipt & _ & [= Hch]).
  eexists _, _, routed, moved. split; [exact Hroute|]. split; [|split; [|split]].
  - intros w. rewrite <-Hch, elem_of_event, elem_of_transition. reflexivity.
  - clear Hprev Hroute Hch. destruct Hcovers. case_match; [|case_match]; by constructor.
  - clear Hprev Hroute Hch. destruct Hcopied as [Hci Hcd Hcw]. pose proof (within_deployments _ _ Hcw) as Hwd. destruct Hcw.
    assert (Hdeps : ∀ k x, <[st_id previous := previous]> (deployments d) !! k = Some x →
      st_id x = k ∧ (st_version x <= next_version c)%N ∧ placed (records c) k (dep_place (st_value x))).
    { intros k x Hk. apply lookup_insert_Some in Hk as [[<- <-]|[_ Hk]]; [done|].
      destruct (Hcd k x Hk). eauto. }
    case_match; [|case_match]; (constructor; [done| |constructor; try done]); simpl; naive_solver.
  - done.
Qed.

Lemma roll_back_keeps fetched reason :
  roll_back config node d fetched r reason = Ok change →
  (∀ id x, deployments fetched !! id = Some x → st_id x = id ∧ (st_version x <= next_version c)%N ∧
     placed (records c) id (dep_place (st_value x))) →
  keeps p c c'.
Proof.
  intros Hb Hfetched. destruct (replaced fetched) as [previous|] eqn:Hprev.
  - (* back to what it replaced *)
    destruct (roll_back_routes _ _ _ Hb Hprev Hfetched)
      as (Hp & Hplaced & _ & d0 & f & routed & moved & Hroute & Hw & Hcov & Hcop & _).
    by eapply (route_keeps d0 previous DeploymentStatus.RolledBack); try right.
  - (* nothing served before *)
    unfold roll_back in Hb. cbv zeta in Hb. unfold replaced in Hprev. rewrite Hprev in Hb.
    assert (Hcases : ∀ w, w ∈ ch_writes change → clear_write c d (node_now node) (λ q, q = p) w).
    { intros w Hw. apply (fail_with_writes _ _ _ _ _ _ _ _ _ _ Hb) in Hw
        as [Hw|[(f & ->)|[(id & i & f & Hi & Hdep & ->)|(m & Hm & Hnone & ->)]]].
      - assert (Hw' : w ∈ ch_writes (change_all (concat (delete_workload node <$> workloads_of d p))
                       (change_all ((λ e, WTraffic (fst e) (OpDelete (snd e))) <$>
                          filter (λ e, ta_place (st_value (snd e)) = p) (Pool.by_id (traffic d))) change_new)) ∨
                     ∃ m, memberships d !! p = Some m ∧ w = WMembership p (OpDelete m)).
        { destruct (memberships d !! p) as [m|] eqn:Hm; [|by left].
          rewrite elem_of_change_with in Hw. destruct Hw as [?| ->]; [by left|right; by exists m]. }
        clear Hw. destruct Hw' as [Hw|(m & Hm & ->)]; [|by apply clear_membership].
        rewrite !elem_of_change_all, elem_of_change_new, elem_of_deletes, list_elem_of_fmap in Hw.
        destruct Hw as [[[]|([ep a] & -> & Ha)]|([k s] & [Hks Hk]%elem_of_workloads_of & Hw)].
        + apply list_elem_of_filter in Ha as [Hp Ha%elem_of_by_id]. by apply clear_traffic.
        + apply delete_workload_writes in Hw as [->|(id & op & ->)]; [by apply clear_workload|apply clear_status].
      - by apply clear_release.
      - eapply clear_failed; [done|]. by eapply own_place.
      - by apply clear_membership. }
    assert (Hbase : ∀ w, w ∈ ch_writes (change_all (concat (delete_workload node <$> workloads_of d p))
                     (change_all ((λ e, WTraffic (fst e) (OpDelete (snd e))) <$>
                        filter (λ e, ta_place (st_value (snd e)) = p) (Pool.by_id (traffic d))) change_new)) →
                   w ∈ ch_writes change).
    { intros w Hw. unfold fail_with in Hb. apply and_then_ok in Hb as (receipt & _ & [= <-]).
      rewrite elem_of_event. case_match; [case_match|]; rewrite ?elem_of_change_with, elem_of_change_all, elem_of_transition;
        rewrite ?elem_of_change_with; tauto. }
    assert (Htraffic : ∀ ep a, traffic d !! ep = Some a → ta_place (st_value a) = p →
      WTraffic ep (OpDelete a) ∈ ch_writes change).
    { intros ep a Ha Hp. apply Hbase. rewrite !elem_of_change_all, list_elem_of_fmap. left; right.
      exists (ep, a). split; [done|]. apply list_elem_of_filter. split; [done|]. by apply elem_of_by_id. }
    assert (Hworkloads : ∀ k w, workloads d !! k = Some w → place_of k = p →
      WWorkload k (OpDelete w) ∈ ch_writes change).
    { intros k w Hw Hk. apply Hbase. rewrite !elem_of_change_all, elem_of_deletes. right.
      exists (k, w). split; [by apply elem_of_workloads_of|]. by left. }
    assert (Hcov : ∀ q, q = p → covers q d (records c)) by by intros q ->.
    constructor.
    + by eapply (clear_good c c' d (node_now node) (λ q, q = p) change).
    + intros id q. by eapply (clear_placed c c' d (node_now node) (λ q, q = p) change).
    + intros id x Hx Hp. by eapply (clear_deployments c c' d (node_now node) (λ q, q = p) change).
    + intros q d' Hq. by eapply (clear_covers c c' d (node_now node) (λ q, q = p) change).
Qed.
End advance.

Section step.
Context `{!Sha256Hex} (config : Config) (node : Node).
Context (c c' : Control) (d later : Desired) (r : Stored DeploymentRecord) (change : Change).
Notation p := (dep_place (st_value r)).
Hypothesis Hgood : good (records c).
Hypothesis Hwithin : versions_within (next_version c) (records c).
Hypothesis Hr : deployments (records c) !! st_id r = Some r.
Hypothesis Hflight : terminal r = false.
Hypothesis Hcovers : covers p d (records c).
Hypothesis Hcopied : copied d c.
Hypothesis Hlater : covers p later (records c).
Hypothesis Hlater_copied : copied later c.
Hypothesis Hcommit : commit change c = Ok c'.

Lemma absent_unrouted :
  environments d !! fst p = None ∨ memberships d !! p = None → unrouted (records c) (st_id r).
Proof.
  intros Hno ep a Ha Hid.
  assert (Hp : ta_place (st_value a) = p).
  { eapply placed_inj; [by eapply traffic_placed|]. rewrite Hid. by exists r. }
  destruct Hno as [He|Hm].
  - rewrite (covers_environment _ _ _ Hcovers) in He.
    destruct (good_moved _ Hgood ep a r Ha) as [_ Henv]; [by rewrite Hid|done|].
    change (ta_environment (st_value a)) with (fst (ta_place (st_value a))) in Henv. rewrite Hp, He in Henv.
    by destruct Henv.
  - rewrite (covers_membership _ _ _ Hcovers) in Hm.
    destruct (good_traffic _ Hgood ep a Ha) as [(m & Hm' & _) _]. rewrite Hp in Hm'. congruence.
Qed.

(** Whatever does not move traffic writes the release's own records only. *)
Lemma step_own checked checked' :
  step config node d later (records c) r checked = (Ok (Some change), checked') →
  dep_status (st_value r) ≠ DeploymentStatus.NetworkReady → dep_status (st_value r) ≠ DeploymentStatus.Switching →
  (∀ w, w ∈ ch_writes change → own_write c d r (node_now node) w) ∨
  (∀ w, w ∈ ch_writes change → own_write c later r (node_now node) w).
Proof.
  intros Hstep Hnr Hsw. unfold step in Hstep.
  assert (Hfail : ∀ stage reason, (let? ch := fail config node later r stage reason in Ok (Some ch)) = Ok (Some change) →
    unrouted (records c) (st_id r) → ∀ w, w ∈ ch_writes change → own_write c later r (node_now node) w).
  { intros stage reason Hf Hun. apply and_then_ok in Hf as (ch & Hf & [= ->]). by eapply fail_own. }
  destruct (environments d !! dep_environment (st_value r)) as [e|] eqn:He.
  2:{ injection Hstep as Hstep _. right. apply (Hfail _ _ Hstep). apply absent_unrouted. by left. }
  destruct (memberships d !! p) as [m|] eqn:Hm.
  2:{ injection Hstep as Hstep _. right. apply (Hfail _ _ Hstep). apply absent_unrouted. by right. }
  match type of Hstep with (if ?b then _ else _) = _ => destruct b end.
  { injection Hstep as Hstep _. left. by apply (complete_own config node c r d). }
  assert (Hun : has_moved (dep_status (st_value r)) = false → unrouted (records c) (st_id r))
    by by apply unmoved_unrouted.
  destruct (dep_status (st_value r)) eqn:Hst; simpl in Hun; try done.
  - injection Hstep as Hstep _. by apply (admit_own config node c r later d e), Hun.
  - left. by apply (await_own config node c r d _ _ _ Hstep), Hun.
  - injection Hstep as Hstep _. right. by apply (network_own config node c r later _ _ Hstep), Hun.
  - injection Hstep as Hstep _. left. apply (begin_drain_own node c r d). by rewrite <-Hstep.
  - injection Hstep as Hstep _. left. by apply (finish_drain_own config node c r d).
Qed.

Lemma step_keeps checked checked' :
  step config node d later (records c) r checked = (Ok (Some change), checked') → keeps p c c'.
Proof.
  intros Hstep.
  pose proof (own_keeps c c' d r change Hgood Hwithin Hr Hflight Hcovers Hcopied Hcommit (node_now node)) as Hown.
  pose proof (own_keeps c c' later r change Hgood Hwithin Hr Hflight Hlater Hlater_copied Hcommit (node_now node)) as Hown'.
  assert (Hcases : dep_status (st_value r) = DeploymentStatus.NetworkReady ∨
    dep_status (st_value r) = DeploymentStatus.Switching ∨
    dep_status (st_value r) ≠ DeploymentStatus.NetworkReady ∧ dep_status (st_value r) ≠ DeploymentStatus.Switching)
    by (destruct (dep_status (st_value r)); auto).
  destruct Hcases as [Hst|[Hst|[Hnr Hsw]]]; [| |by destruct (step_own _ _ Hstep Hnr Hsw); auto];
    unfold step in Hstep; rewrite Hst in Hstep;
    (destruct (environments d !! dep_environment (st_value r)) as [e|] eqn:He;
     [|injection Hstep as Hstep _; apply and_then_ok in Hstep as (ch & Hf & [= ->]); apply Hown';
       eapply fail_own; [done|]; apply absent_unrouted; by left]);
    (destruct (memberships d !! p) as [m|] eqn:Hm;
     [|injection Hstep as Hstep _; apply and_then_ok in Hstep as (ch & Hf & [= ->]); apply Hown';
       eapply fail_own; [done|]; apply absent_unrouted; by right]);
    rewrite andb_false_r in Hstep; injection Hstep as Hstep _.
  - by eapply (switch_keeps node c c' d r).
  - unfold verify_switch in Hstep. destruct (try_map _ _) as [verified|problem].
    + injection Hstep as Hstep. apply Hown. intros w. rewrite <-Hstep, elem_of_transition, elem_of_change_new.
      intros [[]| ->]. apply own_status. by left.
    + case_match; [|done]. apply and_then_ok in Hstep as (ch & Hback & [= ->]).
      eapply (roll_back_keeps config node c c' d r); try done. intros id x Hx. split; [by apply (good_deployment _ Hgood)|].
      split; [by eapply (within_deployments _ _ Hwithin)|]. by exists x.
Qed.
End step.
