(* ===== verification/ReleaseReached.v ===== *)
(** Every state the release system reaches is [sound]: each of its steps keeps the
    invariant, whether its commit lands or not. *)

From S2P Require Import Prelude Text Core Isolation Policy Admission Descriptor Matching Pool Placement State Auth Release ReleaseSteps ReleaseSystem ReleaseFacts ReleaseSafety ReleaseRoutes ReleaseRounds.

(** ** What does not depend on revisions and domains *)

(** Two states with the same records, those apart. *)
Record alike (d d' : Desired) : Prop := {
  alike_environments : environments d' = environments d;
  alike_memberships : memberships d' = memberships d;
  alike_workloads : workloads d' = workloads d;
  alike_deployments : deployments d' = deployments d;
  alike_instances : instances d' = instances d;
  alike_traffic : traffic d' = traffic d;
}.

Lemma alike_placed d d' id q : alike d d' → placed d id q → placed d' id q.
Proof. intros Ha (r & Hr & Hp). exists r. by rewrite (alike_deployments _ _ Ha). Qed.

Lemma alike_good d d' : alike d d' → good d → good d'.
Proof.
  intros [He Hm Hw Hd Hi Ht] [G1 G2 G3 G4 G5 G6 G7 G8].
  unfold follows, is_current, serving, declared, placed in *.
  constructor; unfold follows, is_current, serving, declared, placed; by rewrite ?He, ?Hm, ?Hw, ?Hd, ?Hi, ?Ht.
Qed.

Lemma alike_within n d d' : alike d d' → versions_within n d → versions_within n d'.
Proof. intros [He Hm Hw Hd Hi Ht] []. constructor; by rewrite ?He, ?Hm, ?Hw, ?Hd, ?Hi, ?Ht. Qed.

Lemma alike_covers p d c c' : alike c c' → covers p d c → covers p d c'.
Proof. intros [He Hm Hw Hd Hi Ht] []. constructor; by rewrite ?He, ?Hm, ?Hw, ?Hd, ?Hi, ?Ht. Qed.

Lemma copied_mono d c c' :
  (∀ id q, placed (records c) id q → placed (records c') id q) → (next_version c <= next_version c')%N →
  copied d c → copied d c'.
Proof.
  intros Hp Hn [Hi Hd Hw]. constructor.
  - intros id i Hid. destruct (Hi id i Hid). split; [done|]. by apply Hp.
  - intros id r Hid. destruct (Hd id r Hid). split; [done|]. by apply Hp.
  - by eapply within_mono.
Qed.

(** A commit that was tried: what holds before and of what it makes, holds after. *)
Lemma attempt_keeps change c c' (P : Control → Prop) :
  attempt change c c' → P c → (commit change c = Ok c' → P c') → P c'.
Proof. intros [c1 Hc|] HP Hmade; auto. Qed.

Lemma attempt_within change c c' :
  attempt change c c' → versions_within (next_version c) (records c) →
  versions_within (next_version c') (records c') ∧ (next_version c <= next_version c')%N.
Proof.
  intros [c1 Hc|] Hw; [|done]. split; [by eapply commit_within|]. by eapply next_version_commit.
Qed.

(** ** The releases of a round *)

Lemma in_flight_once d : (∀ id r, deployments d !! id = Some r → st_id r = id) → NoDup (st_id <$> in_flight d).
Proof.
  intros Hid. unfold in_flight. change (map snd (Pool.by_id (deployments d))) with (snd <$> Pool.by_id (deployments d)).
  assert (Hall : st_id <$> (snd <$> Pool.by_id (deployments d)) = (Pool.by_id (deployments d)).*1).
  { rewrite <-list_fmap_compose. apply list_fmap_ext. intros i [id r] Hi. simpl. apply Hid, elem_of_by_id.
    by eapply list_elem_of_lookup_2. }
  assert (Hnd : NoDup (st_id <$> (snd <$> Pool.by_id (deployments d)))).
  { rewrite Hall. apply by_id_NoDup. }
  clear Hall. induction (snd <$> Pool.by_id (deployments d)) as [|r l IH]; [constructor|].
  apply NoDup_cons in Hnd as [Hr Hnd]. rewrite filter_cons. case_decide; simpl; [|by apply IH].
  constructor; [|by apply IH]. contradict Hr. apply list_elem_of_fmap in Hr as (r' & Heq & Hr').
  apply list_elem_of_fmap. exists r'. split; [done|]. by apply list_elem_of_filter in Hr' as [_ ?].
Qed.

Section reached.
Context `{!Sha256Hex} (config : Config).
Context (config_digest : gmap string string → gmap string string → string).

Lemma round_sound s node assigns retains routes' errors' c1 c2 :
  sound s → attempt (adopt_services config node (working_copy (control s))) (control s) c1 →
  attempt (drain_instances config node (working_copy (control s))) c1 c2 →
  sync_endpoints (working_copy (control s)) assigns retains (routes s) = (routes', errors') →
  sound {| control := c2; desired := working_copy (control s); queue := in_flight (working_copy (control s));
           checked := checked s; routes := routes'; errors := errors' |}.
Proof.
  intros [Hgood Hwithin _ _ _] Hadopt Hdrain _. set (d := working_copy (control s)).
  pose proof (copied_working_copy _ Hgood Hwithin) as Hcopied. fold d in Hcopied.
  destruct (attempt_within _ _ _ Hadopt Hwithin) as [Hwithin1 Hnext1].
  destruct (attempt_within _ _ _ Hdrain Hwithin1) as [Hwithin2 Hnext2].
  assert (Hgood1 : good (records c1)).
  { apply (attempt_keeps _ _ _ (λ c, good (records c)) Hadopt); [done|]. by apply adopt_good. }
  assert (Hplaced1 : ∀ id q, placed (records (control s)) id q → placed (records c1) id q).
  { apply (attempt_keeps _ _ _ (λ c, ∀ id q, placed (records (control s)) id q → placed (records c) id q) Hadopt); [done|].
    intros Hc id q. by eapply adopt_placed. }
  assert (Hexact : ∀ id i, instances d !! id = Some i → instances (records c1) !! id = Some i).
  { apply (attempt_keeps _ _ _ (λ c, ∀ id i, instances d !! id = Some i → instances (records c) !! id = Some i) Hadopt);
      [done|]. intros Hc id i. by eapply adopt_instance_kept. }
  assert (Hdeps1 : ∀ id, deployments (records c1) !! id = deployments (records (control s)) !! id).
  { apply (attempt_keeps _ _ _ (λ c, ∀ id, deployments (records c) !! id = deployments (records (control s)) !! id) Hadopt);
      [done|]. intros Hc id. by eapply adopt_deployments. }
  assert (Hcov1 : ∀ r, r ∈ in_flight d → covers (dep_place (st_value r)) d (records c1)).
  { intros r Hr. apply (attempt_keeps _ _ _ (λ c, covers _ d (records c)) Hadopt); [apply covers_working_copy|].
    intros Hc. eapply adopt_covers; [done..|]. apply list_elem_of_fmap. by exists r. }
  pose proof (copied_mono _ _ _ Hplaced1 Hnext1 Hcopied) as Hcopied1.
  assert (Hdeps2 : ∀ id, deployments (records c2) !! id = deployments (records c1) !! id).
  { apply (attempt_keeps _ _ _ (λ c, ∀ id, deployments (records c) !! id = deployments (records c1) !! id) Hdrain);
      [done|]. intros Hc id. by eapply drain_deployments. }
  constructor; simpl.
  - apply (attempt_keeps _ _ _ (λ c, good (records c)) Hdrain); [done|]. intros Hc. by eapply drain_good.
  - done.
  - eapply copied_mono; [|done..]. intros id q (r & Hr & Hp). exists r. by rewrite Hdeps2.
  - apply in_flight_once. intros id r Hr%working_copy_deployment. by apply (good_deployment _ Hgood).
  - intros r Hr. pose proof Hr as ((id & Hid) & Hterm)%elem_of_in_flight. apply working_copy_deployment in Hid.
    pose proof (good_deployment _ Hgood id r Hid) as <-. split; [by rewrite Hdeps2, Hdeps1|]. split; [done|].
    apply (attempt_keeps _ _ _ (λ c, covers _ d (records c)) Hdrain); [by apply Hcov1|].
    intros Hc. eapply drain_covers; [done..|]. by apply Hcov1.
Qed.

(** One release advanced: the others of the round are as they were. *)
Lemma release_sound s node release rest later result checked' c' :
  sound s → queue s = release :: rest → later = desired s ∨ later = working_copy (control s) →
  step config node (desired s) later (records (control s)) release (checked s) = (result, checked') →
  match result with Ok (Some change) => attempt change (control s) c' | _ => c' = control s end →
  sound {| control := c'; desired := desired s; queue := rest; checked := checked'; routes := routes s;
           errors := errors s |}.
Proof.
  intros [Hgood Hwithin Hcopied Honce Hqueue] Hq Hlater Hstep Hresult. rewrite Hq in Honce, Hqueue.
  apply NoDup_cons in Honce as [Hnot Honce].
  destruct (Hqueue release) as (Hr & Hflight & Hcovers); [by left|].
  assert (Hkeeps : c' = control s ∨
    (keeps (dep_place (st_value release)) (control s) c' ∧ versions_within (next_version c') (records c') ∧
     (next_version (control s) <= next_version c')%N)).
  { destruct result as [[change|]|e]; [|by left..]. destruct Hresult as [c' Hc|]; [|by left]. right.
    split; [|split; [by eapply commit_within|by eapply next_version_commit]].
    assert (covers (dep_place (st_value release)) later (records (control s)) ∧ copied later (control s)) as [Hlc Hlp].
    { destruct Hlater as [->| ->]; [done|]. split; [apply covers_working_copy|by apply copied_working_copy]. }
    by eapply (step_keeps config node (control s) c' (desired s) later release change). }
  destruct Hkeeps as [->|([Hg Hpl Hdeps Hcov] & Hw & Hn)].
  - constructor; simpl; try done. intros r Hin. apply Hqueue. by right.
  - constructor; simpl; try done; [by eapply copied_mono|].
    intros r Hin. destruct (Hqueue r) as (Hr' & Hflight' & Hcovers'); [by right|].
    assert (dep_place (st_value r) ≠ dep_place (st_value release)) as Hne.
    { intros Hp. apply Hnot. rewrite (good_one _ Hgood (st_id release) (st_id r) release r); try done.
      apply list_elem_of_fmap. by exists r. }
    split; [by apply Hdeps|]. split; [done|]. by apply Hcov.
Qed.

(** ** What operators ask for *)

Section operated.
Context (c : Control) (node : Node).
Notation d := (working_copy c).
Hypothesis Hgood : good (records c).
Hypothesis Hwithin : versions_within (next_version c) (records c).

(** What an operation comes to: it keeps the invariant, and deployments where they are. *)
Definition keeps_good (c' : Control) : Prop :=
  good (records c') ∧ ∀ id q, placed (records c) id q → placed (records c') id q.

Lemma find_environment_ok name e :
  find_environment d name = Ok e → ∃ k, environments (records c) !! k = Some e.
Proof.
  unfold find_environment, environment. destruct (environments d !! name) as [e0|] eqn:He.
  - intros [= <-]. by exists name.
  - destruct (List.find _ _) as [e0|] eqn:Hf; [|done]. intros [= <-]. apply List.find_some in Hf as [Hin _].
    apply list_elem_of_In, elem_of_values in Hin as (id & Hid). by exists id.
Qed.

Lemma settled change c' new :
  (∀ w, w ∈ ch_writes change → settle_write c new w) → commit change c = Ok c' → keeps_good c'.
Proof.
  intros Hs Hc. split; [by eapply settle_good|]. intros id q. by eapply settle_placed.
Qed.

Lemma elem_of_wrapped w kind scope message w0 ch :
  w ∈ ch_writes (event kind scope message (change_with w0 ch)) → w ∈ ch_writes ch ∨ w = w0.
Proof. by rewrite elem_of_event, elem_of_change_with. Qed.

(** A deployment is one more record, of a place nothing is being released to. *)
Lemma deploy_settles request promoted_from id change :
  deploy_with node config_digest d (records c) request promoted_from = Ok (id, change) →
  ∃ record, dep_status record = DeploymentStatus.Pending ∧
    ∀ w, w ∈ ch_writes change → settle_write c (Some (id, record)) w.
Proof.
  assert (Hmem : memberships d = memberships (records c)) by done.
  assert (Hheld : ∀ x r, deployments (records c) !! x = Some r → terminal r = false → r ∈ in_flight d).
  { intros x r Hr Hterm. apply elem_of_in_flight. split; [|done]. exists x. by apply working_copy_in_flight. }
  revert Hmem Hheld. generalize d as dd. intros dd Hmem Hheld. unfold deploy_with. cbv zeta. intros Hd.
  apply and_then_ok in Hd as (_ & _ & Hd). apply and_then_ok in Hd as (e & He & Hd).
  apply and_then_ok in Hd as (_ & _ & Hd). apply and_then_ok in Hd as ([rid rev] & _ & Hd).
  apply and_then_ok in Hd as (u & Hnone & Hd). apply and_then_ok in Hd as (_ & _ & Hd).
  destruct (List.find _ _) as [busy|] eqn:Hfree; [done|].
  assert (Hone : ∀ x r, deployments (records c) !! x = Some r → terminal r = false →
    dep_place (st_value r) ≠ (env_name (st_value e), dq_project request)).
  { intros x r Hr Hterm Hp. pose proof (List.find_none _ _ Hfree r) as Hno. simpl in Hno.
    rewrite bool_decide_eq_true_2 in Hno by done. discriminate Hno. by eapply list_elem_of_In, Hheld. }
  injection Hd as <- <-. rewrite Hmem.
  match goal with |- context [WDeployment _ (OpCreate _ ?r)] => exists r end. split; [done|]. intros w Hw. rewrite elem_of_event in Hw.
  destruct (memberships (records c) !! (env_name (st_value e), dq_project request)) as [m|] eqn:Hm.
  - assert (Hprev : ∀ x, mem_deployment_id (st_value m) = Some x →
      placed (records c) x (env_name (st_value e), dq_project request)) by (intros x; by apply (good_member _ Hgood)).
    assert (Hver : (st_version m <= next_version c)%N) by by apply (within_memberships _ _ Hwithin (env_name (st_value e), dq_project request)).
    destruct (dq_desired_state request) as [state|]; [case_bool_decide|];
      rewrite ?elem_of_change_with, ?elem_of_change_new in Hw.
    + destruct Hw as [[]| ->]. by apply settle_deploy.
    + destruct Hw as [[[]| ->]| ->]; [by apply settle_deploy|]. by apply settle_member.
    + destruct Hw as [[]| ->]. by apply settle_deploy.
  - rewrite elem_of_event, !elem_of_change_with, elem_of_change_new in Hw.
    destruct Hw as [[[]| ->]| ->]; [by apply settle_deploy|by apply settle_join].
Qed.

Lemma create_settles id e change w :
  create_environment d id e = Ok change → w ∈ ch_writes change → settle_write c None w.
Proof.
  unfold create_environment. intros Hc Hw. apply and_then_ok in Hc as (_ & _ & [= <-]).
  apply elem_of_wrapped in Hw as [[]%elem_of_change_new| ->]. by apply settle_environment.
Qed.

Lemma environment_state_settles name state restart change w :
  set_environment_state d name state restart = Ok change → w ∈ ch_writes change → settle_write c None w.
Proof.
  unfold set_environment_state. intros Hc Hw. apply and_then_ok in Hc as (e & (k & He)%find_environment_ok & [= <-]).
  apply elem_of_wrapped in Hw as [[]%elem_of_change_new| ->].
  apply settle_environment; [done|]. by apply (within_environments _ _ Hwithin k).
Qed.

Lemma membership_ok environment project p m :
  membership d environment project = Ok (p, m) → memberships (records c) !! p = Some m.
Proof.
  unfold membership. intros Hm. apply and_then_ok in Hm as (e & _ & Hm).
  destruct (memberships d !! _) as [m0|] eqn:Hm0; [|done]. by injection Hm as <- <-.
Qed.

Lemma project_state_settles environment project state restart change w :
  set_project_state node d environment project state restart = Ok change → w ∈ ch_writes change →
  settle_write c None w.
Proof.
  unfold set_project_state. intros Hc Hw. apply and_then_ok in Hc as ([p m] & Hm%membership_ok & [= <-]).
  apply elem_of_wrapped in Hw as [[]%elem_of_change_new| ->].
  apply settle_member; [done|]. by apply (within_memberships _ _ Hwithin p).
Qed.

Lemma workload_state_settles environment project workload state restart change w :
  set_workload_state d environment project workload state restart = Ok change → w ∈ ch_writes change →
  settle_write c None w.
Proof.
  unfold set_workload_state. intros Hc Hw. apply and_then_ok in Hc as (e & _ & Hc). cbv zeta in Hc.
  destruct (workloads d !! _) as [record|] eqn:Hr; [|done]. apply and_then_ok in Hc as (_ & _ & [= <-]).
  apply elem_of_wrapped in Hw as [[]%elem_of_change_new| ->].
  apply settle_workload; [done|]. by apply (within_workloads _ _ Hwithin (env_name (st_value e), project, workload)).
Qed.

Lemma cleared change c' (P : Place → Prop) :
  (∀ w, w ∈ ch_writes change → clear_write c d (node_now node) P w) →
  (∀ ep a, traffic d !! ep = Some a → P (ta_place (st_value a)) → WTraffic ep (OpDelete a) ∈ ch_writes change) →
  (∀ k w, workloads d !! k = Some w → P (place_of k) → WWorkload k (OpDelete w) ∈ ch_writes change) →
  commit change c = Ok c' → keeps_good c'.
Proof.
  intros Hw Ht Hk Hc. assert (Hcov : ∀ q, P q → covers q d (records c)) by (intros; apply covers_working_copy).
  pose proof (copied_working_copy _ Hgood Hwithin) as Hcopied. split.
  - by eapply (clear_good c c' d (node_now node) P change).
  - intros id q. by eapply (clear_placed c c' d (node_now node) P change).
Qed.

Lemma elem_of_assignments_deleted (P : string * Stored TrafficAssignmentRecord → Prop)
    `{∀ s, Decision (P s)} w :
  w ∈ delete_assignments (filter P (Pool.by_id (traffic d))) ↔
  ∃ ep a, traffic d !! ep = Some a ∧ P (ep, a) ∧ w = WTraffic ep (OpDelete a).
Proof.
  unfold delete_assignments. rewrite list_elem_of_fmap. split.
  - intros ([ep a] & -> & [Hp Hin%elem_of_by_id]%list_elem_of_filter). by exists ep, a.
  - intros (ep & a & Ha & Hp & ->). exists (ep, a). split; [done|]. apply list_elem_of_filter. split; [done|].
    by apply elem_of_by_id.
Qed.

Lemma elem_of_instances_deleted f w :
  w ∈ delete_instances (instances_where d f) ↔
  ∃ id i, instances d !! id = Some i ∧ f (st_value i) = true ∧ w = WInstance (st_id i) (OpDelete i).
Proof.
  unfold delete_instances. rewrite list_elem_of_fmap. split.
  - intros (i & -> & [(id & Hi) Hf]%elem_of_instances_where). by exists id, i.
  - intros (id & i & Hi & Hf & ->). exists i. split; [done|]. apply elem_of_instances_where. split; [by exists id|done].
Qed.

Lemma remove_writes environment project change :
  remove_project node d environment project = Ok change →
  ∃ p m, memberships (records c) !! p = Some m ∧ ∀ w, w ∈ ch_writes change ↔
    w = WMembership p (OpDelete m) ∨ w ∈ concat (delete_workload node <$> workloads_of d p) ∨
    w ∈ delete_instances (instances_where d (λ i, bool_decide (inst_place i = p))) ∨
    w ∈ delete_assignments (filter (λ e, ta_place (st_value (snd e)) = p) (Pool.by_id (traffic d))).
Proof.
  unfold remove_project. intros Hr. apply and_then_ok in Hr as ([p m] & Hm%membership_ok & Hr).
  apply and_then_ok in Hr as (_ & _ & [= Hch]). exists p, m. split; [done|].
  intros w. rewrite <-Hch, elem_of_event, !elem_of_change_all, elem_of_change_with, elem_of_change_new. tauto.
Qed.

Lemma remove_keeps environment project change c' :
  remove_project node d environment project = Ok change → commit change c = Ok c' → keeps_good c'.
Proof.
  intros (p & m & Hm & Hw)%remove_writes Hc.
  apply (cleared change c' (λ q, q = p)); [| | |done].
  - intros w [->|[Hin|[Hin|Hin]]]%Hw.
    + by apply clear_membership.
    + apply elem_of_deletes in Hin as ([k s] & [Hs Hk]%elem_of_workloads_of & Hin).
      apply delete_workload_writes in Hin as [->|(id & op & ->)]; [by apply clear_workload|apply clear_status].
    + apply elem_of_instances_deleted in Hin as (id & i & Hi & Hp%bool_decide_eq_true & ->). by eapply clear_instance.
    + apply elem_of_assignments_deleted in Hin as (ep & a & Ha & Hp & ->). by apply clear_traffic.
  - intros ep a Ha Hp. apply Hw. do 3 right. apply elem_of_assignments_deleted. by exists ep, a.
  - intros k w Hk Hp. apply Hw. right; left. apply elem_of_deletes. exists (k, w).
    split; [by apply elem_of_workloads_of|by left].
Qed.

Lemma destroy_writes name change :
  destroy_environment node d name = Ok change →
  ∃ env k e, environments (records c) !! k = Some e ∧ ∀ w, w ∈ ch_writes change ↔
    w = WEnvironment env (OpDelete e) ∨
    w ∈ (λ m, WMembership (fst m) (OpDelete (snd m))) <$>
          filter (λ m, fst (fst m) = env) (entries compare_places (memberships d)) ∨
    w ∈ concat (delete_workload node <$>
          filter (λ w, fst (place_of (fst w)) = env) (entries compare_keys (workloads d))) ∨
    w ∈ delete_instances (instances_where d (λ i, String.eqb (inst_environment i) env)) ∨
    w ∈ delete_assignments (filter (λ t, ta_environment (st_value (snd t)) = env) (Pool.by_id (traffic d))).
Proof.
  unfold destroy_environment. intros Hr. apply and_then_ok in Hr as (e & (k0 & He)%find_environment_ok & Hr).
  cbv zeta in Hr. apply and_then_ok in Hr as (_ & _ & [= Hch]). exists (env_name (st_value e)), k0, e.
  split; [done|]. intros w.
  rewrite <-Hch, elem_of_event, !elem_of_change_all, elem_of_change_with, elem_of_change_new. tauto.
Qed.

Lemma destroy_keeps name change c' :
  destroy_environment node d name = Ok change → commit change c = Ok c' → keeps_good c'.
Proof.
  intros (env & k0 & e & He & Hw)%destroy_writes Hc.
  apply (cleared change c' (λ q, fst q = env)); [| | |done].
  - intros w [->|[Hin|[Hin|[Hin|Hin]]]]%Hw.
    + by eapply clear_environment.
    + apply list_elem_of_fmap in Hin as ([q m] & -> & [Hq Hm%elem_of_entries]%list_elem_of_filter).
      by apply clear_membership.
    + apply elem_of_deletes in Hin as ([k s] & [Hk Hs%elem_of_entries]%list_elem_of_filter & Hin).
      apply delete_workload_writes in Hin as [->|(id & op & ->)]; [by apply clear_workload|apply clear_status].
    + apply elem_of_instances_deleted in Hin as (id & i & Hi & Hp%String.eqb_eq & ->). by eapply clear_instance.
    + apply elem_of_assignments_deleted in Hin as (ep & a & Ha & Hp & ->). by apply clear_traffic.
  - intros ep a Ha Hp. apply Hw. do 4 right. apply elem_of_assignments_deleted. by exists ep, a.
  - intros k w Hk Hp. apply Hw. do 2 right; left. apply elem_of_deletes. exists (k, w).
    split; [|by left]. apply list_elem_of_filter. split; [done|]. by apply elem_of_entries.
Qed.

Lemma keeps_keeps_good p c' : keeps p c c' → keeps_good c'.
Proof. intros [? Hp _ _]. by split. Qed.

(** A release rolled back: before its switch it fails, after it traffic goes back, and
    once complete what it replaced is deployed. *)
Lemma rollback_keeps id r :
  rollback config node d (records c) id = Ok (inl r) → ∀ c', commit r c = Ok c' → keeps_good c'.
Proof.
  intros Hrb c' Hc. unfold rollback in Hrb.
  destruct (deployments (records c) !! id) as [release|] eqn:Hid; [|done]. cbv zeta in Hrb.
  pose proof (good_deployment _ Hgood id release Hid) as <-.
  pose proof (covers_working_copy (dep_place (st_value release)) c) as Hcov.
  pose proof (copied_working_copy _ Hgood Hwithin) as Hcopied.
  assert (Hfail : ∀ stage reason, fail config node d release stage reason = Ok r → terminal release = false →
    has_moved (dep_status (st_value release)) = false → keeps_good c').
  { intros stage reason Hf Hterm Hmoved. eapply keeps_keeps_good.
    eapply (own_keeps c c' d release r); [done..|]. eapply fail_own; [done|]. by eapply unmoved_unrouted. }
  assert (Hback : ∀ reason, roll_back config node d (records c) release reason = Ok r → terminal release = false →
    keeps_good c').
  { intros reason Hb Hterm. eapply keeps_keeps_good. eapply (roll_back_keeps config node c c' d release r); [done..|].
    intros x y Hy. split; [by apply (good_deployment _ Hgood)|].
    split; [by apply (within_deployments _ _ Hwithin x)|]. by exists y. }
  unfold terminal in *.
  destruct (dep_status (st_value release)) eqn:Hst; try done;
    try (apply and_then_ok in Hrb as (ch & Hch & [= ->]); eauto; fail).
  apply and_then_ok in Hrb as (_ & _ & Hrb). destruct (dep_previous _); [|done].
  by destruct (deployments (records c) !! _).
Qed.

Theorem operate_keeps op change c' :
  operate config config_digest node d (records c) op = Ok change → commit change c = Ok c' → keeps_good c'.
Proof.
  intros Hop Hc.
  assert (Hdeploy : ∀ request promoted_from,
    (let? r := deploy_with node config_digest d (records c) request promoted_from in Ok (snd r)) = Ok change →
    keeps_good c').
  { intros request promoted_from Hd. apply and_then_ok in Hd as ([id ch] & Hd & [= ->]).
    apply deploy_settles in Hd as (record & _ & Hnew). by eapply settled. }
  assert (Hsettled : (∀ w, w ∈ ch_writes change → settle_write c None w) → keeps_good c')
    by (intros Hw; by eapply settled).
  destruct op; unfold operate in Hop.
  - by eapply Hdeploy.
  - apply and_then_ok in Hop as ([r|request] & Hrb & Hop); [|by eapply Hdeploy].
    injection Hop as ->. by eapply rollback_keeps.
  - apply Hsettled. intros w. by eapply create_settles.
  - by eapply destroy_keeps.
  - apply Hsettled. intros w. by eapply environment_state_settles.
  - by eapply remove_keeps.
  - apply Hsettled. intros w. by eapply project_state_settles.
  - apply Hsettled. intros w. by eapply workload_state_settles.
Qed.
End operated.

(** ** The system *)

Lemma operate_sound s node op change c' :
  sound s → operate config config_digest node (working_copy (control s)) (records (control s)) op = Ok change →
  attempt change (control s) c' →
  sound {| control := c'; desired := working_copy (control s); queue := []; checked := checked s;
           routes := routes s; errors := errors s |}.
Proof.
  intros [Hgood Hwithin _ _ _] Hop Hatt. destruct (attempt_within _ _ _ Hatt Hwithin) as [Hwithin' Hnext].
  destruct (attempt_keeps _ _ _ (keeps_good (control s)) Hatt) as [Hgood' Hplaced]; [by split| |].
  { intros Hc. by eapply operate_keeps. }
  constructor; simpl; [done|done| |constructor|by intros r ?%elem_of_nil].
  eapply copied_mono; [done..|]. by apply copied_working_copy.
Qed.

(** What is not a release's record changes: the invariant is untouched. *)
Lemma alike_sound s c' :
  alike (records (control s)) (records c') → next_version c' = next_version (control s) → sound s →
  sound {| control := c'; desired := desired s; queue := queue s; checked := checked s; routes := routes s;
           errors := errors s |}.
Proof.
  intros Ha Hn [Hgood Hwithin Hcopied Honce Hqueue]. constructor; simpl.
  - by eapply alike_good.
  - rewrite Hn. by eapply alike_within.
  - eapply (copied_mono (desired s) (control s)); [|by rewrite Hn|done]. intros id q. by apply alike_placed.
  - done.
  - intros r Hr. destruct (Hqueue r Hr) as (Hid & Hterm & Hcov). rewrite (alike_deployments _ _ Ha).
    split; [done|]. split; [done|]. by eapply alike_covers.
Qed.

Theorem sys_step_sound s s' : sys_step config config_digest s s' → sound s → sound s'.
Proof.
  intros Hstep Hs. pose proof Hs as [Hgood Hwithin Hcopied Honce Hqueue].
  pose proof (copied_working_copy _ Hgood Hwithin) as Hwc.
  destruct Hstep as [s node assigns retains routes' errors' c1 c2 d Hsync Hr He Hadopt Hdrain
                    |s node release rest later result checked' c' Hq Hsees Hlater Hstep Hresult
                    |s|s|s node op change c' Hq Hsees Hop Hatt|s id revision Hnew|s domains' statuses'|s routes' Hroutes].
  - by eapply round_sound.
  - by eapply release_sound.
  - constructor; simpl; try done. intros r Hr. destruct (Hqueue r Hr) as (Hid & Hterm & _).
    split; [done|]. split; [done|]. apply covers_working_copy.
  - constructor; simpl; try done; [constructor|by intros r ?%elem_of_nil].
  - by eapply operate_sound.
  - by apply alike_sound.
  - by apply alike_sound.
  - constructor; simpl; try done; [constructor|by intros r ?%elem_of_nil].
Qed.

Lemma initial_sound s : initial s → sound s.
Proof.
  intros ([Hi Ht Hm Hw Hone Hprev Hid Hver] & Hd & Hq & _).
  assert (Hgood : good (records (control s))).
  { constructor.
    - done.
    - intros id i. by rewrite Hi, lookup_empty.
    - intros p m id Hp Hdep. by eapply Hm.
    - intros k w Hk. by eapply Hw.
    - intros id r id' Hr Hp. by eapply Hprev.
    - done.
    - intros ep a. by rewrite Ht, lookup_empty.
    - intros ep a r. by rewrite Ht, lookup_empty. }
  constructor; rewrite ?Hd, ?Hq; try done; [by apply copied_working_copy|constructor|by intros r ?%elem_of_nil].
Qed.

Theorem reached_sound s : reached config config_digest s → sound s.
Proof.
  intros (s0 & Hinit & Hreach). induction Hreach as [|s s' Hreach IH Hstep]; [by apply initial_sound|].
  by eapply sys_step_sound.
Qed.
End reached.
