(* ===== verification/ReleaseLifecycle.v ===== *)
(** The life of a release: the statuses that follow each other, how each is recorded,
    and the receipt of how it ended. *)

From S2P Require Import Prelude Text Core Isolation Policy Admission Descriptor Matching Pool Placement State Auth Release ReleaseSteps ReleaseSystem ReleaseFacts ReleaseSafety ReleaseRoutes ReleaseRounds ReleaseReached.

(** ** Statuses *)

(** The statuses that follow one: on to the next, complete when there is nothing to
    release, rolled back once traffic moved, failed from wherever it is under way. *)
Definition may_follow (s t : DeploymentStatus) : bool :=
  match s, t with
  | DeploymentStatus.Pending, DeploymentStatus.Starting | DeploymentStatus.Starting, DeploymentStatus.Ready
  | DeploymentStatus.Ready, DeploymentStatus.NetworkReady | DeploymentStatus.NetworkReady, DeploymentStatus.Switching
  | DeploymentStatus.Switching, DeploymentStatus.Active | DeploymentStatus.Active, DeploymentStatus.Draining
  | DeploymentStatus.Draining, DeploymentStatus.Complete => true
  | (DeploymentStatus.Pending | DeploymentStatus.Starting | DeploymentStatus.Ready), DeploymentStatus.Complete => true
  | (DeploymentStatus.Switching | DeploymentStatus.Active | DeploymentStatus.Draining), DeploymentStatus.RolledBack =>
      true
  | s, DeploymentStatus.Failed => negb (DeploymentStatus.is_terminal s)
  | _, _ => false
  end.

(** How far a release is: it never goes back. *)
Definition progress (s : DeploymentStatus) : nat :=
  match s with
  | DeploymentStatus.Pending => 0
  | DeploymentStatus.Starting => 1
  | DeploymentStatus.Ready => 2
  | DeploymentStatus.NetworkReady => 3
  | DeploymentStatus.Switching => 4
  | DeploymentStatus.Active => 5
  | DeploymentStatus.Draining => 6
  | DeploymentStatus.Complete | DeploymentStatus.Failed | DeploymentStatus.RolledBack => 7
  end.

Lemma may_follow_progress s t : may_follow s t = true → progress s < progress t.
Proof. destruct s, t; simpl; intros; try done; lia. Qed.

Lemma may_follow_flight s t : may_follow s t = true → DeploymentStatus.is_terminal s = false.
Proof. by destruct s, t. Qed.

(** What a deployment is of, which no status changes. *)
Record same_release (r r' : DeploymentRecord) : Prop := {
  same_place : dep_place r' = dep_place r;
  same_version : dep_version r' = dep_version r;
  same_revision : dep_revision_id r' = dep_revision_id r;
  same_digest : dep_revision_digest r' = dep_revision_digest r;
  same_previous : dep_previous r' = dep_previous r;
  same_config : dep_config r' = dep_config r;
  same_created : dep_created_at r' = dep_created_at r;
}.

(** ** What a step writes of its release *)

Section moves.
Context `{!Sha256Hex} (config : Config) (node : Node).

(** A status recorded; where it is the last one, with the receipt that was stored of
    the record as it is then. *)
Definition moves (r : Stored DeploymentRecord) (op : Op DeploymentRecord) : Prop :=
  ∃ st f, op = OpUpdate r (merge_deployment st (node_now node) f) ∧ may_follow (dep_status (st_value r)) st = true ∧
    (DeploymentStatus.is_terminal st = true →
     ∃ receipt, df_receipt f = Some receipt ∧
       put_receipt node
         (receipt_of config node (st_id r) (merge_deployment st (node_now node) f (st_value r))) = Ok receipt).

(** All that a change writes of deployments is the release's. *)
Definition moves_only (r : Stored DeploymentRecord) (ch : Change) : Prop :=
  ∀ id op, WDeployment id op ∈ ch_writes ch → id = st_id r ∧ moves r op.

Definition no_deployment (ws : list Write) : Prop := ∀ id op, WDeployment id op ∉ ws.

Lemma moves_only_new r : moves_only r change_new.
Proof. intros id op Hw. by apply elem_of_change_new in Hw. Qed.

Lemma moves_only_all r ws ch : moves_only r ch → no_deployment ws → moves_only r (change_all ws ch).
Proof. intros Hch Hws id op. rewrite elem_of_change_all. intros [Hw|Hw]; [by apply Hch|by destruct (Hws id op)]. Qed.

Lemma moves_only_with r w ch : moves_only r ch → (∀ id op, w ≠ WDeployment id op) → moves_only r (change_with w ch).
Proof. intros Hch Hw id op. rewrite elem_of_change_with. intros [?|?]; [by apply Hch|by destruct (Hw id op)]. Qed.

Lemma moves_only_transition r st f ch :
  moves_only r ch → may_follow (dep_status (st_value r)) st = true →
  (DeploymentStatus.is_terminal st = true → ∃ receipt, df_receipt f = Some receipt ∧
    put_receipt node (receipt_of config node (st_id r) (merge_deployment st (node_now node) f (st_value r))) =
    Ok receipt) →
  moves_only r (transition node r st f ch).
Proof.
  intros Hch Hst Hreceipt id op. rewrite elem_of_transition. intros [?|[= -> ->]]; [by apply Hch|].
  split; [done|]. by exists st, f.
Qed.

Lemma no_deployment_fmap {A} (f : A → Write) l : (∀ x id op, f x ≠ WDeployment id op) → no_deployment (f <$> l).
Proof. intros Hf id op Hw. apply list_elem_of_fmap in Hw as (x & Hx & _). by apply (Hf x id op). Qed.

Lemma no_deployment_omap {A} (f : A → option Write) l :
  (∀ x id op, f x ≠ Some (WDeployment id op)) → no_deployment (omap f l).
Proof. intros Hf id op Hw. apply list_elem_of_omap in Hw as (x & _ & Hx). by apply (Hf x id op). Qed.

Lemma no_deployment_deletes es : no_deployment (concat (delete_workload node <$> es)).
Proof.
  intros id op Hw. apply elem_of_deletes in Hw as (e & _ & Hw).
  by apply delete_workload_writes in Hw as [?|(? & ? & ?)].
Qed.

Lemma fail_with_moves ch r d stage reason ws change :
  fail_with config node ch r d stage reason ws = Ok change → terminal r = false → moves_only r ch → moves_only r change.
Proof.
  unfold fail_with. intros Hf Hterm Hch. apply and_then_ok in Hf as (receipt & Hreceipt & [= <-]).
  assert (Hall : ∀ fs l, moves_only r (change_all ((λ i, update_instance (node_now node) i fs) <$> l)
    (transition node r DeploymentStatus.Failed
      {| df_workloads := ws; df_failure := Some reason; df_readiness_result := None; df_network_result := None;
         df_traffic_switch_result := None; df_rollback_reason := None; df_receipt := Some receipt;
         df_completed_at := Some (node_now node) |} ch))).
  { intros fs l. apply moves_only_all; [|by apply no_deployment_fmap]. apply moves_only_transition; [done| |].
    - unfold terminal in Hterm. by destruct (dep_status (st_value r)).
    - intros _. exists receipt. split; [done|]. exact Hreceipt. }
  intros id op. rewrite elem_of_event. revert id op. case_match; [case_match|]; try apply Hall.
  apply moves_only_with; [apply Hall|done].
Qed.

Lemma fail_moves later r stage reason change :
  fail config node later r stage reason = Ok change → terminal r = false → moves_only r change.
Proof. intros Hf Hterm. apply (fail_with_moves _ _ _ "" _ _ _ Hf Hterm), moves_only_new. Qed.

Lemma complete_moves d r change :
  complete config node d r = Ok (Some change) → may_follow (dep_status (st_value r)) DeploymentStatus.Complete = true →
  moves_only r change.
Proof.
  unfold complete. intros Hc Hst. apply and_then_ok in Hc as (receipt & Hreceipt & [= <-]).
  intros id op. rewrite elem_of_event. revert id op.
  apply moves_only_all; [|by apply no_deployment_fmap]. apply moves_only_transition; [apply moves_only_new|done|].
  intros _. by exists receipt.
Qed.

Lemma admit_moves later d r e change :
  admit_release config node later d r e = Ok (Some change) → dep_status (st_value r) = DeploymentStatus.Pending →
  moves_only r change.
Proof.
  unfold admit_release. intros Ha Hst. assert (Hterm : terminal r = false) by by unfold terminal; rewrite Hst.
  destruct (revisions d !! _) as [revision|].
  2:{ apply and_then_ok in Ha as (ch & Hf & [= <-]). by apply (fail_moves _ _ "" _ _ Hf). }
  case_match.
  { apply and_then_ok in Ha as (ch & Hf & [= <-]). apply (fail_with_moves _ _ _ "" _ _ _ Hf Hterm), moves_only_new. }
  injection Ha as <-. intros id op. rewrite !elem_of_event. revert id op. apply moves_only_all.
  - apply moves_only_transition; [apply moves_only_new|by rewrite Hst|done].
  - apply no_deployment_omap. intros [[rw wid] ports] id op. by case_match.
Qed.

Lemma await_moves d r ch0 ch1 change :
  await_readiness config node d r ch0 = (Ok (Some change), ch1) → dep_status (st_value r) = DeploymentStatus.Starting →
  moves_only r change.
Proof.
  unfold await_readiness. intros Ha Hst. assert (Hterm : terminal r = false) by by unfold terminal; rewrite Hst.
  destruct (revisions d !! _) as [revision|]; [|done].
  destruct (ready_instances _ _ _ _ _ _) as [ry failed] eqn:Hready. injection Ha as Ha _.
  assert (Hry : moves_only r (ry_change ry)).
  { intros id op Hw. apply (ready_instances_writes _ _ _ _ _ _ _ _ Hready) in Hw as [Hw|(i & f & _ & Hw)]; [|done].
    by apply elem_of_change_new in Hw. }
  assert (Hfail : ∀ reason, (let? ch := fail_with config node (ry_change ry) r d "readiness" reason None in Ok (Some ch)) =
    Ok (Some change) → moves_only r change).
  { intros reason Hf. apply and_then_ok in Hf as (ch & Hf & [= ->]). by apply (fail_with_moves _ _ _ "" _ _ _ Hf Hterm). }
  destruct failed as [reason|]; [by eapply Hfail|]. destruct (ry_waiting ry).
  - injection Ha as <-. intros id op. rewrite elem_of_event. revert id op.
    apply moves_only_transition; [done|by rewrite Hst|done].
  - case_match; [by eapply Hfail|]. case_match; [done|]. by injection Ha as <-.
Qed.

Lemma network_moves later d r change :
  verify_network config node later d r = Ok (Some change) → dep_status (st_value r) = DeploymentStatus.Ready →
  moves_only r change.
Proof.
  unfold verify_network. intros Hv Hst. assert (Hterm : terminal r = false) by by unfold terminal; rewrite Hst.
  case_match.
  - injection Hv as <-. apply moves_only_transition; [apply moves_only_new|by rewrite Hst|done].
  - case_match; [|done]. apply and_then_ok in Hv as (ch & Hf & [= <-]). by apply (fail_moves _ _ "" _ _ Hf).
Qed.

Lemma route_no_deployment d target routed moved :
  route_to node change_new d target = Ok (routed, moved) → no_deployment (ch_writes routed).
Proof.
  intros (revision & _ & Hw)%route_writes id op.
  rewrite Hw. unfold current_membership, current_workload, put_assignment.
  intros [?|[(rw & _ & ?)|[(e & _ & _ & _ & Hd)|[(i0 & i & _ & _ & Ht)|[(a & _ & ?)|(ep & a & _ & _ & _ & ?)]]]]]; try done.
  - by apply delete_workload_writes in Hd as [?|(? & ? & ?)].
  - by apply turn_instance_some in Ht as (g & ? & _).
Qed.

Lemma switch_moves d r change :
  switch node d r = Ok (Some change) → dep_status (st_value r) = DeploymentStatus.NetworkReady → moves_only r change.
Proof.
  unfold switch. intros Hs Hst. apply and_then_ok in Hs as ([routed moved] & Hroute & [= Hch]).
  apply route_no_deployment in Hroute. intros id op Hw.
  assert (Hin : WDeployment id op ∈ ch_writes (transition node r DeploymentStatus.Switching
    {| df_workloads := None; df_failure := None; df_readiness_result := None; df_network_result := None;
       df_traffic_switch_result := Some {| sw_endpoints := Some moved; sw_switched_at := Some (node_now node);
                                           sw_verified := None; sw_verified_at := None |};
       df_rollback_reason := None; df_receipt := None; df_completed_at := None |} routed))
    by (rewrite <-Hch in Hw; by destruct moved).
  revert Hin. apply moves_only_transition; [|by rewrite Hst|done]. intros id' op' Hw'. by destruct (Hroute id' op').
Qed.

Lemma roll_back_moves d fetched r reason change :
  roll_back config node d fetched r reason = Ok change → has_moved (dep_status (st_value r)) = true →
  moves_only r change.
Proof.
  unfold roll_back. cbv zeta. intros Hb Hmoved.
  match type of Hb with (match ?x with _ => _ end) = _ => destruct x as [previous|] end.
  - apply and_then_ok in Hb as ([routed moved] & Hroute & Hb). apply route_no_deployment in Hroute.
    apply and_then_ok in Hb as (receipt & Hreceipt & [= <-]). intros id op. rewrite elem_of_event. revert id op.
    apply moves_only_transition; [|by destruct (dep_status (st_value r))|intros _; by exists receipt].
    intros id' op' Hw'. by destruct (Hroute id' op').
  - apply (fail_with_moves _ _ _ "" _ _ _ Hb); [unfold terminal; by destruct (dep_status (st_value r))|].
    match goal with |- moves_only _ (match ?x with _ => _ end) => destruct x end;
      [apply moves_only_with; [|done]|]; (apply moves_only_all; [|apply no_deployment_deletes]);
      (apply moves_only_all; [apply moves_only_new|by apply no_deployment_fmap]).
Qed.

Lemma step_moves d later fetched r checked change checked' :
  step config node d later fetched r checked = (Ok (Some change), checked') → terminal r = false → moves_only r change.
Proof.
  intros Hstep Hterm. unfold step in Hstep.
  assert (Hfail : ∀ stage reason, (let? ch := fail config node later r stage reason in Ok (Some ch)) = Ok (Some change) →
    moves_only r change).
  { intros stage reason Hf. apply and_then_ok in Hf as (ch & Hf & [= ->]). by apply (fail_moves _ _ "" _ _ Hf). }
  destruct (environments d !! _) as [e|]; [|injection Hstep as Hstep _; by eapply Hfail].
  destruct (memberships d !! _) as [m|]; [|injection Hstep as Hstep _; by eapply Hfail].
  match type of Hstep with (if ?b then _ else _) = _ => destruct b eqn:Hdone end.
  { injection Hstep as Hstep _. eapply complete_moves; [done|]. apply andb_prop in Hdone as [_ Hdone].
    by destruct (dep_status (st_value r)). }
  clear Hdone. destruct (dep_status (st_value r)) eqn:Hst; [| | | | | | |done..].
  - injection Hstep as Hstep _. by eapply admit_moves.
  - by eapply await_moves.
  - injection Hstep as Hstep _. by eapply network_moves.
  - injection Hstep as Hstep _. by eapply switch_moves.
  - injection Hstep as Hstep _. unfold verify_switch in Hstep. case_match.
    + injection Hstep as <-. apply moves_only_transition; [apply moves_only_new|by rewrite Hst|done].
    + case_match; [|done]. apply and_then_ok in Hstep as (ch & Hb & [= ->]). eapply roll_back_moves; [done|by rewrite Hst].
  - injection Hstep as Hstep _. rewrite <-Hstep. intros id op. rewrite elem_of_event. revert id op.
    apply moves_only_transition; [apply moves_only_new|by rewrite Hst|done].
  - injection Hstep as Hstep _. unfold finish_drain in Hstep. case_match; [|done].
    eapply complete_moves; [done|by rewrite Hst].
Qed.

Lemma rollback_moves d c id r change :
  rollback config node d c id = Ok (inl change) → deployments c !! id = Some r →
  moves_only r change ∧ terminal r = false.
Proof.
  unfold rollback. intros Hrb Hr. rewrite Hr in Hrb. cbv zeta in Hrb. unfold terminal.
  destruct (dep_status (st_value r)) eqn:Hst; try done.
  1-4: apply and_then_ok in Hrb as (ch & Hf & [= ->]); split; [|done]; apply (fail_moves _ _ "" _ _ Hf);
       unfold terminal; by rewrite Hst.
  1-3: apply and_then_ok in Hrb as (ch & Hf & [= ->]); split; [|done]; eapply roll_back_moves; [done|];
       by rewrite Hst.
  apply and_then_ok in Hrb as (_ & _ & Hrb). destruct (dep_previous _); [|done]. by destruct (deployments c !! _).
Qed.
End moves.

(** ** What a commit makes of a deployment *)

(** A deployment is created, or a status of it is recorded; it is never deleted. *)
Lemma commit_deployment change c c' id :
  commit change c = Ok c' →
  (∀ op, WDeployment id op ∈ ch_writes change →
     (∃ i v, op = OpCreate i v) ∨ ∃ r f, op = OpUpdate r f ∧ (st_version r <= next_version c)%N) →
  deployments (records c') !! id = deployments (records c) !! id ∨
  (∃ i v x', WDeployment id (OpCreate i v) ∈ ch_writes change ∧ deployments (records c) !! id = None ∧
             deployments (records c') !! id = Some x' ∧ st_value x' = v) ∨
  (∃ r f x x', WDeployment id (OpUpdate r f) ∈ ch_writes change ∧ deployments (records c) !! id = Some x ∧
               deployments (records c') !! id = Some x' ∧ st_id x' = st_id x ∧ st_value x' = f (st_value x)).
Proof.
  intros Hc Hops. pose proof (commit_run (T := deployment_table) _ _ _ id Hc) as Hrun. simpl in Hrun.
  assert (Hop : ∀ op, op ∈ ops_on (T := deployment_table) id (ch_writes change) → WDeployment id op ∈ ch_writes change).
  { intros op ([] & Hw & Hsel)%elem_of_ops_on; simpl in Hsel; by simplify_eq. }
  assert (Hlen : length (ops_on (T := deployment_table) id (ch_writes change)) ≤ 1).
  { eapply run_once; [done| |].
    - apply Forall_forall. intros op Hin%Hop. by destruct (Hops _ Hin) as [(i & v & ->)|(r & f & -> & ?)].
    - intros s Hin%Hop. by destruct (Hops _ Hin) as [(i & v & ?)|(r & f & ? & ?)]. }
  destruct (ops_on (T := deployment_table) id (ch_writes change)) as [|op [|op2 ops]]; simpl in Hlen; [|clear Hlen|lia].
  { left. by inversion Hrun. }
  right. assert (Hin : WDeployment id op ∈ ch_writes change) by (apply Hop; by left).
  inversion Hrun as [|op' ops' x y z Hstep Hrest]; subst. inversion Hrest; subst.
  destruct (Hops _ Hin) as [(i & v & ->)|(r & f & -> & _)]; inversion Hstep; subst.
  - left. by eexists _, _, _.
  - right. by eexists _, _, _, _.
Qed.

(** ** Writing a record twice *)

Lemma ops_on_app `{T : Table K A} k ws ws' : ops_on (T := T) k (ws ++ ws') = ops_on (T := T) k ws ++ ops_on (T := T) k ws'.
Proof. unfold ops_on. by rewrite omap_app. Qed.

Lemma ops_on_some `{T : Table K A} k w op ws :
  w ∈ ws → tsel w = Some (k, op) → 1 ≤ length (ops_on (T := T) k ws).
Proof.
  intros Hw Hsel. assert (op ∈ ops_on (T := T) k ws) as Hin by (apply elem_of_ops_on; eauto).
  destruct (ops_on (T := T) k ws); [by apply elem_of_nil in Hin|simpl; lia].
Qed.

(** A change that fails a release after it updated one of its instances does not
    commit: the instance would be written twice from one version. *)
Lemma fails_twice `{!Sha256Hex} config node c c' d release change ch i f reason :
  Forall (fenced_write (next_version c)) (ch_writes change) → commit change c = Ok c' →
  fail_with config node ch release d "readiness" reason None = Ok change →
  (∀ id s, WInstance id (OpDelete s) ∉ ch_writes ch) → update_instance (node_now node) i f ∈ ch_writes ch →
  i ∈ own_instances d release → stopped_or_failed (inst_state (st_value i)) = false → False.
Proof.
  intros Hfenced Hc Hfail Hdel Hin Hown Hlive.
  assert (Hlen : length (ops_on (T := instance_table) (st_id i) (ch_writes change)) ≤ 1).
  { eapply (single_writes (T := instance_table)); [done..|]. intros w s Hw Hsel.
    destruct w as [| | | |id op| |]; simpl in Hsel; simplify_eq.
    apply (fail_with_writes _ _ _ _ _ _ _ _ _ _ Hfail) in Hw as [Hw|[(? & ?)|[(? & ? & ? & _ & _ & ?)|(? & _ & _ & ?)]]]; try done.
    by eapply Hdel. }
  unfold fail_with in Hfail. apply and_then_ok in Hfail as (receipt & _ & [= <-]).
  pose proof (ops_on_some (T := instance_table) (st_id i) _ _ _ Hin eq_refl) as Hfirst.
  match type of Hlen with context [instances_where d ?own] =>
    assert (Hsecond : update_instance (node_now node) i
      (instance_stopped InstanceState.Failed (Some reason) (node_now node)) ∈
      (λ i, update_instance (node_now node) i (instance_stopped InstanceState.Failed (Some reason) (node_now node))) <$>
        instances_where d own) end.
  { apply list_elem_of_fmap. exists i. split; [done|]. unfold own_instances in Hown.
    apply elem_of_instances_where in Hown as [Hi Hdep]. apply elem_of_instances_where. split; [done|].
    by rewrite Hdep, Hlive. }
  pose proof (ops_on_some (T := instance_table) (st_id i) _ _ _ Hsecond eq_refl) as Hlast.
  simpl in Hlen. destruct (memberships d !! _) as [m|]; [destruct (mem_deployment_id _)|]; simpl in Hlen;
    rewrite !(ops_on_app (T := instance_table)), !length_app in Hlen; lia.
Qed.

Section lifecycle.
Context `{!Sha256Hex} (config : Config).
Context (config_digest : gmap string string → gmap string string → string).

(** A release as a step leaves it: as it was, or with a status that follows. *)
Definition lives_on (r r' : Stored DeploymentRecord) : Prop :=
  st_id r' = st_id r ∧ same_release (st_value r) (st_value r') ∧
  (r' = r ∨ may_follow (dep_status (st_value r)) (dep_status (st_value r')) = true).

Lemma lives_on_refl r : lives_on r r.
Proof. split; [done|]. split; [done|by left]. Qed.

Lemma merged_same st now f r : same_release r (merge_deployment st now f r).
Proof. done. Qed.

(** What is left of a deployment, and that one that is new is pending. *)
Definition lives (c c' : Control) : Prop :=
  ∀ id,
    (∀ r, deployments (records c) !! id = Some r →
       ∃ r', deployments (records c') !! id = Some r' ∧ lives_on r r') ∧
    (∀ r', deployments (records c) !! id = None → deployments (records c') !! id = Some r' →
       dep_status (st_value r') = DeploymentStatus.Pending).

Lemma lives_same c c' : (∀ id, deployments (records c') !! id = deployments (records c) !! id) → lives c c'.
Proof.
  intros Heq id. rewrite Heq. split; [|congruence]. intros r Hr. exists r. split; [done|]. apply lives_on_refl.
Qed.

Lemma lives_moves node r change c c' :
  moves_only config node r change → commit change c = Ok c' → versions_within (next_version c) (records c) →
  deployments (records c) !! st_id r = Some r → lives c c'.
Proof.
  intros Hm Hc Hw Hr id.
  destruct (commit_deployment change c c' id Hc) as [Heq|[(i & v & x' & Hin & _)|(r0 & f & x & x' & Hin & Hx & Hx' & Hid & Hval)]].
  - intros op (-> & st & f & -> & _)%Hm. right. eexists _, _. split; [done|]. by apply (within_deployments _ _ Hw (st_id r)).
  - rewrite Heq. split; [|congruence]. intros r' Hr'. exists r'. split; [done|]. apply lives_on_refl.
  - by apply Hm in Hin as (_ & st & f & ? & _).
  - apply Hm in Hin as (-> & st & f' & [= -> ->] & Hst & _). assert (x = r) as -> by congruence.
    split; [|congruence]. intros r0 Hr0. assert (r0 = r) as -> by congruence. exists x'. split; [done|].
    split; [done|]. rewrite Hval. split; [done|]. by right.
Qed.

Lemma lives_created change c c' new :
  (∀ id op, WDeployment id op ∈ ch_writes change → ∃ r, op = OpCreate id r ∧ new = Some r ∧
     dep_status r = DeploymentStatus.Pending) →
  commit change c = Ok c' → lives c c'.
Proof.
  intros Hw Hc id.
  destruct (commit_deployment change c c' id Hc) as [Heq|[(i & v & x' & Hin & Hnone & Hx' & Hval)|(r0 & f & x & x' & Hin & _)]].
  - intros op (r & -> & _)%Hw. left. by eexists _, _.
  - rewrite Heq. split; [|congruence]. intros r' Hr'. exists r'. split; [done|]. apply lives_on_refl.
  - apply Hw in Hin as (r & [= -> ->] & _ & Hp). split; [congruence|]. intros r' _ Hr'. congruence.
  - by apply Hw in Hin as (r & ? & _).
Qed.

Lemma settled_lives c change c' :
  (∀ w, w ∈ ch_writes change → settle_write c None w) → commit change c = Ok c' → lives c c'.
Proof.
  intros Hw Hc. eapply (lives_created _ _ _ None); [|done]. intros id op Hin%Hw. by inversion Hin.
Qed.

Lemma operate_lives c node op change c' :
  good (records c) → versions_within (next_version c) (records c) →
  operate config config_digest node (working_copy c) (records c) op = Ok change → commit change c = Ok c' →
  lives c c'.
Proof.
  intros Hgood Hwithin Hop Hc.
  assert (Hdeploy : ∀ request promoted_from,
    (let? r := deploy_with node config_digest (working_copy c) (records c) request promoted_from in Ok (snd r)) =
    Ok change → lives c c').
  { intros request promoted_from Hd. apply and_then_ok in Hd as ([id ch] & Hd & [= ->]).
    apply deploy_settles in Hd as (record & Hp & Hnew); [|done..].
    eapply (lives_created _ _ _ (Some record)); [|done]. intros id' op' Hin%Hnew. inversion Hin; subst. simplify_eq.
    by eexists. }
  destruct op; unfold operate in Hop.
  - by eapply Hdeploy.
  - apply and_then_ok in Hop as ([r|request] & Hrb & Hop); [|by eapply Hdeploy]. injection Hop as ->.
    destruct (deployments (records c) !! deployment_id) as [release|] eqn:Hr;
      [|unfold rollback in Hrb; by rewrite Hr in Hrb].
    destruct (rollback_moves _ _ _ _ _ _ _ Hrb Hr) as [Hm _].
    eapply lives_moves; [done..|]. by rewrite (good_deployment _ Hgood _ _ Hr).
  - eapply settled_lives; [|done]. intros w. by eapply create_settles.
  - apply destroy_writes in Hop as (env & k & e & _ & Hw).
    eapply (lives_created _ _ _ None); [|done]. intros id op Hin. exfalso. revert Hin. rewrite Hw.
    intros [?|[Hin|[Hin|[Hin|Hin]]]]; [done|..].
    + by apply list_elem_of_fmap in Hin as (? & ? & _).
    + by eapply no_deployment_deletes.
    + by apply elem_of_instances_deleted in Hin as (? & ? & _ & _ & ?).
    + by apply elem_of_assignments_deleted in Hin as (? & ? & _ & _ & ?).
  - eapply settled_lives; [|done]. intros w. by eapply environment_state_settles.
  - apply remove_writes in Hop as (p & m & _ & Hw).
    eapply (lives_created _ _ _ None); [|done]. intros id op Hin. exfalso. revert Hin. rewrite Hw.
    intros [?|[Hin|[Hin|Hin]]]; [done|..].
    + by eapply no_deployment_deletes.
    + by apply elem_of_instances_deleted in Hin as (? & ? & _ & _ & ?).
    + by apply elem_of_assignments_deleted in Hin as (? & ? & _ & _ & ?).
  - eapply settled_lives; [|done]. intros w. by eapply project_state_settles.
  - eapply settled_lives; [|done]. intros w. by eapply workload_state_settles.
Qed.

Lemma attempt_lives change c c' : attempt change c c' → (commit change c = Ok c' → lives c c') → lives c c'.
Proof. intros [c1 Hc|] Hl; [by apply Hl|by apply lives_same]. Qed.

Lemma sys_step_lives s s' : sys_step config config_digest s s' → sound s → lives (control s) (control s').
Proof.
  intros Hstep [Hgood Hwithin Hcopied Honce Hqueue].
  destruct Hstep as [s node assigns retains routes' errors' c1 c2 d Hsync Hr He Hadopt Hdrain
                    |s node release rest later result checked' c' Hq Hsees Hlater Hstep Hresult
                    |s|s|s node op change c' Hq Hsees Hop Hatt|s id revision Hnew|s domains' statuses'|s routes' Hroutes];
    try by apply lives_same.
  - apply lives_same. intros id. simpl.
    assert (Hdeps1 : ∀ id, deployments (records c1) !! id = deployments (records (control s)) !! id).
    { apply (attempt_keeps _ _ _ (λ c, ∀ id, deployments (records c) !! id = deployments (records (control s)) !! id) Hadopt);
        [done|]. intros Hc id0. by eapply adopt_deployments. }
    rewrite <-Hdeps1.
    apply (attempt_keeps _ _ _ (λ c, deployments (records c) !! id = deployments (records c1) !! id) Hdrain);
      [done|]. intros Hc. by eapply drain_deployments.
  - destruct result as [[change|]|e]; [|by subst; apply lives_same..]. simpl.
    destruct (Hqueue release) as (Hr & Hflight & Hcovers); [rewrite Hq; by left|].
    eapply attempt_lives; [done|]. intros Hc. eapply lives_moves; [|done..]. by eapply step_moves.
  - simpl. eapply attempt_lives; [done|]. intros Hc. by eapply operate_lives.
Qed.
End lifecycle.
