(* ===== verification/ReleasePorts.v ===== *)
(** The ports a release is given: the endpoints it keeps, and ports that nothing the
    working copy knows of uses. *)

From S2P Require Import Prelude Text Core Isolation Policy Admission Descriptor Matching Pool Placement State Auth Release ReleaseSteps ReleaseFacts.

Definition in_range (range : N * N) (port : N) : Prop := (fst range <= port <= snd range)%N.

Lemma find_port_some range f port : find_port range f = Some port → in_range range port ∧ f port = true.
Proof.
  unfold find_port, in_range. destruct range as [low high]. intros [Hin Hf]%List.find_some. split; [|done].
  destruct (N.leb_spec low high); [|done]. apply in_map_iff in Hin as (i & <- & Hi%in_seq). simpl. lia.
Qed.

Lemma find_port_none range f port : find_port range f = None → in_range range port → f port = false.
Proof.
  unfold find_port, in_range. destruct range as [low high]. simpl. intros Hnone Hr.
  destruct (N.leb_spec low high) as [|]; [|lia]. apply (List.find_none _ _ Hnone), in_map_iff.
  exists (N.to_nat (port - low)). split; [lia|]. apply in_seq. lia.
Qed.

(** What is in use. *)
Lemma elem_of_used_instances d k i b :
  instances d !! k = Some i → stopped_or_failed (inst_state (st_value i)) = false → b ∈ inst_ports (st_value i) →
  pb_host b ∈ used_instances d.
Proof.
  intros Hi Hlive Hb. unfold used_instances. apply elem_of_list_to_set, list_elem_of_In, in_concat.
  exists (pb_host <$> inst_ports (st_value i)). split.
  - apply list_elem_of_In, list_elem_of_fmap. exists i. split; [done|]. apply elem_of_instances_where.
    split; [by exists k|]. by rewrite Hlive.
  - apply list_elem_of_In, list_elem_of_fmap. by exists b.
Qed.

Lemma elem_of_concat {A} (x : A) l : x ∈ concat l ↔ ∃ xs, xs ∈ l ∧ x ∈ xs.
Proof.
  rewrite list_elem_of_In, in_concat. split; intros (xs & H1 & H2); exists xs; by rewrite !list_elem_of_In in *.
Qed.

Lemma elem_of_used_endpoints d release port :
  port ∈ used_endpoints d release ↔
  (∃ k w b, workloads d !! k = Some w ∧ b ∈ wl_ports (st_value w) ∧ port = pb_host b) ∨
  (∃ ep t, traffic d !! ep = Some t ∧ port = ta_host_port (st_value t)) ∨
  (∃ k o e b, deployments d !! k = Some o ∧ DeploymentStatus.is_terminal (dep_status (st_value o)) = false ∧
     st_id o ≠ st_id release ∧ e ∈ dep_workloads (st_value o) ∧ b ∈ dw_endpoints e ∧ port = pb_host b).
Proof.
  unfold used_endpoints. rewrite elem_of_list_to_set, !elem_of_app, !elem_of_concat.
  split.
  - intros [(xs & Hxs & Hp)|[Hp|(xs & Hxs & Hp)]].
    + apply list_elem_of_fmap in Hxs as ([k w] & -> & Hw%elem_of_entries). apply list_elem_of_fmap in Hp as (b & -> & Hb).
      left. by exists k, w, b.
    + apply list_elem_of_fmap in Hp as ([ep t] & -> & Ht%elem_of_by_id). right; left. by exists ep, t.
    + apply list_elem_of_fmap in Hxs as (o & -> & Ho). apply list_elem_of_filter in Ho as [Hne Ho].
      apply elem_of_in_flight in Ho as ((k & Ho) & Hterm). apply elem_of_concat in Hp as (ys & Hys & Hp).
      apply list_elem_of_fmap in Hys as (e & -> & He). apply list_elem_of_fmap in Hp as (b & -> & Hb).
      right; right. by exists k, o, e, b.
  - intros [(k & w & b & Hw & Hb & ->)|[(ep & t & Ht & ->)|(k & o & e & b & Ho & Hterm & Hne & He & Hb & ->)]].
    + left. eexists. split.
      * apply list_elem_of_fmap. exists (k, w). split; [reflexivity|]. by apply elem_of_entries.
      * apply list_elem_of_fmap. by exists b.
    + right; left. apply list_elem_of_fmap. exists (ep, t). split; [done|]. by apply elem_of_by_id.
    + right; right. eexists. split.
      * apply list_elem_of_fmap. exists o. split; [reflexivity|]. apply list_elem_of_filter. split; [done|].
        apply elem_of_in_flight. split; [by exists k|done].
      * apply elem_of_concat. eexists. split; [apply list_elem_of_fmap; exists e; by split|].
        apply list_elem_of_fmap. by exists b.
Qed.

Section ports.
Context `{!Sha256Hex} (config : Config) (node : Node).

(** A port of its range that is not used and could be bound. *)
Definition fresh_endpoint (used : gset N) (port : N) : Prop :=
  in_range (port_range config) port ∧ port ∉ used ∧ endpoint_binds node port = true.
Definition fresh_instance (used : gset N) (port : N) : Prop :=
  in_range (instance_port_range config) port ∧ port ∉ used ∧ instance_binds node port = true.

Lemma free_port_ok range used (endpoint : bool) port :
  free_port node range used endpoint = Ok port →
  in_range range port ∧ port ∉ used ∧ (if endpoint then endpoint_binds node port else instance_binds node port) = true.
Proof.
  unfold free_port. destruct (find_port _ _) as [p|] eqn:Hp; [|done]. intros [= ->].
  apply find_port_some in Hp as [Hr Hf]. apply andb_prop in Hf as [Hu Hb].
  apply negb_true_iff, bool_decide_eq_false in Hu. done.
Qed.

(** No port is given only where none is free. *)
Lemma free_port_err range used (endpoint : bool) e :
  free_port node range used endpoint = Err e →
  ∀ port, in_range range port →
    port ∈ used ∨ (if endpoint then endpoint_binds node port else instance_binds node port) = false.
Proof.
  unfold free_port. destruct (find_port _ _) as [p|] eqn:Hp; [done|]. intros _ port Hr.
  apply (find_port_none _ _ _ Hp), andb_false_iff in Hr as [Hu|Hb]; [|by right].
  left. by apply negb_false_iff, bool_decide_eq_true in Hu.
Qed.

Lemma fresh_instance_mono used used' port : used ⊆ used' → fresh_instance used' port → fresh_instance used port.
Proof. intros Hs (Hr & Hu & Hb). split; [done|]. split; [set_solver|done]. Qed.
Lemma fresh_endpoint_mono used used' port : used ⊆ used' → fresh_endpoint used' port → fresh_endpoint used port.
Proof. intros Hs (Hr & Hu & Hb). split; [done|]. split; [set_solver|done]. Qed.

(** The endpoint of a port: the one it had, or a fresh one. *)
Definition endpoint_for (d : Desired) (key : Key) (used : gset N) (port : PortSpec) (b : PortBinding) : Prop :=
  pb_name b = ps_name port ∧ pb_logical b = ps_port port ∧
  match kept_port d key port with Some host => pb_host b = host | None => fresh_endpoint used (pb_host b) end.

Lemma plan_ports_ok d key ports : ∀ ue ui plan,
  plan_ports config node d key ports ue ui = Ok plan →
  Forall2 (endpoint_for d key ue) ports (plan_endpoints plan) ∧
  pb_name <$> plan_instance plan = ps_name <$> ports ∧
  NoDup (pb_host <$> plan_instance plan) ∧
  Forall (λ b, fresh_instance ui (pb_host b)) (plan_instance plan) ∧
  ue ⊆ plan_used_endpoints plan ∧
  plan_used_instances plan = list_to_set (pb_host <$> plan_instance plan) ∪ ui.
Proof.
  induction ports as [|port ports IH]; intros ue ui plan Hp; simpl in Hp.
  { injection Hp as <-. simpl. repeat split; try constructor; set_solver. }
  apply and_then_ok in Hp as ([host ue'] & Hhost & Hp). apply and_then_ok in Hp as (inst & Hinst & Hp).
  apply and_then_ok in Hp as (rest & Hrest & [= <-]). apply free_port_ok in Hinst as (Hr & Hu & Hb).
  destruct (IH _ _ _ Hrest) as (Hends & Hnames & Hnd & Hfresh & Hue & Hui). simpl.
  assert (Hsub : ue ⊆ ue').
  { destruct (kept_port d key port); [by injection Hhost as _ <-|].
    apply and_then_ok in Hhost as (h & _ & [= _ <-]). set_solver. }
  split; [|split; [|split; [|split; [|split]]]].
  - constructor.
    + split; [done|]. split; [done|]. simpl. destruct (kept_port d key port); [by injection Hhost as -> _|].
      apply and_then_ok in Hhost as (h & Hh & [= -> _]). by apply free_port_ok in Hh.
    + eapply Forall2_impl; [done|]. intros x y (Hn & Hl & Hk). split; [done|]. split; [done|].
      destruct (kept_port d key x); [done|]. by eapply fresh_endpoint_mono.
  - by f_equal.
  - constructor; [|done]. intros (b & -> & Hin)%list_elem_of_fmap.
    rewrite Forall_forall in Hfresh. destruct (Hfresh b Hin) as (_ & Hnu & _). set_solver.
  - constructor; [done|]. eapply Forall_impl; [done|]. intros b. apply fresh_instance_mono. set_solver.
  - set_solver.
  - rewrite Hui. simpl. set_solver.
Qed.

(** What a release's admission gives: ports of instances that differ and are fresh, and
    to every service the endpoints its ports had, or fresh ones. *)
Record ports_given (d : Desired) (record : DeploymentRecord) (used_e used_i : gset N) (ws : list RevisionWorkload)
    (a : Admissions) : Prop := {
  given_differ : NoDup (concat ((λ x : RevisionWorkload * string * list PortBinding, pb_host <$> snd x) <$> adm_instances a));
  given_instance w id ports : (w, id, ports) ∈ adm_instances a →
    w ∈ ws ∧ rw_kind w = KindService ∧ pb_name <$> ports = ps_name <$> rw_ports w ∧
    Forall (λ b, fresh_instance used_i (pb_host b)) ports;
  given_endpoints e : e ∈ adm_evidence a →
    ∃ w, w ∈ ws ∧ dw_name e = rw_name w ∧
      match rw_kind w with
      | KindTask => dw_endpoints e = []
      | KindService =>
          Forall2 (endpoint_for d (dep_environment record, dep_project record, rw_name w) used_e) (rw_ports w)
            (dw_endpoints e)
      end;
}.

Lemma no_ports_given d record ue ui ws failure : ports_given d record ue ui ws (admissions_end failure).
Proof. split; [constructor|by intros ? ? ? ?%elem_of_nil|by intros ? ?%elem_of_nil]. Qed.

(** What is planned for one workload. *)
Definition planned_for (d : Desired) (record : DeploymentRecord) (used_e used_i : gset N) (w : RevisionWorkload)
    (plan : PortPlan) : Prop :=
  (rw_kind w = KindService → pb_name <$> plan_instance plan = ps_name <$> rw_ports w) ∧
  NoDup (pb_host <$> plan_instance plan) ∧
  Forall (λ b, fresh_instance used_i (pb_host b)) (plan_instance plan) ∧ used_e ⊆ plan_used_endpoints plan ∧
  plan_used_instances plan = list_to_set (pb_host <$> plan_instance plan) ∪ used_i ∧
  match rw_kind w with
  | KindTask => plan_endpoints plan = []
  | KindService =>
      Forall2 (endpoint_for d (dep_environment record, dep_project record, rw_name w) used_e) (rw_ports w)
        (plan_endpoints plan)
  end.

Lemma ports_given_cons d record ue ui w ws plan id admitted rest :
  planned_for d record ue ui w plan → dw_name admitted = rw_name w → dw_endpoints admitted = plan_endpoints plan →
  ports_given d record (plan_used_endpoints plan) (plan_used_instances plan) ws rest →
  ports_given d record ue ui (w :: ws)
    {| adm_evidence := admitted :: adm_evidence rest;
       adm_instances :=
         match rw_kind w with
         | KindService => (w, id, plan_instance plan) :: adm_instances rest
         | KindTask => adm_instances rest
         end;
       adm_failure := adm_failure rest |}.
Proof.
  intros (Hnames & Hnd & Hfresh & Hue & Hui & Hends) Hn He [Hnd' Hin' Hev']. split; simpl.
  - destruct (rw_kind w); [|done]. simpl. apply NoDup_app. split; [done|]. split; [|done].
    intros port Hport Hrest. apply list_elem_of_In, in_concat in Hrest as (l & Hl & Hrest).
    apply list_elem_of_In, list_elem_of_fmap in Hl as ([[w' id'] ports'] & -> & Hl). apply list_elem_of_In in Hrest.
    destruct (Hin' _ _ _ Hl) as (_ & _ & _ & Hf). rewrite Forall_forall in Hf.
    apply list_elem_of_fmap in Hrest as (b & -> & Hb). destruct (Hf b Hb) as (_ & Hnot & _).
    apply Hnot. rewrite Hui. by apply elem_of_union_l, elem_of_list_to_set.
  - intros w' id' ports Hl.
    assert (Hcases : ((w', id', ports) = (w, id, plan_instance plan) ∧ rw_kind w = KindService) ∨
                     (w', id', ports) ∈ adm_instances rest).
    { destruct (rw_kind w); [|by right]. apply elem_of_cons in Hl as [?|?]; [by left|by right]. }
    destruct Hcases as [[[= -> -> ->] Hk]|Hl'].
    + split; [by left|]. split; [done|]. split; [by apply Hnames|done].
    + destruct (Hin' _ _ _ Hl') as (Hw & Hk & Hn' & Hf). split; [by right|]. split; [done|]. split; [done|].
      eapply Forall_impl; [done|]. intros b. apply fresh_instance_mono. set_solver.
  - intros e0 [->|He0]%elem_of_cons; [exists w; rewrite He; split; [by left|done]|].
    destruct (Hev' e0 He0) as (w' & Hw' & Hn' & Hk).
    exists w'. split; [by right|]. split; [done|]. destruct (rw_kind w'); [|done].
    eapply Forall2_impl; [done|]. intros x y (Hx & Hl & Hkept). split; [done|]. split; [done|].
    destruct (kept_port _ _ x); [done|]. by eapply fresh_endpoint_mono.
Qed.

Lemma admit_workloads_ports d environment record revision ws : ∀ ue ui,
  ports_given d record ue ui ws (admit_workloads config node d environment record revision ws ue ui).
Proof.
  induction ws as [|w ws IH]; intros ue ui; cbn [admit_workloads]; cbv zeta; [apply no_ports_given|].
  match goal with |- context [match ?x with Ok _ => _ | Err _ => _ end] => destruct x as [plan|e] eqn:Hplan end;
    [|apply no_ports_given].
  assert (Hp : planned_for d record ue ui w plan).
  { unfold planned_for. destruct (rw_kind w); simpl in Hplan.
    - apply plan_ports_ok in Hplan. naive_solver.
    - injection Hplan as <-. simpl. repeat split; try constructor; set_solver. }
  clear Hplan. destruct (node_prepare node _) as [report|e]; [|apply no_ports_given].
  destruct (dw_admitted (admit_workload _ _ _ _)) eqn:Hadm; [by apply ports_given_cons|].
  destruct Hp as (_ & _ & _ & _ & _ & Hends). split; simpl; [constructor|by intros ? ? ? ?%elem_of_nil|].
  intros e0 ->%list_elem_of_singleton. exists w. split; [by left|]. split; [done|]. simpl. done.
Qed.
End ports.
