(* ===== verification/ReleaseRuns.v ===== *)
(** Runs of the release system: a scheduler that carries out chosen steps on a node
    where everything works, for the theorems to be applied to, and the runs that show
    where releases fall short of what they are for. *)

From S2P Require Import Prelude Text Core Isolation Policy Admission Descriptor Matching Pool Placement State Auth Release ReleaseSteps ReleaseSystem ReleaseFacts ReleaseSafety ReleaseRoutes ReleaseRounds ReleaseReached.

(** ** Surroundings *)

(** A digest that tells the texts of these runs apart. *)
#[local] Instance counting_digest : Sha256Hex := λ s,
  show (foldl (λ h a, N.modulo (h * 257 + N_of_ascii a + 1) 2305843009213693951)%N 7%N (String.list_ascii_of_string s)).

Definition a_config : Config :=
  {| port_range := (8000, 8009)%N; instance_port_range := (9000, 9019)%N; drain_timeout := 30000 * ms;
     switch_timeout := 15000 * ms; daemon_version := "compute 1"; daemon_instance := "daemon_1" |}.

Definition digest_of (env settings : gmap string string) : string := "digest".

Definition running : UnitRuntime :=
  {| ur_state := Some ActRunning; ur_held := true; ur_failures := 0; ur_error := None; ur_running_since := Some 0%Z |}.
Definition crashed : UnitRuntime :=
  {| ur_state := Some ActFailed; ur_held := true; ur_failures := 3; ur_error := Some "exit status 1";
     ur_running_since := None |}.

(** A node where ports are free, what runs answers, and workloads are placed locally;
    [units] is how they run. *)
Definition a_node (units : Key → string → option UnitRuntime) (now : Z) (routes : gmap N Route)
    (errors : gmap N string) (c : Control) : Node :=
  {| node_now := now; node_instant := now; endpoint_binds := λ _, true; instance_binds := λ _, true;
     node_accepts := λ _, true; node_http := λ _ _, Some 200%N; node_routes := routes; endpoint_errors := errors;
     node_runtime := units; node_task := λ _ _, Ok ("completed", Some 0%Z);
     node_prepare := λ _, match place_two Auto with Some report => Ok report | None => Err (Invalid "no placement") end;
     open_connections := λ _, Some 0%N; release_events := λ _, [];
     put_receipt := λ r, Ok ("rcpt_" +:+ dr_deployment_id r); status_versions := statuses c |}.

(** ** Schedules *)

Inductive Move : Type :=
| Round
| Advance
| Ask (op : Operation).

Definition tried (change : Change) (c : Control) : Control :=
  match commit change c with Ok c' => c' | Err _ => c end.

Lemma tried_attempt change c : attempt change c (tried change c).
Proof. unfold tried. destruct (commit change c) eqn:Hc; [by apply attempt_made|apply attempt_failed]. Qed.

Definition advance (units : Key → string → option UnitRuntime) (now : Z) (m : Move) (s : System) : option System :=
  match m with
  | Round =>
      let d := working_copy (control s) in
      let '(routes', errors') := sync_endpoints d (λ _ _, None) true (routes s) in
      let node := a_node units now routes' errors' (control s) in
      let c1 := tried (adopt_services a_config node d) (control s) in
      let c2 := tried (drain_instances a_config node d) c1 in
      Some {| control := c2; desired := d; queue := in_flight d; checked := checked s; routes := routes';
              errors := errors' |}
  | Advance =>
      match queue s with
      | [] => None
      | release :: rest =>
          let node := a_node units now (routes s) (errors s) (control s) in
          let '(result, checked') :=
            step a_config node (desired s) (desired s) (records (control s)) release (checked s) in
          let c' := match result with Ok (Some change) => tried change (control s) | _ => control s end in
          Some {| control := c'; desired := desired s; queue := rest; checked := checked'; routes := routes s;
                  errors := errors s |}
      end
  | Ask op =>
      let d := working_copy (control s) in
      let node := a_node units now (routes s) (errors s) (control s) in
      match queue s, operate a_config digest_of node d (records (control s)) op with
      | [], Ok change =>
          Some {| control := tried change (control s); desired := d; queue := []; checked := checked s;
                  routes := routes s; errors := errors s |}
      | _, _ => None
      end
  end.

Lemma advance_step units now m s s' : advance units now m s = Some s' → sys_step a_config digest_of s s'.
Proof.
  destruct m as [| |op]; unfold advance.
  - destruct (sync_endpoints _ _ _ _) as [routes' errors'] eqn:Hsync. intros [= <-].
    eapply (step_round _ _ s (a_node units now routes' errors' (control s))); [done..|apply tried_attempt|apply tried_attempt].
  - destruct (queue s) as [|release rest] eqn:Hq; [done|].
    destruct (step _ _ _ _ _ _ _) as [result checked'] eqn:Hstep. intros [= <-].
    eapply (step_release _ _ s (a_node units now (routes s) (errors s) (control s))); [done|done|by left|done|].
    destruct result as [[change|]|]; [apply tried_attempt|done..].
  - destruct (queue s) eqn:Hq; [|done]. destruct (operate _ _ _ _ _ _) as [change|] eqn:Hop; [|done]. intros [= <-].
    eapply (step_operate _ _ s (a_node units now (routes s) (errors s) (control s))); [done..|apply tried_attempt].
Qed.

Fixpoint run (units : Key → string → option UnitRuntime) (now : Z) (ms : list Move) (s : System) : option System :=
  match ms with
  | [] => Some s
  | m :: ms => s' ← advance units now m s; run units (now + 1000 * ReleaseSteps.ms)%Z ms s'
  end.

(** ** Where the runs start *)

Definition a_service (name : string) : RevisionWorkload :=
  {| rw_name := name; rw_kind := KindService; rw_bundle_id := "b_" +:+ name; rw_artifact := "a_" +:+ name;
     rw_workload_identity := "w_" +:+ name; rw_runtime := "process"; rw_runtime_version := None; rw_dependency := None;
     rw_distribution := None; rw_readiness := None; rw_ports := [{| ps_name := "http"; ps_port := 80 |}];
     rw_restart := RestartOnFailure; rw_desired_state := DesiredRunning |}.

Definition a_revision (project revision : string) (services : list string) (at_ : Z) : ProjectRevisionRecord :=
  {| rev_project_id := project_id_of project; rev_project := project; rev_revision := revision;
     rev_revision_digest := "sha256:" +:+ revision; rev_source := None; rev_workloads := a_service <$> services;
     rev_created_at := at_ |}.

Definition prod : Stored EnvironmentRecord :=
  {| st_id := "env_1"; st_version := 1;
     st_value := {| env_name := "prod"; env_desired_state := DesiredRunning; env_config := ∅; env_policy := None;
                    env_provider := None; env_has_computer := false; env_created_at := 0 |} |}.

Definition some_revisions : gmap string ProjectRevisionRecord :=
  {[ "rev_shop1" := a_revision "shop" "v1" ["api"; "web"] 1; "rev_shop2" := a_revision "shop" "v2" ["api"; "web"] 2;
     "rev_blog1" := a_revision "blog" "v1" ["site"] 3 ]}.

Definition start : System :=
  {| control :=
       {| records :=
            {| environments := {[ "prod" := prod ]}; memberships := ∅; workloads := ∅; deployments := ∅;
               revisions := some_revisions; instances := ∅; traffic := ∅; domains := ∅ |};
          statuses := ∅; events := []; next_version := 1 |};
     desired :=
       {| environments := {[ "prod" := prod ]}; memberships := ∅; workloads := ∅; deployments := ∅;
          revisions := ∅; instances := ∅; traffic := ∅; domains := ∅ |};
     queue := []; checked := ∅; routes := ∅; errors := ∅ |}.

Lemma start_initial : initial start.
Proof.
  split; [|by repeat split; vm_compute]. constructor; simpl; try by intros *; rewrite lookup_empty.
  - done.
  - done.
  - constructor; simpl; try by intros *; rewrite lookup_empty.
    intros k s [<- <-]%lookup_singleton_Some. done.
Qed.

Lemma run_reached units now ms s s' :
  run units now ms s = Some s' → reached a_config digest_of s → reached a_config digest_of s'.
Proof.
  revert now s. induction ms as [|m ms IH]; intros now s Hrun Hs; simpl in Hrun; [by injection Hrun as <-|].
  apply bind_Some in Hrun as (s1 & Hm & Hrun). eapply IH; [done|]. destruct Hs as (s0 & Hinit & Hreach).
  exists s0. split; [done|]. eapply reachable_step; [done|]. by eapply advance_step.
Qed.

Definition all_running : Key → string → option UnitRuntime := λ _ _, Some running.

Definition deploy_of (project revision : string) : Move :=
  Ask (Deploy {| dq_project := project; dq_environment := "prod"; dq_revision := Some revision; dq_config := None;
                 dq_desired_state := None; dq_placement := None; dq_artifact := None; dq_required_config := ∅ |} None).

(** As many rounds, each with one release advanced. *)
Definition rounds (n : nat) : list Move := concat (repeat [Round; Advance] n).

Definition state_after (units : Key → string → option UnitRuntime) (ms : list Move) : System :=
  default start (run units 1000 ms start).

Lemma after_reached units ms :
  is_Some (run units 1000 ms start) → reached a_config digest_of (state_after units ms).
Proof.
  intros [s Hs]. unfold state_after. rewrite Hs. simpl. eapply run_reached; [done|].
  exists start. split; [apply start_initial|constructor].
Qed.

(** ** What the theorems are applied to *)

(** A computed value has what it is evaluated to have. *)
Lemma computed {A} (o : option A) (x : A) (f : A → bool) : o = Some x → from_option f false o = true → f x = true.
Proof. by intros ->. Qed.

Lemma some_of {A} (o : option A) : match o with Some _ => true | None => false end = true → ∃ x, o = Some x.
Proof. destruct o as [x|]; [by exists x|done]. Qed.

Definition node_of (units : Key → string → option UnitRuntime) (s : System) : Node :=
  a_node units 100000 (routes s) (errors s) (control s).

(** The next release of a round, what its step decides, and the state once that is
    committed. *)
Definition head_step (node : Node) (s : System)
    : option (Stored DeploymentRecord * list (Stored DeploymentRecord) * Change * gmap string Z * Control) :=
  match queue s with
  | [] => None
  | release :: rest =>
      match step a_config node (desired s) (desired s) (records (control s)) release (checked s) with
      | (Ok (Some change), checked') =>
          match commit change (control s) with
          | Ok c' => Some (release, rest, change, checked', c')
          | Err _ => None
          end
      | _ => None
      end
  end.

Lemma head_step_some node s release rest change checked' c' :
  head_step node s = Some (release, rest, change, checked', c') →
  queue s = release :: rest ∧
  step a_config node (desired s) (desired s) (records (control s)) release (checked s) = (Ok (Some change), checked') ∧
  commit change (control s) = Ok c'.
Proof.
  unfold head_step. destruct (queue s) as [|r rs]; [done|].
  destruct (step _ _ _ _ _ _ _) as [[[ch|]|e] ck] eqn:Hstep; try done.
  destruct (commit ch (control s)) as [c|e] eqn:Hc; [|done]. by intros [= <- <- <- <- <-].
Qed.

Lemma head_step_fact node s release rest change checked' c' (f : Stored DeploymentRecord → Control → bool) :
  head_step node s = Some (release, rest, change, checked', c') →
  match head_step node s with Some (r, _, _, _, c) => f r c | None => false end = true → f release c' = true.
Proof. by intros ->. Qed.

(** A pass over the instances of the next release that finds one failed. *)
Definition failing_pass (node : Node) (s : System)
    : option (Stored DeploymentRecord * list (Stored DeploymentRecord) * ProjectRevisionRecord * Readying * string *
              Change * gmap string Z) :=
  match queue s with
  | [] => None
  | release :: rest =>
      revision ← revisions (desired s) !! dep_revision_id (st_value release);
      match ready_instances node (desired s) release revision
              {| ry_change := change_new; ry_results := ∅; ry_waiting := []; ry_timeout := 0; ry_checked := checked s |}
              (own_instances (desired s) release),
            await_readiness a_config node (desired s) release (checked s) with
      | (r, Some reason), (Ok (Some change), checked') => Some (release, rest, revision, r, reason, change, checked')
      | _, _ => None
      end
  end.

Lemma failing_pass_some node s release rest revision r reason change checked' :
  failing_pass node s = Some (release, rest, revision, r, reason, change, checked') →
  queue s = release :: rest ∧ revisions (desired s) !! dep_revision_id (st_value release) = Some revision ∧
  ready_instances node (desired s) release revision
    {| ry_change := change_new; ry_results := ∅; ry_waiting := []; ry_timeout := 0; ry_checked := checked s |}
    (own_instances (desired s) release) = (r, Some reason) ∧
  await_readiness a_config node (desired s) release (checked s) = (Ok (Some change), checked').
Proof.
  unfold failing_pass. destruct (queue s) as [|x xs]; [done|]. intros (rev & Hrev & Hp)%bind_Some.
  destruct (ready_instances _ _ _ _ _ _) as [ry [re|]] eqn:Hready; [|done].
  destruct (await_readiness _ _ _ _ _) as [[[ch|]|e] ck] eqn:Hawait; try done.
  by injection Hp as -> -> -> -> -> -> ->.
Qed.

Lemma failing_pass_fact node s release rest revision r reason change checked' (f : Stored DeploymentRecord → Readying → bool) :
  failing_pass node s = Some (release, rest, revision, r, reason, change, checked') →
  match failing_pass node s with Some (x, _, _, y, _, _, _) => f x y | None => false end = true → f release r = true.
Proof. by intros ->. Qed.

Definition first_deployed : list Move := deploy_of "shop" "rev_shop1" :: rounds 7.
(** The first version serves; the second was just asked for, and a round begins. *)
Definition second_pending : System := state_after all_running (first_deployed ++ [deploy_of "shop" "rev_shop2"; Round]).
(** The second version is about to be switched to. *)
Definition second_ready : System :=
  state_after all_running (first_deployed ++ deploy_of "shop" "rev_shop2" :: rounds 3 ++ [Round]).
(** The second version was switched to. *)
Definition second_switched : System :=
  state_after all_running (first_deployed ++ deploy_of "shop" "rev_shop2" :: rounds 4).
(** The first version is about to be complete. *)
Definition first_drained : System := state_after all_running (deploy_of "shop" "rev_shop1" :: rounds 6 ++ [Round]).

Definition api_fails : Key → string → option UnitRuntime :=
  λ k _, Some (if String.eqb (snd k) "api" then crashed else running).
(** The instances of the first version run; one of them is about to be found failed. *)
Definition first_failing : System :=
  state_after api_fails [deploy_of "shop" "rev_shop1"; Round; Advance; Round].

(** Two projects are released in the same rounds. *)
Definition both_switched : System :=
  state_after all_running
    (deploy_of "shop" "rev_shop1" :: deploy_of "blog" "rev_blog1" :: concat (repeat [Round; Advance; Advance] 4) ++ [Round]).

Ltac reaches := apply after_reached; apply (bool_decide_unpack _); vm_compute; exact I.

Lemma second_pending_reached : reached a_config digest_of second_pending.
Proof. reaches. Qed.
Lemma second_ready_reached : reached a_config digest_of second_ready.
Proof. reaches. Qed.
Lemma second_switched_reached : reached a_config digest_of second_switched.
Proof. reaches. Qed.
Lemma first_drained_reached : reached a_config digest_of first_drained.
Proof. reaches. Qed.
Lemma first_failing_reached : reached a_config digest_of first_failing.
Proof. reaches. Qed.
Lemma both_switched_reached : reached a_config digest_of both_switched.
Proof. reaches. Qed.

#[global] Opaque second_pending second_ready second_switched first_drained first_failing both_switched.
