(* ===== verification/ReleaseProperties.v ===== *)
(** What releases guarantee, and where they fall short: the theorems about every state
    the daemon reaches, each applied to a run. *)

From S2P Require Import Prelude Text Core Isolation Policy Admission Descriptor Matching Pool Placement State Auth Release ReleaseSteps ReleaseSystem ReleaseFacts ReleaseSafety ReleaseRoutes ReleaseRounds ReleaseReached ReleaseLifecycle ReleasePorts ReleaseRuns.

Section properties.
Context `{!Sha256Hex} (config : Config).
Context (config_digest : gmap string string → gmap string string → string).
Notation reached := (reached config config_digest).
Notation sys_step := (sys_step config config_digest).

(** C6: In every state the daemon reaches, whatever operators do, commits fail, readers
    refresh and the daemon restarts, each traffic assignment names an instance that
    exists and serves on the port it names, of the deployment that is current in its
    project, for an endpoint the running workload declares on that host port; a release
    it belongs to that is still in flight has been switched to. *)
Theorem traffic_serves s ep a :
  reached s → traffic (records (control s)) !! ep = Some a →
  (∃ m, memberships (records (control s)) !! ta_place (st_value a) = Some m ∧
        mem_deployment_id (st_value m) = Some (ta_deployment_id (st_value a))) ∧
  (∃ i, instances (records (control s)) !! ta_instance_id (st_value a) = Some i ∧
        inst_state (st_value i) = InstanceState.Serving ∧
        inst_deployment_id (st_value i) = ta_deployment_id (st_value a) ∧
        instance_key (st_value i) = ta_key (st_value a) ∧
        port_of (st_value i) (ta_port (st_value a)) = Some (ta_target_port (st_value a))) ∧
  (∃ w b, workloads (records (control s)) !! ta_key (st_value a) = Some w ∧
          wl_deployment_id (st_value w) = ta_deployment_id (st_value a) ∧ b ∈ wl_ports (st_value w) ∧
          pb_name b = ta_port (st_value a) ∧ pb_host b = ta_host_port (st_value a)) ∧
  (∀ r, deployments (records (control s)) !! ta_deployment_id (st_value a) = Some r → terminal r = false →
        has_moved (dep_status (st_value r)) = true).
Proof.
  intros [Hgood _ _ _ _]%reached_sound Ha. pose proof (good_traffic _ Hgood ep a Ha) as (Hcur & Hserve & w & b & Hw & Hb).
  split; [done|]. split; [done|]. split.
  - exists w, b. split; [done|]. split; [|done].
    apply (is_current_inj (records (control s)) (ta_place (st_value a))); [|done].
    rewrite ta_place_key. by apply (good_workload _ Hgood).
  - intros r Hr Hterm. by destruct (good_moved _ Hgood ep a r Ha Hr Hterm).
Qed.

(** C8: In every state the daemon reaches at most one release of a project in an
    environment is in flight, and no traffic goes to it before its switch: until then
    its instances only get ready. *)
Theorem one_release_in_flight s id r :
  reached s → deployments (records (control s)) !! id = Some r → terminal r = false →
  (∀ id' r', deployments (records (control s)) !! id' = Some r' → terminal r' = false →
             dep_place (st_value r') = dep_place (st_value r) → id' = id) ∧
  (has_moved (dep_status (st_value r)) = false →
   ∀ ep a, traffic (records (control s)) !! ep = Some a → ta_deployment_id (st_value a) ≠ id).
Proof.
  intros [Hgood _ _ _ _]%reached_sound Hr Hterm. split.
  - intros id' r' Hr' Hterm' Hp. by eapply (good_one _ Hgood).
  - intros Hmoved. by eapply unmoved_unrouted.
Qed.

(** C9: While a release is not switched and not being verified, none of its steps
    touches what serves, however it goes, failing included: no traffic assignment, no
    workload, no current deployment and no live instance of another deployment
    changes. *)
Theorem steps_touch_nothing_else s node release rest later change checked' c' :
  reached s → queue s = release :: rest → later = desired s ∨ later = working_copy (control s) →
  step config node (desired s) later (records (control s)) release (checked s) = (Ok (Some change), checked') →
  dep_status (st_value release) ≠ DeploymentStatus.NetworkReady →
  dep_status (st_value release) ≠ DeploymentStatus.Switching →
  commit change (control s) = Ok c' →
  traffic (records c') = traffic (records (control s)) ∧
  workloads (records c') = workloads (records (control s)) ∧
  (∀ q id, is_current (records c') q id ↔ is_current (records (control s)) q id) ∧
  (∀ id i, instances (records (control s)) !! id = Some i → inst_deployment_id (st_value i) ≠ st_id release →
           stopped_or_failed (inst_state (st_value i)) = false → instances (records c') !! id = Some i).
Proof.
  intros [Hgood Hwithin Hcopied _ Hqueue]%reached_sound Hq Hlater Hstep Hnr Hsw Hc.
  destruct (Hqueue release) as (Hr & Hflight & Hcovers); [rewrite Hq; by left|].
  assert (∃ d0, covers (dep_place (st_value release)) d0 (records (control s)) ∧ copied d0 (control s) ∧
    ∀ w, w ∈ ch_writes change → own_write (control s) d0 release (node_now node) w) as (d0 & Hcov & Hcop & Hown).
  { assert (covers (dep_place (st_value release)) later (records (control s)) ∧ copied later (control s)) as [Hlc Hlp].
    { destruct Hlater as [->| ->]; [done|]. split; [apply covers_working_copy|by apply copied_working_copy]. }
    destruct (step_own config node (control s) (desired s) later release change Hgood Hr Hflight Hcovers
                (checked s) checked' Hstep Hnr Hsw); [by exists (desired s)|by exists later]. }
  split; [|split; [|split]].
  - apply map_eq. intros ep. by eapply own_traffic.
  - apply map_eq. intros k. by eapply own_workloads.
  - intros q id. split; [|by eapply own_current]. intros (m & Hm & Hid). exists m. split; [|done]. by eapply own_member.
  - intros id i Hi Hne Hs. by eapply own_live.
Qed.

(** C7: The switch is atomic: after it was tried either control state is as it was, or
    the release is current, every workload and all traffic of its project are its own,
    exactly its instances serve, and every endpoint of a service leads to its instance
    there, on the port that instance has for it. *)
Theorem switch_is_atomic s node release rest change c' :
  reached s → queue s = release :: rest →
  is_Some (environments (desired s) !! dep_environment (st_value release)) →
  switch node (desired s) release = Ok (Some change) → attempt change (control s) c' →
  c' = control s ∨
  (serves_alone (records c') (dep_place (st_value release)) (st_id release) ∧
   (∃ r', deployments (records c') !! st_id release = Some r' ∧
          dep_status (st_value r') = DeploymentStatus.Switching) ∧
   ∃ revision, revisions (desired s) !! dep_revision_id (st_value release) = Some revision ∧
     ∀ rw i b port, rw ∈ rev_workloads revision → rw_kind rw = KindService →
       instance (desired s) (workload_key (st_value release) rw) (st_id release) = Some i →
       b ∈ routed_ports (desired s) (st_value release) (workload_key (st_value release) rw) →
       port_of (st_value i) (pb_name b) = Some port →
       ∃ a, traffic (records c') !! endpoint_of (dep_environment (st_value release)) (dep_project (st_value release))
                                      (rw_name rw) (pb_name b) = Some a ∧
            ta_instance_id (st_value a) = st_id i ∧ ta_target_port (st_value a) = port ∧
            ta_host_port (st_value a) = pb_host b).
Proof.
  intros [Hgood Hwithin Hcopied _ Hqueue]%reached_sound Hq He Hs Hatt. destruct Hatt as [c' Hc|]; [right|by left].
  destruct (Hqueue release) as (Hr & Hflight & Hcovers); [rewrite Hq; by left|].
  unfold switch in Hs. apply and_then_ok in Hs as ([routed moved] & Hroute & [= Hch]).
  destruct (route_writes node _ _ _ _ Hroute) as (revision & Hrev & Hrouted).
  eassert (Hchange : ∀ w, w ∈ ch_writes change ↔ w ∈ ch_writes routed ∨
    w = WDeployment (st_id release) (OpUpdate release (merge_deployment DeploymentStatus.Switching (node_now node) _))).
  { intros w. rewrite <-Hch. destruct moved; rewrite ?elem_of_event, elem_of_transition; reflexivity. }
  assert (Hplaced : placed (records (control s)) (st_id release) (dep_place (st_value release))) by by exists release.
  assert (He' : is_Some (environments (records (control s)) !! fst (dep_place (st_value release))))
    by by rewrite <-(covers_environment _ _ _ Hcovers).
  split; [|split].
  - by eapply (routed_alone node (control s) c' (desired s) release release); try by left.
  - edestruct (routed_release_made node (control s) c' (desired s) release release) as (r' & Hr' & _ & Hval);
      [done..|]. exists r'. by rewrite Hval.
  - exists revision. split; [done|]. intros rw i b port Hrw Hk Hi Hb Hport.
    destruct (elem_of_assigned node (desired s) release revision rw i b port) as (a & Ha & _ & _ & Hep & Hai & Hat & Hah); [done..|].
    edestruct (routed_assigned node (control s) c' (desired s) release release) as (x & Hx & Hxa); [done..|].
    exists x. rewrite <-Hep, Hxa. done.
Qed.

(** C10: Rolling a release back after its switch, by an operator, is atomic and restores
    what it replaced: after it was tried either control state is as it was, or that
    deployment is current again, has the workloads and all traffic, exactly its
    instances serve, and the release is recorded as rolled back. *)
Theorem rollback_restores s node r previous change c' :
  reached s → deployments (records (control s)) !! st_id r = Some r → has_moved (dep_status (st_value r)) = true →
  dep_previous (st_value r) = Some (st_id previous) →
  deployments (records (control s)) !! st_id previous = Some previous →
  rollback config node (working_copy (control s)) (records (control s)) (st_id r) = Ok (inl change) →
  attempt change (control s) c' →
  c' = control s ∨
  (serves_alone (records c') (dep_place (st_value r)) (st_id previous) ∧
   ∃ r', deployments (records c') !! st_id r = Some r' ∧ dep_status (st_value r') = DeploymentStatus.RolledBack ∧
         is_Some (dep_rollback_reason (st_value r'))).
Proof.
  intros [Hgood Hwithin Hcopied _ _]%reached_sound Hr Hmoved Hid Hprev Hrb Hatt.
  destruct Hatt as [c' Hc|]; [right|by left].
  assert (Hflight : terminal r = false) by (unfold terminal; by destruct (dep_status (st_value r))).
  assert (Hb : ∃ reason, roll_back config node (working_copy (control s)) (records (control s)) r reason = Ok change).
  { unfold rollback in Hrb. rewrite Hr in Hrb. cbv zeta in Hrb.
    destruct (dep_status (st_value r)); try done; apply and_then_ok in Hrb as (ch & Hb & [= ->]); by eexists. }
  destruct Hb as (reason & Hb).
  pose proof (covers_working_copy (dep_place (st_value r)) (control s)) as Hcovers.
  pose proof (copied_working_copy _ Hgood Hwithin) as Hwc.
  assert (Hrep : replaced (working_copy (control s)) r (records (control s)) = Some previous).
  { unfold replaced. rewrite Hid. cbn [mbind option_bind].
    destruct (deployments (working_copy (control s)) !! st_id previous) as [x|] eqn:Hx; [|done].
    apply working_copy_deployment in Hx. congruence. }
  assert (Hfetched : ∀ id x, deployments (records (control s)) !! id = Some x →
    st_id x = id ∧ (st_version x <= next_version (control s))%N ∧
    placed (records (control s)) id (dep_place (st_value x))).
  { intros id x Hx. split; [by apply (good_deployment _ Hgood)|].
    split; [by apply (within_deployments _ _ Hwithin id)|]. by exists x. }
  destruct (roll_back_routes config node (control s) (working_copy (control s)) r change Hgood Hr Hcovers Hwc
              (records (control s)) reason previous Hb Hrep Hfetched)
    as (Hp & Hplaced & _ & d0 & f & routed & moved & Hroute & Hw & Hcov & Hcop & Hreason).
  destruct (route_writes node _ _ _ _ Hroute) as (revision & _ & Hrouted). rewrite <-Hp in Hcov, Hplaced |- *.
  split.
  - by eapply (routed_alone node (control s) c' d0 previous r DeploymentStatus.RolledBack f); try by right.
  - edestruct (routed_release_made node (control s) c' d0 previous r DeploymentStatus.RolledBack f) as (r' & Hr' & _ & Hval);
      [done..|]. exists r'. rewrite Hval. split; [done|]. split; [done|]. simpl. by rewrite Hreason.
Qed.

(** C11: Whatever the daemon and operators do, a deployment stays recorded with what it
    is of, its status changes only along the edges of [may_follow], each further on than
    the one before (so at most seven times), a release that is over never changes, and a
    new one is pending. *)
Theorem release_lifecycle s s' id :
  reached s → sys_step s s' →
  (∀ r, deployments (records (control s)) !! id = Some r →
     ∃ r', deployments (records (control s')) !! id = Some r' ∧ st_id r' = st_id r ∧
       same_release (st_value r) (st_value r') ∧
       (r' = r ∨ (may_follow (dep_status (st_value r)) (dep_status (st_value r')) = true ∧ terminal r = false ∧
                  progress (dep_status (st_value r)) < progress (dep_status (st_value r')) <= 7))) ∧
  (∀ r', deployments (records (control s)) !! id = None → deployments (records (control s')) !! id = Some r' →
     dep_status (st_value r') = DeploymentStatus.Pending).
Proof.
  intros Hs%reached_sound Hstep. destruct (sys_step_lives _ _ _ _ Hstep Hs id) as [Hold Hnew]. split; [|done].
  intros r Hr. destruct (Hold r Hr) as (r' & Hr' & Hid & Hsame & Hst). exists r'. do 3 (split; [done|]).
  destruct Hst as [->|Hst]; [by left|right]. split; [done|]. split; [by eapply may_follow_flight|].
  split; [by apply may_follow_progress|]. by destruct (dep_status (st_value r')); simpl; lia.
Qed.

(** C12: A release that a step or an operator's rollback ends has a receipt that was
    stored before, of the record exactly as it is then, and its record names it. *)
Theorem finished_has_receipt s node r change c' r' :
  reached s → deployments (records (control s)) !! st_id r = Some r →
  (∃ rest later checked', queue s = r :: rest ∧
     step config node (desired s) later (records (control s)) r (checked s) = (Ok (Some change), checked')) ∨
  rollback config node (working_copy (control s)) (records (control s)) (st_id r) = Ok (inl change) →
  commit change (control s) = Ok c' → deployments (records c') !! st_id r = Some r' → terminal r' = true →
  terminal r = false →
  ∃ receipt, dep_receipt (st_value r') = Some receipt ∧
             put_receipt node (receipt_of config node (st_id r') (st_value r')) = Ok receipt.
Proof.
  intros [Hgood Hwithin _ _ Hqueue]%reached_sound Hr Hby Hc Hr' Hover Hflight.
  assert (Hm : moves_only config node r change).
  { destruct Hby as [(rest & later & checked' & Hq & Hstep)|Hrb]; [by eapply step_moves|].
    by destruct (rollback_moves _ _ _ _ _ _ _ Hrb Hr). }
  destruct (commit_deployment change (control s) c' (st_id r) Hc)
    as [Heq|[(i & v & x' & Hin & _)|(r0 & f & x & x' & Hin & Hx & Hx' & Hid & Hval)]].
  - intros op (_ & st & f & -> & _)%Hm. right. eexists _, _. split; [done|].
    by apply (within_deployments _ _ Hwithin (st_id r)).
  - congruence.
  - by apply Hm in Hin as (_ & st & f & ? & _).
  - assert (x = r ∧ x' = r') as [-> ->] by (split; congruence).
    apply Hm in Hin as (_ & st & f' & [= -> ->] & _ & Hreceipt).
    unfold terminal in Hover. rewrite Hval in Hover. destruct (Hreceipt Hover) as (receipt & Hf & Hput).
    exists receipt. rewrite Hid, Hval. split; [|done]. simpl. by rewrite Hf.
Qed.

(** C13: What admission plans for a release: instance ports within their range that
    could be bound, all different and used by no live instance the working copy holds;
    every port of a service keeps the host port its endpoint has, and a new endpoint
    gets a bindable port of the range that no workload, assignment or other release the
    working copy holds uses. *)
Theorem admitted_ports node d release environment revision :
  let a := admit_workloads config node d environment (st_value release) revision (rev_workloads revision)
             (used_endpoints d release) (used_instances d) in
  NoDup (concat ((λ x : RevisionWorkload * string * list PortBinding, pb_host <$> snd x) <$> adm_instances a)) ∧
  (∀ w id ports b, (w, id, ports) ∈ adm_instances a → b ∈ ports →
     in_range (instance_port_range config) (pb_host b) ∧ instance_binds node (pb_host b) = true ∧
     ∀ k i b', instances d !! k = Some i → stopped_or_failed (inst_state (st_value i)) = false →
               b' ∈ inst_ports (st_value i) → pb_host b' ≠ pb_host b) ∧
  (∀ e, e ∈ adm_evidence a → ∃ w, w ∈ rev_workloads revision ∧ dw_name e = rw_name w ∧
     (rw_kind w = KindService →
      length (dw_endpoints e) = length (rw_ports w) ∧
      ∀ n port b, rw_ports w !! n = Some port → dw_endpoints e !! n = Some b →
        pb_name b = ps_name port ∧
        match kept_port d (workload_key (st_value release) w) port with
        | Some host => pb_host b = host
        | None =>
            in_range (port_range config) (pb_host b) ∧ endpoint_binds node (pb_host b) = true ∧
            (∀ k x b', workloads d !! k = Some x → b' ∈ wl_ports (st_value x) → pb_host b' ≠ pb_host b) ∧
            (∀ ep t, traffic d !! ep = Some t → ta_host_port (st_value t) ≠ pb_host b) ∧
            (∀ k o e' b', deployments d !! k = Some o → terminal o = false → st_id o ≠ st_id release →
               e' ∈ dep_workloads (st_value o) → b' ∈ dw_endpoints e' → pb_host b' ≠ pb_host b)
        end)).
Proof.
  intros a. pose proof (admit_workloads_ports config node d environment (st_value release) revision
    (rev_workloads revision) (used_endpoints d release) (used_instances d)) as [Hnd Hin Hev]. fold a in Hnd, Hin, Hev.
  clearbody a. split; [done|]. split.
  - intros w id ports b Hw Hb. destruct (Hin _ _ _ Hw) as (_ & _ & _ & Hf). rewrite Forall_forall in Hf.
    destruct (Hf b Hb) as (Hr & Hu & Hbind). split; [done|]. split; [done|]. intros k i b' Hi Hlive Hb' Heq.
    apply Hu. rewrite <-Heq. by eapply elem_of_used_instances.
  - intros e He. destruct (Hev e He) as (w & Hw & Hn & Hends). exists w. split; [done|]. split; [done|]. intros Hk.
    rewrite Hk in Hends. split; [by apply Forall2_length in Hends|]. intros n port b Hport Hb.
    destruct (Forall2_lookup_lr _ _ _ _ _ _ Hends Hport Hb) as (Hname & _ & Hkept). split; [done|].
    change (dep_environment (st_value release), dep_project (st_value release), rw_name w)
      with (workload_key (st_value release) w) in Hkept.
    destruct (kept_port _ _ _); [done|]. destruct Hkept as (Hr & Hu & Hbind). do 2 (split; [done|]).
    rewrite elem_of_used_endpoints in Hu. split; [|split].
    + intros k x b' Hx Hb' Heq. apply Hu. left. by exists k, x, b'.
    + intros ep t Ht Heq. apply Hu. right; left. by exists ep, t.
    + intros k o e' b' Ho Hterm Hne He' Hb' Heq. apply Hu. right; right. by exists k, o, e', b'.
Qed.

(** C14: When an instance of a release turns ready in the same pass in which another one
    fails before it is ready, the change that would fail the release writes the first
    one twice, each time from the version it was read at: control state always refuses
    it, and the release stays as it was. *)
Theorem readiness_failure_refused s node release rest revision r reason change checked' :
  reached s → queue s = release :: rest → dep_status (st_value release) = DeploymentStatus.Starting →
  revisions (desired s) !! dep_revision_id (st_value release) = Some revision →
  ready_instances node (desired s) release revision
    {| ry_change := change_new; ry_results := ∅; ry_waiting := []; ry_timeout := 0; ry_checked := checked s |}
    (own_instances (desired s) release) = (r, Some reason) →
  ch_writes (ry_change r) ≠ [] →
  Forall (λ i, stopped_or_failed (inst_state (st_value i)) = false) (own_instances (desired s) release) →
  await_readiness config node (desired s) release (checked s) = (Ok (Some change), checked') →
  ∃ e, commit change (control s) = Err e.
Proof.
  intros [Hgood Hwithin Hcopied _ Hqueue]%reached_sound Hq Hst Hrev Hready Hsome Hlive Hawait.
  destruct (commit change (control s)) as [c'|e] eqn:Hc; [exfalso|by exists e].
  destruct (Hqueue release) as (Hr & Hflight & Hcovers); [rewrite Hq; by left|].
  unfold await_readiness in Hawait. rewrite Hrev, Hready in Hawait. injection Hawait as Hfail _.
  apply and_then_ok in Hfail as (ch & Hfail & [= ->]).
  destruct (ch_writes (ry_change r)) as [|w ws] eqn:Hws; [done|].
  destruct (ready_instances_writes _ _ _ _ _ _ _ _ Hready w) as [Hw|(i & f & Hi & Hw)];
    [rewrite Hws; by left|by apply elem_of_change_new in Hw|]. subst w.
  assert (Hun : unrouted (records (control s)) (st_id release)) by (eapply unmoved_unrouted; [done|done|done|by rewrite Hst]).
  assert (Hown : ∀ w, w ∈ ch_writes change → own_write (control s) (desired s) release (node_now node) w).
  { apply (await_own config node (control s) release (desired s) (checked s) (ry_checked r)); [|done].
    unfold await_readiness. rewrite Hrev, Hready. by rewrite Hfail. }
  eapply (fails_twice config node (control s) c' (desired s) release change (ry_change r) i f reason);
    [by eapply own_fenced|done|done| |by rewrite Hws; left|done..|].
  - intros id x Hx. apply (ready_instances_writes _ _ _ _ _ _ _ _ Hready) in Hx
      as [Hx|(? & ? & _ & ?)]; [by apply elem_of_change_new in Hx|done].
  - rewrite Forall_forall in Hlive. by apply Hlive.
Qed.
End properties.

(** ** The runs *)

#[local] Existing Instance counting_digest.

(** Two projects that are first released in the same rounds can be given the same
    endpoint port and the same instance port: in a state the daemon reaches, traffic of
    both is assigned, on one host port, and that port leads to an instance of one. *)
Theorem endpoint_ports_collide :
  reached a_config digest_of both_switched ∧
  ∃ ep ep' a a' route,
    traffic (records (control both_switched)) !! ep = Some a ∧
    traffic (records (control both_switched)) !! ep' = Some a' ∧
    ta_project (st_value a) ≠ ta_project (st_value a') ∧ ta_host_port (st_value a) = ta_host_port (st_value a') ∧
    ta_target_port (st_value a) = ta_target_port (st_value a') ∧
    routes both_switched !! ta_host_port (st_value a) = Some route ∧
    rt_instance_id route = ta_instance_id (st_value a) ∧ rt_instance_id route ≠ ta_instance_id (st_value a').
Proof.
  split; [apply both_switched_reached|].
  exists "prod/shop/api/http", "prod/blog/site/http". do 3 eexists.
  split; [vm_compute; reflexivity|]. split; [vm_compute; reflexivity|]. split; [vm_compute; discriminate|].
  split; [vm_compute; reflexivity|]. split; [vm_compute; reflexivity|]. split; [vm_compute; reflexivity|].
  split; [vm_compute; reflexivity|]. vm_compute. discriminate.
Qed.

Lemma traffic_serves_witness :
  ∃ s ep a i, reached a_config digest_of s ∧ traffic (records (control s)) !! ep = Some a ∧
    instances (records (control s)) !! ta_instance_id (st_value a) = Some i ∧
    inst_state (st_value i) = InstanceState.Serving.
Proof.
  destruct (some_of (traffic (records (control second_switched)) !! "prod/shop/api/http")) as [a Ha]; [vm_compute; reflexivity|].
  destruct (traffic_serves a_config digest_of second_switched _ a second_switched_reached Ha)
    as (_ & (i & Hi & Hs & _) & _).
  exists second_switched, "prod/shop/api/http", a, i.
  split; [apply second_switched_reached|]. split; [exact Ha|]. split; [exact Hi|exact Hs].
Defined.

Lemma one_release_in_flight_witness :
  ∃ s id r, reached a_config digest_of s ∧ deployments (records (control s)) !! id = Some r ∧ terminal r = false ∧
    ∀ ep a, traffic (records (control s)) !! ep = Some a → ta_deployment_id (st_value a) ≠ id.
Proof.
  destruct (some_of (deployments (records (control second_ready)) !! "dep_320514416102279640")) as [r Hr]; [vm_compute; reflexivity|].
  assert (Hterm : negb (terminal r) = true)
    by (apply (computed _ r (λ r, negb (terminal r)) Hr); vm_compute; reflexivity).
  assert (Hmoved : negb (has_moved (dep_status (st_value r))) = true)
    by (apply (computed _ r (λ r, negb (has_moved (dep_status (st_value r)))) Hr); vm_compute; reflexivity).
  apply negb_true_iff in Hterm, Hmoved.
  exists second_ready, "dep_320514416102279640", r. split; [apply second_ready_reached|]. split; [exact Hr|].
  split; [exact Hterm|].
  exact (proj2 (one_release_in_flight a_config digest_of second_ready _ r second_ready_reached Hr Hterm) Hmoved).
Defined.

Lemma steps_touch_nothing_else_witness :
  ∃ s release change c', reached a_config digest_of s ∧ head (queue s) = Some release ∧
    commit change (control s) = Ok c' ∧ traffic (records (control s)) ≠ ∅ ∧
    traffic (records c') = traffic (records (control s)).
Proof.
  destruct (some_of (head_step (node_of all_running second_pending) second_pending)) as [[[[[release rest] change] checked'] c'] Hs]; [vm_compute; reflexivity|].
  assert (Hst : bool_decide (dep_status (st_value release) = DeploymentStatus.Pending) = true)
    by (apply (head_step_fact _ _ _ _ _ _ _ (λ r _, bool_decide (dep_status (st_value r) = DeploymentStatus.Pending)) Hs);
        vm_compute; reflexivity).
  apply bool_decide_eq_true in Hst. apply head_step_some in Hs as (Hq & Hstep & Hc).
  assert (Hbusy : traffic (records (control second_pending)) ≠ ∅).
  { intros Heq. assert (Hsize : N.eqb (N.of_nat (size (traffic (records (control second_pending))))) 0 = false)
      by (vm_compute; reflexivity).
    rewrite Heq in Hsize. discriminate Hsize. }
  exists second_pending, release, change, c'. split; [apply second_pending_reached|]. split; [by rewrite Hq|].
  split; [exact Hc|]. split; [exact Hbusy|].
  apply (steps_touch_nothing_else a_config digest_of second_pending (node_of all_running second_pending) release rest
    (desired second_pending) change checked' c' second_pending_reached Hq (or_introl eq_refl) Hstep);
    [rewrite Hst; discriminate|rewrite Hst; discriminate|exact Hc].
Defined.

Lemma switch_is_atomic_witness :
  ∃ s release c', reached a_config digest_of s ∧ head (queue s) = Some release ∧ c' ≠ control s ∧
    serves_alone (records c') (dep_place (st_value release)) (st_id release).
Proof.
  destruct (some_of (head_step (node_of all_running second_ready) second_ready)) as [[[[[release rest] change] checked'] c'] Hs]; [vm_compute; reflexivity|].
  assert (Henv : bool_decide (is_Some (environments (desired second_ready) !! dep_environment (st_value release))) = true)
    by (apply (head_step_fact _ _ _ _ _ _ _ (λ r _,
          bool_decide (is_Some (environments (desired second_ready) !! dep_environment (st_value r)))) Hs);
        vm_compute; reflexivity).
  assert (Hsw : is_ok (switch (node_of all_running second_ready) (desired second_ready) release) = true)
    by (apply (head_step_fact _ _ _ _ _ _ _ (λ r _,
          is_ok (switch (node_of all_running second_ready) (desired second_ready) r)) Hs); vm_compute; reflexivity).
  apply bool_decide_eq_true in Henv. apply head_step_some in Hs as (Hq & _ & _).
  destruct (switch (node_of all_running second_ready) (desired second_ready) release) as [[ch|]|e] eqn:Hswitch;
    [| |discriminate Hsw].
  2:{ unfold switch in Hswitch. destruct (route_to _ _ _ _) as [[? ?]|?]; discriminate Hswitch. }
  assert (Hfresh : match queue second_ready with
    | r :: _ => match switch (node_of all_running second_ready) (desired second_ready) r with
                | Ok (Some ch) => match commit ch (control second_ready) with
                                  | Ok c => negb (N.eqb (next_version c) (next_version (control second_ready)))
                                  | Err _ => false end
                | _ => false end
    | [] => false end = true) by (vm_compute; reflexivity).
  rewrite Hq, Hswitch in Hfresh. destruct (commit ch (control second_ready)) as [c1|e] eqn:Hc; [|discriminate Hfresh].
  assert (Hne : c1 ≠ control second_ready) by (intros Heq; rewrite Heq, N.eqb_refl in Hfresh; discriminate Hfresh).
  destruct (switch_is_atomic a_config digest_of second_ready (node_of all_running second_ready) release rest ch c1
    second_ready_reached Hq Henv Hswitch (attempt_made _ _ _ Hc)) as [Hsame|[Halone _]]; [by destruct Hne|].
  exists second_ready, release, c1. split; [apply second_ready_reached|]. split; [by rewrite Hq|].
  split; [exact Hne|exact Halone].
Defined.

Lemma rollback_restores_witness :
  ∃ s r (previous : Stored DeploymentRecord) c', reached a_config digest_of s ∧ deployments (records (control s)) !! st_id r = Some r ∧
    c' ≠ control s ∧ serves_alone (records c') (dep_place (st_value r)) (st_id previous).
Proof.
  destruct (some_of (deployments (records (control second_switched)) !! "dep_320514416102279640")) as [r Hr]; [vm_compute; reflexivity|].
  destruct (some_of (deployments (records (control second_switched)) !! "dep_320514416102279639")) as [previous Hp]; [vm_compute; reflexivity|].
  pose proof (good_deployment _ (sound_good _ (reached_sound a_config digest_of _ second_switched_reached)) _ _ Hr) as Hid.
  pose proof (good_deployment _ (sound_good _ (reached_sound a_config digest_of _ second_switched_reached)) _ _ Hp) as Hpid.
  assert (Hmoved : has_moved (dep_status (st_value r)) = true)
    by (apply (computed _ r (λ r, has_moved (dep_status (st_value r))) Hr); vm_compute; reflexivity).
  assert (Hprev : bool_decide (dep_previous (st_value r) = Some "dep_320514416102279639") = true)
    by (apply (computed _ r (λ r, bool_decide (dep_previous (st_value r) = Some "dep_320514416102279639")) Hr); vm_compute; reflexivity).
  apply bool_decide_eq_true in Hprev.
  assert (Hrb : match rollback a_config (node_of all_running second_switched) (working_copy (control second_switched))
                  (records (control second_switched)) "dep_320514416102279640" with
    | Ok (inl ch) => match commit ch (control second_switched) with
                     | Ok c => negb (N.eqb (next_version c) (next_version (control second_switched)))
                     | Err _ => false end
    | _ => false end = true) by (vm_compute; reflexivity).
  destruct (rollback _ _ _ _ _) as [[ch|?]|?] eqn:Hback; [|discriminate Hrb|discriminate Hrb].
  destruct (commit ch (control second_switched)) as [c1|e] eqn:Hc; [|discriminate Hrb].
  assert (Hne : c1 ≠ control second_switched) by (intros Heq; rewrite Heq, N.eqb_refl in Hrb; discriminate Hrb).
  exists second_switched, r, previous, c1. split; [apply second_switched_reached|].
  split; [by rewrite Hid|]. split; [exact Hne|].
  destruct (rollback_restores a_config digest_of second_switched (node_of all_running second_switched) r previous ch c1)
    as [Hsame|[Halone _]];
    [apply second_switched_reached|rewrite Hid; exact Hr|exact Hmoved|rewrite Hpid; exact Hprev|rewrite Hpid; exact Hp
    |rewrite Hid; exact Hback|by apply attempt_made|by destruct Hne|exact Halone].
Defined.

Lemma release_lifecycle_witness :
  ∃ s s' id r r', reached a_config digest_of s ∧ sys_step a_config digest_of s s' ∧
    deployments (records (control s)) !! id = Some r ∧ deployments (records (control s')) !! id = Some r' ∧
    same_release (st_value r) (st_value r').
Proof.
  destruct (some_of (advance all_running 100000 Advance second_ready)) as [s' Hs]; [vm_compute; reflexivity|].
  apply advance_step in Hs.
  destruct (some_of (deployments (records (control second_ready)) !! "dep_320514416102279640")) as [r Hr]; [vm_compute; reflexivity|].
  destruct (release_lifecycle a_config digest_of second_ready s' "dep_320514416102279640" second_ready_reached Hs)
    as [Hold _].
  destruct (Hold r Hr) as (r' & Hr' & _ & Hsame & _).
  exists second_ready, s', "dep_320514416102279640", r, r'. split; [apply second_ready_reached|].
  split; [exact Hs|]. split; [exact Hr|]. split; [exact Hr'|exact Hsame].
Defined.

Lemma finished_has_receipt_witness :
  ∃ s r r' receipt c', reached a_config digest_of s ∧ deployments (records (control s)) !! st_id r = Some r ∧
    terminal r = false ∧ deployments (records c') !! st_id r = Some r' ∧ terminal r' = true ∧
    put_receipt (node_of all_running s) (receipt_of a_config (node_of all_running s) (st_id r') (st_value r')) = Ok receipt.
Proof.
  destruct (some_of (head_step (node_of all_running first_drained) first_drained)) as [[[[[r rest] change] checked'] c'] Hs]; [vm_compute; reflexivity|].
  assert (Hover : match deployments (records c') !! st_id r with Some r' => terminal r' | None => false end = true)
    by (apply (head_step_fact _ _ _ _ _ _ _ (λ r c',
          match deployments (records c') !! st_id r with Some r' => terminal r' | None => false end) Hs);
        vm_compute; reflexivity).
  apply head_step_some in Hs as (Hq & Hstep & Hc).
  destruct (deployments (records c') !! st_id r) as [r'|] eqn:Hr'; [|discriminate Hover].
  destruct (sound_queue _ (reached_sound a_config digest_of _ first_drained_reached) r) as (Hr & Hflight & _);
    [rewrite Hq; by left|].
  destruct (finished_has_receipt a_config digest_of first_drained (node_of all_running first_drained) r change c' r'
    first_drained_reached Hr) as (receipt & _ & Hput);
    [left; exists rest, (desired first_drained), checked'; split; [exact Hq|exact Hstep]|exact Hc|exact Hr'|exact Hover|exact Hflight|].
  exists first_drained, r, r', receipt, c'. split; [apply first_drained_reached|]. split; [exact Hr|].
  split; [exact Hflight|]. split; [exact Hr'|]. split; [exact Hover|exact Hput].
Defined.

Lemma readiness_failure_refused_witness :
  ∃ s release r e change, reached a_config digest_of s ∧ head (queue s) = Some release ∧
    dep_status (st_value release) = DeploymentStatus.Starting ∧ ch_writes (ry_change r) ≠ [] ∧
    commit change (control s) = Err e.
Proof.
  destruct (some_of (failing_pass (node_of api_fails first_failing) first_failing))
    as [[[[[[[release rest] revision] r] reason] change] checked'] Hp]; [vm_compute; reflexivity|].
  assert (Hst : bool_decide (dep_status (st_value release) = DeploymentStatus.Starting) = true)
    by (apply (failing_pass_fact _ _ _ _ _ _ _ _ _ (λ x _, bool_decide (dep_status (st_value x) = DeploymentStatus.Starting)) Hp);
        vm_compute; reflexivity).
  assert (Hsome : match ch_writes (ry_change r) with [] => false | _ => true end = true)
    by (apply (failing_pass_fact _ _ _ _ _ _ _ _ _ (λ _ y, match ch_writes (ry_change y) with [] => false | _ => true end) Hp);
        vm_compute; reflexivity).
  assert (Hlive : forallb (λ i, negb (stopped_or_failed (inst_state (st_value i)))) (own_instances (desired first_failing) release) = true)
    by (apply (failing_pass_fact _ _ _ _ _ _ _ _ _ (λ x _, forallb (λ i, negb (stopped_or_failed (inst_state (st_value i))))
          (own_instances (desired first_failing) x)) Hp); vm_compute; reflexivity).
  apply bool_decide_eq_true in Hst. apply failing_pass_some in Hp as (Hq & Hrev & Hready & Hawait).
  assert (Hwrites : ch_writes (ry_change r) ≠ []) by (intros Heq; rewrite Heq in Hsome; discriminate Hsome).
  assert (Hall : Forall (λ i, stopped_or_failed (inst_state (st_value i)) = false) (own_instances (desired first_failing) release)).
  { apply Forall_forall. intros i Hi. rewrite forallb_forall in Hlive. apply list_elem_of_In in Hi.
    apply Hlive in Hi. by apply negb_true_iff in Hi. }
  destruct (readiness_failure_refused a_config digest_of first_failing (node_of api_fails first_failing) release rest
    revision r reason change checked' first_failing_reached Hq Hst Hrev Hready Hwrites Hall Hawait) as (e & He).
  exists first_failing, release, r, e, change. split; [apply first_failing_reached|]. split; [by rewrite Hq|].
  split; [exact Hst|]. split; [exact Hwrites|exact He].
Defined.
